(* ===== verification/_CoqProject ===== *)
-Q . S2P
Prelude.v
RowKey.v
PageLayout.v
Values.v
IndexKey.v
Tuple.v
Version.v
TxManager.v
Overflow.v
DataPage.v
DataScan.v
WalRecord.v
WalLog.v
Recovery.v
BTreeNode.v
BTree.v
BTreeInsert.v
IndexManager.v
DataChain.v
Text.v
DateTime.v
Like.v
Expr.v
Table.v
Budget.v
Executor.v
Ordering.v
Hashing.v
Operators.v
Sort.v
Joins.v
JoinStreams.v
Aggregate.v
Subquery.v
SubqueryStreams.v
Plan.v
PlanFormat.v
Pipeline.v
PlanMeaning.v
TableAccess.v
Statements.v
StoredIndexes.v
StoredTables.v
StoredUpdates.v
Rollback.v
StoredScans.v
StoredCommits.v
