(* ===== verification/Prelude.v ===== *)
(** * A verification of the RTsql database engine

    RTsql is a relational database in Rust: SQL text is parsed and planned,
    plans are run by a tree of executors, rows are versioned tuples on slotted
    4096-byte pages, indexes are B-trees over the same page pool, and every
    change is logged ahead and replayed after a crash.  This library models the
    engine below the planner and proves what its parts promise each other.

    ** The parts and their files

    Storage.
    - [Prelude]: outcomes of Rust code ([exec]: value, error or panic), machine
      words, slices, little- and big-endian numbers, UTF-8, the shared tactics
      and hints.
    - [RowKey]: [storage/page_format/key.rs], [row_id.rs].
    - [PageLayout]: [slotted_page.rs]; bytes and cached header, with the list of
      entries as the abstraction.
    - [Values], [IndexKey]: [executor/value.rs], [value_ref.rs] and the index key
      encodings.
    - [Tuple]: [tuple.rs], rows under changing schemas.
    - [Version], [TxManager]: [transaction/*.rs] and
      [Database::statement_snapshot]; interleavings are lists of steps.
    - [Overflow], [DataPage], [DataScan]: [overflow.rs], [data_page.rs],
      [executor/data_scan.rs] and the reads of [buffer_pool.rs].
    - [WalRecord], [WalLog], [Recovery]: [wal/*.rs], group commit, checkpoints
      and replay; a crash is a state between two writes.
    - [BTreeNode], [BTree], [BTreeInsert], [IndexManager]: [storage/btree/*.rs]
      and the page check of [integrity.rs].

    Execution.
    - [Text], [DateTime], [Like], [Expr]: the standard library's text functions,
      [executor/datetime.rs], [predicate.rs], [function.rs].
    - [Budget]: [query_budget.rs], and the monad of the executors.
    - [Executor]: the [Executor] trait as a class with its laws, streams, and the
      operators that pass rows on ([filter.rs], [having.rs], [projection.rs],
      [limit.rs], [derived_scan.rs], [single_row.rs]).
    - [Ordering], [Hashing]: what is used of the standard library's sorts and
      hash tables, as classes with the laws their documentation states.
    - [Operators], [Sort], [Joins], [JoinStreams]: [distinct.rs],
      [set_operation.rs], [sort.rs], [join.rs], [nested_loop_join.rs],
      [sort_merge_join.rs].
    - [Aggregate]: [aggregate.rs].
    - [Subquery], [SubqueryStreams]: [semi_join.rs], [anti_join.rs],
      [subquery_eval.rs], [scalar_subquery_filter.rs], over the class [SubPlan] of
      what builds an executor from a plan; a plan is shared between the rows it
      is rebuilt for, as the parameter cells of the code are.
    - [Plan], [PlanFormat]: the SELECT nodes of [plan.rs], [correlated.rs], the
      column maps of [pipeline.rs], [plan_format.rs], [explain.rs].
    - [Pipeline], [PlanMeaning]: [create_executor_from_plan] of [pipeline.rs] and
      its boxed executors, which discharge [SubPlan]; what a plan means, and that
      its executor computes it.  Table accesses are the class [Tables].

    Tables and statements.
    - [Table]: the metadata of a table and the state of a column being dropped
      ([storage/data/table_manager.rs]).
    - [TableAccess]: the leaves of a plan ([scan.rs], [data_scan.rs],
      [index_scan.rs], [index_scan_all.rs], [index_range_scan.rs]) as instances of
      the executor class, and the [Tables] that [pipeline.rs] opens for a plan.
    - [Statements]: [insert.rs], [update.rs], [delete.rs], [upsert.rs] and
      [TableManager::write_tuple], over one state of pages, page summaries, table,
      transactions and log.
    - [DataChain], [StoredIndexes], [StoredTables], [StoredUpdates]: the page
      chain of a table, the trees of its indexes and the free pages as one
      invariant, the list of versions as the abstraction, and what INSERT and
      UPDATE leave for those who read by key.
    - [Rollback]: begin, commit and abort of [transaction/manager.rs] down to the
      version headers and index entries of a table.
    - [StoredScans], [StoredCommits]: the stream of a scan as a function of the
      versions and the reader; what a committed transaction leaves to the readers
      after it.

    ** What the theorems show

    Pages and rows: every page operation acts on the list of entries, stays
    inside the page on any bytes, and encodings read back ([page_refines],
    [tuple_roundtrip], [frame_roundtrip], [decode_hostile_bytes]); a written row
    reads back, inline or in an overflow chain ([write_read_tuple]).

    Visibility: in every interleaving a statement sees the transactions that had
    committed at its start, and a scan returns exactly the newest version of
    each row it may see ([statement_snapshot_stable], [scan_exact]).

    Indexes: a B-tree of any height refines a finite map, keys order as rows do,
    range scans are exact ([index_insert_refines], [composite_key_order],
    [scan_range_exact]).

    Logging: a committer that waits is woken, one that is woken is durable, the
    log reads back, a crash at any step of a checkpoint loses no committed record,
    with the flaws found on the way ([waiting_commit_woken],
    [group_commit_durable], [checkpoint_crash_safe]).

    Expressions and operators: evaluation never panics but for one division,
    dates and casts read back, LIKE is its pattern language; each operator turns
    the streams of its inputs into the stream of a list function, and the three
    joins compute the same one ([row_operators_exact], [sort_exact],
    [equi_joins_exact], [hash_join_is_nested_loop]).

    Queries: grouping, IN, EXISTS and scalar subqueries, correlated or not, are
    what SQL's three-valued logic says ([group_by_exact], [in_subquery_exact],
    [correlated_subquery_exact], [scalar_where_exact]); and the executor built for
    a whole plan runs to a stream the plan stands for ([plan_executor_refines]).
    EXPLAIN shows the plan ([explain_roundtrip]).

    Statements: what INSERT and UPDATE write is found by key by exactly the
    readers that may see it, with the older version for the others
    ([insert_then_lookup], [update_then_lookup]); a whole committed transaction
    adds its rows to what later readers scan and find, and to nobody else's view
    ([committed_insert_visible]); a statement that rejects a row changes nothing
    ([rejected_row_unchanged]).  Examples show where page summaries and index
    entries hide rows that a scan returns, and three rollbacks that do not restore
    the table.

    ** Modelling decisions

    Integers are [Z] with their width written where it matters; bytes are
    [Byte.byte]; strings are their UTF-8 bytes; a float is its 64 bits.  A page
    pool is a finite map from page numbers to images; asynchronous calls are
    sequential unless a theorem interleaves them.  Loops that follow data run on
    fuel and answer nothing when it is spent: the theorems give fuel that is
    enough (the number of pages of a chain, the height of a tree, the length of
    the input), or, for executors, say that a stream is produced with enough
    fuel and that more fuel changes no answer.  A tree of boxed executors runs to
    a bounded depth: the height of its plan is enough, and more changes nothing.

    Parameters, not definitions: the checksum of the log ([crc32fast]), the
    clock, [powi], Unicode lower case, the choice of the unstable sort among
    equal elements, the probing of hash tables and the order they iterate in, the
    [Debug] text of predicates; plans are proved against any table accesses that
    keep the executor laws, which [TableAccess] discharges.

    ** Not modelled

    The parser (a third-party crate) and the planner over its syntax trees, the
    session facade and the statement dispatch of the pipeline, the catalog pages
    and the schema changes of the table manager, the file and buffer pool I/O, the
    encryption calls, the command line and its network protocol. *)

From Stdlib Require Import ZArith Strings.Byte Lia.
From stdpp Require Import base tactics list numbers gmap.

#[global] Open Scope Z_scope.
Abbreviation byte := Byte.byte.

(** * Outcomes of Rust code

    A Rust function that returns a [Result] and may also panic (a failed
    [assert!], an out-of-range slice, an index underflow) has three outcomes. *)

Inductive exec (E A : Type) : Type :=
| Ok (a : A)
| Err (e : E)
| Panic.
Arguments Ok {E A} a.
Arguments Err {E A} e.
Arguments Panic {E A}.

Definition exec_bind {E A B} (m : exec E A) (k : A -> exec E B) : exec E B :=
  match m with
  | Ok a => k a
  | Err e => Err e
  | Panic => Panic
  end.

(** The [map_err] of a [Result]: the error is translated, a panic is not. *)
Definition exec_map_err {E F A} (f : E -> F) (m : exec E A) : exec F A :=
  match m with
  | Ok a => Ok a
  | Err e => Err (f e)
  | Panic => Panic
  end.

Declare Scope rust_scope.
Delimit Scope rust_scope with rust.
#[global] Open Scope rust_scope.
Notation "'let?' p ':=' c 'in' k" := (exec_bind c (fun p => k))
  (at level 10, p pattern, c at level 200, k at level 200)
  : rust_scope.

Definition is_ok {E A} (m : exec E A) : bool :=
  match m with Ok _ => true | _ => false end.

Lemma exec_bind_Ok {E A B} (m : exec E A) (k : A -> exec E B) b :
  exec_bind m k = Ok b -> exists a, m = Ok a /\ k a = Ok b.
Proof. destruct m; simpl; naive_solver. Qed.

Lemma exec_bind_ret {E A B} (a : A) (k : A -> exec E B) :
  exec_bind (Ok a) k = k a.
Proof. done. Qed.

Definition no_panic {E A} (m : exec E A) : Prop := m <> Panic.

Lemma no_panic_bind {E A B} (m : exec E A) (k : A -> exec E B) :
  no_panic m -> (forall a, m = Ok a -> no_panic (k a)) -> no_panic (exec_bind m k).
Proof. intros Hm Hk. destruct m; cbn; [by apply Hk|done|done]. Qed.


(** Inverts every successful bind of the context. *)
Ltac inv_exec :=
  repeat match goal with
  | H : exec_bind ?m _ = Ok _ |- _ =>
      let a := fresh "a" in let H1 := fresh "Hm" in
      apply exec_bind_Ok in H as (a & H1 & H)
  | H : Ok _ = Ok _ |- _ => injection H as H; try subst
  | H : Err _ = Ok _ |- _ => discriminate H
  | H : Panic = Ok _ |- _ => discriminate H
  end.

(** * Machine integers *)

Definition u8_max : Z := 255.
Definition u16_max : Z := 65535.
Definition u32_max : Z := 4294967295.
Definition u64_max : Z := 18446744073709551615.

Definition in_u16 (z : Z) : Prop := 0 <= z <= u16_max.
Definition in_u32 (z : Z) : Prop := 0 <= z <= u32_max.
Definition in_u64 (z : Z) : Prop := 0 <= z <= u64_max.
Definition in_i32 (z : Z) : Prop := -2147483648 <= z < 2147483648.
Definition in_i64 (z : Z) : Prop :=
  -9223372036854775808 <= z < 9223372036854775808.

(** [as u16], [as u32], wrapping arithmetic in 64 bits. *)
Definition wrap16 (z : Z) : Z := z mod 65536.
Definition wrap32 (z : Z) : Z := z mod 4294967296.
Definition wrap64 (z : Z) : Z := z mod 18446744073709551616.

(** Reinterpretation of an unsigned word as a signed one. *)
Definition to_i32 (z : Z) : Z :=
  if z <? 2147483648 then z else z - 4294967296.
Definition to_i64 (z : Z) : Z :=
  if z <? 9223372036854775808 then z else z - 18446744073709551616.

(** Saturating [u16] and [usize] arithmetic. *)
Definition sat_add_u16 (a b : Z) : Z := Z.min (a + b) u16_max.
Definition sat_sub (a b : Z) : Z := Z.max (a - b) 0.

Ltac unfold_ints :=
  unfold in_u16, in_u32, in_u64, in_i32, in_i64, wrap16, wrap32, wrap64,
    to_i32, to_i64, sat_add_u16, sat_sub, u8_max, u16_max, u32_max, u64_max in *.

(** Linear arithmetic after unfolding the word predicates. *)
Ltac word_lia := unfold_ints; lia.

(** * Bytes *)

Definition byte_val (b : byte) : Z := Z.of_N (Byte.to_N b).
Definition byte_of (z : Z) : byte :=
  match Byte.of_N (Z.to_N (z mod 256)) with
  | Some b => b
  | None => Byte.x00
  end.

#[global] Instance byte_eq_decision : EqDecision byte := Byte.byte_eq_dec.
#[global] Program Instance byte_countable : Countable byte :=
  inj_countable Byte.to_N Byte.of_N Byte.of_to_N.

Lemma byte_val_bound b : 0 <= byte_val b < 256.
Proof. unfold byte_val. pose proof (Byte.to_N_bounded b). lia. Qed.

Lemma byte_val_of z : byte_val (byte_of z) = z mod 256.
Proof.
  unfold byte_val, byte_of.
  pose proof (Z.mod_pos_bound z 256 ltac:(lia)).
  destruct (Byte.of_N (Z.to_N (z mod 256))) as [b|] eqn:E.
  - apply Byte.to_of_N in E. rewrite E. lia.
  - apply Byte.of_N_None_iff in E. lia.
Qed.

Lemma byte_of_val b : byte_of (byte_val b) = b.
Proof.
  unfold byte_of, byte_val. pose proof (Byte.to_N_bounded b).
  rewrite Z.mod_small by lia. rewrite N2Z.id, Byte.of_to_N. done.
Qed.

Lemma byte_val_inj b c : byte_val b = byte_val c -> b = c.
Proof. intros H. rewrite <- (byte_of_val b), <- (byte_of_val c). by rewrite H. Qed.

(** * Little- and big-endian words

    [le_bytes n v] is [v.to_le_bytes()] of an [8*n]-bit integer, signed or
    unsigned (the division is an arithmetic shift); [le_val] is
    [from_le_bytes] at the unsigned type. *)

Fixpoint le_bytes (n : nat) (v : Z) : list byte :=
  match n with
  | O => []
  | S n => byte_of v :: le_bytes n (v / 256)
  end.

Fixpoint le_val (bs : list byte) : Z :=
  match bs with
  | [] => 0
  | b :: bs => byte_val b + 256 * le_val bs
  end.

Definition be_bytes (n : nat) (v : Z) : list byte := reverse (le_bytes n v).
Definition be_val (bs : list byte) : Z := le_val (reverse bs).

Lemma length_le_bytes n v : length (le_bytes n v) = n.
Proof. revert v. induction n; simpl; auto. Qed.

Lemma length_be_bytes n v : length (be_bytes n v) = n.
Proof. unfold be_bytes. by rewrite length_reverse, length_le_bytes. Qed.

Lemma le_val_le_bytes n v : le_val (le_bytes n v) = v mod 256 ^ Z.of_nat n.
Proof.
  revert v. induction n as [|n IH]; intros v.
  - simpl. by rewrite Z.mod_1_r.
  - cbn [le_bytes le_val]. rewrite IH, byte_val_of.
    rewrite Nat2Z.inj_succ, Z.pow_succ_r by lia.
    rewrite Z.rem_mul_r by lia. done.
Qed.

Lemma le_val_bound bs : 0 <= le_val bs < 256 ^ Z.of_nat (length bs).
Proof.
  induction bs as [|b bs IH]; [simpl; lia|].
  cbn [le_val length]. rewrite Nat2Z.inj_succ, Z.pow_succ_r by lia.
  pose proof (byte_val_bound b). lia.
Qed.

Lemma le_bytes_le_val bs : le_bytes (length bs) (le_val bs) = bs.
Proof.
  induction bs as [|b bs IH]; [done|]. cbn [le_val length le_bytes].
  pose proof (byte_val_bound b).
  rewrite (Z.mul_comm 256), Z.div_add, Z.div_small, Z.add_0_l, IH by lia.
  f_equal. unfold byte_of.
  rewrite Z.mod_add, Z.mod_small by lia.
  unfold byte_val. by rewrite N2Z.id, Byte.of_to_N.
Qed.

(** Round trips at the widths the storage formats use. *)
Lemma le_val_u16 v : in_u16 v -> le_val (le_bytes 2 v) = v.
Proof. intros. rewrite le_val_le_bytes. apply Z.mod_small. simpl. word_lia. Qed.
Lemma le_val_u32 v : in_u32 v -> le_val (le_bytes 4 v) = v.
Proof. intros. rewrite le_val_le_bytes. apply Z.mod_small. simpl. word_lia. Qed.
Lemma le_val_u64 v : in_u64 v -> le_val (le_bytes 8 v) = v.
Proof. intros. rewrite le_val_le_bytes. apply Z.mod_small. simpl. word_lia. Qed.

Lemma to_i32_le_bytes v : in_i32 v -> to_i32 (le_val (le_bytes 4 v)) = v.
Proof.
  intros. rewrite le_val_le_bytes. change (256 ^ Z.of_nat 4) with 4294967296.
  unfold to_i32, in_i32 in *.
  destruct (Z.ltb_spec (v mod 4294967296) 2147483648);
    Z.div_mod_to_equations; lia.
Qed.

Lemma to_i64_le_bytes v : in_i64 v -> to_i64 (le_val (le_bytes 8 v)) = v.
Proof.
  intros. rewrite le_val_le_bytes.
  change (256 ^ Z.of_nat 8) with 18446744073709551616.
  unfold to_i64, in_i64 in *.
  destruct (Z.ltb_spec (v mod 18446744073709551616) 9223372036854775808);
    Z.div_mod_to_equations; lia.
Qed.

Lemma le_val_in_u16 bs : length bs = 2%nat -> in_u16 (le_val bs).
Proof. intros H. pose proof (le_val_bound bs) as B. rewrite H in B. simpl in B. word_lia. Qed.
Lemma le_val_in_u32 bs : length bs = 4%nat -> in_u32 (le_val bs).
Proof. intros H. pose proof (le_val_bound bs) as B. rewrite H in B. simpl in B. word_lia. Qed.
Lemma le_val_in_u64 bs : length bs = 8%nat -> in_u64 (le_val bs).
Proof. intros H. pose proof (le_val_bound bs) as B. rewrite H in B. simpl in B. word_lia. Qed.

Lemma le_bytes_inj n v w :
  0 <= v < 256 ^ Z.of_nat n -> 0 <= w < 256 ^ Z.of_nat n ->
  le_bytes n v = le_bytes n w -> v = w.
Proof.
  intros Hv Hw E. apply (f_equal le_val) in E.
  rewrite !le_val_le_bytes, !Z.mod_small in E; auto.
Qed.

Lemma le_bytes_mod n v w :
  v mod 256 ^ Z.of_nat n = w mod 256 ^ Z.of_nat n -> le_bytes n v = le_bytes n w.
Proof.
  intros E. rewrite <- (le_bytes_le_val (le_bytes n v)), <- (le_bytes_le_val (le_bytes n w)).
  by rewrite !length_le_bytes, !le_val_le_bytes, E.
Qed.

Lemma le_bytes_wrap16 n : le_bytes 2 (wrap16 n) = le_bytes 2 n.
Proof. apply le_bytes_mod. apply Z.mod_mod. lia. Qed.
Lemma le_bytes_wrap32 n : le_bytes 4 (wrap32 n) = le_bytes 4 n.
Proof. apply le_bytes_mod. apply Z.mod_mod. lia. Qed.

(** * Byte buffers

    [zlen] is [len()]; [slice l a b] is the contents of [&l[a..b]] and
    [splice l a bs] the buffer after [l[a..a+bs.len()].copy_from_slice(bs)].
    [slice_get] and [splice_set] add the bounds check of the Rust operation,
    which panics outside the buffer.  A [usize] subtraction that underflows
    yields a negative index here; the slice it is used for panics, as it does
    in Rust with or without overflow checks. *)

Definition zlen {A} (l : list A) : Z := Z.of_nat (length l).
Definition slice {A} (l : list A) (a b : Z) : list A :=
  take (Z.to_nat (b - a)) (drop (Z.to_nat a) l).
Definition splice {A} (l : list A) (a : Z) (bs : list A) : list A :=
  take (Z.to_nat a) l ++ bs ++ drop (Z.to_nat (a + zlen bs)) l.

Definition slice_get {E A} (l : list A) (a b : Z) : exec E (list A) :=
  if (0 <=? a) && (a <=? b) && (b <=? zlen l) then Ok (slice l a b) else Panic.
Definition splice_set {E A} (l : list A) (a : Z) (bs : list A) : exec E (list A) :=
  if (0 <=? a) && (a + zlen bs <=? zlen l) then Ok (splice l a bs) else Panic.
(** [l[i]]. *)
Definition index_get {E A} (l : list A) (i : Z) : exec E A :=
  if 0 <=? i then
    match l !! Z.to_nat i with Some x => Ok x | None => Panic end
  else Panic.

#[global] Arguments slice : simpl never.
#[global] Arguments splice : simpl never.
#[global] Arguments zlen : simpl never.

Section buffers.
Context {A : Type}.
Implicit Types l bs : list A.

Lemma zlen_nonneg l : 0 <= zlen l.
Proof. unfold zlen. lia. Qed.
Lemma zlen_app l bs : zlen (l ++ bs) = zlen l + zlen bs.
Proof. unfold zlen. rewrite length_app. lia. Qed.
Lemma zlen_cons (x : A) l : zlen (x :: l) = 1 + zlen l.
Proof. unfold zlen. simpl. lia. Qed.
Lemma zlen_nil : zlen (@nil A) = 0.
Proof. done. Qed.

Lemma zlen_slice l a b :
  0 <= a -> a <= b -> b <= zlen l -> zlen (slice l a b) = b - a.
Proof.
  unfold slice, zlen. intros. rewrite length_take, length_drop. lia.
Qed.

Lemma length_slice l a b n :
  0 <= a -> a <= b -> b <= zlen l -> b - a = Z.of_nat n ->
  length (slice l a b) = n.
Proof. intros. pose proof (zlen_slice l a b). unfold zlen in *. lia. Qed.

Lemma zlen_splice l a bs :
  0 <= a -> a + zlen bs <= zlen l -> zlen (splice l a bs) = zlen l.
Proof.
  unfold splice, zlen. intros.
  rewrite !length_app, length_take, length_drop. lia.
Qed.

Lemma slice_full l n : n = zlen l -> slice l 0 n = l.
Proof.
  intros ->. unfold slice, zlen. rewrite drop_0, Z.sub_0_r, Nat2Z.id.
  by apply firstn_all.
Qed.

Lemma slice_whole l a b : a = 0 -> b = zlen l -> slice l a b = l.
Proof. intros -> ->. by apply slice_full. Qed.

(** A write leaves what it wrote. *)
Lemma slice_splice_same l a bs n :
  0 <= a -> a + zlen bs <= zlen l -> n = a + zlen bs ->
  slice (splice l a bs) a n = bs.
Proof.
  intros Ha Hb ->. unfold slice, splice, zlen in *.
  rewrite drop_app_length' by (rewrite length_take; lia).
  by rewrite take_app_length' by lia.
Qed.

(** A write leaves every range before and after it alone. *)
Lemma slice_splice_before l a bs c d :
  0 <= c -> d <= a -> a + zlen bs <= zlen l ->
  slice (splice l a bs) c d = slice l c d.
Proof.
  intros. unfold slice, splice, zlen in *.
  destruct (Z.le_gt_cases d c).
  { replace (Z.to_nat (d - c)) with 0%nat by lia. done. }
  rewrite drop_app_le by (rewrite length_take; lia).
  rewrite take_app_le by (rewrite length_drop, length_take; lia).
  rewrite !take_drop_commute, take_take.
  do 2 f_equal. lia.
Qed.

Lemma slice_splice_after l a bs c d :
  0 <= a -> a + zlen bs <= c -> a + zlen bs <= zlen l ->
  slice (splice l a bs) c d = slice l c d.
Proof.
  intros. unfold slice, splice, zlen in *. f_equal.
  rewrite app_assoc, drop_app_ge by (rewrite length_app, length_take; lia).
  rewrite drop_drop, length_app, length_take. f_equal. lia.
Qed.

(** The prefix of an appended buffer, and what follows it. *)
Lemma slice_app_l l bs a b :
  0 <= a -> b <= zlen l -> slice (l ++ bs) a b = slice l a b.
Proof.
  intros. unfold slice, zlen in *.
  destruct (Z.le_gt_cases b a).
  { replace (Z.to_nat (b - a)) with 0%nat by lia. done. }
  rewrite drop_app_le by lia.
  by rewrite take_app_le by (rewrite length_drop; lia).
Qed.

Lemma slice_app_r l bs a b :
  zlen l <= a -> slice (l ++ bs) a b = slice bs (a - zlen l) (b - zlen l).
Proof.
  intros. unfold slice, zlen in *.
  rewrite drop_app_ge by lia. f_equal; [lia|]. f_equal. lia.
Qed.

Lemma slice_slice l a b c d :
  0 <= a -> 0 <= c -> a + d <= b -> b <= zlen l ->
  slice (slice l a b) c d = slice l (a + c) (a + d).
Proof.
  intros. unfold slice, zlen in *.
  destruct (Z.le_gt_cases d c).
  { replace (Z.to_nat (d - c)) with 0%nat by lia.
    by replace (Z.to_nat (a + d - (a + c))) with 0%nat by lia. }
  rewrite !take_drop_commute, !drop_drop, take_take.
  f_equal; [lia|]. f_equal. lia.
Qed.

Lemma slice_app_split l a b c :
  0 <= a -> a <= b -> b <= c -> c <= zlen l ->
  slice l a c = slice l a b ++ slice l b c.
Proof.
  intros. unfold slice, zlen in *.
  replace (Z.to_nat (c - a)) with (Z.to_nat (b - a) + Z.to_nat (c - b))%nat by lia.
  rewrite <- take_take_drop. f_equal. rewrite drop_drop. do 2 f_equal. lia.
Qed.

(** Adjacent writes are one write, and writing a window back is writing it in
    place. *)
Lemma splice_adjacent l a bs cs :
  0 <= a -> a + zlen bs + zlen cs <= zlen l ->
  splice (splice l a bs) (a + zlen bs) cs = splice l a (bs ++ cs).
Proof.
  intros. unfold splice, zlen in *. rewrite length_app.
  rewrite (app_assoc (take _ l)), take_app_length' by (rewrite length_app, length_take; lia).
  rewrite <- !app_assoc. do 3 f_equal.
  rewrite app_assoc, drop_app_ge by (rewrite length_app, length_take; lia).
  rewrite drop_drop, length_app, length_take. f_equal. lia.
Qed.

Lemma splice_window l n bs :
  zlen bs <= n -> n <= zlen l ->
  splice l 0 (splice (slice l 0 n) 0 bs) = splice l 0 bs.
Proof.
  intros. pose proof (zlen_nonneg bs).
  unfold splice, slice, zlen in *. rewrite Z.add_0_l, !Z.sub_0_r, Z.add_0_l.
  simpl (Z.to_nat 0). rewrite !drop_0, !take_0, !app_nil_l.
  rewrite length_app, length_drop, length_take, <- app_assoc, !Nat2Z.id.
  f_equal.
  rewrite <- (take_drop (Z.to_nat n - length bs) (drop (length bs) l)) at 1.
  rewrite drop_drop, take_drop_commute.
  replace (length bs + (Z.to_nat n - length bs))%nat with (Z.to_nat n) by lia.
  f_equal. f_equal. lia.
Qed.

Lemma slice_get_ok {E} l a b :
  0 <= a -> a <= b -> b <= zlen l -> slice_get (E:=E) l a b = Ok (slice l a b).
Proof.
  intros. unfold slice_get.
  rewrite !(proj2 (Z.leb_le _ _)) by lia. done.
Qed.

Lemma splice_set_ok {E} l a bs :
  0 <= a -> a + zlen bs <= zlen l -> splice_set (E:=E) l a bs = Ok (splice l a bs).
Proof.
  intros. unfold splice_set. rewrite !(proj2 (Z.leb_le _ _)) by lia. done.
Qed.

Lemma splice_set_adjacent {E} l a bs b cs :
  0 <= a -> b = a + zlen bs -> b + zlen cs <= zlen l ->
  splice_set (E:=E) (splice l a bs) b cs = Ok (splice l a (bs ++ cs)).
Proof.
  intros ? -> ?. pose proof (zlen_nonneg bs). pose proof (zlen_nonneg cs).
  rewrite splice_set_ok by (rewrite ?zlen_splice; lia).
  by rewrite splice_adjacent by lia.
Qed.

Lemma splice_set_Ok {E} l a bs l' :
  splice_set (E:=E) l a bs = Ok l' ->
  0 <= a /\ a + zlen bs <= zlen l /\ l' = splice l a bs.
Proof.
  unfold splice_set. case_match eqn:C; [|done].
  apply andb_true_iff in C as [C1 C2]. rewrite !Z.leb_le in *. naive_solver.
Qed.
End buffers.

(** * UTF-8

    The acceptance table of [core::str::from_utf8]: continuation bytes, no
    overlong forms, no surrogates, nothing above U+10FFFF.  A Rust [String] is
    modelled by its bytes. *)

Definition byte_in (lo hi : Z) (b : byte) : bool :=
  (lo <=? byte_val b) && (byte_val b <=? hi).
Definition is_cont : byte -> bool := byte_in 128 191.

Fixpoint utf8_valid (bs : list byte) : bool :=
  match bs with
  | [] => true
  | b :: r =>
      if byte_in 0 127 b then utf8_valid r
      else
        match r with
        | c :: r =>
            if byte_in 194 223 b then is_cont c && utf8_valid r
            else
              match r with
              | d :: r =>
                  if byte_in 224 239 b then
                    (if byte_in 224 224 b then byte_in 160 191 c
                     else if byte_in 237 237 b then byte_in 128 159 c
                     else is_cont c) && is_cont d && utf8_valid r
                  else
                    match r with
                    | e :: r =>
                        byte_in 240 244 b &&
                        (if byte_in 240 240 b then byte_in 144 191 c
                         else if byte_in 244 244 b then byte_in 128 143 c
                         else is_cont c) && is_cont d && is_cont e && utf8_valid r
                    | [] => false
                    end
              | [] => false
              end
        | [] => false
        end
  end.

(** * Shared automation

    [buf] rewrites lengths of buffers; [buf_lia] closes the arithmetic that
    remains. *)

Create Rewrite HintDb buf.
#[global] Hint Rewrite @zlen_app @zlen_cons @zlen_nil : buf.

Lemma zlen_le_bytes n v : zlen (le_bytes n v) = Z.of_nat n.
Proof. unfold zlen. by rewrite length_le_bytes. Qed.
Lemma zlen_be_bytes n v : zlen (be_bytes n v) = Z.of_nat n.
Proof. unfold zlen. by rewrite length_be_bytes. Qed.
#[global] Hint Rewrite zlen_le_bytes zlen_be_bytes : buf.

Lemma index_get_app {E} pre (b : byte) rest pos :
  pos = zlen pre -> index_get (E:=E) (pre ++ b :: rest) pos = Ok b.
Proof.
  intros ->. unfold index_get. pose proof (zlen_nonneg pre). pose proof (zlen_nonneg rest).
  unfold zlen. rewrite (proj2 (Z.leb_le _ _)) by lia.
  rewrite Nat2Z.id, lookup_app_r by lia. by rewrite Nat.sub_diag.
Qed.

Lemma index_get_no_panic {E A} (l : list A) i :
  0 <= i < zlen l -> no_panic (index_get (E:=E) l i).
Proof.
  intros H. unfold index_get, zlen in *. rewrite (proj2 (Z.leb_le _ _)) by lia.
  destruct (lookup_lt_is_Some_2 l (Z.to_nat i)) as [x Hx]; [lia|]. by rewrite Hx.
Qed.

Lemma default_Some {A} (x y : A) : default x (Some y) = y.
Proof. done. Qed.
Lemma default_None {A} (x : A) : default x None = x.
Proof. done. Qed.

Ltac buf_simpl := autorewrite with buf in *.
Ltac buf_lia := buf_simpl; word_lia.

(** Reads a field of a concatenation: skips the parts before it, drops the
    parts after it. *)
Ltac slice_app :=
  repeat match goal with
  | |- context [slice (?a ++ ?b) ?c ?d] =>
      first [ rewrite (slice_app_r a b c d) by buf_lia
            | rewrite (slice_app_l a b c d) by buf_lia ]
  end;
  repeat match goal with
  | |- context [slice ?l ?a ?b] => rewrite (slice_whole l a b) by buf_lia
  end.
