(* ===== verification/RowKey.v ===== *)
(** * Keys and row identifiers

    [src/storage/page_format/key.rs]: the fixed 32-byte B-tree key, compared
    and tested for equality on its padded bytes.
    [src/storage/page_format/row_id.rs]: the (page, logical slot) address of a
    row version and its six-byte encoding. *)

From Stdlib Require Import ZArith Strings.Byte Lia.
From stdpp Require Import base tactics list numbers gmap.
From S2P Require Import Prelude.

(** ** Lexicographic order on byte strings ([<[u8] as Ord>::cmp]) *)

Fixpoint bytes_cmp (a b : list byte) : comparison :=
  match a, b with
  | [], [] => Eq
  | [], _ :: _ => Lt
  | _ :: _, [] => Gt
  | x :: a, y :: b =>
      match byte_val x ?= byte_val y with
      | Eq => bytes_cmp a b
      | c => c
      end
  end.

Lemma be_val_cons b bs :
  be_val (b :: bs) = byte_val b * 256 ^ Z.of_nat (length bs) + be_val bs.
Proof.
  unfold be_val. rewrite reverse_cons.
  assert (forall l c, le_val (l ++ [c]) =
            le_val l + byte_val c * 256 ^ Z.of_nat (length l)) as Happ.
  { induction l as [|x l IH]; intros c; [simpl; lia|].
    cbn [app le_val length]. rewrite IH, Nat2Z.inj_succ, Z.pow_succ_r by lia. lia. }
  rewrite Happ, length_reverse. lia.
Qed.

Lemma be_val_bound bs : 0 <= be_val bs < 256 ^ Z.of_nat (length bs).
Proof. unfold be_val. rewrite <- length_reverse. apply le_val_bound. Qed.

Lemma be_val_be_bytes n v : be_val (be_bytes n v) = v mod 256 ^ Z.of_nat n.
Proof. unfold be_val, be_bytes. by rewrite reverse_involutive, le_val_le_bytes. Qed.

(** On strings of one length the lexicographic order is the order of the
    big-endian values. *)
Lemma bytes_cmp_be_val a b :
  length a = length b -> bytes_cmp a b = (be_val a ?= be_val b).
Proof.
  revert b. induction a as [|x a IH]; intros [|y b] H; try discriminate H.
  - done.
  - injection H as H. cbn [bytes_cmp]. rewrite !be_val_cons, IH by done.
    pose proof (be_val_bound a) as Ba. pose proof (be_val_bound b) as Bb.
    rewrite H in *. destruct (Z.compare_spec (byte_val x) (byte_val y)) as [E|E|E].
    + rewrite E. by rewrite Z.add_compare_mono_l.
    + symmetry. apply Z.compare_lt_iff. nia.
    + symmetry. apply Z.compare_gt_iff. nia.
Qed.

Lemma be_val_inj a b : length a = length b -> be_val a = be_val b -> a = b.
Proof.
  intros HL H.
  assert (reverse a = reverse b) as R.
  { rewrite <- (le_bytes_le_val (reverse a)), <- (le_bytes_le_val (reverse b)).
    rewrite !length_reverse, HL. unfold be_val in H. by rewrite H. }
  by rewrite <- (reverse_involutive a), R, reverse_involutive.
Qed.

(** ** [Key] *)

Module Key.

Definition MAX_KEY_LEN : Z := 32.

(** [data] has 32 bytes in every key the constructors build ([key_wf]). *)
Record Key := { key_data : list byte; key_len : Z }.

Definition key_wf (k : Key) : Prop :=
  length (key_data k) = 32%nat /\ 0 <= key_len k <= 32.

Definition key_new (bytes : list byte) : exec Empty_set Key :=
  if MAX_KEY_LEN <? zlen bytes then Panic
  else Ok {| key_data := bytes ++ replicate (32 - length bytes) Byte.x00;
             key_len := zlen bytes |}.

Definition key_as_bytes (k : Key) : list byte := slice (key_data k) 0 (key_len k).

(** [PartialEq] and [Ord] look at the padded bytes only. *)
Definition key_eqb (k1 k2 : Key) : bool := bool_decide (key_data k1 = key_data k2).
Definition key_cmp (k1 k2 : Key) : comparison := bytes_cmp (key_data k1) (key_data k2).

Definition key_serialize (k : Key) (buf : list byte) : exec Empty_set (list byte) :=
  if zlen buf <? MAX_KEY_LEN then Panic else splice_set buf 0 (key_data k).

(** [rposition(|&b| b != 0).map(|i| i + 1).unwrap_or(0)]. *)
Fixpoint significant_len (data : list byte) : Z :=
  match data with
  | [] => 0
  | b :: r =>
      let n := significant_len r in
      if n =? 0 then (if bool_decide (b = Byte.x00) then 0 else 1) else n + 1
  end.

Definition key_deserialize (buf : list byte) : exec Empty_set Key :=
  if zlen buf <? MAX_KEY_LEN then Panic
  else
    let data := slice buf 0 MAX_KEY_LEN in
    Ok {| key_data := data; key_len := significant_len data |}.

(** *** Theorems *)

Lemma significant_len_bound data : 0 <= significant_len data <= zlen data.
Proof.
  induction data as [|b r IH]; [done|]. cbn [significant_len]. buf_simpl.
  destruct (significant_len r =? 0) eqn:E; [case_bool_decide|]; lia.
Qed.

Lemma key_new_wf bytes k : key_new bytes = Ok k -> key_wf k.
Proof.
  unfold key_new, key_wf. case_match eqn:C; [done|]. intros [= <-]. simpl.
  apply Z.ltb_ge in C. unfold zlen, MAX_KEY_LEN in *.
  rewrite length_app, length_replicate. lia.
Qed.

Lemma key_deserialize_wf buf k : key_deserialize buf = Ok k -> key_wf k.
Proof.
  unfold key_deserialize, key_wf. case_match eqn:C; [done|]. intros [= <-]. simpl.
  apply Z.ltb_ge in C. unfold MAX_KEY_LEN in *.
  assert (length (slice buf 0 32) = 32%nat) as HL by (apply length_slice; lia).
  pose proof (significant_len_bound (slice buf 0 32)) as B.
  unfold zlen in B. rewrite HL in B. lia.
Qed.

Lemma key_as_bytes_new bytes k : key_new bytes = Ok k -> key_as_bytes k = bytes.
Proof.
  unfold key_new. case_match; [done|]. intros [= <-].
  unfold key_as_bytes. simpl. rewrite slice_app_l by (pose proof (zlen_nonneg bytes); lia).
  by apply slice_full.
Qed.

Lemma key_cmp_be_val k1 k2 :
  key_wf k1 -> key_wf k2 ->
  key_cmp k1 k2 = (be_val (key_data k1) ?= be_val (key_data k2)).
Proof. intros [H1 _] [H2 _]. apply bytes_cmp_be_val. by rewrite H1, H2. Qed.

(** [Eq] and [Ord] of well-formed keys agree, as Rust requires of them. *)
Lemma key_cmp_eq_iff k1 k2 :
  key_wf k1 -> key_wf k2 -> (key_cmp k1 k2 = Eq <-> key_eqb k1 k2 = true).
Proof.
  intros W1 W2. rewrite key_cmp_be_val, Z.compare_eq_iff by done.
  unfold key_eqb. rewrite bool_decide_eq_true. split; [|by intros ->].
  intros H. apply be_val_inj; [|done]. destruct W1 as [-> _], W2 as [-> _]. done.
Qed.

Lemma key_serialize_Ok k buf buf' :
  key_wf k -> key_serialize k buf = Ok buf' ->
  zlen buf' = zlen buf /\ slice buf' 0 32 = key_data k
  /\ forall c d, 32 <= c -> slice buf' c d = slice buf c d.
Proof.
  intros [WL _]. unfold key_serialize. case_match eqn:C; [done|].
  apply Z.ltb_ge in C. unfold MAX_KEY_LEN in C.
  assert (zlen (key_data k) = 32) as HL by (unfold zlen; rewrite WL; lia).
  rewrite splice_set_ok by lia. intros [= <-].
  rewrite zlen_splice, slice_splice_same by lia. repeat split; [done..|].
  intros. apply slice_splice_after; lia.
Qed.

(** A key written to a buffer and read back equals the key under
    [PartialEq] and compares [Eq], whatever its recorded length was. *)
Lemma key_roundtrip k buf buf' :
  key_wf k -> key_serialize k buf = Ok buf' ->
  exists k', key_deserialize buf' = Ok k' /\ key_data k' = key_data k.
Proof.
  intros W H. destruct (key_serialize_Ok _ _ _ W H) as (HL & HS & _).
  unfold key_serialize in H. case_match eqn:C; [done|].
  unfold key_deserialize. rewrite HL, C.
  eexists. split; [done|]. exact HS.
Qed.

End Key.

(** ** [RowId] *)

Module RowId.

Record RowId := mk_row_id { page_id : Z; slot_id : Z }.

#[global] Instance row_id_eq_dec : EqDecision RowId.
Proof. solve_decision. Defined.
#[global] Program Instance row_id_countable : Countable RowId :=
  inj_countable' (fun r => (page_id r, slot_id r)) (fun p => mk_row_id p.1 p.2) _.
Next Obligation. by intros []. Qed.

Definition row_id_wf (r : RowId) : Prop := in_u32 (page_id r) /\ in_u16 (slot_id r).

Definition row_id_bytes (r : RowId) : list byte :=
  le_bytes 4 (page_id r) ++ le_bytes 2 (slot_id r).

Definition row_id_serialize (r : RowId) (buf : list byte) : exec Empty_set (list byte) :=
  if zlen buf <? 6 then Panic
  else
    let? buf := splice_set buf 0 (le_bytes 4 (page_id r)) in
    splice_set buf 4 (le_bytes 2 (slot_id r)).

Definition row_id_deserialize (buf : list byte) : exec Empty_set RowId :=
  if zlen buf <? 6 then Panic
  else Ok (mk_row_id (le_val (slice buf 0 4)) (le_val (slice buf 4 6))).

Lemma length_row_id_bytes r : length (row_id_bytes r) = 6%nat.
Proof. done. Qed.

Lemma row_id_serialize_ok r buf :
  6 <= zlen buf ->
  row_id_serialize r buf = Ok (splice buf 0 (row_id_bytes r)).
Proof.
  intros H. unfold row_id_serialize. rewrite (proj2 (Z.ltb_ge _ _)) by done.
  rewrite splice_set_ok by buf_lia.
  by rewrite exec_bind_ret, splice_set_adjacent by buf_lia.
Qed.

Lemma row_id_deserialize_bytes r rest :
  row_id_wf r -> row_id_deserialize (row_id_bytes r ++ rest) = Ok r.
Proof.
  intros [Hp Hs]. unfold row_id_deserialize.
  rewrite (proj2 (Z.ltb_ge _ _)).
  2:{ unfold row_id_bytes. pose proof (zlen_nonneg rest). buf_lia. }
  unfold row_id_bytes. rewrite <- app_assoc.
  slice_app.
  rewrite le_val_u32, le_val_u16 by done. by destruct r.
Qed.

Lemma row_id_deserialize_wf buf r : row_id_deserialize buf = Ok r -> row_id_wf r.
Proof.
  unfold row_id_deserialize. case_match eqn:C; [done|]. intros [= <-].
  apply Z.ltb_ge in C. split; simpl.
  - apply le_val_in_u32, length_slice; lia.
  - apply le_val_in_u16, length_slice; lia.
Qed.

End RowId.
