(* ===== verification/PageLayout.v ===== *)
(** * Slotted pages

    [src/storage/page_format/slotted_page.rs] over the 4096-byte page of
    [src/storage/page.rs]: a 16-byte header, payloads growing upward from the
    header and a directory of six-byte slots growing downward from the end of
    the page.  The model keeps the bytes and the cached header, as the code
    does.

    The abstract page is the list of (logical id, payload) entries in directory
    order ([entries]); the theorems show that every operation acts on that list
    as intended, that well-formedness is preserved, and which operations stay
    inside the page on arbitrary (corrupted) bytes. *)

From Stdlib Require Import ZArith Strings.Byte Lia.
From stdpp Require Import base tactics list numbers gmap.
From S2P Require Import Prelude.

Definition PAGE_SIZE : Z := 4096.

(** [Page::new] gives a zeroed page; [Page::from_bytes] checks the length. *)
Definition page_zeroed : list byte := replicate 4096 Byte.x00.
Inductive PageSizeError := PageSizeMismatch (expected actual : Z).
Definition page_from_bytes (bytes : list byte) : exec PageSizeError (list byte) :=
  if negb (zlen bytes =? PAGE_SIZE) then Err (PageSizeMismatch PAGE_SIZE (zlen bytes))
  else splice_set page_zeroed 0 bytes.

(** ** Slots and headers *)

Record Slot := mk_slot { logical_id : Z; offset : Z; length_ : Z }.
Definition SLOT_SIZE : Z := 6.
Definition HEADER_SIZE : Z := 16.

Inductive PageWriteError :=
| PageFull
| SlotCountExceedsCapacity (slot_count : Z)
| SlotPayloadOutOfBounds (slot_index : Z) (slot : Slot)
| LengthMismatch (slot_index slot_length write_length : Z)
| SlotIndexOutOfRange
| LogicalIdNotFound (logical_id : Z).

Definition MAX_PAGE_SLOTS : Z := (PAGE_SIZE - HEADER_SIZE) / SLOT_SIZE.

Definition slot_payload_in_bounds (slot_count start end_ : Z) : bool :=
  let slot_area_start := sat_sub PAGE_SIZE (slot_count * SLOT_SIZE) in
  (HEADER_SIZE <=? start) && (end_ <=? slot_area_start).

Record SlottedPageHeader := mk_header {
  page_type : byte;
  slot_count : Z;
  free_space_offset : Z;
  next_page_id : Z;
  next_logical_id : Z;
  padding : list byte
}.

Definition header_new (pt : byte) : SlottedPageHeader :=
  {| page_type := pt; slot_count := 0; free_space_offset := HEADER_SIZE;
     next_page_id := 0; next_logical_id := 0;
     padding := replicate 3 Byte.x00 |}.

Definition header_serialize {E} (h : SlottedPageHeader) (buf : list byte)
    : exec E (list byte) :=
  let? buf := splice_set buf 0 [page_type h] in
  let? buf := splice_set buf 1 (le_bytes 2 (slot_count h)) in
  let? buf := splice_set buf 3 (le_bytes 2 (free_space_offset h)) in
  let? buf := splice_set buf 5 (le_bytes 4 (next_page_id h)) in
  let? buf := splice_set buf 9 (le_bytes 2 (next_logical_id h)) in
  splice_set buf 11 (padding h).

Definition header_deserialize {E} (buf : list byte) : exec E SlottedPageHeader :=
  let? pt := index_get buf 0 in
  let? b1 := slice_get buf 1 3 in
  let? b3 := slice_get buf 3 5 in
  let? b5 := slice_get buf 5 9 in
  let? b9 := slice_get buf 9 11 in
  let? pad := slice_get buf 11 14 in
  Ok {| page_type := pt; slot_count := le_val b1; free_space_offset := le_val b3;
        next_page_id := le_val b5; next_logical_id := le_val b9; padding := pad |}.

Definition slot_count_exceeds_capacity (h : SlottedPageHeader) : bool :=
  MAX_PAGE_SLOTS <? slot_count h.

(** ** The read-only view ([SlottedPageRef]) *)

Record SlottedPageRef := mk_ref { data : list byte; header : SlottedPageHeader }.

Definition ref_new {E} (bytes : list byte) : exec E SlottedPageRef :=
  let? hb := slice_get bytes 0 HEADER_SIZE in
  let? h := header_deserialize hb in
  Ok {| data := bytes; header := h |}.

Definition get_slot {E} (p : SlottedPageRef) (index : Z) : exec E (option Slot) :=
  if slot_count (header p) <=? index then Ok None
  else
    let slot_start := PAGE_SIZE - (index + 1) * SLOT_SIZE in
    let? slot_buf := slice_get (data p) slot_start (slot_start + SLOT_SIZE) in
    let? b0 := slice_get slot_buf 0 2 in
    let? b2 := slice_get slot_buf 2 4 in
    let? b4 := slice_get slot_buf 4 6 in
    Ok (Some (mk_slot (le_val b0) (le_val b2) (le_val b4))).

(** The [for i in 0..self.slot_count()] scan, [n] iterations from [i]. *)
Fixpoint find_slot_from {E} (p : SlottedPageRef) (lid : Z) (n : nat) (i : Z)
    : exec E (option (Slot * Z)) :=
  match n with
  | O => Ok None
  | S n =>
      let? s := get_slot p i in
      match s with
      | Some slot =>
          if logical_id slot =? lid then Ok (Some (slot, i))
          else find_slot_from p lid n (i + 1)
      | None => find_slot_from p lid n (i + 1)
      end
  end.

Definition get_slot_by_logical_id {E} (p : SlottedPageRef) (lid : Z)
    : exec E (option (Slot * Z)) :=
  find_slot_from p lid (Z.to_nat (slot_count (header p))) 0.

Definition get_slot_data {E} (p : SlottedPageRef) (slot : Slot) : exec E (list byte) :=
  slice_get (data p) (offset slot) (offset slot + length_ slot).

(** [checked_add] of two [u16] values in [usize] never overflows; [data.get]
    answers [None] outside the buffer. *)
Definition get_slot_data_checked (p : SlottedPageRef) (slot : Slot)
    : option (list byte) :=
  let start := offset slot in
  let end_ := start + length_ slot in
  if negb (slot_payload_in_bounds (slot_count (header p)) start end_) then None
  else if (start <=? end_) && (end_ <=? zlen (data p))
       then Some (slice (data p) start end_) else None.

(** ** The writer ([SlottedPage]) *)

Record SlottedPage := mk_page { page : list byte; page_header : SlottedPageHeader }.

Definition sp_view (p : SlottedPage) : SlottedPageRef :=
  {| data := page p; header := page_header p |}.

Definition sp_new {E} (bytes : list byte) : exec E SlottedPage :=
  let? hb := slice_get bytes 0 HEADER_SIZE in
  let? h := header_deserialize hb in
  Ok {| page := bytes; page_header := h |}.

(** [header.serialize(&mut page.data[..SIZE])]: the 16-byte window is written
    and the rest of the page kept. *)
Definition write_header {E} (bytes : list byte) (h : SlottedPageHeader)
    : exec E (list byte) :=
  let? w := slice_get bytes 0 HEADER_SIZE in
  let? w := header_serialize h w in
  splice_set bytes 0 w.

Definition sp_init {E} (bytes : list byte) (pt : byte) : exec E SlottedPage :=
  let h := header_new pt in
  let? bytes := write_header bytes h in
  Ok {| page := bytes; page_header := h |}.

Definition sp_get_slot {E} (p : SlottedPage) (index : Z) : exec E (option Slot) :=
  get_slot (sp_view p) index.
Definition sp_get_slot_by_logical_id {E} (p : SlottedPage) (lid : Z)
    : exec E (option (Slot * Z)) :=
  get_slot_by_logical_id (sp_view p) lid.
Definition sp_get_slot_data {E} (p : SlottedPage) (slot : Slot) : exec E (list byte) :=
  get_slot_data (sp_view p) slot.

(** The six directory bytes of a slot, spelled with shifts and masks. *)
Definition slot_bytes (s : Slot) : list byte :=
  [ byte_of (Z.land (logical_id s) 255);
    byte_of (Z.land (Z.shiftr (logical_id s) 8) 255);
    byte_of (Z.land (offset s) 255);
    byte_of (Z.land (Z.shiftr (offset s) 8) 255);
    byte_of (Z.land (length_ s) 255);
    byte_of (Z.land (Z.shiftr (length_ s) 8) 255) ].

(** [u16] arithmetic wraps, as in the release profile (no overflow checks). *)
Definition add_slot_inner (p : SlottedPage) (bytes : list byte) (forced : option Z)
    : exec PageWriteError (SlottedPage * (Z * Z)) :=
  let h := page_header p in
  if slot_count_exceeds_capacity h then Err (SlotCountExceedsCapacity (slot_count h))
  else
    let data_len := zlen bytes in
    let needed_space := SLOT_SIZE + data_len in
    let free_space_start := free_space_offset h in
    let free_space_end := PAGE_SIZE - slot_count h * SLOT_SIZE in
    if free_space_end <? free_space_start + needed_space then Err PageFull
    else
      let? pg := splice_set (page p) free_space_start bytes in
      let slot_index := slot_count h in
      let slot_start := PAGE_SIZE - (slot_index + 1) * SLOT_SIZE in
      let lid := default (next_logical_id h) forced in
      let slot := mk_slot lid (wrap16 free_space_start) (wrap16 data_len) in
      let? pg := splice_set pg slot_start (slot_bytes slot) in
      let h' :=
        {| page_type := page_type h;
           slot_count := wrap16 (slot_count h + 1);
           free_space_offset := wrap16 (free_space_offset h + wrap16 data_len);
           next_page_id := next_page_id h;
           next_logical_id :=
             match forced with
             | None => wrap16 (next_logical_id h + 1)
             | Some id => Z.max (next_logical_id h) (sat_add_u16 id 1)
             end;
           padding := padding h |} in
      let? pg := write_header pg h' in
      Ok ({| page := pg; page_header := h' |}, (lid, slot_index)).

Definition add_slot (p : SlottedPage) (bytes : list byte)
    : exec PageWriteError (SlottedPage * (Z * Z)) :=
  add_slot_inner p bytes None.

Definition add_slot_with_logical_id (p : SlottedPage) (bytes : list byte) (lid : Z)
    : exec PageWriteError (SlottedPage * Z) :=
  let? (p', (_, slot_index)) := add_slot_inner p bytes (Some lid) in
  Ok (p', slot_index).

(** The compaction loop of [delete_slot], [n] iterations from slot [i]. *)
Fixpoint shift_slots {E} (pg : list byte) (n : nat) (i : Z) : exec E (list byte) :=
  match n with
  | O => Ok pg
  | S n =>
      let src_start := PAGE_SIZE - (i + 2) * SLOT_SIZE in
      let dst_start := PAGE_SIZE - (i + 1) * SLOT_SIZE in
      let? bs := slice_get pg src_start (src_start + SLOT_SIZE) in
      let? pg := splice_set pg dst_start bs in
      shift_slots pg n (i + 1)
  end.

Definition delete_slot (p : SlottedPage) (index : Z) : exec PageWriteError SlottedPage :=
  let h := page_header p in
  if slot_count_exceeds_capacity h then Err (SlotCountExceedsCapacity (slot_count h))
  else if slot_count h <=? index then Err SlotIndexOutOfRange
  else
    let count := slot_count h in
    let? pg := shift_slots (page p) (Z.to_nat (count - 1 - index)) index in
    let last_slot_start := PAGE_SIZE - count * SLOT_SIZE in
    let? pg := splice_set pg last_slot_start (replicate 6 Byte.x00) in
    let h' :=
      {| page_type := page_type h; slot_count := slot_count h - 1;
         free_space_offset := free_space_offset h;
         next_page_id := next_page_id h; next_logical_id := next_logical_id h;
         padding := padding h |} in
    let? pg := write_header pg h' in
    Ok {| page := pg; page_header := h' |}.

Definition delete_slot_by_logical_id (p : SlottedPage) (lid : Z)
    : exec PageWriteError SlottedPage :=
  let h := page_header p in
  if slot_count_exceeds_capacity h then Err (SlotCountExceedsCapacity (slot_count h))
  else
    let? f := sp_get_slot_by_logical_id p lid in
    match f with
    | None => Err (LogicalIdNotFound lid)
    | Some (_, slot_index) => delete_slot p slot_index
    end.

Definition update_slot_in_place (p : SlottedPage) (lid : Z) (bytes : list byte)
    : exec PageWriteError SlottedPage :=
  let h := page_header p in
  if slot_count_exceeds_capacity h then Err (SlotCountExceedsCapacity (slot_count h))
  else
    let? f := sp_get_slot_by_logical_id p lid in
    match f with
    | None => Err (LogicalIdNotFound lid)
    | Some (slot, slot_index) =>
        if negb (length_ slot =? zlen bytes)
        then Err (LengthMismatch slot_index (length_ slot) (zlen bytes))
        else
          let start := offset slot in
          let end_ := start + length_ slot in
          if negb (slot_payload_in_bounds (slot_count h) start end_)
          then Err (SlotPayloadOutOfBounds slot_index slot)
          else
            let? pg := splice_set (page p) start bytes in
            Ok {| page := pg; page_header := h |}
    end.

Definition free_space (p : SlottedPage) : Z :=
  let h := page_header p in
  if slot_count_exceeds_capacity h then 0
  else sat_sub (PAGE_SIZE - slot_count h * SLOT_SIZE) (free_space_offset h).

Definition sync_header {E} (p : SlottedPage) : exec E SlottedPage :=
  let? pg := write_header (page p) (page_header p) in
  Ok {| page := pg; page_header := page_header p |}.

Definition reload_header {E} (p : SlottedPage) : exec E SlottedPage := sp_new (page p).

(** * Pure views of the bytes *)

Definition slot_raw (d : list byte) (i : Z) : list byte :=
  slice d (PAGE_SIZE - (i + 1) * SLOT_SIZE) (PAGE_SIZE - (i + 1) * SLOT_SIZE + SLOT_SIZE).
Definition decode_slot (bs : list byte) : Slot :=
  mk_slot (le_val (slice bs 0 2)) (le_val (slice bs 2 4)) (le_val (slice bs 4 6)).
Definition slot_at (d : list byte) (i : Z) : Slot := decode_slot (slot_raw d i).

Definition header_bytes (h : SlottedPageHeader) : list byte :=
  [page_type h] ++ le_bytes 2 (slot_count h) ++ le_bytes 2 (free_space_offset h)
  ++ le_bytes 4 (next_page_id h) ++ le_bytes 2 (next_logical_id h) ++ padding h.
Definition header_at (d : list byte) : SlottedPageHeader :=
  {| page_type := hd Byte.x00 (slice d 0 1);
     slot_count := le_val (slice d 1 3);
     free_space_offset := le_val (slice d 3 5);
     next_page_id := le_val (slice d 5 9);
     next_logical_id := le_val (slice d 9 11);
     padding := slice d 11 14 |}.

Record header_wf (h : SlottedPageHeader) : Prop := {
  hwf_slot_count : in_u16 (slot_count h);
  hwf_free : in_u16 (free_space_offset h);
  hwf_next_page : in_u32 (next_page_id h);
  hwf_next_lid : in_u16 (next_logical_id h);
  hwf_padding : length (padding h) = 3%nat
}.

Ltac page_consts :=
  unfold PAGE_SIZE, SLOT_SIZE, HEADER_SIZE in *;
  change MAX_PAGE_SLOTS with 680 in *.
Ltac page_lia := page_consts; buf_lia.

(** Reads the effect of a buffer write on a range, wherever the two lie. *)
Ltac slice_frame :=
  repeat first
    [ rewrite slice_splice_before by page_lia
    | rewrite slice_splice_after by page_lia
    | rewrite slice_splice_same by page_lia ].

Lemma zlen_header_bytes h : header_wf h -> zlen (header_bytes h) = 14.
Proof.
  intros []. unfold header_bytes.
  assert (zlen (padding h) = 3) by (unfold zlen; lia). buf_lia.
Qed.

Lemma header_at_wf d : 14 <= zlen d -> header_wf (header_at d).
Proof.
  intros H. split; cbn -[slice le_val].
  1-2, 4: by apply le_val_in_u16, length_slice; lia.
  - apply le_val_in_u32, length_slice; lia.
  - apply length_slice; lia.
Qed.

Lemma index_get_hd {E} (d : list byte) :
  1 <= zlen d -> index_get (E:=E) d 0 = Ok (hd Byte.x00 (slice d 0 1)).
Proof. destruct d as [|b d]; [done|]. done. Qed.

Lemma header_deserialize_ok {E} d :
  14 <= zlen d -> header_deserialize (E:=E) d = Ok (header_at d).
Proof.
  intros H. unfold header_deserialize. rewrite index_get_hd by lia.
  rewrite !slice_get_ok by lia. done.
Qed.

Lemma header_at_window d : 16 <= zlen d -> header_at (slice d 0 16) = header_at d.
Proof. intros. unfold header_at. by rewrite !slice_slice by lia. Qed.

Lemma header_at_bytes h rest :
  header_wf h -> header_at (header_bytes h ++ rest) = h.
Proof.
  intros []. unfold header_at, header_bytes. rewrite <- !app_assoc.
  assert (zlen (padding h) = 3) by (unfold zlen; lia).
  slice_app.
  rewrite !le_val_u16, le_val_u32 by done. by destruct h.
Qed.

Lemma splice_prefix {A} (d bs : list A) : splice d 0 bs = bs ++ drop (length bs) d.
Proof. unfold splice, zlen. by rewrite Z.add_0_l, Nat2Z.id. Qed.

Lemma header_at_splice h d :
  header_wf h -> header_at (splice d 0 (header_bytes h)) = h.
Proof. intros. rewrite splice_prefix. by apply header_at_bytes. Qed.

Lemma header_serialize_ok {E} h buf :
  header_wf h -> 14 <= zlen buf ->
  header_serialize (E:=E) h buf = Ok (splice buf 0 (header_bytes h)).
Proof.
  intros [] HL. unfold header_serialize, header_bytes.
  assert (zlen (padding h) = 3) by (unfold zlen; lia).
  rewrite splice_set_ok by buf_lia.
  repeat (rewrite exec_bind_ret, splice_set_adjacent by buf_lia).
  by rewrite <- !app_assoc.
Qed.

Lemma write_header_ok {E} d h :
  header_wf h -> 16 <= zlen d ->
  write_header (E:=E) d h = Ok (splice d 0 (header_bytes h)).
Proof.
  intros HW HL. pose proof (zlen_header_bytes h HW) as HB.
  unfold write_header. rewrite slice_get_ok by page_lia. rewrite exec_bind_ret.
  assert (zlen (slice d 0 HEADER_SIZE) = 16) as HZ by (rewrite zlen_slice; page_lia).
  rewrite header_serialize_ok by (done || lia). rewrite exec_bind_ret.
  rewrite splice_set_ok by (rewrite ?zlen_splice; lia).
  f_equal. apply splice_window; page_lia.
Qed.

Lemma ref_new_ok {E} d :
  16 <= zlen d -> ref_new (E:=E) d = Ok {| data := d; header := header_at d |}.
Proof.
  intros. unfold ref_new. rewrite slice_get_ok by page_lia. rewrite exec_bind_ret.
  rewrite header_deserialize_ok by (rewrite zlen_slice; page_lia).
  rewrite exec_bind_ret. page_consts. by rewrite header_at_window.
Qed.

(** ** Slots *)

Lemma slot_bytes_le s :
  in_u16 (logical_id s) -> in_u16 (offset s) -> in_u16 (length_ s) ->
  slot_bytes s = le_bytes 2 (logical_id s) ++ le_bytes 2 (offset s) ++ le_bytes 2 (length_ s).
Proof.
  assert (forall z, byte_of (Z.land z 255) = byte_of z) as Hb.
  { intros z. change 255 with (Z.ones 8). rewrite Z.land_ones by lia.
    unfold byte_of. by rewrite Z.mod_mod by lia. }
  intros. unfold slot_bytes. rewrite !Hb, !Z.shiftr_div_pow2 by lia. done.
Qed.

Lemma decode_slot_bytes s :
  in_u16 (logical_id s) -> in_u16 (offset s) -> in_u16 (length_ s) ->
  decode_slot (slot_bytes s) = s.
Proof.
  intros. rewrite slot_bytes_le by done. unfold decode_slot.
  slice_app.
  rewrite !le_val_u16 by done. by destruct s.
Qed.

Lemma slot_at_range d i :
  zlen d = 4096 -> 0 <= i < 682 ->
  in_u16 (logical_id (slot_at d i)) /\ in_u16 (offset (slot_at d i))
  /\ in_u16 (length_ (slot_at d i)).
Proof.
  intros HL Hi. assert (zlen (slot_raw d i) = 6).
  { unfold slot_raw. rewrite zlen_slice; page_lia. }
  unfold slot_at, decode_slot. repeat split; apply le_val_in_u16, length_slice; lia.
Qed.

(** Reading slot [i] of a page whose directory fits never panics. *)
Lemma get_slot_ok {E} (p : SlottedPageRef) i :
  zlen (data p) = 4096 -> 0 <= i < slot_count (header p) ->
  slot_count (header p) <= 680 ->
  get_slot (E:=E) p i = Ok (Some (slot_at (data p) i)).
Proof.
  intros HL Hi Hc. unfold get_slot. rewrite (proj2 (Z.leb_gt _ _)) by lia.
  rewrite slice_get_ok by page_lia. rewrite exec_bind_ret.
  assert (zlen (slot_raw (data p) i) = 6) as Hr.
  { unfold slot_raw. rewrite zlen_slice; page_lia. }
  unfold slot_raw in Hr. rewrite !slice_get_ok by lia. done.
Qed.

Lemma get_slot_none {E} (p : SlottedPageRef) i :
  slot_count (header p) <= i -> get_slot (E:=E) p i = Ok None.
Proof. intros H. unfold get_slot. by rewrite (proj2 (Z.leb_le _ _)). Qed.

Definition slots_of (d : list byte) (n : Z) : list Slot := slot_at d <$> seqZ 0 n.

Lemma length_slots_of d n : 0 <= n -> length (slots_of d n) = Z.to_nat n.
Proof. intros. unfold slots_of. by rewrite length_fmap, length_seqZ. Qed.

Lemma lookup_slots_of d n i :
  0 <= n -> (i < Z.to_nat n)%nat -> slots_of d n !! i = Some (slot_at d (Z.of_nat i)).
Proof.
  intros. unfold slots_of. rewrite list_lookup_fmap, lookup_seqZ_lt by lia. done.
Qed.

Lemma slots_of_S d n : 0 <= n -> slots_of d (n + 1) = slots_of d n ++ [slot_at d n].
Proof.
  intros. unfold slots_of. rewrite seqZ_app, fmap_app by lia. do 2 f_equal.
Qed.

(** The first slot with the id, as the scan finds it. *)
Fixpoint find_lid (lid : Z) (ss : list Slot) (i : Z) : option (Slot * Z) :=
  match ss with
  | [] => None
  | s :: ss => if logical_id s =? lid then Some (s, i) else find_lid lid ss (i + 1)
  end.

Lemma find_slot_from_ok {E} (p : SlottedPageRef) lid n i :
  zlen (data p) = 4096 -> 0 <= i -> i + Z.of_nat n = slot_count (header p) ->
  slot_count (header p) <= 680 ->
  find_slot_from (E:=E) p lid n i
  = Ok (find_lid lid (slot_at (data p) <$> seqZ i (Z.of_nat n)) i).
Proof.
  revert i. induction n as [|n IH]; intros i HL Hi Hn Hc; [done|].
  cbn [find_slot_from]. rewrite get_slot_ok by lia. rewrite exec_bind_ret.
  rewrite seqZ_cons by lia. cbn [fmap list_fmap find_lid].
  case_match; [done|]. rewrite IH by lia.
  do 4 f_equal; lia.
Qed.

Lemma get_slot_by_logical_id_ok {E} (p : SlottedPageRef) lid :
  zlen (data p) = 4096 -> 0 <= slot_count (header p) <= 680 ->
  get_slot_by_logical_id (E:=E) p lid
  = Ok (find_lid lid (slots_of (data p) (slot_count (header p))) 0).
Proof.
  intros. unfold get_slot_by_logical_id, slots_of.
  rewrite find_slot_from_ok by lia. by rewrite Z2Nat.id by lia.
Qed.

(** * The abstract page and its invariant *)

Definition slots (p : SlottedPage) : list Slot :=
  slots_of (page p) (slot_count (page_header p)).
Definition payload (d : list byte) (s : Slot) : list byte :=
  slice d (offset s) (offset s + length_ s).
(** What the page stores: (logical id, payload) in directory order. *)
Definition entries (p : SlottedPage) : list (Z * list byte) :=
  (fun s => (logical_id s, payload (page p) s)) <$> slots p.

Definition disjoint_slots (s t : Slot) : Prop :=
  offset s + length_ s <= offset t \/ offset t + length_ t <= offset s.

Record page_wf (p : SlottedPage) : Prop := {
  wf_len : zlen (page p) = 4096;
  wf_header : header_at (page p) = page_header p;
  wf_free_lo : 16 <= free_space_offset (page_header p);
  wf_fit : free_space_offset (page_header p) + 6 * slot_count (page_header p) <= 4096;
  wf_slots : Forall (fun s => 16 <= offset s
                     /\ offset s + length_ s <= free_space_offset (page_header p)) (slots p);
  wf_disjoint : forall i j s t, slots p !! i = Some s -> slots p !! j = Some t ->
                  i <> j -> disjoint_slots s t;
  wf_lids : Forall (fun s => logical_id s < next_logical_id (page_header p)) (slots p);
  wf_nodup : NoDup (logical_id <$> slots p)
}.

Lemma wf_header_wf p : page_wf p -> header_wf (page_header p).
Proof. intros W. rewrite <- (wf_header p W). apply header_at_wf. rewrite (wf_len p W). lia. Qed.

Lemma wf_slot_count p : page_wf p -> 0 <= slot_count (page_header p) <= 680.
Proof.
  intros W. pose proof (wf_fit p W). pose proof (wf_free_lo p W).
  destruct (wf_header_wf p W). word_lia.
Qed.

Lemma wf_not_exceeds p : page_wf p -> slot_count_exceeds_capacity (page_header p) = false.
Proof.
  intros W. pose proof (wf_slot_count p W). unfold slot_count_exceeds_capacity.
  page_consts. apply Z.ltb_ge. lia.
Qed.

Lemma length_slots p :
  page_wf p -> length (slots p) = Z.to_nat (slot_count (page_header p)).
Proof. intros W. apply length_slots_of. pose proof (wf_slot_count p W). lia. Qed.

Lemma slot_nonneg p s : page_wf p -> s ∈ slots p -> 0 <= length_ s /\ 0 <= logical_id s.
Proof.
  intros W Hs. unfold slots, slots_of in Hs.
  apply list_elem_of_fmap in Hs as (i & -> & Hi). apply elem_of_seqZ in Hi.
  pose proof (wf_slot_count p W).
  destruct (slot_at_range (page p) i (wf_len p W)) as (?&?&?); word_lia.
Qed.

(** ** Initialisation *)

Lemma header_new_wf pt : header_wf (header_new pt).
Proof. split; simpl; page_consts; word_lia || done. Qed.

Lemma sp_init_ok {E} d pt :
  zlen d = 4096 ->
  sp_init (E:=E) d pt
  = Ok {| page := splice d 0 (header_bytes (header_new pt)); page_header := header_new pt |}.
Proof.
  intros H. unfold sp_init. rewrite write_header_ok; [done|apply header_new_wf|lia].
Qed.

(** Initialising any 4096-byte page yields a well-formed empty page. *)
Lemma sp_init_wf d pt p :
  zlen d = 4096 -> sp_init (E:=PageWriteError) d pt = Ok p -> page_wf p /\ entries p = [].
Proof.
  intros HL. rewrite sp_init_ok by done. intros [= <-].
  pose proof (zlen_header_bytes _ (header_new_wf pt)) as HB.
  split; [|done]. split; cbn [page page_header]; try apply header_at_splice, header_new_wf;
    try (by constructor); try done.
  rewrite zlen_splice; lia.
Qed.

(** ** Adding a slot *)

Section add_slot.
Context (p : SlottedPage) (bytes : list byte) (forced : option Z).
Hypothesis W : page_wf p.
Let h := page_header p.
Hypothesis Hfit :
  free_space_offset h + (6 + zlen bytes) <= 4096 - slot_count h * 6.

Definition added_lid : Z := default (next_logical_id h) forced.
Definition added_slot : Slot := mk_slot added_lid (free_space_offset h) (zlen bytes).
Definition added_header : SlottedPageHeader :=
  {| page_type := page_type h; slot_count := slot_count h + 1;
     free_space_offset := free_space_offset h + zlen bytes;
     next_page_id := next_page_id h;
     next_logical_id :=
       match forced with
       | None => wrap16 (next_logical_id h + 1)
       | Some id => Z.max (next_logical_id h) (sat_add_u16 id 1)
       end;
     padding := padding h |}.
Definition added_page : SlottedPage :=
  {| page :=
       splice (splice (splice (page p) (free_space_offset h) bytes)
                 (4096 - (slot_count h + 1) * 6) (slot_bytes added_slot))
         0 (header_bytes added_header);
     page_header := added_header |}.

Hypothesis Hforced : match forced with None => True | Some id => in_u16 id end.

Lemma added_header_wf : header_wf added_header.
Proof using W Hfit Hforced.
  destruct (wf_header_wf p W) as [A B C D F]. fold h in A, B, C, D, F.
  pose proof (zlen_nonneg bytes). pose proof (wf_free_lo p W) as Hlo. fold h in Hlo.
  split; cbn [added_header slot_count free_space_offset next_page_id next_logical_id padding];
    fold h; try done; try word_lia.
  pose proof (Z.mod_pos_bound (next_logical_id h + 1) 65536).
  destruct forced; word_lia.
Qed.

Lemma added_slot_range :
  in_u16 (logical_id added_slot) /\ in_u16 (offset added_slot) /\ in_u16 (length_ added_slot).
Proof using W Hfit Hforced.
  destruct (wf_header_wf p W) as [A B C D F]. fold h in A, B, C, D, F.
  pose proof (zlen_nonneg bytes).
  unfold added_slot, added_lid; simpl. destruct forced; simpl; word_lia.
Qed.

Lemma add_slot_inner_ok :
  add_slot_inner p bytes forced = Ok (added_page, (added_lid, slot_count h)).
Proof using W Hfit Hforced.
  pose proof (wf_len p W) as HL. pose proof (wf_slot_count p W) as Hc.
  pose proof (wf_free_lo p W) as Hlo. fold h in Hc, Hlo.
  pose proof (zlen_nonneg bytes) as Hb.
  unfold add_slot_inner. rewrite wf_not_exceeds by done. fold h. page_consts.
  rewrite (proj2 (Z.ltb_ge _ _)) by lia.
  rewrite splice_set_ok by lia. rewrite exec_bind_ret.
  set (d1 := splice (page p) (free_space_offset h) bytes).
  assert (zlen d1 = 4096) as H1 by (unfold d1; rewrite zlen_splice; lia).
  replace (wrap16 (free_space_offset h)) with (free_space_offset h)
    by (unfold wrap16; rewrite Z.mod_small; lia).
  replace (wrap16 (zlen bytes)) with (zlen bytes)
    by (unfold wrap16; rewrite Z.mod_small; lia).
  replace (wrap16 (slot_count h + 1)) with (slot_count h + 1)
    by (unfold wrap16; rewrite Z.mod_small; lia).
  replace (wrap16 (free_space_offset h + zlen bytes))
    with (free_space_offset h + zlen bytes)
    by (unfold wrap16; rewrite Z.mod_small; lia).
  fold added_lid added_slot. change (zlen (slot_bytes added_slot)) with 6.
  rewrite splice_set_ok by (change (zlen (slot_bytes added_slot)) with 6; lia).
  rewrite exec_bind_ret. fold added_header.
  rewrite write_header_ok; [done|apply added_header_wf|].
  rewrite zlen_splice by (change (zlen (slot_bytes added_slot)) with 6; lia). lia.
Qed.

(** The intermediate buffers and the numeric facts the frame lemmas need. *)
Let d1 := splice (page p) (free_space_offset h) bytes.
Let d2 := splice d1 (4096 - (slot_count h + 1) * 6) (slot_bytes added_slot).

Lemma added_facts :
  zlen (page p) = 4096 /\ zlen d1 = 4096 /\ zlen d2 = 4096
  /\ zlen (header_bytes added_header) = 14 /\ zlen (slot_bytes added_slot) = 6
  /\ 0 <= slot_count h <= 680 /\ 16 <= free_space_offset h /\ 0 <= zlen bytes.
Proof using W Hfit Hforced.
  pose proof (wf_len p W) as HL. pose proof (wf_slot_count p W) as Hc. fold h in Hc.
  pose proof (wf_free_lo p W) as Hlo. fold h in Hlo. pose proof (zlen_nonneg bytes) as Hb.
  pose proof (zlen_header_bytes _ added_header_wf) as HB.
  assert (zlen (slot_bytes added_slot) = 6) as H6 by done.
  assert (zlen d1 = 4096) as H1 by (unfold d1; rewrite zlen_splice; lia).
  assert (zlen d2 = 4096) as H2 by (unfold d2; rewrite zlen_splice; lia).
  repeat split; lia.
Qed.

Lemma added_page_eq : page added_page = splice d2 0 (header_bytes added_header).
Proof using. done. Qed.

Lemma added_len : zlen (page added_page) = 4096.
Proof using W Hfit Hforced.
  destruct added_facts as (?&?&?&?&?&?&?&?).
  rewrite added_page_eq, zlen_splice; lia.
Qed.

(** What a later read of the page sees, region by region. *)
Lemma added_slot_raw i :
  0 <= i <= slot_count h ->
  slot_raw (page added_page) i
  = if i =? slot_count h then slot_bytes added_slot else slot_raw (page p) i.
Proof using W Hfit Hforced.
  destruct added_facts as (?&?&?&?&?&?&?&?).
  intros Hi. unfold slot_raw. page_consts. rewrite added_page_eq.
  rewrite slice_splice_after by lia. unfold d2.
  destruct (Z.eqb_spec i (slot_count h)) as [->|Hne].
  - apply slice_splice_same; lia.
  - rewrite slice_splice_after by lia. apply slice_splice_after; lia.
Qed.

Lemma added_payload s :
  16 <= offset s -> offset s + length_ s <= free_space_offset h ->
  payload (page added_page) s = payload (page p) s.
Proof using W Hfit Hforced.
  destruct added_facts as (?&?&?&?&?&?&?&?).
  intros. unfold payload. rewrite added_page_eq.
  rewrite slice_splice_after by lia. unfold d2.
  rewrite slice_splice_before by lia. apply slice_splice_before; lia.
Qed.

Lemma added_payload_new : payload (page added_page) added_slot = bytes.
Proof using W Hfit Hforced.
  destruct added_facts as (?&?&?&?&?&?&?&?).
  unfold payload. cbn [added_slot offset length_]. rewrite added_page_eq.
  rewrite slice_splice_after by lia. unfold d2.
  rewrite slice_splice_before by lia. apply slice_splice_same; lia.
Qed.

Lemma added_slots : slots added_page = slots p ++ [added_slot].
Proof using W Hfit Hforced.
  pose proof (wf_slot_count p W) as Hc. fold h in Hc.
  unfold slots. cbn [page_header added_page added_header slot_count]. fold h.
  rewrite slots_of_S by lia. unfold slots_of. f_equal.
  - apply list_fmap_ext. intros i z Hz. apply lookup_seqZ in Hz as [-> Hz].
    unfold slot_at. rewrite added_slot_raw by lia.
    by rewrite (proj2 (Z.eqb_neq _ _)) by lia.
  - unfold slot_at. rewrite added_slot_raw by lia. rewrite Z.eqb_refl.
    destruct added_slot_range as (?&?&?). by rewrite decode_slot_bytes.
Qed.

Lemma added_entries : entries added_page = entries p ++ [(added_lid, bytes)].
Proof using W Hfit Hforced.
  unfold entries. rewrite added_slots, fmap_app. f_equal.
  - apply list_fmap_ext. intros i s Hs. f_equal.
    pose proof (wf_slots p W) as F. rewrite Forall_lookup in F.
    destruct (F i s Hs). by apply added_payload.
  - cbn [fmap list_fmap]. by rewrite added_payload_new.
Qed.

Lemma added_wf :
  added_lid < next_logical_id added_header ->
  added_lid ∉ logical_id <$> slots p ->
  next_logical_id h <= next_logical_id added_header ->
  page_wf added_page.
Proof using W Hfit Hforced.
  intros Hl Hfresh Hmono.
  pose proof (wf_slot_count p W) as Hc. fold h in Hc.
  pose proof (wf_free_lo p W) as Hlo. fold h in Hlo. pose proof (zlen_nonneg bytes).
  split; rewrite ?added_slots; try apply added_len;
    cbn [page_header added_page added_header slot_count free_space_offset].
  - cbn [page added_page]. apply header_at_splice, added_header_wf.
  - lia.
  - lia.
  - apply Forall_app. split.
    + eapply Forall_impl; [apply (wf_slots p W)|]. fold h. simpl. intros; lia.
    + constructor; [|done]. simpl. lia.
  - intros i j s t Hi Hj Hne. pose proof (wf_slots p W) as F. rewrite Forall_lookup in F.
    fold h in F. apply lookup_snoc_Some in Hi as [[Li Hi]|[-> <-]];
      apply lookup_snoc_Some in Hj as [[Lj Hj]|[-> <-]].
    + eapply (wf_disjoint p W); eauto.
    + left. simpl. by apply (F i s Hi).
    + right. simpl. by apply (F j t Hj).
    + done.
  - apply Forall_app. split.
    + eapply Forall_impl; [apply (wf_lids p W)|]. 
      intros s Hs. eapply Z.lt_le_trans; [exact Hs|exact Hmono].
    + constructor; [|done]. done.
  - rewrite fmap_app. apply NoDup_app. split; [apply (wf_nodup p W)|]. split.
    + intros x Hx Hx'. apply list_elem_of_singleton in Hx' as ->. done.
    + apply NoDup_singleton.
Qed.
End add_slot.

(** ** Deleting a slot *)

Lemma shift_slots_spec {E} n : forall d i,
  zlen d = 4096 -> 0 <= i -> i + Z.of_nat n < 680 ->
  exists d', shift_slots (E:=E) d n i = Ok d' /\ zlen d' = 4096
    /\ (forall k, i <= k < i + Z.of_nat n -> slot_raw d' k = slot_raw d (k + 1))
    /\ (forall c e, 0 <= c -> e <= 4096 - 6 * (i + Z.of_nat n) -> slice d' c e = slice d c e)
    /\ (forall c e, 4096 - 6 * i <= c -> slice d' c e = slice d c e).
Proof.
  induction n as [|n IH]; intros d i HL Hi Hn.
  { exists d. repeat split; try done. intros; lia. }
  cbn [shift_slots]. page_consts.
  rewrite slice_get_ok by lia. rewrite exec_bind_ret.
  set (bs := slice d (4096 - (i + 2) * 6) (4096 - (i + 2) * 6 + 6)).
  assert (zlen bs = 6) as Hbs by (unfold bs; rewrite zlen_slice; lia).
  rewrite splice_set_ok by lia. rewrite exec_bind_ret.
  set (d1 := splice d (4096 - (i + 1) * 6) bs).
  assert (zlen d1 = 4096) as H1 by (unfold d1; rewrite zlen_splice; lia).
  destruct (IH d1 (i + 1) H1 ltac:(lia) ltac:(lia)) as (d' & -> & HL' & Hs & Hlo & Hhi).
  exists d'. split; [done|]. split; [done|]. split; [|split].
  - intros k Hk. destruct (Z.eq_dec k i) as [->|Hne].
    + unfold slot_raw in *. page_consts. rewrite Hhi by lia.
      unfold d1. rewrite slice_splice_same by lia. unfold bs. f_equal; lia.
    + rewrite Hs by lia. unfold slot_raw, d1. page_consts.
      apply slice_splice_before; lia.
  - intros c e Hc He. rewrite Hlo by lia. unfold d1. apply slice_splice_before; lia.
  - intros c e Hc. rewrite Hhi by lia. unfold d1. apply slice_splice_after; lia.
Qed.

(** The directory read from an image whose entries from [index] on were moved
    up by one. *)
Lemma shifted_slots d d' n index :
  0 <= index < n ->
  (forall k, 0 <= k < n - 1 ->
     slot_raw d' k = slot_raw d (if k <? index then k else k + 1)) ->
  slots_of d' (n - 1) = delete (Z.to_nat index) (slots_of d n).
Proof.
  intros Hi HR. apply list_eq. intros k.
  destruct (Nat.lt_ge_cases k (Z.to_nat (n - 1))) as [Hk|Hk].
  2:{ rewrite lookup_ge_None_2 by (rewrite length_slots_of; lia).
      symmetry. apply lookup_ge_None_2.
      rewrite length_delete; [rewrite length_slots_of; lia|]. by rewrite lookup_slots_of by lia. }
  rewrite lookup_slots_of by lia. unfold slot_at. rewrite HR by lia.
  destruct (Z.ltb_spec (Z.of_nat k) index).
  - rewrite list_lookup_delete_lt, lookup_slots_of by lia. done.
  - rewrite list_lookup_delete_ge, lookup_slots_of by lia. unfold slot_at. do 3 f_equal. lia.
Qed.

Lemma delete_slot_ok p index :
  page_wf p -> 0 <= index < slot_count (page_header p) ->
  exists p', delete_slot p index = Ok p' /\ zlen (page p') = 4096
    /\ page_header p' =
         {| page_type := page_type (page_header p);
            slot_count := slot_count (page_header p) - 1;
            free_space_offset := free_space_offset (page_header p);
            next_page_id := next_page_id (page_header p);
            next_logical_id := next_logical_id (page_header p);
            padding := padding (page_header p) |}
    /\ header_at (page p') = page_header p'
    /\ slots p' = delete (Z.to_nat index) (slots p)
    /\ (forall c e, 16 <= c -> e <= 4096 - 6 * slot_count (page_header p) ->
          slice (page p') c e = slice (page p) c e).
Proof.
  intros W Hi. pose proof (wf_len p W) as HL. pose proof (wf_slot_count p W) as Hc.
  pose proof (wf_header_wf p W) as HW.
  unfold delete_slot. rewrite wf_not_exceeds by done.
  set (h := page_header p) in *.
  rewrite (proj2 (Z.leb_gt _ _)) by lia. page_consts.
  destruct (shift_slots_spec (E:=PageWriteError) (Z.to_nat (slot_count h - 1 - index))
              (page p) index HL ltac:(lia) ltac:(lia)) as (d & -> & Hd & Hs & Hlo & Hhi).
  rewrite exec_bind_ret, splice_set_ok by (rewrite ?Hd; change (zlen (replicate 6 Byte.x00)) with 6; lia).
  rewrite exec_bind_ret.
  set (d1 := splice d (4096 - slot_count h * 6) (replicate 6 Byte.x00)).
  assert (zlen d1 = 4096) as H1.
  { unfold d1. rewrite zlen_splice; change (zlen (replicate 6 Byte.x00)) with 6; lia. }
  set (h' := {| page_type := page_type h; slot_count := slot_count h - 1;
    free_space_offset := free_space_offset h; next_page_id := next_page_id h;
    next_logical_id := next_logical_id h; padding := padding h |}).
  assert (header_wf h') as HW'.
  { destruct HW. split; unfold h'; simpl; try done. word_lia. }
  pose proof (zlen_header_bytes h' HW') as HB.
  rewrite write_header_ok by (done || lia). rewrite exec_bind_ret.
  eexists. split; [done|]. cbn [page page_header].
  split; [rewrite zlen_splice; lia|]. split; [done|].
  split; [by apply header_at_splice|]. split.
  - unfold slots. cbn [page page_header]. fold h. apply shifted_slots; [done|]. intros k Hk.
    unfold slot_raw at 1. page_consts. rewrite slice_splice_after by lia.
    unfold d1. rewrite slice_splice_after by (change (zlen (replicate 6 Byte.x00)) with 6; lia).
    destruct (Z.ltb_spec k index); [by rewrite Hhi by lia|].
    specialize (Hs k ltac:(lia)). unfold slot_raw in Hs at 1. page_consts. by rewrite Hs.
  - intros c e Hcc He. rewrite slice_splice_after by lia.
    unfold d1. rewrite slice_splice_before by (change (zlen (replicate 6 Byte.x00)) with 6; lia).
    apply Hlo; lia.
Qed.

Lemma delete_lookup_inv {A} (l : list A) i j x :
  delete i l !! j = Some x -> exists j', l !! j' = Some x /\ j' <> i
    /\ j' = (if decide (j < i)%nat then j else S j).
Proof.
  intros H. destruct (decide (j < i)%nat) as [Hlt|Hge].
  - rewrite list_lookup_delete_lt in H by lia. exists j. repeat split; [done|lia].
  - rewrite list_lookup_delete_ge in H by lia. exists (S j). repeat split; [done|lia].
Qed.

Lemma delete_slot_wf p index p' :
  page_wf p -> 0 <= index < slot_count (page_header p) ->
  delete_slot p index = Ok p' ->
  page_wf p' /\ entries p' = delete (Z.to_nat index) (entries p).
Proof.
  intros W Hi Hd. destruct (delete_slot_ok p index W Hi) as (q & Hq & HL & Hh & Hat & Hs & Hfr).
  rewrite Hd in Hq. injection Hq as <-.
  pose proof (wf_fit p W) as Hfit. pose proof (wf_slot_count p W) as Hc.
  pose proof (wf_slots p W) as Hsl.
  assert (forall s, s ∈ delete (Z.to_nat index) (slots p) -> s ∈ slots p) as Hsub.
  { intros s Hin. apply list_elem_of_lookup in Hin as [j Hj].
    apply delete_lookup_inv in Hj as (j' & Hj' & _). eapply list_elem_of_lookup_2, Hj'. }
  split.
  - split; rewrite ?Hs, ?Hh; cbn [slot_count free_space_offset next_logical_id];
      try done; rewrite <- ?Hh; try done.
    + apply (wf_free_lo p W).
    + lia.
    + rewrite Forall_forall in *. eauto.
    + intros i j s t Hsi Htj Hne.
      apply delete_lookup_inv in Hsi as (i' & Hi' & _ & Ei).
      apply delete_lookup_inv in Htj as (j' & Hj' & _ & Ej).
      eapply (wf_disjoint p W); eauto. subst. repeat case_decide; lia.
    + pose proof (wf_lids p W) as Hl. rewrite Forall_forall in *. eauto.
    + rewrite list_fmap_delete. eapply sublist_NoDup; [apply (wf_nodup p W)|].
      apply sublist_delete.
  - unfold entries. rewrite Hs, <- list_fmap_delete. apply list_fmap_ext.
    intros k s Hk. f_equal. apply Hfr.
    + apply list_elem_of_lookup_2, Hsub in Hk. rewrite Forall_forall in Hsl.
      by apply Hsl.
    + apply list_elem_of_lookup_2, Hsub in Hk. rewrite Forall_forall in Hsl.
      destruct (Hsl s Hk). lia.
Qed.

(** ** Overwriting a payload in place *)

Section update.
Context (p : SlottedPage) (k : nat) (s : Slot) (bytes : list byte).
Hypothesis W : page_wf p.
Hypothesis Hk : slots p !! k = Some s.
Hypothesis Hlen : length_ s = zlen bytes.

Let q := {| page := splice (page p) (offset s) bytes; page_header := page_header p |}.

Lemma update_bounds :
  16 <= offset s /\ offset s + zlen bytes <= 4096 - 6 * slot_count (page_header p)
  /\ 0 <= zlen bytes.
Proof using W Hk Hlen.
  pose proof (wf_slots p W) as F. rewrite Forall_lookup in F. destruct (F k s Hk).
  pose proof (wf_fit p W). pose proof (zlen_nonneg bytes). lia.
Qed.

Lemma update_slots : slots q = slots p.
Proof using W Hk Hlen.
  pose proof update_bounds as (?&?&?). pose proof (wf_len p W).
  pose proof (wf_slot_count p W) as Hc.
  unfold slots, slots_of. cbn [page page_header q]. apply list_fmap_ext.
  intros i z Hz. apply lookup_seqZ in Hz as [-> Hz].
  unfold slot_at, slot_raw. page_consts. f_equal. apply slice_splice_after; lia.
Qed.

Lemma update_header_at : header_at (page q) = page_header p.
Proof using W Hk Hlen.
  pose proof update_bounds as (?&?&?). pose proof (wf_len p W).
  pose proof (wf_slot_count p W).
  rewrite <- (wf_header p W). cbn [page q]. unfold header_at.
  by rewrite !slice_splice_before by lia.
Qed.

Lemma update_entries : entries q = <[k := (logical_id s, bytes)]> (entries p).
Proof using W Hk Hlen.
  pose proof update_bounds as (?&?&?). pose proof (wf_len p W).
  pose proof (wf_slot_count p W). pose proof (wf_slots p W) as F. rewrite Forall_lookup in F.
  unfold entries. rewrite update_slots. apply list_eq. intros j.
  rewrite !list_lookup_fmap. destruct (decide (j = k)) as [->|Hne].
  - rewrite Hk, list_lookup_insert_eq.
    2:{ rewrite length_fmap. eapply lookup_lt_Some, Hk. }
    cbn [fmap option_fmap option_map]. do 2 f_equal.
    unfold payload. cbn [page q]. apply slice_splice_same; lia.
  - rewrite list_lookup_insert_ne, list_lookup_fmap by done.
    destruct (slots p !! j) as [t|] eqn:Hj; [|done].
    cbn [fmap option_fmap option_map]. do 2 f_equal.
    unfold payload. cbn [page q]. destruct (F j t Hj).
    destruct (wf_disjoint p W j k t s Hj Hk Hne).
    + apply slice_splice_before; lia.
    + apply slice_splice_after; lia.
Qed.

Lemma update_wf : page_wf q.
Proof using W Hk Hlen.
  pose proof update_bounds as (?&?&?). pose proof (wf_slot_count p W).
  pose proof (wf_len p W).
  split; rewrite ?update_slots; try apply update_header_at; cbn [page page_header q];
    try apply W.
  rewrite zlen_splice; lia.
Qed.
End update.

(** ** Lookup by logical id *)

Lemma find_lid_Some lid ss i s j :
  find_lid lid ss i = Some (s, j) ->
  exists k, j = i + Z.of_nat k /\ ss !! k = Some s /\ logical_id s = lid.
Proof.
  revert i. induction ss as [|t ss IH]; intros i; cbn [find_lid]; [done|].
  destruct (Z.eqb_spec (logical_id t) lid) as [E|E].
  - intros [= -> ->]. exists 0%nat. repeat split; [lia|done].
  - intros H. apply IH in H as (k & -> & Hk & Hl). exists (S k). repeat split; [lia|done..].
Qed.

Lemma find_lid_None lid ss i :
  find_lid lid ss i = None -> lid ∉ logical_id <$> ss.
Proof.
  revert i. induction ss as [|t ss IH]; intros i; cbn [find_lid].
  - intros _. apply not_elem_of_nil.
  - destruct (Z.eqb_spec (logical_id t) lid) as [E|E]; [done|].
    intros H. rewrite fmap_cons, not_elem_of_cons. split; [done|]. by apply (IH (i + 1)).
Qed.

Lemma sp_find_ok {E} p lid :
  page_wf p ->
  sp_get_slot_by_logical_id (E:=E) p lid = Ok (find_lid lid (slots p) 0).
Proof.
  intros W. apply get_slot_by_logical_id_ok; [apply (wf_len p W)|].
  apply (wf_slot_count p W).
Qed.

(** * The abstract page machine

    What a slotted page promises its clients: an ordered list of entries with
    stable ids, a counter for the next id, and a byte budget. *)

Record APage := mk_apage { a_entries : list (Z * list byte); a_next : Z; a_free : Z }.

Inductive PageOp :=
| OpAdd (bytes : list byte)
| OpDelete (lid : Z)
| OpUpdate (lid : Z) (bytes : list byte)
| OpRead (lid : Z).

Inductive PageRes :=
| RAdded (lid slot_index : Z)
| RDone
| RRead (bytes : option (list byte))
| RError (e : PageWriteError).

Fixpoint a_find (lid : Z) (es : list (Z * list byte)) (i : Z) : option (Z * list byte) :=
  match es with
  | [] => None
  | (l, bs) :: es => if l =? lid then Some (i, bs) else a_find lid es (i + 1)
  end.

Definition a_step (a : APage) (op : PageOp) : APage * PageRes :=
  match op with
  | OpAdd bytes =>
      if a_free a <? 6 + zlen bytes then (a, RError PageFull)
      else (mk_apage (a_entries a ++ [(a_next a, bytes)]) (a_next a + 1)
              (a_free a - (6 + zlen bytes)),
            RAdded (a_next a) (zlen (a_entries a)))
  | OpDelete lid =>
      match a_find lid (a_entries a) 0 with
      | None => (a, RError (LogicalIdNotFound lid))
      | Some (i, _) =>
          (mk_apage (delete (Z.to_nat i) (a_entries a)) (a_next a) (a_free a + 6), RDone)
      end
  | OpUpdate lid bytes =>
      match a_find lid (a_entries a) 0 with
      | None => (a, RError (LogicalIdNotFound lid))
      | Some (i, old) =>
          if negb (zlen old =? zlen bytes)
          then (a, RError (LengthMismatch i (zlen old) (zlen bytes)))
          else (mk_apage (<[Z.to_nat i := (lid, bytes)]> (a_entries a)) (a_next a) (a_free a), RDone)
      end
  | OpRead lid => (a, RRead (snd <$> a_find lid (a_entries a) 0))
  end.

(** The same operations on the bytes: [None] is a panic. *)
Definition c_step (p : SlottedPage) (op : PageOp) : option (SlottedPage * PageRes) :=
  match op with
  | OpAdd bytes =>
      match add_slot p bytes with
      | Ok (p', (lid, i)) => Some (p', RAdded lid i)
      | Err e => Some (p, RError e)
      | Panic => None
      end
  | OpDelete lid =>
      match delete_slot_by_logical_id p lid with
      | Ok p' => Some (p', RDone)
      | Err e => Some (p, RError e)
      | Panic => None
      end
  | OpUpdate lid bytes =>
      match update_slot_in_place p lid bytes with
      | Ok p' => Some (p', RDone)
      | Err e => Some (p, RError e)
      | Panic => None
      end
  | OpRead lid =>
      match sp_get_slot_by_logical_id (E:=PageWriteError) p lid with
      | Ok (Some (s, _)) =>
          match sp_get_slot_data (E:=PageWriteError) p s with
          | Ok bs => Some (p, RRead (Some bs))
          | Err e => Some (p, RError e)
          | Panic => None
          end
      | Ok None => Some (p, RRead None)
      | Err e => Some (p, RError e)
      | Panic => None
      end
  end.

Definition abs (p : SlottedPage) : APage :=
  mk_apage (entries p) (next_logical_id (page_header p)) (free_space p).

(** ** Refinement *)

Lemma wf_free_space p :
  page_wf p ->
  free_space p = 4096 - slot_count (page_header p) * 6 - free_space_offset (page_header p).
Proof.
  intros W. unfold free_space. rewrite wf_not_exceeds by done.
  pose proof (wf_fit p W). unfold sat_sub. page_consts. lia.
Qed.

Lemma zlen_entries p : page_wf p -> zlen (entries p) = slot_count (page_header p).
Proof.
  intros W. unfold entries, zlen. rewrite length_fmap, length_slots by done.
  pose proof (wf_slot_count p W). lia.
Qed.

Lemma wf_payload_len p s : page_wf p -> s ∈ slots p -> zlen (payload (page p) s) = length_ s.
Proof.
  intros W Hs. destruct (slot_nonneg p s W Hs).
  pose proof (wf_slots p W) as F. rewrite Forall_forall in F. destruct (F s Hs).
  pose proof (wf_fit p W). pose proof (wf_slot_count p W). pose proof (wf_len p W).
  unfold payload. rewrite zlen_slice; lia.
Qed.

Lemma a_find_slots d lid ss i :
  a_find lid ((fun s => (logical_id s, payload d s)) <$> ss) i
  = (fun f => (snd f, payload d (fst f))) <$> find_lid lid ss i.
Proof.
  revert i. induction ss as [|s ss IH]; intros i; [done|].
  cbn [fmap list_fmap a_find find_lid]. case_match; [done|]. apply IH.
Qed.

Lemma a_find_abs p lid i :
  a_find lid (entries p) i
  = (fun f => (snd f, payload (page p) (fst f))) <$> find_lid lid (slots p) i.
Proof. apply a_find_slots. Qed.

Lemma add_slot_full p bytes :
  page_wf p -> free_space p < 6 + zlen bytes -> add_slot p bytes = Err PageFull.
Proof.
  intros W H. rewrite wf_free_space in H by done.
  unfold add_slot, add_slot_inner. rewrite wf_not_exceeds by done. page_consts.
  by rewrite (proj2 (Z.ltb_lt _ _)) by lia.
Qed.

Lemma add_slot_room p bytes :
  page_wf p -> 6 + zlen bytes <= free_space p ->
  next_logical_id (page_header p) < 65535 ->
  exists p', add_slot p bytes = Ok (p', (next_logical_id (page_header p),
                                        slot_count (page_header p)))
    /\ page_wf p'
    /\ abs p' = mk_apage (entries p ++ [(next_logical_id (page_header p), bytes)])
                  (next_logical_id (page_header p) + 1) (free_space p - (6 + zlen bytes))
    /\ page_type (page_header p') = page_type (page_header p)
    /\ next_page_id (page_header p') = next_page_id (page_header p).
Proof.
  intros W Hroom Hnext. rewrite wf_free_space in Hroom by done.
  destruct (wf_header_wf p W) as [_ _ _ Hl _].
  assert (wrap16 (next_logical_id (page_header p) + 1) = next_logical_id (page_header p) + 1)
    as Hw by (unfold wrap16; rewrite Z.mod_small; word_lia).
  exists (added_page p bytes None).
  assert (page_wf (added_page p bytes None)) as W'.
  { apply added_wf; try done; try lia; cbn [added_header next_logical_id added_lid default];
      rewrite ?Hw; try lia.
    intros Hin. apply list_elem_of_fmap in Hin as (s & Hs & Hin).
    pose proof (wf_lids p W) as F. rewrite Forall_forall in F. specialize (F s Hin).
    unfold added_lid in Hs. simpl in Hs. lia. }
  split; [|split; [|split]].
  - unfold add_slot. rewrite add_slot_inner_ok by (done || lia). done.
  - done.
  - unfold abs. rewrite added_entries by (done || lia). f_equal; [done|].
    rewrite !wf_free_space by done. cbn [added_page page_header added_header slot_count free_space_offset]. lia.
  - done.
Qed.

Lemma delete_by_lid_spec p lid :
  page_wf p ->
  match find_lid lid (slots p) 0 with
  | None => delete_slot_by_logical_id p lid = Err (LogicalIdNotFound lid)
  | Some (_, i) =>
      exists p', delete_slot_by_logical_id p lid = Ok p' /\ page_wf p'
        /\ abs p' = mk_apage (delete (Z.to_nat i) (entries p))
                      (next_logical_id (page_header p)) (free_space p + 6)
  end.
Proof.
  intros W. unfold delete_slot_by_logical_id. rewrite wf_not_exceeds, sp_find_ok by done.
  rewrite exec_bind_ret. destruct (find_lid lid (slots p) 0) as [[s i]|] eqn:Hf; [|done].
  apply find_lid_Some in Hf as (k & -> & Hk & _).
  assert (0 <= 0 + Z.of_nat k < slot_count (page_header p)) as Hi.
  { apply lookup_lt_Some in Hk. rewrite length_slots in Hk by done.
    pose proof (wf_slot_count p W). lia. }
  destruct (delete_slot_ok p _ W Hi) as (p' & Hd & HL & Hh & _).
  destruct (delete_slot_wf p _ p' W Hi Hd) as [W' He].
  exists p'. split; [done|]. split; [done|]. unfold abs. rewrite He.
  f_equal; [by rewrite Hh|]. rewrite !wf_free_space, Hh by done.
  cbn [slot_count free_space_offset]. lia.
Qed.

Lemma update_spec p lid bytes :
  page_wf p ->
  match find_lid lid (slots p) 0 with
  | None => update_slot_in_place p lid bytes = Err (LogicalIdNotFound lid)
  | Some (s, i) =>
      if negb (length_ s =? zlen bytes)
      then update_slot_in_place p lid bytes = Err (LengthMismatch i (length_ s) (zlen bytes))
      else exists p', update_slot_in_place p lid bytes = Ok p' /\ page_wf p'
        /\ abs p' = mk_apage (<[Z.to_nat i := (lid, bytes)]> (entries p))
                      (next_logical_id (page_header p)) (free_space p)
  end.
Proof.
  intros W. unfold update_slot_in_place. rewrite wf_not_exceeds, sp_find_ok by done.
  rewrite exec_bind_ret. destruct (find_lid lid (slots p) 0) as [[s i]|] eqn:Hf; [|done].
  destruct (negb (length_ s =? zlen bytes)) eqn:Hn; [done|].
  apply find_lid_Some in Hf as (k & -> & Hk & <-).
  apply negb_false_iff, Z.eqb_eq in Hn.
  pose proof (update_bounds p k s bytes W Hk Hn) as (?&?&?). pose proof (wf_len p W).
  pose proof (wf_slot_count p W).
  assert (slot_payload_in_bounds (slot_count (page_header p)) (offset s)
            (offset s + length_ s) = true) as ->.
  { unfold slot_payload_in_bounds, sat_sub. page_consts.
    apply andb_true_intro. split; apply Z.leb_le; lia. }
  rewrite splice_set_ok by lia. eexists. split; [done|].
  split; [by apply (update_wf p k)|]. unfold abs.
  rewrite (update_entries p k s bytes W Hk Hn), Z.add_0_l, Nat2Z.id. done.
Qed.

Lemma c_step_refines p op :
  page_wf p -> next_logical_id (page_header p) < 65535 ->
  exists p' r, c_step p op = Some (p', r) /\ page_wf p' /\ a_step (abs p) op = (abs p', r).
Proof.
  intros W Hn. destruct op as [bytes|lid|lid bytes|lid]; cbn [c_step a_step].
  - cbn [abs a_free a_entries a_next]. destruct (Z.ltb_spec (free_space p) (6 + zlen bytes)).
    + rewrite add_slot_full by done. eauto.
    + destruct (add_slot_room p bytes W) as (p' & -> & W' & <- & _); [done..|].
      rewrite zlen_entries by done. eauto.
  - pose proof (delete_by_lid_spec p lid W) as D. cbn [abs a_entries a_next a_free].
    rewrite a_find_abs. destruct (find_lid lid (slots p) 0) as [[s i]|];
      cbn [fmap option_fmap option_map fst snd].
    + destruct D as (p' & -> & W' & <-). eauto.
    + rewrite D. eauto.
  - pose proof (update_spec p lid bytes W) as D. cbn [abs a_entries a_next a_free].
    rewrite a_find_abs. destruct (find_lid lid (slots p) 0) as [[s i]|] eqn:Hf.
    + cbn [fmap option_fmap option_map fst snd].
      apply find_lid_Some in Hf as (k & _ & Hk & _).
      rewrite wf_payload_len; [|done|by eapply list_elem_of_lookup_2].
      destruct (negb (length_ s =? zlen bytes)); [rewrite D; eauto|].
      destruct D as (p' & -> & W' & <-). eauto.
    + rewrite D. eauto.
  - rewrite sp_find_ok by done. cbn [abs a_entries]. rewrite a_find_abs.
    destruct (find_lid lid (slots p) 0) as [[s i]|] eqn:Hf; [|eauto].
    apply find_lid_Some in Hf as (k & _ & Hk & _).
    pose proof (wf_slots p W) as F. rewrite Forall_lookup in F. destruct (F k s Hk).
    destruct (slot_nonneg p s W) as [??]; [by eapply list_elem_of_lookup_2|].
    pose proof (wf_fit p W). pose proof (wf_slot_count p W). pose proof (wf_len p W).
    unfold sp_get_slot_data, get_slot_data. cbn [sp_view data].
    rewrite slice_get_ok by lia. eauto.
Qed.

Fixpoint c_run (p : SlottedPage) (ops : list PageOp) : option (SlottedPage * list PageRes) :=
  match ops with
  | [] => Some (p, [])
  | op :: ops =>
      match c_step p op with
      | None => None
      | Some (p', r) =>
          match c_run p' ops with
          | None => None
          | Some (p'', rs) => Some (p'', r :: rs)
          end
      end
  end.

Fixpoint a_run (a : APage) (ops : list PageOp) : APage * list PageRes :=
  match ops with
  | [] => (a, [])
  | op :: ops =>
      let '(a', r) := a_step a op in
      let '(a'', rs) := a_run a' ops in (a'', r :: rs)
  end.

Lemma a_step_next a op a' r : a_step a op = (a', r) -> a_next a' <= a_next a + 1.
Proof.
  destruct op; simpl; repeat case_match; intros [= <- <-]; simpl; lia.
Qed.

(** C1: the byte-level page implements the abstract page machine: from any
    well-formed page, any sequence of adds, deletes, in-place updates and reads
    (short enough that the 16-bit id counter does not run out) executes without
    panicking, returns exactly the abstract results, errors included, and ends
    in a well-formed page that represents the abstract state. *)
Theorem page_refines p ops :
  page_wf p -> next_logical_id (page_header p) + zlen ops <= 65535 ->
  exists p' rs, c_run p ops = Some (p', rs) /\ page_wf p' /\ a_run (abs p) ops = (abs p', rs).
Proof.
  revert p. induction ops as [|op ops IH]; intros p W Hn; cbn [c_run a_run].
  - eauto.
  - buf_simpl. pose proof (zlen_nonneg ops).
    destruct (c_step_refines p op W ltac:(lia)) as (p1 & r & -> & W1 & Ha).
    apply a_step_next in Ha as Hle. cbn [abs a_next] in Hle. rewrite Ha.
    destruct (IH p1 W1 ltac:(lia)) as (p2 & rs & -> & W2 & ->). eauto 10.
Qed.

Definition demo_page : SlottedPage :=
  match sp_init (E:=PageWriteError) page_zeroed Byte.x03 with
  | Ok p => p
  | _ => mk_page [] (header_new Byte.x03)
  end.

Lemma demo_page_wf : page_wf demo_page.
Proof.
  apply (sp_init_wf page_zeroed Byte.x03); [by vm_compute|].
  unfold demo_page. by vm_compute.
Qed.

Lemma page_refines_witness :
  exists p' rs, c_run demo_page
      [OpAdd [Byte.x61]; OpAdd [Byte.x62; Byte.x63]; OpDelete 0; OpUpdate 1 [Byte.x64; Byte.x65];
       OpRead 1; OpRead 0] = Some (p', rs)
    /\ page_wf p' /\ rs = [RAdded 0 0; RAdded 1 1; RDone; RDone;
                           RRead (Some [Byte.x64; Byte.x65]); RRead None].
Proof.
  destruct (page_refines demo_page
      [OpAdd [Byte.x61]; OpAdd [Byte.x62; Byte.x63]; OpDelete 0; OpUpdate 1 [Byte.x64; Byte.x65];
       OpRead 1; OpRead 0] demo_page_wf) as (p' & rs & H & W & Ha).
  - vm_compute. discriminate.
  - exists p', rs. split; [exact H|]. split; [exact W|].
    apply (f_equal snd) in Ha. cbn [snd] in Ha. rewrite <- Ha. vm_compute. reflexivity.
Defined.

(** * Corrupted pages

    The guards of the write path are there for pages whose bytes were damaged:
    the theorems below assume nothing of the contents. *)

Definition raw_page (d : list byte) : SlottedPage :=
  {| page := d; page_header := header_at d |}.

Lemma raw_page_new {E} d : zlen d = 4096 -> sp_new (E:=E) d = Ok (raw_page d).
Proof.
  intros. unfold sp_new. rewrite slice_get_ok by page_lia. rewrite exec_bind_ret.
  rewrite header_deserialize_ok by (rewrite zlen_slice; page_lia). page_consts.
  by rewrite exec_bind_ret, header_at_window by lia.
Qed.

Lemma raw_find_ok {E} d lid :
  zlen d = 4096 -> slot_count_exceeds_capacity (header_at d) = false ->
  sp_get_slot_by_logical_id (E:=E) (raw_page d) lid
  = Ok (find_lid lid (slots_of d (slot_count (header_at d))) 0).
Proof.
  intros HL Hc. unfold slot_count_exceeds_capacity in Hc. apply Z.ltb_ge in Hc.
  page_consts. destruct (header_at_wf d) as [A _ _ _ _]; [lia|].
  apply get_slot_by_logical_id_ok; [done|].
  cbn [sp_view raw_page header page_header]. word_lia.
Qed.

Lemma raw_add_no_panic d bytes forced :
  zlen d = 4096 -> match forced with None => True | Some id => in_u16 id end ->
  add_slot_inner (raw_page d) bytes forced <> Panic.
Proof.
  intros HL Hf. destruct (header_at_wf d) as [A B C D F]; [lia|].
  unfold add_slot_inner. cbn [raw_page page_header page]. set (h := header_at d) in *.
  destruct (slot_count_exceeds_capacity h) eqn:Hc; [done|].
  unfold slot_count_exceeds_capacity in Hc. apply Z.ltb_ge in Hc. page_consts.
  destruct (Z.ltb_spec (4096 - slot_count h * 6)
              (free_space_offset h + (6 + zlen bytes))) as [|Hfit]; [done|].
  pose proof (zlen_nonneg bytes).
  rewrite splice_set_ok by word_lia. rewrite exec_bind_ret.
  set (d1 := splice d (free_space_offset h) bytes).
  assert (zlen d1 = 4096) as H1 by (unfold d1; rewrite zlen_splice; word_lia).
  rewrite splice_set_ok; [|word_lia|rewrite H1; change (zlen (slot_bytes _)) with 6; word_lia].
  rewrite exec_bind_ret, write_header_ok; [done|..].
  - pose proof (Z.mod_pos_bound (slot_count h + 1) 65536).
    pose proof (Z.mod_pos_bound (free_space_offset h + wrap16 (zlen bytes)) 65536).
    pose proof (Z.mod_pos_bound (next_logical_id h + 1) 65536).
    split; cbn [slot_count free_space_offset next_page_id next_logical_id padding];
      try done; try word_lia. destruct forced; word_lia.
  - rewrite zlen_splice; [lia|word_lia|change (zlen (slot_bytes _)) with 6; word_lia].
Qed.

Lemma raw_delete_no_panic d index :
  zlen d = 4096 -> 0 <= index -> delete_slot (raw_page d) index <> Panic.
Proof.
  intros HL Hi. destruct (header_at_wf d) as [A B C D F]; [lia|].
  unfold delete_slot. cbn [raw_page page_header page]. set (h := header_at d) in *.
  destruct (slot_count_exceeds_capacity h) eqn:Hc; [done|].
  unfold slot_count_exceeds_capacity in Hc. apply Z.ltb_ge in Hc. page_consts.
  destruct (Z.leb_spec (slot_count h) index) as [|Hlt]; [done|].
  destruct (shift_slots_spec (E:=PageWriteError) (Z.to_nat (slot_count h - 1 - index)) d index)
    as (d' & -> & HL' & _); [done|lia|word_lia|].
  rewrite exec_bind_ret, splice_set_ok
    by (rewrite ?HL'; change (zlen (replicate 6 Byte.x00)) with 6; word_lia).
  rewrite exec_bind_ret, write_header_ok; [done|..].
  - split; cbn [slot_count free_space_offset next_page_id next_logical_id padding];
      try done; word_lia.
  - rewrite zlen_splice; change (zlen (replicate 6 Byte.x00)) with 6; word_lia.
Qed.

Lemma raw_update_cases d lid bytes :
  zlen d = 4096 ->
  (exists e, update_slot_in_place (raw_page d) lid bytes = Err e)
  \/ exists a, update_slot_in_place (raw_page d) lid bytes
               = Ok {| page := splice d a bytes; page_header := header_at d |}
       /\ 16 <= a /\ a + zlen bytes <= 4096 - 6 * slot_count (header_at d)
       /\ 0 <= slot_count (header_at d).
Proof.
  intros HL. destruct (header_at_wf d) as [A _ _ _ _]; [lia|].
  unfold update_slot_in_place.
  cbn [raw_page page_header page]. set (h := header_at d) in *.
  destruct (slot_count_exceeds_capacity h) eqn:Hc; [eauto|].
  fold (raw_page d). rewrite raw_find_ok, exec_bind_ret by done. fold h.
  unfold slot_count_exceeds_capacity in Hc. apply Z.ltb_ge in Hc. page_consts.
  destruct (find_lid _ _ _) as [[s i]|]; [|eauto].
  destruct (Z.eqb_spec (length_ s) (zlen bytes)) as [El|]; cbn [negb]; [|eauto].
  unfold slot_payload_in_bounds, sat_sub. page_consts. rewrite El.
  destruct (Z.leb_spec 16 (offset s)); cbn [andb negb]; [|eauto].
  destruct (Z.leb_spec (offset s + zlen bytes) (Z.max (4096 - slot_count h * 6) 0));
    cbn [andb negb]; [|eauto].
  right. exists (offset s). rewrite splice_set_ok by word_lia.
  split; [done|]. word_lia.
Qed.

(** on any 4096 bytes whatever, adding (with or without a forced id),
    deleting and updating a slot return a value or a structured error; they
    never panic. *)
Theorem write_ops_never_panic d lid bytes index :
  zlen d = 4096 -> in_u16 lid -> 0 <= index ->
  add_slot (raw_page d) bytes <> Panic
  /\ add_slot_with_logical_id (raw_page d) bytes lid <> Panic
  /\ delete_slot (raw_page d) index <> Panic
  /\ delete_slot_by_logical_id (raw_page d) lid <> Panic
  /\ update_slot_in_place (raw_page d) lid bytes <> Panic.
Proof.
  intros HL Hl Hi. split; [by apply raw_add_no_panic|]. split; [|split; [|split]].
  - unfold add_slot_with_logical_id.
    pose proof (raw_add_no_panic d bytes (Some lid) HL Hl) as H.
    destruct (add_slot_inner (raw_page d) bytes (Some lid)) as [[? [? ?]]| |]; done.
  - by apply raw_delete_no_panic.
  - unfold delete_slot_by_logical_id. cbn [raw_page page_header].
    destruct (slot_count_exceeds_capacity (header_at d)) eqn:Hc; [done|].
    fold (raw_page d). rewrite raw_find_ok, exec_bind_ret by done.
    destruct (find_lid _ _ _) as [[s i]|] eqn:Hf; [|done].
    apply find_lid_Some in Hf as (k & -> & _). apply raw_delete_no_panic; [done|lia].
  - destruct (raw_update_cases d lid bytes HL) as [[e ->]|(a & -> & _)]; done.
Qed.

Lemma write_ops_never_panic_witness :
  let d := replicate 4096 Byte.xff in
  zlen d = 4096 /\ add_slot (raw_page d) [Byte.x01] <> Panic.
Proof.
  split; [by vm_compute|].
  apply (write_ops_never_panic (replicate 4096 Byte.xff) 7 [Byte.x01] 3); vm_compute; split || idtac; congruence.
Defined.

(** an in-place update of any page image, damaged or not, either fails and
    writes nothing or changes only bytes of the data area: the header and the
    slot directory read the same afterwards. *)
Theorem update_in_place_confined d lid bytes p' :
  zlen d = 4096 -> update_slot_in_place (raw_page d) lid bytes = Ok p' ->
  zlen (page p') = 4096 /\ page_header p' = header_at d
  /\ (forall c e, 0 <= c -> e <= 16 -> slice (page p') c e = slice d c e)
  /\ (forall c e, 4096 - 6 * slot_count (header_at d) <= c ->
        slice (page p') c e = slice d c e).
Proof.
  intros HL H. destruct (raw_update_cases d lid bytes HL) as [[e He]|(a & Ha & ?&?&?)];
    rewrite H in *; [done|]. injection Ha as ->. cbn [page page_header].
  pose proof (zlen_nonneg bytes).
  split; [rewrite zlen_splice; lia|]. split; [done|]. split; intros.
  - apply slice_splice_before; lia.
  - apply slice_splice_after; lia.
Qed.

Definition demo_page1 : SlottedPage :=
  match c_run demo_page [OpAdd [Byte.x61; Byte.x62]; OpAdd [Byte.x63]] with
  | Some (p, _) => p
  | None => demo_page
  end.

Lemma update_in_place_confined_witness :
  exists p', update_slot_in_place (raw_page (page demo_page1)) 0 [Byte.x7a; Byte.x7a] = Ok p'
    /\ slice (page p') 0 16 = slice (page demo_page1) 0 16.
Proof.
  destruct (update_slot_in_place (raw_page (page demo_page1)) 0 [Byte.x7a; Byte.x7a])
    as [p'| |] eqn:E; [|exfalso; vm_compute in E; discriminate E..].
  exists p'. split; [reflexivity|].
  destruct (update_in_place_confined (page demo_page1) 0 [Byte.x7a; Byte.x7a] p'
              ltac:(vm_compute; reflexivity) E) as (_ & _ & H & _).
  apply H; lia.
Defined.

(** reading a page image with a plausible slot count is safe whatever its
    bytes: [get_slot] does not panic, and a payload that [get_slot_data_checked]
    accepts is the one the unchecked reader returns and lies between the header
    and the slot directory. *)
Theorem checked_read_safe d i :
  zlen d = 4096 -> slot_count_exceeds_capacity (header_at d) = false -> 0 <= i ->
  let r := mk_ref d (header_at d) in
  exists o, get_slot (E:=PageWriteError) r i = Ok o
    /\ forall s bs, o = Some s -> get_slot_data_checked r s = Some bs ->
       get_slot_data (E:=PageWriteError) r s = Ok bs
       /\ 16 <= offset s /\ offset s + zlen bs <= 4096 - 6 * slot_count (header_at d).
Proof.
  intros HL Hc Hi r. unfold slot_count_exceeds_capacity in Hc. apply Z.ltb_ge in Hc.
  page_consts. destruct (header_at_wf d) as [A _ _ _ _]; [lia|].
  destruct (Z.le_gt_cases (slot_count (header_at d)) i) as [Hge|Hlt].
  { exists None. split; [by apply get_slot_none|]. by intros. }
  exists (Some (slot_at d i)). split; [by apply get_slot_ok|].
  intros s bs [= <-]. destruct (slot_at_range d i HL ltac:(lia)) as (_ & Ho & Hl).
  unfold get_slot_data_checked, slot_payload_in_bounds, sat_sub, get_slot_data.
  cbn [r data header]. page_consts. generalize dependent (slot_at d i). intros s Ho Hl.
  destruct (Z.leb_spec 16 (offset s)); cbn [andb negb]; [|done].
  destruct (Z.leb_spec (offset s + length_ s) (Z.max (4096 - slot_count (header_at d) * 6) 0));
    cbn [andb negb]; [|done].
  destruct (Z.leb_spec (offset s) (offset s + length_ s)); cbn [andb]; [|done].
  destruct (Z.leb_spec (offset s + length_ s) (zlen d)); [|done].
  intros [= <-]. rewrite slice_get_ok, zlen_slice by word_lia. split; [done|word_lia].
Qed.

Lemma checked_read_safe_witness :
  let d := page demo_page1 in
  let r := mk_ref d (header_at d) in
  exists o, get_slot (E:=PageWriteError) r 1 = Ok o
    /\ forall s bs, o = Some s -> get_slot_data_checked r s = Some bs ->
       get_slot_data (E:=PageWriteError) r s = Ok bs
       /\ 16 <= offset s /\ offset s + zlen bs <= 4096 - 6 * slot_count (header_at d).
Proof. apply (checked_read_safe (page demo_page1) 1); [vm_compute; reflexivity..|lia]. Defined.

(** ** Forced ids (the recovery path) *)

Lemma forced_add p bytes id :
  page_wf p -> 0 <= id < 65535 -> id ∉ (entries p).*1 -> 6 + zlen bytes <= free_space p ->
  exists p', add_slot_with_logical_id p bytes id = Ok (p', slot_count (page_header p))
    /\ page_wf p'
    /\ page_type (page_header p') = page_type (page_header p)
    /\ abs p' = mk_apage (entries p ++ [(id, bytes)])
                  (Z.max (next_logical_id (page_header p)) (id + 1))
                  (free_space p - (6 + zlen bytes)).
Proof.
  intros W Hid Hfresh Hroom. rewrite wf_free_space in Hroom by done.
  assert ((entries p).*1 = logical_id <$> slots p) as Hids.
  { unfold entries. rewrite <- list_fmap_compose. done. }
  rewrite Hids in Hfresh.
  assert (sat_add_u16 id 1 = id + 1) as Hs by word_lia.
  exists (added_page p bytes (Some id)).
  assert (page_wf (added_page p bytes (Some id))) as W'.
  { apply added_wf; try done; try lia; try word_lia;
      cbn [added_header next_logical_id added_lid default]; rewrite ?Hs;
      unfold added_lid; simpl; lia || done. }
  split; [|split; [|split]].
  - unfold add_slot_with_logical_id. rewrite add_slot_inner_ok by (done || word_lia || lia). done.
  - done.
  - done.
  - unfold abs. rewrite added_entries by (done || word_lia || lia). f_equal.
    + cbn [added_page page_header added_header next_logical_id]. by rewrite Hs.
    + rewrite !wf_free_space by done.
      cbn [added_page page_header added_header slot_count free_space_offset]. lia.
Qed.

(** replaying a record at its logged id appends exactly that entry, keeps
    the page well-formed and moves the counter past the id without ever moving
    it back, provided the id is not on the page and is below 65535. *)
Theorem forced_placement p bytes id :
  page_wf p -> 0 <= id < 65535 -> id ∉ (entries p).*1 -> 6 + zlen bytes <= free_space p ->
  exists p', add_slot_with_logical_id p bytes id = Ok (p', slot_count (page_header p))
    /\ page_wf p'
    /\ abs p' = mk_apage (entries p ++ [(id, bytes)])
                  (Z.max (next_logical_id (page_header p)) (id + 1))
                  (free_space p - (6 + zlen bytes)).
Proof.
  intros W Hid Hfresh Hroom. destruct (forced_add p bytes id W Hid Hfresh Hroom) as (p' & A & B & _ & C).
  by exists p'.
Qed.

Lemma forced_placement_witness :
  exists p', add_slot_with_logical_id demo_page [Byte.x61] 5 = Ok (p', 0) /\ page_wf p'
    /\ abs p' = mk_apage [(5, [Byte.x61])] 6 4073.
Proof.
  apply (forced_placement demo_page [Byte.x61] 5 demo_page_wf).
  - lia.
  - apply not_elem_of_nil.
  - vm_compute. discriminate.
Defined.

(** at the last id the counter cannot advance: after a forced placement at
    65535 the next ordinary allocation hands out 65535 again, so two entries of
    one page share a logical id. *)
Theorem forced_last_id_collides :
  exists p1 i1 p2 i2,
    add_slot_with_logical_id demo_page [Byte.x61] 65535 = Ok (p1, i1)
    /\ add_slot p1 [Byte.x62] = Ok (p2, (65535, i2))
    /\ (entries p2).*1 = [65535; 65535].
Proof.
  destruct (add_slot_with_logical_id demo_page [Byte.x61] 65535) as [[p1 i1]| |] eqn:E1;
    [|exfalso; vm_compute in E1; discriminate E1..].
  exists p1, i1. vm_compute in E1. injection E1 as <- <-.
  do 2 eexists. split; [reflexivity|]. split; vm_compute; reflexivity.
Qed.
