(* ===== verification/Values.v ===== *)
(** * SQL values

    [src/executor/value.rs] and [src/executor/value_ref.rs]: the value type,
    its comparisons, the arithmetic the aggregates use, its [Hash] and [Eq],
    and the borrowed [ValueRef] with the same operations.

    A [Value::Float] carries the 64 bits of the [f64]; comparison and
    arithmetic decode them into the IEEE-754 numbers of [SpecFloat].  Where an
    operation yields a NaN the result is the canonical quiet NaN (Rust leaves
    the payload unspecified). *)

From Stdlib Require Import ZArith Strings.Byte Lia SpecFloat.
From stdpp Require Import base tactics list numbers gmap.
From S2P Require Import Prelude RowKey.

(** ** IEEE-754 binary64 *)

Definition f64_decode (bits : Z) : spec_float :=
  let sign := Z.testbit bits 63 in
  let ex := Z.land (Z.shiftr bits 52) 2047 in
  let man := Z.land bits 4503599627370495 in
  if ex =? 2047 then (if man =? 0 then S754_infinity sign else S754_nan)
  else
    let m := if ex =? 0 then man else man + 4503599627370496 in
    let e := (if ex =? 0 then 1 else ex) - 1075 in
    match m with
    | Zpos p => S754_finite sign p e
    | _ => S754_zero sign
    end.

Definition f64_encode (f : spec_float) : Z :=
  let sb (s : bool) := if s then 9223372036854775808 else 0 in
  match f with
  | S754_zero s => sb s
  | S754_infinity s => sb s + 9218868437227405312
  | S754_nan => 9221120237041090560
  | S754_finite s m e =>
      if Zpos m <? 4503599627370496 then sb s + Zpos m
      else sb s + (e + 1075) * 4503599627370496 + (Zpos m - 4503599627370496)
  end.

(** [n as f64]: round to nearest, ties to even. *)
Definition f64_of_int (n : Z) : Z := f64_encode (binary_normalize 53 1024 n 0 false).
Definition f64_eqb (a b : Z) : bool := SFeqb (f64_decode a) (f64_decode b).
Definition f64_ltb (a b : Z) : bool := SFltb (f64_decode a) (f64_decode b).
Definition f64_leb (a b : Z) : bool := SFleb (f64_decode a) (f64_decode b).
Definition f64_add (a b : Z) : Z := f64_encode (SFadd 53 1024 (f64_decode a) (f64_decode b)).
Definition f64_div (a b : Z) : Z := f64_encode (SFdiv 53 1024 (f64_decode a) (f64_decode b)).
Definition f64_is_nan (a : Z) : bool :=
  match f64_decode a with S754_nan => true | _ => false end.

(** ** Values *)

(** Schema column types ([src/storage/page_format/tuple.rs]). *)
Inductive ColumnType :=
| CInt
| CString (max_len : Z)
| CFloat
| CBool
| CDate
| CTimestamp.

Inductive Value :=
| VInt (n : Z)
| VString (s : list byte)
| VNull
| VFloat (bits : Z)
| VBool (b : bool)
| VDate (d : Z)
| VTimestamp (t : Z).

#[global] Instance value_eq_dec : EqDecision Value.
Proof. solve_decision. Defined.

Inductive ValueError := TypeMismatch | NullComparison.

(** The ranges of the Rust types inside a value; strings are UTF-8. *)
Definition value_wf (v : Value) : Prop :=
  match v with
  | VInt n => in_i64 n
  | VString s => utf8_valid s = true
  | VNull => True
  | VFloat b => in_u64 b
  | VBool _ => True
  | VDate d => in_i32 d
  | VTimestamp t => in_i64 t
  end.

Definition is_null (v : Value) : bool := match v with VNull => true | _ => false end.

Definition as_float (v : Value) : exec ValueError Z :=
  match v with
  | VFloat f => Ok f
  | VInt i => Ok (f64_of_int i)
  | VNull => Err NullComparison
  | _ => Err TypeMismatch
  end.

Definition as_bool (v : Value) : exec ValueError bool :=
  match v with
  | VBool b => Ok b
  | VInt i => Ok (negb (i =? 0))
  | VNull => Err NullComparison
  | _ => Err TypeMismatch
  end.

Definition bytes_eqb (a b : list byte) : bool :=
  match bytes_cmp a b with Eq => true | _ => false end.
Definition bytes_ltb (a b : list byte) : bool :=
  match bytes_cmp a b with Lt => true | _ => false end.
Definition bytes_leb (a b : list byte) : bool :=
  match bytes_cmp a b with Gt => false | _ => true end.
Definition bool_ltb (a b : bool) : bool := negb a && b.
Definition bool_leb (a b : bool) : bool := negb a || b.

Definition equals (a b : Value) : bool :=
  match a, b with
  | VNull, VNull => true
  | VNull, _ | _, VNull => false
  | VInt x, VInt y => x =? y
  | VString x, VString y => bytes_eqb x y
  | VFloat x, VFloat y => f64_eqb x y
  | VBool x, VBool y => Bool.eqb x y
  | VDate x, VDate y => x =? y
  | VTimestamp x, VTimestamp y => x =? y
  | VInt x, VFloat y => f64_eqb (f64_of_int x) y
  | VFloat x, VInt y => f64_eqb x (f64_of_int y)
  | _, _ => false
  end.

(** The shared shape of [gt], [lt], [ge] and [le]: one relation per type. *)
Definition value_rel (ri : Z -> Z -> bool) (rs : list byte -> list byte -> bool)
    (rf : Z -> Z -> bool) (rb : bool -> bool -> bool) (a b : Value)
    : exec ValueError bool :=
  match a, b with
  | VNull, _ | _, VNull => Err NullComparison
  | VInt x, VInt y => Ok (ri x y)
  | VString x, VString y => Ok (rs x y)
  | VFloat x, VFloat y => Ok (rf x y)
  | VBool x, VBool y => Ok (rb x y)
  | VDate x, VDate y => Ok (ri x y)
  | VTimestamp x, VTimestamp y => Ok (ri x y)
  | VInt x, VFloat y => Ok (rf (f64_of_int x) y)
  | VFloat x, VInt y => Ok (rf x (f64_of_int y))
  | _, _ => Err TypeMismatch
  end.

Definition value_gt : Value -> Value -> exec ValueError bool :=
  value_rel Z.gtb (flip bytes_ltb) (flip f64_ltb) (flip bool_ltb).
Definition value_lt : Value -> Value -> exec ValueError bool :=
  value_rel Z.ltb bytes_ltb f64_ltb bool_ltb.
Definition value_ge : Value -> Value -> exec ValueError bool :=
  value_rel Z.geb (flip bytes_leb) (flip f64_leb) (flip bool_leb).
Definition value_le : Value -> Value -> exec ValueError bool :=
  value_rel Z.leb bytes_leb f64_leb bool_leb.

(** [i64] addition wraps in the release profile. *)
Definition value_add (a b : Value) : Value :=
  match a, b with
  | VInt x, VInt y => VInt (to_i64 (wrap64 (x + y)))
  | VFloat x, VFloat y => VFloat (f64_add x y)
  | VInt x, VFloat y => VFloat (f64_add (f64_of_int x) y)
  | VFloat x, VInt y => VFloat (f64_add x (f64_of_int y))
  | _, _ => VNull
  end.

Definition lt_agg (a b : Value) : bool :=
  match a, b with
  | VInt x, VInt y => x <? y
  | VFloat x, VFloat y => f64_ltb x y
  | VInt x, VFloat y => f64_ltb (f64_of_int x) y
  | VFloat x, VInt y => f64_ltb x (f64_of_int y)
  | VString x, VString y => bytes_ltb x y
  | VDate x, VDate y => x <? y
  | VTimestamp x, VTimestamp y => x <? y
  | _, _ => false
  end.

(** [i64::MIN / -1] panics in every profile; [/] truncates. *)
Definition value_div (a b : Value) : exec Empty_set Value :=
  match a, b with
  | VInt x, VInt y =>
      if y =? 0 then Ok VNull
      else if (x =? -9223372036854775808) && (y =? -1) then Panic
      else Ok (VInt (Z.quot x y))
  | VFloat x, VFloat y => Ok (if f64_eqb y 0 then VNull else VFloat (f64_div x y))
  | VInt x, VFloat y => Ok (if f64_eqb y 0 then VNull else VFloat (f64_div (f64_of_int x) y))
  | VFloat x, VInt y => Ok (if y =? 0 then VNull else VFloat (f64_div x (f64_of_int y)))
  | _, _ => Ok VNull
  end.

(** The derived [PartialEq]: structural, with the [==] of [f64]. *)
Definition value_partial_eq (a b : Value) : bool :=
  match a, b with
  | VInt x, VInt y => x =? y
  | VString x, VString y => bytes_eqb x y
  | VNull, VNull => true
  | VFloat x, VFloat y => f64_eqb x y
  | VBool x, VBool y => Bool.eqb x y
  | VDate x, VDate y => x =? y
  | VTimestamp x, VTimestamp y => x =? y
  | _, _ => false
  end.

(** What [Hash for Value] feeds the hasher: the discriminant and the payload
    ([to_bits] of a float). *)
Definition value_hash_input (v : Value) : Z * (Z + list byte) :=
  match v with
  | VInt n => (0, inl n)
  | VString s => (1, inr s)
  | VNull => (2, inl 0)
  | VFloat b => (3, inl b)
  | VBool b => (4, inl (if b then 1 else 0))
  | VDate d => (5, inl d)
  | VTimestamp t => (6, inl t)
  end.

(** ** Borrowed values ([ValueRef]) *)

Inductive ValueRef :=
| RefInt (n : Z)
| RefText (s : list byte)
| RefNull
| RefFloat (bits : Z)
| RefBool (b : bool)
| RefDate (d : Z)
| RefTimestamp (t : Z).

Definition to_value (r : ValueRef) : Value :=
  match r with
  | RefInt n => VInt n
  | RefText s => VString s
  | RefNull => VNull
  | RefFloat f => VFloat f
  | RefBool b => VBool b
  | RefDate d => VDate d
  | RefTimestamp t => VTimestamp t
  end.

Definition as_value_ref (v : Value) : ValueRef :=
  match v with
  | VInt n => RefInt n
  | VString s => RefText s
  | VNull => RefNull
  | VFloat f => RefFloat f
  | VBool b => RefBool b
  | VDate d => RefDate d
  | VTimestamp t => RefTimestamp t
  end.

Definition ref_is_null (r : ValueRef) : bool := match r with RefNull => true | _ => false end.

Definition ref_as_float (r : ValueRef) : exec ValueError Z :=
  match r with
  | RefFloat f => Ok f
  | RefInt i => Ok (f64_of_int i)
  | RefNull => Err NullComparison
  | _ => Err TypeMismatch
  end.

Definition ref_as_bool (r : ValueRef) : exec ValueError bool :=
  match r with
  | RefBool b => Ok b
  | RefInt i => Ok (negb (i =? 0))
  | RefNull => Err NullComparison
  | _ => Err TypeMismatch
  end.

Definition ref_equals (a b : ValueRef) : bool :=
  match a, b with
  | RefNull, RefNull => true
  | RefNull, _ | _, RefNull => false
  | RefInt x, RefInt y => x =? y
  | RefText x, RefText y => bytes_eqb x y
  | RefFloat x, RefFloat y => f64_eqb x y
  | RefBool x, RefBool y => Bool.eqb x y
  | RefDate x, RefDate y => x =? y
  | RefTimestamp x, RefTimestamp y => x =? y
  | RefInt x, RefFloat y => f64_eqb (f64_of_int x) y
  | RefFloat x, RefInt y => f64_eqb x (f64_of_int y)
  | _, _ => false
  end.

Definition ref_rel (ri : Z -> Z -> bool) (rs : list byte -> list byte -> bool)
    (rf : Z -> Z -> bool) (rb : bool -> bool -> bool) (a b : ValueRef)
    : exec ValueError bool :=
  match a, b with
  | RefNull, _ | _, RefNull => Err NullComparison
  | RefInt x, RefInt y => Ok (ri x y)
  | RefText x, RefText y => Ok (rs x y)
  | RefFloat x, RefFloat y => Ok (rf x y)
  | RefBool x, RefBool y => Ok (rb x y)
  | RefDate x, RefDate y => Ok (ri x y)
  | RefTimestamp x, RefTimestamp y => Ok (ri x y)
  | RefInt x, RefFloat y => Ok (rf (f64_of_int x) y)
  | RefFloat x, RefInt y => Ok (rf x (f64_of_int y))
  | _, _ => Err TypeMismatch
  end.

Definition ref_gt : ValueRef -> ValueRef -> exec ValueError bool :=
  ref_rel Z.gtb (flip bytes_ltb) (flip f64_ltb) (flip bool_ltb).
Definition ref_lt : ValueRef -> ValueRef -> exec ValueError bool :=
  ref_rel Z.ltb bytes_ltb f64_ltb bool_ltb.
Definition ref_ge : ValueRef -> ValueRef -> exec ValueError bool :=
  ref_rel Z.geb (flip bytes_leb) (flip f64_leb) (flip bool_leb).
Definition ref_le : ValueRef -> ValueRef -> exec ValueError bool :=
  ref_rel Z.leb bytes_leb f64_leb bool_leb.

(** ** Theorems *)

(** *** Byte strings under [bytes_cmp] *)

Lemma bytes_cmp_refl a : bytes_cmp a a = Eq.
Proof. induction a as [|x a IH]; [done|]. simpl. by rewrite Z.compare_refl. Qed.

Lemma bytes_cmp_eq a b : bytes_cmp a b = Eq -> a = b.
Proof.
  revert b. induction a as [|x a IH]; intros [|y b]; try done. simpl.
  destruct (Z.compare_spec (byte_val x) (byte_val y)) as [E|E|E]; try done.
  intros H. f_equal; [by apply byte_val_inj | by apply IH].
Qed.

Lemma bytes_cmp_antisym a b : bytes_cmp b a = CompOpp (bytes_cmp a b).
Proof.
  revert b. induction a as [|x a IH]; intros [|y b]; try done. simpl.
  rewrite (Z.compare_antisym (byte_val x)), IH. by destruct (byte_val x ?= byte_val y).
Qed.

(** *** Floats *)

Lemma Zpos_compare_cont_antisym p q :
  Pos.compare_cont Eq q p = CompOpp (Pos.compare_cont Eq p q).
Proof. apply Pos.compare_antisym. Qed.

Lemma SFcompare_antisym x y :
  SFcompare y x = option_map CompOpp (SFcompare x y).
Proof.
  destruct x as [[]|[]| |[] mx ex], y as [[]|[]| |[] my ey]; try done; simpl;
    rewrite (Z.compare_antisym ex ey); destruct (ex ?= ey); try done; simpl;
    f_equal; rewrite (Zpos_compare_cont_antisym mx my); by rewrite ?CompOpp_involutive.
Qed.

Lemma SFcompare_None x y :
  SFcompare x y = None <-> x = S754_nan \/ y = S754_nan.
Proof.
  split.
  - destruct x as [[]|[]| |[] mx ex], y as [[]|[]| |[] my ey]; try done; auto;
      simpl; by destruct (ex ?= ey).
  - intros [-> | ->]; [done|]. destruct x as [[]|[]| |[] mx ex]; done.
Qed.

(** Exactly one of three booleans. *)
Definition exactly_one (a b c : bool) : bool :=
  match a, b, c with
  | true, false, false | false, true, false | false, false, true => true
  | _, _, _ => false
  end.

Lemma f64_trichotomy x y :
  f64_is_nan x = false -> f64_is_nan y = false ->
  exactly_one (f64_ltb x y) (f64_eqb x y) (f64_ltb y x) = true
  /\ f64_leb x y = f64_ltb x y || f64_eqb x y
  /\ f64_leb y x = f64_ltb y x || f64_eqb x y.
Proof.
  unfold f64_ltb, f64_eqb, f64_leb, f64_is_nan.
  generalize (f64_decode x), (f64_decode y). intros a b Na Nb.
  unfold SFltb, SFeqb, SFleb. rewrite (SFcompare_antisym a b).
  destruct (SFcompare a b) as [[]|] eqn:E; [done..|].
  apply SFcompare_None in E. destruct E; subst; done.
Qed.

Lemma Z_trichotomy x y :
  exactly_one (x <? y) (x =? y) (x >? y) = true
  /\ (x <=? y) = (x <? y) || (x =? y) /\ (x >=? y) = (x >? y) || (x =? y).
Proof.
  unfold Z.ltb, Z.leb, Z.gtb, Z.geb.
  destruct (Z.compare_spec x y) as [E|E|E].
  - subst. by rewrite Z.eqb_refl.
  - by rewrite (proj2 (Z.eqb_neq _ _)) by lia.
  - by rewrite (proj2 (Z.eqb_neq _ _)) by lia.
Qed.

Lemma bytes_trichotomy x y :
  exactly_one (bytes_ltb x y) (bytes_eqb x y) (bytes_ltb y x) = true
  /\ bytes_leb x y = bytes_ltb x y || bytes_eqb x y
  /\ bytes_leb y x = bytes_ltb y x || bytes_eqb x y.
Proof.
  unfold bytes_ltb, bytes_eqb, bytes_leb. rewrite (bytes_cmp_antisym x y).
  by destruct (bytes_cmp x y).
Qed.

(** The number a value compares as, if any, is not a NaN. *)
Definition never_nan (v : Value) : Prop :=
  match as_float v with Ok x => f64_is_nan x = false | _ => True end.

(** The outcome of the five comparisons on one pair of operands. *)
Definition comparisons_agree (a b : Value) : Prop :=
  match value_lt a b with
  | Ok l =>
      exists g, value_gt a b = Ok g
        /\ exactly_one l (equals a b) g = true
        /\ value_le a b = Ok (l || equals a b)
        /\ value_ge a b = Ok (g || equals a b)
  | Err e => value_gt a b = Err e /\ value_le a b = Err e /\ value_ge a b = Err e
  | Panic => False
  end.

(** The five comparison operators of [Value] are one order: on comparable
    operands exactly one of [lt], [equals], [gt] holds and [le]/[ge] are their
    disjunctions; on incomparable ones all four report the same error.  NaN
    operands are excluded. *)
Theorem comparisons_coherent a b : never_nan a -> never_nan b -> comparisons_agree a b.
Proof.
  unfold never_nan, comparisons_agree.
  destruct a as [x|x| |x|x|x|x], b as [y|y| |y|y|y|y]; cbn [as_float]; intros Na Nb;
    cbn; try done;
    lazymatch goal with
    | |- context [bool_ltb] => destruct x, y; eexists; done
    | |- context [bytes_ltb] => pose proof (bytes_trichotomy x y) as H
    | |- context [f64_of_int x] => pose proof (f64_trichotomy (f64_of_int x) y Na Nb) as H
    | |- context [f64_of_int y] => pose proof (f64_trichotomy x (f64_of_int y) Na Nb) as H
    | |- context [f64_ltb] => pose proof (f64_trichotomy x y Na Nb) as H
    | |- context [Z.ltb] => pose proof (Z_trichotomy x y) as H
    end;
    destruct H as (H1 & H2 & H3); eexists; (split; [reflexivity|]);
    unfold flip; rewrite H2, H3; done.
Qed.

(** ... witnessed on an integer and a float, and on two strings. *)
Lemma comparisons_coherent_witness :
  comparisons_agree (VInt 3) (VFloat (f64_of_int 4))
  /\ comparisons_agree (VString [Byte.x61]) (VString [Byte.x61; Byte.x62]).
Proof.
  split; apply comparisons_coherent; first [vm_compute; reflexivity | vm_compute; exact I].
Defined.

(** [ValueRef] compares as the [Value] it converts to, on every operation. *)
Theorem value_ref_agrees a b :
  ref_equals a b = equals (to_value a) (to_value b)
  /\ ref_lt a b = value_lt (to_value a) (to_value b)
  /\ ref_gt a b = value_gt (to_value a) (to_value b)
  /\ ref_le a b = value_le (to_value a) (to_value b)
  /\ ref_ge a b = value_ge (to_value a) (to_value b)
  /\ ref_as_float a = as_float (to_value a)
  /\ ref_as_bool a = as_bool (to_value a)
  /\ ref_is_null a = is_null (to_value a)
  /\ as_value_ref (to_value a) = a.
Proof. by destruct a, b. Qed.

(** [Hash] and [Eq] of [Value] disagree with what Rust's hash maps require of
    them: [0.0] and [-0.0] are equal and hash differently, and a NaN is not
    equal to itself.  The comment above [impl Eq] says equality compares the
    bits. *)
Theorem value_eq_hash_contract_fails :
  (exists a b, value_wf a /\ value_wf b /\ value_partial_eq a b = true
     /\ value_hash_input a <> value_hash_input b)
  /\ (exists v, value_wf v /\ value_partial_eq v v = false).
Proof.
  split.
  - exists (VFloat 0), (VFloat 9223372036854775808). vm_compute. split_and!; done.
  - exists (VFloat 9221120237041090560). vm_compute. split_and!; done.
Qed.

(** Outside floats the contract holds: equal values are the same value, so
    they hash alike, and equality is reflexive. *)
Theorem value_eq_hash_non_float a b :
  (forall f, a <> VFloat f) ->
  (value_partial_eq a b = true <-> a = b).
Proof.
  intros Hf. split.
  - destruct a, b; simpl; try done; intros H.
    + apply Z.eqb_eq in H. by subst.
    + unfold bytes_eqb in H. destruct (bytes_cmp s s0) eqn:E; try done.
      by rewrite (bytes_cmp_eq _ _ E).
    + by destruct (Hf bits).
    + apply Bool.eqb_prop in H. by subst.
    + apply Z.eqb_eq in H. by subst.
    + apply Z.eqb_eq in H. by subst.
  - intros <-. destruct a; simpl; rewrite ?Z.eqb_refl, ?Bool.eqb_reflx; try done.
    + unfold bytes_eqb. by rewrite bytes_cmp_refl.
    + by destruct (Hf bits).
Qed.

Lemma value_eq_hash_non_float_witness :
  value_partial_eq (VInt 7) (VInt 7) = true <-> VInt 7 = VInt 7.
Proof. by apply value_eq_hash_non_float. Defined.
