(* ===== verification/IndexKey.v ===== *)
(** * Index keys

    The encodings of [src/executor/value.rs] that turn column values into
    32-byte index keys (generation 0: one raw column; generation 1: an
    order-preserving concatenation of columns), the range sentinels computed
    from a predicate prefix, and the range test of
    [src/storage/btree/index_manager.rs].

    The theorems show that the order of generation-1 keys is the lexicographic
    order of the rows, and that a key lies between the sentinels exactly when
    its row satisfies the predicate prefix. *)

From Stdlib Require Import ZArith Strings.Byte Lia.
From stdpp Require Import base tactics list numbers gmap.
From S2P Require Import Prelude RowKey Values.
Import Key.

(** ** Encodings *)

(** The encoders below check the length before they build a key, so the
    assertion of [Key::new] cannot fail; [key_make] is the checked call. *)
Definition key_make (bs : list byte) : option Key :=
  match key_new bs with Ok k => Some k | _ => None end.

Definition to_key (v : Value) : option Key :=
  match v with
  | VInt n => key_make (be_bytes 8 n)
  | _ => None
  end.

(** The escaping loop: [0x00] becomes [00 FF]; [None] once more than 32 bytes
    have been produced. *)
Fixpoint escape_bytes (raw : list byte) (encoded : list byte) : option (list byte) :=
  match raw with
  | [] => Some encoded
  | b :: raw =>
      let encoded :=
        if bool_decide (b = Byte.x00) then encoded ++ [Byte.x00; Byte.xff]
        else encoded ++ [b] in
      if MAX_KEY_LEN <? zlen encoded then None else escape_bytes raw encoded
  end.

Definition encode_string_bytes (text : list byte) : option (list byte) :=
  if MAX_KEY_LEN - 2 <? zlen text then None
  else
    match escape_bytes text [] with
    | None => None
    | Some encoded =>
        let encoded := encoded ++ [Byte.x00] ++ [Byte.x00] in
        if MAX_KEY_LEN <? zlen encoded then None else Some encoded
    end.

Definition fixed32_string_key (text : list byte) : option Key :=
  encode_string_bytes text ≫= key_make.

Definition secondary_index_key (v : Value) (column_type : ColumnType) : option Key :=
  match column_type with
  | CInt => to_key v
  | CString _ => match v with VString text => fixed32_string_key text | _ => None end
  | CFloat | CBool | CDate | CTimestamp => None
  end.

Definition byte_xor (b : byte) (m : Z) : byte := byte_of (Z.lxor (byte_val b) m).

Definition encode_ordered_component (column : ColumnType) (v : Value) : option (list byte) :=
  match column, v with
  | CInt, VInt n =>
      match be_bytes 8 n with
      | b0 :: bs => Some (byte_xor b0 128 :: bs)
      | [] => None
      end
  | CString _, VString text => encode_string_bytes text
  | _, _ => None
  end.

Definition append_ordered_component (buf : list byte) (column : ColumnType) (v : Value)
    : option (list byte) :=
  part ← encode_ordered_component column v;
  if MAX_KEY_LEN <? zlen buf + zlen part then None else Some (buf ++ part).

(** The loop over [columns.iter().zip(values.iter())]. *)
Fixpoint append_components (buf : list byte) (cols : list ColumnType) (vs : list Value)
    : option (list byte) :=
  match cols, vs with
  | c :: cols, v :: vs =>
      buf ← append_ordered_component buf c v;
      append_components buf cols vs
  | _, _ => Some buf
  end.

Definition derive_secondary_index_key (columns : list ColumnType) (values : list Value)
    (generation : Z) : option Key :=
  if generation =? 0 then
    match columns, values with
    | [c], [v] => secondary_index_key v c
    | _, _ => None
    end
  else if negb (generation =? 1) || negb (zlen columns =? zlen values) || (zlen columns =? 0)
  then None
  else
    encoded ← append_components [] columns values;
    key_make encoded.

Record BoundMark := mk_mark { mark_value : Value; mark_inclusive : bool }.
Inductive IndexColumnBound :=
| BEq (v : Value)
| BRange (lower upper : option BoundMark).
Record RangeSentinel := mk_sentinel { sentinel_key : Key; sentinel_inclusive : bool }.
Record SecondaryRangeBounds := mk_bounds {
  bounds_lower : option RangeSentinel; bounds_upper : option RangeSentinel }.

Definition range_sentinel (prefix : list byte) (inclusive is_lower : bool)
    : option RangeSentinel :=
  let fill_ff := if is_lower then negb inclusive else inclusive in
  k ← (if fill_ff
       then key_make (prefix ++ replicate (32 - length prefix) Byte.xff)
       else key_make prefix);
  Some (mk_sentinel k inclusive).

(** The equality prefix: every bound must be [Eq]. *)
Fixpoint append_eq_bounds (buf : list byte) (bounds : list IndexColumnBound)
    (cols : list ColumnType) : option (list byte) :=
  match bounds, cols with
  | BEq v :: bounds, c :: cols =>
      buf ← append_ordered_component buf c v;
      append_eq_bounds buf bounds cols
  | BRange _ _ :: _, _ :: _ => None
  | _, _ => Some buf
  end.

Definition is_beq (b : IndexColumnBound) : bool := match b with BEq _ => true | _ => false end.

(** One side of a trailing range. *)
Definition trailing_sentinel (equality_prefix : list byte) (column : ColumnType)
    (mark : option BoundMark) (is_lower : bool) : option (option RangeSentinel) :=
  match mark with
  | Some m =>
      prefix ← append_ordered_component equality_prefix column (mark_value m);
      s ← range_sentinel prefix (mark_inclusive m) is_lower;
      Some (Some s)
  | None =>
      if zlen equality_prefix =? 0 then Some None
      else s ← range_sentinel equality_prefix true is_lower; Some (Some s)
  end.

Definition secondary_range_bounds (index_columns : list ColumnType)
    (prefix_bounds : list IndexColumnBound) : option SecondaryRangeBounds :=
  if (zlen prefix_bounds =? 0) || (zlen index_columns <? zlen prefix_bounds) then None
  else
    let last_ := (length prefix_bounds - 1)%nat in
    if negb (forallb is_beq (take last_ prefix_bounds)) then None
    else
      match prefix_bounds !! last_ with
      | None => None
      | Some (BRange None None) => None
      | Some (BRange lower upper) =>
          equality_prefix ← append_eq_bounds [] (take last_ prefix_bounds) index_columns;
          column ← index_columns !! last_;
          lo ← trailing_sentinel equality_prefix column lower true;
          hi ← trailing_sentinel equality_prefix column upper false;
          match lo, hi with
          | None, None => None
          | _, _ => Some (mk_bounds lo hi)
          end
      | Some (BEq _) =>
          equality_prefix ← append_eq_bounds [] prefix_bounds index_columns;
          if zlen equality_prefix =? 0 then None
          else
            lo ← range_sentinel equality_prefix true true;
            hi ← range_sentinel equality_prefix true false;
            Some (mk_bounds (Some lo) (Some hi))
      end.

(** ** The range test of the index scan *)

Definition KeyBound := option (Key * bool).

Definition range_is_empty (lower upper : KeyBound) : bool :=
  match lower, upper with
  | Some (lower_key, lower_in), Some (upper_key, upper_in) =>
      match key_cmp lower_key upper_key with
      | Gt => true
      | Eq => negb (lower_in && upper_in)
      | Lt => false
      end
  | _, _ => false
  end.

Definition key_in_range (key : Key) (lower upper : KeyBound) : bool :=
  match lower with
  | Some (bound, inclusive) =>
      match key_cmp key bound with
      | Lt => false
      | Eq => inclusive
      | Gt => true
      end
  | None => true
  end
  && match upper with
     | Some (bound, inclusive) =>
         match key_cmp key bound with
         | Gt => false
         | Eq => inclusive
         | Lt => true
         end
     | None => true
     end.

(** ** Theorems *)

(** Lexicographic composition of comparisons. *)
Definition then_cmp (c d : comparison) : comparison := match c with Eq => d | _ => c end.

(** *** The string encoding *)

Fixpoint esc (s : list byte) : list byte :=
  match s with
  | [] => []
  | b :: s => if bool_decide (b = Byte.x00) then Byte.x00 :: Byte.xff :: esc s else b :: esc s
  end.

Lemma escape_bytes_spec raw acc e :
  escape_bytes raw acc = Some e -> e = acc ++ esc raw.
Proof.
  revert acc. induction raw as [|b raw IH]; intros acc; simpl.
  - intros [= <-]. by rewrite app_nil_r.
  - case_bool_decide; (case_match; [done|]); intros H'%IH; subst e;
      by rewrite <- app_assoc.
Qed.

Lemma encode_string_bytes_spec s e :
  encode_string_bytes s = Some e -> e = esc s ++ [Byte.x00; Byte.x00] /\ zlen e <= 32.
Proof.
  unfold encode_string_bytes. case_match; [done|]. case_match eqn:E; [|done].
  apply escape_bytes_spec in E. case_match eqn:C; [done|]. intros [= <-].
  subst l. split; [done|]. apply Z.ltb_ge in C. exact C.
Qed.

Lemma zero_lt_byte b : b <> Byte.x00 -> (byte_val Byte.x00 ?= byte_val b) = Lt.
Proof.
  intros Hb. apply Z.compare_lt_iff. pose proof (byte_val_bound b).
  assert (byte_val b <> byte_val Byte.x00) by (intros E; by apply Hb, byte_val_inj).
  change (byte_val Byte.x00) with 0 in *. lia.
Qed.

Lemma byte_gt_zero b : b <> Byte.x00 -> (byte_val b ?= byte_val Byte.x00) = Gt.
Proof. intros Hb. by rewrite Z.compare_antisym, zero_lt_byte. Qed.

(** Escaped strings compare like the strings, whatever follows them. *)
Lemma esc_cmp s t r r' :
  bytes_cmp (esc s ++ [Byte.x00; Byte.x00] ++ r) (esc t ++ [Byte.x00; Byte.x00] ++ r')
  = then_cmp (bytes_cmp s t) (bytes_cmp r r').
Proof.
  revert t. induction s as [|b s IH]; intros [|c t]; cbn [esc app bytes_cmp then_cmp].
  - done.
  - case_bool_decide as C; [by subst|]. cbn [app bytes_cmp]. by rewrite zero_lt_byte.
  - case_bool_decide as C; [by subst|]. cbn [app bytes_cmp]. by rewrite byte_gt_zero.
  - repeat case_bool_decide; subst; cbn [app bytes_cmp].
    + rewrite !Z.compare_refl. apply IH.
    + by rewrite zero_lt_byte.
    + by rewrite byte_gt_zero.
    + destruct (byte_val b ?= byte_val c); [apply IH|done..].
Qed.

(** *** The integer encoding *)

Lemma bytes_cmp_app a b r r' :
  length a = length b -> bytes_cmp (a ++ r) (b ++ r') = then_cmp (bytes_cmp a b) (bytes_cmp r r').
Proof.
  revert b. induction a as [|x a IH]; intros [|y b] H; try discriminate H; [done|].
  injection H as H. cbn [app bytes_cmp]. rewrite IH by done.
  by destruct (byte_val x ?= byte_val y).
Qed.

Lemma byte_xor_sign b : byte_val (byte_xor b 128) = (byte_val b + 128) mod 256.
Proof. destruct b; reflexivity. Qed.

(** Flipping the sign bit adds 2^63 to the unsigned value. *)
Lemma ordered_int_val n e :
  encode_ordered_component CInt (VInt n) = Some e -> in_i64 n ->
  length e = 8%nat /\ be_val e = n + 9223372036854775808.
Proof.
  cbn [encode_ordered_component]. pose proof (length_be_bytes 8 n) as HL.
  pose proof (be_val_be_bytes 8 n) as HV.
  destruct (be_bytes 8 n) as [|b bs]; [done|]. intros [= <-] Hn. split; [done|].
  injection HL as HL. rewrite be_val_cons in *. rewrite HL in *.
  rewrite byte_xor_sign. pose proof (be_val_bound bs) as B. rewrite HL in B.
  pose proof (byte_val_bound b) as Bb.
  change (256 ^ Z.of_nat 7) with 72057594037927936 in *.
  change (256 ^ Z.of_nat 8) with 18446744073709551616 in *.
  revert Hn. unfold_ints. intros Hn.
  assert (n mod 18446744073709551616 = n \/ n mod 18446744073709551616 = n + 18446744073709551616)
    as [E|E].
  { destruct (Z_lt_dec n 0).
    - right. rewrite <- (Z.mod_add n 1) by lia. rewrite Z.mod_small; lia.
    - left. apply Z.mod_small. lia. }
  - rewrite E in HV. rewrite Z.mod_small; lia.
  - rewrite E in HV. rewrite <- (Z.mod_add _ (-1)) by lia. rewrite Z.mod_small; lia.
Qed.

(** *** Components and rows *)

(** The order of two values of one column, as SQL compares them. *)
Definition comp_cmp (v w : Value) : comparison :=
  match v, w with
  | VInt x, VInt y => x ?= y
  | VString s, VString t => bytes_cmp s t
  | _, _ => Eq
  end.

Lemma component_cmp c v w a b r r' :
  encode_ordered_component c v = Some a -> encode_ordered_component c w = Some b ->
  value_wf v -> value_wf w ->
  bytes_cmp (a ++ r) (b ++ r') = then_cmp (comp_cmp v w) (bytes_cmp r r').
Proof.
  destruct c, v as [x|s| | | | |]; try done; destruct w as [y|t| | | | |]; try done;
    intros Ha Hb Wv Ww.
  - destruct (ordered_int_val _ _ Ha Wv) as [La Va], (ordered_int_val _ _ Hb Ww) as [Lb Vb].
    rewrite bytes_cmp_app, bytes_cmp_be_val, Va, Vb by congruence.
    cbn [comp_cmp]. f_equal. rewrite !(Z.add_comm _ 9223372036854775808).
    apply Z.add_compare_mono_l.
  - apply encode_string_bytes_spec in Ha as [-> _]. apply encode_string_bytes_spec in Hb as [-> _].
    rewrite <- !app_assoc. apply esc_cmp.
Qed.

Lemma comp_cmp_eq c v w a b :
  encode_ordered_component c v = Some a -> encode_ordered_component c w = Some b ->
  comp_cmp v w = Eq -> v = w.
Proof.
  destruct c, v, w; try done; intros _ _ H.
  - apply Z.compare_eq_iff in H. by subst.
  - by rewrite (bytes_cmp_eq _ _ H).
Qed.

Fixpoint row_cmp (vs ws : list Value) : comparison :=
  match vs, ws with
  | v :: vs, w :: ws => then_cmp (comp_cmp v w) (row_cmp vs ws)
  | _, _ => Eq
  end.

(** The concatenated encoding of a row prefix, without the length limit. *)
Fixpoint row_enc (cols : list ColumnType) (vs : list Value) : option (list byte) :=
  match cols, vs with
  | c :: cols, v :: vs =>
      a ← encode_ordered_component c v; b ← row_enc cols vs; Some (a ++ b)
  | _, _ => Some []
  end.

Lemma row_enc_cons c cols v vs e :
  row_enc (c :: cols) (v :: vs) = Some e ->
  exists a b, encode_ordered_component c v = Some a /\ row_enc cols vs = Some b /\ e = a ++ b.
Proof.
  cbn [row_enc]. intros H. apply bind_Some in H as (a & Ha & H).
  apply bind_Some in H as (b & Hb & [= <-]). eauto.
Qed.

Lemma append_ordered_component_spec buf c v e :
  append_ordered_component buf c v = Some e ->
  exists a, encode_ordered_component c v = Some a /\ e = buf ++ a /\ zlen e <= 32.
Proof.
  unfold append_ordered_component. intros H. apply bind_Some in H as (a & Ha & H).
  case_match eqn:C; [done|]. injection H as <-. apply Z.ltb_ge in C.
  exists a. split_and!; [done..|]. unfold MAX_KEY_LEN in C. buf_lia.
Qed.

Lemma append_components_spec buf cols vs e :
  zlen buf <= 32 -> append_components buf cols vs = Some e ->
  exists p, row_enc cols vs = Some p /\ e = buf ++ p /\ zlen e <= 32.
Proof.
  revert buf vs. induction cols as [|c cols IH]; intros buf vs HL.
  - simpl. intros [= <-]. exists []. by rewrite app_nil_r.
  - destruct vs as [|v vs]; simpl; [intros [= <-]; exists []; by rewrite app_nil_r|].
    intros H. apply bind_Some in H as (e1 & H1 & H2).
    apply append_ordered_component_spec in H1 as (a & Ha & -> & HL1).
    apply IH in H2 as (p & Hp & -> & HL2); [|done].
    exists (a ++ p). rewrite Ha. simpl. rewrite Hp. simpl. by rewrite app_assoc.
Qed.

Lemma append_eq_bounds_spec buf bounds cols e :
  zlen buf <= 32 -> append_eq_bounds buf bounds cols = Some e ->
  (length bounds <= length cols)%nat ->
  exists ps p, bounds = BEq <$> ps /\ row_enc cols ps = Some p /\ e = buf ++ p /\ zlen e <= 32.
Proof.
  revert buf cols. induction bounds as [|b bounds IH]; intros buf cols HL; simpl.
  - intros [= <-] _. exists [], []. rewrite app_nil_r. by destruct cols.
  - destruct b as [v|lo hi], cols as [|c cols]; simpl; try done; try lia.
    intros H HC. apply bind_Some in H as (e1 & H1 & H2).
    apply append_ordered_component_spec in H1 as (a & Ha & -> & HL1).
    apply IH in H2 as (ps & p & -> & Hp & -> & HL2); [|done|lia].
    exists (v :: ps), (a ++ p). simpl. rewrite Ha. simpl. rewrite Hp. simpl.
    by rewrite app_assoc.
Qed.

Lemma key_make_spec bs k :
  key_make bs = Some k -> zlen bs <= 32 /\ key_data k = bs ++ replicate (32 - length bs) Byte.x00.
Proof.
  unfold key_make, key_new. destruct (MAX_KEY_LEN <? zlen bs) eqn:C; [done|].
  intros [= <-]. apply Z.ltb_ge in C. done.
Qed.

Lemma key_make_total bs : zlen bs <= 32 -> is_Some (key_make bs).
Proof.
  intros H. unfold key_make, key_new. rewrite (proj2 (Z.ltb_ge _ _)) by done. eauto.
Qed.

(** The generation-1 key of a row is its encoding, zero-padded to 32 bytes. *)
Lemma derive_key_spec cols vs k :
  derive_secondary_index_key cols vs 1 = Some k ->
  length cols = length vs /\
  exists e, row_enc cols vs = Some e /\ zlen e <= 32
    /\ key_data k = e ++ replicate (32 - length e) Byte.x00.
Proof.
  unfold derive_secondary_index_key. simpl.
  case_match eqn:C; [done|]. intros H. apply bind_Some in H as (e & He & Hk).
  apply orb_false_iff in C as [C _]. apply negb_false_iff, Z.eqb_eq in C.
  apply append_components_spec in He as (p & Hp & -> & HL); [|done].
  apply key_make_spec in Hk as [_ Hk]. split; [unfold zlen in C; lia|]. eauto.
Qed.

(** Row prefixes compare like their encodings, whatever follows. *)
Lemma row_enc_cmp cols vs ws a b r r' :
  row_enc cols vs = Some a -> row_enc cols ws = Some b ->
  length vs = length ws -> (length vs <= length cols)%nat ->
  Forall value_wf vs -> Forall value_wf ws ->
  bytes_cmp (a ++ r) (b ++ r') = then_cmp (row_cmp vs ws) (bytes_cmp r r').
Proof.
  revert vs ws a b. induction cols as [|c cols IH]; intros [|v vs] [|w ws] a b;
    try (simpl; lia); try discriminate; [naive_solver..|].
  intros Ha Hb Hl Hc [Wv Wvs]%Forall_cons [Ww Wws]%Forall_cons.
  apply row_enc_cons in Ha as (a1 & a2 & Ha1 & Ha2 & ->).
  apply row_enc_cons in Hb as (b1 & b2 & Hb1 & Hb2 & ->).
  rewrite <- !app_assoc, (component_cmp c v w a1 b1) by done.
  simpl in *. rewrite (IH vs ws a2 b2) by (done || lia).
  by destruct (comp_cmp v w).
Qed.

Lemma row_cmp_eq cols vs ws a b :
  row_enc cols vs = Some a -> row_enc cols ws = Some b ->
  length vs = length ws -> (length vs <= length cols)%nat ->
  row_cmp vs ws = Eq -> vs = ws.
Proof.
  revert vs ws a b. induction cols as [|c cols IH]; intros [|v vs] [|w ws] a b;
    try (simpl; lia); try discriminate; [done..|].
  intros Ha Hb Hl Hc. cbn [row_cmp].
  apply row_enc_cons in Ha as (a1 & a2 & Ha1 & Ha2 & ->).
  apply row_enc_cons in Hb as (b1 & b2 & Hb1 & Hb2 & ->).
  destruct (comp_cmp v w) eqn:E; try done. cbn [then_cmp]. intros H.
  rewrite (comp_cmp_eq c v w _ _ Ha1 Hb1 E). f_equal.
  simpl in *. eapply IH; eauto; lia.
Qed.

(** C29: generation-1 index keys order rows exactly as SQL orders the tuples of
    their column values: lexicographically, column by column. *)
Theorem composite_key_order cols vs ws k1 k2 :
  derive_secondary_index_key cols vs 1 = Some k1 ->
  derive_secondary_index_key cols ws 1 = Some k2 ->
  Forall value_wf vs -> Forall value_wf ws ->
  key_cmp k1 k2 = row_cmp vs ws.
Proof.
  intros (Lv & a & Ha & _ & D1)%derive_key_spec (Lw & b & Hb & _ & D2)%derive_key_spec Wv Ww.
  unfold key_cmp. rewrite D1, D2, (row_enc_cmp cols vs ws) by (done || lia).
  destruct (row_cmp vs ws) eqn:E; try done. cbn [then_cmp].
  assert (vs = ws) as -> by (eapply row_cmp_eq; eauto; lia).
  rewrite Ha in Hb. injection Hb as ->. apply bytes_cmp_refl.
Qed.

Lemma composite_key_order_witness :
  exists k1 k2,
    derive_secondary_index_key [CInt; CString 10] [VInt (-5); VString [Byte.x61]] 1 = Some k1
    /\ derive_secondary_index_key [CInt; CString 10] [VInt (-5); VString [Byte.x61; Byte.x00]] 1
       = Some k2
    /\ key_cmp k1 k2 = Lt.
Proof.
  eexists _, _. split; [vm_compute; reflexivity|]. split; [vm_compute; reflexivity|].
  erewrite (composite_key_order [CInt; CString 10] [VInt (-5); VString [Byte.x61]]
             [VInt (-5); VString [Byte.x61; Byte.x00]]);
    [vm_compute; reflexivity | vm_compute; reflexivity.. | |];
    repeat (apply Forall_cons; split); try apply Forall_nil; try done; simpl; word_lia.
Defined.

(** *** Range sentinels *)

Lemma row_enc_prefix cols vs e m :
  row_enc cols vs = Some e -> exists a b, row_enc cols (take m vs) = Some a /\ e = a ++ b.
Proof.
  revert vs e m. induction cols as [|c cols IH]; intros vs e m H.
  - exists [], e. by destruct m, vs.
  - destruct m as [|m]; [exists [], e; by destruct vs|].
    destruct vs as [|v vs]; [exists [], e; done|].
    apply row_enc_cons in H as (a1 & a2 & H1 & H2 & ->).
    destruct (IH vs a2 m H2) as (a & b & Ha & ->).
    exists (a1 ++ a), b. cbn [take row_enc]. rewrite H1. simpl. rewrite Ha. simpl.
    by rewrite app_assoc.
Qed.

Lemma row_cmp_take vs ps : row_cmp vs ps = row_cmp (take (length ps) vs) ps.
Proof.
  revert vs. induction ps as [|p ps IH]; intros [|v vs]; try done. simpl. by rewrite IH.
Qed.

Lemma row_cmp_app vs es w m :
  vs !! length es = Some w -> row_cmp vs (es ++ [m]) = then_cmp (row_cmp vs es) (comp_cmp w m).
Proof.
  revert vs. induction es as [|p es IH]; intros [|v vs]; try done; simpl.
  - intros [= <-]. destruct vs; by destruct (comp_cmp v m).
  - intros H. rewrite (IH vs H). by destruct (comp_cmp v p).
Qed.

Lemma cmp_zero_fill l : bytes_cmp l (replicate (length l) Byte.x00) <> Lt.
Proof.
  induction l as [|x l IH]; [done|]. cbn [length replicate bytes_cmp].
  destruct (decide (x = Byte.x00)) as [->|H]; [done|]. by rewrite byte_gt_zero.
Qed.

Lemma cmp_ff_fill l : bytes_cmp l (replicate (length l) Byte.xff) <> Gt.
Proof.
  induction l as [|x l IH]; [done|]. cbn [length replicate bytes_cmp].
  change (byte_val Byte.xff) with 255. pose proof (byte_val_bound x).
  destruct (Z.compare_spec (byte_val x) 255); [done|done|lia].
Qed.

(** The key of a row against a prefix filled up with one byte. *)
Lemma fill_cmp cols vs ps k e f :
  derive_secondary_index_key cols vs 1 = Some k ->
  row_enc cols ps = Some e -> zlen e <= 32 -> (length ps <= length cols)%nat ->
  Forall value_wf vs -> Forall value_wf ps ->
  exists l, bytes_cmp (key_data k) (e ++ replicate (32 - length e) f)
          = then_cmp (row_cmp vs ps) (bytes_cmp l (replicate (32 - length e) f))
          /\ (row_cmp vs ps = Eq -> length l = (32 - length e)%nat).
Proof.
  intros (Lv & kv & Hk & Lk & D)%derive_key_spec He HL Hp Wv Wp.
  destruct (row_enc_prefix _ _ _ (length ps) Hk) as (a & b & Ha & ->).
  assert (length (take (length ps) vs) = length ps) as HT by (rewrite length_take; lia).
  exists (b ++ replicate (32 - length (a ++ b)) Byte.x00).
  rewrite D, <- app_assoc, (row_enc_cmp cols (take (length ps) vs) ps) by
    (done || (rewrite HT; done) || by apply Forall_take).
  rewrite <- row_cmp_take. split; [done|]. rewrite row_cmp_take. intros E.
  assert (take (length ps) vs = ps) as Heq by (eapply row_cmp_eq; eauto; lia).
  rewrite Heq, He in Ha. injection Ha as ->.
  unfold zlen in Lk, HL. rewrite !length_app, length_replicate in *. lia.
Qed.

(** One sentinel, tested by [key_in_range]: its verdict on a row's key is the
    verdict of the prefix comparison. *)
Definition lower_verdict (inclusive : bool) (c : comparison) : bool :=
  match c with Gt => true | Eq => inclusive | Lt => false end.
Definition upper_verdict (inclusive : bool) (c : comparison) : bool :=
  match c with Lt => true | Eq => inclusive | Gt => false end.
Definition as_bound (s : option RangeSentinel) : KeyBound :=
  (fun s => (sentinel_key s, sentinel_inclusive s)) <$> s.

Lemma sentinel_key_data e inc low s :
  zlen e <= 32 -> range_sentinel e inc low = Some s ->
  sentinel_inclusive s = inc /\
  key_data (sentinel_key s) =
    e ++ replicate (32 - length e) (if Bool.eqb low inc then Byte.x00 else Byte.xff).
Proof.
  unfold range_sentinel, zlen. intros HL H. apply bind_Some in H as (k & Hk & [= <-]).
  split; [done|]. cbn [sentinel_key].
  destruct low, inc; cbn [negb Bool.eqb] in *; apply key_make_spec in Hk as [_ Hk];
    rewrite Hk; try done;
    rewrite length_app, length_replicate;
    replace (32 - (length e + (32 - length e)))%nat with 0%nat by lia; by rewrite app_nil_r.
Qed.

Lemma lower_sentinel_test cols vs ps k e inc s :
  derive_secondary_index_key cols vs 1 = Some k ->
  row_enc cols ps = Some e -> zlen e <= 32 -> (length ps <= length cols)%nat ->
  Forall value_wf vs -> Forall value_wf ps ->
  range_sentinel e inc true = Some s ->
  key_in_range k (as_bound (Some s)) None = lower_verdict inc (row_cmp vs ps).
Proof.
  intros Hk He HL Hp Wv Wp Hs. apply sentinel_key_data in Hs as [Hi Hd]; [|done].
  unfold key_in_range, as_bound. cbn [fmap option_fmap option_map]. rewrite andb_true_r.
  unfold key_cmp. rewrite Hi, Hd.
  destruct (fill_cmp cols vs ps k e (if Bool.eqb true inc then Byte.x00 else Byte.xff)
              Hk He HL Hp Wv Wp) as (l & -> & Hl).
  destruct (row_cmp vs ps); cbn [then_cmp lower_verdict]; [|done..].
  rewrite <- (Hl eq_refl). destruct inc; cbn [Bool.eqb].
  - pose proof (cmp_zero_fill l). by destruct (bytes_cmp l _).
  - pose proof (cmp_ff_fill l). by destruct (bytes_cmp l _).
Qed.

Lemma upper_sentinel_test cols vs ps k e inc s :
  derive_secondary_index_key cols vs 1 = Some k ->
  row_enc cols ps = Some e -> zlen e <= 32 -> (length ps <= length cols)%nat ->
  Forall value_wf vs -> Forall value_wf ps ->
  range_sentinel e inc false = Some s ->
  key_in_range k None (as_bound (Some s)) = upper_verdict inc (row_cmp vs ps).
Proof.
  intros Hk He HL Hp Wv Wp Hs. apply sentinel_key_data in Hs as [Hi Hd]; [|done].
  unfold key_in_range, as_bound. cbn [fmap option_fmap option_map andb].
  unfold key_cmp. rewrite Hi, Hd.
  destruct (fill_cmp cols vs ps k e (if Bool.eqb false inc then Byte.x00 else Byte.xff)
              Hk He HL Hp Wv Wp) as (l & -> & Hl).
  destruct (row_cmp vs ps); cbn [then_cmp upper_verdict]; [|done..].
  rewrite <- (Hl eq_refl). destruct inc; cbn [Bool.eqb].
  - pose proof (cmp_ff_fill l). by destruct (bytes_cmp l _).
  - pose proof (cmp_zero_fill l). by destruct (bytes_cmp l _).
Qed.

Lemma key_in_range_split k lo hi :
  key_in_range k lo hi = key_in_range k lo None && key_in_range k None hi.
Proof. unfold key_in_range. by rewrite andb_true_r. Qed.

Lemma component_nonempty c v a : encode_ordered_component c v = Some a -> a <> [].
Proof.
  destruct c, v; try done; cbn [encode_ordered_component].
  - destruct (be_bytes 8 n); [done|]. by intros [= <-].
  - intros [-> _]%encode_string_bytes_spec. by destruct (esc s).
Qed.

Lemma row_enc_empty cols ps e :
  row_enc cols ps = Some e -> (length ps <= length cols)%nat -> zlen e = 0 -> ps = [].
Proof.
  destruct ps as [|p ps], cols as [|c cols]; try done; [simpl; lia|].
  intros (a & b & Ha & _ & ->)%row_enc_cons _. apply component_nonempty in Ha.
  destruct a; [done|]. pose proof (zlen_nonneg (a ++ b)). rewrite <- app_comm_cons. buf_lia.
Qed.

Lemma row_enc_snoc cols es c m e a :
  row_enc cols es = Some e -> cols !! length es = Some c ->
  encode_ordered_component c m = Some a -> row_enc cols (es ++ [m]) = Some (e ++ a).
Proof.
  revert es e. induction cols as [|c' cols IH]; intros [|p es] e; try done.
  - simpl. intros [= <-] [= ->] ->. simpl. destruct cols; simpl; by rewrite app_nil_r.
  - intros (a1 & a2 & H1 & H2 & ->)%row_enc_cons Hc Ha. simpl in *.
    rewrite H1. simpl. rewrite (IH es a2) by done. simpl. by rewrite app_assoc.
Qed.

(** *** What the predicate prefix says of a row *)

Definition holds (r : exec ValueError bool) : bool :=
  match r with Ok b => b | _ => false end.
Definition lower_holds (w : Value) (m : option BoundMark) : bool :=
  match m with
  | None => true
  | Some m => holds ((if mark_inclusive m then value_ge else value_gt) w (mark_value m))
  end.
Definition upper_holds (w : Value) (m : option BoundMark) : bool :=
  match m with
  | None => true
  | Some m => holds ((if mark_inclusive m then value_le else value_lt) w (mark_value m))
  end.
Fixpoint prefix_holds (bounds : list IndexColumnBound) (vs : list Value) : bool :=
  match bounds, vs with
  | BEq v :: bounds, w :: vs => equals w v && prefix_holds bounds vs
  | BRange lo hi :: _, w :: _ => lower_holds w lo && upper_holds w hi
  | _, _ => true
  end.
Definition mark_wf (m : option BoundMark) : Prop :=
  match m with Some m => value_wf (mark_value m) | None => True end.
Definition bound_wf (b : IndexColumnBound) : Prop :=
  match b with BEq v => value_wf v | BRange lo hi => mark_wf lo /\ mark_wf hi end.

Definition is_eq (c : comparison) : bool := match c with Eq => true | _ => false end.

Lemma comp_cmp_ops c w v a b :
  encode_ordered_component c w = Some a -> encode_ordered_component c v = Some b ->
  equals w v = is_eq (comp_cmp w v)
  /\ (forall inc, holds ((if inc : bool then value_ge else value_gt) w v)
        = lower_verdict inc (comp_cmp w v))
  /\ (forall inc, holds ((if inc : bool then value_le else value_lt) w v)
        = upper_verdict inc (comp_cmp w v)).
Proof.
  destruct c, w as [x|s| | | | |]; try done; destruct v as [y|t| | | | |]; try done; intros _ _.
  - cbn. unfold Z.geb, Z.gtb, Z.leb, Z.ltb. split_and!.
    + rewrite Z.eqb_compare. by destruct (x ?= y).
    + intros []; cbn; unfold Z.geb, Z.gtb; by destruct (x ?= y).
    + intros []; cbn; unfold Z.leb, Z.ltb; by destruct (x ?= y).
  - cbn. unfold bytes_eqb. split_and!; [by destruct (bytes_cmp s t)| |];
      intros []; cbn; unfold flip, bytes_leb, bytes_ltb;
      rewrite ?(bytes_cmp_antisym s t); by destruct (bytes_cmp s t).
Qed.

Lemma row_enc_lookup cols vs e i c w :
  row_enc cols vs = Some e -> cols !! i = Some c -> vs !! i = Some w ->
  is_Some (encode_ordered_component c w).
Proof.
  revert vs e i. induction cols as [|c' cols IH]; intros [|v vs] e i; try done.
  intros (a1 & a2 & H1 & H2 & ->)%row_enc_cons. destruct i as [|i]; simpl.
  - intros [= ->] [= ->]. by rewrite H1.
  - eauto.
Qed.

(** The equality part of a prefix. *)
Lemma prefix_holds_eqs cols vs es e a rest :
  row_enc cols vs = Some e -> row_enc cols es = Some a ->
  (length es <= length vs)%nat -> (length es <= length cols)%nat ->
  prefix_holds ((BEq <$> es) ++ rest) vs
  = is_eq (row_cmp vs es) && prefix_holds rest (drop (length es) vs).
Proof.
  revert vs es e a. induction cols as [|c cols IH]; intros vs [|p es] e a Hv He Hl Hc;
    [by destruct vs | simpl in Hc; lia | by destruct vs |].
  destruct vs as [|v vs]; [simpl in Hl; lia|].
  apply row_enc_cons in Hv as (v1 & v2 & Hv1 & Hv2 & ->).
  apply row_enc_cons in He as (a1 & a2 & Ha1 & Ha2 & ->).
  rewrite fmap_cons. cbn [app prefix_holds row_cmp length drop] in *.
  destruct (comp_cmp_ops _ _ _ _ _ Hv1 Ha1) as (-> & _).
  rewrite (IH vs es v2 a2) by (done || lia).
  by destruct (comp_cmp v p).
Qed.

(** *** The two sides of a trailing range *)

Section trailing.
Context (cols : list ColumnType) (vs es : list Value) (k : Key) (e : list byte)
        (c : ColumnType) (w : Value).
Context (Hk : derive_secondary_index_key cols vs 1 = Some k).
Context (He : row_enc cols es = Some e) (HL : zlen e <= 32).
Context (Hc : cols !! length es = Some c) (Hw : vs !! length es = Some w).
Context (Wv : Forall value_wf vs) (We : Forall value_wf es).

Lemma es_short : (length es < length cols)%nat.
Proof using Hc. by apply lookup_lt_is_Some_1; rewrite Hc. Qed.

Lemma trailing_component m a :
  encode_ordered_component c (mark_value m) = Some a ->
  value_wf (mark_value m) ->
  exists b, encode_ordered_component c w = Some b
  /\ row_enc cols (es ++ [mark_value m]) = Some (e ++ a)
  /\ (length (es ++ [mark_value m]) <= length cols)%nat
  /\ Forall value_wf (es ++ [mark_value m])
  /\ row_cmp vs (es ++ [mark_value m]) = then_cmp (row_cmp vs es) (comp_cmp w (mark_value m)).
Proof using All.
  intros Ha Wm. destruct (derive_key_spec _ _ _ Hk) as (_ & kv & Hkv & _).
  destruct (row_enc_lookup _ _ _ _ _ _ Hkv Hc Hw) as [b Hb].
  exists b. split_and!; [done|by apply row_enc_snoc with c| | |by apply row_cmp_app].
  - pose proof es_short. rewrite length_app. simpl. lia.
  - apply Forall_app. split; [done|]. by apply Forall_singleton.
Qed.

Lemma trailing_lower mark so :
  trailing_sentinel e c mark true = Some so -> mark_wf mark ->
  key_in_range k (as_bound so) None = true <->
  (row_cmp vs es = Gt \/ (row_cmp vs es = Eq /\ lower_holds w mark = true)).
Proof using All.
  unfold trailing_sentinel. destruct mark as [m|].
  - intros H Wm. apply bind_Some in H as (e' & H1 & H2). apply bind_Some in H2 as (s & Hs & [= <-]).
    apply append_ordered_component_spec in H1 as (a & Ha & -> & HL').
    destruct (trailing_component m a Ha Wm) as (b & Hb & HE & HLe & HW & HR).
    rewrite (lower_sentinel_test cols vs _ k _ _ _ Hk HE HL' HLe Wv HW Hs), HR.
    cbn [lower_holds]. destruct (comp_cmp_ops _ _ _ _ _ Hb Ha) as (_ & -> & _).
    destruct (row_cmp vs es); cbn [then_cmp lower_verdict]; intuition congruence.
  - case_match eqn:Z.
    + intros [= <-] _. apply Z.eqb_eq in Z. pose proof es_short.
      rewrite (row_enc_empty cols es e) by (done || lia).
      cbn. destruct vs; simpl; intuition congruence.
    + intros H _. apply bind_Some in H as (s & Hs & [= <-]). pose proof es_short.
      rewrite (lower_sentinel_test cols vs es k e true s) by (done || lia).
      cbn [lower_holds]. destruct (row_cmp vs es); cbn; intuition congruence.
Qed.

Lemma trailing_upper mark so :
  trailing_sentinel e c mark false = Some so -> mark_wf mark ->
  key_in_range k None (as_bound so) = true <->
  (row_cmp vs es = Lt \/ (row_cmp vs es = Eq /\ upper_holds w mark = true)).
Proof using All.
  unfold trailing_sentinel. destruct mark as [m|].
  - intros H Wm. apply bind_Some in H as (e' & H1 & H2). apply bind_Some in H2 as (s & Hs & [= <-]).
    apply append_ordered_component_spec in H1 as (a & Ha & -> & HL').
    destruct (trailing_component m a Ha Wm) as (b & Hb & HE & HLe & HW & HR).
    rewrite (upper_sentinel_test cols vs _ k _ _ _ Hk HE HL' HLe Wv HW Hs), HR.
    cbn [upper_holds]. destruct (comp_cmp_ops _ _ _ _ _ Hb Ha) as (_ & _ & ->).
    destruct (row_cmp vs es); cbn [then_cmp upper_verdict]; intuition congruence.
  - case_match eqn:Z.
    + intros [= <-] _. apply Z.eqb_eq in Z. pose proof es_short.
      rewrite (row_enc_empty cols es e) by (done || lia).
      cbn. destruct vs; simpl; intuition congruence.
    + intros H _. apply bind_Some in H as (s & Hs & [= <-]). pose proof es_short.
      rewrite (upper_sentinel_test cols vs es k e true s) by (done || lia).
      cbn [upper_holds]. destruct (row_cmp vs es); cbn; intuition congruence.
Qed.

End trailing.

(** The sentinels of [secondary_range_bounds], by the shape of the prefix. *)
Lemma range_bounds_shape cols pb b :
  secondary_range_bounds cols pb = Some b ->
  exists es e, row_enc cols es = Some e /\ zlen e <= 32 /\ (length es <= length cols)%nat /\
  ((pb = BEq <$> es /\ exists lo hi, range_sentinel e true true = Some lo
      /\ range_sentinel e true false = Some hi /\ b = mk_bounds (Some lo) (Some hi))
   \/ (exists lower upper c lo hi, pb = (BEq <$> es) ++ [BRange lower upper]
      /\ cols !! length es = Some c
      /\ trailing_sentinel e c lower true = Some lo
      /\ trailing_sentinel e c upper false = Some hi /\ b = mk_bounds lo hi)).
Proof.
  unfold secondary_range_bounds. case_match eqn:C; [done|].
  apply orb_false_iff in C as [C1 C2]. apply Z.eqb_neq in C1. apply Z.ltb_ge in C2.
  unfold zlen in C1, C2. case_match; [done|].
  destruct (pb !! (length pb - 1)%nat) as [bd|] eqn:EL; [|done].
  pose proof (take_S_r _ _ _ EL) as HS.
  replace (S (length pb - 1)) with (length pb) in HS by lia. rewrite firstn_all in HS.
  assert (length (take (length pb - 1) pb) = length pb - 1)%nat as HT
    by (rewrite length_take; lia).
  destruct bd as [v|lower upper].
  - intros H'. apply bind_Some in H' as (e & He & H').
    apply append_eq_bounds_spec in He as (es & p & Hpb & Hp & -> & HL); [|done|lia].
    case_match; [done|]. apply bind_Some in H' as (lo & Hlo & H').
    apply bind_Some in H' as (hi & Hhi & [= <-]).
    exists es, p. split_and!; [done..| |left; eauto 10].
    apply (f_equal length) in Hpb. rewrite length_fmap in Hpb. lia.
  - intros H'.
    assert (exists e c lo hi, append_eq_bounds [] (take (length pb - 1) pb) cols = Some e
      /\ cols !! (length pb - 1)%nat = Some c /\ trailing_sentinel e c lower true = Some lo
      /\ trailing_sentinel e c upper false = Some hi /\ b = mk_bounds lo hi)
      as (e & c & lo & hi & He & Hc & Hlo & Hhi & ->).
    { destruct lower, upper; try done;
        apply bind_Some in H' as (e & He & H'); apply bind_Some in H' as (c & Hc & H');
        apply bind_Some in H' as (lo & Hlo & H'); apply bind_Some in H' as (hi & Hhi & H');
        exists e, c, lo, hi; destruct lo, hi; try done; by injection H' as <-. }
    apply append_eq_bounds_spec in He as (es & p & Hpb & Hp & -> & HL); [|done|lia].
    assert (length es = length pb - 1)%nat as HE
      by (apply (f_equal length) in Hpb; rewrite length_fmap in Hpb; lia).
    exists es, p. split_and!; [done..|lia|right].
    exists lower, upper, c, lo, hi. rewrite HE, <- Hpb. done.
Qed.

(** C30: the range sentinels are exact.  A row's key passes the index scan's
    range test exactly when the row satisfies every column constraint of the
    prefix: equality on the leading columns and the (inclusive or exclusive)
    bounds on the last one. *)
Theorem range_bounds_exact cols pb b vs k :
  secondary_range_bounds cols pb = Some b ->
  derive_secondary_index_key cols vs 1 = Some k ->
  Forall value_wf vs -> Forall bound_wf pb ->
  key_in_range k (as_bound (bounds_lower b)) (as_bound (bounds_upper b))
  = prefix_holds pb vs.
Proof.
  intros (es & e & He & HL & Hes & Hb)%range_bounds_shape Hk Wv Wb.
  destruct (derive_key_spec _ _ _ Hk) as (Lv & kv & Hkv & _).
  rewrite key_in_range_split.
  destruct Hb as [(-> & lo & hi & Hlo & Hhi & ->) |
                  (lower & upper & c & lo & hi & -> & Hc & Hlo & Hhi & ->)].
  - assert (Forall value_wf es) as We by (rewrite Forall_fmap in Wb; done).
    rewrite <- (app_nil_r (BEq <$> es)).
    rewrite (prefix_holds_eqs cols vs es kv e) by (done || lia).
    cbn [bounds_lower bounds_upper].
    rewrite (lower_sentinel_test cols vs es k e true lo),
            (upper_sentinel_test cols vs es k e true hi) by done.
    by destruct (row_cmp vs es).
  - apply Forall_app in Wb as [We Wr]. rewrite Forall_fmap in We.
    apply Forall_cons in Wr as [[Wlo Whi] _].
    pose proof (lookup_lt_Some _ _ _ Hc) as Hlt.
    destruct (lookup_lt_is_Some_2 vs (length es)) as [w Hw]; [lia|].
    rewrite (prefix_holds_eqs cols vs es kv e) by (done || lia).
    rewrite (drop_S _ _ _ Hw). cbn [bounds_lower bounds_upper prefix_holds].
    pose proof (trailing_lower cols vs es k e c w Hk He HL Hc Hw Wv We _ _ Hlo Wlo) as TL.
    pose proof (trailing_upper cols vs es k e c w Hk He HL Hc Hw Wv We _ _ Hhi Whi) as TU.
    apply eq_true_iff_eq. rewrite !andb_true_iff, TL, TU.
    destruct (row_cmp vs es); cbn [is_eq]; intuition congruence.
Qed.

Lemma range_bounds_exact_witness :
  exists b k,
    secondary_range_bounds [CInt; CInt; CString 8]
      [BEq (VInt 7); BRange (Some (mk_mark (VInt (-1)) false)) None] = Some b
    /\ derive_secondary_index_key [CInt; CInt; CString 8]
         [VInt 7; VInt 0; VString [Byte.x41]] 1 = Some k
    /\ key_in_range k (as_bound (bounds_lower b)) (as_bound (bounds_upper b)) = true.
Proof.
  eexists _, _. split; [vm_compute; reflexivity|]. split; [vm_compute; reflexivity|].
  erewrite (range_bounds_exact [CInt; CInt; CString 8]
              [BEq (VInt 7); BRange (Some (mk_mark (VInt (-1)) false)) None] _
              [VInt 7; VInt 0; VString [Byte.x41]]);
    [vm_compute; reflexivity | vm_compute; reflexivity.. | |];
    repeat (apply Forall_cons; split); try apply Forall_nil; try done; simpl;
    try split; try done; word_lia.
Defined.

(** *** Generation 0 *)

Lemma to_key_data n k :
  to_key (VInt n) = Some k -> key_data k = be_bytes 8 n ++ replicate 24 Byte.x00.
Proof. intros [_ H]%key_make_spec. by rewrite length_be_bytes in H. Qed.

Lemma wrap64_cases n : in_i64 n -> wrap64 n = if n <? 0 then n + 18446744073709551616 else n.
Proof.
  unfold_ints. intros Hn. destruct (Z.ltb_spec n 0).
  - rewrite <- (Z.mod_add n 1) by lia. rewrite Z.mod_small; lia.
  - apply Z.mod_small. lia.
Qed.

Lemma to_key_cmp n m k1 k2 :
  to_key (VInt n) = Some k1 -> to_key (VInt m) = Some k2 ->
  key_cmp k1 k2 = (wrap64 n ?= wrap64 m).
Proof.
  intros H1%to_key_data H2%to_key_data. unfold key_cmp. rewrite H1, H2.
  rewrite bytes_cmp_app, bytes_cmp_be_val, !be_val_be_bytes by (by rewrite !length_be_bytes).
  rewrite bytes_cmp_refl. unfold wrap64. change (256 ^ Z.of_nat 8) with 18446744073709551616.
  by destruct (_ ?= _).
Qed.

(** Generation-0 (and primary) keys of integers are injective and ordered
    within one sign, but every negative integer sorts after every
    non-negative one, which is why only generation 1 serves range scans over
    signed columns. *)
Theorem legacy_int_key_order n m k1 k2 :
  in_i64 n -> in_i64 m -> to_key (VInt n) = Some k1 -> to_key (VInt m) = Some k2 ->
  (key_cmp k1 k2 = Eq <-> n = m)
  /\ ((n < 0 <-> m < 0) -> key_cmp k1 k2 = (n ?= m))
  /\ (n < 0 <= m -> key_cmp k1 k2 = Gt).
Proof.
  intros Hn Hm H1 H2. rewrite (to_key_cmp n m k1 k2 H1 H2), !wrap64_cases by done.
  revert Hn Hm. unfold_ints. intros Hn Hm.
  destruct (Z.ltb_spec n 0), (Z.ltb_spec m 0); rewrite Z.compare_eq_iff;
    (split; [lia|split]); intros; try lia; try (apply Z.compare_gt_iff; lia); try done.
  rewrite !(Z.add_comm _ 18446744073709551616). apply Z.add_compare_mono_l.
Qed.

Lemma legacy_int_key_order_witness :
  exists k1 k2, to_key (VInt (-1)) = Some k1 /\ to_key (VInt 1) = Some k2 /\ key_cmp k1 k2 = Gt.
Proof.
  eexists _, _. split; [vm_compute; reflexivity|]. split; [vm_compute; reflexivity|].
  eapply (legacy_int_key_order (-1) 1); [word_lia | word_lia | vm_compute; reflexivity..|lia].
Defined.
