(* ===== verification/Tuple.v ===== *)
(** * Row tuples

    [src/storage/page_format/tuple.rs]: the self-describing encoding of a row
    (one tag byte per value), its width-aware decoding (rows written before
    an [ADD COLUMN] or a [DROP COLUMN]), the overlay of declared defaults and
    the borrowing decoder.  Errors carry the [io::ErrorKind] only. *)

From Stdlib Require Import ZArith Strings.Byte Lia.
From stdpp Require Import base tactics list numbers.
From S2P Require Import Prelude RowKey Values.

Inductive TupleError := WriteZero | UnexpectedEof | InvalidData.

Definition TAG_INT : Z := 1.
Definition TAG_STRING : Z := 2.
Definition TAG_NULL : Z := 3.
Definition TAG_FLOAT : Z := 4.
Definition TAG_BOOL : Z := 5.
Definition TAG_DATE : Z := 6.
Definition TAG_TIMESTAMP : Z := 7.
Definition TAG_LONG_STRING : Z := 8.
Definition STRING_U16_MAX : Z := 65535.

(** ** Encoding *)

Definition value_size (v : Value) : Z :=
  match v with
  | VInt _ => 1 + 8
  | VString s => if STRING_U16_MAX <? zlen s then 1 + 4 + zlen s else 1 + 2 + zlen s
  | VNull => 1
  | VFloat _ => 1 + 8
  | VBool _ => 1 + 1
  | VDate _ => 1 + 4
  | VTimestamp _ => 1 + 8
  end.

Definition values_size (values : list Value) : Z := foldr (fun v n => value_size v + n) 0 values.

Definition compute_tuple_size (values : list Value) (schema : list ColumnType)
    : exec Empty_set Z :=
  if zlen values =? zlen schema then Ok (values_size values) else Panic.

(** One iteration of the loop of [serialize_tuple]: [buf] and [pos] before and
    after. *)
Definition serialize_value (v : Value) (buf : list byte) (pos : Z)
    : exec TupleError (list byte * Z) :=
  let put8 tag payload :=
    if zlen buf <? pos + 9 then Err WriteZero
    else
      let? buf := splice_set buf pos [byte_of tag] in
      let? buf := splice_set buf (pos + 1) (le_bytes 8 payload) in
      Ok (buf, pos + 9) in
  match v with
  | VInt n => put8 TAG_INT n
  | VString s =>
      if STRING_U16_MAX <? zlen s then
        if zlen buf <? pos + 5 + zlen s then Err WriteZero
        else
          let? buf := splice_set buf pos [byte_of TAG_LONG_STRING] in
          let? buf := splice_set buf (pos + 1) (le_bytes 4 (wrap32 (zlen s))) in
          let? buf := splice_set buf (pos + 5) s in
          Ok (buf, pos + (5 + zlen s))
      else
        if zlen buf <? pos + 3 + zlen s then Err WriteZero
        else
          let? buf := splice_set buf pos [byte_of TAG_STRING] in
          let? buf := splice_set buf (pos + 1) (le_bytes 2 (wrap16 (zlen s))) in
          let? buf := splice_set buf (pos + 3) s in
          Ok (buf, pos + (3 + zlen s))
  | VNull =>
      if zlen buf <? pos + 1 then Err WriteZero
      else
        let? buf := splice_set buf pos [byte_of TAG_NULL] in
        Ok (buf, pos + 1)
  | VFloat f => put8 TAG_FLOAT f
  | VBool b =>
      if zlen buf <? pos + 2 then Err WriteZero
      else
        let? buf := splice_set buf pos [byte_of TAG_BOOL] in
        let? buf := splice_set buf (pos + 1) [byte_of (if b then 1 else 0)] in
        Ok (buf, pos + 2)
  | VDate d =>
      if zlen buf <? pos + 5 then Err WriteZero
      else
        let? buf := splice_set buf pos [byte_of TAG_DATE] in
        let? buf := splice_set buf (pos + 1) (le_bytes 4 d) in
        Ok (buf, pos + 5)
  | VTimestamp t => put8 TAG_TIMESTAMP t
  end.

Fixpoint serialize_values (values : list Value) (buf : list byte) (pos : Z)
    : exec TupleError (list byte * Z) :=
  match values with
  | [] => Ok (buf, pos)
  | v :: values =>
      let? (buf, pos) := serialize_value v buf pos in
      serialize_values values buf pos
  end.

(** The buffer after the call, and the number of bytes written. *)
Definition serialize_tuple (values : list Value) (schema : list ColumnType) (buf : list byte)
    : exec TupleError (list byte * Z) :=
  if zlen values =? zlen schema then serialize_values values buf 0 else Panic.

(** ** Decoding *)

Definition expect {E A} (data : list byte) (pos n : Z) (e : E) (k : list byte -> exec E A)
    : exec E A :=
  if zlen data <? pos + n then Err e
  else let? bs := slice_get data pos (pos + n) in k bs.

(** One iteration of [deserialize_tuple_width] past the end-of-row test: the
    decoded value and the position behind it. *)
Definition decode_value (data : list byte) (pos : Z) : exec TupleError (Value * Z) :=
  let? b := index_get data pos in
  let tag := byte_val b in
  let pos := pos + 1 in
  if tag =? TAG_INT then
    expect data pos 8 UnexpectedEof (fun bs => Ok (VInt (to_i64 (le_val bs)), pos + 8))
  else if tag =? TAG_STRING then
    expect data pos 2 UnexpectedEof (fun bs =>
      let len := le_val bs in
      expect data (pos + 2) len UnexpectedEof (fun s =>
        if utf8_valid s then Ok (VString s, pos + 2 + len) else Err InvalidData))
  else if tag =? TAG_NULL then Ok (VNull, pos)
  else if tag =? TAG_LONG_STRING then
    expect data pos 4 UnexpectedEof (fun bs =>
      let len := le_val bs in
      expect data (pos + 4) len UnexpectedEof (fun s =>
        if utf8_valid s then Ok (VString s, pos + 4 + len) else Err InvalidData))
  else if tag =? TAG_FLOAT then
    expect data pos 8 UnexpectedEof (fun bs => Ok (VFloat (le_val bs), pos + 8))
  else if tag =? TAG_BOOL then
    expect data pos 1 UnexpectedEof (fun bs => Ok (VBool (negb (le_val bs =? 0)), pos + 1))
  else if tag =? TAG_DATE then
    expect data pos 4 UnexpectedEof (fun bs => Ok (VDate (to_i32 (le_val bs)), pos + 4))
  else if tag =? TAG_TIMESTAMP then
    expect data pos 8 UnexpectedEof (fun bs => Ok (VTimestamp (to_i64 (le_val bs)), pos + 8))
  else Err InvalidData.

(** The loop over the schema; [values] is the vector built so far and
    [width] the length of the whole schema ([values.resize]). *)
Fixpoint decode_columns (data : list byte) (schema : list ColumnType) (width : nat)
    (values : list Value) (pos : Z) : exec TupleError (list Value * Z) :=
  match schema with
  | [] => Ok (values, Z.of_nat width)
  | _ :: schema =>
      if zlen data <=? pos then
        Ok (values ++ replicate (width - length values) VNull, zlen values)
      else
        let? (v, pos) := decode_value data pos in
        decode_columns data schema width (values ++ [v]) pos
  end.

Definition deserialize_tuple_width (data : list byte) (schema : list ColumnType)
    : exec TupleError (list Value * Z) :=
  decode_columns data schema (length schema) [] 0.

Definition deserialize_tuple (data : list byte) (schema : list ColumnType)
    : exec TupleError (list Value) :=
  let? (values, actual) := deserialize_tuple_width data schema in
  if negb (actual =? zlen schema) then Err UnexpectedEof else Ok values.

(** [defaults.get(i).cloned().flatten().unwrap_or(Value::Null)] *)
Definition default_at (defaults : list (option Value)) (i : nat) : Value :=
  default VNull (mjoin (defaults !! i)).

Definition overlay_row_defaults (values : list Value) (actual : Z)
    (defaults : list (option Value)) : list Value :=
  imap (fun i v => if Z.of_nat i <? actual then v else default_at defaults i) values.

Definition deserialize_row (data : list byte) (schema : list ColumnType)
    (defaults : list (option Value)) : exec TupleError (list Value) :=
  let? (values, actual) := deserialize_tuple_width data schema in
  Ok (overlay_row_defaults values actual defaults).

(** *** The borrowing decoder *)

Definition decode_ref (data : list byte) (pos : Z) : exec TupleError (ValueRef * Z) :=
  let? b := index_get data pos in
  let tag := byte_val b in
  let pos := pos + 1 in
  if tag =? TAG_INT then
    expect data pos 8 UnexpectedEof (fun bs => Ok (RefInt (to_i64 (le_val bs)), pos + 8))
  else if tag =? TAG_STRING then
    expect data pos 2 UnexpectedEof (fun bs =>
      let len := le_val bs in
      expect data (pos + 2) len UnexpectedEof (fun s =>
        if utf8_valid s then Ok (RefText s, pos + 2 + len) else Err InvalidData))
  else if tag =? TAG_NULL then Ok (RefNull, pos)
  else if tag =? TAG_LONG_STRING then
    expect data pos 4 UnexpectedEof (fun bs =>
      let len := le_val bs in
      expect data (pos + 4) len UnexpectedEof (fun s =>
        if utf8_valid s then Ok (RefText s, pos + 4 + len) else Err InvalidData))
  else if tag =? TAG_FLOAT then
    expect data pos 8 UnexpectedEof (fun bs => Ok (RefFloat (le_val bs), pos + 8))
  else if tag =? TAG_BOOL then
    expect data pos 1 UnexpectedEof (fun bs => Ok (RefBool (negb (le_val bs =? 0)), pos + 1))
  else if tag =? TAG_DATE then
    expect data pos 4 UnexpectedEof (fun bs => Ok (RefDate (to_i32 (le_val bs)), pos + 4))
  else if tag =? TAG_TIMESTAMP then
    expect data pos 8 UnexpectedEof (fun bs => Ok (RefTimestamp (to_i64 (le_val bs)), pos + 8))
  else Err InvalidData.

Fixpoint decode_refs (data : list byte) (schema : list ColumnType)
    (values : list ValueRef) (pos : Z) : exec TupleError (list ValueRef) :=
  match schema with
  | [] => Ok values
  | _ :: schema =>
      if zlen data <=? pos then Err UnexpectedEof
      else
        let? (v, pos) := decode_ref data pos in
        decode_refs data schema (values ++ [v]) pos
  end.

Definition deserialize_value_refs (data : list byte) (schema : list ColumnType)
    : exec TupleError (list ValueRef) :=
  decode_refs data schema [] 0.

(** ** Theorems *)

(** *** The bytes of a row *)

Definition enc_value (v : Value) : list byte :=
  match v with
  | VInt n => [byte_of TAG_INT] ++ le_bytes 8 n
  | VString s =>
      if STRING_U16_MAX <? zlen s then [byte_of TAG_LONG_STRING] ++ le_bytes 4 (zlen s) ++ s
      else [byte_of TAG_STRING] ++ le_bytes 2 (zlen s) ++ s
  | VNull => [byte_of TAG_NULL]
  | VFloat f => [byte_of TAG_FLOAT] ++ le_bytes 8 f
  | VBool b => [byte_of TAG_BOOL] ++ [byte_of (if b then 1 else 0)]
  | VDate d => [byte_of TAG_DATE] ++ le_bytes 4 d
  | VTimestamp t => [byte_of TAG_TIMESTAMP] ++ le_bytes 8 t
  end.

Definition enc_values (vs : list Value) : list byte := concat (enc_value <$> vs).

(** What [serialize_tuple] can represent: string lengths fit the u32 prefix. *)
Definition storable (v : Value) : Prop :=
  value_wf v /\ match v with VString s => zlen s <= u32_max | _ => True end.

Lemma zlen_enc_value v : zlen (enc_value v) = value_size v.
Proof. destruct v; cbn [enc_value value_size]; try done. case_match; buf_lia. Qed.

Lemma value_size_pos v : 1 <= value_size v.
Proof.
  destruct v; cbn [value_size]; try lia. pose proof (zlen_nonneg s). case_match; lia.
Qed.

Lemma values_size_nonneg vs : 0 <= values_size vs.
Proof.
  induction vs as [|v vs IH]; cbn [values_size foldr]; [lia|].
  pose proof (value_size_pos v). unfold values_size in IH. lia.
Qed.

Lemma zlen_enc_values vs : zlen (enc_values vs) = values_size vs.
Proof.
  induction vs as [|v vs IH]; [done|].
  unfold enc_values in *. rewrite fmap_cons. cbn [concat values_size foldr].
  rewrite zlen_app, zlen_enc_value, IH. done.
Qed.

Lemma put_tagged {E} (buf : list byte) pos tag bs (p : Z) :
  0 <= pos -> pos + 1 + zlen bs <= zlen buf ->
  exec_bind (E:=E) (splice_set buf pos [tag]) (fun buf =>
    let? buf := splice_set buf (pos + 1) bs in Ok (buf, p))
  = Ok (splice buf pos ([tag] ++ bs), p).
Proof.
  intros Hp HL. pose proof (zlen_nonneg bs).
  rewrite splice_set_ok by buf_lia. cbn [exec_bind].
  by rewrite splice_set_adjacent by buf_lia.
Qed.

Lemma put_string {E} (buf : list byte) pos tag len s q (p : Z) :
  0 <= pos -> q = pos + 1 + zlen len -> q + zlen s <= zlen buf ->
  exec_bind (E:=E) (splice_set buf pos [tag]) (fun buf =>
    let? buf := splice_set buf (pos + 1) len in
    let? buf := splice_set buf q s in Ok (buf, p))
  = Ok (splice buf pos ([tag] ++ len ++ s), p).
Proof.
  intros Hp -> HL. pose proof (zlen_nonneg len). pose proof (zlen_nonneg s).
  rewrite splice_set_ok by buf_lia. cbn [exec_bind].
  rewrite splice_set_adjacent by buf_lia. cbn [exec_bind].
  rewrite splice_set_adjacent by buf_lia. by rewrite <- app_assoc.
Qed.

(** One value is written whole, or the buffer is reported too small. *)
Lemma serialize_value_spec v buf pos :
  0 <= pos ->
  serialize_value v buf pos =
    if zlen buf <? pos + value_size v then Err WriteZero
    else Ok (splice buf pos (enc_value v), pos + value_size v).
Proof.
  intros Hp.
  assert (forall (A : Type) (x y y' : exec TupleError A) n m, n = m ->
    (m <= zlen buf -> y = y') ->
    (if zlen buf <? n then x else y) = (if zlen buf <? m then x else y')) as K.
  { intros A x y y' n m -> HY. destruct (Z.ltb_spec (zlen buf) m); auto. }
  destruct v as [n|s| |f|b|d|t]; cbn [serialize_value value_size enc_value].
  1, 4, 5, 6, 7: apply K; [lia|]; intros; apply put_tagged; buf_lia.
  - pose proof (zlen_nonneg s). destruct (STRING_U16_MAX <? zlen s);
      (apply K; [lia|]; intros).
    + rewrite put_string by buf_lia. by rewrite le_bytes_wrap32.
    + rewrite put_string by buf_lia. by rewrite le_bytes_wrap16.
  - apply K; [lia|]; intros. by rewrite splice_set_ok by buf_lia.
Qed.

Lemma serialize_values_spec vs buf pos :
  0 <= pos <= zlen buf ->
  serialize_values vs buf pos =
    if zlen buf <? pos + values_size vs then Err WriteZero
    else Ok (splice buf pos (enc_values vs), pos + values_size vs).
Proof.
  revert buf pos. induction vs as [|v vs IH]; intros buf pos Hp.
  - cbn. rewrite (proj2 (Z.ltb_ge _ _)) by lia. f_equal. f_equal; [|lia].
    unfold splice. cbn [enc_values fmap list_fmap concat app]. rewrite zlen_nil, Z.add_0_r.
    symmetry. apply take_drop.
  - cbn [serialize_values]. rewrite serialize_value_spec by lia.
    pose proof (value_size_pos v). pose proof (values_size_nonneg vs) as HN.
    change (values_size (v :: vs)) with (value_size v + values_size vs).
    destruct (Z.ltb_spec (zlen buf) (pos + value_size v)).
    + cbn. by rewrite (proj2 (Z.ltb_lt _ _)) by lia.
    + rewrite exec_bind_ret. cbv beta iota.
      rewrite IH, zlen_splice by (rewrite ?zlen_splice, ?zlen_enc_value; rewrite ?zlen_enc_value; lia).
      rewrite Z.add_assoc. case_match eqn:C; [done|]. apply Z.ltb_ge in C.
      f_equal. f_equal. unfold enc_values. rewrite fmap_cons. cbn [concat].
      rewrite <- (zlen_enc_value v). apply splice_adjacent; rewrite ?zlen_enc_value; try lia.
      fold (enc_values vs). rewrite zlen_enc_values. lia.
Qed.

(** *** Decoding what was encoded *)

Lemma expect_app {E A} pre bs rest pos n (e : E) (k : list byte -> exec E A) :
  pos = zlen pre -> n = zlen bs -> expect (pre ++ bs ++ rest) pos n e k = k bs.
Proof.
  intros -> ->. unfold expect.
  pose proof (zlen_nonneg pre). pose proof (zlen_nonneg bs). pose proof (zlen_nonneg rest).
  rewrite (proj2 (Z.ltb_ge _ _)) by buf_lia.
  rewrite slice_get_ok by buf_lia. cbn [exec_bind]. f_equal. slice_app. done.
Qed.

Lemma expect_tagged {E A} pre t bs rest pos n (e : E) (k : list byte -> exec E A) :
  pos = zlen pre + 1 -> n = zlen bs -> expect (pre ++ t :: bs ++ rest) pos n e k = k bs.
Proof.
  intros -> ->. change (t :: bs ++ rest) with ([t] ++ bs ++ rest). rewrite app_assoc.
  apply expect_app; buf_lia.
Qed.

Lemma expect_string {E A} pre t len s rest pos n (e : E) (k : list byte -> exec E A) :
  pos = zlen pre + 1 + zlen len -> n = zlen s ->
  expect (pre ++ t :: len ++ s ++ rest) pos n e k = k s.
Proof.
  intros -> ->. change (t :: len ++ s ++ rest) with ([t] ++ len ++ s ++ rest).
  rewrite !app_assoc, <- (app_assoc _ s rest). apply expect_app; buf_lia.
Qed.

(** Evaluates the tag dispatch of [decode_value] on a known tag. *)
Ltac tag_dispatch :=
  cbv zeta;
  repeat match goal with
  | |- context [if ?b then _ else _] =>
      let b' := eval vm_compute in b in
      lazymatch b' with
      | true => change b with true; cbv iota
      | false => change b with false; cbv iota
      end
  end.

(** Reads one encoded value back, wherever it stands. *)
Lemma decode_value_enc pre v rest :
  storable v ->
  decode_value (pre ++ enc_value v ++ rest) (zlen pre) = Ok (v, zlen pre + value_size v).
Proof.
  intros [W S]. unfold decode_value.
  destruct v as [n|s| |f|b|d|t]; cbn [enc_value value_wf value_size] in *;
    try (destruct (STRING_U16_MAX <? zlen s) eqn:C);
    rewrite <- ?app_assoc; cbn [app];
    rewrite index_get_app, exec_bind_ret by done;
    tag_dispatch.
  2: pose proof (zlen_nonneg s) as Hs; apply Z.ltb_lt in C;
     rewrite expect_tagged, le_val_u32, expect_string, W by buf_lia.
  3: pose proof (zlen_nonneg s) as Hs; apply Z.ltb_ge in C; unfold STRING_U16_MAX in C;
     rewrite expect_tagged, le_val_u16, expect_string, W by buf_lia.
  4: done.
  all: rewrite ?expect_tagged by buf_lia.
  all: rewrite ?to_i64_le_bytes, ?to_i32_le_bytes, ?le_val_u64 by done.
  5: change (byte_of (if b then 1 else 0) :: rest) with ([byte_of (if b then 1 else 0)] ++ rest);
     rewrite expect_tagged by buf_lia; destruct b.
  all: first [done | do 2 f_equal; lia].
Qed.

Lemma decode_columns_enc pre vs schema width acc :
  Forall storable vs -> width = (length acc + length schema)%nat ->
  decode_columns (pre ++ enc_values vs) schema width acc (zlen pre) =
    Ok (if (length vs <? length schema)%nat
        then (acc ++ vs ++ replicate (length schema - length vs) VNull, zlen acc + zlen vs)
        else (acc ++ take (length schema) vs, Z.of_nat width)).
Proof.
  intros Hvs. revert pre schema acc. induction Hvs as [|v vs Hv Hvs IH]; intros pre schema acc HW.
  - destruct schema as [|c schema]; cbn [decode_columns].
    + cbn. by rewrite app_nil_r.
    + rewrite (proj2 (Z.leb_le _ _)) by (unfold enc_values; cbn; buf_lia).
      cbn [length Nat.ltb Nat.leb app]. do 2 f_equal; [|buf_lia].
      f_equal. f_equal. simpl in *. lia.
  - change (enc_values (v :: vs)) with (enc_value v ++ enc_values vs).
    destruct schema as [|c schema]; cbn [decode_columns].
    { cbn. by rewrite app_nil_r. }
    pose proof (value_size_pos v) as Hpos.
    rewrite (proj2 (Z.leb_gt _ _)).
    2:{ rewrite !zlen_app, zlen_enc_value, zlen_enc_values.
        pose proof (values_size_nonneg vs). lia. }
    rewrite decode_value_enc, exec_bind_ret by done. cbv beta iota.
    rewrite <- zlen_enc_value, <- zlen_app, app_assoc, IH.
    2:{ rewrite length_app. simpl in *. lia. }
    cbn [length take]. change (S (length vs) <? S (length schema))%nat
      with (length vs <? length schema)%nat.
    destruct (length vs <? length schema)%nat; do 2 f_equal;
      rewrite <- ?app_assoc; try done; buf_lia.
Qed.

(** A row of values [vs] seen under a schema: the stored columns, then the
    declared default (or NULL) for each column added later. *)
Definition row_view (vs : list Value) (defaults : list (option Value)) (schema : list ColumnType)
    : list Value :=
  imap (fun i _ => default (default_at defaults i) (vs !! i)) schema.

Lemma row_view_same vs defaults schema :
  length vs = length schema -> row_view vs defaults schema = vs.
Proof.
  intros HL. apply list_eq. intros i. unfold row_view. rewrite list_lookup_imap.
  destruct (schema !! i) as [c|] eqn:E.
  - apply lookup_lt_Some in E. destruct (lookup_lt_is_Some_2 vs i) as [v Hv]; [lia|].
    by rewrite Hv.
  - apply lookup_ge_None in E. symmetry. apply lookup_ge_None. lia.
Qed.

Lemma deserialize_row_enc vs schema defaults :
  Forall storable vs ->
  deserialize_row (enc_values vs) schema defaults = Ok (row_view vs defaults schema).
Proof.
  intros Hvs. unfold deserialize_row, deserialize_tuple_width.
  change (enc_values vs) with ([] ++ enc_values vs). change 0 with (zlen (@nil byte)).
  rewrite decode_columns_enc, exec_bind_ret by done. cbn [app].
  destruct (length vs <? length schema)%nat eqn:C; cbv beta iota; f_equal;
    apply list_eq; intros i; unfold overlay_row_defaults, row_view; rewrite !list_lookup_imap.
  - apply Nat.ltb_lt in C. rewrite zlen_nil, Z.add_0_l. unfold zlen.
    destruct (Nat.lt_ge_cases i (length vs)) as [Hi|Hi].
    + rewrite lookup_app_l by done.
      destruct (lookup_lt_is_Some_2 vs i Hi) as [v Hv].
      destruct (lookup_lt_is_Some_2 schema i) as [c Hc]; [lia|].
      rewrite Hv, Hc. cbn. by rewrite (proj2 (Z.ltb_lt _ _)) by lia.
    + rewrite lookup_app_r by done. rewrite (proj2 (lookup_ge_None vs i)) by done.
      destruct (decide (i < length schema)%nat) as [H|H].
      * rewrite lookup_replicate_2 by lia. destruct (lookup_lt_is_Some_2 schema i H) as [c ->].
        cbn. by rewrite (proj2 (Z.ltb_ge _ _)) by lia.
      * rewrite (proj2 (lookup_ge_None schema i)), (proj2 (lookup_ge_None (replicate _ _) _))
          by (rewrite ?length_replicate; lia). done.
  - apply Nat.ltb_ge in C.
    destruct (decide (i < length schema)%nat) as [H|H].
    + rewrite lookup_take_lt by done. destruct (lookup_lt_is_Some_2 schema i H) as [c ->].
      destruct (lookup_lt_is_Some_2 vs i) as [v Hv]; [lia|]. rewrite Hv. cbn.
      by rewrite (proj2 (Z.ltb_lt _ _)) by lia.
    + rewrite (proj2 (lookup_ge_None schema i)), (proj2 (lookup_ge_None (take _ _) _))
        by (rewrite ?length_take; lia). done.
Qed.

(** [serialize_tuple] succeeds exactly when the buffer holds the size that
    [compute_tuple_size] announces, writes exactly that many bytes, and
    otherwise reports [WriteZero]; it panics on no input of matching width. *)
Theorem serialize_tuple_total vs schema buf :
  length vs = length schema ->
  exists size, compute_tuple_size vs schema = Ok size
    /\ serialize_tuple vs schema buf =
       if zlen buf <? size then Err WriteZero
       else Ok (enc_values vs ++ drop (Z.to_nat size) buf, size).
Proof.
  intros HL. exists (values_size vs). unfold compute_tuple_size, serialize_tuple.
  rewrite (proj2 (Z.eqb_eq _ _)) by (unfold zlen; lia). split; [done|].
  rewrite serialize_values_spec by (pose proof (zlen_nonneg buf); lia).
  rewrite Z.add_0_l. case_match; [done|]. do 2 f_equal.
  unfold splice. by rewrite take_0, Z.add_0_l, zlen_enc_values.
Qed.

Lemma serialize_tuple_total_witness :
  exists size, compute_tuple_size [VInt 5; VNull] [CInt; CBool] = Ok size
    /\ serialize_tuple [VInt 5; VNull] [CInt; CBool] (replicate 9 Byte.x00) =
       if zlen (replicate 9 Byte.x00) <? size then Err WriteZero
       else Ok (enc_values [VInt 5; VNull] ++ drop (Z.to_nat size) (replicate 9 Byte.x00), size).
Proof. apply serialize_tuple_total. reflexivity. Defined.

(** C31: a serialized row reads back under every schema: with the schema it was
    written with, value for value; after columns were added, with the
    declared default (or NULL) in each new column; after columns were dropped,
    without them. *)
Theorem tuple_roundtrip vs schema buf buf' n :
  serialize_tuple vs schema buf = Ok (buf', n) -> Forall storable vs ->
  deserialize_tuple (slice buf' 0 n) schema = Ok vs
  /\ forall schema' defaults,
       deserialize_row (slice buf' 0 n) schema' defaults = Ok (row_view vs defaults schema').
Proof.
  unfold serialize_tuple. case_match eqn:HL; [|done]. apply Z.eqb_eq in HL.
  rewrite serialize_values_spec by (pose proof (zlen_nonneg buf); lia).
  rewrite Z.add_0_l. case_match eqn:C; [done|]. intros [= <- <-] Hvs.
  apply Z.ltb_ge in C. rewrite slice_splice_same by (rewrite ?zlen_enc_values; lia).
  split; [|intros; by apply deserialize_row_enc].
  unfold deserialize_tuple, deserialize_tuple_width.
  change (enc_values vs) with ([] ++ enc_values vs). change 0 with (zlen (@nil byte)).
  rewrite decode_columns_enc, exec_bind_ret by done.
  unfold zlen in HL. replace (length schema) with (length vs) by lia.
  rewrite Nat.ltb_irrefl. cbv beta iota. unfold zlen.
  rewrite (proj2 (Z.eqb_eq _ _)) by lia. cbn. by rewrite firstn_all.
Qed.

Lemma tuple_roundtrip_witness :
  exists buf' n,
    serialize_tuple [VInt (-3); VString [Byte.x68; Byte.x69]] [CInt; CString 9]
      (replicate 20 Byte.x00) = Ok (buf', n)
    /\ deserialize_row (slice buf' 0 n) [CInt; CString 9; CDate] [None; None; Some (VDate 7)]
       = Ok [VInt (-3); VString [Byte.x68; Byte.x69]; VDate 7].
Proof.
  eexists _, _. split; [vm_compute; reflexivity|].
  eapply (tuple_roundtrip [VInt (-3); VString [Byte.x68; Byte.x69]] [CInt; CString 9]
            (replicate 20 Byte.x00)); [vm_compute; reflexivity|].
  repeat apply Forall_cons_2; try apply Forall_nil; (split; [|done || word_lia]); vm_compute; done.
Defined.

(** *** Hostile bytes *)

Lemma expect_ind {E A} (P : exec E A -> Prop) data pos n (e : E) (k : list byte -> exec E A) :
  0 <= pos -> 0 <= n -> P (Err e) -> (forall bs, length bs = Z.to_nat n -> P (k bs)) ->
  P (expect data pos n e k).
Proof.
  intros Hp Hn He Hk. unfold expect. destruct (Z.ltb_spec (zlen data) (pos + n)); [done|].
  rewrite slice_get_ok by lia. apply Hk, length_slice; lia.
Qed.

Lemma to_i64_range v : in_u64 v -> in_i64 (to_i64 v).
Proof. unfold to_i64. unfold_ints. case_match; lia. Qed.
Lemma to_i32_range v : in_u32 v -> in_i32 (to_i32 v).
Proof. unfold to_i32. unfold_ints. case_match; lia. Qed.

Definition decode_sound (pos : Z) (r : exec TupleError (Value * Z)) : Prop :=
  match r with
  | Ok (v, pos') => value_wf v /\ pos < pos'
  | Err e => e <> WriteZero
  | Panic => False
  end.

Lemma decode_value_sound data pos :
  0 <= pos < zlen data -> decode_sound pos (decode_value data pos).
Proof.
  intros [H0 H1]. unfold decode_value, index_get.
  rewrite (proj2 (Z.leb_le _ _)) by done.
  destruct (lookup_lt_is_Some_2 data (Z.to_nat pos)) as [b ->]; [unfold zlen in H1; lia|].
  rewrite exec_bind_ret. cbv zeta.
  assert (forall p n (f : list byte -> Value), 0 <= n -> 0 <= p -> pos < p + n ->
    (forall bs, length bs = Z.to_nat n -> value_wf (f bs)) ->
    decode_sound pos (expect data p n UnexpectedEof (fun bs => Ok (f bs, p + n)))) as Fixed.
  { intros p n f Hn Hp Hlt Hwf. apply expect_ind; [done..|].
    intros bs HL. split; [by apply Hwf|lia]. }
  assert (forall p n, 0 <= n -> 0 <= p -> pos < p ->
    decode_sound pos (expect data p n UnexpectedEof (fun bs =>
      expect data (p + n) (le_val bs) UnexpectedEof (fun s =>
        if utf8_valid s then Ok (VString s, p + n + le_val bs) else Err InvalidData)))) as Str.
  { intros p n Hn Hp Hlt. apply expect_ind; [done..|]. intros bs _.
    pose proof (le_val_bound bs). apply expect_ind; [lia..|done|]. intros s _.
    destruct (utf8_valid s) eqn:U; [|done]. split; [done|lia]. }
  repeat case_match; try (apply Str; lia); try (apply Fixed; [lia..|intros bs HL]);
    cbn [value_wf]; eauto using to_i64_range, to_i32_range, le_val_in_u64, le_val_in_u32.
  - split; [done|lia].
  - done.
Qed.

(** C33: decoding is total on arbitrary bytes.  It never panics; a row comes out
    at the width of the schema with every value in range (strings are valid
    UTF-8), and what does not decode is an error. *)
Theorem decode_hostile_bytes data schema :
  match deserialize_tuple_width data schema with
  | Ok (vs, actual) =>
      length vs = length schema /\ Forall value_wf vs /\ 0 <= actual <= zlen schema
  | Err e => e = UnexpectedEof \/ e = InvalidData
  | Panic => False
  end.
Proof.
  unfold deserialize_tuple_width.
  assert (forall rest width acc pos, width = (length acc + length rest)%nat ->
    Forall value_wf acc -> 0 <= pos ->
    match decode_columns data rest width acc pos with
    | Ok (vs, actual) => length vs = width /\ Forall value_wf vs /\ 0 <= actual <= Z.of_nat width
    | Err e => e = UnexpectedEof \/ e = InvalidData
    | Panic => False
    end) as K.
  { induction rest as [|c rest IH]; intros width acc pos HW Hacc Hp; cbn [decode_columns].
    - split_and!; [simpl in HW; lia|done|lia|lia].
    - simpl in HW. destruct (Z.leb_spec (zlen data) pos).
      + unfold zlen. rewrite length_app, length_replicate. split_and!; [lia| |lia|lia].
        apply Forall_app. split; [done|]. by apply Forall_replicate.
      + pose proof (decode_value_sound data pos (conj Hp H)) as D.
        destruct (decode_value data pos) as [[v pos']|e|]; cbn [decode_sound exec_bind] in *;
          [|destruct e; auto; done|done].
        destruct D as [Hv Hlt]. apply IH; [rewrite length_app; simpl; lia| |lia].
        apply Forall_app. split; [done|]. by apply Forall_singleton. }
  apply (K schema (length schema) [] 0); [done|by apply Forall_nil|done].
Qed.

(** *** The borrowing decoder *)

Definition same_ref (r : exec TupleError (ValueRef * Z)) (s : exec TupleError (Value * Z)) : Prop :=
  match r, s with
  | Ok (a, p), Ok (v, q) => to_value a = v /\ p = q
  | Err e, Err e' => e = e'
  | Panic, Panic => True
  | _, _ => False
  end.

Lemma expect_rel data pos n k k' :
  (forall bs, same_ref (k bs) (k' bs)) ->
  same_ref (expect data pos n UnexpectedEof k) (expect data pos n UnexpectedEof k').
Proof.
  intros H. unfold expect. case_match; [done|].
  unfold slice_get. case_match; [|done]. cbn [exec_bind]. apply H.
Qed.

Lemma decode_ref_same data pos : same_ref (decode_ref data pos) (decode_value data pos).
Proof.
  unfold decode_ref, decode_value. destruct (index_get data pos) as [b|e|]; cbn [exec_bind]; try done.
  cbv zeta.
  repeat (case_match; [solve [done | apply expect_rel; intros bs; first
    [ done | apply expect_rel; intros s; by destruct (utf8_valid s) ]]|]). done.
Qed.

(** the zero-copy decoder agrees with the owning one on every input: the
    same values, or the same error. *)
Theorem borrowed_decode_agrees data schema :
  match deserialize_value_refs data schema, deserialize_tuple data schema with
  | Ok refs, Ok vs => to_value <$> refs = vs
  | Err e, Err e' => e = e'
  | Panic, Panic => True
  | _, _ => False
  end.
Proof.
  unfold deserialize_value_refs, deserialize_tuple, deserialize_tuple_width.
  assert (forall rest width racc acc pos, to_value <$> racc = acc ->
    width = (length acc + length rest)%nat ->
    match decode_refs data rest racc pos,
      (let? (values, actual) := decode_columns data rest width acc pos in
       if negb (actual =? Z.of_nat width) then Err UnexpectedEof else Ok values) with
    | Ok refs, Ok vs => to_value <$> refs = vs
    | Err e, Err e' => e = e'
    | Panic, Panic => True
    | _, _ => False
    end) as K.
  { induction rest as [|c rest IH]; intros width racc acc pos HA HW;
      cbn [decode_refs decode_columns].
    - cbn [exec_bind]. by rewrite Z.eqb_refl.
    - simpl in HW. destruct (zlen data <=? pos).
      + cbn [exec_bind]. unfold zlen. by rewrite (proj2 (Z.eqb_neq _ _)) by lia.
      + pose proof (decode_ref_same data pos) as S.
        destruct (decode_ref data pos) as [[r p]|e|], (decode_value data pos) as [[v q]|e'|];
          cbn [same_ref exec_bind] in *; try done.
        destruct S as [<- <-]. apply IH; [by rewrite fmap_app, HA|].
        rewrite length_app. simpl. lia. }
  apply (K schema (length schema) [] [] 0); done.
Qed.
