(* ===== verification/Version.v ===== *)
(** * Versions, snapshots, transaction ids

    [src/transaction/version_chain.rs]: the 22-byte header of a row version.
    [src/transaction/snapshot.rs]: visibility of a version to a snapshot.
    [src/transaction/tx_id.rs]: the transaction id allocator.
    [src/storage/page_visibility.rs]: the per-page visibility summary.

    The allocator's compare-and-swap loop is modelled as the list of values
    the counter takes between its reads ([advance_loop]). *)

From Stdlib Require Import ZArith Strings.Byte Lia Sorted.
From stdpp Require Import base tactics list numbers gmap.
From S2P Require Import Prelude RowKey.
Import RowId.

(** ** Version headers *)

Module VersionHeader.

Definition UNSET_TX_ID : Z := 18446744073709551615.
Definition DELETED_TX_ID : Z := 18446744073709551614.
Definition UNSET_ROW_ID : list byte := replicate 6 Byte.xff.
Definition SIZE : Z := 22.

Record vheader := mk { create_raw : Z; commit_raw : Z; next_raw : list byte }.

#[global] Instance vheader_eq_dec : EqDecision vheader.
Proof. solve_decision. Defined.

Definition wf (h : vheader) : Prop :=
  in_u64 (create_raw h) /\ in_u64 (commit_raw h) /\ length (next_raw h) = 6%nat.

Definition vh_new (create : Z) (commit : option Z) : vheader :=
  mk create (default UNSET_TX_ID commit) UNSET_ROW_ID.

Definition create_tx_id (h : vheader) : Z := create_raw h.

Definition commit_tx_id (h : vheader) : option Z :=
  if commit_raw h =? UNSET_TX_ID then None else Some (commit_raw h).

Definition next_version (h : vheader) : exec Empty_set (option RowId) :=
  if bool_decide (next_raw h = UNSET_ROW_ID) then Ok None
  else let? r := row_id_deserialize (next_raw h) in Ok (Some r).

Definition with_next_version (h : vheader) (r : RowId) : exec Empty_set vheader :=
  let? bytes := row_id_serialize r (next_raw h) in
  Ok (mk (create_raw h) (commit_raw h) bytes).

Definition vh_commit (h : vheader) (tx : Z) : vheader :=
  if negb (commit_raw h =? DELETED_TX_ID) then mk (create_raw h) tx (next_raw h) else h.

Definition mark_deleted (h : vheader) : vheader := mk (create_raw h) DELETED_TX_ID (next_raw h).

Definition mark_aborted (h : vheader) : vheader := mk 0 DELETED_TX_ID (next_raw h).

Definition is_deleted (h : vheader) : bool := commit_raw h =? DELETED_TX_ID.

Definition to_bytes (h : vheader) : list byte :=
  le_bytes 8 (create_raw h) ++ le_bytes 8 (commit_raw h) ++ next_raw h.

Definition from_bytes (bs : list byte) : option vheader :=
  if zlen bs <? SIZE then None
  else Some (mk (le_val (slice bs 0 8)) (le_val (slice bs 8 16)) (slice bs 16 22)).

End VersionHeader.

(** ** Snapshots *)

Module Snapshot.

Record snapshot := mk { tx_id : Z; high_water : Z; active_tx_ids : gset Z }.

Definition snapshot_new (id : Z) (active : list Z) : snapshot := mk id id (list_to_set active).

Definition statement_view (high self : Z) (active : list Z) : snapshot :=
  mk self high (list_to_set active).

Definition is_visible (s : snapshot) (create : Z) (commit : option Z) : bool :=
  match commit with
  | None => false
  | Some _ =>
      if high_water s <? create then false
      else if bool_decide (create ∈ active_tx_ids s) then false
      else true
  end.

Definition is_visible_self (s : snapshot) (create : Z) (commit : option Z) : bool :=
  (create =? tx_id s) && match commit with None => true | Some _ => false end.

Definition contains_active_tx (s : snapshot) (id : Z) : bool := bool_decide (id ∈ active_tx_ids s).

End Snapshot.

(** ** Transaction ids *)

Module TxId.

(** [fetch_add(1) + 1]: the id returned and the counter after. *)
Definition allocate (counter : Z) : Z * Z :=
  (wrap64 (counter + 1), wrap64 (counter + 1)).

(** [counter_advance_past]: [seen] are the counter values the failed
    compare-exchanges find, the first being the initial load; the final store
    happens when the exchange meets the value observed last. *)
Fixpoint advance_loop (max_used observed : Z) (others : list Z) (counter : Z) : Z :=
  if observed <? max_used then
    match others with
    | [] => if counter =? observed then max_used else counter
    | now :: others => advance_loop max_used now others counter
    end
  else counter.

(** With no interference: the loop sees the counter and exchanges once. *)
Definition counter_advance_past (counter max_used : Z) : Z :=
  advance_loop max_used counter [] counter.

End TxId.

(** ** Page summaries *)

Module PageVis.

Definition MIN_CREATE_UNKNOWN : Z := u64_max.

Record vis_info := mk { min_create_tx_id : Z; all_visible : bool }.

Definition vis_new : vis_info := mk 0 false.

Definition all_invisible_for (i : vis_info) (snapshot_tx_id : Z) : bool :=
  negb (min_create_tx_id i =? MIN_CREATE_UNKNOWN) && (snapshot_tx_id <? min_create_tx_id i).

End PageVis.

(** ** Theorems *)

Module VersionFacts.
Import VersionHeader.

Lemma length_to_bytes h : wf h -> length (to_bytes h) = 22%nat.
Proof. intros (_ & _ & H). unfold to_bytes. rewrite !length_app, !length_le_bytes, H. done. Qed.

(** Header bytes read back, whatever follows them in the slot. *)
Lemma from_to_bytes h rest : wf h -> from_bytes (to_bytes h ++ rest) = Some h.
Proof.
  intros W. pose proof (length_to_bytes h W) as HL. destruct W as (Hc & Hm & Hn).
  unfold from_bytes. assert (zlen (to_bytes h) = 22) as HZ by (unfold zlen; lia).
  assert (zlen (next_raw h) = 6) as HN by (unfold zlen; lia).
  pose proof (zlen_nonneg rest).
  rewrite (proj2 (Z.ltb_ge _ _)) by (unfold SIZE; buf_lia).
  unfold to_bytes. rewrite <- !app_assoc. slice_app.
  rewrite !le_val_u64 by done. by destruct h.
Qed.

Lemma from_bytes_wf bs h : from_bytes bs = Some h -> wf h.
Proof.
  unfold from_bytes, SIZE. case_match eqn:C; [done|]. apply Z.ltb_ge in C.
  intros [= <-]. split_and!; cbn [create_raw commit_raw next_raw].
  - apply le_val_in_u64, length_slice; lia.
  - apply le_val_in_u64, length_slice; lia.
  - apply length_slice; lia.
Qed.

Lemma vh_new_wf c m : in_u64 c -> (forall x, m = Some x -> in_u64 x) -> wf (vh_new c m).
Proof.
  intros Hc Hm. split_and!; [done| |done].
  destruct m as [x|]; cbn [vh_new commit_raw default]; [by apply Hm|]. unfold UNSET_TX_ID. word_lia.
Qed.

Lemma row_id_bytes_sentinel r :
  row_id_wf r -> (row_id_bytes r = UNSET_ROW_ID <-> r = mk_row_id u32_max u16_max).
Proof.
  intros W. split; [|intros ->; vm_compute; done].
  intros H. pose proof (row_id_deserialize_bytes r [] W) as D.
  rewrite app_nil_r, H in D. vm_compute in D. injection D as <-. done.
Qed.

(** a version header survives the page: its 22 bytes decode to the same
    header whatever payload follows, and a chain pointer set with
    [with_next_version] is the pointer [next_version] returns, except for the
    row id [(0xFFFFFFFF, 0xFFFF)], which is the encoding of "no predecessor". *)
Theorem version_header_roundtrip h r payload :
  wf h -> row_id_wf r ->
  exists h', with_next_version h r = Ok h'
    /\ from_bytes (to_bytes h' ++ payload) = Some h'
    /\ create_tx_id h' = create_tx_id h /\ commit_tx_id h' = commit_tx_id h
    /\ next_version h' =
         Ok (if bool_decide (r = mk_row_id u32_max u16_max) then None else Some r).
Proof.
  intros W Wr. pose proof W as (Hc & Hm & Hn).
  assert (zlen (next_raw h) = 6) as HN by (unfold zlen; lia).
  exists (mk (create_raw h) (commit_raw h) (row_id_bytes r)).
  unfold with_next_version. rewrite row_id_serialize_ok, exec_bind_ret by lia.
  split; [|split_and!; [by apply from_to_bytes|done|done|]].
  - do 2 f_equal. unfold splice. rewrite take_0. cbn [app].
    rewrite drop_ge, app_nil_r; [done|]. unfold zlen. rewrite length_row_id_bytes. lia.
  - unfold next_version. cbn [next_raw].
    destruct (bool_decide (r = _)) eqn:B.
    + apply bool_decide_eq_true in B. subst r. done.
    + apply bool_decide_eq_false in B.
      rewrite bool_decide_eq_false_2 by (by rewrite row_id_bytes_sentinel).
      rewrite <- (app_nil_r (row_id_bytes r)). by rewrite row_id_deserialize_bytes.
Qed.

Lemma version_header_roundtrip_witness :
  exists h', with_next_version (vh_new 4 None) (mk_row_id 7 2) = Ok h'
    /\ from_bytes (to_bytes h' ++ [Byte.x01]) = Some h'
    /\ create_tx_id h' = create_tx_id (vh_new 4 None)
    /\ commit_tx_id h' = commit_tx_id (vh_new 4 None)
    /\ next_version h' = Ok (Some (mk_row_id 7 2)).
Proof.
  apply (version_header_roundtrip (vh_new 4 None) (mk_row_id 7 2) [Byte.x01]).
  - apply vh_new_wf; [word_lia|done].
  - split; simpl; word_lia.
Defined.

(** The lifecycle of a header.  Committing is idempotent on tombstones (the
    delete sentinel survives the deleter's own commit), a plain version
    becomes committed by its transaction, and an aborted version is deleted
    and belongs to no transaction; none of the three changes the chain. *)
Theorem header_lifecycle h tx :
  in_u64 tx -> tx < DELETED_TX_ID ->
  (is_deleted h = true -> vh_commit h tx = h)
  /\ (is_deleted h = false -> commit_tx_id (vh_commit h tx) = Some tx
        /\ is_deleted (vh_commit h tx) = false)
  /\ is_deleted (mark_deleted h) = true /\ create_tx_id (mark_deleted h) = create_tx_id h
  /\ is_deleted (mark_aborted h) = true /\ create_tx_id (mark_aborted h) = 0
  /\ next_raw (vh_commit h tx) = next_raw h /\ next_raw (mark_deleted h) = next_raw h
  /\ next_raw (mark_aborted h) = next_raw h.
Proof.
  intros Hu Ht. unfold is_deleted, vh_commit. split_and!; try done.
  - intros ->. done.
  - intros ->. cbn. unfold commit_tx_id. cbn [commit_raw].
    unfold DELETED_TX_ID, UNSET_TX_ID in *.
    rewrite !(proj2 (Z.eqb_neq _ _)) by lia. done.
  - case_match; done.
Qed.

Lemma header_lifecycle_witness :
  commit_tx_id (vh_commit (vh_new 3 None) 3) = Some 3 /\ is_deleted (vh_commit (vh_new 3 None) 3) = false.
Proof.
  apply (header_lifecycle (vh_new 3 None) 3); [word_lia | unfold DELETED_TX_ID; lia | reflexivity].
Defined.

End VersionFacts.

Module SnapshotFacts.
Import Snapshot.

(** The documented rule: committed, created at or below the high-water mark,
    by a transaction that was not active. *)
Lemma is_visible_iff s c m :
  is_visible s c m = true <->
  (exists x, m = Some x) /\ c <= high_water s /\ c ∉ active_tx_ids s.
Proof.
  unfold is_visible. destruct m as [x|].
  - destruct (Z.ltb_spec (high_water s) c); [split; [done|intros (_ & ? & _); lia]|].
    case_bool_decide; split; try done; [by intros (_ & _ & ?) | eauto].
  - split; [done|]. by intros ((x & ?) & _).
Qed.

(** no version is visible both as a committed one and as the reader's own
    uncommitted write, and an uncommitted version is visible to its creator
    only. *)
Theorem visibility_exclusive s c m :
  (is_visible s c m = true -> is_visible_self s c m = false)
  /\ (m = None -> is_visible s c m || is_visible_self s c m = (c =? tx_id s)).
Proof.
  unfold is_visible_self. split.
  - intros ((x & ->) & _)%is_visible_iff. by rewrite andb_false_r.
  - intros ->. by rewrite andb_true_r.
Qed.

Lemma visibility_exclusive_witness :
  is_visible_self (snapshot_new 5 [2; 3]) 1 (Some 1) = false.
Proof. apply (visibility_exclusive (snapshot_new 5 [2; 3]) 1 (Some 1)). vm_compute. reflexivity. Defined.

(** A page summary whose minimum is a lower bound of the creators on the page
    hides only rows the snapshot cannot see. *)
Lemma all_invisible_sound info s c m :
  PageVis.all_invisible_for info (high_water s) = true ->
  PageVis.min_create_tx_id info <= c -> is_visible s c m = false.
Proof.
  unfold PageVis.all_invisible_for. intros [_ H%Z.ltb_lt]%andb_true_iff Hc.
  unfold is_visible. destruct m; [|done]. by rewrite (proj2 (Z.ltb_lt _ _)) by lia.
Qed.

End SnapshotFacts.

Module TxIdFacts.
Import TxId.

(** Whatever values other threads store meanwhile, [counter_advance_past] leaves
    the counter at or above [max_used] and never lowers it, provided the
    counter only grew between the loop's observations. *)
Theorem advance_past_monotone max_used observed others counter :
  Sorted Z.le (observed :: others ++ [counter]) ->
  (forall o, last (observed :: others) = Some o -> max_used <= o \/ counter = o) ->
  let c := advance_loop max_used observed others counter in
  max_used <= c /\ counter <= c.
Proof.
  revert observed. induction others as [|now others IH]; intros observed HS HL; cbn.
  - destruct (Z.ltb_spec observed max_used).
    + destruct (HL observed eq_refl) as [?| ->]; [lia|]. rewrite Z.eqb_refl. lia.
    + apply Sorted_inv in HS as [_ HS]. inversion HS. lia.
  - destruct (Z.ltb_spec observed max_used).
    + apply IH; [by apply Sorted_inv in HS as [? _]|]. intros o Ho. apply HL. done.
    + apply Sorted_StronglySorted in HS; [|intros ???; lia].
      apply StronglySorted_inv in HS as [_ HS].
      rewrite Forall_forall in HS.
      assert (observed <= counter); [|lia]. apply HS. right. apply elem_of_app.
      right. constructor.
Qed.

Lemma advance_past_monotone_witness :
  let c := advance_loop 10 3 [4] 4 in 10 <= c /\ 4 <= c.
Proof.
  apply (advance_past_monotone 10 3 [4] 4).
  - repeat (constructor; try lia).
  - intros o [= <-]. right. reflexivity.
Defined.

(** After [counter_advance_past], ids are never reused: the next one is above
    [max_used] (until the 64-bit counter itself is exhausted). *)
Lemma allocate_fresh counter max_used :
  0 <= counter -> 0 <= max_used -> counter_advance_past counter max_used < u64_max ->
  max_used < (allocate (counter_advance_past counter max_used)).1
  /\ counter < (allocate (counter_advance_past counter max_used)).1.
Proof.
  unfold counter_advance_past, advance_loop, allocate. rewrite Z.eqb_refl. intros.
  destruct (Z.ltb_spec counter max_used); cbn; unfold wrap64; rewrite Z.mod_small; revert H1;
    unfold_ints; lia.
Qed.

End TxIdFacts.
