(* ===== verification/TxManager.v ===== *)
(** * Transactions

    [src/transaction/manager.rs]: the transaction manager (active set,
    recorded versions, commit and abort), [src/transaction/session.rs]: one
    session's explicit transaction, [src/transaction/row_lock.rs]: the table
    of row locks, and [Database::statement_snapshot] of [src/database.rs].

    [begin] and [get_lock] take several locks one after the other; their
    pieces are separate definitions ([begin_alloc], [begin_read],
    [begin_insert]; [lock_read], [lock_write]) and the theorems about
    interleavings run them as separate steps.  Row versions live in a map from
    row id to header, which stands for the data pages; what the write-ahead
    log answers to a commit is an argument.  The index repair of an abort is
    not part of this file. *)

From Stdlib Require Import ZArith Strings.Byte Lia.
From stdpp Require Import base tactics list numbers gmap relations.
From S2P Require Import Prelude RowKey Version.
Import RowId.

(** ** The manager *)

Module TxManager.

Inductive WalEvent :=
| BeginTxn (tx_id : Z)
| CommitTxn (tx_id timestamp : Z)
| AbortTxn (tx_id : Z).

Inductive TxError :=
| NotFound (tx_id : Z)
| AlreadyCommitted (tx_id : Z)
| AlreadyAborted (tx_id : Z)
| WalFailed
| SlotNotFound (r : RowId)
| NoTableMeta (table : list byte).

Abbreviation TableName := (list byte).

Record TM := mkTM {
  tx_id_allocator : Z;
  active_tx_ids : gset Z;
  tx_versions : gmap Z (gmap TableName (gset RowId));
  wal_buffer : option (list WalEvent) }.

(** The row versions on the data pages. *)
Abbreviation Versions := (gmap RowId VersionHeader.vheader).

Inductive TransactionState := Active | Committed | Aborted.
Record Transaction := mkTx {
  tx_id : Z; tx_snapshot : Snapshot.snapshot; tx_state : TransactionState }.

Definition tm_new : TM := mkTM 0 ∅ ∅ None.

Definition set_wal_buffer (m : TM) (w : list WalEvent) : TM :=
  mkTM (tx_id_allocator m) (active_tx_ids m) (tx_versions m) (Some w).

Definition wal_append (m : TM) (e : WalEvent) : TM :=
  mkTM (tx_id_allocator m) (active_tx_ids m) (tx_versions m)
    (match wal_buffer m with Some w => Some (w ++ [e]) | None => None end).

Definition set_active (m : TM) (a : gset Z) : TM :=
  mkTM (tx_id_allocator m) a (tx_versions m) (wal_buffer m).

Definition set_versions (m : TM) (v : gmap Z (gmap TableName (gset RowId))) : TM :=
  mkTM (tx_id_allocator m) (active_tx_ids m) v (wal_buffer m).

(** *** [begin], one definition per critical section *)

Definition begin_alloc (m : TM) : Z * TM :=
  let (id, c) := TxId.allocate (tx_id_allocator m) in
  (id, mkTM c (active_tx_ids m) (tx_versions m) (wal_buffer m)).

Definition begin_read (m : TM) : list Z := elements (active_tx_ids m).

Definition begin_insert (m : TM) (id : Z) : TM := set_active m ({[id]} ∪ active_tx_ids m).

Definition begin (m : TM) : Transaction * TM :=
  let (id, m) := begin_alloc m in
  let m := wal_append m (BeginTxn id) in
  let active := begin_read m in
  let m := begin_insert m id in
  (mkTx id (Snapshot.snapshot_new id active) Active, m).

(** *** Recorded versions *)

Definition record_version (m : TM) (id : Z) (table : TableName) (r : RowId) : TM :=
  let entry := default ∅ (tx_versions m !! id) in
  let rows := default ∅ (entry !! table) in
  set_versions m (<[id := <[table := {[r]} ∪ rows]> entry]> (tx_versions m)).

(** [values().flatten()] of one transaction's tables. *)
Definition get_tx_versions (m : TM) (id : Z) : gset RowId :=
  map_fold (fun _ rows acc => rows ∪ acc) ∅ (default ∅ (tx_versions m !! id)).

Definition discard_tx_version_tables (m : TM) (id : Z) (names : list TableName) : TM :=
  match tx_versions m !! id with
  | None => m
  | Some entry =>
      let entry := foldl (fun e n => delete n e) entry names in
      set_versions m (if bool_decide (entry = ∅) then delete id (tx_versions m)
                      else <[id := entry]> (tx_versions m))
  end.

Definition active_transactions (m : TM) : list Z := elements (active_tx_ids m).
Definition current_tx_id (m : TM) : Z := tx_id_allocator m.

Definition advance_past (m : TM) (max_used : Z) : TM :=
  mkTM (TxId.counter_advance_past (tx_id_allocator m) max_used)
    (active_tx_ids m) (tx_versions m) (wal_buffer m).

Definition commit_by_id (m : TM) (id : Z) : option TxError * TM :=
  if bool_decide (id ∈ active_tx_ids m)
  then (None, set_active m (active_tx_ids m ∖ {[id]}))
  else (Some (NotFound id), m).

(** *** Commit *)

(** [BufferPool::write_commit_tx_id]. *)
Definition write_commit_tx_id (vs : Versions) (r : RowId) (id : Z) : option Versions :=
  h ← vs !! r; Some (<[r := VersionHeader.vh_commit h id]> vs).

(** The loop over the recorded versions; it stops at the first failure and
    keeps what it marked before. *)
Fixpoint mark_versions (vs : Versions) (rows : list RowId) (id : Z)
    : option TxError * Versions :=
  match rows with
  | [] => (None, vs)
  | r :: rows =>
      match write_commit_tx_id vs r id with
      | None => (Some (SlotNotFound r), vs)
      | Some vs => mark_versions vs rows id
      end
  end.

Definition commit_mark_versions (m : TM) (vs : Versions) (id : Z) : option TxError * Versions :=
  mark_versions vs (elements (get_tx_versions m id)) id.

(** [wal_ok] is the answer of [append_commit_and_wait]. *)
Definition commit (m : TM) (vs : Versions) (tx : Transaction) (timestamp : Z) (wal_ok : bool)
    : option TxError * TM * Versions :=
  let id := tx_id tx in
  let m := wal_append m (CommitTxn id timestamp) in
  if match wal_buffer m with Some _ => negb wal_ok | None => false end
  then (Some WalFailed, m, vs)
  else
    match commit_mark_versions m vs id with
    | (Some e, vs) => (Some e, m, vs)
    | (None, vs) =>
        if bool_decide (id ∈ active_tx_ids m) then
          let m := set_active m (active_tx_ids m ∖ {[id]}) in
          (None, set_versions m (delete id (tx_versions m)), vs)
        else (Some (AlreadyCommitted id), m, vs)
    end.

(** *** Abort *)

(** [versions_created_by] on one table's data chain, [rows] being the row ids
    on it. *)
Definition versions_created_by (vs : Versions) (rows : gset RowId) (id : Z) : gset RowId :=
  filter (fun r => VersionHeader.create_tx_id <$> vs !! r = Some id) rows.

(** A resolved table: the rows of its data chain, which of them the primary
    index knows ([find_key_by_row_id]), and whether the repair of the index
    entries of a row succeeds. *)
Record TableMeta := mkMeta {
  chain_rows : gset RowId; has_key : RowId -> bool; repair_ok : RowId -> bool }.

(** One row of either pass: repair its index entries, then neutralise it. *)
Definition abort_row (meta : TableMeta) (vs : Versions) (r : RowId)
    : option TxError * Versions :=
  match vs !! r with
  | None => (Some (SlotNotFound r), vs)
  | Some h =>
      if repair_ok meta r then (None, <[r := VersionHeader.mark_aborted h]> vs)
      else (Some (SlotNotFound r), vs)
  end.

Fixpoint abort_rows (meta : TableMeta) (vs : Versions) (rows : list RowId)
    : option TxError * Versions :=
  match rows with
  | [] => (None, vs)
  | r :: rows =>
      match abort_row meta vs r with
      | (None, vs) => abort_rows meta vs rows
      | failed => failed
      end
  end.

(** Pass A (rows the index knows), then pass B (tombstones). *)
Definition abort_table (meta : TableMeta) (vs : Versions) (rows : gset RowId) (id : Z)
    : option TxError * Versions :=
  let all := elements (rows ∪ versions_created_by vs (chain_rows meta) id) in
  let indexed := filter (fun r => has_key meta r = true) all in
  let tombstones := filter (fun r => has_key meta r = false) all in
  match abort_rows meta vs indexed with
  | (None, vs) => abort_rows meta vs tombstones
  | failed => failed
  end.

Fixpoint abort_tables (tables : gmap TableName TableMeta) (vs : Versions)
    (recorded : list (TableName * gset RowId)) (id : Z) : option TxError * Versions :=
  match recorded with
  | [] => (None, vs)
  | (name, rows) :: recorded =>
      match tables !! name with
      | None => (Some (NoTableMeta name), vs)
      | Some meta =>
          match abort_table meta vs rows id with
          | (None, vs) => abort_tables tables vs recorded id
          | failed => failed
          end
      end
  end.

Definition abort_cleanup_versions (m : TM) (vs : Versions) (tables : gmap TableName TableMeta)
    (id : Z) : option TxError * Versions :=
  abort_tables tables vs (map_to_list (default ∅ (tx_versions m !! id))) id.

Definition abort_by_id (m : TM) (vs : Versions) (tables : gmap TableName TableMeta) (id : Z)
    : option TxError * TM * Versions :=
  let m := wal_append m (AbortTxn id) in
  match abort_cleanup_versions m vs tables id with
  | (Some e, vs) => (Some e, m, vs)
  | (None, vs) =>
      if bool_decide (id ∈ active_tx_ids m) then
        let m := set_active m (active_tx_ids m ∖ {[id]}) in
        (None, set_versions m (delete id (tx_versions m)), vs)
      else (Some (AlreadyAborted id), m, vs)
  end.

End TxManager.

(** ** One session's transaction *)

Module Session.
Import TxManager.

Record TransactionSession := mkSession { session_tx : option Transaction }.

Inductive SessionError := AlreadyActive | NoActive | DbError.

Definition session_new : TransactionSession := mkSession None.
Definition is_active (s : TransactionSession) : bool :=
  match session_tx s with Some _ => true | None => false end.
Definition session_tx_id (s : TransactionSession) : option Z := tx_id <$> session_tx s.

(** [db_begin], [db_commit] and [db_rollback] are what the database answers. *)
Definition session_begin (s : TransactionSession) (db_begin : option Transaction)
    : option SessionError * TransactionSession :=
  match session_tx s with
  | Some _ => (Some AlreadyActive, s)
  | None =>
      match db_begin with
      | Some tx => (None, mkSession (Some tx))
      | None => (Some DbError, s)
      end
  end.

Definition session_commit (s : TransactionSession) (db_commit : Transaction -> bool)
    : option SessionError * TransactionSession :=
  match session_tx s with
  | None => (Some NoActive, mkSession None)
  | Some tx => (if db_commit tx then None else Some DbError, mkSession None)
  end.

Definition session_rollback (s : TransactionSession) (db_rollback : Transaction -> bool)
    : option SessionError * TransactionSession :=
  match session_tx s with
  | None => (Some NoActive, mkSession None)
  | Some tx => (if db_rollback tx then None else Some DbError, mkSession None)
  end.

End Session.

(** ** Statement snapshots ([Database::statement_snapshot]) *)

Module Statement.
Import TxManager.

Inductive IsolationLevel := RepeatableRead | ReadCommitted.

Definition statement_snapshot (m : TM) (isolation : IsolationLevel) (reader : option Z)
    : option Snapshot.snapshot :=
  match isolation with
  | RepeatableRead => None
  | ReadCommitted =>
      let active := active_transactions m in
      Some (Snapshot.statement_view (current_tx_id m) (default 0 reader) active)
  end.

End Statement.

(** ** Row locks *)

Module RowLock.

(** Locks are numbered in creation order ([Arc] identity). *)
Record LockTable := mkLocks { locks : gmap RowId nat; next_lock : nat }.

Definition locks_new : LockTable := mkLocks ∅ 0.

(** The read-locked lookup and the write-locked double check of [get_lock]. *)
Definition lock_read (t : LockTable) (r : RowId) : option nat := locks t !! r.
Definition lock_write (t : LockTable) (r : RowId) : nat * LockTable :=
  match locks t !! r with
  | Some l => (l, t)
  | None => (next_lock t, mkLocks (<[r := next_lock t]> (locks t)) (S (next_lock t)))
  end.

End RowLock.

(** ** Theorems *)

Module TxFacts.
Import TxManager.

(** *** What marking and aborting touch *)

(** A version neutralised by an abort; a version of [id], or one neutralised. *)
Definition neutral (h : VersionHeader.vheader) : Prop :=
  VersionHeader.create_tx_id h = 0 /\ VersionHeader.is_deleted h = true.
Definition mine (id : Z) (h : VersionHeader.vheader) : Prop :=
  VersionHeader.create_tx_id h = id \/ neutral h.

(** [vs'] differs from [vs] in versions of [id] only, and these stay so. *)
Definition touches (id : Z) (vs vs' : Versions) : Prop :=
  forall r, vs' !! r = vs !! r
    \/ exists h h', vs !! r = Some h /\ vs' !! r = Some h' /\ mine id h /\ mine id h'
         /\ (neutral h -> neutral h').

Definition owned (id : Z) (vs : Versions) (rows : list RowId) : Prop :=
  forall r h, r ∈ rows -> vs !! r = Some h -> mine id h.

Lemma touches_refl id vs : touches id vs vs.
Proof. intros r. by left. Qed.

Lemma touches_trans id vs1 vs2 vs3 :
  touches id vs1 vs2 -> touches id vs2 vs3 -> touches id vs1 vs3.
Proof.
  intros H1 H2 r. destruct (H1 r) as [E1|(h1 & h2 & A & B & C & D & N)],
    (H2 r) as [E2|(h3 & h4 & A' & B' & C' & D' & N')].
  - left. by rewrite E2.
  - right. exists h3, h4. by rewrite <- E1.
  - right. exists h1, h2. by rewrite E2.
  - rewrite B in A'. injection A' as <-. right. exists h1, h4. auto 10.
Qed.

Lemma touches_insert id vs r h h' :
  vs !! r = Some h -> mine id h -> mine id h' -> (neutral h -> neutral h') ->
  touches id vs (<[r := h']> vs).
Proof.
  intros E M M' N r'. destruct (decide (r = r')) as [<-|Hne].
  - right. exists h, h'. by rewrite lookup_insert_eq.
  - left. by rewrite lookup_insert_ne.
Qed.

Lemma touches_owned id vs vs' rows : touches id vs vs' -> owned id vs rows -> owned id vs' rows.
Proof.
  intros T O r h Hr E. destruct (T r) as [E'|(h1 & h2 & A & B & C & D & _)].
  - rewrite E' in E. eauto.
  - rewrite B in E. by injection E as <-.
Qed.

Lemma mine_commit id h : mine id h -> mine id (VersionHeader.vh_commit h id).
Proof.
  unfold mine, neutral, VersionHeader.vh_commit, VersionHeader.is_deleted.
  intros [<-|[E D]]; [left; by case_match|]. right. by rewrite D.
Qed.

Lemma neutral_commit id h : neutral h -> neutral (VersionHeader.vh_commit h id).
Proof.
  unfold neutral, VersionHeader.vh_commit, VersionHeader.is_deleted. intros [E D]. by rewrite D.
Qed.

Lemma mine_aborted id h : mine id (VersionHeader.mark_aborted h).
Proof. right. done. Qed.

Lemma mark_versions_touches id rows vs e vs' :
  owned id vs rows -> mark_versions vs rows id = (e, vs') -> touches id vs vs'.
Proof.
  revert vs. induction rows as [|r rows IH]; intros vs HO; cbn [mark_versions].
  - intros [= <- <-]. apply touches_refl.
  - unfold write_commit_tx_id.
    destruct (vs !! r) as [h|] eqn:Eh; cbn [mbind option_bind];
      [|intros [= <- <-]; apply touches_refl].
    assert (mine id h) as M by (apply HO with r; [by left|done]).
    assert (touches id vs (<[r := VersionHeader.vh_commit h id]> vs)) as T
      by (eapply touches_insert; eauto using mine_commit, neutral_commit).
    intros H. apply IH in H; [by eapply touches_trans|].
    apply (touches_owned id vs); [done|]. intros r' h' Hr'. apply HO. by right.
Qed.

Lemma abort_rows_touches id meta rows vs e vs' :
  owned id vs rows -> abort_rows meta vs rows = (e, vs') -> touches id vs vs'.
Proof.
  revert vs. induction rows as [|r rows IH]; intros vs HO; cbn [abort_rows].
  - intros [= <- <-]. apply touches_refl.
  - unfold abort_row. destruct (vs !! r) as [h|] eqn:Eh; [|intros [= <- <-]; apply touches_refl].
    destruct (repair_ok meta r); [|intros [= <- <-]; apply touches_refl].
    assert (mine id h) as M by (apply HO with r; [by left|done]).
    assert (touches id vs (<[r := VersionHeader.mark_aborted h]> vs)) as T
      by (eapply touches_insert; eauto using mine_aborted; by split).
    intros H. apply IH in H; [by eapply touches_trans|].
    apply (touches_owned id vs); [done|]. intros r' h' Hr'. apply HO. by right.
Qed.

Lemma abort_table_touches id meta vs rows e vs' :
  owned id vs (elements rows) -> abort_table meta vs rows id = (e, vs') -> touches id vs vs'.
Proof.
  intros HO. unfold abort_table.
  set (all := elements (rows ∪ versions_created_by vs (chain_rows meta) id)).
  assert (owned id vs all) as HA.
  { intros r h Hr E. unfold all in Hr. apply elem_of_elements, elem_of_union in Hr as [Hr|Hr].
    - apply (HO r h); [by apply elem_of_elements|done].
    - unfold versions_created_by in Hr. apply elem_of_filter in Hr as [Hr _].
      rewrite E in Hr. injection Hr as Hr. by left. }
  clearbody all.
  assert (forall b, owned id vs (filter (fun r => has_key meta r = b) all)) as HF.
  { intros b r h Hr. apply list_elem_of_filter in Hr as [_ Hr]. by apply HA. }
  destruct (abort_rows meta vs (filter (fun r => has_key meta r = true) all)) as [[e1|] vs1] eqn:E1;
    apply (abort_rows_touches id) in E1; try apply HF.
  - by intros [= <- <-].
  - intros E2. eapply touches_trans; [done|]. eapply abort_rows_touches; [|done].
    eapply touches_owned; [done|apply HF].
Qed.

Lemma abort_tables_touches id tables recorded vs e vs' :
  (forall name rows, (name, rows) ∈ recorded -> owned id vs (elements rows)) ->
  abort_tables tables vs recorded id = (e, vs') -> touches id vs vs'.
Proof.
  revert vs. induction recorded as [|[name rows] recorded IH]; intros vs HO; cbn [abort_tables].
  - intros [= <- <-]. apply touches_refl.
  - destruct (tables !! name) as [meta|]; [|intros [= <- <-]; apply touches_refl].
    destruct (abort_table meta vs rows id) as [[e1|] vs1] eqn:E1;
      apply abort_table_touches in E1; try (apply HO with name; by left).
    + by intros [= <- <-].
    + intros H. apply IH in H; [by eapply touches_trans|].
      intros n rs Hin. eapply touches_owned; [done|]. apply HO with n. by right.
Qed.

(** The rows recorded for a transaction, table by table and flattened. *)
Lemma elem_of_tx_versions m id r :
  r ∈ get_tx_versions m id <->
  exists name rows, default ∅ (tx_versions m !! id) !! name = Some rows /\ r ∈ rows.
Proof.
  unfold get_tx_versions. generalize (default ∅ (tx_versions m !! id)). intros tbl.
  apply (map_fold_weak_ind (fun (acc : gset RowId) (t : gmap TableName (gset RowId)) =>
    r ∈ acc <-> exists name rows, t !! name = Some rows /\ r ∈ rows)).
  - split; [set_solver|]. intros (n & rows & H & _). by rewrite lookup_empty in H.
  - intros n rows t acc Hn IH. rewrite elem_of_union, IH. split.
    + intros [H|(n' & rows' & H & H')].
      * exists n, rows. by rewrite lookup_insert_eq.
      * exists n', rows'. rewrite lookup_insert_ne; [done|]. intros <-. by rewrite Hn in H.
    + intros (n' & rows' & H & H'). destruct (decide (n = n')) as [<-|Hne].
      * rewrite lookup_insert_eq in H. injection H as <-. by left.
      * rewrite lookup_insert_ne in H by done. right. eauto.
Qed.

End TxFacts.

(** *** Concurrent transactions *)

Module Isolation.
Import TxManager Statement TxFacts.

Record Sys := mkSys { manager : TM; store : Versions }.

(** What any number of sessions do to the manager and the pages, one operation
    at a time: begin (here as one step), writing and recording a new version
    of an active transaction, commit and abort with whatever outcome, and
    dropping the entries of vanished tables. *)
Inductive step : Sys -> Sys -> Prop :=
| step_begin m vs :
    tx_id_allocator m < u64_max -> step (mkSys m vs) (mkSys (begin m).2 vs)
| step_write m vs id table r h :
    id ∈ active_tx_ids m -> vs !! r = None -> VersionHeader.create_tx_id h = id ->
    step (mkSys m vs) (mkSys (record_version m id table r) (<[r := h]> vs))
| step_commit m vs tx ts ok e m' vs' :
    commit m vs tx ts ok = (e, m', vs') -> step (mkSys m vs) (mkSys m' vs')
| step_abort m vs tables id e m' vs' :
    abort_by_id m vs tables id = (e, m', vs') -> step (mkSys m vs) (mkSys m' vs')
| step_discard m vs id names :
    step (mkSys m vs) (mkSys (discard_tx_version_tables m id names) vs).

Definition initial : Sys := mkSys tm_new ∅.

Record inv (st : Sys) : Prop := {
  inv_counter : 0 <= tx_id_allocator (manager st) <= u64_max;
  inv_active : forall id, id ∈ active_tx_ids (manager st) ->
    1 <= id <= tx_id_allocator (manager st);
  inv_creators : forall r h, store st !! r = Some h ->
    neutral h \/ 1 <= VersionHeader.create_tx_id h <= tx_id_allocator (manager st);
  inv_recorded : forall id, id ∉ active_tx_ids (manager st) ->
    tx_versions (manager st) !! id = None;
  inv_owned : forall id r, r ∈ get_tx_versions (manager st) id ->
    exists h, store st !! r = Some h /\ mine id h }.

Lemma get_tx_versions_none m id : tx_versions m !! id = None -> get_tx_versions m id = ∅.
Proof. intros H. unfold get_tx_versions. by rewrite H. Qed.

Lemma inv_initial : inv initial.
Proof.
  split; cbn [initial manager store tm_new tx_id_allocator active_tx_ids tx_versions].
  - word_lia.
  - set_solver.
  - intros r h H. by rewrite lookup_empty in H.
  - intros id _. apply lookup_empty.
  - intros id r Hr. rewrite get_tx_versions_none in Hr by apply lookup_empty. set_solver.
Qed.

(** Rows a scan shows to snapshot [s] as committed ones. *)
Definition row_visible (s : Snapshot.snapshot) (h : VersionHeader.vheader) : bool :=
  negb (VersionHeader.is_deleted h)
  && Snapshot.is_visible s (VersionHeader.create_tx_id h) (VersionHeader.commit_tx_id h).
Definition shown (s : Snapshot.snapshot) (vs : Versions) (r : RowId) : bool :=
  match vs !! r with Some h => row_visible s h | None => false end.

Lemma get_tx_versions_eq m m' id :
  tx_versions m !! id = tx_versions m' !! id -> get_tx_versions m id = get_tx_versions m' id.
Proof. unfold get_tx_versions. by intros ->. Qed.

Lemma touches_recorded id vs vs' id' r :
  touches id vs vs' -> (exists h, vs !! r = Some h /\ mine id' h) ->
  exists h, vs' !! r = Some h /\ mine id' h.
Proof.
  intros T (h & E & M). destruct (T r) as [E'|(h1 & h2 & A & B & C & D & N)].
  - exists h. by rewrite E'.
  - rewrite E in A. injection A as <-. exists h2. split; [done|].
    destruct M as [M|M]; [|right; by apply N].
    destruct C as [C|C]; [|right; by apply N]. by rewrite <- M, C.
Qed.

(** The common shape of commit and abort: the versions of one active
    transaction change, and it may leave the active set. *)
Definition settles (id : Z) (st st' : Sys) : Prop :=
  let m := manager st in let m' := manager st' in
  tx_id_allocator m' = tx_id_allocator m
  /\ ((active_tx_ids m' = active_tx_ids m /\ tx_versions m' = tx_versions m)
      \/ (active_tx_ids m' = active_tx_ids m ∖ {[id]}
          /\ tx_versions m' = delete id (tx_versions m)))
  /\ (store st' = store st \/ (id ∈ active_tx_ids m /\ touches id (store st) (store st'))).

Lemma inv_owned_list st id :
  inv st -> owned id (store st) (elements (get_tx_versions (manager st) id)).
Proof.
  intros I r h Hr E. apply elem_of_elements, (inv_owned st I) in Hr as (h' & E' & M).
  rewrite E in E'. by injection E' as <-.
Qed.

Lemma commit_settles m vs tx ts ok e m' vs' :
  inv (mkSys m vs) -> commit m vs tx ts ok = (e, m', vs') ->
  settles (tx_id tx) (mkSys m vs) (mkSys m' vs').
Proof.
  intros I. unfold commit. set (m1 := wal_append m (CommitTxn (tx_id tx) ts)).
  assert (tx_versions m1 = tx_versions m /\ active_tx_ids m1 = active_tx_ids m
          /\ tx_id_allocator m1 = tx_id_allocator m) as (EV & EA & EC) by done.
  unfold settles. cbn [manager store].
  destruct (match wal_buffer m1 with Some _ => negb ok | None => false end).
  { intros [= <- <- <-]. (split_and!; [done | by left | by left]). }
  destruct (commit_mark_versions m1 vs (tx_id tx)) as [e1 vs1] eqn:EM.
  assert (vs1 = vs \/ (tx_id tx ∈ active_tx_ids m /\ touches (tx_id tx) vs vs1)) as HV.
  { unfold commit_mark_versions in EM.
    rewrite (get_tx_versions_eq m1 m) in EM by (by rewrite EV).
    destruct (decide (tx_id tx ∈ active_tx_ids m)) as [Ha|Ha].
    - right. split; [done|]. eapply mark_versions_touches; [|done].
      apply (inv_owned_list (mkSys m vs) (tx_id tx) I).
    - left. rewrite (get_tx_versions_none m) in EM by (by apply (inv_recorded _ I)).
      rewrite elements_empty in EM. by injection EM as <- <-. }
  destruct e1 as [e1|]; [intros [= <- <- <-]; (split_and!; [done | by left | done])|].
  case_bool_decide; intros [= <- <- <-]; (split_and!; [done | first [by left|by right] | done]).
Qed.

Lemma abort_settles m vs tables id e m' vs' :
  inv (mkSys m vs) -> abort_by_id m vs tables id = (e, m', vs') ->
  settles id (mkSys m vs) (mkSys m' vs').
Proof.
  intros I. unfold abort_by_id. set (m1 := wal_append m (AbortTxn id)).
  assert (tx_versions m1 = tx_versions m /\ active_tx_ids m1 = active_tx_ids m
          /\ tx_id_allocator m1 = tx_id_allocator m) as (EV & EA & EC) by done.
  unfold settles. cbn [manager store].
  destruct (abort_cleanup_versions m1 vs tables id) as [e1 vs1] eqn:EM.
  assert (vs1 = vs \/ (id ∈ active_tx_ids m /\ touches id vs vs1)) as HV.
  { unfold abort_cleanup_versions in EM. rewrite EV in EM.
    destruct (decide (id ∈ active_tx_ids m)) as [Ha|Ha].
    - right. split; [done|]. eapply abort_tables_touches; [|done].
      intros name rows Hin%elem_of_map_to_list r h Hr E.
      apply elem_of_elements in Hr.
      assert (r ∈ get_tx_versions m id) as Hg by (apply elem_of_tx_versions; eauto).
      apply (inv_owned (mkSys m vs) I) in Hg as (h' & E' & M). cbn in E'.
      rewrite E in E'. by injection E' as <-.
    - left. rewrite (inv_recorded (mkSys m vs) I) in EM by done. cbn in EM.
      rewrite map_to_list_empty in EM. by injection EM as <- <-. }
  destruct e1 as [e1|]; [intros [= <- <- <-]; (split_and!; [done | by left | done])|].
  case_bool_decide; intros [= <- <- <-]; (split_and!; [done | first [by left|by right] | done]).
Qed.

Lemma settles_inv id st st' : inv st -> settles id st st' -> inv st'.
Proof.
  intros I (EC & HA & HS). destruct I as [Ic Ia Icr Ir Io].
  assert (forall x, x ∈ active_tx_ids (manager st') -> x ∈ active_tx_ids (manager st)) as Hsub
    by (destruct HA as [[-> _]|[-> _]]; set_solver).
  assert (forall i r, r ∈ get_tx_versions (manager st') i -> r ∈ get_tx_versions (manager st) i)
    as Hrec.
  { intros i r. destruct HA as [[_ EV]|[_ EV]].
    - by rewrite (get_tx_versions_eq _ (manager st)) by (by rewrite EV).
    - destruct (decide (i = id)) as [->|Hne].
      + rewrite get_tx_versions_none by (rewrite EV; apply lookup_delete_eq). set_solver.
      + by rewrite (get_tx_versions_eq _ (manager st)) by (by rewrite EV, lookup_delete_ne). }
  assert (touches id (store st) (store st')) as T
    by (destruct HS as [->|[_ T]]; [apply touches_refl|done]).
  split; rewrite ?EC; try done.
  - intros x Hx. by apply Ia, Hsub.
  - intros r h E. destruct (T r) as [E'|(h1 & h2 & A & B & C & D & N)].
    + rewrite E' in E. by apply Icr with r.
    + rewrite B in E. injection E as <-. destruct D as [D|D]; [|by left].
      destruct (Icr _ _ A) as [NN|R]; [left; by apply N|].
      destruct C as [C|C]; [|left; by apply N]. right. by rewrite D, <- C.
  - intros i Hi. destruct HA as [[EA EV]|[EA EV]]; rewrite EV.
    + apply Ir. by rewrite <- EA.
    + destruct (decide (i = id)) as [->|Hne]; [apply lookup_delete_eq|].
      rewrite lookup_delete_ne by done. apply Ir. set_solver.
  - intros i r Hr. eapply touches_recorded; [done|]. by apply Io, Hrec.
Qed.

Lemma wrap64_small z : 0 <= z <= u64_max -> wrap64 z = z.
Proof. unfold_ints. intros. apply Z.mod_small. lia. Qed.

(** The manager after [begin]. *)
Lemma begin_state m :
  0 <= tx_id_allocator m < u64_max ->
  let m' := (begin m).2 in let id := tx_id_allocator m + 1 in
  tx_id_allocator m' = id /\ active_tx_ids m' = {[id]} ∪ active_tx_ids m
  /\ tx_versions m' = tx_versions m.
Proof.
  intros H. cbn. rewrite wrap64_small by lia. done.
Qed.

Lemma begin_inv m vs :
  tx_id_allocator m < u64_max -> inv (mkSys m vs) -> inv (mkSys (begin m).2 vs).
Proof.
  intros Hc [Ic Ia Icr Ir Io]. cbn [manager store] in *.
  destruct (begin_state m) as (EC & EA & EV); [lia|].
  split; cbn [manager store]; rewrite ?EC, ?EA, ?EV.
  - lia.
  - intros id [->%elem_of_singleton|H%Ia]%elem_of_union; lia.
  - intros r h [N|R]%Icr; [by left|]. right. lia.
  - intros id Hid. apply Ir. set_solver.
  - intros id r. rewrite (get_tx_versions_eq _ m) by (by rewrite EV). apply Io.
Qed.

Lemma elem_of_record m id table r id' r' :
  r' ∈ get_tx_versions (record_version m id table r) id' ->
  (id' = id /\ r' = r) \/ r' ∈ get_tx_versions m id'.
Proof.
  intros (n & rows & H & Hr)%elem_of_tx_versions. cbn [record_version set_versions tx_versions] in H.
  destruct (decide (id = id')) as [<-|Hne].
  - rewrite lookup_insert_eq, default_Some in H.
    destruct (decide (table = n)) as [<-|Hn].
    + rewrite lookup_insert_eq in H. injection H as <-.
      apply elem_of_union in Hr as [->%elem_of_singleton|Hr]; [by left|right].
      apply elem_of_tx_versions. destruct (default ∅ (tx_versions m !! id) !! table) as [rs|] eqn:E;
        [eauto|]. rewrite default_None in Hr. set_solver.
    + rewrite lookup_insert_ne in H by done. right. apply elem_of_tx_versions. eauto.
  - rewrite lookup_insert_ne in H by done. right. apply elem_of_tx_versions. eauto.
Qed.

Lemma write_inv m vs id table r h :
  id ∈ active_tx_ids m -> vs !! r = None -> VersionHeader.create_tx_id h = id ->
  inv (mkSys m vs) -> inv (mkSys (record_version m id table r) (<[r := h]> vs)).
Proof.
  intros Ha Er Eh [Ic Ia Icr Ir Io]. cbn [manager store] in *. split; cbn [manager store].
  - done.
  - done.
  - intros r' h'. destruct (decide (r = r')) as [<-|Hne].
    + rewrite lookup_insert_eq. intros [= <-]. right. rewrite Eh. by apply Ia.
    + rewrite lookup_insert_ne by done. apply Icr.
  - intros id' Hid'. cbn [record_version set_versions tx_versions].
    destruct (decide (id = id')) as [<-|Hne]; [done|]. rewrite lookup_insert_ne by done. by apply Ir.
  - intros id' r' [[-> ->]|Hr]%elem_of_record.
    + exists h. rewrite lookup_insert_eq. split; [done|by left].
    + apply Io in Hr as (h' & E & M). exists h'. split; [|done].
      rewrite lookup_insert_ne; [done|]. intros <-. by rewrite Er in E.
Qed.

Lemma foldl_delete_sub (names : list TableName) (e : gmap TableName (gset RowId)) n rows :
  foldl (fun e n => delete n e) e names !! n = Some rows -> e !! n = Some rows.
Proof.
  revert e. induction names as [|x names IH]; intros e; [done|]. cbn. intros H%IH.
  by apply lookup_delete_Some in H as [_ H].
Qed.

Lemma discard_inv m vs id names :
  inv (mkSys m vs) -> inv (mkSys (discard_tx_version_tables m id names) vs).
Proof.
  intros I. unfold discard_tx_version_tables. destruct (tx_versions m !! id) as [entry|] eqn:E; [|done].
  set (entry' := foldl _ entry names).
  set (tv := if bool_decide (entry' = ∅) then delete id (tx_versions m)
             else <[id := entry']> (tx_versions m)).
  assert (forall i, i <> id -> tv !! i = tx_versions m !! i) as Hne.
  { intros i Hi. unfold tv. case_bool_decide;
      [by rewrite lookup_delete_ne|by rewrite lookup_insert_ne]. }
  destruct I as [Ic Ia Icr Ir Io]. cbn [manager store] in *.
  split; cbn [manager store set_versions tx_id_allocator active_tx_ids tx_versions]; try done.
  - intros i Hi. destruct (decide (i = id)) as [->|Hn]; [|rewrite Hne by done; by apply Ir].
    rewrite Ir in E by done. done.
  - intros i r Hr. apply Io. apply elem_of_tx_versions in Hr as (n & rows & H & Hr).
    cbn [set_versions tx_versions] in H.
    apply elem_of_tx_versions. destruct (decide (i = id)) as [->|Hn].
    + exists n, rows. split; [|done]. rewrite E, default_Some. unfold tv in H. case_bool_decide.
      * rewrite lookup_delete_eq, default_None in H. by rewrite lookup_empty in H.
      * rewrite lookup_insert_eq, default_Some in H. by apply foldl_delete_sub in H.
    + rewrite Hne in H by done. eauto.
Qed.

Lemma step_inv st st' : step st st' -> inv st -> inv st'.
Proof.
  destruct 1 as [| | | |]; intros I.
  - by apply begin_inv.
  - by apply write_inv.
  - eapply settles_inv; [done|]. by eapply commit_settles.
  - eapply settles_inv; [done|]. by eapply abort_settles.
  - by apply discard_inv.
Qed.

(** Every transaction active now was active when [s] was taken, or began
    later. *)
Definition covers (s : Snapshot.snapshot) (st : Sys) : Prop :=
  Snapshot.high_water s <= tx_id_allocator (manager st)
  /\ forall id, id ∈ active_tx_ids (manager st) ->
       id ∈ Snapshot.active_tx_ids s \/ Snapshot.high_water s < id.

Lemma mine_hidden s id h :
  (id ∈ Snapshot.active_tx_ids s \/ Snapshot.high_water s < id) -> mine id h ->
  row_visible s h = false.
Proof.
  intros Hid [E|[_ D]]; unfold row_visible; [|by rewrite D].
  apply andb_false_iff. right. destruct (Snapshot.is_visible _ _ _) eqn:V; [|done].
  apply SnapshotFacts.is_visible_iff in V as (_ & Hle & Hna). rewrite E in *.
  destruct Hid; [done|lia].
Qed.

Lemma settles_shown s id st st' :
  covers s st -> settles id st st' ->
  covers s st' /\ forall r, shown s (store st') r = shown s (store st) r.
Proof.
  intros [Hw Hc] (EC & HA & HS). split.
  - split; [by rewrite EC|]. intros x Hx. apply Hc.
    destruct HA as [[EA _]|[EA _]]; rewrite EA in Hx; set_solver.
  - intros r. destruct HS as [->|[Ha T]]; [done|]. unfold shown.
    destruct (T r) as [->|(h & h' & -> & -> & M & M' & _)]; [done|].
    by rewrite !(mine_hidden s id) by auto.
Qed.

Lemma step_shown s st st' :
  inv st -> step st st' -> covers s st ->
  covers s st' /\ forall r, shown s (store st') r = shown s (store st) r.
Proof.
  intros I H Hcov. destruct H as [m vs Hlt|m vs id table r h Ha Er Eh| | |m vs id names].
  - destruct Hcov as [Hw Hc]. destruct (begin_state m) as (EC & EA & _);
      [pose proof (inv_counter _ I) as Ic; cbn in Ic; lia|].
    split; [|done]. cbn [manager] in *. split; cbn [manager]; rewrite ?EC, ?EA; [lia|].
    intros x [->%elem_of_singleton|Hx]%elem_of_union; [right; lia|by apply Hc].
  - split; [done|]. intros r'. unfold shown. cbn [store].
    destruct (decide (r = r')) as [<-|Hne]; [|by rewrite lookup_insert_ne].
    rewrite lookup_insert_eq, Er. apply (mine_hidden s id); [by apply Hcov|by left].
  - eapply settles_shown; [done|]. by eapply commit_settles.
  - eapply settles_shown; [done|]. by eapply abort_settles.
  - split; [|done]. unfold discard_tx_version_tables. by case_match.
Qed.

(** The statement snapshot of read committed, taken in one step. *)
Definition rc_view (st : Sys) (reader : option Z) : Snapshot.snapshot :=
  Snapshot.statement_view (current_tx_id (manager st)) (default 0 reader)
    (active_transactions (manager st)).

Lemma rc_view_covers st reader : covers (rc_view st reader) st.
Proof.
  split; [done|]. intros id Hid. left.
  cbn [rc_view Snapshot.statement_view Snapshot.active_tx_ids].
  rewrite elem_of_list_to_set. unfold active_transactions. by apply elem_of_elements.
Qed.


(** A concrete run: transaction 1 begins and writes row (3, 0), then commits. *)
Definition run_row : RowId := mk_row_id 3 0.
Definition run_tm1 : TM := (begin tm_new).2.
Definition run_tm2 : TM := record_version run_tm1 1 [] run_row.
Definition run_store : Versions := {[ run_row := VersionHeader.vh_new 1 None ]}.
Definition run_commit := commit run_tm2 run_store (begin tm_new).1 0 true.


(** with [begin] interleaved as the code runs it, that fails.  A
    transaction allocates its id; before it has entered the active set, a
    statement takes its snapshot, whose high-water mark already covers the
    id.  The transaction then writes a row and commits: the one snapshot that
    did not show the row before the commit shows it afterwards. *)
Theorem begin_window_breaks_snapshot :
  let (id, m1) := begin_alloc tm_new in
  let snapshot := statement_snapshot m1 ReadCommitted None in
  let m2 := begin_insert m1 id in
  let m3 := record_version m2 id [] run_row in
  let tx := mkTx id (Snapshot.snapshot_new id (begin_read m1)) Active in
  let store := {[ run_row := VersionHeader.vh_new id None ]} in
  exists s m4 store',
    snapshot = Some s /\ commit m3 store tx 0 true = (None, m4, store')
    /\ shown s store run_row = false /\ shown s store' run_row = true.
Proof. eexists _, _, _. split_and!; vm_compute; reflexivity. Qed.

(** A commit whose log write fails leaves the transaction in the active set
    with its recorded versions, although the session has already dropped its
    handle and reports no open transaction. *)
Theorem failed_commit_stays_active m vs tx ts w sess :
  wal_buffer m = Some w -> tx_id tx ∈ active_tx_ids m ->
  Session.session_tx sess = Some tx ->
  let '(e, m', vs') := commit m vs tx ts false in
  let '(err, sess') := Session.session_commit sess (fun _ => bool_decide (e = None)) in
  e = Some WalFailed /\ vs' = vs
  /\ tx_id tx ∈ active_tx_ids m' /\ tx_versions m' = tx_versions m
  /\ err = Some Session.DbError /\ Session.is_active sess' = false.
Proof.
  intros Hw Ha Hs. unfold commit, wal_append. cbn [wal_buffer]. rewrite Hw. cbn.
  unfold Session.session_commit. rewrite Hs. cbn. split_and!; done.
Qed.

Lemma failed_commit_stays_active_witness :
  let m := set_wal_buffer (begin tm_new).2 [] in
  let tx := (begin tm_new).1 in
  let '(e, m', vs') := commit m ∅ tx 7 false in
  let '(err, sess') := Session.session_commit (Session.mkSession (Some tx))
                         (fun _ => bool_decide (e = None)) in
  e = Some WalFailed /\ vs' = ∅
  /\ tx_id tx ∈ active_tx_ids m' /\ tx_versions m' = tx_versions m
  /\ err = Some Session.DbError /\ Session.is_active sess' = false.
Proof.
  apply (failed_commit_stays_active (set_wal_buffer (begin tm_new).2 []) ∅ (begin tm_new).1 7 []
           (Session.mkSession (Some (begin tm_new).1))).
  - reflexivity.
  - apply elem_of_elements. vm_compute. left.
  - reflexivity.
Defined.

End Isolation.

(** *** Row locks *)

Module LockFacts.
Import RowLock.

(** Any number of callers of [get_lock]: a caller answers from the shared
    lookup, or, having missed there, from the exclusive one at any later
    time.  The log records which lock each call returned. *)
Inductive lock_step : LockTable * list (RowId * nat) -> LockTable * list (RowId * nat) -> Prop :=
| lock_step_read t log r l : lock_read t r = Some l -> lock_step (t, log) (t, (r, l) :: log)
| lock_step_write t log r : lock_step (t, log) ((lock_write t r).2, (r, (lock_write t r).1) :: log).

Definition lock_inv (st : LockTable * list (RowId * nat)) : Prop :=
  (forall r l, locks st.1 !! r = Some l -> (l < next_lock st.1)%nat)
  /\ (forall r1 r2 l, locks st.1 !! r1 = Some l -> locks st.1 !! r2 = Some l -> r1 = r2)
  /\ (forall r l, (r, l) ∈ st.2 -> locks st.1 !! r = Some l).

Lemma lock_step_inv st st' : lock_step st st' -> lock_inv st -> lock_inv st'.
Proof.
  destruct 1 as [t log r l H|t log r]; intros (I1 & I2 & I3); cbn [fst snd] in *.
  - split_and!; [done..|]. cbn. intros r' l' [[= -> ->]|Hin]%elem_of_cons; [done|by apply I3].
  - unfold lock_write. destruct (locks t !! r) as [l|] eqn:E.
    + split_and!; [done..|]. cbn. intros r' l' [[= -> ->]|Hin]%elem_of_cons; [done|by apply I3].
    + split_and!; cbn [fst snd locks next_lock].
      * intros r' l'. destruct (decide (r = r')) as [<-|Hne].
        -- rewrite lookup_insert_eq. intros [= <-]. lia.
        -- rewrite lookup_insert_ne by done. intros H%I1. lia.
      * intros r1 r2 l. destruct (decide (r = r1)) as [<-|H1], (decide (r = r2)) as [<-|H2];
          rewrite ?lookup_insert_eq, ?lookup_insert_ne by done; try done.
        -- intros [= <-] H%I1. lia.
        -- intros H%I1 [= <-]. lia.
        -- apply I2.
      * intros r' l' [[= -> ->]|Hin]%elem_of_cons; [by rewrite lookup_insert_eq|].
        rewrite lookup_insert_ne; [by apply I3|]. intros <-. apply I3 in Hin. by rewrite E in Hin.
Qed.

(** under every interleaving of callers, all calls for one row return the
    one lock, and calls for different rows return different locks. *)
Theorem row_locks_unique t log r1 r2 l1 l2 :
  rtc lock_step (locks_new, []) (t, log) ->
  (r1, l1) ∈ log -> (r2, l2) ∈ log -> (l1 = l2 <-> r1 = r2).
Proof.
  intros H.
  assert (lock_inv (t, log)) as (I1 & I2 & I3).
  { assert (lock_inv (locks_new, [])) as I0.
    { split_and!; cbn; intros *; rewrite ?lookup_empty; try done. by intros ?%elem_of_nil. }
    revert I0. induction H; eauto using lock_step_inv. }
  cbn [fst snd] in *. intros A%I3 B%I3. split.
  - intros ->. by apply (I2 r1 r2 l2).
  - intros ->. rewrite A in B. by injection B.
Qed.

Lemma row_locks_unique_witness : (0%nat = 1%nat <-> mk_row_id 1 0 = mk_row_id 2 0).
Proof.
  eapply (row_locks_unique _ [(mk_row_id 2 0, 1%nat); (mk_row_id 1 0, 0%nat)]).
  - eapply rtc_l; [apply (lock_step_write _ _ (mk_row_id 1 0))|].
    eapply rtc_l; [apply (lock_step_write _ _ (mk_row_id 2 0))|]. apply rtc_refl.
  - right. left.
  - left.
Defined.

End LockFacts.
