(* ===== verification/Overflow.v ===== *)
(** * Overflow chains

    [src/storage/page_format/overflow.rs]: rows too large for a data page slot
    live in a chain of overflow pages; the slot holds a nine-byte locator.

    The buffer pool is a map from page id to page image ([Pool]); page
    allocation takes its answers from a list ([supply], an empty list being an
    I/O error), and [freed] records the released pages. *)

From Stdlib Require Import ZArith Strings.Byte Lia.
From stdpp Require Import base tactics list numbers gmap.
From S2P Require Import Prelude RowKey PageLayout Values Tuple.

Definition LOCATOR_TAG : byte := Byte.xff.
Definition LOCATOR_SIZE : Z := 9.
Definition OVERFLOW_PAGE_TYPE : byte := Byte.x04.
Definition OVERFLOW_PAYLOAD_MAX : Z := PAGE_SIZE - HEADER_SIZE.
Definition INLINE_SLOT_MAX : Z := PAGE_SIZE - HEADER_SIZE - SLOT_SIZE.

Inductive OverflowError :=
| ChunkTooLarge (len : Z)
| NotOverflowPage (page_id : Z)
| PayloadBound (page_id len : Z)
| FirstPageZero
| ChainTooLong (first_page total_len : Z)
| LengthDisagrees (first_page got total_len : Z)
| Cyclic (page_id : Z)
| AllocFailed
| PageMissing (page_id : Z).

(** ** Locators and chunks *)

Definition encode_locator (total_len first_page : Z) : list byte :=
  [LOCATOR_TAG] ++ le_bytes 4 total_len ++ le_bytes 4 first_page.

Definition starts_with_tag (data : list byte) : bool :=
  match data with b :: _ => bool_decide (b = LOCATOR_TAG) | [] => false end.

Definition decode_locator (data : list byte) : option (Z * Z) :=
  if (zlen data <? LOCATOR_SIZE) || negb (starts_with_tag data) then None
  else Some (le_val (slice data 1 5), le_val (slice data 5 9)).

Definition is_overflow_ref (tuple_bytes : list byte) : bool :=
  (LOCATOR_SIZE <=? zlen tuple_bytes) && starts_with_tag tuple_bytes.

Definition chunk_plan (total_len : Z) : list Z :=
  if total_len =? 0 then []
  else
    let full_pages := total_len / OVERFLOW_PAYLOAD_MAX in
    let remainder := total_len mod OVERFLOW_PAYLOAD_MAX in
    replicate (Z.to_nat full_pages) OVERFLOW_PAYLOAD_MAX
    ++ (if 0 <? remainder then [remainder] else []).

(** ** Overflow pages *)

Definition build_overflow_page (payload : list byte) (next_page : Z)
    : exec OverflowError (list byte) :=
  if OVERFLOW_PAYLOAD_MAX <? zlen payload then Err (ChunkTooLarge (zlen payload))
  else
    let h := header_new OVERFLOW_PAGE_TYPE in
    let h := mk_header (page_type h) (slot_count h) (wrap16 (zlen payload)) next_page
               (next_logical_id h) (padding h) in
    let? pg := write_header page_zeroed h in
    splice_set pg HEADER_SIZE payload.

Definition parse_overflow_page (page_id : Z) (data : list byte)
    : exec OverflowError (Z * list byte) :=
  let? hb := slice_get data 0 HEADER_SIZE in
  let? h := header_deserialize hb in
  if negb (bool_decide (page_type h = OVERFLOW_PAGE_TYPE)) then Err (NotOverflowPage page_id)
  else
    let payload_len := free_space_offset h in
    if OVERFLOW_PAYLOAD_MAX <? payload_len then Err (PayloadBound page_id payload_len)
    else
      let? payload := slice_get data HEADER_SIZE (HEADER_SIZE + payload_len) in
      Ok (next_page_id h, payload).

(** ** Chains *)

Record Pool := mk_pool {
  pool_pages : gmap Z (list byte); supply : list Z; freed : list Z }.

Definition allocate_page (p : Pool) : option (Z * Pool) :=
  match supply p with
  | [] => None
  | id :: rest => Some (id, mk_pool (<[id := page_zeroed]> (pool_pages p)) rest (freed p))
  end.

Definition free_page (p : Pool) (id : Z) : Pool :=
  mk_pool (delete id (pool_pages p)) (supply p) (id :: freed p).

(** [get_page] and [modify_page(|p| *p = page)]. *)
Definition put_page (p : Pool) (id : Z) (img : list byte) : option Pool :=
  match pool_pages p !! id with
  | None => None
  | Some _ => Some (mk_pool (<[id := img]> (pool_pages p)) (supply p) (freed p))
  end.

(** The allocation loop: the ids allocated so far are kept on failure too. *)
Fixpoint alloc_chunks (p : Pool) (chunks : list Z) (allocated : list Z)
    : option OverflowError * list Z * Pool :=
  match chunks with
  | [] => (None, allocated, p)
  | _ :: chunks =>
      match allocate_page p with
      | None => (Some AllocFailed, allocated, p)
      | Some (id, p) => alloc_chunks p chunks (allocated ++ [wrap32 id])
      end
  end.

(** The writing loop over [allocated]; [next] is the id of the following page,
    0 after the last. *)
Fixpoint write_chunks (p : Pool) (data : list byte) (allocated : list Z) (chunks : list Z)
    (offset : Z) : exec OverflowError unit * Pool :=
  match allocated, chunks with
  | id :: allocated, chunk_len :: chunks =>
      let next := hd 0 allocated in
      match
        let? chunk := slice_get data offset (offset + chunk_len) in
        build_overflow_page chunk next
      with
      | Err e => (Err e, p)
      | Panic => (Panic, p)
      | Ok img =>
          match put_page p id img with
          | None => (Err (PageMissing id), p)
          | Some p => write_chunks p data allocated chunks (offset + chunk_len)
          end
      end
  | id :: _, [] => (Panic, p)
  | [], _ => (Ok tt, p)
  end.

Definition write_overflow_chain (p : Pool) (data : list byte) : exec OverflowError Z * Pool :=
  let chunks := chunk_plan (zlen data) in
  match chunks with
  | [] => (Ok 0, p)
  | _ =>
      match alloc_chunks p chunks [] with
      | (Some e, allocated, p) => (Err e, foldl free_page p allocated)
      | (None, allocated, p) =>
          match write_chunks p data allocated chunks 0 with
          | (Ok tt, p) => (index_get allocated 0, p)
          | (Err e, p) => (Err e, foldl free_page p allocated)
          | (Panic, p) => (Panic, p)
          end
      end
  end.

(** The walk of [read_overflow_chain]; [budget] is [max_pages - visited]. *)
Fixpoint read_chain (pages : gmap Z (list byte)) (first total : Z) (budget : nat) (id : Z)
    (out : list byte) : exec OverflowError (list byte) :=
  match budget with
  | O => Err (ChainTooLong first total)
  | S budget =>
      match pages !! id with
      | None => Err (PageMissing id)
      | Some data =>
          let? (next, chunk) := parse_overflow_page id data in
          let out := out ++ chunk in
          if next =? 0 then Ok out else read_chain pages first total budget next out
      end
  end.

Definition read_overflow_chain (pages : gmap Z (list byte)) (first_page total_len : Z)
    : exec OverflowError (list byte) :=
  if first_page =? 0 then
    if total_len =? 0 then Ok [] else Err FirstPageZero
  else
    let max_pages := total_len / OVERFLOW_PAYLOAD_MAX + 1 in
    let? out := read_chain pages first_page total_len (Z.to_nat max_pages) first_page [] in
    if negb (zlen out =? total_len) then Err (LengthDisagrees first_page (zlen out) total_len)
    else Ok out.

(** The walk of [collect_overflow_pages]; it visits no page twice, so the
    number of pages in the pool plus one is enough fuel. *)
Fixpoint collect_chain (pages : gmap Z (list byte)) (fuel : nat) (id : Z) (seen : list Z)
    : exec OverflowError (list Z) :=
  match fuel with
  | O => Err (Cyclic id)
  | S fuel =>
      if bool_decide (id ∈ seen) then Err (Cyclic id)
      else
        let seen := seen ++ [id] in
        match pages !! id with
        | None => Err (PageMissing id)
        | Some data =>
            let? (next, _) := parse_overflow_page id data in
            if next =? 0 then Ok seen else collect_chain pages fuel next seen
        end
  end.

Definition collect_overflow_pages (pages : gmap Z (list byte)) (first_page : Z)
    : exec OverflowError (list Z) :=
  if first_page =? 0 then Ok []
  else collect_chain pages (S (size pages)) first_page [].

Definition free_overflow_chain (p : Pool) (first_page : Z) : exec OverflowError Pool :=
  let? pages := collect_overflow_pages (pool_pages p) first_page in
  Ok (foldl free_page p pages).

Inductive TupleRef :=
| Inline (bytes : list byte)
| OverflowRef (total_len first_page : Z).

Definition from_slot_tuple (tuple_bytes : list byte) : TupleRef :=
  match decode_locator tuple_bytes with
  | Some (total_len, first_page) => OverflowRef total_len first_page
  | None => Inline tuple_bytes
  end.

Definition resolve (pages : gmap Z (list byte)) (t : TupleRef) : exec OverflowError (list byte) :=
  match t with
  | Inline bytes => Ok bytes
  | OverflowRef total_len first_page => read_overflow_chain pages first_page total_len
  end.

(** ** Theorems *)

Ltac ovf_consts := unfold OVERFLOW_PAYLOAD_MAX, LOCATOR_SIZE in *; page_consts.

Definition sum_z (l : list Z) : Z := foldr Z.add 0 l.

Lemma sum_z_app l k : sum_z (l ++ k) = sum_z l + sum_z k.
Proof. induction l as [|x l IH]; [done|]. cbn [sum_z foldr app] in *. unfold sum_z in *. lia. Qed.

Lemma sum_z_replicate n c : sum_z (replicate n c) = Z.of_nat n * c.
Proof. induction n as [|n IH]; [done|]. cbn [replicate sum_z foldr]. unfold sum_z in IH. lia. Qed.

(** The plan covers the payload exactly, in legal chunks, within the page
    count that the reader allows. *)
Lemma chunk_plan_spec n :
  0 <= n ->
  sum_z (chunk_plan n) = n
  /\ Forall (fun c => 0 < c <= OVERFLOW_PAYLOAD_MAX) (chunk_plan n)
  /\ Z.of_nat (length (chunk_plan n)) <= n / OVERFLOW_PAYLOAD_MAX + 1.
Proof.
  intros Hn. unfold chunk_plan. destruct (Z.eqb_spec n 0) as [->|Hz].
  { split_and!; [done|apply Forall_nil_2|done]. }
  ovf_consts. change (4096 - 16) with 4080.
  pose proof (Z.div_mod n 4080 ltac:(lia)). pose proof (Z.mod_pos_bound n 4080 ltac:(lia)).
  pose proof (Z.div_pos n 4080 ltac:(lia) ltac:(lia)).
  split_and!.
  - rewrite sum_z_app, sum_z_replicate. destruct (Z.ltb_spec 0 (n mod 4080)); cbn; lia.
  - apply Forall_app. split; [apply Forall_replicate; lia|].
    destruct (Z.ltb_spec 0 (n mod 4080)); [|apply Forall_nil_2].
    apply Forall_singleton. lia.
  - rewrite length_app, length_replicate. destruct (Z.ltb_spec 0 (n mod 4080)); cbn; lia.
Qed.

Lemma chunk_plan_nonempty n : 0 < n -> chunk_plan n <> [].
Proof.
  intros Hn E. destruct (chunk_plan_spec n) as (H & _); [lia|]. rewrite E in H. cbn in H. lia.
Qed.

(** *** Pages *)

Lemma build_overflow_ok payload next :
  zlen payload <= OVERFLOW_PAYLOAD_MAX -> in_u32 next ->
  exists img, build_overflow_page payload next = Ok img
    /\ forall id, parse_overflow_page id img = Ok (next, payload).
Proof.
  ovf_consts. change (4096 - 16) with 4080. intros HL HN. pose proof (zlen_nonneg payload).
  set (h := mk_header OVERFLOW_PAGE_TYPE 0 (wrap16 (zlen payload)) next 0 (replicate 3 Byte.x00)).
  assert (wrap16 (zlen payload) = zlen payload) as HW16
    by (unfold wrap16; apply Z.mod_small; lia).
  assert (header_wf h) as HW by (split; cbn; rewrite ?HW16; try done; word_lia).
  pose proof (zlen_header_bytes h HW) as HB.
  unfold build_overflow_page. ovf_consts. change (4096 - 16) with 4080.
  rewrite (proj2 (Z.ltb_ge _ _)) by lia. cbn [header_new page_type slot_count next_logical_id padding].
  fold h. rewrite write_header_ok, exec_bind_ret by (done || (vm_compute; discriminate)).
  assert (zlen (splice page_zeroed 0 (header_bytes h)) = 4096) as HZ
    by (rewrite zlen_splice; [done|lia|rewrite HB; vm_compute; discriminate]).
  rewrite splice_set_ok by lia. eexists. split; [done|]. intros id.
  unfold parse_overflow_page. ovf_consts.
  set (pg := splice page_zeroed 0 (header_bytes h)) in *.
  assert (zlen (splice pg 16 payload) = 4096) as HZ2 by (rewrite zlen_splice; lia).
  rewrite slice_get_ok, exec_bind_ret by lia.
  rewrite slice_splice_before by lia.
  rewrite header_deserialize_ok, exec_bind_ret by (rewrite zlen_slice; lia).
  rewrite header_at_window by lia. unfold pg. rewrite header_at_splice by done. fold pg.
  cbn [h page_type free_space_offset next_page_id]. rewrite bool_decide_eq_true_2 by done.
  cbn [negb]. rewrite HW16. change (4096 - 16) with 4080.
  rewrite (proj2 (Z.ltb_ge _ _)) by lia.
  rewrite slice_get_ok, exec_bind_ret by lia. by rewrite slice_splice_same by lia.
Qed.

(** *** Chains in the pool *)

Fixpoint chain (pages : gmap Z (list byte)) (ids : list Z) (chunks : list (list byte)) : Prop :=
  match ids, chunks with
  | [], [] => True
  | id :: ids, c :: chunks =>
      (exists img, pages !! id = Some img /\ forall i, parse_overflow_page i img = Ok (hd 0 ids, c))
      /\ chain pages ids chunks
  | _, _ => False
  end.

Lemma chain_length pages ids cs : chain pages ids cs -> length ids = length cs.
Proof. revert cs. induction ids as [|i ids IH]; intros [|c cs]; cbn; try done. intros [_ H]. by rewrite (IH cs). Qed.

Lemma read_chain_ok pages f t ids id cs budget out :
  chain pages (id :: ids) cs -> Forall (fun i => i <> 0) ids -> (length cs <= budget)%nat ->
  read_chain pages f t budget id out = Ok (out ++ concat cs).
Proof.
  revert ids id cs out. induction budget as [|budget IH]; intros ids id cs out H HN HB.
  { apply chain_length in H. cbn in H. lia. }
  destruct cs as [|c cs]; [done|]. destruct H as [(img & E & P) H].
  cbn [read_chain]. rewrite E, P, exec_bind_ret. cbv beta iota.
  destruct ids as [|i ids]; cbn [hd].
  - destruct cs; [|done]. cbn. by rewrite app_nil_r.
  - apply Forall_cons in HN as [Hi HN]. rewrite (proj2 (Z.eqb_neq _ _)) by done.
    rewrite (IH ids i cs) by (done || (cbn in HB; lia)). cbn. by rewrite app_assoc.
Qed.

(** The writing loop lays the chain out and touches no other page. *)
Lemma write_chunks_ok data ids lens p off :
  NoDup ids -> length ids = length lens ->
  Forall (fun c => 0 < c <= OVERFLOW_PAYLOAD_MAX) lens ->
  Forall (fun i => in_u32 i) ids ->
  (forall i, i ∈ ids -> is_Some (pool_pages p !! i)) ->
  0 <= off -> off + sum_z lens = zlen data ->
  exists p' cs, write_chunks p data ids lens off = (Ok tt, p')
    /\ chain (pool_pages p') ids cs /\ concat cs = slice data off (zlen data)
    /\ (forall i, i ∉ ids -> pool_pages p' !! i = pool_pages p !! i)
    /\ supply p' = supply p /\ freed p' = freed p.
Proof.
  revert lens p off. induction ids as [|id ids IH]; intros [|len lens] p off; try done.
  - intros _ _ _ _ _ Hoff Hsum. exists p, []. split_and!; try done.
    cbn in *. unfold slice. rewrite Z.add_0_r in Hsum. rewrite <- Hsum, Z.sub_diag. done.
  - intros [Hid ND]%NoDup_cons [= HL] [Hlen HF]%Forall_cons [Hu HU]%Forall_cons HS Hoff Hsum.
    cbn [sum_z foldr] in Hsum. fold (sum_z lens) in Hsum.
    assert (0 <= sum_z lens) as Hpos.
    { clear -HF. induction HF; cbn; [lia|]. unfold sum_z in *. lia. }
    cbn [write_chunks]. rewrite slice_get_ok, exec_bind_ret by lia.
    assert (in_u32 (hd 0 ids)) as Hnext
      by (destruct HU; cbn; [word_lia|done]).
    destruct (build_overflow_ok (slice data off (off + len)) (hd 0 ids)) as (img & -> & HP);
      [rewrite zlen_slice; lia|done|].
    unfold put_page. destruct (HS id) as [old ->]; [by left|].
    destruct (IH lens (mk_pool (<[id := img]> (pool_pages p)) (supply p) (freed p)) (off + len))
      as (p' & cs & -> & HC & HD & HO & HSu & HFr); try done; try lia.
    { intros i Hi. cbn [pool_pages]. destruct (decide (id = i)) as [<-|Hne];
        [by rewrite lookup_insert_eq|]. rewrite lookup_insert_ne by done. apply HS. by right. }
    exists p', (slice data off (off + len) :: cs). split_and!; try done.
    + split; [|done]. exists img. rewrite HO by done. cbn [pool_pages].
      by rewrite lookup_insert_eq.
    + cbn [concat]. rewrite HD. symmetry. apply slice_app_split; lia.
    + intros i [Hne Hi]%not_elem_of_cons. rewrite HO by done. cbn [pool_pages].
      by rewrite lookup_insert_ne.
Qed.

Lemma alloc_chunks_spec chunks p acc :
  Forall in_u32 (supply p) ->
  let n := length chunks in
  if decide (n <= length (supply p))%nat
  then exists p', alloc_chunks p chunks acc = (None, acc ++ take n (supply p), p')
    /\ supply p' = drop n (supply p) /\ freed p' = freed p
    /\ (forall i, i ∈ take n (supply p) -> is_Some (pool_pages p' !! i))
    /\ (forall i, i ∉ take n (supply p) -> pool_pages p' !! i = pool_pages p !! i)
  else exists p', alloc_chunks p chunks acc = (Some AllocFailed, acc ++ supply p, p')
    /\ (forall i, i ∉ supply p -> pool_pages p' !! i = pool_pages p !! i).
Proof.
  revert p acc. induction chunks as [|c chunks IH]; intros p acc HU; cbn [length alloc_chunks].
  - rewrite decide_True by lia. exists p. rewrite take_0, drop_0, app_nil_r.
    split_and!; try done. by intros i ?%elem_of_nil.
  - unfold allocate_page. destruct (supply p) as [|id rest] eqn:ES; cbn [length].
    { rewrite decide_False by lia. exists p. by rewrite app_nil_r. }
    apply Forall_cons in HU as [Hid HU].
    assert (wrap32 id = id) as HW by (unfold wrap32; apply Z.mod_small; word_lia).
    specialize (IH (mk_pool (<[id := page_zeroed]> (pool_pages p)) rest (freed p))
                  (acc ++ [wrap32 id]) HU). cbn [supply pool_pages freed] in IH.
    destruct (decide (length chunks <= length rest)%nat) as [Hle|Hgt].
    + rewrite decide_True by lia. destruct IH as (p' & -> & HS & HF & HI & HO).
      exists p'. cbn [take drop]. rewrite HW, <- app_assoc. split_and!; try done.
      * intros i [->|Hi]%elem_of_cons; [|by apply HI].
        destruct (decide (id ∈ take (length chunks) rest)) as [Hin|Hin]; [by apply HI|].
        rewrite HO by done. by rewrite lookup_insert_eq.
      * intros i [Hne Hi]%not_elem_of_cons. rewrite HO by done. by rewrite lookup_insert_ne.
    + rewrite decide_False by lia. destruct IH as (p' & -> & HO).
      exists p'. rewrite HW, <- app_assoc. split; [done|].
      intros i [Hne Hi]%not_elem_of_cons. rewrite HO by done. by rewrite lookup_insert_ne.
Qed.

Lemma foldl_free_lookup ids p i :
  pool_pages (foldl free_page p ids) !! i =
  if decide (i ∈ ids) then None else pool_pages p !! i.
Proof.
  revert p. induction ids as [|x ids IH]; intros p; cbn [foldl].
  - rewrite decide_False; [done|]. by intros ?%elem_of_nil.
  - rewrite IH. cbn [free_page pool_pages]. destruct (decide (i = x)) as [->|Hne].
    + rewrite lookup_delete_eq, (decide_True (P := x ∈ x :: ids)) by (by left). by case_match.
    + rewrite lookup_delete_ne by done. repeat case_decide; try done; exfalso; set_solver.
Qed.

(** A page supply the storage can give: distinct, non-zero 32-bit ids of pages
    not in use. *)
Record supply_ok (p : Pool) : Prop := {
  sup_nodup : NoDup (supply p);
  sup_u32 : Forall in_u32 (supply p);
  sup_nonzero : Forall (fun i => i <> 0) (supply p);
  sup_fresh : forall i, i ∈ supply p -> pool_pages p !! i = None }.

(** The successful case, with the chain it leaves behind. *)
Lemma write_chain_success p data :
  supply_ok p -> 0 < zlen data ->
  (length (chunk_plan (zlen data)) <= length (supply p))%nat ->
  exists i0 ids cs p',
    write_overflow_chain p data = (Ok i0, p')
    /\ i0 :: ids = take (length (chunk_plan (zlen data))) (supply p)
    /\ chain (pool_pages p') (i0 :: ids) cs /\ concat cs = data
    /\ NoDup (i0 :: ids) /\ Forall (fun i => i <> 0) (i0 :: ids)
    /\ (forall i, i ∈ i0 :: ids -> pool_pages p !! i = None)
    /\ (forall i, i ∉ i0 :: ids -> pool_pages p' !! i = pool_pages p !! i)
    /\ supply p' = drop (length (chunk_plan (zlen data))) (supply p).
Proof.
  intros [ND HU HZ HFr] Hpos Hle. unfold write_overflow_chain.
  destruct (chunk_plan_spec (zlen data)) as (Hsum & HF & _); [lia|].
  pose proof (alloc_chunks_spec (chunk_plan (zlen data)) p [] HU) as HA. cbv zeta in HA.
  rewrite decide_True in HA by done. destruct HA as (p1 & -> & HS1 & _ & HI & HO1).
  pose proof (chunk_plan_nonempty _ Hpos) as Hne. cbn [app].
  remember (chunk_plan (zlen data)) as plan eqn:EP. clear EP.
  remember (take (length plan) (supply p)) as ids eqn:Eids.
  assert (supply p = ids ++ drop (length plan) (supply p)) as Hsp
    by (subst ids; by rewrite take_drop).
  assert (length ids = length plan) as HLi by (subst ids; rewrite length_take; lia).
  assert (forall i, i ∈ ids -> pool_pages p !! i = None) as Hfresh
    by (intros i Hi; apply HFr; rewrite Hsp; apply elem_of_app; by left).
  rewrite Hsp in ND, HU, HZ. apply NoDup_app in ND as (ND & _ & _).
  apply Forall_app in HU as [HU _]. apply Forall_app in HZ as [HZ _].
  destruct plan as [|c0 plan']; [done|]. destruct ids as [|i0 ids]; [done|].
  destruct (write_chunks_ok data (i0 :: ids) (c0 :: plan') p1 0)
    as (p' & cs & -> & HC & HD & HO & HS2 & _); try done.
  exists i0, ids, cs, p'. split_and!; try done; [by rewrite HD, slice_full| |by rewrite HS2].
  intros i Hi. by rewrite HO, HO1.
Qed.

Lemma write_chain_failure p data :
  supply_ok p -> (length (supply p) < length (chunk_plan (zlen data)))%nat ->
  exists p', write_overflow_chain p data = (Err AllocFailed, p') /\ pool_pages p' = pool_pages p.
Proof.
  intros [ND HU HZ HFr] Hgt. unfold write_overflow_chain.
  pose proof (alloc_chunks_spec (chunk_plan (zlen data)) p [] HU) as HA. cbv zeta in HA.
  rewrite decide_False in HA by lia. destruct HA as (p' & -> & HO).
  destruct (chunk_plan (zlen data)); [cbn in Hgt; lia|]. cbn [app].
  eexists. split; [done|]. apply map_eq. intros i. rewrite foldl_free_lookup.
  case_decide; [by rewrite HFr|by apply HO].
Qed.

Lemma write_chain_empty p data :
  zlen data = 0 -> data = [] /\ write_overflow_chain p data = (Ok 0, p).
Proof. intros H. destruct data; [done|]. unfold zlen in H. cbn in H. lia. Qed.

(** C28: writing a payload as an overflow chain either succeeds, and then reading
    the chain back from the returned page gives the payload and no other page
    has changed; or the storage runs out of pages, and then every page
    allocated on the way has been released again and the pool is as before. *)
Theorem overflow_write_read p data :
  supply_ok p ->
  if decide (length (chunk_plan (zlen data)) <= length (supply p))%nat
  then exists first p',
    write_overflow_chain p data = (Ok first, p')
    /\ read_overflow_chain (pool_pages p') first (zlen data) = Ok data
    /\ (forall i, i ∉ supply p -> pool_pages p' !! i = pool_pages p !! i)
  else exists p',
    write_overflow_chain p data = (Err AllocFailed, p') /\ pool_pages p' = pool_pages p.
Proof.
  intros S. pose proof (zlen_nonneg data). case_decide as Hle; cycle 1.
  { apply write_chain_failure; [done|lia]. }
  destruct (Z.eq_dec (zlen data) 0) as [E|Hne].
  { destruct (write_chain_empty p data E) as [-> ->]. exists 0, p. done. }
  destruct (write_chain_success p data) as (i0 & ids & cs & p' & W & E & C & D & _ & NZ & _ & HO & _);
    [done|lia|done|].
  apply Forall_cons in NZ as [Hi0 NZ]. exists i0, p'. split_and!; [done| |].
  - destruct (chunk_plan_spec (zlen data)) as (_ & _ & Hmax); [lia|].
    unfold read_overflow_chain. rewrite (proj2 (Z.eqb_neq i0 0)) by done.
    rewrite (read_chain_ok _ _ _ ids i0 cs _ []), exec_bind_ret; [|done|done|].
    + cbn [app]. by rewrite D, Z.eqb_refl.
    + apply chain_length in C. rewrite <- C, E, length_take. lia.
  - intros i Hi. apply HO. rewrite E. intros Hin. apply Hi.
    rewrite <- (take_drop (length (chunk_plan (zlen data))) (supply p)).
    apply elem_of_app. by left.
Qed.

Definition demo_pool : Pool := mk_pool {[ 1 := page_zeroed ]} [5; 9; 2] [].

Lemma demo_pool_ok : supply_ok demo_pool.
Proof.
  split; cbn [demo_pool supply pool_pages].
  - apply (bool_decide_unpack _). vm_compute. done.
  - repeat apply Forall_cons_2; try apply Forall_nil_2; word_lia.
  - repeat apply Forall_cons_2; try apply Forall_nil_2; lia.
  - intros i Hi. apply lookup_singleton_ne. intros <-.
    by repeat (apply elem_of_cons in Hi as [Hi|Hi]; [lia|]); apply elem_of_nil in Hi.
Qed.

Lemma overflow_write_read_witness :
  exists first p',
    write_overflow_chain demo_pool (replicate 4081 Byte.x61) = (Ok first, p')
    /\ read_overflow_chain (pool_pages p') first 4081 = Ok (replicate 4081 Byte.x61)
    /\ (forall i, i ∉ supply demo_pool -> pool_pages p' !! i = pool_pages demo_pool !! i).
Proof. exact (overflow_write_read demo_pool (replicate 4081 Byte.x61) demo_pool_ok). Defined.

(** *** Releasing a chain *)

Lemma collect_chain_ok pages ids id cs fuel seen :
  chain pages (id :: ids) cs -> NoDup (seen ++ id :: ids) -> Forall (fun i => i <> 0) ids ->
  (length cs <= fuel)%nat -> collect_chain pages fuel id seen = Ok (seen ++ id :: ids).
Proof.
  revert ids id cs seen. induction fuel as [|fuel IH]; intros ids id cs seen C ND NZ HF.
  { apply chain_length in C. cbn in C. lia. }
  destruct cs as [|c cs]; [done|]. destruct C as [(img & E & P) C]. cbn [collect_chain].
  rewrite bool_decide_eq_false_2.
  2:{ intros Hin. apply NoDup_app in ND as (_ & Hd & _). apply (Hd id); [done|by left]. }
  rewrite E, P, exec_bind_ret. cbv beta iota. destruct ids as [|i ids]; cbn [hd]; [done|].
  apply Forall_cons in NZ as [Hi NZ]. rewrite (proj2 (Z.eqb_neq _ _)) by done.
  rewrite (IH ids i cs) by (done || (cbn in HF; lia) || by rewrite <- app_assoc).
  by rewrite <- app_assoc.
Qed.

Lemma chain_in_pages pages ids cs i : chain pages ids cs -> i ∈ ids -> is_Some (pages !! i).
Proof.
  revert cs. induction ids as [|x ids IH]; intros [|c cs]; try done.
  - intros _ H. by apply elem_of_nil in H.
  - intros [(img & E & _) C] [->|Hi]%elem_of_cons; [by rewrite E|by eapply IH].
Qed.

Lemma nodup_in_map_length (pages : gmap Z (list byte)) ids :
  NoDup ids -> (forall i, i ∈ ids -> is_Some (pages !! i)) -> (length ids <= size pages)%nat.
Proof.
  intros ND H. rewrite <- size_dom, <- (size_list_to_set (C := gset Z) ids) by done.
  apply subseteq_size. intros i Hi%elem_of_list_to_set. by apply elem_of_dom, H.
Qed.

(** A freshly written chain is released completely: freeing it returns the
    pool to the pages it had before the write. *)
Theorem overflow_write_free p data first p' :
  supply_ok p -> write_overflow_chain p data = (Ok first, p') ->
  exists p'', free_overflow_chain p' first = Ok p'' /\ pool_pages p'' = pool_pages p.
Proof.
  intros S W. pose proof (zlen_nonneg data).
  destruct (Z.eq_dec (zlen data) 0) as [E|Hne].
  { destruct (write_chain_empty p data E) as [_ W']. rewrite W in W'. injection W' as -> ->.
    exists p. done. }
  destruct (decide (length (chunk_plan (zlen data)) <= length (supply p))%nat) as [Hle|Hgt].
  2:{ destruct (write_chain_failure p data S) as (q & W' & _); [lia|].
      rewrite W in W'. discriminate W'. }
  destruct (write_chain_success p data) as (i0 & ids & cs & q & W' & _ & C & _ & ND & NZ & FR & HO & _);
    [done|lia|done|].
  rewrite W in W'. injection W' as -> ->. pose proof NZ as [Hi0 NZ']%Forall_cons.
  unfold free_overflow_chain, collect_overflow_pages. rewrite (proj2 (Z.eqb_neq i0 0)) by done.
  rewrite (collect_chain_ok _ ids i0 cs) by
    (done || (rewrite <- (chain_length _ _ _ C);
      pose proof (nodup_in_map_length (pool_pages q) (i0 :: ids) ND
        (fun i => chain_in_pages _ _ _ i C)); lia)).
  rewrite exec_bind_ret. eexists. split; [done|]. apply map_eq. intros i.
  rewrite foldl_free_lookup. case_decide as Hi; [by rewrite FR|by apply HO].
Qed.

Lemma overflow_write_free_witness :
  exists p'', free_overflow_chain (write_overflow_chain demo_pool [Byte.x61]).2 5 = Ok p''
    /\ pool_pages p'' = pool_pages demo_pool.
Proof.
  apply (overflow_write_free demo_pool [Byte.x61] 5); [apply demo_pool_ok|].
  vm_compute. reflexivity.
Defined.

(** *** Locators and inline tuples *)

Lemma enc_values_head v vs : exists b rest,
  enc_values (v :: vs) = b :: rest /\ b <> LOCATOR_TAG.
Proof.
  unfold enc_values. rewrite fmap_cons. cbn [concat].
  destruct v; cbn [enc_value]; try (case_match); cbn [app]; eexists _, _; split; try done;
    vm_compute; done.
Qed.

Lemma locator_decodes total first rest :
  in_u32 total -> in_u32 first ->
  from_slot_tuple (encode_locator total first ++ rest) = OverflowRef total first.
Proof.
  intros Ht Hf. pose proof (zlen_nonneg rest).
  unfold from_slot_tuple, decode_locator, LOCATOR_SIZE.
  rewrite (proj2 (Z.ltb_ge _ _)) by (unfold encode_locator; buf_lia).
  cbn [encode_locator app starts_with_tag].
  rewrite bool_decide_eq_true_2 by done. cbn [negb orb].
  change (LOCATOR_TAG :: ?x) with ([LOCATOR_TAG] ++ x).
  unfold encode_locator. rewrite <- !app_assoc. slice_app.
  by rewrite !le_val_u32.
Qed.

(** A slot's tuple segment is classified correctly: what [encode_locator]
    wrote is read as that locator whatever follows, and no serialized row is
    ever mistaken for one. *)
Theorem locator_classification total first rest vs :
  in_u32 total -> in_u32 first ->
  from_slot_tuple (encode_locator total first ++ rest) = OverflowRef total first
  /\ is_overflow_ref (encode_locator total first ++ rest) = true
  /\ from_slot_tuple (enc_values vs) = Inline (enc_values vs)
  /\ is_overflow_ref (enc_values vs) = false.
Proof.
  intros Ht Hf. pose proof (zlen_nonneg rest).
  assert (starts_with_tag (enc_values vs) = false) as HE.
  { destruct vs as [|v vs]; [done|]. destruct (enc_values_head v vs) as (b & r & -> & Hb).
    cbn. by apply bool_decide_eq_false_2. }
  split_and!; [by apply locator_decodes| | |].
  - unfold is_overflow_ref, LOCATOR_SIZE. unfold encode_locator at 1.
    by rewrite (proj2 (Z.leb_le _ _)) by buf_lia.
  - unfold from_slot_tuple, decode_locator. by rewrite HE, orb_true_r.
  - unfold is_overflow_ref. by rewrite HE, andb_false_r.
Qed.

Lemma locator_classification_witness :
  from_slot_tuple (encode_locator 5000 7 ++ []) = OverflowRef 5000 7
  /\ is_overflow_ref (encode_locator 5000 7 ++ []) = true
  /\ from_slot_tuple (enc_values [VNull]) = Inline (enc_values [VNull])
  /\ is_overflow_ref (enc_values [VNull]) = false.
Proof. apply locator_classification; word_lia. Defined.
