(* ===== verification/DataPage.v ===== *)
(** * Row versions on data pages

    [src/storage/data_page.rs]: writing a row version to the tail of a table's
    data page chain (inline, or through an overflow chain), reading it back by
    row id, rewriting its version header in place and removing it.

    The buffer pool is the [Pool] of [Overflow.v]; the table's tail pointer is
    passed in and out.  A failed page access is [PageMissing]. *)

From Stdlib Require Import ZArith Strings.Byte Lia.
From stdpp Require Import base tactics list numbers gmap.
From S2P Require Import Prelude RowKey PageLayout Values Tuple Overflow Version.
Import RowId.

Inductive StorageError :=
| CorruptedSlot (page_id slot_index : Z) (slot : Slot)
| ShortSlot (page_id slot_index : Z) (slot : Slot)
| CorruptedSlotCount (page_id slot_count : Z)
| StoragePageFull
| StorageInternal
| SlotNotFound (r : RowId)
| MalformedVersionHeader
| MalformedLocator
| OverflowFailed (e : OverflowError)
| StorageAllocFailed
| StoragePageMissing (page_id : Z).

Definition page_write_error_to_storage_error (page_id : Z) (e : PageWriteError) : StorageError :=
  match e with
  | PageFull => StoragePageFull
  | SlotCountExceedsCapacity n => CorruptedSlotCount page_id n
  | SlotPayloadOutOfBounds i slot => CorruptedSlot page_id i slot
  | LengthMismatch _ _ _ | SlotIndexOutOfRange | LogicalIdNotFound _ => StorageInternal
  end.

(** ** Reading *)

(** What the page closure hands out: the header with the tuple bytes, or with
    the locator fields. *)
Definition read_slot (d : list byte) (r : RowId)
    : exec StorageError (VersionHeader.vheader * TupleRef) :=
  let pid := page_id r in
  let? slotted := ref_new d in
  if slot_count_exceeds_capacity (header slotted)
  then Err (CorruptedSlotCount pid (slot_count (header slotted)))
  else
    let? found := get_slot_by_logical_id slotted (slot_id r) in
    match found with
    | None => Err (SlotNotFound r)
    | Some (slot, slot_index) =>
        match get_slot_data_checked slotted slot with
        | None => Err (CorruptedSlot pid slot_index slot)
        | Some slot_data =>
            if zlen slot_data <? VersionHeader.SIZE then Err (ShortSlot pid slot_index slot)
            else
              match VersionHeader.from_bytes (slice slot_data 0 VersionHeader.SIZE) with
              | None => Err MalformedVersionHeader
              | Some vh =>
                  let tuple_bytes := slice slot_data VersionHeader.SIZE (zlen slot_data) in
                  if is_overflow_ref tuple_bytes then
                    match decode_locator tuple_bytes with
                    | None => Err MalformedLocator
                    | Some (total_len, first_page) => Ok (vh, OverflowRef total_len first_page)
                    end
                  else Ok (vh, Inline tuple_bytes)
              end
        end
    end.

Definition read_tuple_from_data_page (pages : gmap Z (list byte)) (r : RowId)
    : exec StorageError (VersionHeader.vheader * list byte) :=
  match pages !! page_id r with
  | None => Err (StoragePageMissing (page_id r))
  | Some d =>
      let? (vh, t) := read_slot d r in
      let? bytes := exec_map_err OverflowFailed (resolve pages t) in
      Ok (vh, bytes)
  end.

(** ** Writing *)

Definition modify (p : Pool) (id : Z) (d : list byte) : Pool :=
  mk_pool (<[id := d]> (pool_pages p)) (supply p) (freed p).

(** [free_overflow_chain] as the failure paths call it: its own failure is
    ignored. *)
Definition free_chain_best_effort (p : Pool) (first : option Z) : Pool :=
  match first with
  | None => p
  | Some f => match free_overflow_chain p f with Ok p' => p' | _ => p end
  end.

(** The closure on the tail page: initialise an untouched page, add the slot.
    The page image is returned on failure too. *)
Definition add_to_tail (d : list byte) (slot_data : list byte)
    : exec StorageError (list byte * (Z + PageWriteError)) :=
  let? page_type := index_get d 0 in
  let? slotted := if bool_decide (page_type = Byte.x00) then sp_init d Byte.x03 else sp_new d in
  match add_slot slotted slot_data with
  | Ok (p, (logical_id, _)) => Ok (page p, inl logical_id)
  | Err e => Ok (page slotted, inr e)
  | Panic => Panic
  end.

(** The placement half of [write_tuple_to_data_page], once the slot bytes are
    known; [overflow_first_page] is the chain to release on failure. *)
Definition place_slot (p : Pool) (tail_id : Z) (slot_data : list byte)
    (overflow_first_page : option Z) : exec StorageError RowId * Pool * Z :=
  match pool_pages p !! tail_id with
  | None => (Err (StoragePageMissing tail_id), p, tail_id)
  | Some d =>
      match add_to_tail d slot_data with
      | Err e => (Err e, p, tail_id)
      | Panic => (Panic, p, tail_id)
      | Ok (d, inl logical_id) =>
          (Ok (mk_row_id (wrap32 tail_id) logical_id), modify p tail_id d, tail_id)
      | Ok (d, inr PageFull) =>
          let p := modify p tail_id d in
          match allocate_page p with
          | None => (Err StorageAllocFailed, p, tail_id)
          | Some (new_page_id, p) =>
              match
                let? fresh := sp_init page_zeroed Byte.x03 in
                let? d := splice_set d 5 (le_bytes 4 (wrap32 new_page_id)) in
                let? slotted := sp_new (page fresh) in
                Ok (d, slotted)
              with
              | Err e => (Err e, p, tail_id)
              | Panic => (Panic, p, tail_id)
              | Ok (d, slotted) =>
                  let p := modify (modify p new_page_id (page slotted)) tail_id d in
                  match add_slot slotted slot_data with
                  | Ok (sp, (logical_id, _)) =>
                      (Ok (mk_row_id (wrap32 new_page_id) logical_id),
                       modify p new_page_id (page sp), new_page_id)
                  | Err e =>
                      (Err (page_write_error_to_storage_error new_page_id e),
                       free_chain_best_effort p overflow_first_page, tail_id)
                  | Panic => (Panic, p, tail_id)
                  end
              end
          end
      | Ok (d, inr e) =>
          (Err (page_write_error_to_storage_error tail_id e),
           free_chain_best_effort (modify p tail_id d) overflow_first_page, tail_id)
      end
  end.

Definition write_tuple_to_data_page (p : Pool) (tail_id : Z) (vh : VersionHeader.vheader)
    (tuple_bytes : list byte) : exec StorageError RowId * Pool * Z :=
  let slot_data := VersionHeader.to_bytes vh ++ tuple_bytes in
  if INLINE_SLOT_MAX <? zlen slot_data then
    match write_overflow_chain p tuple_bytes with
    | (Ok first, p) =>
        let locator := encode_locator (wrap32 (zlen tuple_bytes)) first in
        place_slot p tail_id (VersionHeader.to_bytes vh ++ locator) (Some first)
    | (Err e, p) => (Err (OverflowFailed e), p, tail_id)
    | (Panic, p) => (Panic, p, tail_id)
    end
  else place_slot p tail_id slot_data None.

(** ** Header rewrite and removal *)

Definition update_version_header_in_data_page (p : Pool) (r : RowId)
    (new_header : VersionHeader.vheader) : exec StorageError Pool :=
  let pid := page_id r in
  match pool_pages p !! pid with
  | None => Err (StoragePageMissing pid)
  | Some d =>
      let? slotted := sp_new d in
      if slot_count_exceeds_capacity (page_header slotted)
      then Err (CorruptedSlotCount pid (slot_count (page_header slotted)))
      else
        let? found := sp_get_slot_by_logical_id slotted (slot_id r) in
        match found with
        | None => Err (SlotNotFound r)
        | Some (slot, slot_index) =>
            let slot_offset := offset slot in
            let slot_end := slot_offset + length_ slot in
            if negb (slot_payload_in_bounds (slot_count (page_header slotted)) slot_offset slot_end)
            then Err (CorruptedSlot pid slot_index slot)
            else if length_ slot <? VersionHeader.SIZE then Err (ShortSlot pid slot_index slot)
            else
              let? d := splice_set d slot_offset (VersionHeader.to_bytes new_header) in
              Ok (modify p pid d)
        end
  end.

(** The probe that finds the overflow chain of the row to delete. *)
Definition probe_overflow (d : list byte) (r : RowId) : exec StorageError (option Z) :=
  let pid := page_id r in
  let? slotted := ref_new d in
  if slot_count_exceeds_capacity (header slotted)
  then Err (CorruptedSlotCount pid (slot_count (header slotted)))
  else
    let? found := get_slot_by_logical_id slotted (slot_id r) in
    match found with
    | None => Err (SlotNotFound r)
    | Some (slot, slot_index) =>
        match get_slot_data_checked slotted slot with
        | None => Err (CorruptedSlot pid slot_index slot)
        | Some slot_data =>
            if zlen slot_data <? VersionHeader.SIZE then Ok None
            else Ok (snd <$> decode_locator (slice slot_data VersionHeader.SIZE (zlen slot_data)))
        end
    end.

Definition delete_tuple_from_data_page (p : Pool) (r : RowId) : exec StorageError Pool :=
  let pid := page_id r in
  match pool_pages p !! pid with
  | None => Err (StoragePageMissing pid)
  | Some d =>
      let? overflow_first := probe_overflow d r in
      let? slotted := sp_new d in
      match delete_slot_by_logical_id slotted (slot_id r) with
      | Ok sp => Ok (free_chain_best_effort (modify p pid (page sp)) overflow_first)
      | Err (LogicalIdNotFound _) | Err SlotIndexOutOfRange => Err (SlotNotFound r)
      | Err e => Err (page_write_error_to_storage_error pid e)
      | Panic => Panic
      end
  end.

(** ** Theorems *)

(** The abstract store: the slot bytes a row id addresses. *)
Definition row_bytes (pages : gmap Z (list byte)) (r : RowId) : option (list byte) :=
  d ← pages !! page_id r; snd <$> a_find (slot_id r) (entries (raw_page d)) 0.

Lemma raw_of_wf p : page_wf p -> raw_page (page p) = p.
Proof. intros W. unfold raw_page. rewrite (wf_header p W). by destruct p. Qed.

Lemma checked_data_wf p s :
  page_wf p -> s ∈ slots p -> get_slot_data_checked (sp_view p) s = Some (payload (page p) s).
Proof.
  intros W Hs. destruct (slot_nonneg p s W Hs).
  pose proof (wf_slots p W) as F. rewrite Forall_forall in F. destruct (F s Hs).
  pose proof (wf_fit p W). pose proof (wf_slot_count p W). pose proof (wf_len p W).
  unfold get_slot_data_checked, slot_payload_in_bounds, sat_sub. cbn [sp_view data header].
  page_consts. rewrite !(proj2 (Z.leb_le _ _)) by lia. done.
Qed.

(** The read path on a well-formed page, by what the page stores. *)
Lemma read_slot_wf d r :
  page_wf (raw_page d) ->
  read_slot d r =
    match a_find (slot_id r) (entries (raw_page d)) 0 with
    | None => Err (SlotNotFound r)
    | Some (i, bytes) =>
        if zlen bytes <? VersionHeader.SIZE
        then match find_lid (slot_id r) (slots (raw_page d)) 0 with
             | Some (slot, _) => Err (ShortSlot (page_id r) i slot)
             | None => Panic
             end
        else match VersionHeader.from_bytes (slice bytes 0 VersionHeader.SIZE) with
             | None => Err MalformedVersionHeader
             | Some vh => Ok (vh, from_slot_tuple (slice bytes VersionHeader.SIZE (zlen bytes)))
             end
    end.
Proof.
  intros W. pose proof (wf_len _ W) as HL. cbn [raw_page page] in HL.
  unfold read_slot. rewrite ref_new_ok, exec_bind_ret by lia. cbn [header data].
  pose proof (wf_not_exceeds _ W) as HC. cbn [raw_page page_header] in HC. rewrite HC.
  pose proof (wf_slot_count _ W) as HS. cbn [raw_page page_header] in HS.
  rewrite get_slot_by_logical_id_ok, exec_bind_ret by done. cbn [header data].
  rewrite a_find_abs. change (slots_of d (slot_count (header_at d))) with (slots (raw_page d)).
  destruct (find_lid (slot_id r) (slots (raw_page d)) 0) as [[s i]|] eqn:Hf; [|done].
  apply find_lid_Some in Hf as (k & _ & Hk & _). apply list_elem_of_lookup_2 in Hk.
  change {| data := d; header := header_at d |} with (sp_view (raw_page d)).
  rewrite (checked_data_wf _ s W Hk). cbn [fmap option_fmap option_map fst snd].
  set (bytes := payload (page (raw_page d)) s). destruct (zlen bytes <? VersionHeader.SIZE); [done|].
  destruct (VersionHeader.from_bytes _) as [vh|]; [|done].
  unfold is_overflow_ref, from_slot_tuple, decode_locator.
  set (tb := slice bytes _ _). rewrite Z.leb_antisym.
  destruct (zlen tb <? LOCATOR_SIZE), (starts_with_tag tb); done.
Qed.

(** A version stored as header and tuple segment is read back as them. *)
Lemma read_stored pages r vh tb :
  row_bytes pages r = Some (VersionHeader.to_bytes vh ++ tb) -> VersionHeader.wf vh ->
  (forall d, pages !! page_id r = Some d -> page_wf (raw_page d)) ->
  read_tuple_from_data_page pages r
  = (let? bytes := exec_map_err OverflowFailed (resolve pages (from_slot_tuple tb)) in Ok (vh, bytes)).
Proof.
  intros H Wh HP. unfold row_bytes in H. unfold read_tuple_from_data_page.
  destruct (pages !! page_id r) as [d|] eqn:E; [|done]. cbn [mbind option_bind] in H.
  rewrite read_slot_wf by auto.
  destruct (a_find (slot_id r) (entries (raw_page d)) 0) as [[i bs]|]; [|done].
  cbn [fmap option_fmap option_map snd] in H.
  assert (bs = VersionHeader.to_bytes vh ++ tb) as -> by congruence. clear H.
  pose proof (VersionFacts.length_to_bytes vh Wh) as HL.
  assert (zlen (VersionHeader.to_bytes vh) = 22) as HZ by (unfold zlen; lia).
  pose proof (zlen_nonneg tb). unfold VersionHeader.SIZE.
  rewrite (proj2 (Z.ltb_ge _ _)) by buf_lia.
  rewrite slice_app_l by lia. rewrite slice_full by lia.
  pose proof (VersionFacts.from_to_bytes vh [] Wh) as HF. rewrite app_nil_r in HF. rewrite HF.
  rewrite exec_bind_ret. cbv beta iota.
  rewrite slice_app_r by lia. rewrite slice_whole by buf_lia. done.
Qed.

(** *** The tail page *)

(** A page that no slot left, at the end of its chain. *)
Definition open_header (h : SlottedPageHeader) : Prop :=
  next_logical_id h = slot_count h /\ next_page_id h = 0.

(** A page the write path may find at the tail: never touched, or a
    well-formed initialised page with ids left. *)
Definition tail_ready (d : list byte) : Prop :=
  d = page_zeroed
  \/ (page_wf (raw_page d) /\ page_type (header_at d) <> Byte.x00
      /\ next_logical_id (header_at d) < 65535).

(** The tail of a table that has only grown. *)
Definition open_tail (d : list byte) : Prop :=
  d = page_zeroed
  \/ (page_wf (raw_page d) /\ page_type (header_at d) <> Byte.x00 /\ open_header (header_at d)).

Lemma open_ready d : open_tail d -> tail_ready d.
Proof.
  intros [->|(W & T & O & _)]; [by left|]. right. split_and!; [done..|]. rewrite O.
  pose proof (wf_fit _ W) as F. pose proof (wf_free_lo _ W). cbn [raw_page page_header] in *. lia.
Qed.

Lemma zeroed_entries : entries (raw_page page_zeroed) = [].
Proof. vm_compute. reflexivity. Qed.

Lemma a_find_app lid es l bs i :
  a_find lid (es ++ [(l, bs)]) i =
  match a_find lid es i with
  | Some x => Some x
  | None => if l =? lid then Some (i + zlen es, bs) else None
  end.
Proof.
  revert i. induction es as [|[l' b'] es IH]; intros i; cbn [app a_find].
  - by rewrite zlen_nil, Z.add_0_r.
  - destruct (l' =? lid); [done|]. rewrite IH. by rewrite zlen_cons, Z.add_assoc.
Qed.

(** Adding an entry with an unused id changes that id's lookup only. *)
Lemma a_find_added lid es l bs :
  l ∉ (fst <$> es) ->
  snd <$> a_find lid (es ++ [(l, bs)]) 0 =
    if lid =? l then Some bs else snd <$> a_find lid es 0.
Proof.
  intros Hl. rewrite a_find_app. destruct (Z.eqb_spec lid l) as [->|Hne].
  - assert (a_find l es 0 = None) as ->; [|by rewrite Z.eqb_refl].
    revert Hl. generalize 0. induction es as [|[l' b'] es IH]; intros z Hl; [done|].
    rewrite fmap_cons in Hl. apply not_elem_of_cons in Hl as [Hne Hl]. cbn [a_find].
    cbn in Hne. rewrite (proj2 (Z.eqb_neq _ _)) by done. by apply IH.
  - destruct (a_find lid es 0) as [[i b]|]; [done|].
    by rewrite (proj2 (Z.eqb_neq _ _)) by done.
Qed.

Lemma fresh_lid p : page_wf p -> next_logical_id (page_header p) ∉ (fst <$> entries p).
Proof.
  intros W Hin. unfold entries in Hin. rewrite <- list_fmap_compose in Hin.
  apply list_elem_of_fmap in Hin as (s & Hs & Hin).
  pose proof (wf_lids p W) as F. rewrite Forall_forall in F. specialize (F s Hin).
  cbn in Hs. lia.
Qed.

(** One [add_slot] on a well-formed page, seen on the page image. *)
Lemma add_slot_image p bytes :
  page_wf p -> next_logical_id (page_header p) < 65535 ->
  if free_space p <? 6 + zlen bytes then add_slot p bytes = Err PageFull
  else exists p' i, add_slot p bytes = Ok (p', (next_logical_id (page_header p), i))
    /\ page_wf (raw_page (page p')) /\ page_wf p'
    /\ page_type (header_at (page p')) = page_type (page_header p)
    /\ entries (raw_page (page p')) = entries p ++ [(next_logical_id (page_header p), bytes)]
    /\ (open_header (page_header p) -> open_header (header_at (page p'))).
Proof.
  intros W Hn. destruct (Z.ltb_spec (free_space p) (6 + zlen bytes)) as [Hf|Hf].
  - by apply add_slot_full.
  - destruct (add_slot_room p bytes W Hf Hn) as (p' & E & W' & A & T & NP).
    exists p', (slot_count (page_header p)). rewrite (raw_of_wf p' W'), (wf_header p' W').
    pose proof (f_equal a_entries A) as AE. pose proof (f_equal a_next A) as AN. cbn in AE, AN.
    split_and!; [done..|]. intros [O1 O2]. split; [|by rewrite NP].
    rewrite AN, O1. apply (f_equal length) in AE. unfold entries in AE.
    rewrite length_app, !length_fmap, !length_slots in AE by done. cbn in AE.
    pose proof (wf_slot_count _ W). pose proof (wf_slot_count _ W'). lia.
Qed.

Lemma init_zeroed : exists p, sp_init (E:=StorageError) page_zeroed Byte.x03 = Ok p
  /\ page_wf p /\ entries p = [] /\ free_space p = 4080
  /\ next_logical_id (page_header p) = 0 /\ page_type (page_header p) = Byte.x03 /\ open_header (page_header p).
Proof.
  eexists. split; [apply sp_init_ok; by vm_compute|].
  assert (zlen page_zeroed = 4096) as HZ by by vm_compute.
  destruct (sp_init_wf page_zeroed Byte.x03 _ HZ (sp_init_ok _ _ HZ)) as [W E].
  split_and!; [done|done| |done|done|done]. by rewrite wf_free_space.
Qed.

Lemma add_to_tail_ok d bytes :
  tail_ready d -> zlen bytes <= INLINE_SLOT_MAX ->
  (exists d' lid, add_to_tail d bytes = Ok (d', inl lid)
     /\ page_wf (raw_page d') /\ (lid ∉ (fst <$> entries (raw_page d)))
     /\ entries (raw_page d') = entries (raw_page d) ++ [(lid, bytes)]
     /\ (open_tail d -> open_tail d' /\ lid = zlen (entries (raw_page d))))
  \/ (add_to_tail d bytes = Ok (d, inr PageFull) /\ page_wf (raw_page d)).
Proof.
  unfold INLINE_SLOT_MAX. page_consts. change (4096 - 16 - 6) with 4074. intros R HB.
  unfold add_to_tail. destruct R as [->|(W & T & N)].
  - left. change (index_get page_zeroed 0) with (@Ok StorageError byte Byte.x00).
    rewrite exec_bind_ret, bool_decide_eq_true_2 by done.
    destruct init_zeroed as (p & -> & W & E & F & N & T & O). rewrite exec_bind_ret.
    pose proof (add_slot_image p bytes W) as A. rewrite N, F in A.
    rewrite (proj2 (Z.ltb_ge _ _)) in A by lia.
    destruct A as (p' & i & -> & W1 & _ & T' & E' & O'); [lia|].
    exists (page p'), 0. rewrite zeroed_entries, E', E. split_and!; try done.
    + rewrite fmap_nil. apply not_elem_of_nil.
    + intros _. split; [|done]. right. rewrite T', T. by auto.
  - assert (zlen d = 4096) as HZ by apply (wf_len _ W).
    rewrite index_get_hd, exec_bind_ret by lia.
    change (hd Byte.x00 (slice d 0 1)) with (page_type (header_at d)).
    rewrite bool_decide_eq_false_2 by done. rewrite raw_page_new, exec_bind_ret by done.
    pose proof (add_slot_image (raw_page d) bytes W N) as A.
    destruct (free_space (raw_page d) <? 6 + zlen bytes).
    + right. by rewrite A.
    + left. destruct A as (p' & i & -> & W1 & _ & T' & E' & O').
      exists (page p'), (next_logical_id (header_at d)). split_and!; try done.
      { by apply (fresh_lid (raw_page d)). }
      intros [->|(_ & _ & O)]; [done|]. split; [right; rewrite T'; by auto|].
      rewrite zlen_entries by done. by destruct O as [-> _].
Qed.

(** Linking a full page to its successor keeps its rows. *)
Lemma set_next_page d n :
  page_wf (raw_page d) -> in_u32 n ->
  let d' := splice d 5 (le_bytes 4 n) in
  page_wf (raw_page d') /\ entries (raw_page d') = entries (raw_page d).
Proof.
  intros W Hn d'. pose proof (wf_len _ W) as HL. cbn [raw_page page] in HL.
  assert (zlen d' = 4096) as HL' by (unfold d'; rewrite zlen_splice; buf_lia).
  assert (header_at d' = mk_header (page_type (header_at d)) (slot_count (header_at d))
    (free_space_offset (header_at d)) n (next_logical_id (header_at d)) (padding (header_at d))) as HH.
  { unfold header_at, d'. cbn [page_type slot_count free_space_offset next_logical_id padding].
    rewrite (slice_splice_same _ 5 (le_bytes 4 n) 9) by buf_lia.
    rewrite !slice_splice_before, !slice_splice_after by buf_lia. by rewrite le_val_u32. }
  assert (slots (raw_page d') = slots (raw_page d)) as HS.
  { unfold slots, slots_of. cbn [raw_page page page_header]. rewrite HH. cbn [slot_count].
    pose proof (wf_slot_count _ W) as Hc. cbn [raw_page page_header] in Hc.
    apply list_fmap_ext. intros k i Hi. apply lookup_seqZ in Hi as [-> Hi].
    unfold slot_at, slot_raw. page_consts. unfold d'. rewrite slice_splice_after by buf_lia. done. }
  assert (forall s, s ∈ slots (raw_page d) -> payload d' s = payload d s) as HP.
  { intros s Hs. pose proof (wf_slots _ W) as F. rewrite Forall_forall in F. destruct (F s Hs).
    unfold payload, d'. rewrite slice_splice_after by buf_lia. done. }
  split.
  - destruct W as [A B C D E F G H]. cbn [raw_page page page_header] in *.
    split; rewrite ?HS; cbn [raw_page page page_header]; rewrite ?HH;
      cbn [slot_count free_space_offset next_logical_id]; done.
  - unfold entries. rewrite HS. apply list_fmap_ext. intros k s Hk.
    cbn [raw_page page]. rewrite HP; [done|]. by eapply list_elem_of_lookup_2.
Qed.

Lemma next_page_set d n : zlen d = 4096 -> in_u32 n -> next_page_id (header_at (splice d 5 (le_bytes 4 n))) = n.
Proof.
  intros HL Hn. unfold header_at. cbn [next_page_id]. rewrite (slice_splice_same _ 5 (le_bytes 4 n) 9) by buf_lia. by rewrite le_val_u32.
Qed.

(** *** Where a version lands *)

(** The effect of a successful write on the abstract store: one new row. *)
Definition added_row (pages pages' : gmap Z (list byte)) (r : RowId) (bytes : list byte) : Prop :=
  row_bytes pages r = None
  /\ forall r', row_bytes pages' r' = if bool_decide (r' = r) then Some bytes else row_bytes pages r'.

Lemma row_bytes_insert pages pid d d' lid bytes :
  pages !! pid = Some d -> lid ∉ (fst <$> entries (raw_page d)) ->
  entries (raw_page d') = entries (raw_page d) ++ [(lid, bytes)] ->
  added_row pages (<[pid := d']> pages) (mk_row_id pid lid) bytes.
Proof.
  intros E Hl HE. split.
  - unfold row_bytes. cbn [page_id slot_id]. rewrite E. cbn [mbind option_bind].
    pose proof (a_find_added lid (entries (raw_page d)) lid bytes Hl) as A.
    rewrite a_find_app in A. destruct (a_find lid (entries (raw_page d)) 0) as [[i b]|] eqn:F; [|done].
    exfalso. apply Hl. clear -F. revert F. generalize 0.
    induction (entries (raw_page d)) as [|[l b'] es IH]; intros z; cbn [a_find]; [done|].
    destruct (Z.eqb_spec l lid) as [->|]; [by left|]. intros F. right. by eapply IH.
  - intros [pid' lid']. unfold row_bytes. cbn [page_id slot_id].
    destruct (decide (pid = pid')) as [<-|Hne].
    + rewrite lookup_insert_eq, E. cbn [mbind option_bind]. rewrite HE, a_find_added by done.
      destruct (Z.eqb_spec lid' lid) as [->|Hn]; [by rewrite bool_decide_eq_true_2|].
      rewrite bool_decide_eq_false_2; [done|]. by intros [= ?].
    + rewrite lookup_insert_ne, bool_decide_eq_false_2; [done| |done]. by intros [= ? ?].
Qed.

Lemma row_bytes_same pages pid d d' :
  pages !! pid = Some d -> entries (raw_page d') = entries (raw_page d) ->
  forall r, row_bytes (<[pid := d']> pages) r = row_bytes pages r.
Proof.
  intros E HE [pid' lid]. unfold row_bytes. cbn [page_id slot_id].
  destruct (decide (pid = pid')) as [<-|Hne].
  - rewrite lookup_insert_eq, E. cbn [mbind option_bind]. by rewrite HE.
  - by rewrite lookup_insert_ne.
Qed.

Lemma row_bytes_fresh_page pages pid d :
  pages !! pid = None -> entries (raw_page d) = [] ->
  forall r, row_bytes (<[pid := d]> pages) r = row_bytes pages r.
Proof.
  intros E HE [pid' lid]. unfold row_bytes. cbn [page_id slot_id].
  destruct (decide (pid = pid')) as [<-|Hne].
  - rewrite lookup_insert_eq, E. cbn [mbind option_bind]. by rewrite HE.
  - by rewrite lookup_insert_ne.
Qed.

(** Where the bytes of a row land: behind the rows of the tail page, or on a new
    page linked to it. *)
Definition landed (pages pages' : gmap Z (list byte)) (tail_id : Z) (r : RowId) (bytes : list byte) : Prop :=
  (page_id r = tail_id /\ exists d d', pages !! tail_id = Some d /\ pages' !! tail_id = Some d'
     /\ slot_id r = zlen (entries (raw_page d)) /\ entries (raw_page d') = entries (raw_page d) ++ [(slot_id r, bytes)])
  \/ (page_id r <> tail_id /\ slot_id r = 0 /\ exists d d1 d2, pages !! tail_id = Some d /\ pages' !! tail_id = Some d1
     /\ pages' !! page_id r = Some d2 /\ entries (raw_page d1) = entries (raw_page d)
     /\ next_page_id (header_at d1) = page_id r /\ entries (raw_page d2) = [(0, bytes)]).

(** What a successful placement guarantees. *)
Record placed (p p' : Pool) (tail_id : Z) (r : RowId) (bytes : list byte) : Prop := {
  placed_new : row_bytes (pool_pages p) r = None;
  placed_wf : forall d, pool_pages p' !! page_id r = Some d -> page_wf (raw_page d);
  placed_rows : forall r', row_bytes (pool_pages p') r' =
    if bool_decide (r' = r) then Some bytes else row_bytes (pool_pages p) r';
  placed_pages : forall i, i <> tail_id -> i ∉ supply p ->
    pool_pages p' !! i = pool_pages p !! i }.

Lemma wrap32_id z : in_u32 z -> wrap32 z = z.
Proof. unfold wrap32. intros. apply Z.mod_small. word_lia. Qed.

Section place.
Context (p : Pool) (tail_id : Z) (d : list byte) (bytes : list byte) (o : option Z).
Context (S : supply_ok p) (Ht : in_u32 tail_id) (Ed : pool_pages p !! tail_id = Some d).
Context (R : tail_ready d) (HB : zlen bytes <= INLINE_SLOT_MAX).

Lemma tail_not_supplied i : i ∈ supply p -> i <> tail_id.
Proof using S Ed. intros Hi ->. rewrite (sup_fresh p S) in Ed by done. discriminate Ed. Qed.

(** Room on the tail page. *)
Lemma place_on_tail d' lid :
  add_to_tail d bytes = Ok (d', inl lid) -> page_wf (raw_page d') ->
  lid ∉ (fst <$> entries (raw_page d)) ->
  entries (raw_page d') = entries (raw_page d) ++ [(lid, bytes)] ->
  exists r p', place_slot p tail_id bytes o = (Ok r, p', tail_id)
    /\ row_bytes (pool_pages p) r = None /\ page_wf (raw_page d')
    /\ pool_pages p' = <[tail_id := d']> (pool_pages p) /\ page_id r = tail_id /\ slot_id r = lid
    /\ (forall r', row_bytes (pool_pages p') r'
          = if bool_decide (r' = r) then Some bytes else row_bytes (pool_pages p) r')
    /\ supply p' = supply p.
Proof using Ht Ed.
  intros A W Hl HE. unfold place_slot. rewrite Ed, A, wrap32_id by done.
  destruct (row_bytes_insert (pool_pages p) tail_id d d' lid bytes Ed Hl HE) as [N O].
  eexists _, _. split; [done|]. done.
Qed.

(** A full tail page: a successor is linked in and takes the slot. *)
Lemma place_on_new id rest :
  add_to_tail d bytes = Ok (d, inr PageFull) -> page_wf (raw_page d) ->
  supply p = id :: rest ->
  exists r p' d1 d2, place_slot p tail_id bytes o = (Ok r, p', id)
    /\ row_bytes (pool_pages p) r = None /\ page_wf (raw_page d1) /\ page_wf (raw_page d2) /\ open_tail d2
    /\ pool_pages p' = <[id := d2]> (<[tail_id := d1]> (pool_pages p)) /\ page_id r = id
    /\ landed (pool_pages p) (pool_pages p') tail_id r bytes
    /\ (forall r', row_bytes (pool_pages p') r'
          = if bool_decide (r' = r) then Some bytes else row_bytes (pool_pages p) r')
    /\ supply p' = rest.
Proof using All.
  intros A W ES. unfold place_slot. rewrite Ed, A. unfold allocate_page, modify.
  cbn [supply pool_pages freed]. rewrite ES.
  assert (in_u32 id) as Hid by (pose proof (sup_u32 p S) as U; rewrite ES in U; by inversion U).
  assert (pool_pages p !! id = None) as Hfr by (apply (sup_fresh p S); rewrite ES; left).
  assert (id <> tail_id) as Hne by (apply tail_not_supplied; rewrite ES; left).
  destruct init_zeroed as (q & -> & Wq & Eq & Fq & Nq & Tq & Oq). rewrite exec_bind_ret, wrap32_id by done.
  pose proof (wf_len _ W) as HL. cbn [raw_page page] in HL.
  rewrite splice_set_ok, exec_bind_ret by buf_lia.
  rewrite raw_page_new, exec_bind_ret, (raw_of_wf q Wq) by apply (wf_len q Wq).
  destruct (set_next_page d id W Hid) as [W1 E1]. pose proof (next_page_set d id HL Hid) as N1. set (d1 := splice d 5 (le_bytes 4 id)) in *.
  pose proof (add_slot_image q bytes Wq) as AI. rewrite Nq, Fq in AI.
  unfold INLINE_SLOT_MAX in HB. page_consts. rewrite (proj2 (Z.ltb_ge _ _)) in AI by lia.
  destruct AI as (q' & i & -> & W2 & _ & T2 & E2 & O2); [lia|]. rewrite Eq in E2. cbn [app] in E2.
  set (base := <[tail_id := d1]> (pool_pages p)).
  assert (forall r, row_bytes base r = row_bytes (pool_pages p) r) as HBase
    by (apply (row_bytes_same _ _ d); done).
  assert (base !! id = None) as Hb by (unfold base; by rewrite lookup_insert_ne).
  set (mid := <[id := page q]> base).
  assert (forall r, row_bytes mid r = row_bytes (pool_pages p) r) as HMid.
  { intros r. unfold mid. rewrite (row_bytes_fresh_page base) ; [apply HBase|done|].
    by rewrite (raw_of_wf q Wq). }
  destruct (row_bytes_insert mid id (page q) (page q') 0 bytes) as [N O].
  { unfold mid. by rewrite lookup_insert_eq. }
  { rewrite (raw_of_wf q Wq), Eq. apply not_elem_of_nil. }
  { by rewrite (raw_of_wf q Wq), E2, Eq. }
  exists (mk_row_id id 0). eexists _, d1, (page q'). split; [done|].
  assert (forall X, <[id := X]> (<[tail_id := d1]> (<[id := page q]> (<[id := page_zeroed]>
    (<[tail_id := d]> (pool_pages p))))) = <[id := X]> base) as HM.
  { intros X. apply map_eq. intros j. unfold base.
    destruct (decide (j = id)) as [->|]; [by rewrite !lookup_insert_eq|].
    destruct (decide (j = tail_id)) as [->|];
      [by rewrite !(lookup_insert_ne _ id tail_id), !lookup_insert_eq by done|].
    by rewrite !lookup_insert_ne by done. }
  cbn [pool_pages]. rewrite HM. split_and!; try done; [by rewrite <- HMid|by right; rewrite T2, Tq; auto| |].
  - right. cbn [page_id slot_id]. split_and!; [done..|]. exists d, d1, (page q'). unfold base.
    rewrite Ed, lookup_insert_eq, lookup_insert_ne, lookup_insert_eq by done. done.
  - intros r'. rewrite <- HMid, <- O. unfold mid. by rewrite insert_insert_eq.
Qed.

(** A slot is placed when a page is left, on the tail page or on the next new
    page. *)
Lemma place_slot_total :
  supply p <> [] ->
  exists r p' t new, place_slot p tail_id bytes o = (Ok r, p', t) /\ placed p p' tail_id r bytes
    /\ t = page_id r /\ page_id r ∈ tail_id :: new /\ supply p = new ++ supply p' /\ (length new <= 1)%nat
    /\ (forall i, i <> tail_id -> i ∉ new -> pool_pages p' !! i = pool_pages p !! i)
    /\ (forall d', pool_pages p' !! tail_id = Some d' -> page_wf (raw_page d'))
    /\ (open_tail d -> landed (pool_pages p) (pool_pages p') tail_id r bytes
        /\ exists d', pool_pages p' !! page_id r = Some d' /\ open_tail d').
Proof using All.
  intros HS. destruct (add_to_tail_ok d bytes R HB) as [(d' & lid & A & W & Hl & HE & HO)|[A W]].
  - destruct (place_on_tail d' lid A W Hl HE) as (r1 & p1 & E & N & _ & EP & PI & SI & RS & ES).
    exists r1, p1, tail_id, []. split_and!; try done; [|by rewrite PI; left|cbn; lia|..].
    + split; try done; [rewrite EP, PI, lookup_insert_eq; by intros ? [= <-]|].
      intros i Hi _. by rewrite EP, lookup_insert_ne.
    + intros i Hi _. by rewrite EP, lookup_insert_ne.
    + rewrite EP, lookup_insert_eq. by intros ? [= <-].
    + intros O. destruct (HO O) as [O' HL]. rewrite EP, PI, lookup_insert_eq. split; [left|by eauto].
      split; [done|]. exists d, d'. rewrite SI, lookup_insert_eq. done.
  - destruct (supply p) as [|id rest] eqn:EQ; [done|].
    destruct (place_on_new id rest A W EQ) as (r1 & p1 & d1 & d2 & E & N & W1 & W2 & O2 & EP & PI & LA & RS & ES).
    assert (id <> tail_id) as Hne by (apply tail_not_supplied; rewrite EQ; left).
    exists r1, p1, id, [id]. split_and!; try done; [|by rewrite PI; right; left|by rewrite ES|..].
    + split; try done; [rewrite EP, PI, lookup_insert_eq; by intros ? [= <-]|].
      intros i Hi Hs. rewrite EQ in Hs. apply not_elem_of_cons in Hs as [Hs _]. by rewrite EP, !lookup_insert_ne.
    + intros i Hi Hn. apply not_elem_of_cons in Hn as [Hn _]. by rewrite EP, !lookup_insert_ne.
    + rewrite EP, lookup_insert_ne, lookup_insert_eq by done. by intros ? [= <-].
    + intros _. split; [done|]. rewrite EP, PI, lookup_insert_eq. eauto.
Qed.

Lemma place_slot_ok r p' t :
  place_slot p tail_id bytes o = (Ok r, p', t) -> placed p p' tail_id r bytes.
Proof using All.
  intros H. destruct (supply p) as [|id rest] eqn:ES.
  - destruct (add_to_tail_ok d bytes R HB) as [(d' & lid & A & W & Hl & HE & _)|[A W]].
    + destruct (place_on_tail d' lid A W Hl HE) as (r1 & p1 & E & N & _ & EP & PI & _ & RS & _).
      rewrite H in E. injection E as <- <- _. split; try done.
      * rewrite EP, PI, lookup_insert_eq. by intros ? [= <-].
      * intros i Hi _. by rewrite EP, lookup_insert_ne.
    + unfold place_slot in H. rewrite Ed, A in H. unfold allocate_page, modify in H.
      cbn [supply pool_pages freed] in H. rewrite ES in H. discriminate H.
  - destruct place_slot_total as (r1 & p1 & t1 & new & E & PL & _); [by rewrite ES|].
    rewrite H in E. by injection E as <- <- _.
Qed.

End place.

(** *** The overflow half *)

Lemma chain_agree pages pages' ids cs :
  (forall i, i ∈ ids -> pages' !! i = pages !! i) -> chain pages ids cs -> chain pages' ids cs.
Proof.
  revert cs. induction ids as [|i ids IH]; intros [|c cs] HA; try done.
  intros [(img & E & P) C]. split.
  - exists img. rewrite HA; [done|by left].
  - apply IH; [|done]. intros j Hj. apply HA. by right.
Qed.

Lemma supply_ok_drop p p' n :
  supply_ok p -> supply p' = drop n (supply p) ->
  (forall i, i ∉ take n (supply p) -> pool_pages p' !! i = pool_pages p !! i) -> supply_ok p'.
Proof.
  intros [ND U Z F] E HO. rewrite <- (take_drop n (supply p)) in ND, U, Z.
  apply NoDup_app in ND as (_ & HD & ND). apply Forall_app in U as [_ U].
  apply Forall_app in Z as [_ Z]. split; rewrite ?E; try done.
  intros i Hi. rewrite HO; [|intros Hin; by apply (HD i)]. apply F.
  rewrite <- (take_drop n (supply p)). apply elem_of_app. by right.
Qed.

Lemma zlen_locator a b : zlen (encode_locator a b) = 9.
Proof. unfold encode_locator. buf_lia. Qed.

(** A tuple segment whose tuple depends on some pages only. *)
Definition rooted (pages : gmap Z (list byte)) (roots : list Z) (tb tuple : list byte) : Prop :=
  forall pages', (forall i, i ∈ roots -> pages' !! i = pages !! i) -> resolve pages' (from_slot_tuple tb) = Ok tuple.

Lemma rooted_inline pages tuple : is_overflow_ref tuple = false -> rooted pages [] tuple tuple.
Proof.
  intros HO pages' _. unfold from_slot_tuple, decode_locator. unfold is_overflow_ref in HO. rewrite Z.leb_antisym in HO.
  destruct (zlen tuple <? LOCATOR_SIZE), (starts_with_tag tuple); done.
Qed.

Lemma rooted_chain pages i0 ids cs tuple :
  in_u32 (zlen tuple) -> in_u32 i0 -> chain pages (i0 :: ids) cs -> concat cs = tuple ->
  Z.of_nat (length cs) <= zlen tuple / OVERFLOW_PAYLOAD_MAX + 1 -> Forall (fun i => i <> 0) (i0 :: ids) ->
  rooted pages (i0 :: ids) (encode_locator (zlen tuple) i0) tuple.
Proof.
  intros Hu Hi0 C D HLc NZ pages' HA.
  assert (from_slot_tuple (encode_locator (zlen tuple) i0) = OverflowRef (zlen tuple) i0) as ->.
  { pose proof (locator_decodes (zlen tuple) i0 [] Hu Hi0) as X. by rewrite app_nil_r in X. }
  cbn [resolve]. unfold read_overflow_chain. apply Forall_cons in NZ as [Hz NZ].
  rewrite (proj2 (Z.eqb_neq i0 0)) by done.
  rewrite (read_chain_ok _ _ _ ids i0 cs _ []), exec_bind_ret; [| |done|lia].
  - cbn [app]. by rewrite D, Z.eqb_refl.
  - by eapply chain_agree; [|exact C].
Qed.

Section written.
Context (p : Pool) (tail_id : Z) (d : list byte) (vh : VersionHeader.vheader) (tuple : list byte).
Context (S : supply_ok p) (Ht : in_u32 tail_id) (Ed : pool_pages p !! tail_id = Some d).
Context (R : tail_ready d) (Wh : VersionHeader.wf vh).

Lemma read_placed q p' r tb :
  placed q p' tail_id r (VersionHeader.to_bytes vh ++ tb) ->
  read_tuple_from_data_page (pool_pages p') r
  = (let? bytes := exec_map_err OverflowFailed (resolve (pool_pages p') (from_slot_tuple tb)) in
     Ok (vh, bytes)).
Proof using Wh.
  intros [_ PW PR _]. apply read_stored; [|done|done].
  by rewrite PR, bool_decide_eq_true_2.
Qed.

Lemma write_inline r p' t o :
  is_overflow_ref tuple = false ->
  zlen (VersionHeader.to_bytes vh ++ tuple) <= INLINE_SLOT_MAX ->
  place_slot p tail_id (VersionHeader.to_bytes vh ++ tuple) o = (Ok r, p', t) ->
  row_bytes (pool_pages p) r = None
  /\ read_tuple_from_data_page (pool_pages p') r = Ok (vh, tuple)
  /\ (forall r', r' <> r -> row_bytes (pool_pages p') r' = row_bytes (pool_pages p) r').
Proof using All.
  intros HO Hfit H. apply (place_slot_ok p tail_id d _ o S Ht Ed R Hfit) in H.
  pose proof H as [PN PW PR PP]. split_and!; [done| |].
  - by rewrite (read_placed _ _ _ _ H), (rooted_inline (pool_pages p')).
  - intros r' Hne. by rewrite PR, bool_decide_eq_false_2.
Qed.

Lemma write_overflowed r p' t i0 ids cs q n :
  in_u32 (zlen tuple) -> 0 < zlen tuple ->
  supply_ok q -> supply q = drop n (supply p) -> i0 :: ids = take n (supply p) ->
  chain (pool_pages q) (i0 :: ids) cs -> concat cs = tuple ->
  Z.of_nat (length cs) <= zlen tuple / OVERFLOW_PAYLOAD_MAX + 1 ->
  Forall (fun i => i <> 0) (i0 :: ids) ->
  (forall i, i ∉ i0 :: ids -> pool_pages q !! i = pool_pages p !! i) ->
  place_slot q tail_id (VersionHeader.to_bytes vh ++ encode_locator (zlen tuple) i0) (Some i0)
  = (Ok r, p', t) ->
  row_bytes (pool_pages p) r = None
  /\ read_tuple_from_data_page (pool_pages p') r = Ok (vh, tuple)
  /\ (forall r', r' <> r -> is_Some (pool_pages p !! page_id r') ->
       row_bytes (pool_pages p') r' = row_bytes (pool_pages p) r').
Proof using All.
  intros Hu Hpos Sq HS Hids C D HLc NZ HO H.
  assert (forall i, i ∈ i0 :: ids -> pool_pages p !! i = None) as FR.
  { intros i Hi. apply (sup_fresh p S). rewrite <- (take_drop n (supply p)), <- Hids.
    apply elem_of_app. by left. }
  assert (tail_id ∉ i0 :: ids) as Htail by (intros Hin; rewrite FR in Ed by done; done).
  assert (forall i, i ∈ i0 :: ids -> i ∉ supply q) as Hdis.
  { intros i Hi. rewrite HS, Hids in *. pose proof (sup_nodup p S) as ND.
    rewrite <- (take_drop n (supply p)) in ND. apply NoDup_app in ND as (_ & HD & _). by apply HD. }
  assert (in_u32 i0) as Hi0.
  { pose proof (sup_u32 p S) as U. rewrite <- (take_drop n (supply p)), <- Hids in U.
    by inversion U. }
  assert (zlen (VersionHeader.to_bytes vh ++ encode_locator (zlen tuple) i0) <= INLINE_SLOT_MAX)
    as Hfit.
  { pose proof (VersionFacts.length_to_bytes vh Wh). rewrite zlen_app, zlen_locator.
    unfold INLINE_SLOT_MAX, zlen. page_consts. lia. }
  apply (place_slot_ok q tail_id d _ (Some i0) Sq Ht) in H; [|by rewrite HO|done|done].
  pose proof H as [PN PW PR PP].
  assert (forall r', is_Some (pool_pages p !! page_id r') ->
            row_bytes (pool_pages q) r' = row_bytes (pool_pages p) r') as HQ.
  { intros r' [x Hx]. unfold row_bytes. rewrite HO; [done|].
    intros Hin. by rewrite FR in Hx by done. }
  split_and!.
  - unfold row_bytes. destruct (pool_pages p !! page_id r) eqn:E; [|done].
    assert (row_bytes (pool_pages q) r = row_bytes (pool_pages p) r) as X by (apply HQ; by rewrite E).
    unfold row_bytes in X at 2. rewrite E in X. by rewrite <- X.
  - rewrite (read_placed _ _ _ _ H), (rooted_chain (pool_pages q) i0 ids cs); try done.
    intros i Hi. apply PP; [|by apply Hdis]. intros ->. by apply Htail.
  - intros r' Hne Hs. rewrite PR, bool_decide_eq_false_2 by done. by apply HQ.
Qed.

End written.

Lemma write_reads p tail_id d vh tuple r p' t :
  supply_ok p -> in_u32 tail_id -> pool_pages p !! tail_id = Some d -> tail_ready d ->
  VersionHeader.wf vh -> in_u32 (zlen tuple) -> is_overflow_ref tuple = false ->
  write_tuple_to_data_page p tail_id vh tuple = (Ok r, p', t) ->
  row_bytes (pool_pages p) r = None
  /\ read_tuple_from_data_page (pool_pages p') r = Ok (vh, tuple)
  /\ (forall r', r' <> r -> is_Some (pool_pages p !! page_id r') ->
       row_bytes (pool_pages p') r' = row_bytes (pool_pages p) r').
Proof.
  intros S Ht Ed R Wh Hu HO. unfold write_tuple_to_data_page.
  pose proof (VersionFacts.length_to_bytes vh Wh) as HL22.
  assert (zlen (VersionHeader.to_bytes vh) = 22) as HZ by (unfold zlen; lia).
  destruct (Z.ltb_spec INLINE_SLOT_MAX (zlen (VersionHeader.to_bytes vh ++ tuple))) as [Hbig|Hfit].
  - assert (0 < zlen tuple) as Hpos by (unfold INLINE_SLOT_MAX in Hbig; page_consts; buf_lia).
    destruct (decide (length (chunk_plan (zlen tuple)) <= length (supply p))%nat) as [Hle|Hgt].
    2:{ destruct (write_chain_failure p tuple S) as (q & -> & _); [lia|done]. }
    destruct (write_chain_success p tuple S Hpos Hle)
      as (i0 & ids & cs & q & -> & Eids & C & D & ND & NZ & FR & HOth & HS).
    rewrite wrap32_id by done. intros Hpl.
    apply (write_overflowed p tail_id d vh tuple S Ht Ed R Wh r p' t i0 ids cs q
             (length (chunk_plan (zlen tuple)))); try done.
    + apply (supply_ok_drop p q _ S HS). intros i. rewrite <- Eids. apply HOth.
    + destruct (chunk_plan_spec (zlen tuple)) as (_ & _ & Hm); [lia|].
      rewrite <- (chain_length _ _ _ C), Eids, length_take. lia.
  - intros Hpl. destruct (write_inline p tail_id d vh tuple S Ht Ed R Wh r p' t None) as (A & B & C);
      [done..|]. split_and!; [done|done|]. intros r' Hne _. by apply C.
Qed.

(** A successful write: the new row, the pages it took and the page it is on. *)
Record written (p p' : Pool) (tail_id : Z) (r : RowId) (vh : VersionHeader.vheader) (tuple : list byte) (new : list Z)
    : Prop := {
  wr_unused : row_bytes (pool_pages p) r = None;
  wr_read : read_tuple_from_data_page (pool_pages p') r = Ok (vh, tuple);
  wr_rows : forall r', r' <> r -> is_Some (pool_pages p !! page_id r') ->
    row_bytes (pool_pages p') r' = row_bytes (pool_pages p) r';
  wr_bytes : exists tb roots, row_bytes (pool_pages p') r = Some (VersionHeader.to_bytes vh ++ tb)
    /\ landed (pool_pages p) (pool_pages p') tail_id r (VersionHeader.to_bytes vh ++ tb)
    /\ rooted (pool_pages p') roots tb tuple /\ (forall i, i ∈ roots -> i ∈ new /\ i <> page_id r);
  wr_wf : forall i d, i = page_id r \/ i = tail_id -> pool_pages p' !! i = Some d -> page_wf (raw_page d);
  wr_tail : exists d, pool_pages p' !! page_id r = Some d /\ open_tail d;
  wr_page : page_id r ∈ tail_id :: new;
  wr_supply : supply p = new ++ supply p';
  wr_frame : forall i, i <> tail_id -> i ∉ new -> pool_pages p' !! i = pool_pages p !! i }.

(** A write succeeds when the pages it may need are left. *)
Lemma write_total p tail_id d vh tuple :
  supply_ok p -> in_u32 tail_id -> pool_pages p !! tail_id = Some d -> open_tail d ->
  VersionHeader.wf vh -> in_u32 (zlen tuple) -> is_overflow_ref tuple = false ->
  (length (chunk_plan (zlen tuple)) + 1 <= length (supply p))%nat ->
  exists r p' new, write_tuple_to_data_page p tail_id vh tuple = (Ok r, p', page_id r)
    /\ written p p' tail_id r vh tuple new /\ (length new <= length (chunk_plan (zlen tuple)) + 1)%nat.
Proof.
  intros S Ht Ed O Wh Hu HO HS. pose proof (open_ready d O) as R.
  pose proof (fun r p' t => write_reads p tail_id d vh tuple r p' t S Ht Ed R Wh Hu HO) as RD.
  pose proof (VersionFacts.length_to_bytes vh Wh) as HL22.
  assert (zlen (VersionHeader.to_bytes vh) = 22) as HZ by (unfold zlen; lia). unfold write_tuple_to_data_page in *.
  destruct (Z.ltb_spec INLINE_SLOT_MAX (zlen (VersionHeader.to_bytes vh ++ tuple))) as [Hbig|Hfit].
  - assert (0 < zlen tuple) as Hpos by (unfold INLINE_SLOT_MAX in Hbig; page_consts; buf_lia).
    destruct (write_chain_success p tuple S Hpos ltac:(lia))
      as (i0 & ids & cs & q & EW & Eids & C & D & ND & NZ & FR & HOth & HSq). rewrite EW in *.
    assert (Sq : supply_ok q) by (apply (supply_ok_drop p q _ S HSq); intros i; rewrite <- Eids; apply HOth).
    assert (Hin : tail_id ∉ i0 :: ids) by (intros Hin; rewrite FR in Ed; done).
    assert (Eq : pool_pages q !! tail_id = Some d) by by rewrite HOth.
    rewrite wrap32_id in * by done.
    destruct (place_slot_total q tail_id d (VersionHeader.to_bytes vh ++ encode_locator (zlen tuple) i0) (Some i0) Sq Ht Eq R)
      as (r & p' & t & new & EP & PL & -> & HP & ES & HLn & HF & HW & HT).
    { rewrite zlen_app, zlen_locator. unfold INLINE_SLOT_MAX. page_consts. lia. }
    { rewrite HSq. intros E%(f_equal length). rewrite length_drop in E. cbn in E. lia. }
    assert (ES' : supply p = (i0 :: ids) ++ new ++ supply p') by (rewrite <- ES, HSq, Eids; by rewrite take_drop).
    pose proof (sup_nodup p S) as NS. rewrite ES' in NS. apply NoDup_app in NS as (_ & Dj & _).
    exists r, p', ((i0 :: ids) ++ new). rewrite EP in *.
    destruct (RD _ _ _ eq_refl) as (N & RT & RS). split_and!; [done| |rewrite Eids, length_app, length_take; lia].
    pose proof (placed_rows _ _ _ _ _ PL r) as RB. rewrite bool_decide_eq_true_2 in RB by done.
    split; try done; [|intros i x [->| ->]; [apply (placed_wf _ _ _ _ _ PL)|apply HW]|by destruct (HT O)|set_solver|by rewrite <- app_assoc|].
    + assert (in_u32 i0) by (pose proof (sup_u32 p S) as U; rewrite ES' in U; by inversion U).
      exists (encode_locator (zlen tuple) i0), (i0 :: ids). split_and!; [exact RB| | |].
      * destruct (HT O) as [LA _]. unfold landed in *. by rewrite Eq, <- Ed in LA.
      * apply (rooted_chain _ _ _ cs); try done.
        -- apply (chain_agree (pool_pages q)); [|done]. intros i Hi. apply HF; [by intros ->|].
           intros Hn. apply (Dj i Hi). set_solver.
        -- destruct (chunk_plan_spec (zlen tuple)) as (_ & _ & Hm); [lia|].
           rewrite <- (chain_length _ _ _ C), Eids, length_take. lia.
      * intros i Hi. split; [set_solver|]. intros ->. apply elem_of_cons in HP as [HP|HP]; [by rewrite <- HP in Hin|].
        apply (Dj _ Hi). set_solver.
    + intros i Hi Hn. rewrite HF, HOth; set_solver.
  - destruct (place_slot_total p tail_id d (VersionHeader.to_bytes vh ++ tuple) None S Ht Ed R Hfit)
      as (r & p' & t & new & EP & PL & -> & HP & ES & HLn & HF & HW & HT).
    { intros E. rewrite E in HS. cbn in HS. lia. }
    exists r, p', new. rewrite EP in *. destruct (RD _ _ _ eq_refl) as (N & RT & RS). split_and!; [done| |lia].
    pose proof (placed_rows _ _ _ _ _ PL r) as RB. rewrite bool_decide_eq_true_2 in RB by done.
    split; try done; [|intros i x [->| ->]; [apply (placed_wf _ _ _ _ _ PL)|apply HW]|by destruct (HT O)].
    exists tuple, []. split_and!; [exact RB|by destruct (HT O)|by apply rooted_inline|]. intros i []%not_elem_of_nil.
Qed.

(** C14: what is written is what is read.  When [write_tuple_to_data_page]
    succeeds, whether the row fits the tail page, needs a new page, or goes to
    an overflow chain, the row id it returns was unused, reading that row
    gives exactly the version header and the tuple, and every row stored
    before still has its bytes. *)
Theorem write_read_tuple p tail_id d vh tuple r p' t :
  supply_ok p -> in_u32 tail_id -> pool_pages p !! tail_id = Some d -> tail_ready d ->
  VersionHeader.wf vh -> in_u32 (zlen tuple) -> is_overflow_ref tuple = false ->
  write_tuple_to_data_page p tail_id vh tuple = (Ok r, p', t) ->
  row_bytes (pool_pages p) r = None
  /\ read_tuple_from_data_page (pool_pages p') r = Ok (vh, tuple)
  /\ (forall r', r' <> r -> is_Some (pool_pages p !! page_id r') ->
       row_bytes (pool_pages p') r' = row_bytes (pool_pages p) r').
Proof. apply write_reads. Qed.

Lemma write_read_tuple_witness :
  let vh := VersionHeader.vh_new 7 None in
  let tuple := enc_values [VInt 42; VNull] in
  exists r p' t,
    write_tuple_to_data_page demo_pool 1 vh tuple = (Ok r, p', t)
    /\ read_tuple_from_data_page (pool_pages p') r = Ok (vh, tuple).
Proof.
  cbv zeta. eexists _, _, _. split; [vm_compute; reflexivity|].
  eapply (write_read_tuple demo_pool 1 page_zeroed (VersionHeader.vh_new 7 None)
            (enc_values [VInt 42; VNull])).
  - apply demo_pool_ok.
  - word_lia.
  - reflexivity.
  - left. reflexivity.
  - apply VersionFacts.vh_new_wf; [word_lia|done].
  - vm_compute. split; discriminate.
  - vm_compute. reflexivity.
  - vm_compute. reflexivity.
Defined.

(** A tail page filled by one 4060-byte row. *)
Definition full_page : list byte :=
  match sp_init (E:=PageWriteError) page_zeroed Byte.x03 with
  | Ok p => match add_slot p (replicate 4060 Byte.x01) with Ok (p, _) => page p | _ => [] end
  | _ => []
  end.

(** The promise that a failed write releases the overflow chain it
    allocated does not cover every failure.  When the locator finds the tail
    page full and no further page can be allocated, the write fails and the
    chain's pages stay allocated and unreferenced. *)
Theorem overflow_chain_leaks :
  let p := mk_pool {[ 1 := full_page ]} [5; 9] [] in
  let '(res, p', _) :=
    write_tuple_to_data_page p 1 (VersionHeader.vh_new 7 None) (replicate 4081 Byte.x61) in
  res = Err StorageAllocFailed /\ freed p' = []
  /\ is_Some (pool_pages p' !! 5) /\ is_Some (pool_pages p' !! 9).
Proof.
  cbv zeta.
  destruct (write_tuple_to_data_page (mk_pool {[ 1 := full_page ]} [5; 9] []) 1
              (VersionHeader.vh_new 7 None) (replicate 4081 Byte.x61)) as [[res p'] t] eqn:E.
  vm_compute in E. injection E as <- <- _. split_and!; [done|done| |]; vm_compute; eauto.
Qed.

(** *** Rewriting a header *)

Lemma splice_keep {A} (l : list A) a bs b :
  0 <= a -> a + zlen bs <= b -> b <= zlen l ->
  splice l a (bs ++ slice l (a + zlen bs) b) = splice l a bs.
Proof.
  intros H1 H2 H3. pose proof (zlen_nonneg bs). unfold splice, slice. rewrite <- app_assoc.
  f_equal. f_equal. rewrite zlen_app.
  assert (zlen (take (Z.to_nat (b - (a + zlen bs))) (drop (Z.to_nat (a + zlen bs)) l))
          = b - (a + zlen bs)) as ->.
  { unfold zlen in *. rewrite length_take, length_drop. lia. }
  rewrite <- (take_drop (Z.to_nat (b - (a + zlen bs))) (drop (Z.to_nat (a + zlen bs)) l)) at 2.
  f_equal. rewrite drop_drop. f_equal. lia.
Qed.

Lemma a_find_lookup lid es i j bs :
  a_find lid es i = Some (j, bs) -> exists k, j = i + Z.of_nat k /\ es !! k = Some (lid, bs).
Proof.
  revert i. induction es as [|[l b] es IH]; intros i; cbn [a_find]; [done|].
  destruct (Z.eqb_spec l lid) as [->|].
  - intros [= -> ->]. exists 0%nat. split; [lia|done].
  - intros (k & -> & H)%IH. exists (S k). split; [lia|done].
Qed.

Lemma a_find_insert lid es i j bs bs' lid' :
  a_find lid es i = Some (j, bs) ->
  snd <$> a_find lid' (<[Z.to_nat (j - i) := (lid, bs')]> es) i
  = if lid' =? lid then Some bs' else snd <$> a_find lid' es i.
Proof.
  revert i. induction es as [|[l b] es IH]; intros i; cbn [a_find]; [done|].
  destruct (Z.eqb_spec l lid) as [->|Hne].
  - intros [= -> ->]. rewrite Z.sub_diag. change (Z.to_nat 0) with 0%nat.
    cbn [insert list_insert a_find]. rewrite (Z.eqb_sym lid lid').
    by destruct (lid' =? lid).
  - intros H. pose proof (a_find_lookup _ _ _ _ _ H) as (k & -> & _).
    replace (Z.to_nat (i + 1 + Z.of_nat k - i)) with (S k) by lia.
    cbn [insert list_insert a_find].
    specialize (IH _ H). replace (Z.to_nat (i + 1 + Z.of_nat k - (i + 1))) with k in IH by lia.
    destruct (Z.eqb_spec l lid') as [->|]; [by rewrite (proj2 (Z.eqb_neq _ _)) by done|done].
Qed.

(** On a well-formed page the header rewrite is the in-place update of the
    whole slot with the new header and the old tuple. *)
Lemma header_update_is_update p r h d bytes q :
  let new := VersionHeader.to_bytes h ++ slice bytes 22 (zlen bytes) in
  pool_pages p !! page_id r = Some d -> page_wf (raw_page d) -> VersionHeader.wf h ->
  snd <$> a_find (slot_id r) (entries (raw_page d)) 0 = Some bytes -> 22 <= zlen bytes ->
  update_slot_in_place (raw_page d) (slot_id r) new = Ok q ->
  update_version_header_in_data_page p r h = Ok (modify p (page_id r) (page q)).
Proof.
  intros new Ed W Wh HB HS. pose proof (VersionFacts.length_to_bytes h Wh) as HL22.
  assert (zlen (VersionHeader.to_bytes h) = 22) as HZ by (unfold zlen; lia).
  unfold update_version_header_in_data_page, update_slot_in_place. rewrite Ed.
  pose proof (wf_len _ W) as HLd. cbn [raw_page page] in HLd.
  rewrite raw_page_new, exec_bind_ret, wf_not_exceeds, !sp_find_ok, !exec_bind_ret by done.
  rewrite a_find_abs in HB.
  destruct (find_lid (slot_id r) (slots (raw_page d)) 0) as [[s j]|] eqn:Hf; [|done].
  cbn [fmap option_fmap option_map fst snd] in HB.
  assert (bytes = payload (page (raw_page d)) s) as -> by congruence. clear HB.
  apply find_lid_Some in Hf as (k & _ & Hk & _). apply list_elem_of_lookup_2 in Hk.
  pose proof (wf_payload_len _ s W Hk) as HPL. destruct (negb (length_ s =? zlen new)) eqn:HN; [done|].
  apply negb_false_iff, Z.eqb_eq in HN.
  destruct (negb (slot_payload_in_bounds _ _ _)); [done|].
  rewrite (proj2 (Z.ltb_ge (length_ s) _)) by (unfold VersionHeader.SIZE; lia).
  destruct (slot_nonneg _ s W Hk) as [Hs0 _]. pose proof (wf_slots _ W) as F.
  rewrite Forall_forall in F. destruct (F s Hk) as [Fo Ff].
  pose proof (wf_fit _ W) as Hfit. pose proof (wf_slot_count _ W) as Hsc.
  cbn [raw_page page page_header] in *.
  rewrite !splice_set_ok, !exec_bind_ret by lia. intros [= <-]. cbn [page]. do 2 f_equal.
  unfold new, payload in *. rewrite HPL, slice_slice by lia.
  replace (slice d (offset s + 22) (offset s + length_ s))
    with (slice d (offset s + zlen (VersionHeader.to_bytes h)) (offset s + length_ s))
    by (by rewrite HZ).
  by rewrite splice_keep by lia.
Qed.

(** A header rewrite on the page image. *)
Lemma header_update_ok p r h d bytes :
  let new := VersionHeader.to_bytes h ++ slice bytes 22 (zlen bytes) in
  pool_pages p !! page_id r = Some d -> page_wf (raw_page d) -> VersionHeader.wf h ->
  row_bytes (pool_pages p) r = Some bytes -> VersionHeader.SIZE <= zlen bytes ->
  exists d' i, update_version_header_in_data_page p r h = Ok (modify p (page_id r) d')
    /\ page_wf (raw_page d') /\ header_at d' = header_at d
    /\ entries (raw_page d) !! i = Some (slot_id r, bytes)
    /\ entries (raw_page d') = <[i := (slot_id r, new)]> (entries (raw_page d))
    /\ forall r', row_bytes (<[page_id r := d']> (pool_pages p)) r' =
         if bool_decide (r' = r) then Some new else row_bytes (pool_pages p) r'.
Proof.
  intros new Ed W Wh HB HS. unfold VersionHeader.SIZE in HS.
  pose proof (VersionFacts.length_to_bytes h Wh) as HL22.
  assert (zlen new = zlen bytes) as HN
    by (unfold new; rewrite zlen_app, zlen_slice by lia; unfold zlen in *; lia).
  pose proof HB as HB'. unfold row_bytes in HB. rewrite Ed in HB. cbn [mbind option_bind] in HB.
  destruct (a_find (slot_id r) (entries (raw_page d)) 0) as [[i b]|] eqn:EF; [|done].
  cbn [fmap option_fmap option_map snd] in HB. assert (b = bytes) as -> by congruence.
  pose proof (update_spec (raw_page d) (slot_id r) new W) as U. pose proof EF as EF'.
  rewrite a_find_abs in EF. destruct (find_lid (slot_id r) (slots (raw_page d)) 0) as [[s j]|] eqn:Hf;
    [|done]. cbn [fmap option_fmap option_map fst snd] in EF.
  assert (j = i) as -> by congruence.
  assert (payload (page (raw_page d)) s = bytes) as EB by congruence.
  apply find_lid_Some in Hf as (k & _ & Hk & _). apply list_elem_of_lookup_2 in Hk.
  rewrite HN, <- EB, (wf_payload_len _ s W Hk), Z.eqb_refl in U. cbn [negb] in U.
  destruct U as (q & Uq & Wq & Aq). apply (f_equal a_entries) in Aq. cbn [abs a_entries] in Aq.
  assert (page_header q = header_at d) as HQ.
  { unfold update_slot_in_place in Uq. destruct (slot_count_exceeds_capacity _); [done|].
    destruct (sp_get_slot_by_logical_id _ _) as [[[? ?]|]| |]; cbn [exec_bind] in Uq; try done.
    repeat (case_match; [done|]). destruct (splice_set _ _ _); cbn [exec_bind] in Uq; try done. by injection Uq as <-. }
  exists (page q), (Z.to_nat i). rewrite (raw_of_wf q Wq). split_and!; [|done|by rewrite (wf_header q Wq)| |done|].
  { apply (header_update_is_update p r h d bytes q); try done. by rewrite EF'. }
  { destruct (a_find_lookup _ _ _ _ _ EF') as (k' & -> & E). by rewrite Z.add_0_l, Nat2Z.id. }
  intros [pid lid]. unfold row_bytes. cbn [page_id slot_id].
  destruct (decide (pid = page_id r)) as [->|Hne].
  - rewrite lookup_insert_eq, Ed. cbn [mbind option_bind]. rewrite (raw_of_wf q Wq), Aq.
    rewrite <- (Z.sub_0_r i). rewrite (a_find_insert _ _ _ _ _ _ _ EF').
    destruct (Z.eqb_spec lid (slot_id r)) as [->|Hn].
    + rewrite bool_decide_eq_true_2; [done|]. by destruct r.
    + rewrite bool_decide_eq_false_2; [done|]. by intros H%(f_equal slot_id).
  - rewrite lookup_insert_ne by done. rewrite bool_decide_eq_false_2; [done|].
    by intros H%(f_equal page_id).
Qed.

(** rewriting a version header in place (commit, delete, abort marks) changes
    the first 22 bytes of that row and nothing else: the tuple behind the
    header and every other row keep their bytes, and the page stays
    well-formed. *)
Theorem header_update_row p r h d bytes :
  pool_pages p !! page_id r = Some d -> page_wf (raw_page d) -> VersionHeader.wf h ->
  row_bytes (pool_pages p) r = Some bytes -> VersionHeader.SIZE <= zlen bytes ->
  exists p' d', update_version_header_in_data_page p r h = Ok p'
    /\ pool_pages p' = <[page_id r := d']> (pool_pages p) /\ page_wf (raw_page d')
    /\ forall r', row_bytes (pool_pages p') r' =
         if bool_decide (r' = r) then Some (VersionHeader.to_bytes h ++ slice bytes 22 (zlen bytes))
         else row_bytes (pool_pages p) r'.
Proof.
  intros Ed W Wh HB HS. destruct (header_update_ok p r h d bytes Ed W Wh HB HS) as (d' & i & E & W' & _ & _ & _ & HR).
  by exists (modify p (page_id r) d'), d'.
Qed.

(** Page 1 of this pool holds one committed-to-be row. *)
Definition one_row_pool : Pool :=
  (write_tuple_to_data_page demo_pool 1 (VersionHeader.vh_new 7 None) (enc_values [VInt 42])).1.2.

Lemma one_row_page_wf d : pool_pages one_row_pool !! 1 = Some d -> page_wf (raw_page d).
Proof.
  destruct (write_tuple_to_data_page demo_pool 1 (VersionHeader.vh_new 7 None) (enc_values [VInt 42]))
    as [[[r| |] p'] t] eqn:E; [|exfalso; vm_compute in E; discriminate E..].
  unfold one_row_pool. rewrite E. cbn [fst snd].
  assert (page_id r = 1) as HR by (vm_compute in E; injection E as <- _; reflexivity).
  intros Hd. eapply (placed_wf demo_pool p' 1 r).
  - unfold write_tuple_to_data_page in E.
    change (INLINE_SLOT_MAX <? _) with false in E. cbv iota in E.
    eapply (place_slot_ok demo_pool 1 page_zeroed); [apply demo_pool_ok|word_lia|reflexivity
      |left; reflexivity| |exact E]. vm_compute. discriminate.
  - by rewrite HR.
Qed.

Lemma header_update_row_witness :
  exists p' d', update_version_header_in_data_page one_row_pool (mk_row_id 1 0)
      (VersionHeader.vh_commit (VersionHeader.vh_new 7 None) 7) = Ok p'
    /\ pool_pages p' = <[1 := d']> (pool_pages one_row_pool) /\ page_wf (raw_page d')
    /\ forall r', row_bytes (pool_pages p') r' =
         if bool_decide (r' = mk_row_id 1 0)
         then Some (VersionHeader.to_bytes (VersionHeader.vh_commit (VersionHeader.vh_new 7 None) 7)
                    ++ slice (VersionHeader.to_bytes (VersionHeader.vh_new 7 None)
                              ++ enc_values [VInt 42]) 22 31)
         else row_bytes (pool_pages one_row_pool) r'.
Proof.
  destruct (pool_pages one_row_pool !! 1) as [d|] eqn:E; [|vm_compute in E; discriminate E].
  apply (header_update_row one_row_pool (mk_row_id 1 0) _ d
           (VersionHeader.to_bytes (VersionHeader.vh_new 7 None) ++ enc_values [VInt 42])).
  - exact E.
  - by apply one_row_page_wf.
  - split_and!; vm_compute; done.
  - vm_compute. reflexivity.
  - vm_compute. discriminate.
Defined.
