(* ===== verification/DataScan.v ===== *)
(** * Table scans and snapshot reads

    [DataScanExecutor] (executor/data_scan.rs) walks a table's data page chain
    and yields the rows a statement may see; [find_visible_version] and the
    page visibility summary (storage/buffer_pool.rs) serve point reads and the
    scan's fast paths.  Pages are the byte images of DataPage.v; a scan reads a
    fixed set of pages, the summary map is threaded because the scan writes
    it.  Loops that follow page links take fuel ([None] is "out of fuel"): the
    code has no cycle check there, so a cyclic chain never ends. *)

From Stdlib Require Import ZArith Strings.Byte Lia.
From stdpp Require Import base tactics list numbers gmap.
From S2P Require Import Prelude RowKey PageLayout Values Tuple Version Overflow DataPage.
Import RowId.

Inductive ScanError :=
| ScanStorage (e : StorageError)
| ScanTuple (e : TupleError)
| PredicateFailed
| ChainTooDeep
| NarrowingInFlight.

Abbreviation Pages := (gmap Z (list byte)).
Abbreviation VisMap := (gmap Z PageVis.vis_info).
Abbreviation SupersededMap := (gmap RowId (RowId * Z)).

Definition never {E} (e : Empty_set) : E := match e with end.

(** ** The page visibility summary *)

Definition get_visibility (m : VisMap) (pid : Z) : option PageVis.vis_info := m !! pid.

Definition set_all_visible (m : VisMap) (pid : Z) : VisMap :=
  match m !! pid with
  | Some i => <[pid := PageVis.mk (PageVis.min_create_tx_id i) true]> m
  | None => <[pid := PageVis.mk u64_max true]> m
  end.

Definition clear_all_visible (m : VisMap) (pid : Z) : VisMap :=
  match m !! pid with
  | Some i => <[pid := PageVis.mk (PageVis.min_create_tx_id i) false]> m
  | None => <[pid := PageVis.mk PageVis.MIN_CREATE_UNKNOWN false]> m
  end.

Definition update_visibility_on_insert (m : VisMap) (pid create : Z) : VisMap :=
  match m !! pid with
  | Some i => <[pid := PageVis.mk (Z.min (PageVis.min_create_tx_id i) create) false]> m
  | None => <[pid := PageVis.mk create false]> m
  end.

(** The loop of [check_page_all_visible] over the slots [i, i+1, ...]. *)
Fixpoint all_visible_from (p : SlottedPageRef) (s : Snapshot.snapshot) (n : nat) (i : Z)
    : exec StorageError bool :=
  match n with
  | O => Ok true
  | S n =>
      let? slot := get_slot p i in
      match slot with
      | None => all_visible_from p s n (i + 1)
      | Some slot =>
          match get_slot_data_checked p slot with
          | None => Ok false
          | Some slot_data =>
              if zlen slot_data <? VersionHeader.SIZE then Ok false
              else
                match VersionHeader.from_bytes (slice slot_data 0 VersionHeader.SIZE) with
                | None => Ok false
                | Some vh =>
                    if bool_decide (VersionHeader.commit_tx_id vh = None)
                       || VersionHeader.is_deleted vh then Ok false
                    else if Snapshot.high_water s <? VersionHeader.create_tx_id vh then Ok false
                    else if Snapshot.contains_active_tx s (VersionHeader.create_tx_id vh)
                         then Ok false
                    else all_visible_from p s n (i + 1)
                end
          end
      end
  end.

(** [.unwrap_or(false)]: a page that cannot be read is not all visible. *)
Definition check_page_all_visible (pages : Pages) (pid : Z) (s : Snapshot.snapshot)
    : exec StorageError bool :=
  match pages !! pid with
  | None => Ok false
  | Some d =>
      match
        let? slotted := ref_new d in
        if slot_count_exceeds_capacity (header slotted) then Ok false
        else all_visible_from slotted s (Z.to_nat (slot_count (header slotted))) 0
      with
      | Err _ => Ok false
      | r => r
      end
  end.

(** ** The superseded-version map *)

Record VersionLink := mk_link { link_rid : RowId; link_tx : Z; link_target : RowId }.

Fixpoint page_links_from (p : SlottedPageRef) (pid : Z) (n : nat) (i : Z)
    : exec StorageError (list VersionLink) :=
  match n with
  | O => Ok []
  | S n =>
      let? slot := get_slot p i in
      match slot with
      | None => page_links_from p pid n (i + 1)
      | Some slot =>
          match get_slot_data_checked p slot with
          | None => Err (CorruptedSlot pid i slot)
          | Some slot_data =>
              if zlen slot_data <? VersionHeader.SIZE then page_links_from p pid n (i + 1)
              else
                match VersionHeader.from_bytes (slice slot_data 0 VersionHeader.SIZE) with
                | None => page_links_from p pid n (i + 1)
                | Some vh =>
                    let? target := exec_map_err never (VersionHeader.next_version vh) in
                    let? links := page_links_from p pid n (i + 1) in
                    match target with
                    | None => Ok links
                    | Some target =>
                        Ok (mk_link (mk_row_id (wrap32 pid) (logical_id slot))
                              (VersionHeader.create_tx_id vh) target :: links)
                    end
                end
          end
      end
  end.

Definition page_links (d : list byte) (pid : Z) : exec StorageError (Z * list VersionLink) :=
  let? slotted := ref_new d in
  if slot_count_exceeds_capacity (header slotted)
  then Err (CorruptedSlotCount pid (slot_count (header slotted)))
  else
    let? links := page_links_from slotted pid (Z.to_nat (slot_count (header slotted))) 0 in
    Ok (next_page_id (header slotted), links).

(** Two superseders of one target: the newer creator wins. *)
Definition merge_link (m : SupersededMap) (l : VersionLink) : SupersededMap :=
  match m !! link_target l with
  | Some (_, existing_tx) =>
      if link_tx l <? existing_tx then m else <[link_target l := (link_rid l, link_tx l)]> m
  | None => <[link_target l := (link_rid l, link_tx l)]> m
  end.

Fixpoint build_superseded_map (pages : Pages) (fuel : nat) (pid : Z) (m : SupersededMap)
    : option (exec StorageError SupersededMap) :=
  match fuel with
  | O => None
  | S fuel =>
      match pages !! pid with
      | None => Some (Err (StoragePageMissing pid))
      | Some d =>
          match page_links d pid with
          | Err e => Some (Err e)
          | Panic => Some Panic
          | Ok (next, links) =>
              let m := foldl merge_link m links in
              if next =? 0 then Some (Ok m) else build_superseded_map pages fuel next m
          end
      end
  end.

Definition MAX_CHAIN_DEPTH : nat := 64.

Definition superseder_suppresses (vh : VersionHeader.vheader)
    (snapshot : option Snapshot.snapshot) (active_tx_ids : gset Z) : bool :=
  let create := VersionHeader.create_tx_id vh in
  if create =? 0 then false
  else if VersionHeader.is_deleted vh then
    match snapshot with
    | None => negb (bool_decide (create ∈ active_tx_ids))
    | Some s => (create =? Snapshot.tx_id s) || negb (Snapshot.contains_active_tx s create)
    end
  else
    match VersionHeader.commit_tx_id vh with
    | None => false
    | Some commit =>
        match snapshot with
        | None => true
        | Some s => Snapshot.is_visible s create (Some commit)
        end
    end.

(** The loop of [slot_is_superseded]; [n] is the number of versions that may
    still be read. *)
Fixpoint walk_superseders (pages : Pages) (m : SupersededMap)
    (snapshot : option Snapshot.snapshot) (active : gset Z) (n : nat) (current : RowId)
    : exec ScanError bool :=
  match n with
  | O => Err ChainTooDeep
  | S n =>
      let? (vh, _) := exec_map_err ScanStorage (read_tuple_from_data_page pages current) in
      if superseder_suppresses vh snapshot active then Ok true
      else
        match m !! current with
        | None => Ok false
        | Some (next, _) => walk_superseders pages m snapshot active n next
        end
  end.

Definition slot_is_superseded (pages : Pages) (m : SupersededMap)
    (snapshot : option Snapshot.snapshot) (active : gset Z) (rid : RowId)
    : exec ScanError bool :=
  match m !! rid with
  | None => Ok false
  | Some (superseder, _) => walk_superseders pages m snapshot active MAX_CHAIN_DEPTH superseder
  end.

(** ** The scan *)

Inductive PageAction :=
| YieldValue (values : list Value)
| YieldOverflow (total_len first_page : Z)
| SkipSlot
| JumpToPage (page_id : Z)
| Done.

(** [tx_manager] is what [active_transactions] answers, [None] when the scan
    was built without a manager.  The prefetch fields are left out: a prefetch
    only warms the buffer pool. *)
Record DataScan := mk_scan {
  schema : list ColumnType;
  defaults : list (option Value);
  scan_snapshot : option Snapshot.snapshot;
  predicate : option (list Value -> exec ValueError bool);
  scan_cap : option nat;
  produced : nat;
  current_page_id : option Z;
  current_slot_index : Z;
  projection : list nat;
  data_page_head : Z;
  superseded_map : option SupersededMap;
  tx_manager : option (list Z);
  scan_active : option (gset Z);
  narrowing : bool }.

Definition scan_new (schema : list ColumnType) (defaults : list (option Value)) (head : Z)
    (narrowing : bool) (snapshot : option Snapshot.snapshot)
    (predicate : option (list Value -> exec ValueError bool)) (scan_cap : option nat)
    (tx_manager : option (list Z)) : DataScan :=
  mk_scan schema defaults snapshot predicate scan_cap 0 (Some head) 0 [] head None tx_manager
    None narrowing.

Definition with_projection (s : DataScan) (p : list nat) : DataScan :=
  mk_scan (schema s) (defaults s) (scan_snapshot s) (predicate s) (scan_cap s) (produced s)
    (current_page_id s) (current_slot_index s) p (data_page_head s) (superseded_map s)
    (tx_manager s) (scan_active s) (narrowing s).

(** The scan with its cursor moved. *)
Definition at_ (s : DataScan) (pid : option Z) (index : Z) : DataScan :=
  mk_scan (schema s) (defaults s) (scan_snapshot s) (predicate s) (scan_cap s) (produced s)
    pid index (projection s) (data_page_head s) (superseded_map s) (tx_manager s)
    (scan_active s) (narrowing s).

Definition counted (s : DataScan) : DataScan :=
  mk_scan (schema s) (defaults s) (scan_snapshot s) (predicate s) (scan_cap s) (S (produced s))
    (current_page_id s) (current_slot_index s) (projection s) (data_page_head s)
    (superseded_map s) (tx_manager s) (scan_active s) (narrowing s).

Definition filter_row (predicate : option (list Value -> exec ValueError bool))
    (values : list Value) : exec ScanError (option (list Value)) :=
  match predicate with
  | None => Ok (Some values)
  | Some p =>
      match p values with
      | Ok true => Ok (Some values)
      | Ok false => Ok None
      | Err _ => Err PredicateFailed
      | Panic => Panic
      end
  end.

Fixpoint project {E} (cols : list nat) (values : list Value) : exec E (list Value) :=
  match cols with
  | [] => Ok []
  | i :: cols =>
      match values !! i with
      | None => Panic
      | Some v => let? vs := project cols values in Ok (v :: vs)
      end
  end.

Definition apply_projection {E} (projection : list nat) (values : list Value)
    : exec E (list Value) :=
  match projection with [] => Ok values | cols => project cols values end.

Definition yield_capped (s : DataScan) (values : list Value) : option (list Value) * DataScan :=
  match scan_cap s with
  | None => (Some values, s)
  | Some cap =>
      if (cap <=? produced s)%nat then (None, at_ s None (current_slot_index s))
      else (Some values, counted s)
  end.

(** The page closure of [next]: what the slot at [index] gives and the index
    of the slot after it. *)
Definition page_action (s : DataScan) (d : list byte) (pid index : Z)
    (page_all_visible page_all_invisible : bool) : exec ScanError (PageAction * Z) :=
  let? slotted := ref_new d in
  if slot_count_exceeds_capacity (header slotted)
  then Err (ScanStorage (CorruptedSlotCount pid (slot_count (header slotted))))
  else
    let next := next_page_id (header slotted) in
    let leave := if next =? 0 then Done else JumpToPage next in
    if page_all_invisible then Ok (leave, index)
    else if slot_count (header slotted) <=? index then Ok (leave, index)
    else
      let? slot := get_slot slotted index in
      match slot with
      | None => Panic
      | Some slot =>
          match get_slot_data_checked slotted slot with
          | None => Err (ScanStorage (CorruptedSlot pid index slot))
          | Some slot_data =>
              if zlen slot_data <? VersionHeader.SIZE then Ok (SkipSlot, index + 1)
              else
                match VersionHeader.from_bytes (slice slot_data 0 VersionHeader.SIZE) with
                | None => Err (ScanStorage MalformedVersionHeader)
                | Some vh =>
                    let tuple_bytes := slice slot_data VersionHeader.SIZE (zlen slot_data) in
                    let create := VersionHeader.create_tx_id vh in
                    let commit := VersionHeader.commit_tx_id vh in
                    if VersionHeader.is_deleted vh then Ok (SkipSlot, index + 1)
                    else if negb page_all_visible
                            && match scan_snapshot s with
                               | None => false
                               | Some sn =>
                                   negb (Snapshot.is_visible sn create commit
                                         || Snapshot.is_visible_self sn create commit)
                               end
                    then Ok (SkipSlot, index + 1)
                    else if is_overflow_ref tuple_bytes then
                      match decode_locator tuple_bytes with
                      | None => Err (ScanStorage MalformedLocator)
                      | Some (total_len, first_page) =>
                          Ok (YieldOverflow total_len first_page, index + 1)
                      end
                    else
                      let? values := exec_map_err ScanTuple
                                       (deserialize_row tuple_bytes (schema s) (defaults s)) in
                      Ok (YieldValue values, index + 1)
                end
          end
      end.

(** One turn of the loop of [next] at page [pid]: [inl] is the answer of
    [next], [inr] the scan to continue with.  A scan that failed is dropped by
    its caller, so an error carries no scan. *)
Definition scan_turn (pages : Pages) (s : DataScan) (vis : VisMap) (m : SupersededMap)
    (active : gset Z) (pid : Z)
    : exec ScanError (option (list Value) * DataScan + DataScan) * VisMap :=
  let index := current_slot_index s in
  match slot_is_superseded pages m (scan_snapshot s) active
          (mk_row_id (wrap32 pid) (wrap16 index)) with
  | Err e => (Err e, vis)
  | Panic => (Panic, vis)
  | Ok true => (Ok (inr (at_ s (Some pid) (index + 1))), vis)
  | Ok false =>
      let page_vis := get_visibility vis pid in
      let page_all_visible :=
        match page_vis with Some v => PageVis.all_visible v | None => false end in
      let page_all_invisible :=
        match scan_snapshot s, page_vis with
        | Some sn, Some v => PageVis.all_invisible_for v (Snapshot.high_water sn)
        | _, _ => false
        end in
      match pages !! pid with
      | None => (Err (ScanStorage (StoragePageMissing pid)), vis)
      | Some d =>
          match page_action s d pid index page_all_visible page_all_invisible with
          | Err e => (Err e, vis)
          | Panic => (Panic, vis)
          | Ok (action, index) =>
              let s := at_ s (Some pid) index in
              let leaving := match action with JumpToPage _ | Done => true | _ => false end in
              match
                match scan_snapshot s with
                | Some sn =>
                    if negb page_all_visible && negb page_all_invisible && leaving
                    then check_page_all_visible pages pid sn
                    else Ok false
                | None => Ok false
                end
              with
              | Err e => (Err (ScanStorage e), vis)
              | Panic => (Panic, vis)
              | Ok armed =>
              (let? action :=
                 match action with
                 | YieldOverflow total_len first_page =>
                     let? bytes := exec_map_err (fun e => ScanStorage (OverflowFailed e))
                                     (read_overflow_chain pages first_page total_len) in
                     let? values := exec_map_err ScanTuple
                                      (deserialize_row bytes (schema s) (defaults s)) in
                     Ok (YieldValue values)
                 | other => Ok other
                 end in
               match action with
               | YieldValue values =>
                   let? kept := filter_row (predicate s) values in
                   match kept with
                   | Some values =>
                       let? row := apply_projection (projection s) values in
                       Ok (inl (yield_capped s row))
                   | None => Ok (inr s)
                   end
               | SkipSlot => Ok (inr s)
               | JumpToPage next_id => Ok (inr (at_ s (Some next_id) 0))
               | Done => Ok (inl (None, at_ s None index))
               | YieldOverflow _ _ => Panic
               end, if armed then set_all_visible vis pid else vis)
              end
          end
      end
  end.

Fixpoint scan_loop (pages : Pages) (m : SupersededMap) (active : gset Z) (fuel : nat)
    (s : DataScan) (vis : VisMap)
    : option (exec ScanError (option (list Value) * DataScan) * VisMap) :=
  match fuel with
  | O => None
  | S fuel =>
      match current_page_id s with
      | None => Some (Ok (None, s), vis)
      | Some pid =>
          match scan_turn pages s vis m active pid with
          | (Err e, vis) => Some (Err e, vis)
          | (Panic, vis) => Some (Panic, vis)
          | (Ok (inl r), vis) => Some (Ok r, vis)
          | (Ok (inr s), vis) => scan_loop pages m active fuel s vis
          end
      end
  end.

(** The scan with the map and the active set captured by the first call. *)
Definition captured (s : DataScan) (m : SupersededMap) (active : gset Z) : DataScan :=
  mk_scan (schema s) (defaults s) (scan_snapshot s) (predicate s) (scan_cap s) (produced s)
    (current_page_id s) (current_slot_index s) (projection s) (data_page_head s) (Some m)
    (tx_manager s) (Some active) (narrowing s).

Definition scan_next (pages : Pages) (fuel : nat) (s : DataScan) (vis : VisMap)
    : option (exec ScanError (option (list Value) * DataScan) * VisMap) :=
  if narrowing s then Some (Err NarrowingInFlight, vis)
  else
    let built := match superseded_map s with
                 | Some m => Some (Ok m)
                 | None => build_superseded_map pages fuel (data_page_head s) ∅
                 end in
    match built with
    | None => None
    | Some (Err e) => Some (Err (ScanStorage e), vis)
    | Some Panic => Some (Panic, vis)
    | Some (Ok m) =>
        let active := match scan_active s with
                      | Some a => a
                      | None => match tx_manager s with
                                | Some ids => list_to_set ids
                                | None => ∅
                                end
                      end in
        scan_loop pages m active fuel (captured s m active) vis
    end.

(** ** [find_visible_version] *)

(** A slot read under the page lock: [None] when the page has no such slot. *)
Definition visible_slot (d : list byte) (r : RowId)
    : exec StorageError (option (list byte)) :=
  let pid := page_id r in
  let? slotted := ref_new d in
  if slot_count_exceeds_capacity (header slotted)
  then Err (CorruptedSlotCount pid (slot_count (header slotted)))
  else
    let? found := get_slot_by_logical_id slotted (slot_id r) in
    match found with
    | None => Ok None
    | Some (slot, slot_index) =>
        match get_slot_data_checked slotted slot with
        | None => Err (CorruptedSlot pid slot_index slot)
        | Some slot_data =>
            if zlen slot_data <? VersionHeader.SIZE then Err (ShortSlot pid slot_index slot)
            else Ok (Some slot_data)
        end
    end.

(** The tuple segment of a slot handed to the reader: inline bytes, or the
    chain a locator names. *)
Definition slot_tuple (pages : Pages) (tuple_bytes : list byte)
    : exec StorageError (list byte) :=
  if is_overflow_ref tuple_bytes then
    match decode_locator tuple_bytes with
    | None => Err MalformedLocator
    | Some (total_len, first_page) =>
        exec_map_err OverflowFailed (read_overflow_chain pages first_page total_len)
    end
  else Ok tuple_bytes.

Fixpoint walk_versions (pages : Pages) (s : Snapshot.snapshot) (fuel : nat)
    (current : option RowId) : option (exec StorageError (option (list byte))) :=
  match fuel with
  | O => None
  | S fuel =>
      match current with
      | None => Some (Ok None)
      | Some r =>
          match pages !! page_id r with
          | None => Some (Err (StoragePageMissing (page_id r)))
          | Some d =>
              match visible_slot d r with
              | Err e => Some (Err e)
              | Panic => Some Panic
              | Ok None => Some (Ok None)
              | Ok (Some slot_data) =>
                  match VersionHeader.from_bytes (slice slot_data 0 VersionHeader.SIZE) with
                  | None => Some (Ok None)
                  | Some vh =>
                      let create := VersionHeader.create_tx_id vh in
                      let commit := VersionHeader.commit_tx_id vh in
                      if Snapshot.is_visible s create commit
                         || Snapshot.is_visible_self s create commit
                      then Some (let? bytes := slot_tuple pages
                                   (slice slot_data VersionHeader.SIZE (zlen slot_data)) in
                                 Ok (Some bytes))
                      else
                        match exec_map_err never (VersionHeader.next_version vh) with
                        | Ok next => walk_versions pages s fuel next
                        | Err e => Some (Err e)
                        | Panic => Some Panic
                        end
                  end
              end
          end
      end
  end.

(** The reader's closure is applied by the caller to the bytes returned. *)
Definition find_visible_version (pages : Pages) (vis : VisMap) (fuel : nat) (r : RowId)
    (s : Snapshot.snapshot) : option (exec StorageError (option (list byte))) :=
  match get_visibility vis (page_id r) with
  | Some v =>
      if PageVis.all_visible v then
        Some (match pages !! page_id r with
              | None => Err (StoragePageMissing (page_id r))
              | Some d =>
                  let? found := visible_slot d r in
                  match found with
                  | None => Ok None
                  | Some slot_data =>
                      let? bytes := slot_tuple pages
                        (slice slot_data VersionHeader.SIZE (zlen slot_data)) in
                      Ok (Some bytes)
                  end
              end)
      else if PageVis.all_invisible_for v (Snapshot.high_water s) then Some (Ok None)
      else walk_versions pages s fuel (Some r)
  | None => walk_versions pages s fuel (Some r)
  end.

(** ** What a chain of pages stores *)

Record SlotRow := mk_row {
  row_rid : RowId; row_vh : VersionHeader.vheader; row_tuple : list byte }.

Definition header_of (bytes : list byte) : VersionHeader.vheader :=
  default (VersionHeader.vh_new 0 None) (VersionHeader.from_bytes bytes).

Definition page_rows (pid : Z) (d : list byte) : list SlotRow :=
  (fun '(lid, bytes) => mk_row (mk_row_id pid lid) (header_of (slice bytes 0 22))
     (slice bytes 22 (zlen bytes))) <$> entries (raw_page d).

(** A well-formed data page: dense logical ids, every slot a version. *)
Record scan_page (pid : Z) (d : list byte) : Prop := {
  sc_pid : in_u32 pid;
  sc_wf : page_wf (raw_page d);
  sc_dense : fst <$> entries (raw_page d) = seqZ 0 (zlen (entries (raw_page d)));
  sc_versions : Forall (fun e => 22 <= zlen (snd e)) (entries (raw_page d)) }.

(** [ids] is the page chain from its first page to the terminal one. *)
Fixpoint data_chain (pages : Pages) (ids : list Z) : Prop :=
  match ids with
  | [] => False
  | pid :: rest =>
      (exists d, pages !! pid = Some d /\ scan_page pid d
                 /\ next_page_id (header_at d) = hd 0 rest)
      /\ (rest = [] \/ hd 0 rest <> 0 /\ data_chain pages rest)
  end.

Definition image (pages : Pages) (pid : Z) : list byte := default page_zeroed (pages !! pid).

Definition chain_rows (pages : Pages) (ids : list Z) : list SlotRow :=
  concat ((fun pid => page_rows pid (image pages pid)) <$> ids).

(** The version a row shows a reader, deletions and other versions apart. *)
Definition row_shown (sn : option Snapshot.snapshot) (r : SlotRow) : bool :=
  let vh := row_vh r in
  negb (VersionHeader.is_deleted vh)
  && match sn with
     | None => true
     | Some s =>
         Snapshot.is_visible s (VersionHeader.create_tx_id vh) (VersionHeader.commit_tx_id vh)
         || Snapshot.is_visible_self s (VersionHeader.create_tx_id vh)
              (VersionHeader.commit_tx_id vh)
     end.

Definition link_of (r : SlotRow) : option VersionLink :=
  match VersionHeader.next_version (row_vh r) with
  | Ok (Some t) => Some (mk_link (row_rid r) (VersionHeader.create_tx_id (row_vh r)) t)
  | _ => None
  end.

Definition chain_map (pages : Pages) (ids : list Z) : SupersededMap :=
  foldl merge_link ∅ (omap link_of (chain_rows pages ids)).

(** *** Reading one slot of a well-formed page *)

Definition page_view (d : list byte) : SlottedPageRef := {| data := d; header := header_at d |}.

Lemma page_open {E} pid d : scan_page pid d ->
  ref_new (E:=E) d = Ok (page_view d)
  /\ slot_count_exceeds_capacity (header_at d) = false
  /\ slot_count (header_at d) = zlen (page_rows pid d)
  /\ zlen (page_rows pid d) <= 680.
Proof.
  intros [_ W _ _]. pose proof (wf_len _ W) as HL. cbn [raw_page page] in HL.
  pose proof (wf_slot_count _ W). pose proof (zlen_entries _ W).
  assert (zlen (page_rows pid d) = zlen (entries (raw_page d))) as ->.
  { unfold zlen, page_rows. by rewrite length_fmap. }
  split_and!; [by apply ref_new_ok; lia | by apply (wf_not_exceeds _ W) | done |].
  cbn [raw_page page_header] in *. lia.
Qed.

Lemma slot_read {E} pid d k r : scan_page pid d -> page_rows pid d !! k = Some r ->
  exists slot bytes,
    get_slot (E:=E) (page_view d) (Z.of_nat k) = Ok (Some slot)
    /\ row_rid r = mk_row_id pid (Z.of_nat k) /\ logical_id slot = Z.of_nat k
    /\ get_slot_data_checked (page_view d) slot = Some bytes
    /\ 22 <= zlen bytes
    /\ VersionHeader.from_bytes (slice bytes 0 22) = Some (row_vh r)
    /\ slice bytes 22 (zlen bytes) = row_tuple r.
Proof.
  intros [_ W D V] Hk. unfold page_rows in Hk.
  apply list_lookup_fmap_Some in Hk as ([lid bytes] & -> & Hk).
  assert (lid = Z.of_nat k) as ->.
  { assert ((fst <$> entries (raw_page d)) !! k = Some lid) as HF
      by (rewrite list_lookup_fmap, Hk; done).
    rewrite D in HF. by apply lookup_seqZ in HF as [-> _]. }
  rewrite Forall_lookup in V. specialize (V _ _ Hk). cbn [snd] in V.
  unfold entries in Hk. apply list_lookup_fmap_Some in Hk as (s & Es & Hs).
  assert (Z.of_nat k = logical_id s /\ bytes = payload d s) as [E1 ->]
    by (cbn [raw_page page] in Es; split; congruence).
  pose proof (list_elem_of_lookup_2 _ _ _ Hs) as Hin.
  pose proof (lookup_lt_Some _ _ _ Hs) as Hlt. rewrite length_slots in Hlt by done.
  pose proof (wf_slot_count _ W) as HC. cbn [raw_page page_header] in Hlt, HC.
  assert (slot_at d (Z.of_nat k) = s) as Eat.
  { unfold slots in Hs. rewrite lookup_slots_of in Hs by (cbn [raw_page page_header]; lia).
    cbn [raw_page page] in Hs. congruence. }
  exists s, (payload d s). split_and!; try done; cbn [row_rid row_vh row_tuple].
  - rewrite get_slot_ok; cbn [page_view data header]; [by rewrite Eat| |lia|lia].
    pose proof (wf_len _ W). done.
  - apply (checked_data_wf (raw_page d) s W Hin).
  - unfold header_of. unfold VersionHeader.from_bytes.
    assert (zlen (slice (payload d s) 0 22) = 22) as -> by (rewrite zlen_slice; lia). done.
Qed.

(** *** The summary *)

(** [check_page_all_visible] answers yes exactly when every row of the page is
    committed, not deleted, and visible to the snapshot. *)
Definition settled_for (s : Snapshot.snapshot) (r : SlotRow) : bool :=
  negb (VersionHeader.is_deleted (row_vh r))
  && Snapshot.is_visible s (VersionHeader.create_tx_id (row_vh r))
       (VersionHeader.commit_tx_id (row_vh r)).

Lemma all_visible_from_spec pid d s n k :
  scan_page pid d -> (k + n = length (page_rows pid d))%nat ->
  all_visible_from (page_view d) s n (Z.of_nat k)
  = Ok (forallb (settled_for s) (drop k (page_rows pid d))).
Proof.
  intros SP. revert k. induction n as [|n IH]; intros k Hk; cbn [all_visible_from].
  - by rewrite drop_ge by lia.
  - destruct (lookup_lt_is_Some_2 (page_rows pid d) k) as [r Hr]; [lia|].
    destruct (slot_read (E:=StorageError) pid d k r SP Hr)
      as (slot & bytes & HG & _ & _ & HD & Hz & HF & _).
    rewrite HG, exec_bind_ret, HD. unfold VersionHeader.SIZE.
    rewrite (proj2 (Z.ltb_ge _ _)), HF by lia.
    rewrite (drop_S _ _ _ Hr). cbn [forallb]. unfold settled_for at 1, Snapshot.is_visible.
    replace (Z.of_nat k + 1) with (Z.of_nat (S k)) by lia. rewrite IH by lia.
    destruct (VersionHeader.commit_tx_id (row_vh r)) as [c|];
      [|by rewrite bool_decide_eq_true_2, andb_false_r by done].
    rewrite bool_decide_eq_false_2 by done. cbn [orb].
    destruct (VersionHeader.is_deleted (row_vh r)); [done|]. cbn [negb andb].
    destruct (_ <? _); [done|]. unfold Snapshot.contains_active_tx. by case_bool_decide.
Qed.

Lemma check_page_spec pages pid d s :
  pages !! pid = Some d -> scan_page pid d ->
  check_page_all_visible pages pid s = Ok (forallb (settled_for s) (page_rows pid d)).
Proof.
  intros Hd SP. unfold check_page_all_visible. rewrite Hd.
  destruct (page_open (E:=StorageError) pid d SP) as (-> & HC & HS & _).
  rewrite exec_bind_ret. cbn [page_view header]. rewrite HC.
  rewrite (all_visible_from_spec pid d s _ 0 SP); [by rewrite drop_0|].
  rewrite HS. unfold zlen. lia.
Qed.

(** *** The superseded map of a chain *)

Lemma next_version_total vh : VersionHeader.wf vh ->
  exists t, VersionHeader.next_version vh = Ok t.
Proof.
  intros (_ & _ & H). unfold VersionHeader.next_version. case_bool_decide; [eauto|].
  assert (zlen (VersionHeader.next_raw vh) = 6) by (unfold zlen; lia).
  unfold row_id_deserialize. rewrite (proj2 (Z.ltb_ge _ _)) by lia. eexists. reflexivity.
Qed.

Lemma page_links_from_spec pid d n k :
  scan_page pid d -> (k + n = length (page_rows pid d))%nat ->
  page_links_from (page_view d) pid n (Z.of_nat k)
  = Ok (omap link_of (drop k (page_rows pid d))).
Proof.
  intros SP. revert k. induction n as [|n IH]; intros k Hk; cbn [page_links_from].
  - by rewrite drop_ge by lia.
  - destruct (lookup_lt_is_Some_2 (page_rows pid d) k) as [r Hr]; [lia|].
    destruct (slot_read (E:=StorageError) pid d k r SP Hr)
      as (slot & bytes & HG & HR & HL & HD & Hz & HF & _).
    rewrite HG, exec_bind_ret, HD. unfold VersionHeader.SIZE.
    rewrite (proj2 (Z.ltb_ge _ _)), HF by lia.
    replace (Z.of_nat k + 1) with (Z.of_nat (S k)) by lia. rewrite IH by lia.
    rewrite (drop_S _ _ _ Hr). cbn [omap list_omap]. unfold link_of at 2.
    destruct (next_version_total (row_vh r)) as [t Ht];
      [by apply VersionFacts.from_bytes_wf in HF|].
    rewrite Ht. cbn [exec_map_err]. rewrite !exec_bind_ret.
    unfold wrap32. rewrite Z.mod_small by (pose proof (sc_pid _ _ SP); word_lia).
    destruct t as [t|]; [|done]. by rewrite HR, HL.
Qed.

Lemma page_links_spec pid d :
  scan_page pid d ->
  page_links d pid = Ok (next_page_id (header_at d), omap link_of (page_rows pid d)).
Proof.
  intros SP. unfold page_links.
  destruct (page_open (E:=StorageError) pid d SP) as (-> & HC & HS & _).
  rewrite exec_bind_ret. cbn [page_view header]. rewrite HC.
  rewrite (page_links_from_spec pid d _ 0 SP); [by rewrite exec_bind_ret, drop_0|].
  rewrite HS. unfold zlen. lia.
Qed.

Lemma data_chain_head pages pid rest :
  data_chain pages (pid :: rest) ->
  pages !! pid = Some (image pages pid) /\ scan_page pid (image pages pid)
  /\ next_page_id (header_at (image pages pid)) = hd 0 rest
  /\ (rest = [] \/ exists pid' rest', rest = pid' :: rest' /\ pid' <> 0 /\ data_chain pages rest).
Proof.
  intros [(d & Hd & SP & Hn) Hr]. unfold image. rewrite Hd. cbn [default].
  split_and!; try done. destruct rest as [|pid' rest']; [by left|].
  destruct Hr as [?|[? ?]]; [done|]. right. eauto.
Qed.

Lemma omap_app' {A B} (f : A -> option B) l k : omap f (l ++ k) = omap f l ++ omap f k.
Proof. induction l as [|x l IH]; cbn; [done|]. destruct (f x); cbn; by rewrite ?IH. Qed.

Lemma build_map_spec pages ids fuel m :
  data_chain pages ids -> (length ids <= fuel)%nat ->
  build_superseded_map pages fuel (hd 0 ids) m
  = Some (Ok (foldl merge_link m (omap link_of (chain_rows pages ids)))).
Proof.
  revert fuel m. induction ids as [|pid rest IH]; intros fuel m HC HF; [done|].
  destruct fuel as [|fuel]; [cbn in HF; lia|].
  apply data_chain_head in HC as (Hd & SP & Hn & Hr).
  cbn [hd build_superseded_map]. rewrite Hd, (page_links_spec _ _ SP), Hn.
  unfold chain_rows. cbn [fmap list_fmap concat]. rewrite omap_app', foldl_app.
  destruct Hr as [->|(pid' & rest' & -> & Hne & HC)].
  - done.
  - cbn [hd]. rewrite (proj2 (Z.eqb_neq _ _)) by done.
    apply (IH fuel); [done|cbn in *; lia].
Qed.

(** *** One turn *)

(** What a shown row contributes: decoded, filtered and projected. *)
Definition row_output (s : DataScan) (pages : Pages) (r : SlotRow)
    : exec ScanError (option (list Value)) :=
  let? bytes := exec_map_err ScanStorage (slot_tuple pages (row_tuple r)) in
  let? values := exec_map_err ScanTuple (deserialize_row bytes (schema s) (defaults s)) in
  let? kept := filter_row (predicate s) values in
  match kept with
  | Some values => let? row := apply_projection (projection s) values in Ok (Some row)
  | None => Ok None
  end.

Definition decoded (s : DataScan) (bytes : list byte) : exec ScanError (list Value) :=
  exec_map_err ScanTuple (deserialize_row bytes (schema s) (defaults s)).

Lemma page_action_row s d pid k r av :
  scan_page pid d -> page_rows pid d !! k = Some r ->
  (av = true -> VersionHeader.is_deleted (row_vh r) = false -> row_shown (scan_snapshot s) r = true) ->
  page_action s d pid (Z.of_nat k) av false =
    if row_shown (scan_snapshot s) r then
      if is_overflow_ref (row_tuple r) then
        match decode_locator (row_tuple r) with
        | None => Err (ScanStorage MalformedLocator)
        | Some (total, first) => Ok (YieldOverflow total first, Z.of_nat (S k))
        end
      else let? values := decoded s (row_tuple r) in Ok (YieldValue values, Z.of_nat (S k))
    else Ok (SkipSlot, Z.of_nat (S k)).
Proof.
  intros SP Hr Hav. unfold page_action.
  destruct (page_open (E:=ScanError) pid d SP) as (HO & HC & HS & _).
  rewrite HO, exec_bind_ret. cbn [page_view header]. rewrite HC, HS.
  pose proof (lookup_lt_Some _ _ _ Hr) as Hlt.
  rewrite (proj2 (Z.leb_gt _ _)) by (unfold zlen; lia).
  destruct (slot_read (E:=ScanError) pid d k r SP Hr)
    as (slot & bytes & HG & _ & _ & HD & Hz & HF & HT).
  fold (page_view d). rewrite HG, exec_bind_ret, HD. unfold VersionHeader.SIZE.
  rewrite (proj2 (Z.ltb_ge _ _)), HF, HT by lia.
  replace (Z.of_nat k + 1) with (Z.of_nat (S k)) by lia.
  unfold row_shown in *. destruct (VersionHeader.is_deleted (row_vh r)); [done|].
  cbn [negb andb] in *. destruct (scan_snapshot s) as [sn|]; [|by rewrite andb_false_r].
  destruct av; cbn [negb andb]; [by rewrite Hav|].
  by destruct (_ || _).
Qed.

Lemma page_action_leave s d pid k av inv rest :
  scan_page pid d -> next_page_id (header_at d) = hd 0 rest ->
  (rest = [] \/ hd 0 rest <> 0) ->
  (inv = true \/ (length (page_rows pid d) <= k)%nat) ->
  page_action s d pid (Z.of_nat k) av inv
  = Ok (match rest with [] => Done | next :: _ => JumpToPage next end, Z.of_nat k).
Proof.
  intros SP Hn Hr Hk. unfold page_action.
  destruct (page_open (E:=ScanError) pid d SP) as (HO & HC & HS & _).
  rewrite HO, exec_bind_ret. cbn [page_view header]. rewrite HC, HS, Hn.
  assert ((if hd 0 rest =? 0 then Done else JumpToPage (hd 0 rest))
          = match rest with [] => Done | next :: _ => JumpToPage next end) as ->.
  { destruct rest as [|next rest]; [done|]. destruct Hr as [|Hr]; [done|]. cbn [hd] in *.
    by rewrite (proj2 (Z.eqb_neq _ _)). }
  destruct inv; [done|]. destruct Hk as [?|Hk]; [done|].
  by rewrite (proj2 (Z.leb_le _ _)) by (unfold zlen; lia).
Qed.

Section scan_run.
Context (pages : Pages) (m : SupersededMap) (active : gset Z) (sn : option Snapshot.snapshot).
(** The verdict of the superseder walk on every row id. *)
Context (sup : RowId -> bool).
Hypothesis Hsup : forall rid, slot_is_superseded pages m sn active rid = Ok (sup rid).

(** The summary entries of [ids] are true of this reader. *)
Definition vis_ok (ids : list Z) (vis : VisMap) : Prop :=
  forall pid v s, pid ∈ ids -> vis !! pid = Some v -> sn = Some s ->
    (PageVis.all_visible v = true -> forall r, r ∈ page_rows pid (image pages pid) ->
       VersionHeader.is_deleted (row_vh r) = false -> row_shown sn r = true)
    /\ (PageVis.all_invisible_for v (Snapshot.high_water s) = true ->
        forall r, r ∈ page_rows pid (image pages pid) -> row_shown sn r = false).

(** The all-invisible fast path is taken on the page. *)
Definition page_hidden (pid : Z) (vis : VisMap) : bool :=
  match sn, vis !! pid with
  | Some s, Some v => PageVis.all_invisible_for v (Snapshot.high_water s)
  | _, _ => false
  end.

Lemma page_hidden_rows ids pid vis r :
  vis_ok ids vis -> pid ∈ ids -> page_hidden pid vis = true ->
  r ∈ page_rows pid (image pages pid) -> row_shown sn r = false.
Proof.
  unfold page_hidden. intros HV Hp Hh Hr.
  destruct sn as [s|] eqn:E; [|done]. destruct (vis !! pid) as [v|] eqn:Ev; [|done].
  rewrite <- E. by apply (HV pid v s Hp Ev E).
Qed.

Definition emitted (r : SlotRow) : bool := row_shown sn r && negb (sup (row_rid r)).

Definition output (s : DataScan) (r : SlotRow) : exec ScanError (option (list Value)) :=
  if emitted r then row_output s pages r else Ok None.

(** The tail of a turn that decoded a row. *)
Lemma finish_row s s' values :
  predicate s' = predicate s -> projection s' = projection s ->
  (let? kept := filter_row (predicate s') values in
   match kept with
   | Some values =>
       let? row := apply_projection (projection s') values in
       Ok (inl (yield_capped s' row))
   | None => Ok (inr s')
   end)
  = (let? o := (let? kept := filter_row (predicate s) values in
                match kept with
                | Some values => let? row := apply_projection (projection s) values in Ok (Some row)
                | None => Ok None
                end) in
     match o with
     | Some row => Ok (inl (yield_capped s' row))
     | None => Ok (inr s')
     end).
Proof.
  intros -> ->. destruct (filter_row (predicate s) values) as [[kept|]| |]; [|done..].
  rewrite !exec_bind_ret. by destruct (apply_projection (projection s) kept).
Qed.

Lemma turn_sup s vis pid k :
  scan_snapshot s = sn -> current_slot_index s = Z.of_nat k -> in_u32 pid -> Z.of_nat k <= 680 ->
  sup (mk_row_id pid (Z.of_nat k)) = true ->
  scan_turn pages s vis m active pid = (Ok (inr (at_ s (Some pid) (Z.of_nat (S k)))), vis).
Proof.
  intros Hs Hk Hp Hb HS. unfold scan_turn. rewrite Hs, Hk. unfold wrap32, wrap16.
  rewrite !Z.mod_small by word_lia. rewrite Hsup, HS.
  by replace (Z.of_nat k + 1) with (Z.of_nat (S k)) by lia.
Qed.

Lemma turn_row s vis pid rest k r :
  data_chain pages (pid :: rest) -> vis_ok (pid :: rest) vis ->
  scan_snapshot s = sn -> current_slot_index s = Z.of_nat k ->
  page_rows pid (image pages pid) !! k = Some r ->
  page_hidden pid vis = false ->
  scan_turn pages s vis m active pid =
    (let? o := output s r in
     match o with
     | Some row => Ok (inl (yield_capped (at_ s (Some pid) (Z.of_nat (S k))) row))
     | None => Ok (inr (at_ s (Some pid) (Z.of_nat (S k))))
     end, vis).
Proof.
  intros HC HV Hs Hk Hr Hinv. apply data_chain_head in HC as (Hd & SP & _).
  destruct (slot_read (E:=ScanError) pid _ k r SP Hr) as (_ & _ & _ & HR & _).
  destruct (page_open (E:=ScanError) pid _ SP) as (_ & _ & _ & HB).
  pose proof (lookup_lt_Some _ _ _ Hr) as Hlt. unfold zlen in HB.
  unfold output, emitted. destruct (sup (row_rid r)) eqn:ES; rewrite HR in ES.
  { rewrite andb_false_r. rewrite (turn_sup s vis pid k) by (done || lia || apply SP). done. }
  rewrite andb_true_r. unfold scan_turn. rewrite Hs, Hk.
  pose proof (sc_pid _ _ SP). unfold wrap32, wrap16. rewrite !Z.mod_small by word_lia.
  rewrite Hsup, ES, Hd. unfold get_visibility.
  fold (page_hidden pid vis). rewrite Hinv.
  rewrite (page_action_row s _ pid k r _ SP Hr).
  2:{ intros Hav Hdel. destruct (vis !! pid) as [v|] eqn:Ev; [|done]. rewrite Hs.
      destruct sn as [s0|] eqn:Esn; [|by unfold row_shown; rewrite Hdel].
      destruct (HV pid v s0) as [HA _]; [left|done|done|].
      rewrite <- Esn. apply HA; [done|by eapply list_elem_of_lookup_2|done]. }
  rewrite Hs. destruct (row_shown sn r).
  2:{ cbn [scan_snapshot at_]. rewrite Hs. rewrite andb_false_r. by destruct sn. }
  assert (match sn with
          | Some _ => Ok false
          | None => Ok (E:=StorageError) false
          end = Ok false) as Hno by by destruct sn.
  unfold row_output, slot_tuple. destruct (is_overflow_ref (row_tuple r)).
  - destruct (decode_locator (row_tuple r)) as [[total first]|]; [|done].
    cbn [scan_snapshot at_ schema defaults]. rewrite Hs, andb_false_r, Hno.
    destruct (read_overflow_chain pages first total) as [bytes| |]; [|done|done].
    cbn [exec_map_err]. rewrite !exec_bind_ret.
    destruct (deserialize_row bytes (schema s) (defaults s)) as [vs| |]; [|done|done].
    cbn [exec_map_err]. rewrite !exec_bind_ret. by rewrite (finish_row s).
  - unfold decoded. cbn [exec_map_err]. rewrite exec_bind_ret.
    destruct (deserialize_row (row_tuple r) (schema s) (defaults s)) as [vs| |]; [|done|done].
    cbn [exec_map_err]. rewrite !exec_bind_ret. cbn [scan_snapshot at_].
    rewrite Hs, andb_false_r, Hno. by rewrite (finish_row s).
Qed.

Lemma vis_ok_set s pid rest vis :
  sn = Some s -> forallb (settled_for s) (page_rows pid (image pages pid)) = true ->
  match vis !! pid with
  | Some v => PageVis.all_invisible_for v (Snapshot.high_water s) = false
  | None => True
  end ->
  vis_ok rest vis -> vis_ok rest (set_all_visible vis pid).
Proof.
  intros Hsn HF Hinv HV pid' v s' Hin Hv Hs'.
  assert (forall r, r ∈ page_rows pid (image pages pid) -> row_shown sn r = true) as Hall.
  { intros r Hr. rewrite forallb_forall in HF. apply list_elem_of_In, HF in Hr.
    unfold settled_for in Hr. apply andb_true_iff in Hr as [H1 H2].
    unfold row_shown. by rewrite Hsn, H1, H2. }
  unfold set_all_visible in Hv. destruct (decide (pid' = pid)) as [->|Hne].
  - assert (PageVis.all_invisible_for v (Snapshot.high_water s') = false) as Hv'.
    { assert (s' = s) as -> by congruence. revert Hv.
      destruct (vis !! pid) as [i|]; rewrite lookup_insert_eq; intros [= <-]; [|done].
      unfold PageVis.all_invisible_for in *. done. }
    rewrite Hv'. split; [|done]. intros _ r Hr _. by apply Hall.
  - apply (HV pid' v s'); [done| |done].
    destruct (vis !! pid); by rewrite lookup_insert_ne in Hv by done.
Qed.

Lemma turn_leave s vis pid rest k :
  data_chain pages (pid :: rest) -> vis_ok (pid :: rest) vis ->
  scan_snapshot s = sn -> current_slot_index s = Z.of_nat k -> Z.of_nat k <= 680 ->
  sup (mk_row_id pid (Z.of_nat k)) = false ->
  page_hidden pid vis = true \/ (length (page_rows pid (image pages pid)) <= k)%nat ->
  exists vis', vis_ok rest vis' /\
    scan_turn pages s vis m active pid =
      (Ok match rest with
          | [] => inl (None, at_ s None (Z.of_nat k))
          | next :: _ => inr (at_ s (Some next) 0)
          end, vis').
Proof.
  intros HC HV Hs Hk Hb HS Hend. apply data_chain_head in HC as (Hd & SP & Hn & Hr).
  assert (vis_ok rest vis) as HVr.
  { intros p v s' Hin. apply HV. by right. }
  unfold scan_turn. rewrite Hs, Hk.
  pose proof (sc_pid _ _ SP). unfold wrap32, wrap16. rewrite !Z.mod_small by word_lia.
  rewrite Hsup, HS, Hd. unfold get_visibility.
  fold (page_hidden pid vis). set (inv := page_hidden pid vis) in *.
  set (av := match vis !! pid with Some _ => _ | None => _ end).
  assert (rest = [] \/ hd 0 rest <> 0) as Hne.
  { destruct Hr as [?|(p' & r' & -> & ? & _)]; [by left|by right]. }
  rewrite (page_action_leave s _ pid k av inv rest SP Hn Hne Hend).
  cbn [scan_snapshot at_]. rewrite Hs.
  destruct sn as [s0|] eqn:Esn.
  2:{ exists vis. split; [done|]. by destruct rest. }
  destruct (negb av && negb inv) eqn:Ea.
  2:{ exists vis. split; [done|]. by destruct rest. }
  apply andb_true_iff in Ea as [Ea Ei]. apply negb_true_iff in Ei.
  assert ((true && match (match rest with [] => Done | next :: _ => JumpToPage next end) with
             | JumpToPage _ | Done => true | _ => false end) = true) as -> by by destruct rest.
  rewrite (check_page_spec pages pid _ s0 Hd SP).
  destruct (forallb _ _) eqn:EF.
  - exists (set_all_visible vis pid). split; [|by destruct rest].
    eapply vis_ok_set; [exact Esn|done| |done].
    unfold inv, page_hidden in Ei. rewrite Esn in Ei. by destruct (vis !! pid).
  - exists vis. split; [done|]. by destruct rest.
Qed.

(** *** The loop *)

(** Every row of the pages the scan has to read can be read. *)
Definition all_read (s : DataScan) (rows : list SlotRow) : Prop :=
  Forall (fun r => is_ok (output s r) = true) rows.

Definition out_row (s : DataScan) (r : SlotRow) : option (list Value) :=
  match output s r with Ok o => o | _ => None end.

(** The rows still ahead of a cursor at slot [k] of the first page of [ids]. *)
Definition ahead (ids : list Z) (k : nat) : list SlotRow := drop k (chain_rows pages ids).

Hypothesis Hend : forall pid k, (length (page_rows pid (image pages pid)) <= k)%nat ->
  sup (mk_row_id pid (Z.of_nat k)) = false.

Lemma chain_rows_cons pid rest :
  chain_rows pages (pid :: rest) = page_rows pid (image pages pid) ++ chain_rows pages rest.
Proof. done. Qed.

(** Rows an all-invisible page is left with contribute nothing. *)
Lemma skip_rows s rows : (forall r, r ∈ rows -> emitted r = false) -> omap (out_row s) rows = [].
Proof.
  induction rows as [|r rows IH]; intros H; [done|]. cbn [omap list_omap].
  unfold out_row at 1, output. rewrite H by left. apply IH. intros x Hx. apply H. by right.
Qed.

(** A cursor the scan may be at. *)
Record cursor (s : DataScan) (ids : list Z) (k : nat) (vis : VisMap) : Prop := {
  cu_chain : data_chain pages ids;
  cu_vis : vis_ok ids vis;
  cu_slot : (k <= length (page_rows (hd 0%Z ids) (image pages (hd 0%Z ids))))%nat;
  cu_read : all_read s (ahead ids k) }.

Definition position (s : DataScan) (ids : list Z) (k : nat) : DataScan :=
  at_ s (Some (hd 0 ids)) (Z.of_nat k).
Definition outs (s : DataScan) (ids : list Z) (k : nat) : list (list Value) :=
  omap (out_row s) (ahead ids k).
Definition work (ids : list Z) (k : nat) : nat := length (ahead ids k) + length ids.

Lemma ahead_row pid rest k r :
  page_rows pid (image pages pid) !! k = Some r ->
  ahead (pid :: rest) k = r :: ahead (pid :: rest) (S k).
Proof.
  intros Hr. unfold ahead. rewrite chain_rows_cons.
  apply drop_S. rewrite lookup_app_l; [done|]. by eapply lookup_lt_Some.
Qed.

Lemma ahead_page pid rest k :
  (k <= length (page_rows pid (image pages pid)))%nat ->
  ahead (pid :: rest) k = drop k (page_rows pid (image pages pid)) ++ ahead rest 0.
Proof.
  intros H. unfold ahead. rewrite chain_rows_cons, drop_0. by rewrite drop_app_le.
Qed.

(** Consuming one row moves the cursor by one slot. *)
Lemma cursor_row s pid rest k r vis :
  cursor s (pid :: rest) k vis -> page_rows pid (image pages pid) !! k = Some r ->
  cursor s (pid :: rest) (S k) vis
  /\ is_ok (output s r) = true
  /\ outs s (pid :: rest) k = option_list (out_row s r) ++ outs s (pid :: rest) (S k)
  /\ (work (pid :: rest) (S k) < work (pid :: rest) k)%nat.
Proof.
  intros [HC HV Hk HA] Hr. pose proof (ahead_row pid rest k r Hr) as EA.
  unfold all_read in HA. rewrite EA, Forall_cons in HA. destruct HA as [H1 H2].
  split_and!; [|done| |].
  - split; try done. apply lookup_lt_Some in Hr. cbn [hd]. lia.
  - unfold outs. rewrite EA. cbn [omap list_omap]. by destruct (out_row s r).
  - unfold work. rewrite EA. cbn [length]. lia.
Qed.

(** Leaving a page moves the cursor to the next one; what was left on the page
    contributes nothing. *)
Lemma cursor_leave s pid rest k vis vis' :
  cursor s (pid :: rest) k vis -> vis_ok rest vis' ->
  page_hidden pid vis = true \/ (length (page_rows pid (image pages pid)) <= k)%nat ->
  outs s (pid :: rest) k = outs s rest 0
  /\ (rest <> [] -> cursor s rest 0 vis')
  /\ (work rest 0 < work (pid :: rest) k)%nat.
Proof.
  intros [HC HV Hk HA] HV' Hl. cbn [hd] in Hk. pose proof (ahead_page pid rest k Hk) as EA.
  split_and!.
  - unfold outs. rewrite EA, omap_app'. rewrite skip_rows; [done|].
    intros r Hr. destruct Hl as [Hl|Hl].
    + unfold emitted. rewrite (page_hidden_rows (pid :: rest) pid vis r HV); [done|left|done|].
      apply list_elem_of_lookup in Hr as [i Hi]. rewrite lookup_drop in Hi.
      by eapply list_elem_of_lookup_2.
    + rewrite drop_ge in Hr by lia. by apply not_elem_of_nil in Hr.
  - intros Hne. apply data_chain_head in HC as (_ & _ & _ & [?|(p & q & -> & _ & HC)]); [done|].
    split; [done|done|lia|].
    unfold all_read in *. rewrite EA, Forall_app in HA. apply HA.
  - unfold work. rewrite EA, length_app. cbn [length]. lia.
Qed.

Inductive turned (s : DataScan) (ids : list Z) (k : nat)
    : exec ScanError (option (list Value) * DataScan + DataScan) * VisMap -> Prop :=
| turned_on ids' k' vis' : cursor s ids' k' vis' -> outs s ids' k' = outs s ids k ->
    (work ids' k' < work ids k)%nat -> turned s ids k (Ok (inr (position s ids' k')), vis')
| turned_row row ids' k' vis' : cursor s ids' k' vis' -> outs s ids k = row :: outs s ids' k' ->
    (work ids' k' < work ids k)%nat ->
    turned s ids k (Ok (inl (yield_capped (position s ids' k') row)), vis')
| turned_end i vis' : outs s ids k = [] -> turned s ids k (Ok (inl (None, at_ s None i)), vis').

Lemma turned_leave s pid rest k vis :
  cursor s (pid :: rest) k vis -> scan_snapshot s = sn ->
  sup (mk_row_id pid (Z.of_nat k)) = false ->
  page_hidden pid vis = true \/ (length (page_rows pid (image pages pid)) <= k)%nat ->
  turned s (pid :: rest) k (scan_turn pages (position s (pid :: rest) k) vis m active pid).
Proof.
  intros Cu Hs ES Hl. pose proof Cu as [HC HV Hk HA]. cbn [hd] in Hk.
  destruct (data_chain_head _ _ _ HC) as (_ & SP & _).
  destruct (page_open (E:=ScanError) pid _ SP) as (_ & _ & _ & HB). unfold zlen in HB.
  destruct (turn_leave (position s (pid :: rest) k) vis pid rest k) as (vis' & HV' & ->);
    [done..|lia|done|done|].
  destruct (cursor_leave s pid rest k vis vis' Cu HV' Hl) as (EO & HC' & HW).
  destruct rest as [|next rest].
  - exact (turned_end s [pid] k (Z.of_nat k) vis' EO).
  - exact (turned_on s _ k (next :: rest) 0 vis' (HC' ltac:(done)) (eq_sym EO) HW).
Qed.

Lemma turned_at_row s pid rest k vis r :
  cursor s (pid :: rest) k vis -> scan_snapshot s = sn ->
  page_rows pid (image pages pid) !! k = Some r -> page_hidden pid vis = false ->
  turned s (pid :: rest) k (scan_turn pages (position s (pid :: rest) k) vis m active pid).
Proof.
  intros Cu Hs Hr Hh. pose proof Cu as [HC HV Hk HA].
  destruct (cursor_row s pid rest k r vis Cu Hr) as (Cu' & HO & EO & HW).
  rewrite (turn_row _ vis pid rest k r) by done.
  change (output (position s (pid :: rest) k) r) with (output s r).
  unfold out_row in EO. destruct (output s r) as [[row|]| |]; [..|done|done];
    rewrite exec_bind_ret.
  - exact (turned_row s _ k row (pid :: rest) (S k) vis Cu' EO HW).
  - exact (turned_on s _ k (pid :: rest) (S k) vis Cu' (eq_sym EO) HW).
Qed.

Lemma turn_spec s pid rest k vis :
  cursor s (pid :: rest) k vis -> scan_snapshot s = sn ->
  turned s (pid :: rest) k (scan_turn pages (position s (pid :: rest) k) vis m active pid).
Proof.
  intros Cu Hs. pose proof Cu as [HC HV Hk HA]. cbn [hd] in Hk.
  pose proof (data_chain_head _ _ _ HC) as (Hd & SP & _).
  destruct (page_open (E:=ScanError) pid _ SP) as (_ & _ & _ & HB). unfold zlen in HB.
  destruct (sup (mk_row_id pid (Z.of_nat k))) eqn:ES.
  - destruct (lookup_lt_is_Some_2 (page_rows pid (image pages pid)) k) as [r Hr].
    { apply Nat.nle_gt. intros Hle. by rewrite Hend in ES. }
    destruct (cursor_row s pid rest k r vis Cu Hr) as (Cu' & _ & EO & HW).
    rewrite (turn_sup _ vis pid k) by (done || lia || apply SP).
    assert (out_row s r = None) as Eo;
      [|rewrite Eo in EO; exact (turned_on s _ k (pid :: rest) (S k) vis Cu' (eq_sym EO) HW)].
    destruct (slot_read (E:=ScanError) pid _ k r SP Hr) as (_ & _ & _ & HR & _).
    unfold out_row, output, emitted. by rewrite HR, ES, andb_false_r.
  - destruct (page_hidden pid vis) eqn:EH; [apply turned_leave; auto|].
    destruct (page_rows pid (image pages pid) !! k) as [r|] eqn:Hr.
    + by eapply turned_at_row.
    + apply turned_leave; try done. right. by apply lookup_ge_None.
Qed.

Lemma loop_spec fuel s ids k vis :
  cursor s ids k vis -> scan_snapshot s = sn -> (work ids k <= fuel)%nat ->
  match outs s ids k with
  | [] => exists i vis', scan_loop pages m active fuel (position s ids k) vis
                         = Some (Ok (None, at_ s None i), vis')
  | row :: more => exists ids' k' vis',
      scan_loop pages m active fuel (position s ids k) vis
      = Some (Ok (yield_capped (position s ids' k') row), vis')
      /\ cursor s ids' k' vis' /\ outs s ids' k' = more /\ (work ids' k' < work ids k)%nat
  end.
Proof.
  revert ids k vis. induction fuel as [|fuel IH]; intros ids k vis Cu Hs HF.
  { pose proof (cu_chain _ _ _ _ Cu). destruct ids; [done|]. unfold work in HF. cbn in HF. lia. }
  pose proof (cu_chain _ _ _ _ Cu) as HC. destruct ids as [|pid rest]; [done|].
  pose proof (turn_spec s pid rest k vis Cu Hs) as T.
  cbn [scan_loop]. cbn [position at_ current_page_id hd] in *.
  change (at_ s (Some pid) (Z.of_nat k)) with (position s (pid :: rest) k) in *.
  inversion T as [ids' k' vis' Cu' EO HW Et | row ids' k' vis' Cu' EO HW Et | i vis' EO Et].
  - rewrite <- EO. specialize (IH ids' k' vis' Cu' Hs).
    destruct (outs s ids' k') as [|row more].
    + apply IH. lia.
    + destruct IH as (i2 & k2 & v2 & ? & ? & ? & ?); [lia|]. exists i2, k2, v2. split_and!; try done. lia.
  - rewrite EO. by exists ids', k', vis'.
  - rewrite EO. by exists i, vis'.
Qed.

End scan_run.

(** ** Complete scans *)

(** A scan driven to its end, [n] bounding the calls. *)
Fixpoint drain (pages : Pages) (fuel n : nat) (s : DataScan) (vis : VisMap)
    : option (exec ScanError (list (list Value)) * VisMap) :=
  match n with
  | O => None
  | S n =>
      match scan_next pages fuel s vis with
      | None => None
      | Some (Err e, vis) => Some (Err e, vis)
      | Some (Panic, vis) => Some (Panic, vis)
      | Some (Ok (None, _), vis) => Some (Ok [], vis)
      | Some (Ok (Some row, s), vis) =>
          match drain pages fuel n s vis with
          | Some (Ok rows, vis) => Some (Ok (row :: rows), vis)
          | other => other
          end
      end
  end.

Definition capped (s : DataScan) (rows : list (list Value)) : list (list Value) :=
  match scan_cap s with None => rows | Some cap => take (cap - produced s) rows end.

Section drained.
Context (pages : Pages) (m : SupersededMap) (active : gset Z) (sn : option Snapshot.snapshot).
Context (sup : RowId -> bool).
Hypothesis Hsup : forall rid, slot_is_superseded pages m sn active rid = Ok (sup rid).
Hypothesis Hend : forall pid k, (length (page_rows pid (image pages pid)) <= k)%nat ->
  sup (mk_row_id pid (Z.of_nat k)) = false.

Lemma drain_captured fuel n s ids k vis :
  cursor pages sn sup s ids k vis -> scan_snapshot s = sn ->
  superseded_map s = Some m -> scan_active s = Some active -> narrowing s = false ->
  (work pages ids k <= fuel)%nat -> (length (outs pages sn sup s ids k) < n)%nat ->
  exists vis', drain pages fuel n (position s ids k) vis
               = Some (Ok (capped s (outs pages sn sup s ids k)), vis').
Proof.
  revert s ids k vis. induction n as [|n IH]; intros s ids k vis Cu Hs Hm Ha Hn HF HL; [lia|].
  pose proof (loop_spec pages m active sn sup Hsup Hend fuel s ids k vis Cu Hs HF) as L.
  cbn [drain]. unfold scan_next.
  change (narrowing (position s ids k)) with (narrowing s).
  change (superseded_map (position s ids k)) with (superseded_map s).
  change (scan_active (position s ids k)) with (scan_active s). rewrite Hn, Hm, Ha.
  assert (captured (position s ids k) m active = position s ids k) as ->.
  { unfold position, captured, at_. cbn. by rewrite Hm, Ha. }
  destruct (outs pages sn sup s ids k) as [|row more] eqn:EO.
  { destruct L as (i & vis' & ->). exists vis'. unfold capped. by destruct (scan_cap s); rewrite ?take_nil. }
  destruct L as (ids' & k' & vis' & -> & Cu' & EO' & HW). cbn [length] in HL.
  unfold yield_capped, capped. change (scan_cap (position s ids' k')) with (scan_cap s).
  change (produced (position s ids' k')) with (produced s).
  destruct (scan_cap s) as [cap|] eqn:Ecap.
  - destruct (Nat.leb_spec cap (produced s)) as [Hc|Hc].
    + exists vis'. by replace (cap - produced s)%nat with 0%nat by lia.
    + destruct (IH (counted s) ids' k' vis') as (v2 & E2); try done.
      { destruct Cu'. by split. } { lia. }
      { change (outs pages sn sup (counted s) ids' k') with (outs pages sn sup s ids' k').
        rewrite EO'. lia. }
      exists v2. change (counted (position s ids' k')) with (position (counted s) ids' k').
      rewrite E2. change (outs pages sn sup (counted s) ids' k') with (outs pages sn sup s ids' k').
      rewrite EO'. unfold capped. cbn [counted scan_cap produced]. rewrite Ecap.
      by replace (cap - produced s)%nat with (S (cap - S (produced s)))%nat by lia.
  - destruct (IH s ids' k' vis') as (v2 & E2); try done; [lia|rewrite EO'; lia|].
    exists v2. rewrite E2, EO'. unfold capped. by rewrite Ecap.
Qed.

End drained.

Definition superseded_by (pages : Pages) (m : SupersededMap) (sn : option Snapshot.snapshot)
    (active : gset Z) (rid : RowId) : bool :=
  match slot_is_superseded pages m sn active rid with Ok b => b | _ => false end.

(** What a statement's scan must return for one stored version: nothing when
    it is not shown or superseded, else the decoded row, filtered and
    projected. *)
Definition scan_output (s : DataScan) (pages : Pages) (ids : list Z) (active : gset Z)
    (r : SlotRow) : exec ScanError (option (list Value)) :=
  output pages (scan_snapshot s)
    (superseded_by pages (chain_map pages ids) (scan_snapshot s) active) s r.

(** The version links of a chain lead to stored rows, and every superseder
    walk ends within [MAX_CHAIN_DEPTH] readable versions. *)
Record links_ok (pages : Pages) (ids : list Z) (sn : option Snapshot.snapshot)
    (active : gset Z) : Prop := {
  lk_stored : forall rid, is_Some (chain_map pages ids !! rid) ->
    exists r, r ∈ chain_rows pages ids /\ row_rid r = rid;
  lk_walks : forall r, r ∈ chain_rows pages ids ->
    is_ok (slot_is_superseded pages (chain_map pages ids) sn active (row_rid r)) = true }.

Lemma superseded_by_ok pages ids sn active rid :
  links_ok pages ids sn active ->
  slot_is_superseded pages (chain_map pages ids) sn active rid
  = Ok (superseded_by pages (chain_map pages ids) sn active rid).
Proof.
  intros [HS HW]. unfold superseded_by.
  destruct (chain_map pages ids !! rid) as [x|] eqn:E.
  - destruct (HS rid) as (r & Hr & <-); [by eexists|]. specialize (HW r Hr).
    by destruct (slot_is_superseded _ _ _ _ _).
  - unfold slot_is_superseded. by rewrite E.
Qed.

Lemma chain_pages pages ids pid : data_chain pages ids -> pid ∈ ids ->
  scan_page pid (image pages pid).
Proof.
  induction ids as [|p rest IH]; intros HC Hin; [by apply not_elem_of_nil in Hin|].
  apply data_chain_head in HC as (_ & SP & _ & Hr). apply elem_of_cons in Hin as [->|Hin]; [done|].
  destruct Hr as [->|(p' & r' & -> & _ & HC)]; [by apply not_elem_of_nil in Hin|]. by apply IH.
Qed.

Lemma chain_row_slot pages ids r :
  data_chain pages ids -> r ∈ chain_rows pages ids ->
  exists pid k, pid ∈ ids /\ page_rows pid (image pages pid) !! k = Some r
    /\ row_rid r = mk_row_id pid (Z.of_nat k).
Proof.
  intros HC Hr. unfold chain_rows in Hr. apply list_elem_of_In, in_concat in Hr as (l & Hl & Hr).
  apply list_elem_of_In, list_elem_of_fmap in Hl as (pid & -> & Hp).
  apply list_elem_of_In, list_elem_of_lookup in Hr as [k Hk].
  pose proof (chain_pages pages ids pid HC Hp) as SP.
  destruct (slot_read (E:=ScanError) pid _ k r SP Hk) as (_ & _ & _ & HR & _). eauto.
Qed.

Lemma superseded_end pages ids sn active pid k :
  data_chain pages ids -> links_ok pages ids sn active ->
  (length (page_rows pid (image pages pid)) <= k)%nat ->
  superseded_by pages (chain_map pages ids) sn active (mk_row_id pid (Z.of_nat k)) = false.
Proof.
  intros HC [HS _] Hk. unfold superseded_by, slot_is_superseded.
  destruct (chain_map pages ids !! mk_row_id pid (Z.of_nat k)) as [x|] eqn:E; [|done].
  destruct (HS (mk_row_id pid (Z.of_nat k))) as (r & Hr & Er); [by eexists|].
  destruct (chain_row_slot pages ids r HC Hr) as (p' & k' & _ & Hk' & Er').
  rewrite Er in Er'. assert (pid = p' /\ Z.of_nat k = Z.of_nat k') as [-> ?]
    by (split; congruence). apply lookup_lt_Some in Hk'. lia.
Qed.

Lemma omap_fmap' {A B C} (f : B -> option C) (g : A -> B) (l : list A) :
  omap f (g <$> l) = omap (fun x => f (g x)) l.
Proof.
  induction l as [|x l IH]; [done|]. rewrite fmap_cons. cbn [omap list_omap]. by rewrite IH.
Qed.

Lemma length_omap' {A B} (f : A -> option B) (l : list A) : (length (omap f l) <= length l)%nat.
Proof. induction l as [|x l IH]; cbn; [lia|]. destruct (f x); cbn; lia. Qed.

(** A complete scan of a page chain. *)
Lemma scan_runs pages ids cols defs sn pred cap tm proj vis fuel n :
  let s := with_projection (scan_new cols defs (hd 0 ids) false sn pred cap tm) proj in
  let active := match tm with Some a => list_to_set a | None => ∅ end in
  let outputs := scan_output s pages ids active <$> chain_rows pages ids in
  data_chain pages ids -> links_ok pages ids sn active -> vis_ok pages sn ids vis ->
  Forall (fun o => is_ok o = true) outputs ->
  (length (chain_rows pages ids) + length ids <= fuel)%nat ->
  (length (chain_rows pages ids) < n)%nat ->
  exists vis', drain pages fuel n s vis
    = Some (Ok (capped s (omap (fun o => match o with Ok r => r | _ => None end) outputs)), vis').
Proof.
  intros s active outputs HC HL HV HO HF Hn.
  set (m := chain_map pages ids). set (sup := superseded_by pages m sn active).
  set (s1 := captured s m active).
  assert (omap (fun o => match o with Ok r => r | _ => None end) outputs
          = outs pages sn sup s1 ids 0) as ->.
  { unfold outs, ahead, outputs. rewrite drop_0.
    by rewrite omap_fmap'. }
  assert (cursor pages sn sup s1 ids 0 vis) as Cu.
  { split; [done|done|lia|]. unfold all_read, ahead. rewrite drop_0.
    unfold outputs in HO. rewrite Forall_fmap in HO. exact HO. }
  assert (length (outs pages sn sup s1 ids 0) <= length (chain_rows pages ids))%nat as Hlen.
  { unfold outs, ahead. rewrite drop_0. apply length_omap'. }
  destruct n as [|n]; [lia|].
  destruct (drain_captured pages m active sn sup (fun rid => superseded_by_ok _ _ _ _ _ HL)
    (fun pid k => superseded_end _ _ _ _ _ _ HC HL) fuel (S n) s1 ids 0 vis Cu)
    as (vis' & E); [done..|by unfold work, ahead; rewrite drop_0|lia|].
  exists vis'. change (capped s ?x) with (capped s1 x). rewrite <- E. cbn [drain].
  assert (scan_next pages fuel s vis = scan_next pages fuel (position s1 ids 0) vis) as ->; [|done].
  unfold scan_next. change (narrowing s) with false. change (narrowing (position s1 ids 0)) with false.
  change (superseded_map s) with (@None SupersededMap).
  change (superseded_map (position s1 ids 0)) with (Some m).
  change (data_page_head s) with (hd 0 ids).
  by rewrite (build_map_spec pages ids fuel ∅ HC) by lia.
Qed.


(** ** Version chains *)

Section version_chain.
Context (pages : Pages) (m : SupersededMap) (sn : option Snapshot.snapshot) (active : gset Z).

Definition suppresses (r : SlotRow) : bool := superseder_suppresses (row_vh r) sn active.

(** [vs] is one row's versions, oldest first: each is superseded by the next
    one, the last by none. *)
Fixpoint version_chain (vs : list SlotRow) : Prop :=
  match vs with
  | [] => True
  | v :: vs =>
      fst <$> m !! row_rid v = row_rid <$> head vs
      /\ (exists t, read_tuple_from_data_page pages (row_rid v) = Ok (row_vh v, t))
      /\ version_chain vs
  end.

Lemma walk_chain v vs n :
  version_chain (v :: vs) -> (length vs < n)%nat ->
  walk_superseders pages m sn active n (row_rid v) = Ok (existsb suppresses (v :: vs)).
Proof.
  revert v n. induction vs as [|w vs IH]; intros v n (Hm & (t & Ht) & Hvs) Hn;
    (destruct n as [|n]; [cbn in Hn; lia|]);
    cbn [walk_superseders existsb]; rewrite Ht; cbn [exec_map_err]; rewrite exec_bind_ret;
    fold (suppresses v); (destruct (suppresses v); [done|]).
  - cbn [head fmap option_fmap option_map] in Hm. by destruct (m !! row_rid v).
  - destruct (m !! row_rid v) as [[nx tx]|]; [|done].
    assert (nx = row_rid w) as -> by (cbn in Hm; congruence).
    apply (IH w n Hvs). cbn in Hn. lia.
Qed.

(** The verdict on version [i]: some newer version suppresses it. *)
Lemma superseded_chain vs i v :
  version_chain vs -> vs !! i = Some v -> (length vs <= 65)%nat ->
  slot_is_superseded pages m sn active (row_rid v) = Ok (existsb suppresses (drop (S i) vs)).
Proof.
  revert i. induction vs as [|w vs IH]; intros i HC Hi HL; [done|].
  destruct i as [|i].
  - injection Hi as ->. destruct HC as (Hm & _ & HC). unfold slot_is_superseded.
    cbn [drop]. destruct vs as [|w vs].
    + by destruct (m !! row_rid v).
    + destruct (m !! row_rid v) as [[nx tx]|]; [|done].
      assert (nx = row_rid w) as -> by (cbn in Hm; congruence).
      apply walk_chain; [done|]. unfold MAX_CHAIN_DEPTH. cbn in HL. lia.
  - destruct HC as (_ & _ & HC). apply (IH i); [done|done|]. cbn in HL. lia.
Qed.

(** The versions of [vs] a scan emits. *)
Fixpoint emitted_versions (vs : list SlotRow) : list SlotRow :=
  match vs with
  | [] => []
  | v :: vs =>
      if row_shown sn v && negb (existsb suppresses vs) then v :: emitted_versions vs
      else emitted_versions vs
  end.

(** The newest version shown to the reader, unless a newer deletion counts
    for the reader. *)
Fixpoint latest_shown (vs : list SlotRow) : option SlotRow :=
  match vs with
  | [] => None
  | v :: vs =>
      match latest_shown vs with
      | Some w => Some w
      | None => if row_shown sn v && negb (existsb suppresses vs) then Some v else None
      end
  end.

Definition settled (v : SlotRow) : Prop :=
  row_shown sn v = true ->
  VersionHeader.commit_tx_id (row_vh v) <> None /\ VersionHeader.create_tx_id (row_vh v) <> 0.

Lemma settled_suppresses v : settled v -> row_shown sn v = true -> suppresses v = true.
Proof.
  intros HS Hv. destruct (HS Hv) as [Hc Hz]. unfold row_shown in Hv.
  apply andb_true_iff in Hv as [Hd Hv]. apply negb_true_iff in Hd.
  unfold suppresses, superseder_suppresses. rewrite (proj2 (Z.eqb_neq _ _)), Hd by done.
  destruct (VersionHeader.commit_tx_id (row_vh v)) as [c|]; [|done].
  destruct sn as [s|]; [|done]. unfold Snapshot.is_visible_self in Hv.
  by rewrite andb_false_r, orb_false_r in Hv.
Qed.

Lemma latest_suppresses vs w :
  Forall settled vs -> latest_shown vs = Some w -> existsb suppresses vs = true.
Proof.
  induction vs as [|v vs IH]; [done|]. intros [Hv Hvs]%Forall_cons. cbn [latest_shown existsb].
  destruct (latest_shown vs) as [x|]; [intros Hx; by rewrite (IH Hvs Hx), orb_true_r|].
  destruct (row_shown sn v) eqn:E; [|done]. intros _. by rewrite settled_suppresses.
Qed.

Lemma emitted_latest vs :
  Forall settled vs -> emitted_versions vs = option_list (latest_shown vs).
Proof.
  induction vs as [|v vs IH]; [done|]. intros [Hv Hvs]%Forall_cons.
  cbn [emitted_versions latest_shown]. rewrite (IH Hvs).
  destruct (latest_shown vs) as [w|] eqn:E.
  - by rewrite (latest_suppresses vs w Hvs E), andb_false_r.
  - by destruct (row_shown sn v && negb (existsb suppresses vs)).
Qed.

Lemma emitted_versions_filter vs :
  version_chain vs -> (length vs <= 65)%nat ->
  forall k, filter (fun r => row_shown sn r && negb (superseded_by pages m sn active (row_rid r)) = true)
    (drop k vs) = emitted_versions (drop k vs).
Proof.
  intros HC HL k. remember (length vs - k)%nat as n eqn:En. revert k En.
  induction n as [|n IH]; intros k En; [by rewrite drop_ge by lia|].
  destruct (lookup_lt_is_Some_2 vs k) as [v Hv]; [lia|].
  rewrite (drop_S _ _ _ Hv). rewrite filter_cons. cbn [emitted_versions].
  assert (superseded_by pages m sn active (row_rid v) = existsb suppresses (drop (S k) vs)) as ES
    by (unfold superseded_by; by rewrite (superseded_chain vs k v HC Hv HL)).
  rewrite (IH (S k)) by lia. rewrite <- ES.
  by destruct (row_shown sn v && negb (superseded_by pages m sn active (row_rid v))).
Qed.

End version_chain.


(** ** Concrete tables *)

Definition linked (create : Z) (commit : option Z) (prev : RowId) : VersionHeader.vheader :=
  match VersionHeader.with_next_version (VersionHeader.vh_new create commit) prev with
  | Ok h => h
  | _ => VersionHeader.vh_new create commit
  end.

(** Page 1 after the given versions were written to it. *)
Definition table_of (vs : list (VersionHeader.vheader * list Value)) : Pages :=
  {[ 1 := foldl (fun d '(vh, row) =>
                   match add_to_tail d (VersionHeader.to_bytes vh ++ enc_values row) with
                   | Ok (d, _) => d
                   | _ => d
                   end) page_zeroed vs ]}.

Definition scan_table (sn : option Snapshot.snapshot) (active : list Z) : DataScan :=
  scan_new [CInt; CInt] [None; None] 1 false sn None None (Some active).

Definition rows_of (pages : Pages) (sn : option Snapshot.snapshot) (active : list Z)
    (vis : VisMap) : option (exec ScanError (list (list Value))) :=
  fst <$> drain pages 10 10 (scan_table sn active) vis.

(** One row, committed by transaction 1 and updated by transaction 5. *)
Definition updated_by_5 (commit : option Z) : Pages :=
  table_of [(VersionHeader.vh_new 1 (Some 1), [VInt 1; VInt 10]);
            (linked 5 commit (mk_row_id 1 0), [VInt 1; VInt 11])].

(** a transaction that updated a row sees the row twice.  Its uncommitted
    new version is shown to it but suppresses nothing, so the old version is
    emitted as well; the same holds for every statement that runs without a
    snapshot (the default isolation level), which also sees other
    transactions' uncommitted versions.  The module comment says that a version
    chain produces exactly its latest visible version. *)
Theorem own_update_shows_both :
  rows_of (updated_by_5 None) (Some (Snapshot.statement_view 5 5 [5])) [5] ∅
    = Some (Ok [[VInt 1; VInt 10]; [VInt 1; VInt 11]])
  /\ rows_of (updated_by_5 None) None [5] ∅
    = Some (Ok [[VInt 1; VInt 10]; [VInt 1; VInt 11]])
  /\ rows_of (updated_by_5 (Some 5)) (Some (Snapshot.statement_view 5 0 [])) [] ∅
    = Some (Ok [[VInt 1; VInt 11]]).
Proof. vm_compute. split_and!; reflexivity. Qed.

(** One row, committed by transaction 1 and deleted by transaction 6. *)
Definition deleted_by_6 : Pages :=
  table_of [(VersionHeader.vh_new 1 (Some 1), [VInt 1; VInt 10]);
            (VersionHeader.mark_deleted (linked 6 None (mk_row_id 1 0)), [])].

(** A deletion hides a row from a statement whose snapshot was taken before
    the deleting transaction began.  The deletion test asks only whether the
    deleter was active in the snapshot; a deleter that began after it is in no
    active set, so its tombstone counts although it has not committed. *)
Theorem late_delete_hides_row :
  rows_of deleted_by_6 (Some (Snapshot.statement_view 5 0 [])) [6] ∅ = Some (Ok [])
  /\ rows_of deleted_by_6 (Some (Snapshot.statement_view 6 0 [6])) [6] ∅
     = Some (Ok [[VInt 1; VInt 10]]).
Proof. vm_compute. split_and!; reflexivity. Qed.

(** One row inserted by transaction 5 and committed. *)
Definition inserted_by_5 : Pages :=
  table_of [(VersionHeader.vh_new 5 (Some 5), [VInt 1; VInt 10])].

(** The all-visible flag of a page leaks between statements.  A statement
    whose snapshot has transaction 5 active does not see the row 5 inserted;
    after 5 committed and a newer statement scanned the page, the flag makes
    the older statement's scan return the row. *)
Theorem all_visible_flag_leaks :
  let older := Some (Snapshot.statement_view 5 0 [5]) in
  let newer := Some (Snapshot.statement_view 5 0 []) in
  rows_of inserted_by_5 older [5] ∅ = Some (Ok [])
  /\ exists vis, drain inserted_by_5 10 10 (scan_table newer []) ∅
       = Some (Ok [[VInt 1; VInt 10]], vis)
     /\ rows_of inserted_by_5 older [5] vis = Some (Ok [[VInt 1; VInt 10]]).
Proof.
  cbv zeta. split; [vm_compute; reflexivity|].
  exists {[ 1 := PageVis.mk u64_max true ]}. vm_compute. split; reflexivity.
Qed.

(** *** Instances of the theorems *)

Definition disjoint_slotsb (s t : Slot) : bool :=
  (offset s + length_ s <=? offset t) || (offset t + length_ t <=? offset s).

Fixpoint pairwise_disjoint (ss : list Slot) : bool :=
  match ss with [] => true | s :: ss => forallb (disjoint_slotsb s) ss && pairwise_disjoint ss end.

Lemma pairwise_disjoint_ok ss i j s t :
  pairwise_disjoint ss = true -> ss !! i = Some s -> ss !! j = Some t -> (i < j)%nat ->
  disjoint_slots s t.
Proof.
  revert i j. induction ss as [|x ss IH]; intros i j H Hi Hj Hij; [done|].
  cbn [pairwise_disjoint] in H. apply andb_true_iff in H as [H1 H2].
  destruct j as [|j]; [lia|]. destruct i as [|i].
  - injection Hi as ->. cbn in Hj. rewrite forallb_forall in H1.
    specialize (H1 t (proj1 (list_elem_of_In _ _) (list_elem_of_lookup_2 _ _ _ Hj))).
    unfold disjoint_slotsb in H1. apply orb_true_iff in H1 as [H1|H1]; apply Z.leb_le in H1;
      [left|right]; done.
  - cbn in Hi, Hj. apply (IH i j); try done. lia.
Qed.

(** An executable test of [scan_page]. *)
Definition scan_pageb (pid : Z) (d : list byte) : bool :=
  let p := raw_page d in let h := header_at d in
  (0 <=? pid) && (pid <=? u32_max) && (zlen d =? 4096) && (16 <=? free_space_offset h)
  && (free_space_offset h + 6 * slot_count h <=? 4096)
  && forallb (fun s => (16 <=? offset s) && (offset s + length_ s <=? free_space_offset h)
                       && (logical_id s <? next_logical_id h)) (slots p)
  && pairwise_disjoint (slots p)
  && bool_decide (NoDup (logical_id <$> slots p))
  && bool_decide (fst <$> entries p = seqZ 0 (zlen (entries p)))
  && forallb (fun e => 22 <=? zlen (snd e)) (entries p).

Lemma scan_pageb_ok pid d : scan_pageb pid d = true -> scan_page pid d.
Proof.
  unfold scan_pageb. cbv zeta. intros H.
  repeat (apply andb_true_iff in H as [H ?]).
  repeat match goal with
  | E : (_ <=? _) = true |- _ => apply Z.leb_le in E
  | E : (_ =? _) = true |- _ => apply Z.eqb_eq in E
  | E : bool_decide _ = true |- _ => apply bool_decide_eq_true in E
  | E : forallb _ _ = true |- _ => rewrite forallb_forall in E
  end.
  split; [word_lia| |done|].
  - split; cbn [raw_page page page_header]; try done.
    + apply Forall_forall. intros s Hs. apply list_elem_of_In in Hs.
      repeat match goal with E : forall x, In x (slots _) -> _ |- _ => specialize (E s Hs) end.
      rewrite !andb_true_iff, !Z.leb_le in *. naive_solver.
    + intros i j s t Hi Hj Hne. destruct (decide (i < j)%nat).
      * by eapply pairwise_disjoint_ok.
      * assert (disjoint_slots t s) as [?|?]; [|by right|by left].
        eapply (pairwise_disjoint_ok _ j i); [done|done|done|lia].
    + apply Forall_forall. intros s Hs. apply list_elem_of_In in Hs.
      repeat match goal with E : forall x, In x (slots _) -> _ |- _ => specialize (E s Hs) end.
      rewrite !andb_true_iff, Z.ltb_lt in *. naive_solver.
  - apply Forall_forall. intros e He. apply list_elem_of_In in He.
    repeat match goal with E : forall x, In x (entries _) -> _ |- _ => specialize (E e He) end.
    by apply Z.leb_le.
Qed.

Definition committed_view : option Snapshot.snapshot := Some (Snapshot.statement_view 5 0 []).

Lemma updated_chain : data_chain (updated_by_5 (Some 5)) [1].
Proof.
  split; [|by left]. eexists. split; [reflexivity|]. split; [|vm_compute; reflexivity].
  apply scan_pageb_ok. vm_compute. reflexivity.
Qed.

Definition version_old : SlotRow :=
  mk_row (mk_row_id 1 0) (VersionHeader.vh_new 1 (Some 1)) (enc_values [VInt 1; VInt 10]).
Definition version_new : SlotRow :=
  mk_row (mk_row_id 1 1) (linked 5 (Some 5) (mk_row_id 1 0)) (enc_values [VInt 1; VInt 11]).

Lemma updated_links : links_ok (updated_by_5 (Some 5)) [1] committed_view ∅.
Proof.
  assert (chain_map (updated_by_5 (Some 5)) [1] = {[ mk_row_id 1 0 := (mk_row_id 1 1, 5) ]}) as E
    by (vm_compute; reflexivity).
  split.
  - intros rid. rewrite E. intros [x [<- _]%lookup_singleton_Some].
    exists version_old. split; [vm_compute; left|reflexivity].
  - intros r Hr. apply list_elem_of_In in Hr. revert r Hr.
    apply (proj1 (forallb_forall _ _)). vm_compute. reflexivity.
Qed.

Definition demo_scan : DataScan :=
  with_projection (scan_new [CInt; CInt] [None; None] (hd 0 [1]) false committed_view None
    (Some 3%nat) (Some [])) [1%nat].

Definition demo_outputs : list (exec ScanError (option (list Value))) :=
  scan_output demo_scan (updated_by_5 (Some 5)) [1] (list_to_set [])
    <$> chain_rows (updated_by_5 (Some 5)) [1].


