(* ===== verification/WalRecord.v ===== *)
(** * Write-ahead log records

    [src/wal/record.rs]: the record types and their two encodings, the legacy
    frame [type, length, body] and the current frame
    [lsn, type, length, body, crc32].  The checksum function ([crc32fast]) is
    not part of the repository and is a parameter of the frame definitions;
    what is used of it is that it returns a [u32]. *)

From Stdlib Require Import ZArith Strings.Byte Lia.
From stdpp Require Import base tactics list numbers.
From S2P Require Import Prelude RowKey.
Import RowId.

Inductive WalError :=
| IncompleteRecord
| InvalidRecordType (value : Z)
| InvalidUtf8
| IoError
| ChecksumMismatch.

Inductive WalRecordType :=
| TInsert | TUpdate | TDelete | TCommit | TAbort | TCheckpoint
| TBeginTxn | TCommitTxn | TAbortTxn | TColumnNarrowing.

Inductive WalRecord :=
| WInsert (tx_id : Z) (table_name : list byte) (row_id : RowId) (tuple_data : list byte)
| WUpdate (tx_id : Z) (table_name : list byte) (row_id : RowId) (old_tuple new_tuple : list byte)
| WDelete (tx_id : Z) (table_name : list byte) (row_id : RowId)
| WCommit (tx_id timestamp : Z)
| WAbort (tx_id : Z)
| WCheckpoint (lsn timestamp : Z)
| WBeginTxn (tx_id : Z)
| WCommitTxn (tx_id timestamp : Z)
| WAbortTxn (tx_id : Z)
| WColumnNarrowing (tx_id : Z) (table_name : list byte)
    (removed_column_index new_column_count : Z).

#[global] Instance wal_record_eq_dec : EqDecision WalRecord.
Proof. solve_decision. Defined.

(** [self.record_type() as u8]. *)
Definition type_code (t : WalRecordType) : Z :=
  match t with
  | TInsert => 1 | TUpdate => 2 | TDelete => 3 | TCommit => 4 | TAbort => 5 | TCheckpoint => 6
  | TBeginTxn => 7 | TCommitTxn => 8 | TAbortTxn => 9 | TColumnNarrowing => 10
  end.

Definition record_type_try_from (b : byte) : exec WalError WalRecordType :=
  match b with
  | Byte.x01 => Ok TInsert
  | Byte.x02 => Ok TUpdate
  | Byte.x03 => Ok TDelete
  | Byte.x04 => Ok TCommit
  | Byte.x05 => Ok TAbort
  | Byte.x06 => Ok TCheckpoint
  | Byte.x07 => Ok TBeginTxn
  | Byte.x08 => Ok TCommitTxn
  | Byte.x09 => Ok TAbortTxn
  | Byte.x0a => Ok TColumnNarrowing
  | _ => Err (InvalidRecordType (byte_val b))
  end.

Definition record_type (r : WalRecord) : WalRecordType :=
  match r with
  | WInsert _ _ _ _ => TInsert
  | WUpdate _ _ _ _ _ => TUpdate
  | WDelete _ _ _ => TDelete
  | WCommit _ _ => TCommit
  | WAbort _ => TAbort
  | WCheckpoint _ _ => TCheckpoint
  | WBeginTxn _ => TBeginTxn
  | WCommitTxn _ _ => TCommitTxn
  | WAbortTxn _ => TAbortTxn
  | WColumnNarrowing _ _ _ _ => TColumnNarrowing
  end.

Definition record_tx_id (r : WalRecord) : Z :=
  match r with
  | WInsert t _ _ _ | WUpdate t _ _ _ _ | WDelete t _ _ | WCommit t _ | WAbort t
  | WBeginTxn t | WCommitTxn t _ | WAbortTxn t | WColumnNarrowing t _ _ _ => t
  | WCheckpoint _ _ => 0
  end.

(** ** Field encodings *)

Definition serialize_bytes (data : list byte) : list byte := le_bytes 4 (zlen data) ++ data.

Definition serialize_string (s : list byte) : list byte := le_bytes 2 (zlen s) ++ s.

Definition serialize_row_id (r : RowId) : list byte :=
  le_bytes 4 (page_id r) ++ le_bytes 2 (slot_id r).

(** [&buf[a..]]. *)
Definition slice_from {E} (buf : list byte) (a : Z) : exec E (list byte) :=
  slice_get buf a (zlen buf).

Definition deserialize_bytes_with_len (buf : list byte) : exec WalError (list byte * Z) :=
  if zlen buf <? 4 then Err IncompleteRecord
  else
    let len := le_val (slice buf 0 4) in
    if zlen buf <? 4 + len then Err IncompleteRecord
    else
      let? data := slice_get buf 4 (4 + len) in
      Ok (data, 4 + len).

Definition deserialize_bytes (buf : list byte) : exec WalError (list byte) :=
  if zlen buf <? 4 then Err IncompleteRecord
  else
    let len := le_val (slice buf 0 4) in
    if zlen buf <? 4 + len then Err IncompleteRecord
    else slice_get buf 4 (4 + len).

Definition read_string (buf : list byte) : exec WalError (list byte * Z) :=
  if zlen buf <? 2 then Err IncompleteRecord
  else
    let len := le_val (slice buf 0 2) in
    if zlen buf <? 2 + len then Err IncompleteRecord
    else
      let? s := slice_get buf 2 (2 + len) in
      if utf8_valid s then Ok (s, 2 + len) else Err InvalidUtf8.

Definition read_row_id (buf : list byte) : exec WalError RowId :=
  if zlen buf <? 6 then Err IncompleteRecord
  else Ok (mk_row_id (le_val (slice buf 0 4)) (le_val (slice buf 4 6))).

(** ** Record bodies *)

Definition serialize_data (r : WalRecord) : list byte :=
  match r with
  | WInsert tx table row tuple =>
      le_bytes 8 tx ++ serialize_string table ++ serialize_row_id row ++ serialize_bytes tuple
  | WUpdate tx table row old new =>
      le_bytes 8 tx ++ serialize_string table ++ serialize_row_id row ++ serialize_bytes old
      ++ serialize_bytes new
  | WDelete tx table row => le_bytes 8 tx ++ serialize_string table ++ serialize_row_id row
  | WCommit tx timestamp => le_bytes 8 tx ++ le_bytes 8 timestamp
  | WAbort tx => le_bytes 8 tx
  | WCheckpoint lsn timestamp => le_bytes 8 lsn ++ le_bytes 8 timestamp
  | WBeginTxn tx => le_bytes 8 tx
  | WCommitTxn tx timestamp => le_bytes 8 tx ++ le_bytes 8 timestamp
  | WAbortTxn tx => le_bytes 8 tx
  | WColumnNarrowing tx table removed count =>
      le_bytes 8 tx ++ serialize_string table ++ le_bytes 4 removed ++ le_bytes 4 count
  end.

(** The fields several bodies start with. *)
Definition read_tx {A} (buf : list byte) (k : Z -> exec WalError A) : exec WalError A :=
  if zlen buf <? 8 then Err IncompleteRecord else k (le_val (slice buf 0 8)).

Definition read_tx_time {A} (buf : list byte) (k : Z -> Z -> exec WalError A) : exec WalError A :=
  if zlen buf <? 16 then Err IncompleteRecord
  else k (le_val (slice buf 0 8)) (le_val (slice buf 8 16)).

(** The table name after the transaction id, and the offset after it. *)
Definition read_table {A} (buf : list byte) (k : list byte -> Z -> exec WalError A)
    : exec WalError A :=
  let? rest := slice_from buf 8 in
  let? (table, consumed) := read_string rest in
  k table (8 + consumed).

Definition deserialize_data (t : WalRecordType) (buf : list byte) : exec WalError WalRecord :=
  match t with
  | TInsert =>
      read_tx buf (fun tx => read_table buf (fun table offset =>
        let? at_row := slice_from buf offset in
        let? row := read_row_id at_row in
        let? at_tuple := slice_from buf (offset + 6) in
        let? tuple := deserialize_bytes at_tuple in
        Ok (WInsert tx table row tuple)))
  | TUpdate =>
      read_tx buf (fun tx => read_table buf (fun table offset =>
        let? at_row := slice_from buf offset in
        let? row := read_row_id at_row in
        let? at_old := slice_from buf (offset + 6) in
        let? (old, consumed2) := deserialize_bytes_with_len at_old in
        let? at_new := slice_from buf (offset + 6 + consumed2) in
        let? new := deserialize_bytes at_new in
        Ok (WUpdate tx table row old new)))
  | TDelete =>
      read_tx buf (fun tx => read_table buf (fun table offset =>
        let? at_row := slice_from buf offset in
        let? row := read_row_id at_row in
        Ok (WDelete tx table row)))
  | TCommit => read_tx_time buf (fun tx timestamp => Ok (WCommit tx timestamp))
  | TAbort => read_tx buf (fun tx => Ok (WAbort tx))
  | TCheckpoint => read_tx_time buf (fun lsn timestamp => Ok (WCheckpoint lsn timestamp))
  | TBeginTxn => read_tx buf (fun tx => Ok (WBeginTxn tx))
  | TCommitTxn => read_tx_time buf (fun tx timestamp => Ok (WCommitTxn tx timestamp))
  | TAbortTxn => read_tx buf (fun tx => Ok (WAbortTxn tx))
  | TColumnNarrowing =>
      read_tx buf (fun tx => read_table buf (fun table offset =>
        if zlen buf <? offset + 8 then Err IncompleteRecord
        else Ok (WColumnNarrowing tx table (le_val (slice buf offset (offset + 4)))
                   (le_val (slice buf (offset + 4) (offset + 8))))))
  end.

(** ** Legacy frames *)

Definition serialize (r : WalRecord) : list byte :=
  byte_of (type_code (record_type r)) :: le_bytes 4 (zlen (serialize_data r)) ++ serialize_data r.

Definition deserialize (buf : list byte) : exec WalError (WalRecord * Z) :=
  if zlen buf <? 5 then Err IncompleteRecord
  else
    let? b := index_get buf 0 in
    let? t := record_type_try_from b in
    let len := le_val (slice buf 1 5) in
    if zlen buf <? 5 + len then Err IncompleteRecord
    else
      let? body := slice_get buf 5 (5 + len) in
      let? r := deserialize_data t body in
      Ok (r, 5 + len).

(** ** Current frames *)

Section frames.
Context (crc32 : list byte -> Z).

(** The frame without its checksum. *)
Definition frame_content (r : WalRecord) (lsn : Z) : list byte :=
  le_bytes 8 lsn ++ byte_of (type_code (record_type r)) :: le_bytes 4 (zlen (serialize_data r))
  ++ serialize_data r.

Definition serialize_with_lsn (r : WalRecord) (lsn : Z) : list byte :=
  frame_content r lsn ++ le_bytes 4 (crc32 (frame_content r lsn)).

Definition deserialize_with_lsn (buf : list byte) : exec WalError (Z * WalRecord * Z) :=
  if zlen buf <? 17 then Err IncompleteRecord
  else
    let lsn := le_val (slice buf 0 8) in
    let? b := index_get buf 8 in
    let? t := record_type_try_from b in
    let len := le_val (slice buf 9 13) in
    let total_len := 8 + 1 + 4 + len + 4 in
    if zlen buf <? total_len then Err IncompleteRecord
    else
      let content_end := 8 + 1 + 4 + len in
      let expected_crc := crc32 (slice buf 0 content_end) in
      let stored_crc := le_val (slice buf content_end (content_end + 4)) in
      if negb (expected_crc =? stored_crc) then Err ChecksumMismatch
      else
        let? body := slice_get buf 13 (13 + len) in
        let? r := deserialize_data t body in
        Ok (lsn, r, total_len).

End frames.

(** ** Theorems *)

Definition name_wf (s : list byte) : Prop := utf8_valid s = true /\ in_u16 (zlen s).

(** The field values a Rust record can hold, within the length prefixes. *)
Definition record_wf (r : WalRecord) : Prop :=
  in_u32 (zlen (serialize_data r)) /\
  match r with
  | WInsert tx table row tuple =>
      in_u64 tx /\ name_wf table /\ row_id_wf row /\ in_u32 (zlen tuple)
  | WUpdate tx table row old new =>
      in_u64 tx /\ name_wf table /\ row_id_wf row /\ in_u32 (zlen old) /\ in_u32 (zlen new)
  | WDelete tx table row => in_u64 tx /\ name_wf table /\ row_id_wf row
  | WCommit tx timestamp | WCheckpoint tx timestamp | WCommitTxn tx timestamp =>
      in_u64 tx /\ in_u64 timestamp
  | WAbort tx | WBeginTxn tx | WAbortTxn tx => in_u64 tx
  | WColumnNarrowing tx table removed count =>
      in_u64 tx /\ name_wf table /\ in_u32 removed /\ in_u32 count
  end.

Lemma slice_from_app {E} (a b : list byte) n : n = zlen a -> slice_from (E:=E) (a ++ b) n = Ok b.
Proof.
  intros ->. unfold slice_from. pose proof (zlen_nonneg a). pose proof (zlen_nonneg b).
  rewrite slice_get_ok by buf_lia. rewrite slice_app_r by lia. by rewrite slice_whole by buf_lia.
Qed.

Lemma read_string_app s rest : name_wf s -> read_string (serialize_string s ++ rest) = Ok (s, 2 + zlen s).
Proof.
  intros [U L]. unfold read_string, serialize_string. rewrite <- app_assoc.
  pose proof (zlen_nonneg s). pose proof (zlen_nonneg rest).
  rewrite (proj2 (Z.ltb_ge _ 2)) by buf_lia.
  rewrite slice_app_l by buf_lia. rewrite slice_whole, le_val_u16 by (buf_lia || done).
  rewrite (proj2 (Z.ltb_ge _ _)) by buf_lia. rewrite slice_get_ok by buf_lia.
  rewrite exec_bind_ret. rewrite slice_app_r by buf_lia. rewrite slice_app_l by buf_lia.
  rewrite slice_whole by buf_lia. by rewrite U.
Qed.

Lemma read_row_id_app r rest : row_id_wf r -> read_row_id (serialize_row_id r ++ rest) = Ok r.
Proof.
  intros [P S]. unfold read_row_id, serialize_row_id. pose proof (zlen_nonneg rest).
  rewrite (proj2 (Z.ltb_ge _ _)) by buf_lia. rewrite <- app_assoc. slice_app.
  rewrite le_val_u32, le_val_u16 by done. by destruct r.
Qed.

Lemma deserialize_bytes_app bs rest : in_u32 (zlen bs) ->
  deserialize_bytes (serialize_bytes bs ++ rest) = Ok bs
  /\ deserialize_bytes_with_len (serialize_bytes bs ++ rest) = Ok (bs, 4 + zlen bs).
Proof.
  intros L. unfold deserialize_bytes, deserialize_bytes_with_len, serialize_bytes.
  rewrite <- app_assoc. pose proof (zlen_nonneg bs). pose proof (zlen_nonneg rest).
  rewrite !(proj2 (Z.ltb_ge _ 4)) by buf_lia.
  rewrite slice_app_l by buf_lia. rewrite slice_whole, le_val_u32 by (buf_lia || done).
  rewrite (proj2 (Z.ltb_ge _ _)) by buf_lia. rewrite slice_get_ok by buf_lia.
  rewrite exec_bind_ret. rewrite slice_app_r by buf_lia. rewrite slice_app_l by buf_lia.
  by rewrite slice_whole by buf_lia.
Qed.

Lemma read_tx_app {A} tx rest (k : Z -> exec WalError A) :
  in_u64 tx -> read_tx (le_bytes 8 tx ++ rest) k = k tx.
Proof.
  intros H. unfold read_tx. pose proof (zlen_nonneg rest).
  rewrite (proj2 (Z.ltb_ge _ _)) by buf_lia. slice_app. by rewrite le_val_u64.
Qed.

Lemma read_tx_time_app {A} tx ts (k : Z -> Z -> exec WalError A) :
  in_u64 tx -> in_u64 ts -> read_tx_time (le_bytes 8 tx ++ le_bytes 8 ts) k = k tx ts.
Proof.
  intros. unfold read_tx_time. rewrite (proj2 (Z.ltb_ge _ _)) by buf_lia.
  slice_app. by rewrite !le_val_u64.
Qed.

Lemma read_table_app {A} tx s rest (k : list byte -> Z -> exec WalError A) :
  name_wf s ->
  read_table (le_bytes 8 tx ++ serialize_string s ++ rest) k = k s (8 + (2 + zlen s)).
Proof.
  intros H. unfold read_table. rewrite slice_from_app by buf_lia. rewrite exec_bind_ret.
  rewrite read_string_app by done. by rewrite exec_bind_ret.
Qed.

Lemma zlen_serialize_string s : zlen (serialize_string s) = 2 + zlen s.
Proof. unfold serialize_string. buf_lia. Qed.
Lemma zlen_serialize_row_id r : zlen (serialize_row_id r) = 6.
Proof. unfold serialize_row_id. buf_lia. Qed.
Lemma zlen_serialize_bytes bs : zlen (serialize_bytes bs) = 4 + zlen bs.
Proof. unfold serialize_bytes. buf_lia. Qed.
#[global] Hint Rewrite zlen_serialize_string zlen_serialize_row_id zlen_serialize_bytes : buf.

(** What follows the table name, at its offset. *)
Lemma slice_from_body {E} tx s a rest n :
  n = 8 + (2 + zlen s) + zlen a ->
  slice_from (E:=E) (le_bytes 8 tx ++ serialize_string s ++ a ++ rest) n = Ok rest.
Proof. intros ->. rewrite !app_assoc. apply slice_from_app. buf_lia. Qed.

Lemma slice_from_row {E} tx s rest :
  slice_from (E:=E) (le_bytes 8 tx ++ serialize_string s ++ rest) (8 + (2 + zlen s)) = Ok rest.
Proof. rewrite app_assoc. apply slice_from_app. buf_lia. Qed.

Lemma deserialize_data_ok r :
  record_wf r -> deserialize_data (record_type r) (serialize_data r) = Ok r.
Proof.
  intros [_ W]. destruct r; cbn [record_type serialize_data deserialize_data] in *;
    repeat match goal with H : _ /\ _ |- _ => destruct H end;
    rewrite ?read_tx_time_app by done; try done;
    try (rewrite <- (app_nil_r (le_bytes 8 _)); by rewrite read_tx_app by done);
    rewrite read_tx_app by done;
    try (rewrite read_table_app by done).
  - rewrite slice_from_row, exec_bind_ret.
    rewrite read_row_id_app, exec_bind_ret by done.
    rewrite slice_from_body, exec_bind_ret by buf_lia.
    rewrite <- (app_nil_r (serialize_bytes _)).
    by rewrite (fun H => proj1 (deserialize_bytes_app _ _ H)) by done.
  - rewrite slice_from_row, exec_bind_ret.
    rewrite read_row_id_app, exec_bind_ret by done.
    rewrite slice_from_body, exec_bind_ret by buf_lia.
    rewrite (proj2 (deserialize_bytes_app old_tuple _ ltac:(done))), exec_bind_ret.
    rewrite (app_assoc (serialize_row_id _)). rewrite slice_from_body, exec_bind_ret by buf_lia.
    rewrite <- (app_nil_r (serialize_bytes new_tuple)).
    by rewrite (fun H => proj1 (deserialize_bytes_app _ _ H)) by done.
  - rewrite slice_from_row, exec_bind_ret. rewrite <- (app_nil_r (serialize_row_id _)).
    by rewrite read_row_id_app, exec_bind_ret by done.
  - rewrite (proj2 (Z.ltb_ge _ _)) by buf_lia. rewrite app_assoc.
    rewrite !slice_app_r by buf_lia. slice_app. by rewrite !le_val_u32.
Qed.

Lemma record_type_code r :
  record_type_try_from (byte_of (type_code (record_type r))) = Ok (record_type r).
Proof. by destruct r. Qed.

Lemma legacy_decodes r rest :
  record_wf r -> deserialize (serialize r ++ rest) = Ok (r, zlen (serialize r)).
Proof.
  intros W. unfold deserialize, serialize. set (body := serialize_data r).
  assert (in_u32 (zlen body)) as HL by apply W.
  pose proof (zlen_nonneg body). pose proof (zlen_nonneg rest).
  set (b := byte_of _). change ((b :: le_bytes 4 (zlen body) ++ body) ++ rest)
    with ([b] ++ (le_bytes 4 (zlen body) ++ body) ++ rest).
  rewrite (proj2 (Z.ltb_ge _ _)) by buf_lia.
  change (index_get ([b] ++ _) 0) with (Ok (E:=WalError) b). rewrite exec_bind_ret.
  unfold b at 1. rewrite record_type_code, exec_bind_ret. rewrite <- app_assoc.
  assert (slice ([b] ++ le_bytes 4 (zlen body) ++ body ++ rest) 1 5 = le_bytes 4 (zlen body)) as ->
    by (slice_app; done).
  rewrite le_val_u32 by done. rewrite (proj2 (Z.ltb_ge _ _)) by buf_lia.
  rewrite slice_get_ok by buf_lia. rewrite exec_bind_ret.
  assert (slice ([b] ++ le_bytes 4 (zlen body) ++ body ++ rest) 5 (5 + zlen body) = body) as ->
    by (slice_app; done).
  unfold body at 1. rewrite deserialize_data_ok, exec_bind_ret by done. do 2 f_equal. buf_lia.
Qed.

(** A legacy frame decodes to its record, whatever follows it in the
    file, and reports exactly its own length. *)
Theorem legacy_frame_roundtrip r rest :
  record_wf r -> deserialize (serialize r ++ rest) = Ok (r, zlen (serialize r)).
Proof. apply legacy_decodes. Qed.

Definition demo_insert : WalRecord :=
  WInsert 7 [Byte.x74] (mk_row_id 3 1) [Byte.x01; Byte.x02].

Lemma demo_insert_wf : record_wf demo_insert.
Proof. repeat split; vm_compute; done. Qed.

Lemma legacy_frame_roundtrip_witness :
  deserialize (serialize demo_insert ++ [Byte.xff]) = Ok (demo_insert, zlen (serialize demo_insert)).
Proof. apply legacy_frame_roundtrip, demo_insert_wf. Defined.

(** *** Current frames *)

Section frame_facts.
Context (crc32 : list byte -> Z).

Lemma zlen_frame_content r lsn : zlen (frame_content r lsn) = 13 + zlen (serialize_data r).
Proof. unfold frame_content. buf_lia. Qed.

Lemma zlen_frame r lsn : zlen (serialize_with_lsn crc32 r lsn) = 17 + zlen (serialize_data r).
Proof. unfold serialize_with_lsn. rewrite zlen_app, zlen_frame_content. buf_lia. Qed.

(** The head of a frame, as the reader peeks it. *)
Lemma frame_head r lsn rest :
  in_u64 lsn -> in_u32 (zlen (serialize_data r)) ->
  le_val (slice (frame_content r lsn ++ rest) 0 8) = lsn
  /\ index_get (E:=WalError) (frame_content r lsn ++ rest) 8
     = Ok (byte_of (type_code (record_type r)))
  /\ le_val (slice (frame_content r lsn ++ rest) 9 13) = zlen (serialize_data r)
  /\ slice (frame_content r lsn ++ rest) 13 (13 + zlen (serialize_data r)) = serialize_data r.
Proof.
  intros H1 H2. unfold frame_content. set (body := serialize_data r) in *. set (b := byte_of _).
  pose proof (zlen_nonneg body). pose proof (zlen_nonneg rest).
  change (b :: le_bytes 4 (zlen body) ++ body) with ([b] ++ le_bytes 4 (zlen body) ++ body).
  rewrite <- !app_assoc. split_and!.
  - slice_app. by apply le_val_u64.
  - by apply index_get_app.
  - slice_app. by apply le_val_u32.
  - slice_app. done.
Qed.

Lemma frame_decodes r lsn rest :
  record_wf r -> in_u64 lsn -> (forall bs, in_u32 (crc32 bs)) ->
  deserialize_with_lsn crc32 (serialize_with_lsn crc32 r lsn ++ rest)
  = Ok (lsn, r, zlen (serialize_with_lsn crc32 r lsn)).
Proof.
  intros W HL HC. assert (in_u32 (zlen (serialize_data r))) as HB by apply W.
  pose proof (zlen_nonneg (serialize_data r)) as HN. pose proof (zlen_nonneg rest).
  unfold deserialize_with_lsn. rewrite zlen_frame.
  unfold serialize_with_lsn. rewrite <- app_assoc.
  set (tail := le_bytes 4 (crc32 (frame_content r lsn)) ++ rest).
  assert (zlen (frame_content r lsn ++ tail) = 17 + zlen (serialize_data r) + zlen rest) as HZ.
  { unfold tail. rewrite !zlen_app, zlen_frame_content. buf_lia. }
  destruct (frame_head r lsn tail HL HB) as (-> & -> & -> & HBody).
  rewrite HZ, (proj2 (Z.ltb_ge _ _)) by lia. rewrite exec_bind_ret, record_type_code, exec_bind_ret.
  rewrite (proj2 (Z.ltb_ge _ _)) by lia.
  replace (8 + 1 + 4 + zlen (serialize_data r)) with (zlen (frame_content r lsn))
    by (rewrite zlen_frame_content; lia).
  rewrite (slice_app_l (frame_content r lsn)) by lia. rewrite slice_whole by lia.
  rewrite (slice_app_r (frame_content r lsn)) by lia.
  unfold tail at 1. rewrite slice_app_l, slice_whole, le_val_u32 by (buf_lia || done).
  rewrite Z.eqb_refl. cbn [negb]. rewrite slice_get_ok by (rewrite ?HZ; lia).
  rewrite exec_bind_ret, HBody, deserialize_data_ok, exec_bind_ret by done.
  rewrite zlen_frame_content. do 2 f_equal. lia.
Qed.

End frame_facts.

(** C32: a current frame decodes to its position and record, whatever follows it
    in the file, and reports exactly its own length. *)
Theorem frame_roundtrip crc32 r lsn rest :
  (forall bs, in_u32 (crc32 bs)) -> record_wf r -> in_u64 lsn ->
  deserialize_with_lsn crc32 (serialize_with_lsn crc32 r lsn ++ rest)
  = Ok (lsn, r, zlen (serialize_with_lsn crc32 r lsn)).
Proof. intros. by apply frame_decodes. Qed.

(** A checksum for examples: the byte sum. *)
Definition sum32 (bs : list byte) : Z := wrap32 (foldr (fun b n => byte_val b + n) 0 bs).

Lemma sum32_range bs : in_u32 (sum32 bs).
Proof. unfold sum32, wrap32. pose proof (Z.mod_pos_bound (foldr (fun b n => byte_val b + n) 0 bs) 4294967296). word_lia. Qed.

Lemma frame_roundtrip_witness :
  deserialize_with_lsn sum32 (serialize_with_lsn sum32 demo_insert 266 ++ [Byte.x00])
  = Ok (266, demo_insert, zlen (serialize_with_lsn sum32 demo_insert 266)).
Proof. apply frame_roundtrip; [apply sum32_range | apply demo_insert_wf | word_lia]. Defined.

(** *** Damaged frames *)

Lemma slice_from_no_panic {E} buf n : 0 <= n <= zlen buf -> no_panic (slice_from (E:=E) buf n).
Proof. intros H. unfold slice_from. rewrite slice_get_ok by lia. done. Qed.

Lemma slice_from_len {E} buf n rest : slice_from (E:=E) buf n = Ok rest ->
  0 <= n <= zlen buf /\ zlen rest = zlen buf - n.
Proof.
  unfold slice_from, slice_get. case_match eqn:C; [|done]. intros [= <-].
  rewrite !andb_true_iff, !Z.leb_le in C. rewrite zlen_slice; lia.
Qed.

Lemma le_val_nonneg bs : 0 <= le_val bs.
Proof. apply le_val_bound. Qed.

Lemma bytes_no_panic buf :
  no_panic (deserialize_bytes buf) /\ no_panic (deserialize_bytes_with_len buf).
Proof.
  unfold deserialize_bytes, deserialize_bytes_with_len.
  destruct (Z.ltb_spec (zlen buf) 4); [done|]. pose proof (le_val_nonneg (slice buf 0 4)).
  destruct (Z.ltb_spec (zlen buf) (4 + le_val (slice buf 0 4))); [done|].
  rewrite slice_get_ok by lia. done.
Qed.

Lemma read_string_no_panic buf : no_panic (read_string buf).
Proof.
  unfold read_string. destruct (Z.ltb_spec (zlen buf) 2); [done|].
  pose proof (le_val_nonneg (slice buf 0 2)).
  destruct (Z.ltb_spec (zlen buf) (2 + le_val (slice buf 0 2))); [done|].
  rewrite slice_get_ok by lia. rewrite exec_bind_ret. by destruct (utf8_valid _).
Qed.

Lemma read_string_len buf s n : read_string buf = Ok (s, n) -> 2 <= n <= zlen buf.
Proof.
  unfold read_string. destruct (Z.ltb_spec (zlen buf) 2); [done|].
  pose proof (le_val_nonneg (slice buf 0 2)).
  destruct (Z.ltb_spec (zlen buf) (2 + le_val (slice buf 0 2))); [done|].
  rewrite slice_get_ok, exec_bind_ret by lia. destruct (utf8_valid _); [|done].
  intros E. injection E as _ <-. lia.
Qed.

Lemma bytes_with_len_len buf bs n : deserialize_bytes_with_len buf = Ok (bs, n) -> 4 <= n <= zlen buf.
Proof.
  unfold deserialize_bytes_with_len. destruct (Z.ltb_spec (zlen buf) 4); [done|].
  pose proof (le_val_nonneg (slice buf 0 4)).
  destruct (Z.ltb_spec (zlen buf) (4 + le_val (slice buf 0 4))); [done|].
  rewrite slice_get_ok, exec_bind_ret by lia. intros E. injection E as _ <-. lia.
Qed.

Lemma read_row_id_len buf r : read_row_id buf = Ok r -> 6 <= zlen buf.
Proof. unfold read_row_id. destruct (Z.ltb_spec (zlen buf) 6); [done|lia]. Qed.

(** The continuation of a table record runs at an offset inside the body. *)
Lemma read_table_no_panic {A} buf (k : list byte -> Z -> exec WalError A) :
  8 <= zlen buf -> (forall s n, 8 <= n <= zlen buf -> no_panic (k s n)) -> no_panic (read_table buf k).
Proof.
  intros HB HK. unfold read_table. apply no_panic_bind; [apply slice_from_no_panic; lia|].
  intros rest (_ & HR)%slice_from_len. apply no_panic_bind; [apply read_string_no_panic|].
  intros [s n] Hs%read_string_len. apply HK. lia.
Qed.

Lemma row_part_no_panic {A} buf n (k : RowId -> exec WalError A) :
  0 <= n <= zlen buf -> (forall r, n + 6 <= zlen buf -> no_panic (k r)) ->
  no_panic (let? at_row := slice_from buf n in let? row := read_row_id at_row in k row).
Proof.
  intros HN HK. apply no_panic_bind; [by apply slice_from_no_panic|].
  intros rest (_ & HR)%slice_from_len. apply no_panic_bind.
  { unfold read_row_id. by destruct (_ <? _). }
  intros r Hr%read_row_id_len. apply HK. lia.
Qed.

Lemma deserialize_data_no_panic t buf : no_panic (deserialize_data t buf).
Proof.
  destruct t; cbn [deserialize_data]; unfold read_tx, read_tx_time;
    (destruct (zlen buf <? _) eqn:HB; [done|]); try done; apply Z.ltb_ge in HB;
    apply read_table_no_panic; try done; intros s n Hn.
  - apply row_part_no_panic; [lia|]. intros r Hr.
    apply no_panic_bind; [apply slice_from_no_panic; lia|]. intros rest _.
    apply no_panic_bind; [apply bytes_no_panic|done].
  - apply row_part_no_panic; [lia|]. intros r Hr.
    apply no_panic_bind; [apply slice_from_no_panic; lia|]. intros rest (_ & HR)%slice_from_len.
    apply no_panic_bind; [apply bytes_no_panic|]. intros [old m] Hm%bytes_with_len_len.
    apply no_panic_bind; [apply slice_from_no_panic; lia|]. intros rest' _.
    apply no_panic_bind; [apply bytes_no_panic|done].
  - apply row_part_no_panic; [lia|]. done.
  - by destruct (_ <? _).
Qed.

Lemma try_from_no_panic b : no_panic (record_type_try_from b).
Proof. by destruct b. Qed.

(** no byte sequence makes the frame decoders panic, and the current decoder
    accepts a frame only within the buffer and with a matching checksum over
    everything before it. *)
Theorem wal_decode_hostile crc32 buf :
  no_panic (deserialize buf) /\ no_panic (deserialize_with_lsn crc32 buf)
  /\ forall lsn r n, deserialize_with_lsn crc32 buf = Ok (lsn, r, n) ->
       17 <= n <= zlen buf /\ in_u64 lsn
       /\ crc32 (slice buf 0 (n - 4)) = le_val (slice buf (n - 4) n).
Proof.
  split_and!.
  - unfold deserialize. destruct (Z.ltb_spec (zlen buf) 5); [done|].
    destruct buf as [|b buf]; [done|]. change (index_get (b :: buf) 0) with (Ok (E:=WalError) b).
    rewrite exec_bind_ret. apply no_panic_bind; [apply try_from_no_panic|]. intros t _.
    pose proof (le_val_nonneg (slice (b :: buf) 1 5)). destruct (Z.ltb_spec (zlen (b :: buf)) (5 + le_val (slice (b :: buf) 1 5))); [done|].
    rewrite slice_get_ok, exec_bind_ret by lia.
    apply no_panic_bind; [apply deserialize_data_no_panic|done].
  - unfold deserialize_with_lsn. destruct (Z.ltb_spec (zlen buf) 17); [done|].
    apply no_panic_bind. { apply index_get_no_panic. lia. }
    intros b _. apply no_panic_bind; [apply try_from_no_panic|]. intros t _.
    pose proof (le_val_nonneg (slice buf 9 13)). set (len := le_val (slice buf 9 13)) in *.
    destruct (Z.ltb_spec (zlen buf) (8 + 1 + 4 + len + 4)); [done|].
    destruct (negb _); [done|]. rewrite slice_get_ok, exec_bind_ret by lia.
    apply no_panic_bind; [apply deserialize_data_no_panic|done].
  - intros lsn r n. unfold deserialize_with_lsn.
    destruct (Z.ltb_spec (zlen buf) 17) as [?|H17]; [done|].
    pose proof (le_val_nonneg (slice buf 9 13)) as HN. set (len := le_val (slice buf 9 13)) in *.
    intros (b & _ & H)%exec_bind_Ok. apply exec_bind_Ok in H as (t & _ & H).
    destruct (Z.ltb_spec (zlen buf) (8 + 1 + 4 + len + 4)); [done|].
    destruct (crc32 (slice buf 0 (8 + 1 + 4 + len)) =? _) eqn:EC; [|done]. cbn [negb] in H.
    apply Z.eqb_eq in EC.
    apply exec_bind_Ok in H as (body & _ & H). apply exec_bind_Ok in H as (r' & _ & H).
    injection H as <- <- <-. split_and!; [lia|lia|apply le_val_in_u64, length_slice; lia|].
    replace (8 + 1 + 4 + len + 4 - 4) with (8 + 1 + 4 + len) by lia. exact EC.
Qed.
