(* ===== verification/WalLog.v ===== *)
(** * The log file: writer, reader and group commit

    [src/wal/writer.rs] appends records to the log file, [src/wal/reader.rs]
    reads them back frame by frame, telling the two frame formats apart, and
    [src/wal/buffer.rs] collects records in memory and flushes them in batches
    for the transactions that wait on their commit.

    A file is its bytes.  What the operating system answers to a write is an
    argument: everything reached the disk, or the write failed after some
    bytes.  A flush takes several locks and awaits the writer, so its pieces
    are separate definitions and the theorems on concurrent flushes run them
    as separate steps. *)

From Stdlib Require Import ZArith Strings.Byte Lia.
From stdpp Require Import base tactics list numbers gmap relations.
From S2P Require Import Prelude RowKey WalRecord.
Import RowId.

(** ** The writer *)

Definition DEFAULT_CHECKPOINT_BYTES : Z := 16 * 1024 * 1024.

Record WalWriter := mk_writer {
  wal_file : list byte;
  write_count : Z;
  bytes_appended : Z;
  checkpoint_bytes_threshold : Z }.

(** A write reaches the disk as a whole, or fails after some of its bytes. *)
Inductive WriteOutcome := Written | FailedAfter (n : nat).

Definition writer_open (file : list byte) : WalWriter :=
  mk_writer file 0 0 DEFAULT_CHECKPOINT_BYTES.

Definition with_file (w : WalWriter) (file : list byte) : WalWriter :=
  mk_writer file (write_count w) (bytes_appended w) (checkpoint_bytes_threshold w).

Definition get_current_lsn (w : WalWriter) : Z := zlen (wal_file w).

(** The counters are [u64] atomics. *)
Definition count_written (w : WalWriter) (records bytes : Z) : WalWriter :=
  mk_writer (wal_file w) (wrap64 (write_count w + records)) (wrap64 (bytes_appended w + bytes))
    (checkpoint_bytes_threshold w).

Definition write_record (w : WalWriter) (r : WalRecord) (out : WriteOutcome)
    : exec WalError Z * WalWriter :=
  let buf := serialize r in
  let lsn := zlen (wal_file w) in
  match out with
  | FailedAfter n => (Err IoError, with_file w (wal_file w ++ take n buf))
  | Written => (Ok lsn, count_written (with_file w (wal_file w ++ buf)) 1 (zlen buf))
  end.

(** [set_len]: cuts the file, or extends it with zeros. *)
Definition truncate_to (w : WalWriter) (lsn : Z) : WalWriter :=
  with_file w (take (Z.to_nat lsn) (wal_file w)
               ++ replicate (Z.to_nat lsn - length (wal_file w)) Byte.x00).

(** [rewrite_truncate] after its successful system calls: the suffix moved to
    the head of the file. *)
Definition rewrite_truncate (w : WalWriter) (lsn : Z) : Z * WalWriter :=
  let end_ := zlen (wal_file w) in
  let suffix_len := sat_sub end_ lsn in
  let suffix := slice (wal_file w) lsn (lsn + suffix_len) in
  (suffix_len, with_file w suffix).

Definition reset_write_count (w : WalWriter) : WalWriter :=
  mk_writer (wal_file w) 0 (bytes_appended w) (checkpoint_bytes_threshold w).
Definition reset_bytes_appended (w : WalWriter) : WalWriter :=
  mk_writer (wal_file w) (write_count w) 0 (checkpoint_bytes_threshold w).
Definition set_checkpoint_bytes_threshold (w : WalWriter) (bytes : Z) : WalWriter :=
  mk_writer (wal_file w) (write_count w) (bytes_appended w) bytes.

Section log.
Context (crc32 : list byte -> Z).

Definition batch_bytes (records : list (Z * WalRecord)) : list byte :=
  concat ((fun '(lsn, r) => serialize_with_lsn crc32 r lsn) <$> records).

Definition write_batch (w : WalWriter) (records : list (Z * WalRecord)) (out : WriteOutcome)
    : exec WalError unit * WalWriter :=
  let content := batch_bytes records in
  match out with
  | FailedAfter n => (Err IoError, with_file w (wal_file w ++ take n content))
  | Written =>
      (Ok tt, count_written (with_file w (wal_file w ++ content)) (zlen records) (zlen content))
  end.

(** ** The reader *)

(** [read_exact] of the bytes up to [b]; the bytes from [a] are returned. *)
Definition read_upto (file : list byte) (a b : Z) : exec WalError (list byte) :=
  if zlen file <? b then Err IoError else Ok (slice file a b).

Definition read_new_format_frame (file : list byte) (start : Z) (peek : list byte)
    : exec WalError (Z * WalRecord * Z) :=
  if zlen peek <? 13 then Err IncompleteRecord
  else
    let len := le_val (slice peek 9 13) in
    let total_len := 8 + 1 + 4 + len + 4 in
    let? record_buf := read_upto file start (start + total_len) in
    let? (lsn, record, _) := deserialize_with_lsn crc32 record_buf in
    Ok (lsn, record, start + total_len).

(** The legacy branch of [read_next_with_lsn]. *)
Definition read_legacy_frame (file : list byte) (start : Z) (peek : list byte)
    : exec WalError (Z * WalRecord * Z) :=
  let bytes_read := zlen peek in
  let total_len := 5 + le_val (slice peek 1 5) in
  let? record_buf :=
    if bytes_read <? total_len then read_upto file start (start + total_len)
    else Ok (slice peek 0 total_len) in
  let? (record, _) := deserialize record_buf in
  Ok (start, record, start + Z.max bytes_read total_len).

(** The record at [start] with its position and the position after it. *)
Definition read_next_with_lsn (file : list byte) (start : Z)
    : exec WalError (option (Z * WalRecord * Z)) :=
  let peek := slice file start (Z.min (start + 13) (zlen file)) in
  let bytes_read := zlen peek in
  if bytes_read =? 0 then Ok None
  else if bytes_read <? 5 then Err IncompleteRecord
  else
    let? b := index_get peek 0 in
    if negb (is_ok (record_type_try_from b)) then
      let? r := read_new_format_frame file start peek in Ok (Some r)
    else
      match (if 13 <=? bytes_read then read_new_format_frame file start peek
             else Err IncompleteRecord) with
      | Ok r => Ok (Some r)
      | Panic => Panic
      | Err _ => let? r := read_legacy_frame file start peek in Ok (Some r)
      end.

(** A frame is at least five bytes, so the length of the file bounds the
    number of turns. *)
Fixpoint read_from (file : list byte) (fuel : nat) (pos : Z)
    : option (exec WalError (list (Z * WalRecord))) :=
  match fuel with
  | O => None
  | S fuel =>
      match read_next_with_lsn file pos with
      | Err e => Some (Err e)
      | Panic => Some Panic
      | Ok None => Some (Ok [])
      | Ok (Some (lsn, record, pos)) =>
          match read_from file fuel pos with
          | Some (Ok records) => Some (Ok ((lsn, record) :: records))
          | other => other
          end
      end
  end.

Definition read_all_with_lsn (file : list byte) : option (exec WalError (list (Z * WalRecord))) :=
  read_from file (S (length file)) 0.

(** ** Group commit *)

Record WALBuffer := mk_buffer {
  buffer : list (Z * WalRecord);
  buf_lsn : Z;
  wal_writer : WalWriter;
  pending_commits : list Z;
  commit_waiters : gset Z;
  notified : gset Z;
  capacity : Z }.

(** One flush on its way: what it took, and what it stamped. *)
Record Flush := mk_flush { taken : list (Z * WalRecord); committed : list Z }.

Definition buffer_new (w : WalWriter) (capacity : Z) : WALBuffer :=
  mk_buffer [] 1 w [] ∅ ∅ capacity.

(** [append] up to the capacity test: the position and whether a flush
    follows. *)
Definition append (b : WALBuffer) (r : WalRecord) : Z * bool * WALBuffer :=
  let lsn := buf_lsn b in
  let records := buffer b ++ [(lsn, r)] in
  (lsn, capacity b <=? zlen records,
   mk_buffer records (wrap64 (lsn + 1)) (wal_writer b) (pending_commits b) (commit_waiters b)
     (notified b) (capacity b)).

(** [append_commit_and_wait] up to the wait. *)
Definition register_commit (b : WALBuffer) (tx_id : Z) : WALBuffer :=
  mk_buffer (buffer b) (buf_lsn b) (wal_writer b) (pending_commits b ++ [tx_id])
    ({[tx_id]} ∪ commit_waiters b) (notified b) (capacity b).

Definition flush_take (b : WALBuffer) : Flush * WALBuffer :=
  (mk_flush (buffer b) (pending_commits b),
   mk_buffer [] (buf_lsn b) (wal_writer b) [] (commit_waiters b) (notified b) (capacity b)).

(** The position of each record: file offsets from [base] on. *)
Fixpoint stamp (base : Z) (records : list WalRecord) : list (Z * WalRecord) :=
  match records with
  | [] => []
  | r :: records => (base, r) :: stamp (base + zlen (serialize_with_lsn crc32 r base)) records
  end.

(** [get_current_lsn().unwrap_or(0)]. *)
Definition flush_base (b : WALBuffer) (metadata_ok : bool) : Z :=
  if metadata_ok then get_current_lsn (wal_writer b) else 0.

Definition flush_write (b : WALBuffer) (f : Flush) (base : Z) (out : WriteOutcome) : WALBuffer :=
  match taken f with
  | [] => b
  | _ =>
      let (_, w) := write_batch (wal_writer b) (stamp base (snd <$> taken f)) out in
      mk_buffer (buffer b) (buf_lsn b) w (pending_commits b) (commit_waiters b) (notified b)
        (capacity b)
  end.

Definition flush_notify (b : WALBuffer) (f : Flush) : WALBuffer :=
  let woken := filter (fun t => t ∈ commit_waiters b) (list_to_set (C:=gset Z) (committed f)) in
  mk_buffer (buffer b) (buf_lsn b) (wal_writer b) (pending_commits b)
    (commit_waiters b ∖ woken) (woken ∪ notified b) (capacity b).

(** One flush from beginning to end. *)
Definition do_flush (b : WALBuffer) (metadata_ok : bool) (out : WriteOutcome) : WALBuffer :=
  let (f, b) := flush_take b in
  let base := flush_base b metadata_ok in
  flush_notify (flush_write b f base out) f.

End log.

(** ** Reading back *)

Section readback.
Context (crc32 : list byte -> Z).
Hypothesis crc32_range : forall bs, in_u32 (crc32 bs).

Abbreviation frame := (serialize_with_lsn crc32).

Lemma frame_min r lsn : 17 <= zlen (frame r lsn).
Proof. rewrite zlen_frame. pose proof (zlen_nonneg (serialize_data r)). lia. Qed.

(** The length field as the reader peeks it. *)
Lemma frame_len_field r lsn rest :
  record_wf r -> in_u64 lsn ->
  le_val (slice (slice (frame r lsn ++ rest) 0 13) 9 13) = zlen (serialize_data r).
Proof.
  intros W HL. pose proof (frame_min r lsn). pose proof (zlen_nonneg rest).
  rewrite slice_slice by buf_lia. unfold serialize_with_lsn. rewrite <- app_assoc.
  by apply frame_head; [|apply W].
Qed.

Lemma read_new_frame pre r lsn rest :
  record_wf r -> in_u64 lsn ->
  let file := pre ++ frame r lsn ++ rest in
  read_new_format_frame crc32 file (zlen pre) (slice file (zlen pre) (zlen pre + 13))
  = Ok (lsn, r, zlen pre + zlen (frame r lsn)).
Proof.
  intros W HL file. pose proof (frame_min r lsn) as HM. pose proof (zlen_nonneg pre).
  pose proof (zlen_nonneg rest).
  assert (slice file (zlen pre) (zlen pre + 13) = slice (frame r lsn ++ rest) 0 13) as ->.
  { unfold file. rewrite slice_app_r by lia. by rewrite Z.sub_diag, Z.add_simpl_l. }
  unfold read_new_format_frame. rewrite zlen_slice by buf_lia.
  rewrite (proj2 (Z.ltb_ge _ _)) by lia. rewrite frame_len_field by done.
  replace (8 + 1 + 4 + zlen (serialize_data r) + 4) with (zlen (frame r lsn))
    by (rewrite zlen_frame; lia).
  unfold read_upto. rewrite (proj2 (Z.ltb_ge _ _)) by (unfold file; buf_lia).
  rewrite exec_bind_ret.
  assert (slice file (zlen pre) (zlen pre + zlen (frame r lsn)) = frame r lsn ++ []) as ->.
  { unfold file. rewrite app_nil_r. slice_app. done. }
  by rewrite frame_decodes, exec_bind_ret.
Qed.

Lemma read_frame pre r lsn rest :
  record_wf r -> in_u64 lsn ->
  read_next_with_lsn crc32 (pre ++ frame r lsn ++ rest) (zlen pre)
  = Ok (Some (lsn, r, zlen pre + zlen (frame r lsn))).
Proof.
  intros W HL. pose proof (frame_min r lsn) as HM. pose proof (zlen_nonneg pre).
  pose proof (zlen_nonneg rest). pose proof (read_new_frame pre r lsn rest W HL) as HN.
  cbv zeta in HN. unfold read_next_with_lsn.
  rewrite Z.min_l by buf_lia. set (peek := slice _ (zlen pre) (zlen pre + 13)) in *.
  assert (zlen peek = 13) as HP by (unfold peek; rewrite zlen_slice; buf_lia).
  rewrite HP, HN. change (13 =? 0) with false. change (13 <? 5) with false. cbv iota.
  destruct (index_get (E:=WalError) peek 0) as [b|e|] eqn:EI.
  - rewrite exec_bind_ret. by destruct (negb _).
  - unfold index_get in EI. cbn in EI. by destruct (peek !! _).
  - exfalso. revert EI. apply index_get_no_panic. lia.
Qed.

Lemma stamp_app base rs rs' :
  stamp crc32 base (rs ++ rs')
  = stamp crc32 base rs ++ stamp crc32 (base + zlen (batch_bytes crc32 (stamp crc32 base rs))) rs'.
Proof.
  revert base. induction rs as [|r rs IH]; intros base; cbn [app stamp].
  - unfold batch_bytes. cbn. by rewrite zlen_nil, Z.add_0_r.
  - rewrite IH. unfold batch_bytes at 2. rewrite fmap_cons. cbn [concat].
    fold (batch_bytes crc32 (stamp crc32 (base + zlen (frame r base)) rs)).
    by rewrite zlen_app, Z.add_assoc.
Qed.

Lemma batch_bytes_app l l' : batch_bytes crc32 (l ++ l') = batch_bytes crc32 l ++ batch_bytes crc32 l'.
Proof. unfold batch_bytes. by rewrite fmap_app, concat_app. Qed.

Lemma batch_bytes_cons lsn r l : batch_bytes crc32 ((lsn, r) :: l) = frame r lsn ++ batch_bytes crc32 l.
Proof. done. Qed.

(** Frames read one after the other, whatever follows them and wherever their
    positions were stamped. *)
Lemma read_frames pre l rest fuel :
  Forall (fun e => in_u64 e.1 /\ record_wf e.2) l ->
  read_from crc32 (pre ++ batch_bytes crc32 l ++ rest) (length l + fuel) (zlen pre)
  = match read_from crc32 (pre ++ batch_bytes crc32 l ++ rest) fuel
            (zlen (pre ++ batch_bytes crc32 l)) with
    | Some (Ok more) => Some (Ok (l ++ more))
    | other => other
    end.
Proof.
  revert pre. induction l as [|[lsn r] l IH]; intros pre HW.
  - cbn [app length Nat.add]. change (batch_bytes crc32 []) with (@nil byte). rewrite app_nil_r.
    by destruct (read_from crc32 _ fuel (zlen pre)) as [[more| |]|].
  - apply Forall_cons in HW as [[H1 H2] HW]. rewrite batch_bytes_cons.
    cbn [length Nat.add read_from]. rewrite <- app_assoc. rewrite read_frame by done.
    rewrite (app_assoc pre). rewrite <- zlen_app. rewrite (IH _ HW).
    rewrite !zlen_app, !Z.add_assoc. by destruct (read_from crc32 _ fuel _) as [[more| |]|].
Qed.

Lemma read_end file fuel : read_from crc32 file (S fuel) (zlen file) = Some (Ok []).
Proof.
  cbn [read_from]. unfold read_next_with_lsn. rewrite Z.min_r by lia.
  assert (slice file (zlen file) (zlen file) = []) as -> by (unfold slice; by rewrite Z.sub_diag).
  done.
Qed.

Lemma stamp_range base rs :
  0 <= base -> base + zlen (batch_bytes crc32 (stamp crc32 base rs)) <= u64_max ->
  Forall record_wf rs ->
  Forall (fun e => in_u64 e.1 /\ record_wf e.2) (stamp crc32 base rs)
  /\ Forall (fun e => base <= e.1) (stamp crc32 base rs).
Proof.
  revert base. induction rs as [|r rs IH]; intros base H0 HL HW; [by split|].
  cbn [stamp] in *. rewrite batch_bytes_cons, zlen_app in HL.
  apply Forall_cons in HW as [Hr HW]. pose proof (frame_min r base).
  set (l := stamp crc32 (base + zlen (frame r base)) rs) in *.
  pose proof (zlen_nonneg (batch_bytes crc32 l)).
  destruct (IH (base + zlen (frame r base))) as [A B]; [lia|unfold l in HL; lia|done|].
  split; constructor; cbn [fst snd]; try done; [split; [word_lia|done]|].
  eapply Forall_impl; [exact B|]. intros e He. cbv beta in *. lia.
Qed.

Lemma length_stamp base rs : length (stamp crc32 base rs) = length rs.
Proof. revert base. induction rs as [|r rs IH]; intros base; cbn; [done|]. by rewrite IH. Qed.

Lemma batch_bytes_min base rs : (length rs <= length (batch_bytes crc32 (stamp crc32 base rs)))%nat.
Proof.
  revert base. induction rs as [|r rs IH]; intros base; cbn [stamp length]; [lia|].
  rewrite batch_bytes_cons, length_app. pose proof (frame_min r base).
  specialize (IH (base + zlen (frame r base))). unfold zlen in *. lia.
Qed.

Lemma read_all_stamped rs :
  Forall record_wf rs -> zlen (batch_bytes crc32 (stamp crc32 0 rs)) <= u64_max ->
  read_all_with_lsn crc32 (batch_bytes crc32 (stamp crc32 0 rs)) = Some (Ok (stamp crc32 0 rs)).
Proof.
  intros HW HL. unfold read_all_with_lsn. set (l := stamp crc32 0 rs) in *.
  destruct (stamp_range 0 rs) as [HR _]; [lia|done|done|].
  pose proof (batch_bytes_min 0 rs) as HM. fold l in HM, HR. rewrite <- (length_stamp 0) in HM. fold l in HM.
  pose proof (read_frames [] l [] (S (length (batch_bytes crc32 l)) - length l) HR) as E.
  cbn [app] in E. rewrite app_nil_r in E. change (zlen []) with 0 in E.
  replace (length l + (S (length (batch_bytes crc32 l)) - length l))%nat
    with (S (length (batch_bytes crc32 l))) in E by lia.
  rewrite E. replace (S (length (batch_bytes crc32 l)) - length l)%nat
    with (S (length (batch_bytes crc32 l) - length l)) by lia.
  rewrite read_end. by rewrite app_nil_r.
Qed.

End readback.

(** ** A log used by one task at a time *)

Inductive LogOp := OpAppend (r : WalRecord) | OpFlush.

Definition log_step (crc32 : list byte -> Z) (b : WALBuffer) (op : LogOp) : WALBuffer :=
  match op with
  | OpAppend r =>
      let '(_, full, b) := append b r in
      if full then do_flush crc32 b true Written else b
  | OpFlush => do_flush crc32 b true Written
  end.

Definition op_records (op : LogOp) : list WalRecord :=
  match op with OpAppend r => [r] | OpFlush => [] end.

Definition appended (ops : list LogOp) : list WalRecord := concat (op_records <$> ops).

(** The file holds the records flushed so far, stamped with their offsets. *)
Definition log_inv (crc32 : list byte -> Z) (b : WALBuffer) (log : list WalRecord) : Prop :=
  wal_file (wal_writer b) = batch_bytes crc32 (stamp crc32 0 log).

Lemma do_flush_log crc32 b log :
  log_inv crc32 b log ->
  log_inv crc32 (do_flush crc32 b true Written) (log ++ (snd <$> buffer b))
  /\ buffer (do_flush crc32 b true Written) = [].
Proof.
  unfold log_inv. intros H. unfold do_flush, flush_take, flush_write, flush_base. cbn [taken wal_writer].
  unfold get_current_lsn. rewrite H.
  destruct (buffer b) as [|x l]; [cbn; by rewrite app_nil_r|].
  cbn [write_batch flush_notify buffer wal_writer count_written with_file wal_file].
  rewrite H, stamp_app, batch_bytes_app. done.
Qed.

Lemma log_steps crc32 ops b log :
  log_inv crc32 b log ->
  exists log', log_inv crc32 (foldl (log_step crc32) b ops) log'
    /\ log' ++ (snd <$> buffer (foldl (log_step crc32) b ops))
       = log ++ (snd <$> buffer b) ++ appended ops
    /\ exists k, log' = log ++ k.
Proof.
  revert b log. induction ops as [|op ops IH]; intros b log H; cbn [foldl].
  - exists log. unfold appended. cbn. rewrite app_nil_r. split_and!; try done.
    exists []. by rewrite app_nil_r.
  - assert (exists log1, log_inv crc32 (log_step crc32 b op) log1
      /\ log1 ++ (snd <$> buffer (log_step crc32 b op)) = log ++ (snd <$> buffer b) ++ op_records op
      /\ exists k, log1 = log ++ k) as (log1 & H1 & E1 & k & Ek).
    { destruct op as [r|]; cbn [log_step op_records append].
      - destruct (capacity b <=? _).
        + edestruct (do_flush_log crc32) as [H1 E1]; [|eexists; split; [exact H1|]]; [done|].
          rewrite E1. cbn [buffer]. rewrite fmap_app, app_nil_r. split; [done|eauto].
        + exists log. cbn [buffer]. rewrite fmap_app. split_and!; [done|done|].
          exists []. by rewrite app_nil_r.
      - destruct (do_flush_log crc32 b log H) as [H1 E1]. eexists. split; [exact H1|].
        rewrite E1, !app_nil_r. split; [done|eauto]. }
    destruct (IH _ _ H1) as (log' & H' & E' & k' & Ek'). exists log'. split_and!; [done| |].
    + rewrite E', app_assoc, E1. unfold appended. cbn [fmap list_fmap concat].
      by rewrite <- !app_assoc.
    + exists (k ++ k'). rewrite Ek', Ek. by rewrite app_assoc.
Qed.

(** C25: the log file reads back as what was written.  After any sequence of
    appends and flushes on an empty log the reader returns, in order, a prefix
    of the appended records, each at its byte offset; what is missing is
    exactly what still sits in the memory buffer, so after a flush nothing
    is. *)
Theorem log_reads_back crc32 ops capacity :
  (forall bs, in_u32 (crc32 bs)) -> Forall record_wf (appended ops) ->
  let b := foldl (log_step crc32) (buffer_new (writer_open []) capacity) ops in
  zlen (wal_file (wal_writer b)) <= u64_max ->
  exists log,
    read_all_with_lsn crc32 (wal_file (wal_writer b)) = Some (Ok (stamp crc32 0 log))
    /\ log ++ (snd <$> buffer b) = appended ops
    /\ (last ops = Some OpFlush -> log = appended ops).
Proof.
  intros HC HW b HL.
  destruct (log_steps crc32 ops (buffer_new (writer_open []) capacity) [] eq_refl)
    as (log & H & E & _). fold b in H, E. cbn [buffer_new buffer fmap list_fmap app] in E.
  assert (Forall record_wf log) as HWl.
  { rewrite <- E in HW. by apply Forall_app in HW as [? _]. }
  exists log. rewrite H. split_and!; [|done|].
  - apply read_all_stamped; [done|done|]. by rewrite <- H.
  - intros Hlast. rewrite <- E.
    assert (buffer b = []) as ->; [|by rewrite app_nil_r].
    apply last_Some in Hlast as [ops' ->]. unfold b. rewrite foldl_app. cbn [foldl log_step].
    destruct (log_steps crc32 ops' (buffer_new (writer_open []) capacity) [] eq_refl)
      as (log' & H' & _). by apply (do_flush_log crc32 _ log').
Qed.

Definition demo_ops : list LogOp :=
  [OpAppend (WBeginTxn 1); OpAppend demo_insert; OpFlush; OpAppend (WCommitTxn 1 9); OpFlush].

Lemma log_reads_back_witness :
  exists log,
    read_all_with_lsn sum32
      (wal_file (wal_writer (foldl (log_step sum32) (buffer_new (writer_open []) 2) demo_ops)))
      = Some (Ok (stamp sum32 0 log))
    /\ log ++ (snd <$> buffer (foldl (log_step sum32) (buffer_new (writer_open []) 2) demo_ops))
       = appended demo_ops
    /\ (last demo_ops = Some OpFlush -> log = appended demo_ops).
Proof.
  apply (log_reads_back sum32 demo_ops 2); [apply sum32_range| |vm_compute; discriminate].
  repeat constructor; vm_compute; done.
Defined.

(** ** Concurrent group commit *)

Inductive FlushPhase := Taken | Stamped (base : Z) | Stored.

(** The flushes on their way and every record appended so far. *)
Record GState := mk_g {
  gbuf : WALBuffer; flights : list (Flush * FlushPhase); history : list WalRecord }.

Definition io_ok (metadata_ok : bool) (out : WriteOutcome) : bool :=
  metadata_ok && match out with Written => true | FailedAfter _ => false end.

(** One step of some task; the label tells whether its system call succeeded.
    A transaction registers for its commit after appending its commit
    record. *)
Inductive gstep (crc32 : list byte -> Z) : bool -> GState -> GState -> Prop :=
| g_append b fl h r : record_wf r ->
    gstep crc32 true (mk_g b fl h) (mk_g (append b r).2 fl (h ++ [r]))
| g_register b fl h tx ts : WCommitTxn tx ts ∈ h ->
    gstep crc32 true (mk_g b fl h) (mk_g (register_commit b tx) fl h)
| g_take b fl h :
    gstep crc32 true (mk_g b fl h) (mk_g (flush_take b).2 (fl ++ [((flush_take b).1, Taken)]) h)
| g_base b fl f fl' h ok :
    gstep crc32 ok (mk_g b (fl ++ (f, Taken) :: fl') h)
      (mk_g b (fl ++ (f, Stamped (flush_base b ok)) :: fl') h)
| g_write b fl f base fl' h out :
    gstep crc32 (io_ok true out) (mk_g b (fl ++ (f, Stamped base) :: fl') h)
      (mk_g (flush_write crc32 b f base out) (fl ++ (f, Stored) :: fl') h)
| g_notify b fl f fl' h :
    gstep crc32 true (mk_g b (fl ++ (f, Stored) :: fl') h) (mk_g (flush_notify b f) (fl ++ fl') h).

Definition g_init (capacity : Z) : GState := mk_g (buffer_new (writer_open []) capacity) [] [].

(** At most one flush at a time, every system call successful. *)
Definition serial (crc32 : list byte -> Z) (st st' : GState) : Prop :=
  gstep crc32 true st st' /\ (length (flights st') <= 1)%nat.

Definition recs (f : Flush) : list WalRecord := snd <$> taken f.

(** The records a flush has still to write. *)
Definition unwritten (fl : list (Flush * FlushPhase)) : list WalRecord :=
  concat ((fun '(f, ph) => match ph with Stored => [] | _ => recs f end) <$> fl).

Definition commits (tx : Z) (rs : list WalRecord) : Prop := exists ts, WCommitTxn tx ts ∈ rs.

Record g_inv (crc32 : list byte -> Z) (log : list WalRecord) (st : GState) : Prop := {
  gi_file : wal_file (wal_writer (gbuf st)) = batch_bytes crc32 (stamp crc32 0 log);
  gi_wf : Forall record_wf (history st);
  gi_split : history st = log ++ unwritten (flights st) ++ (snd <$> buffer (gbuf st));
  gi_pending : forall tx, tx ∈ pending_commits (gbuf st) -> commits tx (history st);
  gi_base : forall f base, (f, Stamped base) ∈ flights st ->
    base = zlen (wal_file (wal_writer (gbuf st)));
  gi_taken : forall f ph tx, (f, ph) ∈ flights st -> tx ∈ committed f ->
    commits tx (log ++ unwritten (flights st));
  gi_notified : forall tx, tx ∈ notified (gbuf st) -> commits tx log;
  gi_one : (length (flights st) <= 1)%nat }.

Lemma commits_app_l tx a b : commits tx a -> commits tx (a ++ b).
Proof. intros [ts H]. exists ts. apply elem_of_app. by left. Qed.

Lemma single {A} (fl fl' : list A) x y :
  (length (fl ++ x :: fl') <= 1)%nat -> fl ++ y :: fl' = [y] /\ fl = [] /\ fl' = [].
Proof.
  rewrite length_app. cbn [length]. destruct fl, fl'; cbn; try lia. done.
Qed.

Lemma g_inv_init crc32 c : g_inv crc32 [] (g_init c).
Proof. split; cbn; try done; try set_solver; try lia. Qed.

Lemma inv_append crc32 log b fl h r :
  record_wf r -> g_inv crc32 log (mk_g b fl h) ->
  g_inv crc32 log (mk_g (append b r).2 fl (h ++ [r])).
Proof.
  intros Hr [F W S P B T N O]. split; cbn [gbuf flights history append snd wal_writer buffer
    pending_commits notified] in *; try done.
  - apply Forall_app. split; [done|]. by constructor.
  - rewrite fmap_app, S, <- !app_assoc. done.
  - intros tx H. by apply commits_app_l, P.
Qed.

Lemma inv_register crc32 log b fl h tx ts :
  WCommitTxn tx ts ∈ h -> g_inv crc32 log (mk_g b fl h) ->
  g_inv crc32 log (mk_g (register_commit b tx) fl h).
Proof.
  intros Hh [F W S P B T N O]. split; cbn [gbuf flights history register_commit wal_writer buffer
    pending_commits notified] in *; try done.
  intros tx' [H|H%list_elem_of_singleton]%elem_of_app; [by apply P|]. subst tx'. by exists ts.
Qed.

Lemma inv_take crc32 log b h :
  g_inv crc32 log (mk_g b [] h) ->
  g_inv crc32 log (mk_g (flush_take b).2 [((flush_take b).1, Taken)] h).
Proof.
  intros [F W S P B T N O]. split; cbn [gbuf flights history flush_take snd fst wal_writer buffer
    pending_commits notified] in *; try done.
  - unfold unwritten, recs in *. cbn [fmap list_fmap concat taken app] in *.
    by rewrite !app_nil_r.
  - intros tx H. by apply not_elem_of_nil in H.
  - intros f base H. by apply list_elem_of_singleton in H.
  - intros f ph tx [= -> ->]%list_elem_of_singleton Htx. cbn [committed] in Htx.
    unfold unwritten, recs in *. cbn [fmap list_fmap concat taken app] in *.
    rewrite app_nil_r. rewrite <- S. by apply P.
Qed.

Lemma inv_base crc32 log b f h :
  g_inv crc32 log (mk_g b [(f, Taken)] h) ->
  g_inv crc32 log (mk_g b [(f, Stamped (flush_base b true))] h).
Proof.
  intros [F W S P B T N O]. split; cbn [gbuf flights history] in *; try done.
  - intros f' base [= -> ->]%list_elem_of_singleton. done.
  - intros f' ph tx [= -> ->]%list_elem_of_singleton Htx.
    apply (T f Taken tx); [by apply list_elem_of_singleton|done].
Qed.

Lemma inv_write crc32 log b f base h :
  g_inv crc32 log (mk_g b [(f, Stamped base)] h) ->
  g_inv crc32 (log ++ recs f) (mk_g (flush_write crc32 b f base Written) [(f, Stored)] h).
Proof.
  intros [F W S P B T N O]. cbn [gbuf flights history] in *.
  assert (unwritten [(f, Stamped base)] = recs f) as EU
    by (unfold unwritten; cbn; by rewrite app_nil_r).
  rewrite EU in *.
  assert (base = zlen (wal_file (wal_writer b))) as ->
    by (apply (B f); by apply list_elem_of_singleton).
  assert (wal_file (wal_writer (flush_write crc32 b f (zlen (wal_file (wal_writer b))) Written))
          = batch_bytes crc32 (stamp crc32 0 (log ++ recs f))) as EF.
  { unfold flush_write, recs. destruct (taken f) as [|x l]; [by rewrite app_nil_r|].
    cbn [write_batch wal_writer count_written with_file wal_file].
    by rewrite F, stamp_app, batch_bytes_app. }
  assert (buffer (flush_write crc32 b f (zlen (wal_file (wal_writer b))) Written) = buffer b
    /\ pending_commits (flush_write crc32 b f (zlen (wal_file (wal_writer b))) Written)
       = pending_commits b
    /\ notified (flush_write crc32 b f (zlen (wal_file (wal_writer b))) Written) = notified b)
    as (E1 & E2 & E3) by (unfold flush_write; by destruct (taken f)).
  split; cbn [gbuf flights history]; rewrite ?E1, ?E2, ?E3; try done.
  - rewrite S, <- app_assoc. done.
  - intros f' base H. by apply list_elem_of_singleton in H.
  - intros f' ph tx [= -> ->]%list_elem_of_singleton Htx.
    apply commits_app_l, (T f (Stamped (zlen (wal_file (wal_writer b))))); [|done].
    by apply list_elem_of_singleton.
  - intros tx H. by apply commits_app_l, N.
Qed.

Lemma inv_notify crc32 log b f h :
  g_inv crc32 log (mk_g b [(f, Stored)] h) ->
  g_inv crc32 log (mk_g (flush_notify b f) [] h).
Proof.
  intros [F W S P B T N O]. split; cbn [gbuf flights history flush_notify wal_writer buffer
    pending_commits notified] in *; try done.
  - intros f' base H. by apply not_elem_of_nil in H.
  - intros f' ph tx H. by apply not_elem_of_nil in H.
  - intros tx [H|H]%elem_of_union; [|by apply N].
    apply elem_of_filter in H as [_ H]. apply elem_of_list_to_set in H.
    specialize (T f Stored tx ltac:(by apply list_elem_of_singleton) H).
    unfold unwritten in T. cbn in T. by rewrite app_nil_r in T.
  - cbn. lia.
Qed.

Lemma serial_inv crc32 log st st' :
  g_inv crc32 log st -> serial crc32 st st' -> exists log', g_inv crc32 log' st'.
Proof.
  intros I [H L]. pose proof (gi_one _ _ _ I) as O. remember true as ok eqn:Eok.
  destruct H as [b fl h r Hr|b fl h tx ts Hh|b fl h|b fl f fl' h ok|b fl f base fl' h out|b fl f fl' h];
    cbn [flights] in *.
  - exists log. by apply inv_append.
  - exists log. by eapply inv_register.
  - rewrite length_app in L. cbn in L. destruct fl; [|cbn in L; lia].
    exists log. by apply inv_take.
  - subst ok. destruct (single fl fl' _ (f, Stamped (flush_base b true)) O) as (_ & -> & ->).
    exists log. by apply inv_base.
  - destruct out; [|done]. destruct (single fl fl' _ (f, Stored) O) as (_ & -> & ->).
    exists (log ++ recs f). by apply inv_write.
  - destruct (single fl fl' _ (f, Stored) O) as (_ & -> & ->).
    exists log. by apply inv_notify.
Qed.

(** C21: group commit keeps its promise when flushes do not overlap and the disk
    accepts the writes: whenever a committing transaction has been woken, the
    log file reads back without error and contains its commit record.  Appends
    and registrations of other transactions may fall between any two steps of
    a flush. *)
Theorem group_commit_durable crc32 capacity st tx :
  (forall bs, in_u32 (crc32 bs)) -> rtc (serial crc32) (g_init capacity) st ->
  tx ∈ notified (gbuf st) -> zlen (wal_file (wal_writer (gbuf st))) <= u64_max ->
  exists records lsn ts,
    read_all_with_lsn crc32 (wal_file (wal_writer (gbuf st))) = Some (Ok records)
    /\ (lsn, WCommitTxn tx ts) ∈ records.
Proof.
  intros HC HR HN HL.
  assert (exists log, g_inv crc32 log st) as [log I].
  { pose proof (g_inv_init crc32 capacity) as I0. revert I0. generalize (@nil WalRecord).
    induction HR as [st|st st1 st2 HS _ IH]; intros log I; [by eexists|].
    destruct (serial_inv _ _ _ _ I HS) as [log' I']. by eapply IH. }
  destruct (gi_notified _ _ _ I tx HN) as [ts Hts].
  rewrite (gi_file _ _ _ I) in *.
  exists (stamp crc32 0 log). rewrite read_all_stamped; [|done| |done].
  2:{ pose proof (gi_wf _ _ _ I) as W. rewrite (gi_split _ _ _ I) in W.
      by apply Forall_app in W as [? _]. }
  clear -Hts. generalize 0. induction log as [|r log IH]; intros base; [by apply not_elem_of_nil in Hts|].
  cbn [stamp]. apply elem_of_cons in Hts as [<-|Hts].
  - exists base, ts. split; [done|left].
  - destruct (IH Hts (base + zlen (serialize_with_lsn crc32 r base))) as (lsn & ts' & _ & H).
    exists lsn, ts'. split; [done|by right].
Qed.

(** *** Runs *)

Definition run1 : GState := mk_g (append (gbuf (g_init 8)) (WCommitTxn 1 9)).2 [] [WCommitTxn 1 9].
Definition run2 : GState := mk_g (register_commit (gbuf run1) 1) [] [WCommitTxn 1 9].
Definition run_flush : Flush := (flush_take (gbuf run2)).1.
Definition run3 : GState := mk_g (flush_take (gbuf run2)).2 [(run_flush, Taken)] [WCommitTxn 1 9].
Definition run4 : GState :=
  mk_g (gbuf run3) [(run_flush, Stamped (flush_base (gbuf run3) true))] [WCommitTxn 1 9].
Definition run5 (crc32 : list byte -> Z) (out : WriteOutcome) : GState :=
  mk_g (flush_write crc32 (gbuf run4) run_flush 0 out) [(run_flush, Stored)] [WCommitTxn 1 9].
Definition run6 (crc32 : list byte -> Z) (out : WriteOutcome) : GState :=
  mk_g (flush_notify (gbuf (run5 crc32 out)) run_flush) [] [WCommitTxn 1 9].

Lemma run_commit_wf : record_wf (WCommitTxn 1 9).
Proof. repeat split; vm_compute; discriminate. Qed.

(** The first four steps, common to the runs below. *)
Lemma run_to_4 crc32 : rtc (serial crc32) (g_init 8) run4.
Proof.
  eapply (rtc_l _ _ run1); [split; [apply (g_append crc32 _ [] []), run_commit_wf|cbn; lia]|].
  eapply (rtc_l _ _ run2); [split; [eapply (g_register crc32); left|cbn; lia]|].
  eapply (rtc_l _ _ run3); [split; [apply (g_take crc32 _ [])|cbn; lia]|].
  eapply (rtc_l _ _ run4); [split; [apply (g_base crc32 _ [] _ [] _ true)|cbn; lia]|].
  apply rtc_refl.
Qed.

Lemma group_commit_durable_witness :
  exists records lsn ts,
    read_all_with_lsn sum32 (wal_file (wal_writer (gbuf (run6 sum32 Written)))) = Some (Ok records)
    /\ (lsn, WCommitTxn 1 ts) ∈ records.
Proof.
  apply (group_commit_durable sum32 8 (run6 sum32 Written) 1).
  - apply sum32_range.
  - transitivity run4; [apply run_to_4|].
    eapply (rtc_l _ _ (run5 sum32 Written));
      [split; [apply (g_write sum32 _ [] _ 0 [] _ Written)|cbn; lia]|].
    eapply (rtc_l _ _ (run6 sum32 Written)); [split; [apply (g_notify sum32 _ [] _ [])|cbn; lia]|].
    apply rtc_refl.
  - vm_compute. reflexivity.
  - vm_compute. discriminate.
Defined.

(** A commit is acknowledged although nothing of it reached the disk, when
    the batch write fails: the flush ignores the error and wakes the waiters
    ([append_commit_and_wait] has no failing path). *)
Theorem failed_write_acknowledged crc32 :
  exists st, rtc (fun a b => exists ok, gstep crc32 ok a b /\ (length (flights b) <= 1)%nat) (g_init 8) st
    /\ 1 ∈ notified (gbuf st) /\ wal_file (wal_writer (gbuf st)) = [].
Proof.
  exists (run6 crc32 (FailedAfter 0)). split; [|split; [vm_compute; done|done]].
  transitivity run4.
  { eapply (rtc_subrel (serial crc32)); [|apply run_to_4]. intros a b [H L]. by exists true. }
  eapply (rtc_l _ _ (run5 crc32 (FailedAfter 0))).
  { exists false. split; [apply (g_write crc32 _ [] _ 0 [] _ (FailedAfter 0))|cbn; lia]. }
  eapply (rtc_l _ _ (run6 crc32 (FailedAfter 0))); [|apply rtc_refl].
  exists true. split; [apply (g_notify crc32 _ [] _ [])|cbn; lia].
Qed.

(** A second flush starts between the take and the write of the first. *)
Definition race1 : GState :=
  mk_g (flush_take (gbuf run1)).2 [((flush_take (gbuf run1)).1, Taken)] [WCommitTxn 1 9].
Definition race2 : GState := mk_g (register_commit (gbuf race1) 1) (flights race1) (history race1).
Definition race_flush : Flush := (flush_take (gbuf race2)).1.
Definition race3 (ph : FlushPhase) : GState :=
  mk_g (flush_take (gbuf race2)).2 (flights race1 ++ [(race_flush, ph)]) (history race1).
Definition race4 : GState :=
  mk_g (flush_notify (gbuf (race3 Stored)) race_flush) (flights race1) (history race1).

(** Two overlapping flushes acknowledge a commit too early, with every
    system call succeeding: the first took the commit record and has not
    written it, the transaction registers, the second finds the buffer empty
    and wakes the transaction. *)
Theorem overlapping_flushes_acknowledge_early crc32 :
  exists st, rtc (gstep crc32 true) (g_init 8) st
    /\ 1 ∈ notified (gbuf st) /\ wal_file (wal_writer (gbuf st)) = [].
Proof.
  exists race4. split; [|split; [vm_compute; done|done]].
  eapply (rtc_l _ _ run1); [apply (g_append crc32 _ [] []), run_commit_wf|].
  eapply (rtc_l _ _ race1); [apply (g_take crc32 _ [])|].
  eapply (rtc_l _ _ race2); [eapply (g_register crc32); left|].
  eapply (rtc_l _ _ (race3 Taken)); [apply (g_take crc32)|].
  eapply (rtc_l _ _ (race3 (Stamped 0))); [exact (g_base crc32 _ (flights race1) race_flush [] _ true)|].
  eapply (rtc_l _ _ (race3 Stored)); [exact (g_write crc32 _ (flights race1) race_flush 0 [] _ Written)|].
  eapply (rtc_l _ _ race4); [apply (g_notify crc32 _ (flights race1) _ [])|]. apply rtc_refl.
Qed.

(** *** A torn frame *)

(** Twenty-one bytes of a frame torn at the end of the file, at offset 4100
    (the offset is what makes its first bytes a legacy commit header). *)
Definition torn : list byte := take 21 (frame_content demo_insert 4100).

(** A torn frame at the end of the log can be read as a legacy record.  At
    offset 4100 the first byte of a frame is the low byte of its position, 0x04,
    and its next four bytes give the legacy length 16: the reader rejects the
    torn frame, falls back to the legacy format and returns a commit record of a
    transaction that never existed, instead of reporting the damage. *)
Theorem torn_frame_read_as_commit crc32 pre :
  zlen pre = 4100 ->
  exists tx ts, read_next_with_lsn crc32 (pre ++ torn) 4100
    = Ok (Some (4100, WCommit tx ts, 4121)).
Proof.
  intros HP. assert (zlen torn = 21) as HT by reflexivity.
  unfold read_next_with_lsn. rewrite zlen_app, HP, HT. change (Z.min (4100 + 13) (4100 + 21)) with 4113.
  assert (slice (pre ++ torn) 4100 4113 = slice torn 0 13) as ->
    by (rewrite slice_app_r by lia; rewrite HP; done).
  assert (read_new_format_frame crc32 (pre ++ torn) 4100 (slice torn 0 13) = Err IoError) as EN.
  { unfold read_new_format_frame, read_upto. rewrite zlen_app, HP, HT.
    change (zlen (slice torn 0 13)) with 13. change (le_val (slice (slice torn 0 13) 9 13)) with 23.
    reflexivity. }
  assert (read_legacy_frame (pre ++ torn) 4100 (slice torn 0 13)
          = let? (record, _) := deserialize torn in Ok (4100, record, 4121)) as EL.
  { unfold read_legacy_frame, read_upto. rewrite zlen_app, HP, HT.
    change (zlen (slice torn 0 13)) with 13. change (le_val (slice (slice torn 0 13) 1 5)) with 16.
    change (13 <? 5 + 16) with true. change (4100 + 21 <? 4100 + (5 + 16)) with false. cbv iota.
    rewrite exec_bind_ret. rewrite slice_app_r by lia.
    rewrite HP, slice_whole by (rewrite ?HT; lia). done. }
  change (zlen (slice torn 0 13)) with 13. change (13 =? 0) with false. change (13 <? 5) with false.
  cbv iota. change (index_get (slice torn 0 13) 0) with (Ok (E:=WalError) Byte.x04).
  rewrite exec_bind_ret. change (negb (is_ok (record_type_try_from Byte.x04))) with false.
  cbv iota. change (13 <=? 13) with true. cbv iota. rewrite EN, EL.
  destruct (deserialize torn) as [[r n]| |] eqn:ED; vm_compute in ED; try discriminate ED.
  injection ED as <- _. rewrite !exec_bind_ret. eauto.
Qed.

Lemma torn_frame_read_as_commit_witness :
  exists tx ts, read_next_with_lsn sum32 (replicate 4100 Byte.x00 ++ torn) 4100
    = Ok (Some (4100, WCommit tx ts, 4121)).
Proof. apply torn_frame_read_as_commit. vm_compute. reflexivity. Defined.

(** ** Every commit is answered *)

(** The first and the last step of a flush. *)
Definition begins (st st' : GState) : Prop :=
  st' = mk_g (flush_take (gbuf st)).2 (flights st ++ [((flush_take (gbuf st)).1, Taken)]) (history st).
Definition notifies (f : Flush) (st st' : GState) : Prop :=
  exists fl fl', flights st = fl ++ (f, Stored) :: fl' /\ st' = mk_g (flush_notify (gbuf st) f) (fl ++ fl') (history st).

(** A run of all tasks, with failing system calls and flushes that overlap, in
    which the timer keeps starting flushes and a flush that has begun ends. *)
Record fair_run (crc32 : list byte -> Z) (capacity : Z) (s : nat -> GState) : Prop := {
  fair_init : s 0%nat = g_init capacity;
  fair_step i : exists ok, gstep crc32 ok (s i) (s (S i));
  fair_timer i : exists j, (i <= j)%nat /\ begins (s j) (s (S j));
  fair_flush i f ph : (f, ph) ∈ flights (s i) -> exists j, (i <= j)%nat /\ notifies f (s j) (s (S j)) }.

(** A waiting transaction is known to a flush, or to the next one. *)
Definition expected (st : GState) : Prop :=
  forall tx, tx ∈ commit_waiters (gbuf st) ->
    tx ∈ pending_commits (gbuf st) \/ exists f ph, (f, ph) ∈ flights st /\ tx ∈ committed f.

Lemma flush_write_same crc32 b f base out :
  pending_commits (flush_write crc32 b f base out) = pending_commits b
  /\ commit_waiters (flush_write crc32 b f base out) = commit_waiters b
  /\ notified (flush_write crc32 b f base out) = notified b.
Proof. unfold flush_write. destruct (taken f); [done|]. by destruct (write_batch _ _ _ _). Qed.

Lemma flight_phase {A} (fl fl' : list (A * FlushPhase)) f ph ph' g p :
  (g, p) ∈ fl ++ (f, ph) :: fl' -> exists p', (g, p') ∈ fl ++ (f, ph') :: fl'.
Proof. rewrite elem_of_app, elem_of_cons. intros [?|[[= -> ->]|?]]; eexists; rewrite elem_of_app, elem_of_cons; eauto. Qed.

Lemma expected_step crc32 ok st st' : expected st -> gstep crc32 ok st st' -> expected st'.
Proof.
  intros I Hs tx W. destruct Hs as [b fl h r _|b fl h tx' ts _|b fl h|b fl f fl' h ok|b fl f base fl' h out|b fl f fl' h];
    cbn [gbuf flights] in *.
  - by apply I.
  - cbn in *. apply elem_of_union in W as [->%elem_of_singleton|W]; [left; apply elem_of_app; right; by left|].
    destruct (I tx W) as [P|F]; [left; apply elem_of_app; by left|by right].
  - right. destruct (I tx W) as [P|(f & ph & F & C)].
    + exists (flush_take b).1, Taken. split; [apply elem_of_app; right; by left|done].
    + exists f, ph. split; [apply elem_of_app; by left|done].
  - destruct (I tx W) as [P|(g & ph & F & C)]; [by left|]. right.
    destruct (flight_phase _ _ _ _ (Stamped (flush_base b ok)) _ _ F) as [p' F']. by exists g, p'.
  - destruct (flush_write_same crc32 b f base out) as (Ep & Ew & _). rewrite Ew in W. rewrite Ep.
    destruct (I tx W) as [P|(g & ph & F & C)]; [by left|]. right.
    destruct (flight_phase _ _ _ _ Stored _ _ F) as [p' F']. by exists g, p'.
  - cbn in W. apply elem_of_difference in W as [W N].
    destruct (I tx W) as [P|(g & ph & F & C)]; [by left|]. right. exists g, ph. split; [|done].
    cbn [flights] in F. rewrite elem_of_app, elem_of_cons in F. rewrite elem_of_app. destruct F as [F|[[= -> ->]|F]]; [by left| |by right].
    destruct N. apply elem_of_filter. split; [done|]. by apply elem_of_list_to_set.
Qed.

(** Only a notification takes a waiting transaction off the list. *)
Lemma waiter_woken crc32 ok st st' tx :
  gstep crc32 ok st st' -> tx ∈ commit_waiters (gbuf st) -> tx ∉ commit_waiters (gbuf st') -> tx ∈ notified (gbuf st').
Proof.
  intros Hs W N. destruct Hs as [| | | |b fl f base fl' h out|b fl f fl' h]; cbn [gbuf] in *; try done.
  - destruct N. cbn. apply elem_of_union. by right.
  - destruct (flush_write_same crc32 b f base out) as (_ & Ew & _). by rewrite Ew in N.
  - cbn in *. apply elem_of_union. left. apply dec_stable. intros M. apply N. by apply elem_of_difference.
Qed.

Lemma fair_expected crc32 capacity s i : fair_run crc32 capacity s -> expected (s i).
Proof.
  intros R. induction i as [|i IH].
  - rewrite (fair_init _ _ _ R). intros tx W. cbn in W. set_solver.
  - destruct (fair_step _ _ _ R i) as [ok Hs]. by eapply expected_step.
Qed.

(** The step at which the transaction is woken. *)
Definition woken_at (s : nat -> GState) (tx : Z) (j : nat) : Prop :=
  tx ∈ commit_waiters (gbuf (s j)) /\ (tx ∉ commit_waiters (gbuf (s (S j)))) /\ tx ∈ notified (gbuf (s (S j))).

Lemma waits_or_woken crc32 capacity s tx i j :
  fair_run crc32 capacity s -> (i <= j)%nat -> tx ∈ commit_waiters (gbuf (s i)) ->
  tx ∈ commit_waiters (gbuf (s j)) \/ exists k, (i <= k)%nat /\ woken_at s tx k.
Proof.
  intros R L W. induction L as [|j L IH]; [by left|]. destruct IH as [Wj|?]; [|by right].
  destruct (decide (tx ∈ commit_waiters (gbuf (s (S j))))) as [|N]; [by left|]. right. exists j.
  destruct (fair_step _ _ _ R j) as [ok Hs]. split; [done|]. split_and!; [done..|by eapply waiter_woken].
Qed.

(** C22: A committing transaction does not wait for ever.  In every run in which
    flushes keep being started and each one ends, with any interleaving, flushes
    that overlap and system calls that fail, a transaction that waits for its
    commit is woken at some later step. *)
Theorem waiting_commit_woken crc32 capacity s i tx
    (Fair : fair_run crc32 capacity s) (Waits : tx ∈ commit_waiters (gbuf (s i))) :
  exists j, (i <= j)%nat /\ woken_at s tx j.
Proof.
  destruct (fair_timer _ _ _ Fair i) as (t & Lt & B).
  destruct (waits_or_woken _ _ _ _ i (S t) Fair ltac:(lia) Waits) as [W|?]; [|done].
  destruct (fair_expected _ _ _ (S t) Fair tx W) as [P|(f & ph & F & C)].
  { rewrite B in P. cbn in P. by apply not_elem_of_nil in P. }
  destruct (fair_flush _ _ _ Fair (S t) f ph F) as (j & Lj & fl & fl' & _ & Ej).
  destruct (waits_or_woken _ _ _ _ (S t) j Fair Lj W) as [Wj|(k & Lk & K)]; [|exists k; split; [lia|done]].
  exists j. split; [lia|]. unfold woken_at. rewrite Ej. cbn.
  assert (M : tx ∈ filter (fun t => t ∈ commit_waiters (gbuf (s j))) (list_to_set (C:=gset Z) (committed f))).
  { apply elem_of_filter. split; [done|]. by apply elem_of_list_to_set. }
  split_and!; [done| |by apply elem_of_union; left]. by intros [_ N]%elem_of_difference.
Qed.

(** One commit, whose batch fails to reach the disk, and then empty flushes for
    ever. *)
Definition idle_flush : Flush := mk_flush [] [].
Definition idle (crc32 : list byte -> Z) (fl : list (Flush * FlushPhase)) : GState :=
  mk_g (gbuf (run6 crc32 (FailedAfter 0))) fl [WCommitTxn 1 9].

Fixpoint idle_run (crc32 : list byte -> Z) (n : nat) : GState :=
  match n with
  | 0%nat => idle crc32 []
  | 1%nat => idle crc32 [(idle_flush, Taken)]
  | 2%nat => idle crc32 [(idle_flush, Stamped 0)]
  | 3%nat => idle crc32 [(idle_flush, Stored)]
  | S (S (S (S n))) => idle_run crc32 n
  end.

Definition sample_run (crc32 : list byte -> Z) (n : nat) : GState :=
  match n with
  | 0%nat => g_init 8
  | 1%nat => run1
  | 2%nat => run2
  | 3%nat => run3
  | 4%nat => run4
  | 5%nat => run5 crc32 (FailedAfter 0)
  | S (S (S (S (S (S n))))) => idle_run crc32 n
  end.

Lemma four_steps (P : nat -> Prop) : P 0%nat -> P 1%nat -> P 2%nat -> P 3%nat -> (forall n, P n -> P (4 + n)%nat) -> forall n, P n.
Proof.
  intros H0 H1 H2 H3 HS n. enough (P n /\ P (S n) /\ P (S (S n)) /\ P (S (S (S n)))) by tauto.
  induction n as [|n (A & B & C & D)]; [done|]. split_and!; try done. by apply (HS n).
Qed.

Lemma idle_step crc32 n : exists ok, gstep crc32 ok (idle_run crc32 n) (idle_run crc32 (S n)).
Proof.
  induction n as [| | | |n IH] using four_steps.
  - exists true. exact (g_take crc32 (gbuf (idle crc32 [])) [] _).
  - exists false. exact (g_base crc32 _ [] idle_flush [] _ false).
  - exists true. exact (g_write crc32 _ [] idle_flush 0 [] _ Written).
  - exists true. exact (g_notify crc32 _ [] idle_flush [] _).
  - exact IH.
Qed.

Lemma idle_cycle crc32 i k : idle_run crc32 (4 * i + k) = idle_run crc32 k.
Proof. induction i as [|i IH]; [done|]. replace (4 * S i + k)%nat with (4 + (4 * i + k))%nat by lia. exact IH. Qed.

Lemma idle_flights crc32 n f ph : (f, ph) ∈ flights (idle_run crc32 n) -> f = idle_flush.
Proof.
  induction n as [| | | |n IH] using four_steps; [cbn; intros F; by apply not_elem_of_nil in F| | | |exact IH];
    cbn; intros F; apply list_elem_of_singleton in F; by simplify_eq.
Qed.

Lemma sample_run_idle crc32 n : sample_run crc32 (6 + n) = idle_run crc32 n.
Proof. done. Qed.

Lemma sample_run_fair crc32 : fair_run crc32 8 (sample_run crc32).
Proof.
  split.
  - done.
  - intros [|[|[|[|[|[|n]]]]]]; [..|exact (idle_step crc32 n)].
    + exists true. exact (g_append crc32 _ [] [] _ run_commit_wf).
    + exists true. eapply (g_register crc32 _ [] _ 1 9). by left.
    + exists true. exact (g_take crc32 _ [] _).
    + exists true. exact (g_base crc32 _ [] _ [] _ true).
    + exists false. exact (g_write crc32 _ [] run_flush 0 [] _ (FailedAfter 0)).
    + exists true. exact (g_notify crc32 _ [] run_flush [] _).
  - intros i. exists (6 + (4 * i + 0))%nat. split; [lia|].
    replace (S (6 + (4 * i + 0))) with (6 + (4 * i + 1))%nat by lia. by rewrite !sample_run_idle, !idle_cycle.
  - intros i f ph F.
    assert (Late : f = idle_flush -> exists j, (i <= j)%nat /\ notifies f (sample_run crc32 j) (sample_run crc32 (S j))).
    { intros ->. exists (6 + (4 * i + 3))%nat. split; [lia|].
      replace (S (6 + (4 * i + 3))) with (6 + (4 * S i + 0))%nat by lia. rewrite !sample_run_idle, !idle_cycle.
      by exists [], []. }
    assert (Early : (i <= 5)%nat -> f = run_flush ->
      exists j, (i <= j)%nat /\ notifies f (sample_run crc32 j) (sample_run crc32 (S j))).
    { intros L ->. exists 5%nat. split; [done|]. by exists [], []. }
    destruct i as [|[|[|[|[|[|n]]]]]]; [..|apply Late; by eapply (idle_flights crc32 n)]; cbn in F;
      try (by apply not_elem_of_nil in F); apply list_elem_of_singleton in F; injection F as -> ->; by apply Early; lia || done.
Qed.

Lemma waiting_commit_woken_witness : exists j, (2 <= j)%nat /\ woken_at (sample_run sum32) 1 j.
Proof. apply (waiting_commit_woken sum32 8 (sample_run sum32) 2 1); [apply sample_run_fair|by vm_compute]. Defined.
