(* ===== verification/Recovery.v ===== *)
(** * Checkpoints and crash recovery

    [src/wal/checkpoint.rs]: the checkpoint site file and the states of the
    disk a checkpoint goes through.  [src/wal/recovery.rs]: classifying the
    transactions of the log, choosing the records to replay, replaying them at
    their logged positions and neutralising the versions of uncommitted
    transactions.

    The publication of column narrowings, the writing back of the tails to the
    catalog and the rebuilding of the indexes after the replay are not
    modelled.  The replay branches of [redo_record]
    that consult an index are left out: [full_recover] builds the version maps
    whenever it replays a record, so they are never taken. *)

From Stdlib Require Import ZArith Strings.Byte Lia.
From stdpp Require Import base tactics list numbers gmap.
From S2P Require Import Prelude RowKey PageLayout Values IndexKey Tuple Version Overflow DataPage.
From S2P Require Import DataScan WalRecord WalLog.
Import Key RowId.

(** ** The checkpoint site *)

Record CheckpointSite := mk_site { site_lsn : Z; site_timestamp : Z; tx_watermark : option Z }.

Definition write_checkpoint_site (lsn timestamp watermark : Z) : list byte :=
  le_bytes 8 lsn ++ le_bytes 8 timestamp ++ le_bytes 8 watermark.

(** [None] is a missing file. *)
Definition read_site_file (file : option (list byte)) : option CheckpointSite :=
  match file with
  | None => None
  | Some bytes =>
      let buf := slice bytes 0 (Z.min 24 (zlen bytes)) in
      if zlen buf <? 16 then None
      else Some (mk_site (le_val (slice buf 0 8)) (le_val (slice buf 8 16))
                   (if 24 <=? zlen buf then Some (le_val (slice buf 16 24)) else None))
  end.

(** The site file and the log. *)
Record Disk := mk_disk { disk_site : option (list byte); disk_writer : WalWriter }.

Definition disk_wal (d : Disk) : list byte := wal_file (disk_writer d).

(** The steps of [checkpoint] that change the files, from the writing of the
    site on. *)
Definition ckpt_site_written (d : Disk) (lsn timestamp watermark : Z) : Disk :=
  mk_disk (Some (write_checkpoint_site lsn timestamp watermark)) (disk_writer d).

Definition ckpt_record_appended (d : Disk) (lsn timestamp : Z) : Disk :=
  mk_disk (disk_site d) (write_record (disk_writer d) (WCheckpoint lsn timestamp) Written).2.

Definition ckpt_truncated (d : Disk) (lsn : Z) : Disk :=
  mk_disk (disk_site d) (rewrite_truncate (disk_writer d) lsn).2.

Definition ckpt_site_reset (d : Disk) (timestamp watermark : Z) : Disk :=
  mk_disk (Some (write_checkpoint_site 0 timestamp watermark)) (disk_writer d).

Definition ckpt_counters_reset (d : Disk) : Disk :=
  mk_disk (disk_site d) (reset_bytes_appended (reset_write_count (disk_writer d))).

(** The step at which a checkpoint fails, and how many bytes reached the file
    before it did: [None] when the site file could not be opened. *)
Inductive CkptFault :=
  | NoFault
  | FlushFails
  | FsyncFails
  | SiteFails (written : option nat)
  | RecordFails (written : nat)
  | TruncateFails
  | ResetFails (written : option nat).

Definition site_torn (d : Disk) (lsn timestamp watermark : Z) (written : option nat) : Disk :=
  match written with
  | None => d
  | Some n => mk_disk (Some (take n (write_checkpoint_site lsn timestamp watermark))) (disk_writer d)
  end.

Definition zero_work (pending_wal_at_open has_dirty_pages : bool) (w : WalWriter) : bool :=
  negb pending_wal_at_open && (write_count w =? 0) && negb has_dirty_pages.

(** [meanwhile] is what other tasks append between the capture of the log
    position and the writing of the site, the flush of the dirty pages lying
    in between. *)
Definition checkpoint (crc32 : list byte -> Z) (pending_wal_at_open has_dirty_pages : bool)
    (d : Disk) (meanwhile : list (Z * WalRecord)) (watermark timestamp timestamp2 : Z)
    (fault : CkptFault) : exec WalError Z * Disk :=
  if zero_work pending_wal_at_open has_dirty_pages (disk_writer d) then (Ok 0, d)
  else
    let lsn := get_current_lsn (disk_writer d) in
    let d0 := mk_disk (disk_site d) (write_batch crc32 (disk_writer d) meanwhile Written).2 in
    let d1 := ckpt_site_written d0 lsn timestamp watermark in
    let d2 := ckpt_record_appended d1 lsn timestamp in
    let d3 := ckpt_truncated d2 lsn in
    let d4 := ckpt_site_reset d3 timestamp2 watermark in
    match fault with
    | FlushFails | FsyncFails => (Err IoError, d0)
    | SiteFails n => (Err IoError, site_torn d0 lsn timestamp watermark n)
    | RecordFails n =>
        (Err IoError, mk_disk (disk_site d1)
           (write_record (disk_writer d1) (WCheckpoint lsn timestamp) (FailedAfter n)).2)
    | TruncateFails => (Err IoError, d2)
    | ResetFails n => (Err IoError, site_torn d3 0 timestamp2 watermark n)
    | NoFault => (Ok lsn, ckpt_counters_reset d4)
    end.

(** [maybe_auto_checkpoint]: whether the boundary of a commit takes a
    checkpoint. *)
Definition auto_checkpoint_due (w : WalWriter) (active_transactions : gset Z) : bool :=
  negb (checkpoint_bytes_threshold w =? 0)
  && (checkpoint_bytes_threshold w <=? bytes_appended w)
  && bool_decide (active_transactions = ∅).

(** ** Classification *)

Record Classes := mk_classes {
  all_tx_ids : gset Z;
  committed_tx_ids : gset Z;
  aborted_tx_ids : gset Z;
  data_records : list (Z * WalRecord) }.

Definition classify_record (c : Classes) (e : Z * WalRecord) : Classes :=
  match e.2 with
  | WBeginTxn tx =>
      mk_classes ({[tx]} ∪ all_tx_ids c) (committed_tx_ids c) (aborted_tx_ids c) (data_records c)
  | WCommit tx _ | WCommitTxn tx _ =>
      mk_classes (all_tx_ids c) ({[tx]} ∪ committed_tx_ids c) (aborted_tx_ids c) (data_records c)
  | WAbort tx | WAbortTxn tx =>
      mk_classes (all_tx_ids c) (committed_tx_ids c) ({[tx]} ∪ aborted_tx_ids c) (data_records c)
  | WInsert _ _ _ _ | WUpdate _ _ _ _ _ | WDelete _ _ _ =>
      mk_classes (all_tx_ids c) (committed_tx_ids c) (aborted_tx_ids c) (data_records c ++ [e])
  | WColumnNarrowing _ _ _ _ | WCheckpoint _ _ => c
  end.

Definition classify (records : list (Z * WalRecord)) : Classes :=
  foldl classify_record (mk_classes ∅ ∅ ∅ []) records.

Definition uncommitted_tx_ids (c : Classes) : gset Z :=
  (all_tx_ids c ∖ committed_tx_ids c) ∖ aborted_tx_ids c.

(** [recover]: the two sets only. *)
Definition recover (records : list WalRecord) : gset Z * gset Z :=
  foldl (fun '(committed, aborted) r =>
           match r with
           | WCommit tx _ | WCommitTxn tx _ => ({[tx]} ∪ committed, aborted)
           | WAbort tx | WAbortTxn tx => (committed, {[tx]} ∪ aborted)
           | _ => (committed, aborted)
           end) (∅, ∅) records.

Definition redo_from (site : option CheckpointSite) (wal_len : Z) : Z :=
  match site with
  | Some s => if site_lsn s <=? wal_len then site_lsn s else 0
  | None => 0
  end.

(** The records the redo loop replays. *)
Definition to_redo (c : Classes) (from : Z) : list WalRecord :=
  snd <$> filter (fun e : Z * WalRecord =>
                    record_tx_id e.2 ∈ committed_tx_ids c /\ from <= e.1) (data_records c).

Definition will_redo (c : Classes) (from : Z) : bool :=
  existsb (fun e => bool_decide (record_tx_id e.2 ∈ committed_tx_ids c) && (from <=? e.1))
    (data_records c).

(** ** Replay *)

Abbreviation TableName := (list byte).

Record RTable := mk_rtable {
  rt_schema : list ColumnType;
  rt_defaults : list (option Value);
  rt_pk_index : nat;
  rt_head : Z }.

Inductive RecoveryError := RedoFailed.

Abbreviation VersionMap := (gmap TableName (gmap (list byte) (list RowId))).

(** The buffer pool with the visibility summary, the tails of the tables, the
    replay's last page per table and the version maps. *)
Record Redo := mk_redo {
  rpool : Pool;
  rvis : VisMap;
  data_page_tail : gmap TableName Z;
  table_last_page : gmap TableName Z;
  keyed : VersionMap;
  keyless : VersionMap }.

Definition row_id_ltb (a b : RowId) : bool :=
  (page_id a <? page_id b) || ((page_id a =? page_id b) && (slot_id a <? slot_id b)).

(** [partition_point] of a sorted list: the prefix that satisfies the test. *)
Fixpoint partition_point (f : RowId -> bool) (l : list RowId) : nat :=
  match l with
  | [] => O
  | r :: l => if f r then S (partition_point f l) else O
  end.

Definition insert_row_id_sorted (candidates : list RowId) (rid : RowId) : list RowId :=
  let pos := partition_point (fun r => row_id_ltb r rid) candidates in
  take pos candidates ++ rid :: drop pos candidates.

Definition extract_pk_key (t : RTable) (tuple_data : list byte) : option (list byte) :=
  match deserialize_row tuple_data (rt_schema t) (rt_defaults t) with
  | Ok values => v ← values !! rt_pk_index t; key_as_bytes <$> to_key v
  | _ => None
  end.

Definition bucket (m : VersionMap) (table : TableName) (key : list byte) : list RowId :=
  default [] (default ∅ (m !! table) !! key).

Definition add_version (m : VersionMap) (table : TableName) (key : list byte) (rid : RowId)
    : VersionMap :=
  <[table := <[key := insert_row_id_sorted (bucket m table key) rid]> (default ∅ (m !! table))]> m.

Definition with_pool (r : Redo) (p : Pool) : Redo :=
  mk_redo p (rvis r) (data_page_tail r) (table_last_page r) (keyed r) (keyless r).

(** The version maps after a row was replayed. *)
Definition note_version (r : Redo) (t : RTable) (table : TableName) (tuple : list byte)
    (rid : RowId) : Redo :=
  match extract_pk_key t tuple with
  | Some key =>
      mk_redo (rpool r) (rvis r) (data_page_tail r) (table_last_page r)
        (add_version (keyed r) table key rid) (keyless r)
  | None =>
      mk_redo (rpool r) (rvis r) (data_page_tail r) (table_last_page r) (keyed r)
        (add_version (keyless r) table tuple rid)
  end.

(** The first closure of [redo_tuple_at_row_id]: initialise an untouched page,
    ask whether the logical id is taken. *)
Definition redo_probe (d : list byte) (slot : Z) : exec RecoveryError (list byte * bool) :=
  let? page_type := index_get d 0 in
  let? sp := if bool_decide (page_type = Byte.x00) then sp_init d Byte.x03 else sp_new d in
  let? slotted := sp_new (page sp) in
  if slot_count_exceeds_capacity (page_header slotted) then Err RedoFailed
  else
    let? found := sp_get_slot_by_logical_id slotted slot in
    Ok (page slotted, match found with Some _ => true | None => false end).

(** The second step: the slot bytes, writing the overflow chain when the row
    does not fit a page. *)
Definition redo_slot_data (p : Pool) (vh : VersionHeader.vheader) (tuple : list byte)
    : exec RecoveryError (list byte) * Pool :=
  if INLINE_SLOT_MAX <? VersionHeader.SIZE + zlen tuple then
    match write_overflow_chain p tuple with
    | (Ok first, p) =>
        (Ok (VersionHeader.to_bytes vh ++ encode_locator (wrap32 (zlen tuple)) first), p)
    | (Err _, p) => (Err RedoFailed, p)
    | (Panic, p) => (Panic, p)
    end
  else (Ok (VersionHeader.to_bytes vh ++ tuple), p).

(** The third step: placement at the logged id.  A failure ends the recovery,
    so the release of a chain just written is not followed. *)
Definition redo_place (p : Pool) (rid : RowId) (slot_data : list byte)
    : exec RecoveryError Pool :=
  match pool_pages p !! page_id rid with
  | None => Err RedoFailed
  | Some d =>
      let? slotted := sp_new d in
      match add_slot_with_logical_id slotted slot_data (slot_id rid) with
      | Ok (sp, _) => Ok (modify p (page_id rid) (page sp))
      | Err _ => Err RedoFailed
      | Panic => Panic
      end
  end.

(** Chain link, tail and summary after the placement. *)
Definition redo_link (r : Redo) (table : TableName) (pid : Z) (create : Z)
    : exec RecoveryError Redo :=
  let? p :=
    match table_last_page r !! table with
    | Some prev =>
        if prev =? pid then Ok (rpool r)
        else
          match pool_pages (rpool r) !! prev with
          | None => Err RedoFailed
          | Some d =>
              let? d := splice_set d 5 (le_bytes 4 (wrap32 pid)) in
              Ok (modify (rpool r) prev d)
          end
    | None => Ok (rpool r)
    end in
  Ok (mk_redo p (update_visibility_on_insert (clear_all_visible (rvis r) pid) pid create)
        (<[table := pid]> (data_page_tail r)) (<[table := pid]> (table_last_page r))
        (keyed r) (keyless r)).

Definition redo_tuple_at_row_id (r : Redo) (table : TableName) (rid : RowId)
    (vh : VersionHeader.vheader) (tuple : list byte) : exec RecoveryError Redo :=
  let pid := page_id rid in
  match pool_pages (rpool r) !! pid with
  | None => Err RedoFailed
  | Some d =>
      let? (d, already_present) := redo_probe d (slot_id rid) in
      let p := modify (rpool r) pid d in
      let? p :=
        if already_present then Ok p
        else
          match redo_slot_data p vh tuple with
          | (Ok slot_data, p) => redo_place p rid slot_data
          | (Err e, _) => Err e
          | (Panic, _) => Panic
          end in
      redo_link (with_pool r p) table pid (VersionHeader.create_tx_id vh)
  end.

(** [derive_old_row_id]: the newest version before the record, checked against
    the logged old tuple. *)
Definition derive_old_row_id (pages : Pages) (candidates : list RowId) (record_row_id : RowId)
    (old_tuple : list byte) : exec RecoveryError RowId :=
  let pos := partition_point (fun r => row_id_ltb r record_row_id) candidates in
  match pos with
  | O => Err RedoFailed
  | S k =>
      match candidates !! k with
      | None => Panic
      | Some old =>
          match pages !! page_id old with
          | None => Err RedoFailed
          | Some d =>
              let? slotted := ref_new d in
              if slot_count_exceeds_capacity (header slotted) then Err RedoFailed
              else
                let? found := get_slot_by_logical_id slotted (slot_id old) in
                match found with
                | None => Err RedoFailed
                | Some (slot, _) =>
                    match get_slot_data_checked slotted slot with
                    | None => Err RedoFailed
                    | Some slot_data =>
                        if zlen slot_data <? VersionHeader.SIZE then Err RedoFailed
                        else
                          let? tuple :=
                            exec_map_err (fun _ => RedoFailed)
                              (resolve pages (from_slot_tuple
                                 (slice slot_data VersionHeader.SIZE (zlen slot_data)))) in
                          if bool_decide (tuple = old_tuple) then Ok old else Err RedoFailed
                    end
                end
          end
      end
  end.

Definition get_table (tables : list (TableName * RTable)) (name : TableName) : option RTable :=
  snd <$> find (fun e => bool_decide (e.1 = name)) tables.

(** [redo_record] with the version maps in place. *)
Definition redo_record (tables : list (TableName * RTable)) (r : Redo) (record : WalRecord)
    : exec RecoveryError Redo :=
  match record with
  | WInsert tx table rid tuple =>
      match get_table tables table with
      | None => Err RedoFailed
      | Some t =>
          let vh := VersionHeader.vh_new tx (Some tx) in
          let? r := redo_tuple_at_row_id r table rid vh tuple in
          Ok (note_version r t table tuple rid)
      end
  | WUpdate tx table rid old_tuple new_tuple =>
      match get_table tables table with
      | None => Err RedoFailed
      | Some t =>
          let candidates :=
            match extract_pk_key t old_tuple with
            | Some key => bucket (keyed r) table key
            | None => bucket (keyless r) table old_tuple
            end in
          let? old := derive_old_row_id (pool_pages (rpool r)) candidates rid old_tuple in
          let? vh := exec_map_err never
                       (VersionHeader.with_next_version (VersionHeader.vh_new tx (Some tx)) old) in
          let? r := redo_tuple_at_row_id r table rid vh new_tuple in
          Ok (note_version r t table new_tuple rid)
      end
  | WDelete tx table rid =>
      match get_table tables table with
      | None => Err RedoFailed
      | Some t =>
          match read_tuple_from_data_page (pool_pages (rpool r)) rid with
          | Ok _ =>
              let? vh := exec_map_err never
                           (VersionHeader.with_next_version (VersionHeader.vh_new tx None) rid) in
              let tail := default (rt_head t) (data_page_tail r !! table) in
              match write_tuple_to_data_page (rpool r) tail (VersionHeader.mark_deleted vh) [] with
              | (Ok _, p, tail) =>
                  Ok (mk_redo p (rvis r) (<[table := tail]> (data_page_tail r))
                        (table_last_page r) (keyed r) (keyless r))
              | (Err _, _, _) => Err RedoFailed
              | (Panic, _, _) => Panic
              end
          | Err (SlotNotFound _) => Ok r
          | Err _ => Err RedoFailed
          | Panic => Panic
          end
      end
  | _ => Ok r
  end.

Fixpoint redo_all (tables : list (TableName * RTable)) (r : Redo) (records : list WalRecord)
    : exec RecoveryError Redo :=
  match records with
  | [] => Ok r
  | record :: records => let? r := redo_record tables r record in redo_all tables r records
  end.

(** ** The scan before the replay *)

(** The usable slots of a page; damaged ones are skipped (and reported on
    stderr). *)
Fixpoint prescan_from (p : SlottedPageRef) (pid : Z) (n : nat) (i : Z)
    : exec RecoveryError (list (TupleRef * RowId)) :=
  match n with
  | O => Ok []
  | S n =>
      let? slot := get_slot p i in
      match slot with
      | None => prescan_from p pid n (i + 1)
      | Some slot =>
          match get_slot_data_checked p slot with
          | None => prescan_from p pid n (i + 1)
          | Some slot_data =>
              if zlen slot_data <? VersionHeader.SIZE then prescan_from p pid n (i + 1)
              else
                match VersionHeader.from_bytes (slice slot_data 0 VersionHeader.SIZE) with
                | None => prescan_from p pid n (i + 1)
                | Some _ =>
                    let? rest := prescan_from p pid n (i + 1) in
                    Ok ((from_slot_tuple (slice slot_data VersionHeader.SIZE (zlen slot_data)),
                         mk_row_id (wrap32 pid) (logical_id slot)) :: rest)
                end
          end
      end
  end.

Definition prescan_page (d : list byte) (pid : Z)
    : exec RecoveryError (Z * list (TupleRef * RowId)) :=
  let? slotted := ref_new d in
  let next := next_page_id (header slotted) in
  if slot_count_exceeds_capacity (header slotted) then Ok (next, [])
  else
    let? entries := prescan_from slotted pid (Z.to_nat (slot_count (header slotted))) 0 in
    Ok (next, entries).

(** One table's two maps, filled in chain order. *)
Fixpoint prescan_entries (pages : Pages) (t : RTable) (entries : list (TupleRef * RowId))
    (keyed_map keyless_map : gmap (list byte) (list RowId))
    : exec RecoveryError (gmap (list byte) (list RowId) * gmap (list byte) (list RowId)) :=
  match entries with
  | [] => Ok (keyed_map, keyless_map)
  | (tuple_ref, rid) :: entries =>
      let? tuple := exec_map_err (fun _ => RedoFailed) (resolve pages tuple_ref) in
      match extract_pk_key t tuple with
      | Some key =>
          prescan_entries pages t entries
            (<[key := default [] (keyed_map !! key) ++ [rid]]> keyed_map) keyless_map
      | None =>
          prescan_entries pages t entries keyed_map
            (<[tuple := default [] (keyless_map !! tuple) ++ [rid]]> keyless_map)
      end
  end.

Definition sort_rids (l : list RowId) : list RowId :=
  foldr (fun r l => insert_row_id_sorted l r) [] l.

Fixpoint prescan_table (pages : Pages) (t : RTable) (fuel : nat) (pid : Z)
    (keyed_map keyless_map : gmap (list byte) (list RowId))
    : option (exec RecoveryError (gmap (list byte) (list RowId) * gmap (list byte) (list RowId))) :=
  match fuel with
  | O => None
  | S fuel =>
      match pages !! pid with
      | None => Some (Err RedoFailed)
      | Some d =>
          match (let? (next, entries) := prescan_page d pid in
                 let? (k, kl) := prescan_entries pages t entries keyed_map keyless_map in
                 Ok (next, k, kl)) with
          | Err e => Some (Err e)
          | Panic => Some Panic
          | Ok (next, k, kl) =>
              if next =? 0 then Some (Ok (sort_rids <$> k, sort_rids <$> kl))
              else prescan_table pages t fuel next k kl
          end
      end
  end.

Fixpoint build_pk_version_maps (pages : Pages) (fuel : nat)
    (tables : list (TableName * RTable)) (k kl : VersionMap)
    : option (exec RecoveryError (VersionMap * VersionMap)) :=
  match tables with
  | [] => Some (Ok (k, kl))
  | (name, t) :: tables =>
      match prescan_table pages t fuel (rt_head t) ∅ ∅ with
      | None => None
      | Some (Err e) => Some (Err e)
      | Some Panic => Some Panic
      | Some (Ok (tk, tkl)) =>
          build_pk_version_maps pages fuel tables (<[name := tk]> k) (<[name := tkl]> kl)
      end
  end.

(** ** Uncommitted versions *)

(** The header fixes of one page. *)
Fixpoint fixes_from (uncommitted : gset Z) (p : SlottedPageRef) (n : nat) (i : Z)
    : exec RecoveryError (list (Z * VersionHeader.vheader)) :=
  match n with
  | O => Ok []
  | S n =>
      let? slot := get_slot p i in
      match slot with
      | None => fixes_from uncommitted p n (i + 1)
      | Some slot =>
          match get_slot_data_checked p slot with
          | None => fixes_from uncommitted p n (i + 1)
          | Some slot_data =>
              if zlen slot_data <? VersionHeader.SIZE then fixes_from uncommitted p n (i + 1)
              else
                match VersionHeader.from_bytes (slice slot_data 0 VersionHeader.SIZE) with
                | None => fixes_from uncommitted p n (i + 1)
                | Some vh =>
                    let? rest := fixes_from uncommitted p n (i + 1) in
                    if bool_decide (VersionHeader.create_tx_id vh ∈ uncommitted)
                       && (bool_decide (VersionHeader.commit_tx_id vh = None)
                           || VersionHeader.is_deleted vh)
                    then Ok ((logical_id slot, VersionHeader.mark_aborted vh) :: rest)
                    else Ok rest
                end
          end
      end
  end.

Fixpoint apply_fixes (p : Pool) (pid : Z) (fixes : list (Z * VersionHeader.vheader))
    : exec RecoveryError Pool :=
  match fixes with
  | [] => Ok p
  | (lid, vh) :: fixes =>
      let? p := exec_map_err (fun _ => RedoFailed)
                  (update_version_header_in_data_page p (mk_row_id (wrap32 pid) lid) vh) in
      apply_fixes p pid fixes
  end.

Definition mark_page (uncommitted : gset Z) (p : Pool) (pid : Z) : exec RecoveryError (Z * Pool) :=
  match pool_pages p !! pid with
  | None => Err RedoFailed
  | Some d =>
      let? slotted := ref_new d in
      let next := next_page_id (header slotted) in
      if slot_count_exceeds_capacity (header slotted) then Ok (next, p)
      else
        let? fixes := fixes_from uncommitted slotted (Z.to_nat (slot_count (header slotted))) 0 in
        let? p := apply_fixes p pid fixes in
        Ok (next, p)
  end.

Fixpoint mark_chain (uncommitted : gset Z) (p : Pool) (fuel : nat) (pid : Z)
    : option (exec RecoveryError Pool) :=
  match fuel with
  | O => None
  | S fuel =>
      match mark_page uncommitted p pid with
      | Err e => Some (Err e)
      | Panic => Some Panic
      | Ok (next, p) => if next =? 0 then Some (Ok p) else mark_chain uncommitted p fuel next
      end
  end.

Fixpoint mark_tables (uncommitted : gset Z) (p : Pool) (fuel : nat)
    (tables : list (TableName * RTable)) : option (exec RecoveryError Pool) :=
  match tables with
  | [] => Some (Ok p)
  | (_, t) :: tables =>
      match mark_chain uncommitted p fuel (rt_head t) with
      | Some (Ok p) => mark_tables uncommitted p fuel tables
      | other => other
      end
  end.

Definition mark_uncommitted_aborted (uncommitted : gset Z) (p : Pool) (fuel : nat)
    (tables : list (TableName * RTable)) : option (exec RecoveryError Pool) :=
  if bool_decide (uncommitted = ∅) then Some (Ok p) else mark_tables uncommitted p fuel tables.

(** ** The whole recovery *)

Record RecoveryResult := mk_recovery {
  res_committed : gset Z;
  res_aborted : gset Z;
  res_uncommitted : gset Z;
  redo_count : Z;
  checkpoint_tx_watermark : option Z;
  wal_had_tx_records : bool }.

Inductive FullError := LogFailed (e : WalError) | ReplayFailed (e : RecoveryError).

Definition is_checkpoint (r : WalRecord) : bool :=
  match r with WCheckpoint _ _ => true | _ => false end.

(** [full_recover] as far as the log and the data pages go; [wal] is [None] when
    there is no log file, [r] the pool and the tails the tables were opened
    with. *)
Definition recover_data_pages (crc32 : list byte -> Z) (tables : list (TableName * RTable)) (fuel : nat)
    (site wal : option (list byte)) (r : Redo) : option (exec FullError (RecoveryResult * Redo)) :=
  match wal with
  | None => Some (Ok (mk_recovery ∅ ∅ ∅ 0 None false, r))
  | Some file =>
      let s := read_site_file site in
      let from := redo_from s (zlen file) in
      let watermark := s ≫= tx_watermark in
      match read_all_with_lsn crc32 file with
      | None => None
      | Some Panic => Some Panic
      | Some (Err e) => Some (Err (LogFailed e))
      | Some (Ok []) => Some (Ok (mk_recovery ∅ ∅ ∅ 0 watermark false, r))
      | Some (Ok records) =>
          let c := classify records in
          let result n :=
            mk_recovery (committed_tx_ids c) (aborted_tx_ids c) (uncommitted_tx_ids c) n watermark
              (existsb (fun e => negb (is_checkpoint e.2)) records) in
          match (if will_redo c from
                 then build_pk_version_maps (pool_pages (rpool r)) fuel tables ∅ ∅
                 else Some (Ok (∅, ∅))) with
          | None => None
          | Some Panic => Some Panic
          | Some (Err e) => Some (Err (ReplayFailed e))
          | Some (Ok (k, kl)) =>
              match redo_all tables (mk_redo (rpool r) (rvis r) (data_page_tail r) ∅ k kl)
                      (to_redo c from) with
              | Panic => Some Panic
              | Err e => Some (Err (ReplayFailed e))
              | Ok r =>
                  match mark_uncommitted_aborted (uncommitted_tx_ids c) (rpool r) fuel tables with
                  | None => None
                  | Some Panic => Some Panic
                  | Some (Err e) => Some (Err (ReplayFailed e))
                  | Some (Ok p) => Some (Ok (result (zlen (to_redo c from)), with_pool r p))
                  end
              end
          end
      end
  end.

(** What [Database::open] advances the allocator past. *)
Definition ids_seen (res : RecoveryResult) : Z :=
  let observed :=
    set_fold Z.max 0 (res_committed res ∪ res_aborted res ∪ res_uncommitted res) in
  Z.max observed (default 0 (checkpoint_tx_watermark res)).

(** ** Two records that are lost *)

Definition demo_table : list (TableName * RTable) :=
  [([Byte.x74], mk_rtable [CInt; CInt] [None; None] 0 1)].

Definition redo_start (pages : Pages) : Redo := mk_redo (mk_pool pages [] []) ∅ ∅ ∅ ∅ ∅.

Definition replayed (pages : Pages) (log : list (Z * WalRecord)) : exec RecoveryError Redo :=
  redo_all demo_table (redo_start pages) (to_redo (classify log) 0).

(** Transaction 2 deleted the row of transaction 1, page 1 was written out,
    transaction 3 inserted a row at slot 2; both committed. *)
Definition lost_insert_pages : Pages :=
  table_of [(VersionHeader.vh_new 1 (Some 1), [VInt 1; VInt 10]);
            (VersionHeader.mark_deleted (linked 2 None (mk_row_id 1 0)), [])].

Definition lost_insert_log : list (Z * WalRecord) :=
  [(0, WBeginTxn 2); (25, WDelete 2 [Byte.x74] (mk_row_id 1 0)); (60, WCommitTxn 2 0);
   (93, WBeginTxn 3);
   (118, WInsert 3 [Byte.x74] (mk_row_id 1 2) (enc_values [VInt 2; VInt 20]));
   (180, WCommitTxn 3 0)].

(** recovery loses a committed row.  The replay of a deletion writes a new
    tombstone at the end of the table even when the deletion's own tombstone
    reached the disk; it takes the next logical id, which is the id a later
    record was logged at, and the replay of that record finds the id taken and
    skips it. *)
Theorem delete_replay_loses_insert :
  match replayed lost_insert_pages lost_insert_log with
  | Ok r => rows_of (pool_pages (rpool r)) None [] ∅ = Some (Ok [])
  | _ => False
  end
  /\ to_redo (classify lost_insert_log) 0
       = [WDelete 2 [Byte.x74] (mk_row_id 1 0);
          WInsert 3 [Byte.x74] (mk_row_id 1 2) (enc_values [VInt 2; VInt 20])].
Proof. split; vm_compute; reflexivity. Qed.

(** Page 1 was written out with the row of transaction 5 before 5 committed. *)
Definition unmarked_pages : Pages :=
  table_of [(VersionHeader.vh_new 5 None, [VInt 1; VInt 10])].

Definition unmarked_log : list (Z * WalRecord) :=
  [(0, WBeginTxn 5);
   (25, WInsert 5 [Byte.x74] (mk_row_id 1 0) (enc_values [VInt 1; VInt 10]));
   (87, WCommitTxn 5 0)].

(** A committed row stays invisible to Read Committed after recovery when
    its page was written out before the commit was marked on it: the replay
    finds the slot taken, skips the record, and nothing sets the commit mark.
    Statements without a snapshot do see the row. *)
Theorem replay_keeps_uncommitted_mark :
  match replayed unmarked_pages unmarked_log with
  | Ok r =>
      rows_of (pool_pages (rpool r)) (Some (Snapshot.statement_view 5 0 [])) [] ∅ = Some (Ok [])
      /\ rows_of (pool_pages (rpool r)) None [] ∅ = Some (Ok [[VInt 1; VInt 10]])
  | _ => False
  end
  /\ 5 ∈ committed_tx_ids (classify unmarked_log).
Proof. split; [vm_compute; split; reflexivity|vm_compute; reflexivity]. Qed.

(** ** Which records are replayed *)

Definition is_data (r : WalRecord) : bool :=
  match r with WInsert _ _ _ _ | WUpdate _ _ _ _ _ | WDelete _ _ _ => true | _ => false end.
Definition commits_tx (tx : Z) (r : WalRecord) : Prop :=
  match r with WCommit t _ | WCommitTxn t _ => tx = t | _ => False end.
Definition aborts_tx (tx : Z) (r : WalRecord) : Prop :=
  match r with WAbort t | WAbortTxn t => tx = t | _ => False end.
Definition begins_tx (tx : Z) (r : WalRecord) : Prop :=
  match r with WBeginTxn t => tx = t | _ => False end.

Definition logged (P : WalRecord -> Prop) (log : list (Z * WalRecord)) : Prop :=
  exists e, e ∈ log /\ P e.2.

Lemma logged_cons P e log : logged P (e :: log) <-> P e.2 \/ logged P log.
Proof.
  unfold logged. split.
  - intros (x & [->|Hx]%elem_of_cons & HP); eauto.
  - intros [HP|(x & Hx & HP)]; [exists e|exists x]; split; try done; [left|by right].
Qed.

Lemma classify_spec log c :
  let c' := foldl classify_record c log in
  (forall tx, tx ∈ all_tx_ids c' <-> tx ∈ all_tx_ids c \/ logged (begins_tx tx) log)
  /\ (forall tx, tx ∈ committed_tx_ids c' <-> tx ∈ committed_tx_ids c \/ logged (commits_tx tx) log)
  /\ (forall tx, tx ∈ aborted_tx_ids c' <-> tx ∈ aborted_tx_ids c \/ logged (aborts_tx tx) log)
  /\ data_records c' = data_records c ++ filter (fun e => is_data e.2 = true) log.
Proof.
  revert c. induction log as [|[lsn r] log IH]; intros c; cbn [foldl].
  - assert (forall P, ~ logged P []) as HN.
    { intros P (x & Hx & _). by apply not_elem_of_nil in Hx. }
    rewrite app_nil_r. split_and!; naive_solver.
  - destruct (IH (classify_record c (lsn, r))) as (A & B & C & D). cbv zeta in *.
    split_and!.
    + intros tx. rewrite A, logged_cons. destruct r; cbn [classify_record all_tx_ids committed_tx_ids
        aborted_tx_ids snd begins_tx commits_tx aborts_tx]; rewrite ?elem_of_union, ?elem_of_singleton; tauto.
    + intros tx. rewrite B, logged_cons. destruct r; cbn [classify_record all_tx_ids committed_tx_ids
        aborted_tx_ids snd begins_tx commits_tx aborts_tx]; rewrite ?elem_of_union, ?elem_of_singleton; tauto.
    + intros tx. rewrite C, logged_cons. destruct r; cbn [classify_record all_tx_ids committed_tx_ids
        aborted_tx_ids snd begins_tx commits_tx aborts_tx]; rewrite ?elem_of_union, ?elem_of_singleton; tauto.
    + rewrite D, filter_cons. destruct r; cbn; rewrite <- ?app_assoc; done.
Qed.

Lemma classify_facts log :
  (forall tx, tx ∈ committed_tx_ids (classify log) <-> logged (commits_tx tx) log)
  /\ (forall tx, tx ∈ uncommitted_tx_ids (classify log) <->
        logged (begins_tx tx) log /\ ~ logged (commits_tx tx) log /\ ~ logged (aborts_tx tx) log)
  /\ data_records (classify log) = filter (fun e => is_data e.2 = true) log.
Proof.
  destruct (classify_spec log (mk_classes ∅ ∅ ∅ [])) as (A & B & C & D).
  cbv zeta in *. fold (classify log) in *. cbn [all_tx_ids committed_tx_ids aborted_tx_ids
    data_records app] in *. split_and!; [| |done].
  - intros tx. rewrite B, elem_of_empty. tauto.
  - intros tx. unfold uncommitted_tx_ids. rewrite !elem_of_difference, A, B, C, !elem_of_empty. tauto.
Qed.

Lemma elem_of_redo r log from :
  r ∈ to_redo (classify log) from <->
  exists lsn, (lsn, r) ∈ log /\ is_data r = true /\ from <= lsn
    /\ logged (commits_tx (record_tx_id r)) log.
Proof.
  destruct (classify_facts log) as (HC & _ & HD). unfold to_redo. rewrite list_elem_of_fmap, HD. split.
  - intros ([lsn r'] & -> & [[Hc Hl] [Hd He]%list_elem_of_filter]%list_elem_of_filter).
    exists lsn. split_and!; try done. by apply HC.
  - intros (lsn & He & Hd & Hl & Hc). exists (lsn, r). split; [done|].
    apply list_elem_of_filter. split; [split; [by apply HC|done]|].
    by apply list_elem_of_filter.
Qed.

(** recovery replays exactly the data records of committed transactions at
    or after the replay position, in log order, and treats as uncommitted
    exactly the transactions that began in the log and neither committed nor
    aborted in it; it prepares for a replay exactly when there is a record to
    replay. *)
Theorem replay_selection log from :
  (forall r, r ∈ to_redo (classify log) from <->
     exists lsn, (lsn, r) ∈ log /\ is_data r = true /\ from <= lsn
       /\ logged (commits_tx (record_tx_id r)) log)
  /\ to_redo (classify log) from `sublist_of` (snd <$> log)
  /\ (forall tx, tx ∈ uncommitted_tx_ids (classify log) <->
        logged (begins_tx tx) log /\ ~ logged (commits_tx tx) log /\ ~ logged (aborts_tx tx) log)
  /\ (will_redo (classify log) from = true <-> to_redo (classify log) from <> []).
Proof.
  destruct (classify_facts log) as (HC & HU & HD). split_and!; [| |done|].
  - intros r. apply elem_of_redo.
  - unfold to_redo. rewrite HD. apply fmap_sublist.
    transitivity (filter (fun e : Z * WalRecord => is_data e.2 = true) log); apply sublist_filter.
  - unfold will_redo, to_redo. clear HD.
    induction (data_records (classify log)) as [|e l IH]; [done|].
    cbn [existsb]. rewrite filter_cons.
    destruct (decide (record_tx_id e.2 ∈ committed_tx_ids (classify log) /\ from <= e.1)) as [[H1 H2]|H].
    + rewrite bool_decide_eq_true_2, (proj2 (Z.leb_le _ _)) by done. done.
    + rewrite <- IH. case_bool_decide; [|done]. destruct (Z.leb_spec from e.1); [naive_solver|done].
Qed.

(** ** Crashes during a checkpoint *)

Lemma site_roundtrip lsn ts wm :
  in_u64 lsn -> in_u64 ts -> in_u64 wm ->
  read_site_file (Some (write_checkpoint_site lsn ts wm)) = Some (mk_site lsn ts (Some wm)).
Proof.
  intros. unfold read_site_file, write_checkpoint_site. buf_simpl.
  assert (forall l : list byte, zlen l = 24 -> slice l 0 (Z.min 24 (8 + (8 + 8))) = l) as Hs
    by (intros l Hl; apply slice_whole; [done|by rewrite Hl]).
  rewrite Hs by buf_lia. buf_simpl. cbn [Z.ltb Z.leb Z.compare]. slice_app.
  by rewrite !le_val_u64.
Qed.

Section checkpoint_crash.
Context (crc32 : list byte -> Z).
Hypothesis crc32_range : forall bs, in_u32 (crc32 bs).

(** The bytes of a checkpoint record, which is appended in the legacy format;
    the positions below 16 MiB leave its ninth byte zero. *)
Lemma ckpt_bytes lsn ts :
  0 <= lsn < 16777216 ->
  serialize (WCheckpoint lsn ts) = ([Byte.x06] ++ le_bytes 4 16 ++ le_bytes 8 lsn) ++ le_bytes 8 ts
  /\ zlen (serialize (WCheckpoint lsn ts)) = 21
  /\ exists b0 b1 b2, le_bytes 8 lsn = b0 :: b1 :: b2 :: replicate 5 Byte.x00.
Proof.
  intros HL. split; [|split].
  - unfold serialize. cbn [serialize_data record_type type_code]. buf_simpl. done.
  - unfold serialize. cbn [serialize_data]. buf_lia.
  - cbn [le_bytes]. do 3 eexists. do 3 f_equal.
    assert (lsn / 256 / 256 / 256 = 0) as ->; [|done].
    rewrite !Z.div_div by lia. apply Z.div_small. lia.
Qed.

Section ckpt_record.
Context (pre : list byte) (lsn ts : Z) (HL : 0 <= lsn < 16777216) (HT : in_u64 ts).
Let fr := serialize (WCheckpoint lsn ts).
Let peek := slice (pre ++ fr) (zlen pre) (Z.min (zlen pre + 13) (zlen (pre ++ fr))).

Lemma ckpt_peek : peek = [Byte.x06] ++ le_bytes 4 16 ++ le_bytes 8 lsn.
Proof using HL.
  pose proof (zlen_nonneg pre). destruct (ckpt_bytes lsn ts HL) as (EF & HF & _).
  unfold peek, fr. rewrite zlen_app, HF, Z.min_l by lia. rewrite slice_app_r by lia.
  rewrite Z.sub_diag, Z.add_simpl_l, EF. rewrite slice_app_l by buf_lia. apply slice_whole; buf_lia.
Qed.

(** Where a current frame has its type the record has a zero. *)
Lemma ckpt_not_current :
  read_new_format_frame crc32 (pre ++ fr) (zlen pre) peek = Err (InvalidRecordType 0).
Proof using HL.
  pose proof (zlen_nonneg pre). destruct (ckpt_bytes lsn ts HL) as (EF & HF & b0 & b1 & b2 & EB).
  unfold read_new_format_frame. rewrite ckpt_peek, EB. cbn [app le_bytes replicate].
  change (zlen _ <? 13) with false. cbv iota. change (le_val (slice _ 9 13)) with 0. unfold read_upto, fr.
  rewrite zlen_app, HF, (proj2 (Z.ltb_ge _ _)) by lia. rewrite exec_bind_ret.
  rewrite slice_app_r by lia. rewrite Z.sub_diag, Z.add_simpl_l.
  unfold deserialize_with_lsn. rewrite zlen_slice by lia.
  change (8 + 1 + 4 + 0 + 4 - 0 <? 17) with false. cbv iota.
  rewrite EF, EB. change (index_get _ 8) with (Ok (E:=WalError) Byte.x00). done.
Qed.

Lemma ckpt_legacy :
  read_legacy_frame (pre ++ fr) (zlen pre) peek = Ok (zlen pre, WCheckpoint lsn ts, zlen pre + 21).
Proof using HL HT.
  pose proof (zlen_nonneg pre). destruct (ckpt_bytes lsn ts HL) as (EF & HF & _).
  assert (record_wf (WCheckpoint lsn ts)) as HW
    by (split; [cbn [serialize_data]; buf_lia|split; [word_lia|done]]).
  unfold read_legacy_frame. rewrite ckpt_peek.
  assert (zlen ([Byte.x06] ++ le_bytes 4 16 ++ le_bytes 8 lsn) = 13) as -> by buf_lia.
  assert (le_val (slice ([Byte.x06] ++ le_bytes 4 16 ++ le_bytes 8 lsn) 1 5) = 16) as ->
    by (slice_app; apply le_val_u32; word_lia).
  change (13 <? 5 + 16) with true. cbv iota. unfold read_upto, fr.
  rewrite zlen_app, HF, (proj2 (Z.ltb_ge _ _)) by lia. rewrite exec_bind_ret.
  rewrite slice_app_r by lia. rewrite slice_whole by lia.
  rewrite <- (app_nil_r (serialize _)), legacy_decodes by done. by rewrite exec_bind_ret.
Qed.

(** The checkpoint record at the end of a log is read as the legacy frame it
    is. *)
Lemma read_ckpt_record fuel :
  read_from crc32 (pre ++ fr) (S (S fuel)) (zlen pre) = Some (Ok [(zlen pre, WCheckpoint lsn ts)]).
Proof using HL HT.
  destruct (ckpt_bytes lsn ts HL) as (_ & HF & _).
  pose proof (read_end crc32 (pre ++ fr) fuel) as RE. unfold fr in RE at 2. rewrite zlen_app, HF in RE.
  remember (S fuel) as f eqn:Ef. cbn [read_from]. unfold read_next_with_lsn. fold peek.
  assert (zlen peek = 13) as -> by (rewrite ckpt_peek; buf_lia).
  change (13 =? 0) with false. change (13 <? 5) with false. cbv iota.
  assert (index_get (E:=WalError) peek 0 = Ok Byte.x06) as -> by by rewrite ckpt_peek.
  rewrite exec_bind_ret. change (negb (is_ok (record_type_try_from Byte.x06))) with false.
  cbv iota. change (13 <=? 13) with true. cbv iota.
  rewrite ckpt_not_current, ckpt_legacy, exec_bind_ret. by rewrite RE.
Qed.
End ckpt_record.

(** What recovery replays from a disk. *)
Definition recovered (d : Disk) : option (list WalRecord) :=
  match read_all_with_lsn crc32 (disk_wal d) with
  | Some (Ok log) =>
      Some (to_redo (classify log) (redo_from (read_site_file (disk_site d)) (zlen (disk_wal d))))
  | _ => None
  end.

Definition frames_ok (l : list (Z * WalRecord)) : Prop :=
  Forall (fun e => in_u64 e.1 /\ record_wf e.2) l.

Lemma frames_min l : (length l <= length (batch_bytes crc32 l))%nat.
Proof.
  induction l as [|[lsn r] l IH]; [done|]. rewrite batch_bytes_cons, length_app.
  pose proof (frame_min crc32 r lsn). unfold zlen in *. cbn [length]. lia.
Qed.

(** A log of frames, with or without a checkpoint record after them. *)
Lemma read_all_frames l : frames_ok l -> read_all_with_lsn crc32 (batch_bytes crc32 l) = Some (Ok l).
Proof.
  intros HW. pose proof (frames_min l) as HM. set (B := batch_bytes crc32 l) in *.
  pose proof (read_frames crc32 crc32_range [] l [] (S (length B - length l)) HW) as E.
  cbn [app] in E. fold B in E. rewrite app_nil_r, read_end, app_nil_r in E.
  unfold read_all_with_lsn. rewrite <- E. f_equal. lia.
Qed.

Lemma read_all_ckpt l lsn ts :
  frames_ok l -> 0 <= lsn < 16777216 -> in_u64 ts ->
  read_all_with_lsn crc32 (batch_bytes crc32 l ++ serialize (WCheckpoint lsn ts))
  = Some (Ok (l ++ [(zlen (batch_bytes crc32 l), WCheckpoint lsn ts)])).
Proof.
  intros HW HL HT. pose proof (frames_min l) as HM. set (B := batch_bytes crc32 l) in *.
  set (C := serialize (WCheckpoint lsn ts)).
  pose proof (read_frames crc32 crc32_range [] l C (S (S (length (B ++ C) - length l - 1))) HW) as E.
  cbn [app] in E. fold B in E. unfold C in E at 3. rewrite read_ckpt_record in E by done.
  assert (length C = 21%nat) as HC by done.
  unfold read_all_with_lsn. rewrite <- E. f_equal. rewrite length_app. lia.
Qed.

(** The records [l2] logged after the checkpoint captured its position, and
    nothing that is not committed, are replayed from [d]. *)
Definition replays_tail (l1 l2 : list (Z * WalRecord)) (d : Disk) : Prop :=
  exists rs, recovered d = Some rs
    /\ (forall e, e ∈ l2 -> is_data e.2 = true ->
          logged (commits_tx (record_tx_id e.2)) (l1 ++ l2) -> e.2 ∈ rs)
    /\ (forall r, r ∈ rs -> is_data r = true /\ logged (commits_tx (record_tx_id r)) (l1 ++ l2)
          /\ exists lsn, (lsn, r) ∈ l1 ++ l2).

(** A transaction commits after it has written. *)
Definition commits_last (l1 l2 : list (Z * WalRecord)) : Prop :=
  forall e, e ∈ l2 -> is_data e.2 = true -> ~ logged (commits_tx (record_tx_id e.2)) l1.

Lemma replays_tail_log l1 l2 d log lsn :
  read_all_with_lsn crc32 (disk_wal d) = Some (Ok log) ->
  redo_from (read_site_file (disk_site d)) (zlen (disk_wal d)) <= lsn ->
  (forall e, e ∈ l2 -> e ∈ log) ->
  (forall e, e ∈ log -> e ∈ l1 ++ l2 \/ exists l t, e.2 = WCheckpoint l t) ->
  Forall (fun e => lsn <= e.1) l2 -> commits_last l1 l2 ->
  replays_tail l1 l2 d.
Proof.
  intros HR HF H2 HL HG HC. unfold replays_tail, recovered. rewrite HR.
  eexists. split; [done|]. split.
  - intros [n r] He Hd (x & [Hx|Hx]%elem_of_app & Hc).
    { exfalso. eapply (HC (n, r)); [done..|]. by exists x. }
    apply elem_of_redo. exists n. rewrite Forall_forall in HG. specialize (HG _ He). cbn [fst snd] in *.
    split_and!; [auto|done|lia|]. exists x. auto.
  - intros r (n & He & Hd & _ & x & Hx & Hc)%elem_of_redo. split; [done|]. split.
    + exists x. split; [|done]. destruct (HL x Hx) as [?|(l & t & E)]; [done|]. by rewrite E in Hc.
    + exists n. destruct (HL _ He) as [?|(l & t & E)]; [done|]. cbn in E. by subst r.
Qed.

End checkpoint_crash.

Section crash_states.
Context (crc32 : list byte -> Z).
Hypothesis crc32_range : forall bs, in_u32 (crc32 bs).

(** The disk at the end of each of the steps 5 to 8. *)
Definition ckpt_states (d : Disk) (meanwhile : list (Z * WalRecord)) (wm ts ts2 : Z) : list Disk :=
  let lsn := get_current_lsn (disk_writer d) in
  let d0 := mk_disk (disk_site d) (write_batch crc32 (disk_writer d) meanwhile Written).2 in
  let d1 := ckpt_site_written d0 lsn ts wm in
  let d2 := ckpt_record_appended d1 lsn ts in
  let d3 := ckpt_truncated d2 lsn in
  let d4 := ckpt_site_reset d3 ts2 wm in
  [d1; d2; d3; d4].

(** The logs of these states. *)
Lemma ckpt_logs d l1 l2 wm ts ts2 :
  disk_wal d = batch_bytes crc32 l1 ->
  let C := serialize (WCheckpoint (zlen (batch_bytes crc32 l1)) ts) in
  disk_wal <$> ckpt_states d l2 wm ts ts2
  = [batch_bytes crc32 (l1 ++ l2); batch_bytes crc32 (l1 ++ l2) ++ C;
     batch_bytes crc32 l2 ++ C; batch_bytes crc32 l2 ++ C].
Proof.
  unfold ckpt_states, disk_wal, get_current_lsn. intros H. rewrite H. cbv zeta.
  set (lsn := zlen (batch_bytes crc32 l1)). rewrite batch_bytes_app.
  cbn [fmap list_fmap ckpt_site_written ckpt_record_appended ckpt_truncated ckpt_site_reset
    disk_writer disk_site write_batch write_record rewrite_truncate snd wal_file count_written with_file].
  rewrite H. set (rest := batch_bytes crc32 l2). set (C := serialize _).
  assert (forall n, n = zlen (rest ++ C) ->
    slice ((batch_bytes crc32 l1 ++ rest) ++ C) lsn (lsn + n) = rest ++ C) as ->; [|done|].
  - intros n ->. pose proof (zlen_nonneg (batch_bytes crc32 l1)). pose proof (zlen_nonneg (rest ++ C)).
    rewrite <- app_assoc, slice_app_r by (unfold lsn; lia). apply slice_whole; unfold lsn; lia.
  - unfold sat_sub. rewrite <- app_assoc, (zlen_app (batch_bytes crc32 l1)).
    pose proof (zlen_nonneg (rest ++ C)). unfold lsn. lia.
Qed.

(** In each state the log reads back, holds what was appended after the
    capture, and the site carries the watermark. *)
Record ckpt_state_ok (lsn wm : Z) (l1 l2 : list (Z * WalRecord)) (d : Disk) : Prop := {
  cs_log : exists log, read_all_with_lsn crc32 (disk_wal d) = Some (Ok log)
    /\ (forall e, e ∈ l2 -> e ∈ log)
    /\ (forall e, e ∈ log -> e ∈ l1 ++ l2 \/ exists l t, e.2 = WCheckpoint l t);
  cs_site : exists n t, read_site_file (disk_site d) = Some (mk_site n t (Some wm)) /\ 0 <= n <= lsn }.

Lemma ckpt_states_ok d l1 l2 wm ts ts2 :
  disk_wal d = batch_bytes crc32 l1 -> frames_ok l1 -> frames_ok l2 ->
  let lsn := get_current_lsn (disk_writer d) in
  lsn < 16777216 -> in_u64 wm -> in_u64 ts -> in_u64 ts2 ->
  Forall (ckpt_state_ok lsn wm l1 l2) (ckpt_states d l2 wm ts ts2).
Proof.
  intros HD H1 H2 lsn HL HM HT HT2.
  assert (lsn = zlen (batch_bytes crc32 l1)) as EL by (unfold lsn, get_current_lsn; by rewrite <- HD).
  pose proof (zlen_nonneg (batch_bytes crc32 l1)) as HN. rewrite <- EL in HN.
  pose proof (ckpt_logs d l1 l2 wm ts ts2 HD) as E. cbv zeta in E. rewrite <- EL in E.
  set (C := serialize (WCheckpoint lsn ts)) in *.
  assert (forall l t, in_u64 t -> 0 <= l <= lsn -> exists n t',
    read_site_file (Some (write_checkpoint_site l t wm)) = Some (mk_site n t' (Some wm)) /\ 0 <= n <= lsn)
    as HS by (intros l t Ht Hl; exists l, t; split; [apply site_roundtrip; [word_lia|done..]|done]).
  assert (forall l dl, frames_ok l -> disk_wal dl = batch_bytes crc32 l ++ C ->
    (forall e, e ∈ l -> e ∈ l1 ++ l2) -> (forall e, e ∈ l2 -> e ∈ l) ->
    exists log, read_all_with_lsn crc32 (disk_wal dl) = Some (Ok log)
    /\ (forall e, e ∈ l2 -> e ∈ log)
    /\ (forall e, e ∈ log -> e ∈ l1 ++ l2 \/ exists l t, e.2 = WCheckpoint l t)) as HK.
  { intros l dl Hl -> Ha Hb. exists (l ++ [(zlen (batch_bytes crc32 l), WCheckpoint lsn ts)]).
    split; [apply read_all_ckpt; [done..|lia|done]|]. split; [set_solver|].
    intros e [He| ->%list_elem_of_singleton]%elem_of_app; [left; auto|]. right. eauto. }
  assert (frames_ok (l1 ++ l2)) as H12 by (by apply Forall_app).
  unfold ckpt_states in *. injection E as E1 E2 E3 E4.
  repeat constructor; try (apply HS; [done|]; fold lsn; lia).
  - exists (l1 ++ l2). split; [|set_solver].
    etransitivity; [apply f_equal; exact E1|by apply read_all_frames].
  - apply (HK (l1 ++ l2)); [done|exact E2|set_solver..].
  - apply (HK l2); [done|exact E3|set_solver..].
  - apply (HK l2); [done|exact E4|set_solver..].
Qed.


End crash_states.

Definition demo_l1 : list (Z * WalRecord) :=
  stamp sum32 0 [WBeginTxn 7; demo_insert; WCommitTxn 7 1].

Definition demo_disk (l : list (Z * WalRecord)) : Disk :=
  mk_disk None (write_batch sum32 (writer_open []) l Written).2.

Definition demo_l2 : list (Z * WalRecord) :=
  stamp sum32 (zlen (batch_bytes sum32 demo_l1))
    [WBeginTxn 8; WInsert 8 [Byte.x74] (mk_row_id 3 2) [Byte.x03]; WCommitTxn 8 2].

Lemma stamp_records crc32 base rs : snd <$> stamp crc32 base rs = rs.
Proof. revert base. induction rs as [|r rs IH]; intros base; [done|]. cbn. by rewrite IH. Qed.

Lemma demo_commits_last : commits_last demo_l1 demo_l2.
Proof.
  intros [m q] He Hd ([n r] & Hr & Hc). cbn [snd] in *.
  apply (list_elem_of_fmap_2 snd) in He, Hr. cbn [snd] in *.
  unfold demo_l2, demo_l1 in *. rewrite stamp_records in He, Hr. rewrite !elem_of_cons, elem_of_nil in He, Hr.
  destruct He as [->|[->|[->|[]]]]; [done| |done].
  destruct Hr as [->|[->|[->|[]]]]; done.
Qed.

Lemma demo_stamped base rs :
  Forall record_wf rs -> 0 <= base -> base + zlen (batch_bytes sum32 (stamp sum32 base rs)) <= u64_max ->
  frames_ok (stamp sum32 base rs) /\ Forall (fun e => base <= e.1) (stamp sum32 base rs).
Proof. intros. by apply stamp_range. Qed.

Lemma demo_frames : frames_ok demo_l1 /\ frames_ok demo_l2
  /\ Forall (fun e => zlen (batch_bytes sum32 demo_l1) <= e.1) demo_l2.
Proof.
  split; [|apply demo_stamped]; try apply demo_stamped;
    try (repeat constructor; vm_compute; done); vm_compute; done.
Qed.


(** ** What a checkpoint forgets *)

(** The disk after a crash between the steps 7 and 8 of the checkpoint of
    [demo_disk demo_l1]; the reopened database then commits transaction 8 and
    starts transaction 9. *)
Definition stale_site_disk : Disk :=
  let d := demo_disk demo_l1 in
  let d3 := default d (ckpt_states sum32 d [] 7 100 101 !! 2%nat) in
  mk_disk (disk_site d3)
    (write_batch sum32 (disk_writer d3)
       (stamp sum32 (get_current_lsn (disk_writer d3))
          [WBeginTxn 8; WInsert 8 [Byte.x74] (mk_row_id 3 2) [Byte.x03]; WCommitTxn 8 2;
           WBeginTxn 9]) Written).2.

(** a crash between the truncation of the log and the reset of the site
    leaves a site whose position lies beyond the shortened log.  Opening the
    database ignores it but does not replace it, so once new records have made
    the log long enough the site is taken at its word again: after a second
    crash a transaction that committed, and whose records are all in the log,
    is not replayed. *)
Theorem stale_site_drops_commit :
  match read_all_with_lsn sum32 (disk_wal stale_site_disk) with
  | Some (Ok log) =>
      8 ∈ committed_tx_ids (classify log)
      /\ to_redo (classify log) 0 = [WInsert 8 [Byte.x74] (mk_row_id 3 2) [Byte.x03]]
  | _ => False
  end
  /\ recovered sum32 stale_site_disk = Some [].
Proof. split; vm_compute; [split; reflexivity|reflexivity]. Qed.

(** Transaction 9 has inserted a row and is still active; its page is written
    out by the checkpoint. *)
Definition active_log : list (Z * WalRecord) :=
  stamp sum32 0 [WBeginTxn 9; WInsert 9 [Byte.x74] (mk_row_id 1 0) (enc_values [VInt 1; VInt 10])].
Definition active_pages : Pages := table_of [(VersionHeader.vh_new 9 None, [VInt 1; VInt 10])].

(** The rows a statement without a snapshot sees after recovery. *)
Definition rows_after (d : Disk) : option (option (exec ScanError (list (list Value)))) :=
  match read_all_with_lsn sum32 (disk_wal d) with
  | Some (Ok log) =>
      match mark_uncommitted_aborted (uncommitted_tx_ids (classify log))
              (mk_pool active_pages [] []) 5 demo_table with
      | Some (Ok p) => Some (rows_of (pool_pages p) None [] ∅)
      | _ => None
      end
  | _ => None
  end.

(** A checkpoint taken while a transaction is active cuts off the record of
    its beginning, and with it the evidence that the transaction did not
    finish: after a crash its row, which the checkpoint wrote out, is shown.
    Without the checkpoint recovery hides the row. *)
Theorem checkpoint_forgets_active_tx :
  rows_after (demo_disk active_log) = Some (Some (Ok []))
  /\ rows_after (checkpoint sum32 false true (demo_disk active_log) [] 9 100 101 NoFault).2
     = Some (Some (Ok [[VInt 1; VInt 10]])).
Proof. split; vm_compute; reflexivity. Qed.

(** ** A replay that ties a knot *)

(** Transaction 1 wrote the last row of page 1 and had not yet appended its
    record when transaction 2 moved on to page 2 and appended its own. *)
Definition knot_log : list (Z * WalRecord) :=
  [(0, WBeginTxn 1); (25, WBeginTxn 2);
   (50, WInsert 1 [Byte.x74] (mk_row_id 1 0) (enc_values [VInt 1; VInt 10]));
   (120, WInsert 2 [Byte.x74] (mk_row_id 2 0) (enc_values [VInt 3; VInt 30]));
   (190, WInsert 1 [Byte.x74] (mk_row_id 1 1) (enc_values [VInt 2; VInt 20]));
   (260, WCommitTxn 1 0); (293, WCommitTxn 2 0)].

Definition knot_pages : Pages := <[2 := replicate 4096 Byte.x00]> (table_of []).

Definition knot_pool : Pool :=
  match replayed knot_pages knot_log with Ok r => rpool r | _ => mk_pool ∅ [] [] end.

Definition page_next (p : Pool) (pid : Z) : option Z :=
  (fun d => next_page_id (header_at d)) <$> pool_pages p !! pid.

(** The page's successor and what there is to neutralise on it. *)
Definition page_fixes (U : gset Z) (p : Pool) (pid : Z)
    : option (exec RecoveryError (Z * list (Z * VersionHeader.vheader))) :=
  d ← pool_pages p !! pid;
  Some (let? slotted := ref_new d in
        if slot_count_exceeds_capacity (header slotted) then Ok (next_page_id (header slotted), [])
        else
          let? fixes := fixes_from U slotted (Z.to_nat (slot_count (header slotted))) 0 in
          Ok (next_page_id (header slotted), fixes)).

Lemma mark_page_nothing U p pid next :
  page_fixes U p pid = Some (Ok (next, [])) -> mark_page U p pid = Ok (next, p).
Proof.
  unfold page_fixes, mark_page. destruct (pool_pages p !! pid) as [d|]; [|done]. cbn.
  intros [= H]. revert H. destruct (ref_new d) as [sl| |]; cbn; [|done..].
  destruct (slot_count_exceeds_capacity _); [by intros [= ->]|].
  destruct (fixes_from _ _ _ _) as [fixes| |]; cbn; [|done..]. by intros [= -> ->].
Qed.

Lemma knot_ends U p fuel :
  page_fixes U p 1 = Some (Ok (2, [])) -> page_fixes U p 2 = Some (Ok (1, [])) ->
  mark_chain U p fuel 1 = None /\ mark_chain U p fuel 2 = None.
Proof.
  intros H1%mark_page_nothing H2%mark_page_nothing. induction fuel as [|fuel [IH1 IH2]]; [done|].
  cbn [mark_chain]. rewrite H1, H2. cbn [Z.eqb Pos.eqb]. done.
Qed.

Lemma knot_successors :
  page_fixes {[9]} knot_pool 1 = Some (Ok (2, [])) /\ page_fixes {[9]} knot_pool 2 = Some (Ok (1, [])).
Proof. split; vm_compute; reflexivity. Qed.


(** ** Replaying one row *)

(** A page recovery may find: never touched, or an initialised well-formed
    page. *)
Definition data_image (d : list byte) : Prop :=
  d = page_zeroed \/ (page_wf (raw_page d) /\ page_type (header_at d) <> Byte.x00).

Definition page_room (d : list byte) : Z :=
  if bool_decide (d = page_zeroed) then 4080 else free_space (raw_page d).

Lemma found_id d lid :
  page_wf (raw_page d) ->
  sp_get_slot_by_logical_id (E:=RecoveryError) (raw_page d) lid
  = Ok (find_lid lid (slots (raw_page d)) 0)
  /\ (find_lid lid (slots (raw_page d)) 0 = None <-> a_find lid (entries (raw_page d)) 0 = None)
  /\ (a_find lid (entries (raw_page d)) 0 = None -> lid ∉ (fst <$> entries (raw_page d))).
Proof.
  intros W. rewrite a_find_abs. split; [|split].
  - apply raw_find_ok; [apply (wf_len _ W)|apply (wf_not_exceeds _ W)].
  - by destruct (find_lid _ _ _).
  - destruct (find_lid _ _ _) as [|] eqn:F; [done|]. intros _. apply find_lid_None in F.
    unfold entries. by rewrite <- list_fmap_compose.
Qed.

Lemma redo_probe_ok d lid :
  data_image d ->
  exists d', redo_probe d lid = Ok (d', bool_decide (a_find lid (entries (raw_page d)) 0 <> None))
    /\ page_wf (raw_page d') /\ page_type (header_at d') <> Byte.x00
    /\ entries (raw_page d') = entries (raw_page d) /\ free_space (raw_page d') = page_room d.
Proof.
  intros HI. unfold redo_probe, page_room.
  assert (forall d', page_wf (raw_page d') -> entries (raw_page d') = entries (raw_page d) ->
    (let? slotted := sp_new d' in
     if slot_count_exceeds_capacity (page_header slotted) then Err RedoFailed
     else let? found := sp_get_slot_by_logical_id slotted lid in
          Ok (page slotted, match found with Some _ => true | None => false end))
    = Ok (d', bool_decide (a_find lid (entries (raw_page d)) 0 <> None))) as HP.
  { intros d' W E. rewrite raw_page_new, exec_bind_ret by apply (wf_len _ W).
    rewrite (wf_not_exceeds _ W). destruct (found_id d' lid W) as (-> & HF & _).
    rewrite exec_bind_ret. cbn [raw_page page]. rewrite E in HF. do 2 f_equal.
    destruct (find_lid _ _ _); [rewrite bool_decide_eq_true_2|rewrite bool_decide_eq_false_2]; naive_solver. }
  destruct HI as [->|[W T]].
  - change (index_get page_zeroed 0) with (@Ok RecoveryError byte Byte.x00).
    rewrite exec_bind_ret, !bool_decide_eq_true_2 by done.
    assert (zlen page_zeroed = 4096) as HZ by by vm_compute.
    destruct (sp_init_wf page_zeroed Byte.x03 _ HZ (sp_init_ok _ _ HZ)) as [W E].
    rewrite sp_init_ok, exec_bind_ret by done. eexists. split; [apply HP|].
    + by rewrite raw_of_wf.
    + by rewrite raw_of_wf, E, zeroed_entries by done.
    + rewrite raw_of_wf by done. rewrite zeroed_entries. split_and!; done.
  - assert (zlen d = 4096) as HZ by apply (wf_len _ W).
    rewrite index_get_hd, exec_bind_ret by lia.
    change (hd Byte.x00 (slice d 0 1)) with (page_type (header_at d)).
    rewrite bool_decide_eq_false_2 by done. rewrite raw_page_new, exec_bind_ret by done.
    exists d. cbn [raw_page page]. split; [by apply HP|]. split_and!; try done.
    rewrite bool_decide_eq_false_2; [done|]. by intros ->.
Qed.

(** What is to be known of the state before a row is replayed. *)
Record redo_ready (r : Redo) (table : TableName) (rid : RowId) (d : list byte) : Prop := {
  ready_page : pool_pages (rpool r) !! page_id rid = Some d;
  ready_image : data_image d;
  ready_pid : in_u32 (page_id rid);
  ready_prev : forall prev, table_last_page r !! table = Some prev -> prev <> page_id rid ->
    exists dp, pool_pages (rpool r) !! prev = Some dp /\ page_wf (raw_page dp) }.

(** Linking changes no row. *)
Lemma redo_link_ok r table pid create d :
  in_u32 pid -> pool_pages (rpool r) !! pid = Some d ->
  (forall prev, table_last_page r !! table = Some prev -> prev <> pid ->
     exists dp, pool_pages (rpool r) !! prev = Some dp /\ page_wf (raw_page dp)) ->
  exists r', redo_link r table pid create = Ok r'
    /\ (forall rid, row_bytes (pool_pages (rpool r')) rid = row_bytes (pool_pages (rpool r)) rid)
    /\ pool_pages (rpool r') !! pid = Some d
    /\ data_page_tail r' !! table = Some pid /\ table_last_page r' !! table = Some pid.
Proof.
  intros Hp Hd HL. unfold redo_link.
  destruct (table_last_page r !! table) as [prev|] eqn:E.
  2:{ rewrite exec_bind_ret. eexists. split; [done|]. cbn. by rewrite !lookup_insert_eq. }
  destruct (Z.eqb_spec prev pid) as [->|Hne].
  { rewrite exec_bind_ret. eexists. split; [done|]. cbn. by rewrite !lookup_insert_eq. }
  destruct (HL prev eq_refl Hne) as (dp & Hdp & W). rewrite Hdp.
  pose proof (wf_len _ W) as HZ. cbn [raw_page page] in HZ.
  rewrite splice_set_ok by (rewrite ?zlen_le_bytes; lia). rewrite !exec_bind_ret, wrap32_id by done.
  destruct (set_next_page dp pid W Hp) as [_ HE].
  eexists. split; [done|]. cbn. rewrite !lookup_insert_eq, lookup_insert_ne by done.
  split_and!; try done. intros rid. by apply (row_bytes_same _ prev dp).
Qed.

(** Placing an inline row at an unused id. *)
Lemma redo_placed p rid vh tuple d :
  pool_pages p !! page_id rid = Some d -> page_wf (raw_page d) -> VersionHeader.wf vh ->
  0 <= slot_id rid < 65535 -> slot_id rid ∉ (fst <$> entries (raw_page d)) ->
  28 + zlen tuple <= free_space (raw_page d) ->
  exists d', redo_slot_data p vh tuple = (Ok (VersionHeader.to_bytes vh ++ tuple), p)
    /\ redo_place p rid (VersionHeader.to_bytes vh ++ tuple) = Ok (modify p (page_id rid) d')
    /\ page_wf (raw_page d') /\ page_type (header_at d') = page_type (header_at d)
    /\ entries (raw_page d')
       = entries (raw_page d) ++ [(slot_id rid, VersionHeader.to_bytes vh ++ tuple)].
Proof.
  intros HD W Wh Hs Hf Hr. pose proof (VersionFacts.length_to_bytes vh Wh) as HL.
  assert (zlen (VersionHeader.to_bytes vh) = 22) as HZ by (unfold zlen; lia).
  pose proof (wf_free_space _ W) as HF. pose proof (wf_slot_count _ W). pose proof (wf_free_lo _ W).
  destruct (forced_add (raw_page d) (VersionHeader.to_bytes vh ++ tuple) (slot_id rid) W Hs Hf)
    as (p' & E & W' & T & A); [buf_lia|].
  exists (page p'). rewrite (raw_of_wf p' W'), (wf_header p' W'). split_and!; try done.
  - unfold redo_slot_data, INLINE_SLOT_MAX, VersionHeader.SIZE. page_consts.
    rewrite (proj2 (Z.ltb_ge _ _)) by lia. done.
  - unfold redo_place. rewrite HD, raw_page_new, exec_bind_ret by apply (wf_len _ W). by rewrite E.
  - by apply (f_equal a_entries) in A.
Qed.

(** The rows after the row [rid] was replayed: those from before, and [bytes]
    at [rid] unless it held a row. *)
Definition rows_with (before after : Pages) (rid : RowId) (bytes : list byte) : Prop :=
  forall rid', row_bytes after rid'
    = if bool_decide (rid' = rid) then Some (default bytes (row_bytes before rid))
      else row_bytes before rid'.

(** The probe, and the placement when the row is not there. *)
Lemma redo_unlinked r table rid vh tuple d :
  redo_ready r table rid d -> VersionHeader.wf vh -> 0 <= slot_id rid < 65535 ->
  (row_bytes (pool_pages (rpool r)) rid = None -> 28 + zlen tuple <= page_room d) ->
  exists p d', redo_tuple_at_row_id r table rid vh tuple
      = redo_link (with_pool r p) table (page_id rid) (VersionHeader.create_tx_id vh)
    /\ pool_pages p = <[page_id rid := d']> (pool_pages (rpool r))
    /\ page_wf (raw_page d') /\ page_type (header_at d') <> Byte.x00
    /\ rows_with (pool_pages (rpool r)) (pool_pages p) rid (VersionHeader.to_bytes vh ++ tuple).
Proof.
  intros [HD HI HU HP] Wh Hs HR. unfold redo_tuple_at_row_id. rewrite HD.
  destruct (redo_probe_ok d (slot_id rid) HI) as (d1 & -> & W1 & T1 & E1 & F1).
  rewrite exec_bind_ret. set (p1 := modify (rpool r) (page_id rid) d1).
  assert (pool_pages p1 !! page_id rid = Some d1) as HD1 by apply lookup_insert_eq.
  assert (forall x, row_bytes (pool_pages p1) x = row_bytes (pool_pages (rpool r)) x) as HB1
    by (by apply (row_bytes_same _ _ d)).
  assert (row_bytes (pool_pages (rpool r)) rid = snd <$> a_find (slot_id rid) (entries (raw_page d)) 0) as HB
    by (unfold row_bytes; by rewrite HD).
  destruct (found_id d1 (slot_id rid) W1) as (_ & _ & HN). rewrite E1 in HN.
  case_bool_decide as HA.
  - exists p1, d1. split_and!; try done. intros rid'. rewrite HB1. case_bool_decide; [subst|done].
    rewrite HB. by destruct (a_find _ _ _).
  - assert (a_find (slot_id rid) (entries (raw_page d)) 0 = None) as HA' by (by destruct (a_find _ _ _)).
    destruct (redo_placed p1 rid vh tuple d1) as (d2 & -> & -> & W2 & T2 & E2); try done.
    { rewrite E1. auto. }
    { rewrite F1. apply HR. by rewrite HB, HA'. }
    exists (modify p1 (page_id rid) d2), d2. split_and!; try done.
    + cbn. apply insert_insert_eq.
    + by rewrite T2.
    + intros rid'. destruct (row_bytes_insert (pool_pages p1) (page_id rid) d1 d2 (slot_id rid)
        (VersionHeader.to_bytes vh ++ tuple)) as [_ ->]; [done|rewrite E1; auto|done|].
      rewrite HB1, HB, HA'. by destruct rid.
Qed.

Lemma redo_row r table rid vh tuple d :
  redo_ready r table rid d -> VersionHeader.wf vh -> 0 <= slot_id rid < 65535 ->
  (row_bytes (pool_pages (rpool r)) rid = None -> 28 + zlen tuple <= page_room d) ->
  exists r' d', redo_tuple_at_row_id r table rid vh tuple = Ok r'
    /\ redo_ready r' table rid d' /\ page_wf (raw_page d')
    /\ data_page_tail r' !! table = Some (page_id rid)
    /\ rows_with (pool_pages (rpool r)) (pool_pages (rpool r')) rid (VersionHeader.to_bytes vh ++ tuple).
Proof.
  intros R Wh Hs HR. destruct (redo_unlinked r table rid vh tuple d) as (p & d' & -> & H & W & T & B);
    [done..|]. destruct R as [HD HI HU HP].
  assert (pool_pages p !! page_id rid = Some d') as HD' by (rewrite H; apply lookup_insert_eq).
  destruct (redo_link_ok (with_pool r p) table (page_id rid) (VersionHeader.create_tx_id vh) d')
    as (r' & -> & B' & D' & T' & L'); [done..| |].
  { cbn. intros prev Hl Hne. destruct (HP prev Hl Hne) as (dp & A & C). exists dp. split; [|done].
    by rewrite H, lookup_insert_ne. }
  exists r', d'. split_and!; try done.
  - split; [done|by right|done|]. intros prev Hl Hne. congruence.
  - intros rid'. by rewrite B', B.
Qed.

Lemma note_version_pool r t table tuple rid : rpool (note_version r t table tuple rid) = rpool r.
Proof. unfold note_version. by destruct (extract_pk_key t tuple). Qed.

Lemma note_version_ready r t table tuple rid rid' d :
  redo_ready r table rid d -> redo_ready (note_version r t table tuple rid') table rid d.
Proof.
  intros [A B C D]. split; rewrite ?note_version_pool; try done.
  unfold note_version. by destruct (extract_pk_key t tuple).
Qed.



(** ** Transaction ids are not reused *)

Lemma set_fold_max_ge (X : gset Z) : forall x, x ∈ X -> x <= set_fold Z.max 0 X.
Proof.
  apply (set_fold_ind_L (fun b X => forall x, x ∈ X -> x <= b)).
  - set_solver.
  - intros y Y b _ IH z [->%elem_of_singleton|Hz]%elem_of_union; [lia|]. specialize (IH z Hz). lia.
Qed.

(** A record that tells of the transaction's beginning or end. *)
Definition marks_tx (tx : Z) (r : WalRecord) : Prop :=
  begins_tx tx r \/ commits_tx tx r \/ aborts_tx tx r.

Lemma recover_ids crc32 tables fuel site file r res r' log :
  recover_data_pages crc32 tables fuel site (Some file) r = Some (Ok (res, r')) ->
  read_all_with_lsn crc32 file = Some (Ok log) ->
  checkpoint_tx_watermark res = (read_site_file site ≫= tx_watermark)
  /\ forall tx, logged (marks_tx tx) log -> tx <= ids_seen res.
Proof.
  intros H HL. unfold recover_data_pages in H. rewrite HL in H.
  destruct log as [|e log]; [injection H as <- <-; split; [done|]|].
  { intros tx (x & Hx & _). by apply not_elem_of_nil in Hx. }
  set (c := classify (e :: log)) in H.
  assert (exists n h, res = mk_recovery (committed_tx_ids c) (aborted_tx_ids c) (uncommitted_tx_ids c) n
    (read_site_file site ≫= tx_watermark) h) as (n & h & ->).
  { destruct (if will_redo c _ then _ else _) as [[[k kl]| |]|]; [|done..].
    destruct (redo_all _ _ _) as [r1| |]; [|done..].
    destruct (mark_uncommitted_aborted _ _ _ _) as [[p| |]|]; [|done..]. injection H as <- <-. eauto. }
  split; [done|]. intros tx HX. unfold ids_seen. cbn [res_committed res_aborted res_uncommitted].
  destruct (classify_spec (e :: log) (mk_classes ∅ ∅ ∅ [])) as (A & B & C & _). cbv zeta in *.
  fold (classify (e :: log)) in A, B, C. fold c in A, B, C. cbn [all_tx_ids committed_tx_ids aborted_tx_ids] in A, B, C.
  assert (tx ∈ committed_tx_ids c ∪ aborted_tx_ids c ∪ uncommitted_tx_ids c) as HIn.
  { unfold uncommitted_tx_ids. rewrite !elem_of_union, !elem_of_difference.
    destruct HX as (x & Hx & [Hb|[Hb|Hb]]).
    - assert (tx ∈ all_tx_ids c) by (apply A; right; by exists x).
      destruct (decide (tx ∈ committed_tx_ids c)), (decide (tx ∈ aborted_tx_ids c)); tauto.
    - left. left. apply B. right. by exists x.
    - left. right. apply C. right. by exists x. }
  pose proof (set_fold_max_ge _ _ HIn). lia.
Qed.


Lemma demo_marked_ids tx : logged (marks_tx tx) demo_l1 -> tx <= 7.
Proof.
  intros ([n r] & Hr & Hc). apply (list_elem_of_fmap_2 snd) in Hr. cbn [snd] in *.
  unfold demo_l1 in Hr. rewrite stamp_records in Hr. rewrite !elem_of_cons, elem_of_nil in Hr.
  destruct Hr as [->|[->|[->|[]]]]; destruct Hc as [Hc|[Hc|Hc]]; cbn in Hc; done || lia.
Qed.

