(* ===== verification/BTreeNode.v ===== *)
(** * B-tree nodes

    [src/storage/btree/node.rs]: leaf and internal nodes kept on slotted pages.
    A slot holds a 32-byte key and a value, which is a row id in a leaf and the
    page of the right child in an internal node; the header's next-page field
    is the leaf chain or the leftmost child.  [src/storage/integrity.rs],
    [check_tree_page]: the check every read and write of an index page passes
    first.

    The two kinds of node share their layout, so the readers and the plain
    append are defined once over a [NodeCodec] and instantiated twice.  The
    page as an operation that fails half-way leaves it is not followed. *)

From Stdlib Require Import ZArith Strings.Byte Lia Sorting.Sorted.
From stdpp Require Import base tactics list numbers gmap sorting.
From S2P Require Import Prelude RowKey PageLayout Version Overflow DataPage.
Import Key RowId.

Inductive BtError :=
| InvalidPageType (expected actual : byte)
| BtPageFull
| KeyNotFound
| CorruptedIndexPage (page_id index_root : Z)
| BtPageMissing (page_id : Z)
| BtAllocFailed
| DescentCycle (page_id : Z)
| SplitEmptyNode
| NotAChild (page_id : Z)
| SpliceOutOfRange
| SeparatorOutOfRange (index : Z)
| RightSiblingEmpty
| MergeExceedsCapacity
| NothingToMove
| UnderflowNoSiblings
| PageWrite (e : PageWriteError).

Definition LEAF_NODE : byte := Byte.x01.
Definition INTERNAL_NODE : byte := Byte.x02.

(** ** Slots as entries *)

(** How a node stores the value beside the key. *)
Class NodeCodec (V : Type) := {
  v_size : Z;
  v_type : byte;
  v_enc : V -> list byte;
  v_dec : list byte -> exec Empty_set V;
  v_wf : V -> Prop;
  v_enc_len : forall v, zlen (v_enc v) = v_size;
  v_dec_enc : forall v, v_wf v -> v_dec (v_enc v) = Ok v;
  v_fits : 0 <= v_size <= 6 }.

#[global] Program Instance leaf_codec : NodeCodec RowId := {|
  v_size := 6; v_type := LEAF_NODE; v_enc := row_id_bytes; v_dec := row_id_deserialize;
  v_wf := row_id_wf |}.
Next Obligation. intros v. by unfold zlen, row_id_bytes. Qed.
Next Obligation. intros v W. rewrite <- (app_nil_r (row_id_bytes v)). by apply row_id_deserialize_bytes. Qed.
Next Obligation. lia. Qed.

#[global] Program Instance child_codec : NodeCodec Z := {|
  v_size := 4; v_type := INTERNAL_NODE; v_enc := le_bytes 4;
  v_dec := fun d => Ok (le_val (slice d 0 4)); v_wf := in_u32 |}.
Next Obligation. intros v. buf_lia. Qed.
Next Obligation. intros v W. cbv beta. rewrite slice_full by buf_lia. by rewrite le_val_u32. Qed.
Next Obligation. lia. Qed.

(** [bounded_slot_data_ref] and [bounded_slot_data_mut]. *)
Definition bounded_slot_data (p : SlottedPageRef) (index : Z) : exec BtError (option (list byte)) :=
  if MAX_PAGE_SLOTS <=? index then Ok None
  else
    let? slot := get_slot p index in
    match slot with
    | None => Ok None
    | Some slot =>
        if slot_payload_in_bounds (slot_count (header p)) (offset slot) (offset slot + length_ slot)
        then let? bytes := get_slot_data p slot in Ok (Some bytes)
        else Ok None
    end.

Section node.
Context {V : Type} `{NodeCodec V}.

Definition key_count (p : SlottedPageRef) : Z := slot_count (header p).

Definition get_key (p : SlottedPageRef) (index : Z) : exec BtError (option Key) :=
  let? d := bounded_slot_data p index in
  match d with
  | None => Ok None
  | Some bytes =>
      if zlen bytes <? MAX_KEY_LEN + v_size then Ok None
      else
        let? k := exec_map_err (fun e : Empty_set => match e with end)
                    (key_deserialize (slice bytes 0 MAX_KEY_LEN)) in
        Ok (Some k)
  end.

(** [get_row_id] of a leaf, [get_child_page_id] of an internal node. *)
Definition get_value (p : SlottedPageRef) (index : Z) : exec BtError (option V) :=
  let? d := bounded_slot_data p index in
  match d with
  | None => Ok None
  | Some bytes =>
      if zlen bytes <? MAX_KEY_LEN + v_size then Ok None
      else
        let? v := exec_map_err (fun e : Empty_set => match e with end)
                    (v_dec (slice bytes MAX_KEY_LEN (zlen bytes))) in
        Ok (Some v)
  end.

(** The [filter_map] over the slots that every rebuilding operation starts
    with. *)
Fixpoint entries_from (p : SlottedPageRef) (n : nat) (i : Z) : exec BtError (list (Key * V)) :=
  match n with
  | O => Ok []
  | S n =>
      let? k := get_key p i in
      let? v := get_value p i in
      let? rest := entries_from p n (i + 1) in
      Ok (match k, v with Some k, Some v => (k, v) :: rest | _, _ => rest end)
  end.

Definition node_entries (p : SlottedPageRef) : exec BtError (list (Key * V)) :=
  entries_from p (Z.to_nat (key_count p)) 0.

(** The slot of an entry: the key padded to 32 bytes, then the value. *)
Definition entry_bytes (k : Key) (v : V) : list byte := key_data k ++ v_enc v.

(** [insert_simple] and [insert_separator_simple]. *)
Definition insert_simple (p : SlottedPage) (k : Key) (v : V) : exec BtError SlottedPage :=
  if free_space p <? SLOT_SIZE + (MAX_KEY_LEN + v_size) then Err BtPageFull
  else
    match add_slot p (entry_bytes k v) with
    | Ok (p, _) => Ok p
    | Err e => Err (PageWrite e)
    | Panic => Panic
    end.

Fixpoint insert_all (p : SlottedPage) (es : list (Key * V)) : exec BtError SlottedPage :=
  match es with
  | [] => Ok p
  | (k, v) :: es => let? p := insert_simple p k v in insert_all p es
  end.

(** The two [from_page]: the page with its header, refused when it is of
    another type. *)
Definition from_page (d : list byte) : exec BtError SlottedPage :=
  let? p := sp_new d in
  if bool_decide (page_type (page_header p) = v_type) then Ok p
  else Err (InvalidPageType v_type (page_type (page_header p))).

Definition node_init (d : list byte) : exec BtError SlottedPage := sp_init d v_type.

(** Stable sorting by key ([sort_by] on the keys). *)
Fixpoint sort_insert (e : Key * V) (l : list (Key * V)) : list (Key * V) :=
  match l with
  | [] => [e]
  | x :: l' => match key_cmp e.1 x.1 with Gt => x :: sort_insert e l' | _ => e :: l end
  end.

Definition sort_by_key (l : list (Key * V)) : list (Key * V) := foldr sort_insert [] l.

End node.

(** [copy_from_slice] of bytes 5..9 and [reload_header], as the leaf rebuild
    and [set_leftmost_child] do it. *)
Definition patch_next (p : SlottedPage) (next : Z) : exec BtError SlottedPage :=
  let? d := splice_set (page p) 5 (le_bytes 4 next) in
  sp_new d.

(** [set_next_leaf_page_id]: the header rewritten as a whole. *)
Definition set_next_leaf_page_id (p : SlottedPage) (next : Z) : exec BtError SlottedPage :=
  let h := page_header p in
  let h' := mk_header (page_type h) (slot_count h) (free_space_offset h) next
              (next_logical_id h) (padding h) in
  let? d := write_header (page p) h' in
  sp_new d.

(** ** Leaf nodes *)

Definition LeafEntries : Type := list (Key * RowId).

Fixpoint find_ge_from (p : SlottedPageRef) (key : Key) (n : nat) (i : Z) : exec BtError Z :=
  match n with
  | O => Ok i
  | S n =>
      let? k := get_key (V:=RowId) p i in
      match k with
      | Some k => match key_cmp k key with Lt => find_ge_from p key n (i + 1) | _ => Ok i end
      | None => find_ge_from p key n (i + 1)
      end
  end.

Definition leaf_find_key_position (p : SlottedPage) (key : Key) : exec BtError Z :=
  find_ge_from (sp_view p) key (Z.to_nat (key_count (sp_view p))) 0.

(** A fresh page filled with the entries. *)
Definition leaf_build (es : LeafEntries) : exec BtError SlottedPage :=
  let? p := node_init (V:=RowId) page_zeroed in insert_all p es.

Definition shift_slots_right (p : SlottedPage) : exec BtError SlottedPage :=
  let? es := node_entries (V:=RowId) (sp_view p) in
  let old_next := next_page_id (page_header p) in
  let? q := leaf_build (sort_by_key es) in
  patch_next q old_next.

Definition leaf_insert (p : SlottedPage) (key : Key) (row_id : RowId)
    : exec BtError (SlottedPage * Z) :=
  let? position := leaf_find_key_position p key in
  if free_space p <? SLOT_SIZE + (MAX_KEY_LEN + 6) then Err BtPageFull
  else
    let slot_index := key_count (sp_view p) in
    match add_slot p (entry_bytes key row_id) with
    | Err e => Err (PageWrite e)
    | Panic => Panic
    | Ok (p, _) =>
        if slot_index =? position then Ok (p, position)
        else let? p := shift_slots_right p in Ok (p, position)
    end.

(** [LeafNode::delete_slot] and [InternalNode::remove_separator]. *)
Definition node_delete_slot (p : SlottedPage) (index : Z) : exec BtError SlottedPage :=
  let? p := exec_map_err PageWrite (delete_slot p index) in
  sync_header p.

Definition leaf_delete (p : SlottedPage) (key : Key) : exec BtError SlottedPage :=
  let? position := leaf_find_key_position p key in
  if key_count (sp_view p) <=? position then Err KeyNotFound
  else
    let? k := get_key (V:=RowId) (sp_view p) position in
    match k with
    | Some k => if key_eqb k key then node_delete_slot p position else Err KeyNotFound
    | None => Err KeyNotFound
    end.

(** The rebuilt page replaces the bytes; its header is the initial one, with
    no next leaf. *)
Definition leaf_update (p : SlottedPage) (key : Key) (new_row_id : RowId)
    : exec BtError SlottedPage :=
  let? position := leaf_find_key_position p key in
  if key_count (sp_view p) <=? position then Err KeyNotFound
  else
    let? k := get_key (V:=RowId) (sp_view p) position in
    match k with
    | Some k =>
        if key_eqb k key then
          let? es := node_entries (V:=RowId) (sp_view p) in
          leaf_build ((fun e => if key_eqb e.1 key then (e.1, new_row_id) else e) <$> es)
        else Err KeyNotFound
    | None => Err KeyNotFound
    end.

Record LeafSplitData := mk_leaf_split {
  l_middle_key : Key; right_entries : LeafEntries; old_next_page_id : Z; l_new_page_id : Z }.

Definition leaf_split (p : SlottedPage) (new_page_id : Z)
    : exec BtError (SlottedPage * LeafSplitData) :=
  let? es := node_entries (V:=RowId) (sp_view p) in
  let sorted := sort_by_key es in
  let mid := (length sorted / 2)%nat in
  match drop mid sorted with
  | [] => Err SplitEmptyNode
  | (k, r) :: rest =>
      let old_next := next_page_id (page_header p) in
      let? q := leaf_build (take mid sorted) in
      Ok (q, mk_leaf_split k ((k, r) :: rest) old_next new_page_id)
  end.

(** *** The read-only view *)

Fixpoint matches_from (p : SlottedPageRef) (key : Key) (n : nat) (i : Z) : exec BtError (list Z) :=
  match n with
  | O => Ok []
  | S n =>
      let? k := get_key (V:=RowId) p i in
      let? rest := matches_from p key n (i + 1) in
      Ok (match k with
          | Some k => if key_eqb k key then i :: rest else rest
          | None => rest
          end)
  end.

Definition find_all_matches (p : SlottedPageRef) (key : Key) : exec BtError (list Z) :=
  matches_from p key (Z.to_nat (key_count p)) 0.

Fixpoint position_from (p : SlottedPageRef) (key : Key) (n : nat) (i : Z) : exec BtError (bool * Z) :=
  match n with
  | O => Ok (false, i)
  | S n =>
      let? k := get_key (V:=RowId) p i in
      match k with
      | Some k =>
          if key_eqb k key then Ok (true, i)
          else match key_cmp k key with Gt => Ok (false, i) | _ => position_from p key n (i + 1) end
      | None => position_from p key n (i + 1)
      end
  end.

Definition find_key_position (p : SlottedPageRef) (key : Key) : exec BtError (bool * Z) :=
  position_from p key (Z.to_nat (key_count p)) 0.

(** The halving loop of the binary searches: where it stops and whether on an
    equal key.  The interval [lo, hi) shrinks in every round, so [hi - lo]
    rounds end with [hi <= lo], the loop's exit. *)
Fixpoint halve {V} `{NodeCodec V} (p : SlottedPageRef) (key : Key) (n : nat) (lo hi : Z)
    : exec BtError (bool * Z) :=
  match n with
  | O => Ok (false, lo)
  | S n =>
      if lo <? hi then
        let mid := lo + (hi - lo) / 2 in
        let? k := get_key p mid in
        match k with
        | Some k =>
            match key_cmp k key with
            | Lt => halve p key n (mid + 1) hi
            | Gt => halve p key n lo mid
            | Eq => Ok (true, mid)
            end
        | None => halve p key n lo mid
        end
      else Ok (false, lo)
  end.

Definition find_key_position_binary (p : SlottedPageRef) (key : Key) : exec BtError (bool * Z) :=
  halve (V:=RowId) p key (Z.to_nat (key_count p)) 0 (key_count p).

(** *** Merging and borrowing *)

Definition leaf_can_merge_with (p sibling : SlottedPage) : bool :=
  HEADER_SIZE + (key_count (sp_view p) + key_count (sp_view sibling))
                * ((MAX_KEY_LEN + 6) + SLOT_SIZE) <=? PAGE_SIZE.

Record LeafMergeResult := mk_leaf_merge { lm_freed_page_id : Z; lm_separator_key : Key }.

Definition leaf_merge_right (p sibling : SlottedPage) (sibling_page_id : Z)
    : exec BtError (SlottedPage * LeafMergeResult) :=
  let? es := node_entries (V:=RowId) (sp_view p) in
  let? rs := node_entries (V:=RowId) (sp_view sibling) in
  match rs with
  | [] => Err RightSiblingEmpty
  | (k, _) :: _ =>
      if negb (leaf_can_merge_with p sibling) then Err MergeExceedsCapacity
      else
        let? q := leaf_build (sort_by_key (es ++ rs)) in
        let? q := set_next_leaf_page_id q (next_page_id (page_header sibling)) in
        Ok (q, mk_leaf_merge sibling_page_id k)
  end.

(** Both pages are rebuilt; the [usize] subtraction panics on a right sibling
    with fewer entries. *)
Definition leaf_redistribute_right (p sibling : SlottedPage)
    : exec BtError (SlottedPage * SlottedPage * Key) :=
  let n := key_count (sp_view p) in
  let m := key_count (sp_view sibling) in
  if m <? n then Panic
  else
    let moves := (m - n) / 2 in
    if moves =? 0 then Err NothingToMove
    else
      let? es := node_entries (V:=RowId) (sp_view p) in
      let? rs := node_entries (V:=RowId) (sp_view sibling) in
      let all := sort_by_key (es ++ rs) in
      let self_count := n + moves in
      if zlen all <? self_count then Panic
      else
        let right_share := drop (Z.to_nat self_count) all in
        match right_share with
        | [] => Err NothingToMove
        | (k, _) :: _ =>
            let? q := leaf_build (take (Z.to_nat self_count) all) in
            let? q' := leaf_build right_share in
            Ok (q, q', k)
        end.

(** ** Internal nodes *)

Definition InternalSeps : Type := list (Key * Z).

Definition set_leftmost_child (p : SlottedPage) (child : Z) : exec BtError SlottedPage :=
  patch_next p child.

Definition leftmost_child (p : SlottedPageRef) : Z := next_page_id (header p).

(** [get_child_page_id(i).unwrap_or(leftmost)]. *)
Definition child_or_leftmost (p : SlottedPageRef) (i : Z) : exec BtError Z :=
  let? c := get_value (V:=Z) p i in Ok (default (leftmost_child p) c).

(** The linear [find_child_page_id] of the writable node and of the read-only
    view; the latter answers [None] where the former falls back to the
    leftmost child. *)
Fixpoint child_from (p : SlottedPageRef) (key : Key) (n : nat) (i : Z) : exec BtError (option Z) :=
  match n with
  | O => if 0 <? i then get_value p (i - 1) else Ok (Some (leftmost_child p))
  | S n =>
      let? k := get_key (V:=Z) p i in
      match k with
      | Some k =>
          match key_cmp key k with
          | Lt => if i =? 0 then Ok (Some (leftmost_child p)) else get_value p (i - 1)
          | Eq => get_value p i
          | Gt => child_from p key n (i + 1)
          end
      | None => child_from p key n (i + 1)
      end
  end.

Definition find_child_page_id (p : SlottedPageRef) (key : Key) : exec BtError (option Z) :=
  child_from p key (Z.to_nat (key_count p)) 0.

Definition find_child_page_id_mut (p : SlottedPage) (key : Key) : exec BtError Z :=
  let? c := find_child_page_id (sp_view p) key in
  Ok (default (leftmost_child (sp_view p)) c).

Definition find_child_page_id_binary (p : SlottedPageRef) (key : Key) : exec BtError Z :=
  let? (found, lo) := halve (V:=Z) p key (Z.to_nat (key_count p)) 0 (key_count p) in
  if (found : bool) then child_or_leftmost p lo
  else if lo =? 0 then Ok (leftmost_child p)
  else child_or_leftmost p (lo - 1).

(** [find_child_position] of [btree.rs]: the child with its index among the
    node's children. *)
Definition find_child_position (p : SlottedPageRef) (key : Key) : exec BtError (Z * Z) :=
  if key_count p =? 0 then Ok (leftmost_child p, 0)
  else
    let? (found, lo) := halve (V:=Z) p key (Z.to_nat (key_count p)) 0 (key_count p) in
    if (found : bool) then let? c := child_or_leftmost p lo in Ok (c, lo + 1)
    else if lo =? 0 then Ok (leftmost_child p, 0)
    else let? c := child_or_leftmost p (lo - 1) in Ok (c, lo).

(** The two bounds of [equality_candidate_children]. *)
Fixpoint lower_bound (p : SlottedPageRef) (key : Key) (n : nat) (lo hi : Z) : exec BtError Z :=
  match n with
  | O => Ok lo
  | S n =>
      if lo <? hi then
        let mid := lo + (hi - lo) / 2 in
        let? k := get_key (V:=Z) p mid in
        match (fun k => key_cmp k key) <$> k with
        | Some Lt => lower_bound p key n (mid + 1) hi
        | _ => lower_bound p key n lo mid
        end
      else Ok lo
  end.

Fixpoint last_le (p : SlottedPageRef) (key : Key) (n : nat) (lo hi : Z) : exec BtError Z :=
  match n with
  | O => Ok hi
  | S n =>
      if lo <=? hi then
        let mid := lo + (hi - lo) / 2 in
        let? k := get_key (V:=Z) p mid in
        match (fun k => key_cmp k key) <$> k with
        | Some Gt => last_le p key n lo (mid - 1)
        | _ => last_le p key n (mid + 1) hi
        end
      else Ok hi
  end.

Fixpoint children_range (p : SlottedPageRef) (n : nat) (j : Z) : exec BtError (list Z) :=
  match n with
  | O => Ok []
  | S n =>
      let? c := if j =? 0 then Ok (leftmost_child p) else child_or_leftmost p (j - 1) in
      let? rest := children_range p n (j + 1) in
      Ok (c :: rest)
  end.

Definition equality_candidate_children (p : SlottedPageRef) (key : Key) : exec BtError (list Z) :=
  let count := key_count p in
  let? lo := lower_bound p key (Z.to_nat count) 0 count in
  let? hi := last_le p key (Z.to_nat count) 0 (count - 1) in
  let j_max := Z.min count (hi + 1) in
  children_range p (Z.to_nat (j_max + 1 - lo)) lo.

Fixpoint child_index_from (p : SlottedPageRef) (child : Z) (n : nat) (i : Z) : exec BtError Z :=
  match n with
  | O => Err (NotAChild child)
  | S n =>
      let? c := get_value (V:=Z) p i in
      if bool_decide (c = Some child) then Ok (i + 1) else child_index_from p child n (i + 1)
  end.

Definition separator_index_after_child (p : SlottedPageRef) (left_sibling : Z) : exec BtError Z :=
  if leftmost_child p =? left_sibling then Ok 0
  else child_index_from p left_sibling (Z.to_nat (key_count p)) 0.

(** A fresh internal page with its leftmost child and its separators. *)
Definition internal_build (leftmost : Z) (seps : InternalSeps) : exec BtError SlottedPage :=
  let? p := node_init (V:=Z) page_zeroed in
  let? p := patch_next p leftmost in
  insert_all p seps.

(** [Vec::remove] and [Vec::insert]. *)
Definition splice_entry {A} (position from : nat) (l : list A) (e : A) : list A :=
  let rest := delete from l in
  let at_ := if (from <? position)%nat then (position - 1)%nat else position in
  take at_ rest ++ e :: drop at_ rest.

Definition splice_separator (p : SlottedPage) (position from : Z) : exec BtError SlottedPage :=
  let? es := node_entries (V:=Z) (sp_view p) in
  if (zlen es <=? from) || (zlen es <? position) then Err SpliceOutOfRange
  else
    match es !! Z.to_nat from with
    | None => Panic
    | Some e =>
        internal_build (next_page_id (page_header p))
          (splice_entry (Z.to_nat position) (Z.to_nat from) es e)
    end.

Definition insert_separator (p : SlottedPage) (key : Key) (right_child left_sibling : Z)
    : exec BtError (SlottedPage * Z) :=
  let? position := separator_index_after_child (sp_view p) (wrap32 left_sibling) in
  if free_space p <? SLOT_SIZE + (MAX_KEY_LEN + 4) then Err BtPageFull
  else
    let slot_index := key_count (sp_view p) in
    match add_slot p (entry_bytes key (wrap32 right_child)) with
    | Err e => Err (PageWrite e)
    | Panic => Panic
    | Ok (p, _) =>
        if slot_index =? position then Ok (p, position)
        else let? p := splice_separator p position slot_index in Ok (p, position)
    end.

Definition replace_separator (p : SlottedPage) (index : Z) (key : Key) (right_child : Z)
    : exec BtError SlottedPage :=
  let? slot := sp_get_slot p index in
  match slot with
  | None => Err (SeparatorOutOfRange index)
  | Some slot =>
      exec_map_err PageWrite
        (update_slot_in_place p (logical_id slot) (entry_bytes key (wrap32 right_child)))
  end.

Record InternalSplitData := mk_internal_split {
  i_middle_key : Key; new_leftmost_child : Z; right_separators : InternalSeps;
  i_new_page_id : Z }.

Definition internal_split (p : SlottedPage) (new_page_id : Z)
    : exec BtError (SlottedPage * InternalSplitData) :=
  let? seps := node_entries (V:=Z) (sp_view p) in
  let mid := (length seps / 2)%nat in
  match drop mid seps with
  | [] => Err SplitEmptyNode
  | (k, c) :: rest =>
      let? q := internal_build (next_page_id (page_header p)) (take mid seps) in
      Ok (q, mk_internal_split k c rest new_page_id)
  end.

Definition internal_merge_right (p sibling : SlottedPage) (parent_separator : Key)
    (sibling_page_id : Z) : exec BtError (SlottedPage * LeafMergeResult) :=
  let? es := node_entries (V:=Z) (sp_view p) in
  let? rs := node_entries (V:=Z) (sp_view sibling) in
  let all := es ++ (parent_separator, next_page_id (page_header sibling)) :: rs in
  let? q := internal_build (next_page_id (page_header p)) all in
  Ok (q, mk_leaf_merge sibling_page_id parent_separator).

Definition internal_can_merge_with (p sibling : SlottedPage) : bool :=
  (key_count (sp_view p) + 1 + key_count (sp_view sibling))
    * (SLOT_SIZE + (MAX_KEY_LEN + 4)) <=? zlen (page p).

(** ** The check of an index page *)

Inductive Violation :=
| ShorterThanHeader
| SlotCountExceedsCapacity (n : Z)
| FreeOffsetOutside (fso : Z)
| SlotRange (i start end_ : Z)
| EntryTooShort (i len : Z).

Record TreePageCheck := mk_check {
  children : list Z; invalid_type : option byte; violations : list Violation }.

(** The slots of [validate_slots] with the violations found, in order. *)
Fixpoint slots_checked (p : SlottedPageRef) (slot_area_start : Z) (n : nat) (i : Z)
    : exec BtError (list (Z * Z * Z) * list Violation) :=
  match n with
  | O => Ok ([], [])
  | S n =>
      let? slot := get_slot p i in
      match slot with
      | None => Ok ([], [])
      | Some slot =>
          let start := offset slot in
          let end_ := start + length_ slot in
          let? (ss, vs) := slots_checked p slot_area_start n (i + 1) in
          if (start <? HEADER_SIZE) || (slot_area_start <? end_)
          then Ok (ss, SlotRange i start end_ :: vs)
          else Ok ((i, start, end_) :: ss, vs)
      end
  end.

Definition validate_slots (d : list byte) (h : SlottedPageHeader)
    : exec BtError (option (list (Z * Z * Z)) * list Violation) :=
  let slot_area_start := sat_sub PAGE_SIZE (slot_count h * SLOT_SIZE) in
  if slot_area_start <? HEADER_SIZE then Ok (None, [SlotCountExceedsCapacity (slot_count h)])
  else
    let fso := free_space_offset h in
    let v0 := if (fso <? HEADER_SIZE) || (slot_area_start <? fso) then [FreeOffsetOutside fso] else [] in
    let? p := ref_new d in
    let? (ss, vs) := slots_checked p slot_area_start (Z.to_nat (slot_count h)) 0 in
    Ok (Some ss, v0 ++ vs).

Fixpoint short_entries (need : Z) (ss : list (Z * Z * Z)) : list Violation :=
  match ss with
  | [] => []
  | (i, start, end_) :: ss =>
      (if end_ - start <? need then [EntryTooShort i (end_ - start)] else [])
      ++ short_entries need ss
  end.

(** The children of the internal entries that are long enough. *)
Fixpoint entry_children (d : list byte) (need : Z) (ss : list (Z * Z * Z)) : exec BtError (list Z) :=
  match ss with
  | [] => Ok []
  | (i, start, end_) :: ss =>
      if end_ - start <? need then entry_children d need ss
      else
        let? w := slice_get d (start + MAX_KEY_LEN) (start + MAX_KEY_LEN + 4) in
        let? cs := entry_children d need ss in
        Ok (le_val w :: cs)
  end.

Definition check_tree_page (d : list byte) : exec BtError TreePageCheck :=
  if zlen d <? HEADER_SIZE then Ok (mk_check [] None [ShorterThanHeader])
  else
    let? hb := slice_get d 0 HEADER_SIZE in
    let? h := header_deserialize hb in
    let chained := if 0 <? next_page_id h then [next_page_id h] else [] in
    if bool_decide (page_type h = LEAF_NODE) then
      let? (ss, vs) := validate_slots d h in
      Ok (mk_check chained None (vs ++ short_entries (MAX_KEY_LEN + 6) (default [] ss)))
    else if bool_decide (page_type h = INTERNAL_NODE) then
      let? (ss, vs) := validate_slots d h in
      let? cs := entry_children d (MAX_KEY_LEN + 4) (default [] ss) in
      Ok (mk_check (cs ++ chained) None (vs ++ short_entries (MAX_KEY_LEN + 4) (default [] ss)))
    else Ok (mk_check [] (Some (page_type h)) []).

Definition ensure_index_page_intact (d : list byte) (page_id index_root : Z) : exec BtError unit :=
  let? c := check_tree_page d in
  match invalid_type c with
  | Some actual => Err (InvalidPageType LEAF_NODE actual)
  | None =>
      match violations c with
      | [] => Ok tt
      | _ => Err (CorruptedIndexPage page_id index_root)
      end
  end.

(** ** What a node holds *)

Definition key_of (kd : list byte) : Key := {| key_data := kd; key_len := significant_len kd |}.
Definition kz (kd : list byte) : Z := be_val kd.

Section node_ok.
Context {V : Type} `{NodeCodec V}.

Definition entry_of (e : list byte * V) : Key * V := (key_of e.1, e.2).

(** The page holds the entries in this order and this link.  The data area
    holds one entry per logical id ever given, so the ids cannot run out. *)
Record node_ok (p : SlottedPage) (es : list (list byte * V)) (link : Z) : Prop := {
  n_wf : page_wf p;
  n_type : page_type (page_header p) = v_type;
  n_link : next_page_id (page_header p) = link;
  n_link_u32 : in_u32 link;
  n_data : snd <$> entries p = (fun e => e.1 ++ v_enc e.2) <$> es;
  n_es : Forall (fun e => zlen e.1 = 32 /\ v_wf e.2) es;
  n_ids : free_space_offset (page_header p) = 16 + (32 + v_size) * next_logical_id (page_header p) }.

(** No slot of the page was ever deleted. *)
Definition dense (p : SlottedPage) : Prop :=
  next_logical_id (page_header p) = slot_count (page_header p).

Lemma node_count p es link : node_ok p es link -> slot_count (page_header p) = zlen es.
Proof.
  intros N. rewrite <- (zlen_entries p (n_wf _ _ _ N)).
  pose proof (f_equal length (n_data _ _ _ N)) as E. rewrite !length_fmap in E. unfold zlen. lia.
Qed.

Lemma node_free p es link :
  node_ok p es link ->
  free_space p = 4080 - 6 * zlen es - (32 + v_size) * next_logical_id (page_header p)
  /\ zlen es <= next_logical_id (page_header p) < 128.
Proof.
  intros N. pose proof (n_wf _ _ _ N) as W. rewrite (wf_free_space p W), (node_count _ _ _ N), (n_ids _ _ _ N).
  pose proof (v_fits (V:=V)). pose proof (wf_fit p W) as F. rewrite (n_ids _ _ _ N) in F.
  pose proof (wf_slot_count p W). split; [lia|]. split; [|nia].
  rewrite <- (node_count _ _ _ N), <- (zlen_entries p W).
  (* distinct ids below the counter *)
  pose proof (wf_nodup p W) as ND. pose proof (wf_lids p W) as L.
  rewrite Forall_forall in L. unfold zlen, entries. rewrite length_fmap.
  rewrite <- (length_fmap logical_id (slots p)).
  assert (length (logical_id <$> slots p) <= length (seqZ 0 (next_logical_id (page_header p))))%nat as X.
  { apply submseteq_length, NoDup_submseteq; [done|]. intros x Hx.
    apply list_elem_of_fmap in Hx as (s & -> & Hs). apply elem_of_seqZ.
    specialize (L s Hs). destruct (slot_nonneg p s W Hs). lia. }
  rewrite length_seqZ in X. destruct (wf_header_wf p W). word_lia.
Qed.

Lemma node_payload p es link i e :
  node_ok p es link -> es !! i = Some e ->
  exists s, slots p !! i = Some s /\ payload (page p) s = e.1 ++ v_enc e.2.
Proof.
  intros N Hi. assert ((snd <$> entries p) !! i = Some (e.1 ++ v_enc e.2)) as X.
  { by rewrite (n_data _ _ _ N), list_lookup_fmap, Hi. }
  unfold entries in X. rewrite !list_lookup_fmap in X.
  destruct (slots p !! i) as [s|]; [|done]. exists s. by injection X as X.
Qed.

Lemma bounded_read p es link i e :
  node_ok p es link -> es !! Z.to_nat i = Some e -> 0 <= i ->
  bounded_slot_data (sp_view p) i = Ok (Some (e.1 ++ v_enc e.2)).
Proof.
  intros N Hi H0. pose proof (n_wf _ _ _ N) as W. pose proof (node_count _ _ _ N) as C.
  pose proof (wf_slot_count p W) as SC. apply lookup_lt_Some in Hi as HL.
  assert (i < slot_count (page_header p)) as HI by (rewrite C; unfold zlen; lia).
  destruct (node_payload _ _ _ _ _ N Hi) as (s & Hs & Hp).
  unfold slots in Hs. rewrite lookup_slots_of in Hs by lia. injection Hs as Hs.
  rewrite Z2Nat.id in Hs by lia.
  unfold bounded_slot_data. rewrite (proj2 (Z.leb_gt _ _)) by (vm_compute (MAX_PAGE_SLOTS); lia).
  rewrite get_slot_ok; [|cbn; rewrite ?(wf_len p W); lia..]. rewrite exec_bind_ret.
  cbn [sp_view data header]. rewrite Hs.
  assert (s ∈ slots p) as Hin.
  { apply list_elem_of_lookup. exists (Z.to_nat i). unfold slots. rewrite lookup_slots_of by lia.
    by rewrite Z2Nat.id, Hs by lia. }
  destruct (slot_nonneg p s W Hin). pose proof (wf_slots p W) as F. rewrite Forall_forall in F.
  destruct (F s Hin). pose proof (wf_fit p W). pose proof (wf_len p W).
  unfold slot_payload_in_bounds, sat_sub. page_consts. rewrite !(proj2 (Z.leb_le _ _)) by lia.
  cbn [andb]. unfold get_slot_data. cbn [sp_view data]. rewrite slice_get_ok by lia.
  rewrite exec_bind_ret. unfold payload in Hp. by rewrite Hp.
Qed.

Lemma bounded_none p es link i :
  node_ok p es link -> zlen es <= i -> bounded_slot_data (sp_view p) i = Ok None.
Proof.
  intros N Hi. unfold bounded_slot_data. case_match; [done|].
  rewrite get_slot_none; [done|]. cbn. by rewrite (node_count _ _ _ N).
Qed.

Lemma node_key p es link i :
  node_ok p es link -> 0 <= i ->
  get_key (V:=V) (sp_view p) i = Ok ((fun e => key_of e.1) <$> es !! Z.to_nat i).
Proof.
  intros N H0. unfold get_key. destruct (es !! Z.to_nat i) as [e|] eqn:Hi.
  - rewrite (bounded_read _ _ _ _ _ N Hi H0), exec_bind_ret.
    pose proof (n_es _ _ _ N) as F. rewrite Forall_forall in F.
    destruct (F e) as [L _]; [by eapply list_elem_of_lookup_2|].
    rewrite zlen_app, v_enc_len, L. change MAX_KEY_LEN with 32.
    rewrite (proj2 (Z.ltb_ge _ _)) by lia. rewrite slice_app_l by lia. rewrite slice_full by done.
    unfold key_deserialize. change MAX_KEY_LEN with 32. rewrite L. cbn [Z.ltb Z.compare exec_map_err].
    by rewrite slice_full.
  - rewrite (bounded_none _ _ _ _ N); [done|]. apply lookup_ge_None in Hi. unfold zlen. lia.
Qed.

Lemma node_value p es link i :
  node_ok p es link -> 0 <= i ->
  get_value (sp_view p) i = Ok (snd <$> es !! Z.to_nat i).
Proof.
  intros N H0. unfold get_value. destruct (es !! Z.to_nat i) as [e|] eqn:Hi.
  - rewrite (bounded_read _ _ _ _ _ N Hi H0), exec_bind_ret.
    pose proof (n_es _ _ _ N) as F. rewrite Forall_forall in F.
    destruct (F e) as [L Wv]; [by eapply list_elem_of_lookup_2|].
    rewrite zlen_app, v_enc_len, L. change MAX_KEY_LEN with 32.
    rewrite (proj2 (Z.ltb_ge _ _)) by lia.
    assert (slice (e.1 ++ v_enc e.2) 32 (32 + v_size) = v_enc e.2) as ->.
    { rewrite slice_app_r by lia. rewrite L. apply slice_full. rewrite v_enc_len. lia. }
    rewrite (v_dec_enc _ Wv). done.
  - rewrite (bounded_none _ _ _ _ N); [done|]. apply lookup_ge_None in Hi. unfold zlen. lia.
Qed.

Lemma entries_from_ok p es link n i :
  node_ok p es link -> 0 <= i -> (Z.to_nat i + n = length es)%nat ->
  entries_from (V:=V) (sp_view p) n i = Ok (entry_of <$> drop (Z.to_nat i) es).
Proof.
  intros N. revert i. induction n as [|n IH]; intros i H0 HL.
  - cbn. by rewrite drop_ge by lia.
  - cbn [entries_from]. rewrite (node_key _ _ _ _ N), (node_value _ _ _ _ N) by done.
    destruct (es !! Z.to_nat i) as [e|] eqn:Hi; [|apply lookup_ge_None in Hi; lia].
    cbn [fmap option_fmap option_map]. rewrite !exec_bind_ret, IH by lia. rewrite exec_bind_ret.
    rewrite (drop_S es e (Z.to_nat i)) by done. cbn [fmap list_fmap]. do 3 f_equal. f_equal. lia.
Qed.

Lemma node_entries_ok p es link :
  node_ok p es link -> node_entries (V:=V) (sp_view p) = Ok (entry_of <$> es).
Proof.
  intros N. unfold node_entries, key_count. cbn [sp_view header]. rewrite (node_count _ _ _ N).
  rewrite (entries_from_ok _ _ _ _ _ N); [by rewrite drop_0|lia|unfold zlen; lia].
Qed.

(** *** Changing a node *)

Lemma add_entry p es link e :
  node_ok p es link -> zlen e.1 = 32 -> v_wf e.2 -> 38 + v_size <= free_space p ->
  exists p' i, add_slot p (e.1 ++ v_enc e.2) = Ok (p', i)
    /\ node_ok p' (es ++ [e]) link /\ (dense p -> dense p')
    /\ free_space p' = free_space p - (38 + v_size).
Proof.
  intros N L Wv R. pose proof (n_wf _ _ _ N) as W. destruct (node_free _ _ _ N) as [_ [_ B]].
  assert (zlen (e.1 ++ v_enc e.2) = 32 + v_size) as Z by (rewrite zlen_app, v_enc_len; lia).
  destruct (add_slot_room p (e.1 ++ v_enc e.2) W) as (p' & E & W' & A & T & K); [lia..|].
  exists p', (next_logical_id (page_header p), slot_count (page_header p)). split; [done|].
  pose proof (f_equal a_entries A) as AE. pose proof (f_equal a_next A) as AN.
  pose proof (f_equal a_free A) as AF. cbn [abs a_entries a_next a_free] in AE, AN, AF.
  assert (slot_count (page_header p') = slot_count (page_header p) + 1) as SC.
  { rewrite <- !zlen_entries, AE by done. unfold zlen. rewrite length_app. cbn. lia. }
  rewrite Z in AF. pose proof AF as AF2. rewrite !wf_free_space in AF2 by done.
  split; [split|].
  - done.
  - by rewrite T, (n_type _ _ _ N).
  - by rewrite K, (n_link _ _ _ N).
  - apply (n_link_u32 _ _ _ N).
  - by rewrite AE, !fmap_app, (n_data _ _ _ N).
  - apply Forall_app; split; [apply (n_es _ _ _ N)|by repeat constructor].
  - rewrite AN. pose proof (n_ids _ _ _ N). lia.
  - split; [unfold dense; lia|lia].
Qed.

Lemma insert_simple_ok p es link k v :
  node_ok p es link -> zlen (key_data k) = 32 -> v_wf v -> 38 + v_size <= free_space p ->
  exists p', insert_simple p k v = Ok p' /\ node_ok p' (es ++ [(key_data k, v)]) link
    /\ (dense p -> dense p') /\ free_space p' = free_space p - (38 + v_size).
Proof.
  intros N L Wv R. unfold insert_simple. change MAX_KEY_LEN with 32. page_consts.
  rewrite (proj2 (Z.ltb_ge _ _)) by lia.
  destruct (add_entry p es link (key_data k, v) N L Wv R) as (p' & i & E & ?).
  unfold entry_bytes. cbn [fst snd] in E. rewrite E. destruct i. by exists p'.
Qed.

Lemma insert_all_ok new : forall p es link,
  node_ok p es link -> Forall (fun e => zlen e.1 = 32 /\ v_wf e.2) new ->
  (38 + v_size) * zlen new <= free_space p ->
  exists p', insert_all p (entry_of <$> new) = Ok p' /\ node_ok p' (es ++ new) link
    /\ (dense p -> dense p') /\ free_space p' = free_space p - (38 + v_size) * zlen new.
Proof.
  induction new as [|e new IH]; intros p es link N F R.
  - exists p. rewrite app_nil_r. split_and!; try done. change (zlen []) with 0. lia.
  - apply Forall_cons in F as [[L Wv] F]. pose proof (v_fits (V:=V)).
    pose proof (zlen_nonneg new). assert (zlen (e :: new) = zlen new + 1) as Z by (unfold zlen; cbn; lia).
    rewrite Z in *.
    destruct (insert_simple_ok p es link (key_of e.1) e.2 N) as (p1 & E1 & N1 & D1 & F1); [done..|nia|].
    destruct (IH p1 (es ++ [e]) link) as (p2 & E2 & N2 & D2 & F2); [by destruct e|done|rewrite F1; nia|].
    exists p2. cbn [fmap list_fmap]. unfold entry_of at 1. cbn [insert_all]. rewrite E1, exec_bind_ret.
    rewrite <- app_assoc in N2. split_and!; [done|done|auto|nia].
Qed.

Lemma node_init_ok d :
  zlen d = 4096 ->
  exists p, node_init d = Ok p /\ node_ok p [] 0 /\ dense p /\ free_space p = 4080.
Proof.
  intros HZ. unfold node_init. rewrite sp_init_ok by done. eexists. split; [done|].
  destruct (sp_init_wf d v_type _ HZ (sp_init_ok _ _ HZ)) as [W E].
  split; [|split; [done|by rewrite wf_free_space]].
  split; cbn [page_header header_new page_type next_page_id free_space_offset next_logical_id];
    try done; change HEADER_SIZE with 16; lia.
Qed.

(** A page that differs from a node in the link only. *)
Lemma relink p es link n :
  node_ok p es link -> in_u32 n ->
  let q := raw_page (splice (page p) 5 (le_bytes 4 n)) in
  node_ok q es n /\ (dense p -> dense q) /\ free_space q = free_space p.
Proof.
  intros N Hn q. pose proof (n_wf _ _ _ N) as W. pose proof (wf_len p W) as HL.
  destruct (set_next_page (page p) n) as [W' E']; [by rewrite raw_of_wf|done|].
  fold q in W', E'. rewrite raw_of_wf in E' by done.
  assert (page_header q = mk_header (page_type (page_header p)) (slot_count (page_header p))
    (free_space_offset (page_header p)) n (next_logical_id (page_header p)) (padding (page_header p))) as HH.
  { rewrite <- (wf_header p W). unfold q, raw_page, header_at.
    cbn [page_header page_type slot_count free_space_offset next_logical_id padding].
    rewrite (slice_splice_same _ 5 (le_bytes 4 n) 9) by buf_lia.
    rewrite !slice_splice_before, !slice_splice_after by buf_lia. by rewrite le_val_u32. }
  split; [split|split].
  - done.
  - rewrite HH. apply (n_type _ _ _ N).
  - by rewrite HH.
  - done.
  - rewrite E'. apply (n_data _ _ _ N).
  - apply (n_es _ _ _ N).
  - rewrite HH. apply (n_ids _ _ _ N).
  - unfold dense. by rewrite HH.
  - rewrite !wf_free_space by done. by rewrite HH.
Qed.

Lemma patch_next_ok p es link n :
  node_ok p es link -> in_u32 n ->
  exists p', patch_next p n = Ok p' /\ node_ok p' es n /\ (dense p -> dense p')
    /\ free_space p' = free_space p.
Proof.
  intros N Hn. pose proof (wf_len p (n_wf _ _ _ N)) as HL.
  unfold patch_next. rewrite splice_set_ok by buf_lia. rewrite exec_bind_ret.
  rewrite raw_page_new by (rewrite zlen_splice; buf_lia). eexists. split; [done|].
  by apply (relink p es link n).
Qed.

Lemma header_relink d n :
  14 <= zlen d ->
  splice d 0 (header_bytes (mk_header (page_type (header_at d)) (slot_count (header_at d))
    (free_space_offset (header_at d)) n (next_logical_id (header_at d)) (padding (header_at d))))
  = splice d 5 (le_bytes 4 n).
Proof.
  intros HL. unfold header_bytes, header_at.
  cbn [page_type slot_count free_space_offset next_page_id next_logical_id padding].
  assert (forall a b k, 0 <= a -> b <= zlen d -> b = a + Z.of_nat k ->
            le_bytes k (le_val (slice d a b)) = slice d a b) as R.
  { intros a b k ? ? ->. rewrite <- (le_bytes_le_val (slice d a (a + Z.of_nat k))) at 2. f_equal.
    apply Nat2Z.inj. change (Z.of_nat (length ?l)) with (zlen l). rewrite zlen_slice; lia. }
  rewrite !R by lia.
  assert ([hd Byte.x00 (slice d 0 1)] = slice d 0 1) as ->.
  { destruct d as [|b d]; [rewrite zlen_nil in HL; lia|done]. }
  rewrite (app_assoc (slice d 1 3)), (app_assoc (slice d 0 1)).
  rewrite <- !slice_app_split by lia. rewrite splice_prefix.
  assert (length (slice d 0 5 ++ le_bytes 4 n ++ slice d 9 14) = 14%nat) as ->.
  { apply Nat2Z.inj. change (Z.of_nat (length ?l)) with (zlen l).
    rewrite !zlen_app, !zlen_slice by lia. buf_lia. }
  rewrite <- !app_assoc. unfold splice. f_equal. f_equal.
  replace (Z.to_nat (5 + zlen (le_bytes 4 n))) with 9%nat by (vm_compute; done).
  change (slice d 9 14) with (take 5 (drop 9 d)).
  rewrite <- (take_drop 5 (drop 9 d)) at 2. by rewrite drop_drop.
Qed.

Lemma header_rewrite d : 14 <= zlen d -> splice d 0 (header_bytes (header_at d)) = d.
Proof.
  intros HL. pose proof (header_relink d (next_page_id (header_at d)) HL) as R.
  etransitivity; [exact R|]. cbn [header_at next_page_id].
  assert (le_bytes 4 (le_val (slice d 5 9)) = slice d 5 9) as ->.
  { rewrite <- (le_bytes_le_val (slice d 5 9)) at 2. f_equal.
    apply Nat2Z.inj. change (Z.of_nat (length ?l)) with (zlen l). rewrite zlen_slice; lia. }
  unfold splice. rewrite zlen_slice by lia. change (slice d 5 9) with (take 4 (drop 5 d)).
  change (Z.to_nat (5 + (9 - 5))) with (5 + 4)%nat. change (Z.to_nat 5) with 5%nat.
  rewrite <- drop_drop, take_drop. apply take_drop.
Qed.

Lemma set_next_leaf_ok p es link n :
  node_ok p es link -> in_u32 n ->
  exists p', set_next_leaf_page_id p n = Ok p' /\ node_ok p' es n /\ (dense p -> dense p')
    /\ free_space p' = free_space p.
Proof.
  intros N Hn. pose proof (n_wf _ _ _ N) as W. pose proof (wf_len p W) as HL.
  unfold set_next_leaf_page_id.
  assert (header_wf (mk_header (page_type (page_header p)) (slot_count (page_header p))
    (free_space_offset (page_header p)) n (next_logical_id (page_header p)) (padding (page_header p)))) as HW.
  { destruct (wf_header_wf p W). by split. }
  rewrite write_header_ok by (done || lia). rewrite exec_bind_ret.
  rewrite <- (wf_header p W), header_relink by lia.
  rewrite raw_page_new by (rewrite zlen_splice; buf_lia). eexists. split; [done|].
  by apply (relink p es link n).
Qed.

Lemma node_delete_ok p es link i :
  node_ok p es link -> 0 <= i < zlen es ->
  exists p', node_delete_slot p i = Ok p' /\ node_ok p' (delete (Z.to_nat i) es) link.
Proof.
  intros N Hi. pose proof (n_wf _ _ _ N) as W. pose proof (node_count _ _ _ N) as C.
  rewrite <- C in Hi. destruct (delete_slot_ok p i W Hi) as (q & E & HL & HH & HA & _).
  destruct (delete_slot_wf p i q W Hi E) as [W' E'].
  exists q. split.
  - unfold node_delete_slot. rewrite E. cbn [exec_map_err exec_bind]. unfold sync_header.
    rewrite write_header_ok by (try apply (wf_header_wf q W'); lia).
    rewrite <- HA, header_rewrite by lia. rewrite exec_bind_ret, HA. by destruct q.
  - split; rewrite ?HH; cbn [page_type next_page_id free_space_offset next_logical_id]; try apply N.
    + done.
    + by rewrite E', !list_fmap_delete, (n_data _ _ _ N).
    + apply Forall_delete, N.
Qed.

(** *** Order *)

Lemma key_of_cmp kd k :
  zlen kd = 32 -> zlen (key_data k) = 32 -> key_cmp (key_of kd) k = (kz kd ?= kz (key_data k)).
Proof. intros L1 L2. apply bytes_cmp_be_val. unfold zlen in *. cbn. lia. Qed.

Lemma cmp_key_of kd k :
  zlen kd = 32 -> zlen (key_data k) = 32 -> key_cmp k (key_of kd) = (kz (key_data k) ?= kz kd).
Proof. intros L1 L2. apply bytes_cmp_be_val. unfold zlen in *. cbn. lia. Qed.

Lemma key_of_eqb kd k :
  zlen kd = 32 -> zlen (key_data k) = 32 -> key_eqb (key_of kd) k = (kz kd =? kz (key_data k)).
Proof.
  intros L1 L2. unfold key_eqb. cbn [key_of key_data].
  destruct (Z.eqb_spec (kz kd) (kz (key_data k))) as [E|E].
  - apply bool_decide_eq_true_2, be_val_inj; [unfold zlen in *; lia|done].
  - apply bool_decide_eq_false_2. by intros ->.
Qed.

Definition keys (es : list (list byte * V)) : list Z := (fun e => kz e.1) <$> es.
Definition ascending (es : list (list byte * V)) : Prop := StronglySorted Z.le (keys es).

(** Where an entry goes: after the entries with the same key. *)
Fixpoint place (e : list byte * V) (es : list (list byte * V)) : list (list byte * V) :=
  match es with
  | [] => [e]
  | x :: es' => if kz e.1 <? kz x.1 then e :: es else x :: place e es'
  end.

(** The number of keys below a bound. *)
Fixpoint rank (z : Z) (es : list (list byte * V)) : nat :=
  match es with
  | [] => O
  | x :: es => if kz x.1 <? z then S (rank z es) else O
  end.

Definition wf_entries (es : list (list byte * V)) : Prop :=
  Forall (fun e => zlen e.1 = 32 /\ v_wf e.2) es.

Lemma ascending_cons x es :
  ascending (x :: es) <-> ascending es /\ Forall (fun y => kz x.1 <= kz y.1) es.
Proof.
  unfold ascending, keys. cbn [fmap list_fmap]. split.
  - intros H0. inversion H0 as [|? ? S F]. split; [done|]. by rewrite Forall_fmap in F.
  - intros [S F]. constructor; [done|]. by rewrite Forall_fmap.
Qed.

Lemma sort_insert_first x l :
  zlen x.1 = 32 -> wf_entries l -> Forall (fun y => kz x.1 <= kz y.1) l ->
  sort_insert (entry_of x) (entry_of <$> l) = entry_of <$> (x :: l).
Proof.
  intros L W F. destruct l as [|y l]; [done|].
  apply Forall_cons in W as [[Ly _] _]. apply Forall_cons in F as [F _].
  cbn [fmap list_fmap sort_insert entry_of fst]. rewrite key_of_cmp by done. cbn [key_of key_data].
  destruct (Z.compare_spec (kz x.1) (kz y.1)); [done|done|lia].
Qed.

Lemma place_low e es : Forall (fun y => kz e.1 < kz y.1) es -> place e es = e :: es.
Proof. intros F. destruct es; [done|]. inversion_clear F. cbn. by rewrite (proj2 (Z.ltb_lt _ _)). Qed.

Lemma elem_of_place x e es : x ∈ place e es <-> x = e \/ x ∈ es.
Proof. induction es as [|y es IH]; cbn [place]; [set_solver|]. case_match; set_solver. Qed.

Lemma Forall_place (P : list byte * V -> Prop) e es : P e -> Forall P es -> Forall P (place e es).
Proof. rewrite !Forall_forall. intros ? ? x. rewrite elem_of_place. intros [->|]; auto. Qed.

Lemma sort_placed es e :
  wf_entries es -> zlen e.1 = 32 -> v_wf e.2 -> ascending es ->
  sort_by_key (entry_of <$> es ++ [e]) = entry_of <$> place e es.
Proof.
  intros W L Wv A. induction es as [|x es IH]; [done|].
  apply Forall_cons in W as [[Lx Wx] W]. apply ascending_cons in A as [A F].
  change (sort_insert (entry_of x) (sort_by_key (entry_of <$> es ++ [e])) = entry_of <$> place e (x :: es)).
  rewrite IH by done. cbn [place]. destruct (Z.ltb_spec (kz e.1) (kz x.1)) as [Hlt|Hge].
  - rewrite place_low by (eapply Forall_impl; [exact F|]; cbn; intros; lia).
    cbn [fmap list_fmap sort_insert]. unfold entry_of at 1 2. cbn [fst].
    rewrite key_of_cmp by done. cbn [key_of key_data].
    rewrite (proj2 (Z.compare_gt_iff _ _)) by lia. f_equal. by apply sort_insert_first.
  - apply sort_insert_first; [done|by apply Forall_place|by apply Forall_place].
Qed.

Lemma sort_ascending es :
  wf_entries es -> ascending es -> sort_by_key (entry_of <$> es) = entry_of <$> es.
Proof.
  induction es as [|x es IH]; [done|]. intros W A. apply Forall_cons in W as [[Lx _] W].
  apply ascending_cons in A as [A F].
  change (sort_insert (entry_of x) (sort_by_key (entry_of <$> es)) = entry_of <$> (x :: es)).
  rewrite IH by done. by apply sort_insert_first.
Qed.

Lemma ascending_place e es : ascending es -> ascending (place e es).
Proof.
  induction es as [|x es IH]; intros A; cbn [place].
  - repeat constructor.
  - apply ascending_cons in A as [A F]. case_match eqn:C.
    + apply Z.ltb_lt in C. apply ascending_cons. split; [by apply ascending_cons|].
      constructor; [lia|]. eapply Forall_impl; [exact F|]. cbn. intros. lia.
    + apply Z.ltb_ge in C. apply ascending_cons. split; [by apply IH|]. by apply Forall_place.
Qed.

Lemma rank_le z es : (rank z es <= length es)%nat.
Proof. induction es; cbn; [lia|]. case_match; lia. Qed.

Lemma rank_full z es :
  (rank z es = length es)%nat <-> Forall (fun e => kz e.1 < z) es.
Proof.
  induction es as [|x es IH]; cbn [rank length]; [done|]. rewrite Forall_cons.
  destruct (Z.ltb_spec (kz x.1) z); [rewrite <- IH; naive_solver lia|]. split; [done|lia].
Qed.

Lemma place_last e es : Forall (fun x => kz x.1 < kz e.1) es -> place e es = es ++ [e].
Proof.
  induction 1 as [|x es Hx _ IH]; [done|]. cbn [place]. rewrite (proj2 (Z.ltb_ge _ _)) by lia.
  cbn. by rewrite IH.
Qed.

(** *** Searching *)

Definition below (z : Z) (es : list (list byte * V)) (n : Z) : Prop :=
  forall j e, es !! j = Some e -> Z.of_nat j < n -> kz e.1 < z.
Definition above (z : Z) (es : list (list byte * V)) (n : Z) : Prop :=
  forall j e, es !! j = Some e -> n <= Z.of_nat j -> z < kz e.1.

Lemma ascending_lookup es i j x y :
  ascending es -> es !! i = Some x -> es !! j = Some y -> (i <= j)%nat -> kz x.1 <= kz y.1.
Proof.
  revert i j. induction es as [|e es IH]; intros i j A Hi Hj Hij; [done|].
  apply ascending_cons in A as [A F]. destruct j as [|j].
  - assert (i = O) as -> by lia. cbn in Hi, Hj. simplify_eq. lia.
  - destruct i as [|i]; [|apply (IH i j); (done || lia)]. cbn in Hi, Hj. simplify_eq.
    rewrite Forall_forall in F. apply F. by eapply list_elem_of_lookup_2.
Qed.

(** The halving loop ends on an equal key, or at the border between the
    smaller and the greater keys. *)
Lemma halve_ok p es link key n lo hi :
  node_ok p es link -> ascending es -> zlen (key_data key) = 32 ->
  0 <= lo <= hi -> hi <= zlen es -> hi - lo <= Z.of_nat n ->
  below (kz (key_data key)) es lo -> above (kz (key_data key)) es hi ->
  exists b m, halve (V:=V) (sp_view p) key n lo hi = Ok (b, m) /\ lo <= m <= hi /\
    if (b : bool)
    then exists e, es !! Z.to_nat m = Some e /\ kz e.1 = kz (key_data key)
    else below (kz (key_data key)) es m /\ above (kz (key_data key)) es m.
Proof.
  intros N A L. revert lo hi. set (z := kz (key_data key)).
  induction n as [|n IH]; intros lo hi Hlo Hhi Hn Hb Ha.
  - assert (hi = lo) as -> by lia. exists false, lo. split_and!; try done; lia.
  - cbn [halve]. destruct (Z.ltb_spec lo hi) as [Hlt|Hge].
    2: { assert (hi = lo) as -> by lia. exists false, lo. split_and!; try done; lia. }
    set (mid := lo + (hi - lo) / 2). assert (lo <= mid < hi) as Hm by (unfold mid; clear -Hlt; Z.to_euclidean_division_equations; lia).
    rewrite (node_key _ _ _ mid N) by lia.
    destruct (es !! Z.to_nat mid) as [e|] eqn:He;
      [|apply lookup_ge_None in He; unfold zlen in *; lia].
    cbn [fmap option_fmap option_map]. rewrite exec_bind_ret.
    assert (zlen e.1 = 32) as Le.
    { pose proof (n_es _ _ _ N) as F. rewrite Forall_forall in F. apply F. by eapply list_elem_of_lookup_2. }
    rewrite key_of_cmp by done. fold z. destruct (Z.compare_spec (kz e.1) z) as [E|E|E].
    + exists true, mid. split_and!; try done; [lia..|]. by exists e.
    + destruct (IH (mid + 1) hi) as (b & m & -> & Hr & Hp); [lia..| |done|].
      { intros j x Hj Hjm. assert (kz x.1 <= kz e.1); [|lia].
        eapply (ascending_lookup es j (Z.to_nat mid)); [done..|lia]. }
      exists b, m. split_and!; try done; lia.
    + destruct (IH lo mid) as (b & m & -> & Hr & Hp); [lia..|done| |].
      { intros j x Hj Hjm. assert (kz e.1 <= kz x.1); [|lia].
        eapply (ascending_lookup es (Z.to_nat mid) j); [done..|lia]. }
      exists b, m. split_and!; try done; lia.
Qed.

Lemma halve_all p es link key :
  node_ok p es link -> ascending es -> zlen (key_data key) = 32 ->
  exists b m, halve (V:=V) (sp_view p) key (Z.to_nat (key_count (sp_view p))) 0 (key_count (sp_view p))
      = Ok (b, m) /\ 0 <= m <= zlen es /\
    if (b : bool)
    then exists e, es !! Z.to_nat m = Some e /\ kz e.1 = kz (key_data key)
    else below (kz (key_data key)) es m /\ above (kz (key_data key)) es m.
Proof.
  intros N A L. unfold key_count. cbn [sp_view header]. rewrite (node_count _ _ _ N).
  apply (halve_ok p es link); try done; try lia.
  - unfold zlen. lia.
  - intros j e _ Hj. lia.
  - intros j e Hj Hl. apply lookup_lt_Some in Hj. unfold zlen in Hl. lia.
Qed.
End node_ok.

(** ** Leaves *)

Abbreviation Leaf := (list (list byte * RowId)).

Definition leaf_is (p : SlottedPage) (es : Leaf) (link : Z) : Prop := node_ok p es link.

Lemma find_ge_ok p es link key n i :
  leaf_is p es link -> zlen (key_data key) = 32 -> 0 <= i -> (Z.to_nat i + n = length es)%nat ->
  find_ge_from (sp_view p) key n i
  = Ok (i + Z.of_nat (rank (kz (key_data key)) (drop (Z.to_nat i) es))).
Proof.
  intros N L. revert i. induction n as [|n IH]; intros i H0 HL.
  - rewrite drop_ge by lia. cbn. f_equal. lia.
  - cbn [find_ge_from]. rewrite (node_key _ _ _ i N) by done.
    destruct (es !! Z.to_nat i) as [e|] eqn:He; [|apply lookup_ge_None in He; lia].
    cbn [fmap option_fmap option_map]. rewrite exec_bind_ret.
    assert (zlen e.1 = 32) as Le.
    { pose proof (n_es _ _ _ N) as F. rewrite Forall_forall in F. apply F. by eapply list_elem_of_lookup_2. }
    rewrite key_of_cmp by done. rewrite (drop_S es e) by done. cbn [rank]. unfold Z.ltb.
    destruct (Z.compare_spec (kz e.1) (kz (key_data key))); try (f_equal; lia).
    rewrite IH by lia. replace (Z.to_nat (i + 1)) with (S (Z.to_nat i)) by lia. f_equal. lia.
Qed.

Lemma leaf_position p es link key :
  leaf_is p es link -> zlen (key_data key) = 32 ->
  leaf_find_key_position p key = Ok (Z.of_nat (rank (kz (key_data key)) es)).
Proof.
  intros N L. unfold leaf_find_key_position, key_count. cbn [sp_view header].
  rewrite (node_count _ _ _ N). rewrite (find_ge_ok p es link) by (done || (unfold zlen; lia)).
  by rewrite drop_0.
Qed.

Lemma leaf_build_ok es :
  wf_entries es -> zlen es <= 92 ->
  exists p, leaf_build (entry_of <$> es) = Ok p /\ leaf_is p es 0 /\ dense p
    /\ free_space p = 4080 - 44 * zlen es.
Proof.
  intros W HL. destruct (node_init_ok (V:=RowId) page_zeroed) as (p & E & N & D & F); [by vm_compute|].
  unfold leaf_build. rewrite E, exec_bind_ret.
  destruct (insert_all_ok es p [] 0 N W) as (q & Eq & Nq & Dq & Fq); [cbn [v_size leaf_codec]; lia|].
  exists q. split_and!; [done|done|auto|]. rewrite Fq, F. cbn [v_size leaf_codec]. lia.
Qed.

Lemma leaf_room p es link :
  leaf_is p es link -> 44 <= free_space p -> zlen es + 1 <= 92.
Proof. intros N R. destruct (node_free _ _ _ N) as [E B]. cbn [v_size leaf_codec] in E. lia. Qed.

Lemma leaf_dense_full p es link :
  leaf_is p es link -> dense p -> free_space p < 44 -> zlen es = 92.
Proof.
  intros N D R. destruct (node_free _ _ _ N) as [E B]. cbn [v_size leaf_codec] in E.
  unfold dense in D. rewrite (node_count _ _ _ N) in D. rewrite D in E.
  pose proof (n_wf _ _ _ N) as W. pose proof (wf_fit _ W) as F. rewrite (n_ids _ _ _ N), (node_count _ _ _ N), D in F.
  cbn [v_size leaf_codec] in F. lia.
Qed.

Lemma shift_sorted p es link e :
  leaf_is p (es ++ [e]) link -> ascending es -> zlen es + 1 <= 92 ->
  exists p', shift_slots_right p = Ok p' /\ leaf_is p' (place e es) link /\ dense p'.
Proof.
  intros N A HL. unfold shift_slots_right.
  rewrite (node_entries_ok _ _ _ N), exec_bind_ret.
  pose proof (n_es _ _ _ N) as F. apply Forall_app in F as [Fes Fe].
  apply Forall_singleton in Fe as [Le We]. rewrite sort_placed by done.
  destruct (leaf_build_ok (place e es)) as (q & -> & Nq & Dq & _).
  { by apply Forall_place. }
  { assert (length (place e es) = S (length es)) as E; [|unfold zlen in *; lia].
    clear. induction es; cbn; [done|]. case_match; cbn; lia. }
  rewrite exec_bind_ret, (n_link _ _ _ N).
  destruct (patch_next_ok q _ 0 link Nq (n_link_u32 _ _ _ N)) as (q' & -> & N' & D' & _).
  exists q'. auto.
Qed.

(** Inserting into a leaf with room. *)
Lemma leaf_insert_room p es link key r :
  leaf_is p es link -> ascending es -> zlen (key_data key) = 32 -> row_id_wf r ->
  44 <= free_space p ->
  exists p', leaf_insert p key r = Ok (p', Z.of_nat (rank (kz (key_data key)) es))
    /\ leaf_is p' (place (key_data key, r) es) link /\ (dense p -> dense p').
Proof.
  intros N A L Wr R. unfold leaf_insert. rewrite (leaf_position _ _ _ _ N L), exec_bind_ret.
  change MAX_KEY_LEN with 32. page_consts. rewrite (proj2 (Z.ltb_ge _ _)) by lia.
  destruct (add_entry p es link (key_data key, r) N L Wr) as (p1 & i & E1 & N1 & D1 & _).
  { cbn [v_size leaf_codec]. lia. }
  unfold entry_bytes. cbn [fst snd] in E1. rewrite E1. destruct i as [lid i].
  unfold key_count. cbn [sp_view header]. rewrite (node_count _ _ _ N).
  destruct (Z.eqb_spec (zlen es) (Z.of_nat (rank (kz (key_data key)) es))) as [E|E].
  - exists p1. split; [done|]. rewrite place_last; [done|].
    apply rank_full. cbn [fst]. unfold zlen in E. lia.
  - destruct (shift_sorted p1 es link _ N1 A) as (p2 & -> & N2 & D2); [by eapply leaf_room|].
    exists p2. auto.
Qed.

Lemma leaf_insert_full p es link key r :
  leaf_is p es link -> zlen (key_data key) = 32 -> free_space p < 44 ->
  leaf_insert p key r = Err BtPageFull.
Proof.
  intros N L R. unfold leaf_insert. rewrite (leaf_position _ _ _ _ N L), exec_bind_ret.
  change MAX_KEY_LEN with 32. page_consts. by rewrite (proj2 (Z.ltb_lt _ _)) by lia.
Qed.

Lemma leaf_split_ok p es link np k r rest :
  leaf_is p es link -> ascending es -> zlen es <= 92 ->
  drop (length es / 2) es = (k, r) :: rest ->
  exists p', leaf_split p np
      = Ok (p', mk_leaf_split (key_of k) (entry_of <$> (k, r) :: rest) link np)
    /\ leaf_is p' (take (length es / 2) es) 0 /\ dense p'
    /\ free_space p' = 4080 - 44 * zlen (take (length es / 2) es).
Proof.
  intros N A HL HD. unfold leaf_split. rewrite (node_entries_ok _ _ _ N), exec_bind_ret.
  rewrite sort_ascending by (done || apply (n_es _ _ _ N)).
  rewrite length_fmap, <- fmap_drop, HD, <- fmap_take, (n_link _ _ _ N).
  cbn [fmap list_fmap entry_of fst snd].
  destruct (leaf_build_ok (take (length es / 2) es)) as (q & -> & Nq & Dq & Fq).
  { apply Forall_take, (n_es _ _ _ N). }
  { unfold zlen in *. rewrite length_take. pose proof (Nat.le_min_r (length es / 2) (length es)). lia. }
  exists q. by rewrite exec_bind_ret.
Qed.

Lemma leaf_delete_ok p es link key :
  leaf_is p es link -> zlen (key_data key) = 32 ->
  match es !! rank (kz (key_data key)) es with
  | Some e =>
      if kz e.1 =? kz (key_data key)
      then exists p', leaf_delete p key = Ok p'
             /\ leaf_is p' (delete (rank (kz (key_data key)) es) es) link
      else leaf_delete p key = Err KeyNotFound
  | None => leaf_delete p key = Err KeyNotFound
  end.
Proof.
  intros N L. unfold leaf_delete. rewrite (leaf_position _ _ _ _ N L), exec_bind_ret.
  set (i := rank (kz (key_data key)) es). unfold key_count. cbn [sp_view header].
  rewrite (node_count _ _ _ N). destruct (es !! i) as [e|] eqn:Hi.
  - apply lookup_lt_Some in Hi as Hl. rewrite (proj2 (Z.leb_gt _ _)) by (unfold zlen; lia).
    rewrite (node_key _ _ _ (Z.of_nat i) N) by lia. rewrite Nat2Z.id, Hi.
    cbn [fmap option_fmap option_map]. rewrite exec_bind_ret.
    assert (zlen e.1 = 32) as Le.
    { pose proof (n_es _ _ _ N) as F. rewrite Forall_forall in F. apply F. by eapply list_elem_of_lookup_2. }
    rewrite key_of_eqb by done. case_match; [|done].
    destruct (node_delete_ok p es link (Z.of_nat i) N) as (q & -> & Nq); [unfold zlen; lia|].
    rewrite Nat2Z.id in Nq. by exists q.
  - apply lookup_ge_None in Hi. by rewrite (proj2 (Z.leb_le _ _)) by (unfold zlen; lia).
Qed.

(** Strict order of the keys: no two entries share one. *)
Definition strict {V} (es : list (list byte * V)) : Prop := StronglySorted Z.lt (keys es).

Lemma strict_cons {V} (x : list byte * V) es :
  strict (x :: es) <-> strict es /\ Forall (fun y => kz x.1 < kz y.1) es.
Proof.
  unfold strict, keys. cbn [fmap list_fmap]. split.
  - intros H. inversion H as [|? ? S F]. split; [done|]. by rewrite Forall_fmap in F.
  - intros [S F]. constructor; [done|]. by rewrite Forall_fmap.
Qed.

Lemma strict_ascending {V} (es : list (list byte * V)) : strict es -> ascending es.
Proof.
  induction es as [|x es IH]; [constructor|]. rewrite strict_cons, ascending_cons. intros [S F].
  split; [auto|]. eapply Forall_impl; [exact F|]. cbn. intros. lia.
Qed.

Lemma strict_app {V} (l k : list (list byte * V)) :
  strict (l ++ k) <-> strict l /\ strict k /\ forall x y, x ∈ l -> y ∈ k -> kz x.1 < kz y.1.
Proof.
  induction l as [|x l IH]; cbn [app].
  - split; [intros S; split_and!; [constructor|done|set_solver]|tauto].
  - rewrite !strict_cons, IH, Forall_app, !Forall_forall. split.
    + intros [(Sl & Sk & H) [F G]]. split_and!; [done..|]. intros a b Ha Hb.
      apply elem_of_cons in Ha as [->|Ha]; auto.
    + intros [[Sl F] [Sk H]]. split_and!; try done; intros; apply H; set_solver.
Qed.

Lemma strict_lookup {V} (es : list (list byte * V)) i j x y :
  strict es -> es !! i = Some x -> es !! j = Some y -> (i < j)%nat -> kz x.1 < kz y.1.
Proof.
  revert i j. induction es as [|e es IH]; intros i j A Hi Hj Hij; [done|].
  apply strict_cons in A as [A F]. destruct j as [|j]; [lia|].
  destruct i as [|i]; [|apply (IH i j); (done || lia)]. cbn in Hi, Hj. simplify_eq.
  rewrite Forall_forall in F. apply F. by eapply list_elem_of_lookup_2.
Qed.

(** Where the halving loop stops is the rank, on a strict node. *)
Lemma rank_border {V} z (es : list (list byte * V)) m :
  (m <= length es)%nat -> below z es (Z.of_nat m) ->
  (forall e, es !! m = Some e -> z <= kz e.1) -> rank z es = m.
Proof.
  revert m. induction es as [|x es IH]; intros m HL B A; [cbn in *; lia|]. cbn [rank].
  destruct m as [|m].
  - specialize (A x eq_refl). by rewrite (proj2 (Z.ltb_ge _ _)) by lia.
  - rewrite (proj2 (Z.ltb_lt _ _)) by (apply (B O x eq_refl); lia). f_equal.
    apply IH; [cbn in HL; lia| |exact A]. intros j e Hj Hl. apply (B (S j) e Hj). lia.
Qed.

(** The position an entry with this key has or would have. *)
Definition position_of (z : Z) (es : Leaf) : bool * Z :=
  (match es !! rank z es with Some e => kz e.1 =? z | None => false end, Z.of_nat (rank z es)).

Lemma position_binary p es link key :
  leaf_is p es link -> strict es -> zlen (key_data key) = 32 ->
  find_key_position_binary (sp_view p) key = Ok (position_of (kz (key_data key)) es).
Proof.
  intros N S L. unfold find_key_position_binary.
  destruct (halve_all p es link key N (strict_ascending _ S) L) as (b & m & -> & Hm & R).
  set (z := kz (key_data key)) in *. unfold position_of. f_equal. destruct b.
  - destruct R as (e & He & Ez). assert (rank z es = Z.to_nat m) as ->.
    { apply rank_border; [unfold zlen in *; lia| |].
      - intros j x Hj Hl. rewrite <- Ez. eapply (strict_lookup es j); [done..|lia].
      - intros x Hx. simplify_eq. lia. }
    rewrite He, Z2Nat.id by lia. by rewrite (proj2 (Z.eqb_eq _ _)).
  - destruct R as [Bl Ab]. assert (rank z es = Z.to_nat m) as ->.
    { apply rank_border; [unfold zlen in *; lia|by rewrite Z2Nat.id by lia|].
      intros e He. assert (z < kz e.1); [|lia]. apply (Ab _ _ He). lia. }
    rewrite Z2Nat.id by lia. destruct (es !! Z.to_nat m) as [e|] eqn:He; [|done].
    assert (z < kz e.1) by (apply (Ab _ _ He); lia). by rewrite (proj2 (Z.eqb_neq _ _)) by lia.
Qed.

Lemma position_from_ok p es link key n i :
  leaf_is p es link -> zlen (key_data key) = 32 -> 0 <= i -> (Z.to_nat i + n = length es)%nat ->
  let t := drop (Z.to_nat i) es in
  position_from (sp_view p) key n i
  = Ok ((position_of (kz (key_data key)) t).1, i + (position_of (kz (key_data key)) t).2).
Proof.
  intros N L. revert i. induction n as [|n IH]; intros i H0 HL t.
  - unfold t. rewrite drop_ge by lia. cbn. do 2 f_equal. lia.
  - cbn [position_from]. rewrite (node_key _ _ _ i N) by done.
    destruct (es !! Z.to_nat i) as [e|] eqn:He; [|apply lookup_ge_None in He; lia].
    cbn [fmap option_fmap option_map]. rewrite exec_bind_ret.
    assert (zlen e.1 = 32) as Le.
    { pose proof (n_es _ _ _ N) as F. rewrite Forall_forall in F. apply F. by eapply list_elem_of_lookup_2. }
    rewrite key_of_cmp, key_of_eqb by done. unfold t. rewrite (drop_S es e) by done.
    unfold position_of. cbn [rank fst snd]. set (z := kz (key_data key)) in *.
    destruct (Z.compare_spec (kz e.1) z) as [E|E|E].
    + rewrite E, Z.eqb_refl, Z.ltb_irrefl. cbn. rewrite E, Z.eqb_refl. do 2 f_equal. lia.
    + rewrite (proj2 (Z.eqb_neq _ _)), (proj2 (Z.ltb_lt _ _)) by lia. rewrite IH by lia.
      replace (Z.to_nat (i + 1)) with (S (Z.to_nat i)) by lia. cbn. do 2 f_equal. lia.
    + rewrite (proj2 (Z.eqb_neq _ _)), (proj2 (Z.ltb_ge _ _)) by lia. cbn.
      rewrite (proj2 (Z.eqb_neq _ _)) by lia. do 2 f_equal. lia.
Qed.

(** On a leaf whose keys strictly ascend, the binary search answers
    exactly what the linear search answers: whether the key is there, and the
    position it has or would have. *)
Theorem leaf_search_binary_linear p es link key :
  leaf_is p es link -> strict es -> key_wf key ->
  find_key_position_binary (sp_view p) key = find_key_position (sp_view p) key.
Proof.
  intros N S [L _]. assert (zlen (key_data key) = 32) as LZ by (unfold zlen; lia).
  rewrite (position_binary _ _ _ _ N S LZ).
  unfold find_key_position, key_count. cbn [sp_view header]. rewrite (node_count _ _ _ N).
  rewrite (position_from_ok p es link) by (done || (unfold zlen; lia)). by rewrite drop_0.
Qed.

(** ** Internal nodes *)

Abbreviation Seps := (list (list byte * Z)).

Definition internal_is (p : SlottedPage) (c0 : Z) (seps : Seps) : Prop := node_ok p seps c0.

(** The child responsible for a key: the last whose separator is not above
    it. *)
Fixpoint route (z : Z) (c : Z) (seps : Seps) : Z :=
  match seps with
  | [] => c
  | s :: seps => if z <? kz s.1 then c else route z s.2 seps
  end.

(** The [j]-th child: the leftmost, then the separators' own. *)
Definition child_at (c0 : Z) (seps : Seps) (j : nat) : Z :=
  match j with O => c0 | S j => default c0 (snd <$> seps !! j) end.

Lemma route_child z c seps j :
  (j <= length seps)%nat ->
  (forall i s, seps !! i = Some s -> (i < j)%nat -> kz s.1 <= z) ->
  (forall s, seps !! j = Some s -> z < kz s.1) ->
  route z c seps = child_at c seps j.
Proof.
  revert c j. induction seps as [|s seps IH]; intros c j HL B A; cbn [route].
  - cbn in HL. by assert (j = O) as -> by lia.
  - destruct j as [|j].
    + by rewrite (proj2 (Z.ltb_lt _ _)) by (by apply A).
    + assert (kz s.1 <= z) by (apply (B O s eq_refl); lia). rewrite (proj2 (Z.ltb_ge _ _)) by lia.
      rewrite (IH s.2 j); [|cbn in HL; lia|intros i x Hi Hl; apply (B (S i) x Hi); lia|exact A].
      destruct j as [|j]; [done|]. cbn [child_at]. cbn [length] in HL.
      change ((s :: seps) !! S j) with (seps !! j).
      destruct (lookup_lt_is_Some_2 seps j) as [x Hx]; [lia|]. by rewrite Hx.
Qed.

Lemma child_read p c0 seps j :
  internal_is p c0 seps -> 0 <= j < zlen seps ->
  child_or_leftmost (sp_view p) j = Ok (child_at c0 seps (S (Z.to_nat j))).
Proof.
  intros N Hj. unfold child_or_leftmost. rewrite (node_value _ _ _ j N), exec_bind_ret by lia.
  unfold leftmost_child. cbn [sp_view header child_at]. by rewrite (n_link _ _ _ N).
Qed.

(** The position of the binary descent, and its child. *)
Lemma halve_child p c0 seps key :
  internal_is p c0 seps -> strict seps -> zlen (key_data key) = 32 ->
  exists (b : bool) m, halve (V:=Z) (sp_view p) key (Z.to_nat (key_count (sp_view p))) 0
      (key_count (sp_view p)) = Ok (b, m)
    /\ 0 <= m /\ (if b then m < zlen seps else m <= zlen seps)
    /\ let j := if b then S (Z.to_nat m) else Z.to_nat m in
       (j <= length seps)%nat
       /\ (forall i s, seps !! i = Some s -> (i < j)%nat -> kz s.1 <= kz (key_data key))
       /\ (forall i s, seps !! i = Some s -> (j <= i)%nat -> kz (key_data key) < kz s.1).
Proof.
  intros N S L. destruct (halve_all p seps c0 key N (strict_ascending _ S) L) as (b & m & E & Hm & R).
  exists b, m. split; [done|]. set (z := kz (key_data key)) in *. destruct b.
  - destruct R as (e & He & Ez). apply lookup_lt_Some in He as HL. unfold zlen in *.
    split_and!; [lia..| |].
    + intros i s Hi Hl. destruct (decide (i = Z.to_nat m)) as [->|Hne]; [simplify_eq; lia|].
      assert (kz s.1 < kz e.1); [eapply (strict_lookup seps i); [done..|lia]|lia].
    + intros i s Hi Hl. rewrite <- Ez. eapply (strict_lookup seps (Z.to_nat m)); [done..|lia].
  - destruct R as [Bl Ab]. unfold zlen in *. split_and!; [lia..| |].
    + intros i s Hi Hl. assert (kz s.1 < z); [apply (Bl _ _ Hi); lia|lia].
    + intros i s Hi Hl. apply (Ab _ _ Hi). lia.
Qed.

Lemma child_binary p c0 seps key :
  internal_is p c0 seps -> strict seps -> zlen (key_data key) = 32 ->
  find_child_page_id_binary (sp_view p) key = Ok (route (kz (key_data key)) c0 seps).
Proof.
  intros N S L. unfold find_child_page_id_binary.
  destruct (halve_child p c0 seps key N S L) as (b & m & -> & H0 & Hm & Hj & B & A).
  rewrite exec_bind_ret, (route_child _ _ _ _ Hj B (fun s Hs => A _ s Hs (le_n _))).
  destruct b.
  - by rewrite (child_read _ _ _ _ N) by lia.
  - destruct (Z.eqb_spec m 0) as [->|Hz].
    + unfold leftmost_child. cbn [sp_view header]. by rewrite (n_link _ _ _ N).
    + rewrite (child_read _ _ _ _ N) by lia. by replace (Datatypes.S (Z.to_nat (m - 1))) with (Z.to_nat m) by lia.
Qed.

Lemma child_value p c0 seps z j :
  internal_is p c0 seps -> (j < length seps)%nat ->
  (forall k s, seps !! k = Some s -> (k <= j)%nat -> kz s.1 <= z) ->
  (forall s, seps !! S j = Some s -> z < kz s.1) ->
  get_value (sp_view p) (Z.of_nat j) = Ok (E:=BtError) (Some (route z c0 seps)).
Proof.
  intros N Hj B A. rewrite (node_value _ _ _ _ N) by lia. rewrite Nat2Z.id.
  rewrite (route_child z c0 seps (S j)); [|lia|intros k s Hk Hl; apply (B k s Hk); lia|done].
  cbn [child_at]. destruct (lookup_lt_is_Some_2 seps j Hj) as [x Hx]. by rewrite Hx.
Qed.

Lemma child_from_ok p c0 seps key n i :
  internal_is p c0 seps -> strict seps -> zlen (key_data key) = 32 -> 0 <= i ->
  (Z.to_nat i + n = length seps)%nat ->
  (forall j s, seps !! j = Some s -> (j < Z.to_nat i)%nat -> kz s.1 < kz (key_data key)) ->
  child_from (sp_view p) key n i = Ok (Some (route (kz (key_data key)) c0 seps)).
Proof.
  intros N S L. revert i. set (z := kz (key_data key)).
  pose proof (fun j => child_value p c0 seps z j N) as G.
  induction n as [|n IH]; intros i H0 HL B; cbn [child_from].
  - destruct (Z.ltb_spec 0 i) as [Hp|Hp].
    + replace (i - 1) with (Z.of_nat (Z.to_nat i - 1)) by lia. apply G; [lia| |].
      * intros k s Hk Hl. assert (kz s.1 < z); [apply (B _ _ Hk); lia|lia].
      * intros s Hs. apply lookup_lt_Some in Hs. lia.
    + assert (seps = []) as -> by (destruct seps; [done|cbn in HL; lia]).
      unfold leftmost_child. cbn. by rewrite (n_link _ _ _ N).
  - rewrite (node_key _ _ _ i N) by done.
    destruct (seps !! Z.to_nat i) as [e|] eqn:He; [|apply lookup_ge_None in He; lia].
    cbn [fmap option_fmap option_map]. rewrite exec_bind_ret.
    assert (zlen e.1 = 32) as Le.
    { pose proof (n_es _ _ _ N) as F. rewrite Forall_forall in F. apply F. by eapply list_elem_of_lookup_2. }
    rewrite cmp_key_of by done. fold z. destruct (Z.compare_spec z (kz e.1)) as [E|E|E].
    + rewrite <- (Z2Nat.id i) at 1 by lia. apply G; [apply lookup_lt_Some in He; lia| |].
      * intros k s Hk Hl. destruct (decide (k = Z.to_nat i)) as [->|]; [simplify_eq; lia|].
        assert (kz s.1 < z); [apply (B _ _ Hk); lia|lia].
      * intros s Hs. rewrite E. eapply (strict_lookup seps (Z.to_nat i)); [done..|lia].
    + destruct (Z.eqb_spec i 0) as [->|Hz].
      * rewrite (route_child z c0 seps 0); [|lia|intros; lia|intros s Hs; change (Z.to_nat 0) with O in He; by simplify_eq].
        unfold leftmost_child. cbn. by rewrite (n_link _ _ _ N).
      * replace (i - 1) with (Z.of_nat (Z.to_nat i - 1)) by lia. apply G; [lia| |].
        -- intros k s Hk Hl. assert (kz s.1 < z); [apply (B _ _ Hk); lia|lia].
        -- intros s Hs. replace (Datatypes.S (Z.to_nat i - 1)) with (Z.to_nat i) in Hs by lia. by simplify_eq.
    + apply IH; [lia..|]. intros j s Hs Hl. destruct (decide (j = Z.to_nat i)) as [->|]; [by simplify_eq|].
      apply (B _ _ Hs). lia.
Qed.

(** on an internal node whose separators strictly ascend, the binary
    descent, the linear descent of the read-only view and the linear descent
    of the writable node lead to the same child, the one whose range holds the
    key. *)
Theorem internal_search_binary_linear p c0 seps key :
  internal_is p c0 seps -> strict seps -> key_wf key ->
  find_child_page_id_binary (sp_view p) key = Ok (route (kz (key_data key)) c0 seps)
  /\ find_child_page_id (sp_view p) key = Ok (Some (route (kz (key_data key)) c0 seps))
  /\ find_child_page_id_mut p key = Ok (route (kz (key_data key)) c0 seps).
Proof.
  intros N S [L _]. assert (zlen (key_data key) = 32) as LZ by (unfold zlen; lia).
  assert (find_child_page_id (sp_view p) key = Ok (Some (route (kz (key_data key)) c0 seps))) as E.
  { unfold find_child_page_id, key_count. cbn [sp_view header]. rewrite (node_count _ _ _ N).
    apply child_from_ok; try done; [unfold zlen; lia|]. intros. lia. }
  split_and!; [by apply child_binary|done|]. unfold find_child_page_id_mut. by rewrite E.
Qed.

(** *** Changing an internal node *)

Lemma internal_build_ok c0 seps :
  wf_entries seps -> in_u32 c0 -> zlen seps <= 97 ->
  exists p, internal_build c0 (entry_of <$> seps) = Ok p /\ internal_is p c0 seps /\ dense p
    /\ free_space p = 4080 - 42 * zlen seps.
Proof.
  intros W Hc HL. destruct (node_init_ok (V:=Z) page_zeroed) as (p & E & N & D & F); [by vm_compute|].
  unfold internal_build. rewrite E, exec_bind_ret.
  destruct (patch_next_ok p [] 0 c0 N Hc) as (p1 & -> & N1 & D1 & F1). rewrite exec_bind_ret.
  destruct (insert_all_ok seps p1 [] c0 N1 W) as (q & Eq & Nq & Dq & Fq); [cbn [v_size child_codec]; lia|].
  exists q. split_and!; [done|done|auto|]. rewrite Fq, F1, F. cbn [v_size child_codec]. lia.
Qed.

Lemma internal_room p c0 seps :
  internal_is p c0 seps -> 42 <= free_space p -> zlen seps + 1 <= 97.
Proof. intros N R. destruct (node_free _ _ _ N) as [E B]. cbn [v_size child_codec] in E. lia. Qed.

Lemma internal_dense_full p c0 seps :
  internal_is p c0 seps -> dense p -> free_space p < 42 -> zlen seps = 97.
Proof.
  intros N D R. destruct (node_free _ _ _ N) as [E B]. cbn [v_size child_codec] in E.
  unfold dense in D. rewrite (node_count _ _ _ N) in D. rewrite D in E.
  pose proof (n_wf _ _ _ N) as W. pose proof (wf_fit _ W) as F. rewrite (n_ids _ _ _ N), (node_count _ _ _ N), D in F.
  cbn [v_size child_codec] in F. lia.
Qed.

(** The last child of a prefix of the separators. *)
Definition last_child (c0 : Z) (s1 : Seps) : Z := default c0 (snd <$> last s1).

Lemma child_index_from_ok p c0 seps child n i j s :
  internal_is p c0 seps -> 0 <= i -> (Z.to_nat i + n = length seps)%nat ->
  seps !! j = Some s -> s.2 = child -> (Z.to_nat i <= j)%nat ->
  (forall k t, seps !! k = Some t -> t.2 = child -> k = j) ->
  child_index_from (sp_view p) child n i = Ok (Z.of_nat j + 1).
Proof.
  intros N. revert i. induction n as [|n IH]; intros i H0 HL Hj Hc Hij U.
  - apply lookup_lt_Some in Hj. lia.
  - cbn [child_index_from]. rewrite (node_value _ _ _ i N), exec_bind_ret by done.
    destruct (decide (j = Z.to_nat i)) as [->|Hne].
    + rewrite Hj. cbn. rewrite bool_decide_eq_true_2 by congruence. f_equal. lia.
    + rewrite bool_decide_eq_false_2; [apply IH; (done || lia)|].
      destruct (seps !! Z.to_nat i) as [t|] eqn:Ht; [|done]. cbn. intros [= E].
      apply Hne. symmetry. by apply (U _ t).
Qed.

Lemma separator_index_ok p c0 s1 s2 :
  internal_is p c0 (s1 ++ s2) -> NoDup (c0 :: (s1 ++ s2).*2) ->
  separator_index_after_child (sp_view p) (last_child c0 s1) = Ok (zlen s1).
Proof.
  intros N U. unfold separator_index_after_child, leftmost_child. cbn [sp_view header].
  rewrite (n_link _ _ _ N). apply NoDup_cons in U as [U0 U].
  destruct s1 as [|s s1 _] using rev_ind.
  - cbn. by rewrite Z.eqb_refl.
  - unfold last_child. rewrite last_snoc. cbn [default fmap option_fmap option_map].
    rewrite (proj2 (Z.eqb_neq _ _)).
    2: { intros ->. apply U0. rewrite !fmap_app. cbn. set_solver. }
    assert (((s1 ++ [s]) ++ s2) !! length s1 = Some s) as Hs.
    { rewrite <- app_assoc. change ([s] ++ s2) with (s :: s2). by rewrite list_lookup_middle. }
    unfold key_count. cbn [sp_view header]. rewrite (node_count _ _ _ N).
    rewrite (child_index_from_ok p c0 _ s.2 _ 0 (length s1) s N); try done.
    + f_equal. unfold zlen. rewrite length_app. cbn. lia.
    + unfold zlen. lia.
    + lia.
    + intros k t Hk Ht. eapply (NoDup_lookup _ k (length s1) s.2 U).
      * rewrite list_lookup_fmap, Hk. cbn. by rewrite Ht.
      * by rewrite list_lookup_fmap, Hs.
Qed.

Lemma splice_last {A} (s1 s2 : list A) e :
  splice_entry (length s1) (length (s1 ++ s2)) ((s1 ++ s2) ++ [e]) e = s1 ++ e :: s2.
Proof.
  unfold splice_entry. rewrite delete_middle, app_nil_r.
  rewrite (proj2 (Nat.ltb_ge _ _)) by (rewrite length_app; lia).
  by rewrite take_app_length, drop_app_length.
Qed.

(** A separator goes right after the child that split. *)
Lemma insert_separator_ok p c0 s1 s2 key child :
  internal_is p c0 (s1 ++ s2) -> NoDup (c0 :: (s1 ++ s2).*2) ->
  zlen (key_data key) = 32 -> in_u32 child -> in_u32 (last_child c0 s1) -> 42 <= free_space p ->
  exists p', insert_separator p key child (last_child c0 s1) = Ok (p', zlen s1)
    /\ internal_is p' c0 (s1 ++ (key_data key, child) :: s2) /\ (dense p -> dense p').
Proof.
  intros N U L Hc Hl R. unfold insert_separator. rewrite !wrap32_id by done.
  rewrite (separator_index_ok p c0 s1 s2 N U), exec_bind_ret.
  change MAX_KEY_LEN with 32. page_consts. rewrite (proj2 (Z.ltb_ge _ _)) by lia.
  destruct (add_entry p _ c0 (key_data key, child) N L Hc) as (p1 & i & E1 & N1 & D1 & _).
  { cbn [v_size child_codec]. lia. }
  unfold entry_bytes. cbn [fst snd] in E1. rewrite E1. destruct i as [lid i].
  unfold key_count. cbn [sp_view header]. rewrite (node_count _ _ _ N).
  destruct (Z.eqb_spec (zlen (s1 ++ s2)) (zlen s1)) as [E|E].
  - exists p1. split; [done|]. rewrite zlen_app in E.
    assert (s2 = []) as -> by (destruct s2; [done|rewrite zlen_cons in E; pose proof (zlen_nonneg s2); lia]).
    by rewrite app_nil_r in N1.
  - pose proof (internal_room _ _ _ N R) as HL. unfold splice_separator.
    rewrite (node_entries_ok _ _ _ N1), exec_bind_ret. unfold zlen in *.
    rewrite !length_fmap, (length_app _ [_]), !length_app in *. cbn [length] in *.
    rewrite (proj2 (Z.leb_gt _ _)), (proj2 (Z.ltb_ge _ _)) by lia. cbn [orb].
    rewrite !Nat2Z.id, <- length_app. rewrite list_lookup_fmap, list_lookup_middle by done.
    cbn [fmap option_fmap option_map].
    rewrite fmap_app. cbn [fmap list_fmap]. rewrite fmap_app.
    rewrite <- (length_fmap entry_of s1), <- (length_fmap entry_of (s1 ++ s2)), fmap_app, splice_last.
    pose proof (n_es _ _ _ N1) as F. rewrite !Forall_app, Forall_singleton in F.
    destruct F as [[F1 F2] F3].
    destruct (internal_build_ok c0 (s1 ++ (key_data key, child) :: s2)) as (q & Eq & Nq & Dq & _).
    { apply Forall_app; split; [done|]. by constructor. }
    { apply (n_link_u32 _ _ _ N). }
    { unfold zlen. rewrite length_app. cbn [length]. lia. }
    rewrite fmap_app in Eq. cbn [fmap list_fmap] in Eq. rewrite (n_link _ _ _ N1), Eq, exec_bind_ret.
    exists q. rewrite length_fmap. auto.
Qed.

Lemma internal_split_ok p c0 seps np s1 k c s2 :
  internal_is p c0 seps -> zlen seps <= 97 ->
  seps = s1 ++ (k, c) :: s2 -> length s1 = (length seps / 2)%nat ->
  exists p', internal_split p np = Ok (p', mk_internal_split (key_of k) c (entry_of <$> s2) np)
    /\ internal_is p' c0 s1 /\ dense p' /\ free_space p' = 4080 - 42 * zlen s1.
Proof.
  intros N HL HS Hm. unfold internal_split. rewrite (node_entries_ok _ _ _ N), exec_bind_ret.
  rewrite length_fmap, <- Hm, <- fmap_drop, <- fmap_take, (n_link _ _ _ N).
  rewrite HS. rewrite drop_app_length, take_app_length. cbn [fmap list_fmap entry_of fst snd].
  pose proof (n_es _ _ _ N) as F. rewrite HS in F. apply Forall_app in F as [F _].
  destruct (internal_build_ok c0 s1 F (n_link_u32 _ _ _ N)) as (q & -> & Nq & Dq & Fq).
  { rewrite HS, zlen_app in HL. pose proof (zlen_nonneg ((k, c) :: s2)). lia. }
  exists q. by rewrite exec_bind_ret.
Qed.

(** ** Nodes pass the check *)

Section intact.
Context {V : Type} `{NodeCodec V}.

Lemma slots_checked_ok p es link n i :
  node_ok p es link -> 0 <= i -> (Z.to_nat i + n = length es)%nat ->
  exists ss, slots_checked (sp_view p) (4096 - slot_count (page_header p) * 6) n i = Ok (ss, [])
    /\ Forall (fun '(_, a, b) => 16 <= a /\ b <= 4096 /\ b - a = 32 + v_size) ss.
Proof.
  intros N. pose proof (n_wf _ _ _ N) as W. pose proof (wf_slot_count p W) as SC.
  pose proof (wf_fit p W) as F. pose proof (node_count _ _ _ N) as C.
  revert i. induction n as [|n IH]; intros i H0 HL; [by exists []|]. cbn [slots_checked].
  destruct (lookup_lt_is_Some_2 es (Z.to_nat i)) as [e He]; [lia|].
  destruct (node_payload _ _ _ _ _ N He) as (s & Hs & Hp).
  assert (s ∈ slots p) as Hin by (by eapply list_elem_of_lookup_2).
  unfold slots in Hs. rewrite lookup_slots_of in Hs by (unfold zlen in C; lia).
  injection Hs as Hs. rewrite Z2Nat.id in Hs by lia.
  rewrite get_slot_ok; [|cbn; rewrite ?(wf_len p W); unfold zlen in C; lia..].
  rewrite exec_bind_ret. cbn [sp_view data]. rewrite Hs.
  destruct (IH (i + 1)) as (ss & -> & FS); [lia..|]. rewrite exec_bind_ret.
  pose proof (wf_slots p W) as FF. rewrite Forall_forall in FF. destruct (FF s Hin).
  pose proof (wf_payload_len p s W Hin) as PL. rewrite Hp, zlen_app, v_enc_len in PL.
  pose proof (n_es _ _ _ N) as FE. rewrite Forall_forall in FE.
  destruct (FE e) as [Le _]; [by eapply list_elem_of_lookup_2|].
  change HEADER_SIZE with 16. rewrite !(proj2 (Z.ltb_ge _ _)) by lia. cbn [orb].
  eexists. split; [done|]. constructor; [lia|done].
Qed.

Lemma validate_ok d es link :
  node_ok (raw_page d) es link ->
  exists ss, validate_slots d (header_at d) = Ok (Some ss, [])
    /\ Forall (fun '(_, a, b) => 16 <= a /\ b <= 4096 /\ b - a = 32 + v_size) ss.
Proof.
  intros N. pose proof (n_wf _ _ _ N) as W. pose proof (wf_slot_count _ W) as SC.
  pose proof (wf_fit _ W) as F. pose proof (wf_free_lo _ W) as FL. pose proof (wf_len _ W) as HL.
  cbn [raw_page page page_header] in *. unfold validate_slots, sat_sub. page_consts.
  rewrite Z.max_l by lia. rewrite (proj2 (Z.ltb_ge _ _)) by lia.
  rewrite ref_new_ok by lia. rewrite exec_bind_ret.
  destruct (slots_checked_ok _ _ _ (Z.to_nat (slot_count (header_at d))) 0 N) as (ss & E & FS); [lia| |].
  { pose proof (node_count _ _ _ N) as C. cbn [raw_page page_header] in C. unfold zlen in C. lia. }
  change (sp_view (raw_page d)) with {| data := d; header := header_at d |} in E.
  cbn [raw_page page_header] in E. rewrite E, exec_bind_ret.
  rewrite !(proj2 (Z.ltb_ge _ _)) by lia. by exists ss.
Qed.

Lemma short_entries_none ss :
  Forall (fun '(_, a, b) => 16 <= a /\ b <= 4096 /\ b - a = 32 + v_size) ss ->
  short_entries (32 + v_size) ss = [].
Proof.
  induction 1 as [|[[i a] b] ss [? [? E]] _ IH]; [done|]. cbn [short_entries].
  rewrite E, Z.ltb_irrefl. done.
Qed.

Lemma entry_children_ok d ss :
  zlen d = 4096 -> 4 <= v_size ->
  Forall (fun '(_, a, b) => 16 <= a /\ b <= 4096 /\ b - a = 32 + v_size) ss ->
  exists cs, entry_children d (32 + v_size) ss = Ok cs.
Proof.
  intros HL H4. induction 1 as [|[[i a] b] ss (? & ? & E) _ [cs IH]]; [by eexists|].
  cbn [entry_children]. rewrite E, Z.ltb_irrefl. change MAX_KEY_LEN with 32.
  rewrite slice_get_ok by lia. rewrite exec_bind_ret, IH. by eexists.
Qed.

Lemma check_header d :
  zlen d = 4096 ->
  exists hb, slice_get (E:=BtError) d 0 HEADER_SIZE = Ok hb
    /\ header_deserialize (E:=BtError) hb = Ok (header_at d).
Proof.
  intros HL. exists (slice d 0 16). page_consts. split; [by rewrite slice_get_ok by lia|].
  rewrite header_deserialize_ok by (rewrite zlen_slice; lia). by rewrite header_at_window by lia.
Qed.
End intact.

Lemma leaf_intact d es link pid root :
  leaf_is (raw_page d) es link -> ensure_index_page_intact d pid root = Ok tt.
Proof.
  intros N. pose proof (wf_len _ (n_wf _ _ _ N)) as HL. cbn [raw_page page] in HL.
  destruct (check_header d HL) as (hb & E1 & E2). destruct (validate_ok d es link N) as (ss & E3 & F).
  unfold ensure_index_page_intact, check_tree_page. rewrite (proj2 (Z.ltb_ge _ _)) by page_lia.
  rewrite E1, exec_bind_ret, E2, exec_bind_ret.
  pose proof (n_type _ _ _ N) as T. cbn [raw_page page_header v_type leaf_codec] in T.
  rewrite T, bool_decide_eq_true_2 by done. rewrite E3. cbn [exec_bind]. change (default [] (Some ss)) with ss.
  apply short_entries_none in F. cbn [v_size leaf_codec] in F. change MAX_KEY_LEN with 32.
  change (32 + 6) with 38 in *. by rewrite F.
Qed.

Lemma internal_intact d c0 seps pid root :
  internal_is (raw_page d) c0 seps -> ensure_index_page_intact d pid root = Ok tt.
Proof.
  intros N. pose proof (wf_len _ (n_wf _ _ _ N)) as HL. cbn [raw_page page] in HL.
  destruct (check_header d HL) as (hb & E1 & E2). destruct (validate_ok d seps c0 N) as (ss & E3 & F).
  unfold ensure_index_page_intact, check_tree_page. rewrite (proj2 (Z.ltb_ge _ _)) by page_lia.
  rewrite E1, exec_bind_ret, E2, exec_bind_ret.
  pose proof (n_type _ _ _ N) as T. cbn [raw_page page_header v_type child_codec] in T.
  rewrite T, bool_decide_eq_false_2, bool_decide_eq_true_2 by done. rewrite E3.
  destruct (entry_children_ok d ss HL) as [cs EC]; [cbn; lia|done|]. cbn [v_size child_codec] in EC.
  apply short_entries_none in F. cbn [v_size child_codec] in F. change MAX_KEY_LEN with 32.
  cbn [exec_bind]. change (default [] (Some ss)) with ss. change (32 + 4) with 36 in *. by rewrite EC, F.
Qed.

(** A rebuilt leaf keeps its entries, with the new row where the key matches,
    and loses its next-leaf link. *)
Lemma leaf_update_ok p es link key r :
  leaf_is p es link -> zlen (key_data key) = 32 -> row_id_wf r -> zlen es <= 92 ->
  (exists e, es !! rank (kz (key_data key)) es = Some e /\ kz e.1 = kz (key_data key)) ->
  exists p', leaf_update p key r = Ok p'
    /\ leaf_is p' ((fun e => if kz e.1 =? kz (key_data key) then (e.1, r) else e) <$> es) 0 /\ dense p'.
Proof.
  intros N L Wr HL (e & He & Ez). unfold leaf_update. rewrite (leaf_position _ _ _ _ N L), exec_bind_ret.
  unfold key_count. cbn [sp_view header]. rewrite (node_count _ _ _ N).
  apply lookup_lt_Some in He as Hl. rewrite (proj2 (Z.leb_gt _ _)) by (unfold zlen; lia).
  rewrite (node_key _ _ _ _ N), Nat2Z.id, He by lia. cbn [fmap option_fmap option_map]. rewrite exec_bind_ret.
  pose proof (n_es _ _ _ N) as F. assert (zlen e.1 = 32) as Le.
  { rewrite Forall_forall in F. apply F. by eapply list_elem_of_lookup_2. }
  rewrite key_of_eqb, (proj2 (Z.eqb_eq _ _)) by done. rewrite (node_entries_ok _ _ _ N), exec_bind_ret.
  destruct (leaf_build_ok ((fun e => if kz e.1 =? kz (key_data key) then (e.1, r) else e) <$> es))
    as (q & Eq & Nq & Dq & _).
  { unfold wf_entries. apply Forall_fmap. eapply Forall_impl; [exact F|]. cbn. intros x [Lx Wx]. by case_match. }
  { unfold zlen in *. by rewrite length_fmap. }
  exists q. split; [|done]. rewrite <- Eq. f_equal. rewrite <- !list_fmap_compose.
  apply list_fmap_ext. intros i x Hx. cbn. assert (zlen x.1 = 32) as Lx.
  { rewrite Forall_forall in F. apply F. by eapply list_elem_of_lookup_2. }
  rewrite key_of_eqb by done. by case_match.
Qed.

(** The bytes a key is stored and compared as. *)
Definition pad32 (bs : list byte) : list byte := bs ++ replicate (32 - length bs) Byte.x00.

Lemma internal_search_binary_linear_witness :
  exists p, internal_build 5 [(key_of (pad32 [Byte.x61]), 6); (key_of (pad32 [Byte.x62]), 7)] = Ok p
    /\ find_child_page_id_binary (sp_view p) (key_of (pad32 [Byte.x61; Byte.x62])) = Ok 6
    /\ find_child_page_id_mut p (key_of (pad32 [Byte.x61; Byte.x62])) = Ok 6.
Proof.
  destruct (internal_build_ok 5 [(pad32 [Byte.x61], 6); (pad32 [Byte.x62], 7)]) as (p & E & N & _).
  { repeat constructor; vm_compute; done. }
  { vm_compute. done. }
  { vm_compute. done. }
  exists p. split; [exact E|].
  destruct (internal_search_binary_linear p 5 _ (key_of (pad32 [Byte.x61; Byte.x62])) N) as (-> & _ & ->).
  - clear. apply strict_cons. split; [apply SSorted_cons; constructor|]. apply Forall_singleton. by vm_compute.
  - clear. split; [done|]. by vm_compute.
  - clear. split; vm_compute; reflexivity.
Defined.
