(* ===== verification/BTree.v ===== *)
(** * B-trees over the page pool

    [src/storage/btree/btree.rs]: search, insertion with splits, update, leaf
    scans and the deletions, on the nodes of [BTreeNode].

    A computation reads and changes the [Pool]; it returns no result when its
    fuel is spent, which bounds the depth of a descent and the length of a
    leaf chain.  A page closure ([modify_page]) that fails leaves the page as
    it was; the failures that can happen on well-formed nodes come before the
    closure's first write. *)

From Stdlib Require Import ZArith Strings.Byte Lia Sorting.Sorted.
From stdpp Require Import base tactics list numbers gmap sorting.
From S2P Require Import Prelude RowKey PageLayout Version Overflow DataPage BTreeNode.
Import Key RowId.

(** ** Computations on the pool *)

Definition bt (A : Type) : Type := Pool -> option (exec BtError A * Pool).

Definition bt_ret {A} (a : A) : bt A := fun p => Some (Ok a, p).
Definition bt_fail {A} (e : BtError) : bt A := fun p => Some (Err e, p).
Definition bt_lift {A} (m : exec BtError A) : bt A := fun p => Some (m, p).
Definition bt_spent {A} : bt A := fun _ => None.

Definition bt_bind {A B} (m : bt A) (k : A -> bt B) : bt B := fun p =>
  match m p with
  | Some (Ok a, p) => k a p
  | Some (Err e, p) => Some (Err e, p)
  | Some (Panic, p) => Some (Panic, p)
  | None => None
  end.

Notation "'let!' p ':=' c 'in' k" := (bt_bind c (fun p => k))
  (at level 10, p pattern, c at level 200, k at level 200) : rust_scope.

(** The error as a value, for the callers that look at it. *)
Definition bt_try {A} (m : bt A) : bt (A + BtError) := fun p =>
  match m p with
  | Some (Ok a, p) => Some (Ok (inl a), p)
  | Some (Err e, p) => Some (Ok (inr e), p)
  | Some (Panic, p) => Some (Panic, p)
  | None => None
  end.

Definition load_page (pid : Z) : bt (list byte) := fun p =>
  match pool_pages p !! pid with
  | Some d => Some (Ok d, p)
  | None => Some (Err (BtPageMissing pid), p)
  end.

Definition bt_alloc : bt Z := fun p =>
  match allocate_page p with
  | Some (id, p) => Some (Ok id, p)
  | None => Some (Err BtAllocFailed, p)
  end.

Definition bt_free (pid : Z) : bt unit := fun p => Some (Ok tt, free_page p pid).

(** [load_page] and [modify_page]. *)
Definition modify_page {A} (pid : Z) (f : list byte -> exec BtError (list byte * A)) : bt A :=
  let! d := load_page pid in
  match f d with
  | Ok (d, a) => fun p => Some (Ok a, modify p pid d)
  | Err e => bt_fail e
  | Panic => bt_lift Panic
  end.

Definition bt_key (key : list byte) : bt Key :=
  bt_lift (exec_map_err (fun e : Empty_set => match e with end) (key_new key)).

(** The gate and the type byte of a page. *)
Definition load_intact (root pid : Z) : bt (list byte * bool) :=
  let! d := load_page pid in
  let! _ := bt_lift (ensure_index_page_intact d pid root) in
  let! b := bt_lift (index_get d 0) in
  bt_ret (d, bool_decide (b = LEAF_NODE)).

(** ** Creation and search *)

Definition btree_new : bt Z :=
  let! root := bt_alloc in
  let! _ := modify_page root (fun d => let? p := node_init (V:=RowId) d in Ok (page p, tt)) in
  bt_ret root.

(** Also [search_from_page_async], which awaits the pages. *)
Fixpoint search_from_page (fuel : nat) (root pid : Z) (key : Key) : bt (option RowId) :=
  match fuel with
  | O => bt_spent
  | S fuel =>
      let! (d, is_leaf) := load_intact root pid in
      let! p := bt_lift (ref_new d) in
      if (is_leaf : bool) then
        let! (found, pos) := bt_lift (find_key_position_binary p key) in
        if (found : bool) then bt_lift (get_value (V:=RowId) p pos) else bt_ret None
      else
        let! child := bt_lift (find_child_page_id_binary p key) in
        search_from_page fuel root child key
  end.

Definition search (fuel : nat) (root : Z) (key : list byte) : bt (option RowId) :=
  let! k := bt_key key in search_from_page fuel root root k.

(** ** Insertion *)

Record SplitResult := mk_split { middle_key : Key; new_page_id : Z }.

Definition leaf_insert_at (key : Key) (row_id : RowId) (d : list byte)
    : exec BtError (list byte * Z) :=
  let? p := from_page (V:=RowId) d in
  let? (p, i) := leaf_insert p key row_id in
  Ok (page p, i).

(** The right half as the new leaf, with the entry when it belongs there. *)
Definition fill_right_leaf (s : LeafSplitData) (new : option (Key * RowId)) (d : list byte)
    : exec BtError (list byte * unit) :=
  let? p := node_init (V:=RowId) d in
  let right_with_new :=
    match new with
    | Some e => sort_by_key (right_entries s ++ [e])
    | None => right_entries s
    end in
  let? p := insert_all p right_with_new in
  let? p := set_next_leaf_page_id p (old_next_page_id s) in
  Ok (page p, tt).

Definition link_leaf (next : Z) (d : list byte) : exec BtError (list byte * unit) :=
  let? p := from_page (V:=RowId) d in
  let? p := set_next_leaf_page_id p next in
  Ok (page p, tt).

Definition split_leaf (pid : Z) (key : Key) (row_id : RowId) : bt SplitResult :=
  let! new_page := bt_alloc in
  let! s := modify_page pid (fun d =>
    let? p := from_page (V:=RowId) d in
    let? (p, s) := leaf_split p new_page in
    Ok (page p, s)) in
  let key_in_right := match key_cmp key (l_middle_key s) with Lt => false | _ => true end in
  let! _ := if key_in_right then bt_ret 0 else modify_page pid (leaf_insert_at key row_id) in
  let! _ := modify_page new_page
              (fill_right_leaf s (if key_in_right then Some (key, row_id) else None)) in
  let! _ := modify_page pid (link_leaf (wrap32 new_page)) in
  bt_ret (mk_split (l_middle_key s) new_page).

Definition insert_into_leaf (pid : Z) (key : Key) (row_id : RowId) : bt (option SplitResult) :=
  let! r := bt_try (modify_page pid (leaf_insert_at key row_id)) in
  match r with
  | inl _ => bt_ret None
  | inr BtPageFull => let! s := split_leaf pid key row_id in bt_ret (Some s)
  | inr e => bt_fail e
  end.

Definition insert_separator_at (s : SplitResult) (child : Z) (d : list byte)
    : exec BtError (list byte * Z) :=
  let? p := from_page (V:=Z) d in
  let? (p, i) := insert_separator p (middle_key s) (new_page_id s) child in
  Ok (page p, i).

Definition fill_right_internal (s : InternalSplitData) (pending : option (SplitResult * Z))
    (d : list byte) : exec BtError (list byte * unit) :=
  let? p := node_init (V:=Z) d in
  let? p := set_leftmost_child p (new_leftmost_child s) in
  let? p := insert_all p (right_separators s) in
  match pending with
  | Some (c, child) =>
      let? (p, _) := insert_separator p (middle_key c) (new_page_id c) child in
      Ok (page p, tt)
  | None => Ok (page p, tt)
  end.

(** The pending separator goes to the half that still holds the split child. *)
Definition split_internal (pid : Z) (c : SplitResult) (child : Z) : bt SplitResult :=
  let! new_page := bt_alloc in
  let! s := modify_page pid (fun d =>
    let? p := from_page (V:=Z) d in
    let? (p, s) := internal_split p new_page in
    Ok (page p, s)) in
  let split_child := wrap32 child in
  let pending_in_right :=
    (new_leftmost_child s =? split_child)
    || existsb (fun e => e.2 =? split_child) (right_separators s) in
  let! _ := if pending_in_right then bt_ret 0 else modify_page pid (insert_separator_at c child) in
  let! _ := modify_page new_page
              (fill_right_internal s (if pending_in_right then Some (c, child) else None)) in
  bt_ret (mk_split (i_middle_key s) new_page).

Definition insert_child_split (pid : Z) (c : SplitResult) (child : Z) : bt (option SplitResult) :=
  let! r := bt_try (modify_page pid (insert_separator_at c child)) in
  match r with
  | inl _ => bt_ret None
  | inr BtPageFull => let! s := split_internal pid c child in bt_ret (Some s)
  | inr e => bt_fail e
  end.

(** [descent] holds the pages above; a page that is its own ancestor ends the
    descent with an error. *)
Fixpoint insert_into_page (fuel : nat) (root pid : Z) (key : Key) (row_id : RowId)
    (descent : list Z) : bt (option SplitResult) :=
  if bool_decide (pid ∈ descent) then bt_fail (DescentCycle pid)
  else
    match fuel with
    | O => bt_spent
    | S fuel =>
        let! (d, is_leaf) := load_intact root pid in
        if (is_leaf : bool) then insert_into_leaf pid key row_id
        else
          let! p := bt_lift (ref_new d) in
          let! child := bt_lift (find_child_page_id_binary p key) in
          let! c := insert_into_page fuel root child key row_id (pid :: descent) in
          match c with
          | None => bt_ret None
          | Some c => insert_child_split pid c child
          end
    end.

(** The root of the tree afterwards; the code answers it when it changed. *)
Definition btree_insert (fuel : nat) (root : Z) (key : list byte) (row_id : RowId) : bt Z :=
  let! k := bt_key key in
  let! s := insert_into_page fuel root root k row_id [] in
  match s with
  | None => bt_ret root
  | Some s =>
      let! new_root := bt_alloc in
      let! _ := modify_page new_root (fun d =>
        let? p := node_init (V:=Z) d in
        let? p := set_leftmost_child p (wrap32 root) in
        let? (p, _) := insert_separator p (middle_key s) (new_page_id s) root in
        Ok (page p, tt)) in
      bt_ret new_root
  end.

(** ** Update and scans *)

Fixpoint update_in_page (fuel : nat) (root pid : Z) (key : Key) (new_row_id : RowId) : bt unit :=
  match fuel with
  | O => bt_spent
  | S fuel =>
      let! (d, is_leaf) := load_intact root pid in
      if (is_leaf : bool) then
        modify_page pid (fun d =>
          let? p := from_page (V:=RowId) d in
          let? p := leaf_update p key new_row_id in
          Ok (page p, tt))
      else
        let! p := bt_lift (ref_new d) in
        let! child := bt_lift (find_child_page_id_binary p key) in
        update_in_page fuel root child key new_row_id
  end.

Definition btree_update (fuel : nat) (root : Z) (key : list byte) (new_row_id : RowId) : bt unit :=
  let! k := bt_key key in update_in_page fuel root root k new_row_id.

(** Down the leftmost children, then along the leaf chain; [first_iteration]
    makes no difference to the loop's exit. *)
Fixpoint scan_from (fuel : nat) (root pid : Z) (results : LeafEntries) : bt LeafEntries :=
  match fuel with
  | O => bt_spent
  | S fuel =>
      let! (d, is_leaf) := load_intact root pid in
      let! p := bt_lift (ref_new d) in
      if negb is_leaf then scan_from fuel root (leftmost_child p) results
      else
        let! es := bt_lift (node_entries (V:=RowId) p) in
        let next := next_page_id (header p) in
        if next =? 0 then bt_ret (results ++ es)
        else scan_from fuel root next (results ++ es)
  end.

Definition scan_all (fuel : nat) (root : Z) : bt LeafEntries := scan_from fuel root root [].

Fixpoint read_matches (p : SlottedPageRef) (idxs : list Z) : exec BtError (list RowId) :=
  match idxs with
  | [] => Ok []
  | i :: idxs =>
      let? r := get_value (V:=RowId) p i in
      let? rest := read_matches p idxs in
      Ok (match r with Some r => r :: rest | None => rest end)
  end.

(** The first separator equal to the key. *)
Fixpoint separator_match (p : SlottedPageRef) (key : Key) (n : nat) (i : Z) : exec BtError (option Z) :=
  match n with
  | O => Ok None
  | S n =>
      let? k := get_key (V:=Z) p i in
      match k with
      | Some k => if key_eqb k key then Ok (Some i) else separator_match p key n (i + 1)
      | None => separator_match p key n (i + 1)
      end
  end.

(** Both neighbours of an equal separator, or the one child of the descent. *)
Definition match_children (p : SlottedPageRef) (key : Key) : exec BtError (list Z) :=
  let? m := separator_match p key (Z.to_nat (key_count p)) 0 in
  match m with
  | Some i =>
      let? l := if i =? 0 then Ok (leftmost_child p) else child_or_leftmost p (i - 1) in
      let? r := child_or_leftmost p i in
      Ok [l; r]
  | None => let? c := find_child_page_id_binary p key in Ok [c]
  end.

Fixpoint search_all_from_page (fuel : nat) (root pid : Z) (key : Key) : bt (list RowId) :=
  match fuel with
  | O => bt_spent
  | S fuel =>
      let! (d, is_leaf) := load_intact root pid in
      let! p := bt_lift (ref_new d) in
      if (is_leaf : bool) then
        let! ms := bt_lift (find_all_matches p key) in
        bt_lift (read_matches p ms)
      else
        let! cs := bt_lift (match_children p key) in
        foldl (fun acc c =>
          let! rs := acc in
          let! more := search_all_from_page fuel root c key in
          bt_ret (rs ++ more)) (bt_ret []) cs
  end.

Definition search_all (fuel : nat) (root : Z) (key : list byte) : bt (list RowId) :=
  let! k := bt_key key in search_all_from_page fuel root root k.

(** ** Deletion without rebalancing *)

(** The slots of a leaf deleted from the last to the first. *)
Fixpoint delete_slots (p : SlottedPage) (idxs : list Z) : exec BtError SlottedPage :=
  match idxs with
  | [] => Ok p
  | i :: idxs => let? p := node_delete_slot p i in delete_slots p idxs
  end.

Fixpoint delete_all_from_page (fuel : nat) (root pid : Z) (key : Key) : bt Z :=
  match fuel with
  | O => bt_spent
  | S fuel =>
      let! (d, is_leaf) := load_intact root pid in
      let! p := bt_lift (ref_new d) in
      if (is_leaf : bool) then
        let! ms := bt_lift (find_all_matches p key) in
        match ms with
        | [] => bt_ret 0
        | _ =>
            let! _ := modify_page pid (fun d =>
              let? p := from_page (V:=RowId) d in
              let? p := delete_slots p (reverse ms) in
              Ok (page p, tt)) in
            bt_ret (zlen ms)
        end
      else
        let! cs := bt_lift (match_children p key) in
        foldl (fun acc c =>
          let! n := acc in
          let! m := delete_all_from_page fuel root c key in
          bt_ret (n + m)) (bt_ret 0) cs
  end.

Definition delete_by_key (fuel : nat) (root : Z) (key : list byte) : bt Z :=
  let! k := bt_key key in delete_all_from_page fuel root root k.

(** The first of the matching slots that holds the row. *)
Fixpoint find_row (p : SlottedPageRef) (row_id : RowId) (idxs : list Z) : exec BtError (option Z) :=
  match idxs with
  | [] => Ok None
  | i :: idxs =>
      let? r := get_value (V:=RowId) p i in
      if bool_decide (r = Some row_id) then Ok (Some i) else find_row p row_id idxs
  end.

(** The candidate children in turn, until one does not answer that the key is
    missing. *)
Fixpoint try_children (f : Z -> bt unit) (cs : list Z) : bt unit :=
  match cs with
  | [] => bt_fail KeyNotFound
  | c :: cs =>
      let! r := bt_try (f c) in
      match r with
      | inl _ => bt_ret tt
      | inr KeyNotFound => try_children f cs
      | inr e => bt_fail e
      end
  end.

Fixpoint delete_exact_from_page (fuel : nat) (root pid : Z) (key : Key) (row_id : RowId) : bt unit :=
  match fuel with
  | O => bt_spent
  | S fuel =>
      let! (d, is_leaf) := load_intact root pid in
      let! p := bt_lift (ref_new d) in
      if (is_leaf : bool) then
        let! ms := bt_lift (find_all_matches p key) in
        let! target := bt_lift (find_row p row_id ms) in
        match target with
        | Some idx =>
            modify_page pid (fun d =>
              let? p := from_page (V:=RowId) d in
              let? p := node_delete_slot p idx in
              Ok (page p, tt))
        | None => bt_fail KeyNotFound
        end
      else
        let! cs := bt_lift (equality_candidate_children p key) in
        try_children (fun c => delete_exact_from_page fuel root c key row_id) cs
  end.

Definition delete_exact (fuel : nat) (root : Z) (key : list byte) (row_id : RowId) : bt unit :=
  let! k := bt_key key in delete_exact_from_page fuel root root k row_id.

(** ** Deletion with rebalancing *)

Definition MIN_KEYS : Z := 46.

Record MergeInfo := mk_merge { separator_key : Key; new_root : option Z }.

(** The left and the right sibling of the [child_index]-th child. *)
Definition sibling_ids (root parent child_index : Z) : bt (option Z * option Z) :=
  let! d := load_page parent in
  let! _ := bt_lift (ensure_index_page_intact d parent root) in
  let! p := bt_lift (ref_new d) in
  let! l :=
    if 0 <? child_index then
      if child_index =? 1 then bt_ret (Some (leftmost_child p))
      else bt_lift (get_value (V:=Z) p (child_index - 2))
    else bt_ret None in
  let! r :=
    if child_index <? key_count p then bt_lift (get_value (V:=Z) p child_index)
    else bt_ret None in
  bt_ret (l, r).

(** [leaf_key_count] and [internal_key_count]. *)
Definition node_key_count (root pid : Z) : bt Z :=
  let! d := load_page pid in
  let! _ := bt_lift (ensure_index_page_intact d pid root) in
  let! p := bt_lift (ref_new d) in
  bt_ret (key_count p).

Definition read_leaf_pair (root left right : Z) : bt (LeafEntries * LeafEntries) :=
  let! ld := load_page left in
  let! rd := load_page right in
  let! _ := bt_lift (ensure_index_page_intact ld left root) in
  let! _ := bt_lift (ensure_index_page_intact rd right root) in
  let! lp := bt_lift (ref_new ld) in
  let! rp := bt_lift (ref_new rd) in
  let! ls := bt_lift (node_entries (V:=RowId) lp) in
  let! rs := bt_lift (node_entries (V:=RowId) rp) in
  bt_ret (ls, rs).

Definition rebuild_leaf (pid : Z) (es : LeafEntries) : bt unit :=
  modify_page pid (fun d =>
    let? r := ref_new d in
    let? p := node_init (V:=RowId) d in
    let? p := insert_all p es in
    let? p := set_next_leaf_page_id p (next_page_id (header r)) in
    Ok (page p, tt)).

Definition read_internal_seps (root pid : Z) : bt (InternalSeps * Z) :=
  let! d := load_page pid in
  let! _ := bt_lift (ensure_index_page_intact d pid root) in
  let! p := bt_lift (ref_new d) in
  let! ss := bt_lift (node_entries (V:=Z) p) in
  bt_ret (ss, leftmost_child p).

Definition rebuild_internal (pid leftmost : Z) (seps : InternalSeps) : bt unit :=
  modify_page pid (fun d =>
    let? p := node_init (V:=Z) d in
    let? p := set_leftmost_child p leftmost in
    let? p := insert_all p seps in
    Ok (page p, tt)).

Definition get_parent_separator_key (root parent slot : Z) : bt (option Key) :=
  let! d := load_page parent in
  let! _ := bt_lift (ensure_index_page_intact d parent root) in
  let! p := bt_lift (ref_new d) in
  bt_lift (get_key (V:=Z) p slot).

Definition update_parent_separator (root parent slot : Z) (key : Key) (child : Z) : bt unit :=
  let! d := load_page parent in
  let! _ := bt_lift (ensure_index_page_intact d parent root) in
  modify_page parent (fun d =>
    let? p := from_page (V:=Z) d in
    let? p := replace_separator p slot key child in
    Ok (page p, tt)).

(** [redistribute_leaf_right]; the right sibling's separator is [sep_slot]. *)
Definition redistribute_leaf (root left right parent sep_slot : Z) : bt (option MergeInfo) :=
  let! (ls, rs) := read_leaf_pair root left right in
  let all := sort_by_key (ls ++ rs) in
  let mid := (length all / 2)%nat in
  match drop mid all with
  | [] => bt_lift Panic
  | (k, r) :: share =>
      let! _ := rebuild_leaf left (take mid all) in
      let! _ := rebuild_leaf right ((k, r) :: share) in
      let! _ := update_parent_separator root parent sep_slot k right in
      bt_ret None
  end.

Definition redistribute_leaf_left (root left right parent child_index : Z) : bt (option MergeInfo) :=
  redistribute_leaf root left right parent (child_index - 1).

Definition remove_separator_at (parent sep_slot : Z) : bt unit :=
  modify_page parent (fun d =>
    let? p := from_page (V:=Z) d in
    let? p := node_delete_slot p sep_slot in
    Ok (page p, tt)).

Definition merge_leaves (root left right parent right_child_index : Z) : bt MergeInfo :=
  let! rd := load_page right in
  let! rp := bt_lift (ref_new rd) in
  let right_next := next_page_id (header rp) in
  let! (ls, rs) := read_leaf_pair root left right in
  let! empty := bt_key [] in
  let sep_key := match rs with (k, _) :: _ => k | [] => empty end in
  let! _ := rebuild_leaf left (ls ++ rs) in
  let! _ := modify_page left (link_leaf right_next) in
  let! _ := bt_free right in
  let! _ := remove_separator_at parent (right_child_index - 1) in
  bt_ret (mk_merge sep_key None).

Definition handle_leaf_underflow (root pid child_index parent : Z) : bt (option MergeInfo) :=
  let! (left_sib, right_sib) := sibling_ids root parent child_index in
  let! rich_right :=
    match right_sib with
    | Some r => let! n := node_key_count root r in bt_ret (MIN_KEYS <? n)
    | None => bt_ret false
    end in
  match rich_right, right_sib with
  | true, Some r => redistribute_leaf root pid r parent child_index
  | _, _ =>
      let! rich_left :=
        match left_sib with
        | Some l => let! n := node_key_count root l in bt_ret (MIN_KEYS <? n)
        | None => bt_ret false
        end in
      match rich_left, left_sib, right_sib with
      | true, Some l, _ => redistribute_leaf_left root l pid parent child_index
      | _, Some l, _ =>
          let! m := merge_leaves root l pid parent child_index in bt_ret (Some m)
      | _, None, Some r =>
          let! m := merge_leaves root pid r parent (child_index + 1) in bt_ret (Some m)
      | _, None, None =>
          let! d := load_page parent in
          let! b := bt_lift (index_get d 0) in
          let! p := bt_lift (ref_new d) in
          if bool_decide (b = INTERNAL_NODE) && (key_count p =? 0) then
            let! empty := bt_key [] in bt_ret (Some (mk_merge empty (Some pid)))
          else bt_fail UnderflowNoSiblings
      end
  end.

Definition delete_from_leaf (root pid : Z) (key : Key) (parent : option (Z * Z))
    : bt (option MergeInfo) :=
  let! _ := modify_page pid (fun d =>
    let? p := from_page (V:=RowId) d in
    let? p := leaf_delete p key in
    Ok (page p, tt)) in
  let! d := load_page pid in
  let! p := bt_lift (ref_new d) in
  if MIN_KEYS <=? key_count p then bt_ret None
  else
    match parent with
    | None => bt_ret None
    | Some (parent, child_index) => handle_leaf_underflow root pid child_index parent
    end.

(** [redistribute_internal_right]; the right sibling's separator is
    [sep_slot]. *)
Definition redistribute_internal (root left right parent sep_slot : Z) : bt (option MergeInfo) :=
  let! parent_sep := get_parent_separator_key root parent sep_slot in
  let! (ls, l_lm) := read_internal_seps root left in
  let! (rs, r_lm) := read_internal_seps root right in
  let all := sort_by_key (ls ++ match parent_sep with Some k => [(k, r_lm)] | None => [] end ++ rs) in
  let mid := (length all / 2)%nat in
  match drop mid all with
  | [] => bt_lift Panic
  | (k, c) :: share =>
      let! _ := rebuild_internal left l_lm (take mid all) in
      let! _ := rebuild_internal right c share in
      let! _ := update_parent_separator root parent sep_slot k right in
      bt_ret None
  end.

Definition redistribute_internal_left (root left right parent right_child_index : Z)
    : bt (option MergeInfo) :=
  redistribute_internal root left right parent (right_child_index - 1).

Definition merge_internal_nodes (root left right parent right_child_index : Z) : bt MergeInfo :=
  let! parent_sep := get_parent_separator_key root parent (right_child_index - 1) in
  let! (ls, l_lm) := read_internal_seps root left in
  let! (rs, r_lm) := read_internal_seps root right in
  match match ls with (k, _) :: _ => Some k | [] => parent_sep end with
  | None => bt_lift Panic
  | Some merged_sep =>
      let all := sort_by_key (ls ++ match parent_sep with Some k => [(k, r_lm)] | None => [] end ++ rs) in
      let! _ := rebuild_internal left l_lm all in
      let! _ := bt_free right in
      let! _ := remove_separator_at parent (right_child_index - 1) in
      bt_ret (mk_merge merged_sep None)
  end.

Definition handle_internal_underflow (root pid child_index parent : Z) : bt (option MergeInfo) :=
  let! (left_sib, right_sib) := sibling_ids root parent child_index in
  let! rich_right :=
    match right_sib with
    | Some r => let! n := node_key_count root r in bt_ret (MIN_KEYS <? n)
    | None => bt_ret false
    end in
  match rich_right, right_sib with
  | true, Some r => redistribute_internal root pid r parent child_index
  | _, _ =>
      let! rich_left :=
        match left_sib with
        | Some l => let! n := node_key_count root l in bt_ret (MIN_KEYS <? n)
        | None => bt_ret false
        end in
      match rich_left, left_sib, right_sib with
      | true, Some l, _ => redistribute_internal_left root l pid parent child_index
      | _, Some l, _ =>
          let! m := merge_internal_nodes root l pid parent child_index in bt_ret (Some m)
      | _, None, Some r =>
          let! m := merge_internal_nodes root pid r parent (child_index + 1) in bt_ret (Some m)
      | _, None, None => bt_fail UnderflowNoSiblings
      end
  end.

Definition shrink_root (root_id : Z) : bt (option Z) :=
  let! d := load_page root_id in
  let! b := bt_lift (index_get d 0) in
  let! p := bt_lift (ref_new d) in
  if bool_decide (b = INTERNAL_NODE) && (key_count p =? 0) then
    let! _ := bt_free root_id in bt_ret (Some (leftmost_child p))
  else bt_ret None.

Definition find_separator_slot (root pid : Z) (target : Key) : bt (option Z) :=
  let! d := load_page pid in
  let! _ := bt_lift (ensure_index_page_intact d pid root) in
  let! p := bt_lift (ref_new d) in
  bt_lift (separator_match p target (Z.to_nat (key_count p)) 0).

Definition handle_child_merge (root pid : Z) (mi : MergeInfo) (parent : option (Z * Z))
    : bt (option MergeInfo) :=
  let! slot := find_separator_slot root pid (separator_key mi) in
  let! _ := match slot with Some s => remove_separator_at pid s | None => bt_ret tt end in
  let! d := load_page pid in
  let! p := bt_lift (ref_new d) in
  let needs_action :=
    match parent with
    | None => key_count p =? 0
    | Some _ => key_count p <? MIN_KEYS
    end in
  if negb needs_action then bt_ret None
  else
    match parent with
    | None =>
        let! nr := shrink_root pid in
        bt_ret (Some (mk_merge (separator_key mi) nr))
    | Some (parent, child_index) => handle_internal_underflow root pid child_index parent
    end.

(** [parent] is the page above with the index of this page among its
    children. *)
Fixpoint delete_from_page (fuel : nat) (root pid : Z) (key : Key) (parent : option (Z * Z))
    : bt (option MergeInfo) :=
  match fuel with
  | O => bt_spent
  | S fuel =>
      let! (d, is_leaf) := load_intact root pid in
      if (is_leaf : bool) then delete_from_leaf root pid key parent
      else
        let! p := bt_lift (ref_new d) in
        let! (child, child_index) := bt_lift (find_child_position p key) in
        let! mi := delete_from_page fuel root child key (Some (pid, child_index)) in
        match mi with
        | None => bt_ret None
        | Some mi =>
            match new_root mi with
            | Some _ => bt_ret (Some mi)
            | None => handle_child_merge root pid mi parent
            end
        end
  end.

(** The new root, when there is one. *)
Definition btree_delete (fuel : nat) (root : Z) (key : list byte) : bt (option Z) :=
  let! k := bt_key key in
  let! mi := delete_from_page fuel root root k None in
  bt_ret (match mi with Some mi => new_root mi | None => None end).

(** ** The tree in the pool *)

Definition within (lo hi : Z) (es : Leaf) : Prop := Forall (fun e => lo <= kz e.1 < hi) es.

(** The children of an internal node: [T] holds of each on the range between
    the separators around it. *)
Fixpoint kids (T : Z -> Z -> Z -> Leaf -> list Z -> Prop) (lo hi c : Z) (seps : Seps)
    (es : Leaf) (ids : list Z) : Prop :=
  match seps with
  | [] => lo < hi /\ T c lo hi es ids
  | s :: seps =>
      lo < kz s.1 /\ exists es1 es2 ids1 ids2,
        es = es1 ++ es2 /\ ids = ids1 ++ ids2 /\ T c lo (kz s.1) es1 ids1
        /\ kids T (kz s.1) hi s.2 seps es2 ids2
  end.

Section tree.
Context (D : SlottedPage -> Prop).

(** The page [pid] is the root of a tree of height [h] that holds exactly the
    entries [es], all with keys in [lo, hi), on the pages [ids]. *)
Fixpoint tree_at (h : nat) (m : gmap Z (list byte)) (pid lo hi : Z) (es : Leaf) (ids : list Z)
    : Prop :=
  in_u32 pid /\
  match h with
  | O =>
      exists d link, m !! pid = Some d /\ leaf_is (raw_page d) es link /\ D (raw_page d)
        /\ strict es /\ within lo hi es /\ ids = [pid]
  | S h =>
      exists d c0 seps ids', m !! pid = Some d /\ internal_is (raw_page d) c0 seps /\ D (raw_page d)
        /\ kids (tree_at h m) lo hi c0 seps es ids' /\ ids = pid :: ids'
  end.

Lemma kids_impl (T T' : Z -> Z -> Z -> Leaf -> list Z -> Prop) seps : forall lo hi c es ids,
  (forall c lo hi es ids', T c lo hi es ids' -> ids' ⊆ ids -> T' c lo hi es ids') ->
  kids T lo hi c seps es ids -> kids T' lo hi c seps es ids.
Proof.
  induction seps as [|s seps IH]; intros lo hi c es ids HT K; cbn [kids] in *.
  - destruct K as [? K]. split; [done|]. by apply HT.
  - destruct K as (? & es1 & es2 & ids1 & ids2 & -> & -> & K1 & K2). split; [done|].
    exists es1, es2, ids1, ids2. split_and!; [done..| |].
    + apply HT; [done|set_solver].
    + apply IH; [|done]. intros. apply HT; [done|set_solver].
Qed.

Lemma tree_frame h : forall m m' pid lo hi es ids,
  (forall i, i ∈ ids -> m' !! i = m !! i) ->
  tree_at h m pid lo hi es ids -> tree_at h m' pid lo hi es ids.
Proof.
  induction h as [|h IH]; intros m m' pid lo hi es ids Hm [Hp T]; (split; [done|]).
  - destruct T as (d & link & Hd & ?). exists d, link. rewrite Hm; [done|].
    destruct_and!. subst. set_solver.
  - destruct T as (d & c0 & seps & ids' & Hd & N & HD & K & ->).
    exists d, c0, seps, ids'. rewrite Hm by set_solver. split_and!; [done..| |done].
    eapply kids_impl; [|exact K]. intros c a b l i HT Hsub. eapply IH; [|exact HT].
    intros. apply Hm. set_solver.
Qed.

(** What every tree satisfies, children included. *)
Definition sound (T : Z -> Z -> Z -> Leaf -> list Z -> Prop) : Prop :=
  forall c lo hi es ids, T c lo hi es ids ->
    in_u32 c /\ c ∈ ids /\ strict es /\ within lo hi es.

Lemma kids_sound T seps : sound T -> forall lo hi c es ids,
  kids T lo hi c seps es ids ->
  lo < hi /\ strict es /\ within lo hi es /\ strict seps
  /\ Forall (fun s => lo < kz s.1 < hi) seps /\ (forall i, i ∈ c :: seps.*2 -> i ∈ ids).
Proof.
  intros HT. induction seps as [|s seps IH]; intros lo hi c es ids K; cbn [kids] in K.
  - destruct K as [? K]. destruct (HT _ _ _ _ _ K) as (? & ? & ? & ?).
    split_and!; try done; [apply SSorted_nil|set_solver].
  - destruct K as (Hlo & es1 & es2 & ids1 & ids2 & -> & -> & K1 & K2).
    destruct (HT _ _ _ _ _ K1) as (? & Hc & S1 & W1).
    destruct (IH _ _ _ _ _ K2) as (Hlt & S2 & W2 & SS & SW & I2).
    unfold within in *. rewrite !Forall_forall in *. split_and!.
    + lia.
    + apply strict_app. split_and!; [done..|]. intros x y Hx Hy.
      specialize (W1 x Hx). specialize (W2 y Hy). cbn in *. lia.
    + intros x. rewrite elem_of_app. intros [Hx|Hx]; [specialize (W1 x Hx)|specialize (W2 x Hx)];
        cbn in *; lia.
    + apply strict_cons. split; [done|]. apply Forall_forall. intros x Hx. specialize (SW x Hx). lia.
    + intros x Hx. apply elem_of_cons in Hx as [->|Hx]; [lia|]. specialize (SW x Hx). lia.
    + intros i. cbn. rewrite elem_of_cons. intros [->|Hi]; [set_solver|]. apply elem_of_app. right.
      by apply I2.
Qed.

Lemma tree_sound h m : sound (tree_at h m).
Proof.
  induction h as [|h IH]; intros pid lo hi es ids [Hp T].
  - destruct T as (d & link & ? & ? & ? & ? & ? & ->). split_and!; try done. set_solver.
  - destruct T as (d & c0 & seps & ids' & ? & ? & ? & K & ->).
    destruct (kids_sound _ _ IH _ _ _ _ _ K) as (? & ? & ? & _). split_and!; try done. set_solver.
Qed.

(** ** Search *)

(** The row a key leads to. *)
Fixpoint assoc (z : Z) (es : Leaf) : option RowId :=
  match es with
  | [] => None
  | e :: es => if kz e.1 =? z then Some e.2 else assoc z es
  end.

Lemma assoc_app z l k :
  assoc z (l ++ k) = match assoc z l with Some r => Some r | None => assoc z k end.
Proof. induction l as [|e l IH]; [done|]. cbn [app assoc]. by destruct (kz e.1 =? z). Qed.

Lemma assoc_out z es : Forall (fun e => kz e.1 <> z) es -> assoc z es = None.
Proof. induction 1 as [|e es He _ IH]; [done|]. cbn. by rewrite (proj2 (Z.eqb_neq _ _)). Qed.

Lemma assoc_rank z es :
  ascending es ->
  assoc z es = if (position_of z es).1 then snd <$> es !! rank z es else None.
Proof.
  unfold position_of. cbn [fst]. induction es as [|e es IH]; intros A; [done|].
  apply ascending_cons in A as [A F]. cbn [assoc rank].
  destruct (Z.eqb_spec (kz e.1) z) as [E|E].
  - rewrite (proj2 (Z.ltb_ge _ _)) by lia. cbn. by rewrite E, Z.eqb_refl.
  - destruct (Z.ltb_spec (kz e.1) z).
    { change ((e :: es) !! S (rank z es)) with (es !! rank z es). by apply IH. }
    cbn. rewrite (proj2 (Z.eqb_neq _ _)) by done. apply assoc_out.
    eapply Forall_impl; [exact F|]. cbn. intros. lia.
Qed.

Lemma kids_route T seps z : sound T -> forall lo hi c es ids,
  kids T lo hi c seps es ids -> lo <= z < hi ->
  exists lo' hi' es' ids', T (route z c seps) lo' hi' es' ids' /\ lo' <= z < hi'
    /\ assoc z es = assoc z es'.
Proof.
  intros HT. induction seps as [|s seps IH]; intros lo hi c es ids K Hz; cbn [kids route] in *.
  - destruct K as [_ K]. eauto 10.
  - destruct K as (Hlo & es1 & es2 & ids1 & ids2 & -> & -> & K1 & K2).
    destruct (kids_sound _ _ HT _ _ _ _ _ K2) as (_ & _ & W2 & _).
    destruct (HT _ _ _ _ _ K1) as (_ & _ & _ & W1). unfold within in *.
    rewrite assoc_app. destruct (Z.ltb_spec z (kz s.1)) as [Hlt|Hge].
    + exists lo, (kz s.1), es1, ids1. split_and!; [done|lia|lia|]. case_match; [done|].
      apply assoc_out. eapply Forall_impl; [exact W2|]. cbn. intros. lia.
    + rewrite (assoc_out z es1); [|eapply Forall_impl; [exact W1|]; cbn; intros; lia].
      apply (IH _ _ _ _ _ K2). lia.
Qed.

Lemma bind_ok {A B} (m : bt A) (k : A -> bt B) p a p' :
  m p = Some (Ok a, p') -> bt_bind m k p = k a p'.
Proof. intros E. unfold bt_bind. by rewrite E. Qed.

Lemma bind_lift {A B} (m : exec BtError A) (k : A -> bt B) p a :
  m = Ok a -> bt_bind (bt_lift m) k p = k a p.
Proof. intros ->. done. Qed.

Lemma load_leaf root pid d es link p :
  pool_pages p !! pid = Some d -> leaf_is (raw_page d) es link ->
  load_intact root pid p = Some (Ok (d, true), p) /\ ref_new (E:=BtError) d = Ok (sp_view (raw_page d)).
Proof.
  intros Hd N. pose proof (wf_len _ (n_wf _ _ _ N)) as HL. cbn [raw_page page] in HL.
  pose proof (n_type _ _ _ N) as T. cbn [raw_page page_header] in T. split.
  - unfold load_intact. rewrite (bind_ok _ _ p d p) by (unfold load_page; by rewrite Hd).
    rewrite (bind_lift _ _ _ tt) by (by eapply leaf_intact).
    rewrite (bind_lift _ _ _ (page_type (header_at d))) by (rewrite index_get_hd by lia; done).
    rewrite T. by rewrite bool_decide_eq_true_2.
  - by rewrite ref_new_ok by lia.
Qed.

Lemma load_internal root pid d c0 seps p :
  pool_pages p !! pid = Some d -> internal_is (raw_page d) c0 seps ->
  load_intact root pid p = Some (Ok (d, false), p) /\ ref_new (E:=BtError) d = Ok (sp_view (raw_page d)).
Proof.
  intros Hd N. pose proof (wf_len _ (n_wf _ _ _ N)) as HL. cbn [raw_page page] in HL.
  pose proof (n_type _ _ _ N) as T. cbn [raw_page page_header] in T. split.
  - unfold load_intact. rewrite (bind_ok _ _ p d p) by (unfold load_page; by rewrite Hd).
    rewrite (bind_lift _ _ _ tt) by (by eapply internal_intact).
    rewrite (bind_lift _ _ _ (page_type (header_at d))) by (rewrite index_get_hd by lia; done).
    rewrite T. by rewrite bool_decide_eq_false_2.
  - by rewrite ref_new_ok by lia.
Qed.

Lemma search_tree h : forall fuel root p pid lo hi es ids key,
  tree_at h (pool_pages p) pid lo hi es ids -> zlen (key_data key) = 32 ->
  lo <= kz (key_data key) < hi -> (h < fuel)%nat ->
  search_from_page fuel root pid key p = Some (Ok (assoc (kz (key_data key)) es), p).
Proof.
  induction h as [|h IH]; intros fuel root p pid lo hi es ids key [Hp T] L Hz Hf;
    (destruct fuel as [|fuel]; [lia|]); cbn [search_from_page].
  - destruct T as (d & link & Hd & N & _ & S & _). destruct (load_leaf root pid d es link p Hd N) as [E1 E2].
    rewrite (bind_ok _ _ _ _ _ E1), (bind_lift _ _ _ _ E2).
    rewrite (bind_lift _ _ _ _ (position_binary _ _ _ _ N S L)).
    rewrite (assoc_rank _ _ (strict_ascending _ S)). unfold position_of. cbn [fst].
    destruct (match es !! rank (kz (key_data key)) es with Some e => kz e.1 =? kz (key_data key) | None => false end);
      [|done].
    unfold bt_lift. rewrite (node_value _ _ _ _ N) by lia. by rewrite Nat2Z.id.
  - destruct T as (d & c0 & seps & ids' & Hd & N & _ & K & _).
    destruct (load_internal root pid d c0 seps p Hd N) as [E1 E2].
    destruct (kids_sound _ _ (tree_sound h _) _ _ _ _ _ K) as (_ & _ & _ & SS & _).
    rewrite (bind_ok _ _ _ _ _ E1), (bind_lift _ _ _ _ E2).
    rewrite (bind_lift _ _ _ _ (child_binary _ _ _ _ N SS L)).
    destruct (kids_route _ _ _ (tree_sound h _) _ _ _ _ _ K Hz) as (lo' & hi' & es' & ids1 & HT & Hz' & ->).
    apply (IH _ _ _ _ lo' hi' es' ids1); (done || lia).
Qed.
End tree.
