(* ===== verification/BTreeInsert.v ===== *)
(** * Insertion into a B-tree is insertion into its entries

    The proofs about [BTree.btree_insert]: leaf and internal splits, the
    separator that follows a split child, the new root. *)

From Stdlib Require Import ZArith Strings.Byte Lia Sorting.Sorted.
From stdpp Require Import base tactics list numbers gmap sorting.
From S2P Require Import Prelude RowKey PageLayout Version Overflow DataPage BTreeNode BTree.
Import Key RowId.

(** ** Insertion *)

(** A node that can be split when it is full: it never lost a slot, or it has
    two entries. *)
Definition splittable (p : SlottedPage) : Prop := dense p \/ 2 <= slot_count (page_header p).

(** A stored key has the length its bytes show; only the bytes count. *)
Definition norm {V} (e : Key * V) : Key * V := (key_of (key_data e.1), e.2).

Section norm.
Context {V : Type} `{NodeCodec V}.

Lemma insert_all_norm l : forall p, insert_all p (norm <$> l) = insert_all p l.
Proof.
  induction l as [|[k v] l IH]; intros p; [done|]. cbn [fmap list_fmap]. unfold norm at 1.
  cbn [insert_all fst snd]. unfold insert_simple, entry_bytes. cbn [key_of key_data].
  destruct (free_space p <? _); [done|]. destruct (add_slot p _) as [[q i]| |]; cbn [exec_bind]; auto.
Qed.

Lemma sort_norm (l : list (Key * V)) : norm <$> sort_by_key l = sort_by_key (norm <$> l).
Proof.
  induction l as [|e l IH]; [done|].
  change (norm <$> sort_insert e (sort_by_key l) = sort_insert (norm e) (sort_by_key (norm <$> l))).
  rewrite <- IH. generalize (sort_by_key l) as k. induction k as [|x k IHk]; [done|].
  cbn [fmap list_fmap sort_insert]. change (key_cmp (norm e).1 (norm x).1) with (key_cmp e.1 x.1).
  case_match; cbn [fmap list_fmap]; [done|done|by rewrite IHk].
Qed.

Lemma norm_entry_of (l : list (list byte * V)) : norm <$> (entry_of <$> l) = entry_of <$> l.
Proof. rewrite <- list_fmap_compose. by apply list_fmap_ext. Qed.

Lemma from_page_ok d es link :
  node_ok (raw_page d) es link -> from_page (V:=V) d = Ok (raw_page d).
Proof.
  intros N. unfold from_page. rewrite raw_page_new by apply (wf_len _ (n_wf _ _ _ N)).
  rewrite exec_bind_ret, bool_decide_eq_true_2 by apply (n_type _ _ _ N). done.
Qed.

Lemma node_raw p es link : node_ok p es link -> node_ok (raw_page (page p)) es link.
Proof. intros N. by rewrite raw_of_wf by apply (n_wf _ _ _ N). Qed.
End norm.

Lemma modify_ok {A} pid f p d d' (a : A) :
  pool_pages p !! pid = Some d -> f d = Ok (d', a) ->
  modify_page pid f p = Some (Ok a, modify p pid d').
Proof.
  intros Hd Hf. unfold modify_page. rewrite (bind_ok _ _ p d p) by (unfold load_page; by rewrite Hd).
  by rewrite Hf.
Qed.

Lemma modify_err {A} pid (f : list byte -> exec BtError (list byte * A)) p d e :
  pool_pages p !! pid = Some d -> f d = Err e -> modify_page pid f p = Some (Err e, p).
Proof.
  intros Hd Hf. unfold modify_page. rewrite (bind_ok _ _ p d p) by (unfold load_page; by rewrite Hd).
  by rewrite Hf.
Qed.

Lemma leaf_insert_at_room d es link key r :
  leaf_is (raw_page d) es link -> strict es -> zlen (key_data key) = 32 -> row_id_wf r ->
  44 <= free_space (raw_page d) ->
  exists d' i, leaf_insert_at key r d = Ok (d', i)
    /\ leaf_is (raw_page d') (place (key_data key, r) es) link
    /\ (dense (raw_page d) -> dense (raw_page d')).
Proof.
  intros N S L W R. destruct (leaf_insert_room _ _ _ key r N (strict_ascending _ S) L W R) as (q & E & Nq & Dq).
  exists (page q), (Z.of_nat (rank (kz (key_data key)) es)). unfold leaf_insert_at.
  rewrite (from_page_ok d es link N), exec_bind_ret, E, exec_bind_ret.
  rewrite raw_of_wf by apply (n_wf _ _ _ Nq). done.
Qed.

Lemma place_left e l r :
  Forall (fun x => kz e.1 < kz x.1) r -> place e (l ++ r) = place (V:=RowId) e l ++ r.
Proof.
  intros F. induction l as [|x l IH]; cbn [app place].
  - by rewrite place_low.
  - case_match; [done|]. by rewrite IH.
Qed.

Lemma place_right e l r :
  Forall (fun x => kz x.1 <= kz e.1) l -> place e (l ++ r) = l ++ place (V:=RowId) e r.
Proof.
  induction 1 as [|x l Hx _ IH]; [done|]. cbn [app place]. rewrite (proj2 (Z.ltb_ge _ _)) by lia.
  by rewrite IH.
Qed.

Lemma length_place e es : length (place (V:=RowId) e es) = S (length es).
Proof. induction es; cbn [place length]; [done|]. case_match; cbn [length]; lia. Qed.

(** The new right leaf. *)
Lemma fill_right_ok s right link new es2 d :
  right_entries s = entry_of <$> right -> old_next_page_id s = link -> in_u32 link ->
  zlen d = 4096 -> zlen es2 <= 92 -> wf_entries right -> wf_entries es2 -> ascending right ->
  match new with
  | Some (k, r) => zlen (key_data k) = 32 /\ row_id_wf r /\ es2 = place (key_data k, r) right
  | None => es2 = right
  end ->
  exists d', fill_right_leaf s new d = Ok (d', tt) /\ leaf_is (raw_page d') es2 link /\ dense (raw_page d').
Proof.
  intros ER EL Hl HZ H92 WR W2 A HN. unfold fill_right_leaf. rewrite ER, EL.
  destruct (node_init_ok (V:=RowId) d HZ) as (p & -> & N & Dp & F). rewrite exec_bind_ret.
  destruct (insert_all_ok es2 p [] 0 N W2) as (q & Eq & Nq & Dq & _); [cbn [v_size leaf_codec]; lia|].
  assert (insert_all p (match new with Some e => sort_by_key ((entry_of <$> right) ++ [e])
            | None => entry_of <$> right end) = Ok q) as ->.
  { destruct new as [[k r]|]; [|by subst es2]. destruct HN as (Lk & Wr & ->).
    rewrite <- insert_all_norm, sort_norm, fmap_app, norm_entry_of.
    rewrite <- Eq. f_equal.
    rewrite <- (sort_placed right (key_data k, r)) by done. by rewrite fmap_app. }
  rewrite exec_bind_ret. destruct (set_next_leaf_ok q _ 0 link Nq Hl) as (q' & -> & Nq' & Dq' & _).
  exists (page q'). rewrite exec_bind_ret, raw_of_wf by apply (n_wf _ _ _ Nq'). auto.
Qed.

Lemma leaf_cap p es link : leaf_is p es link -> 0 <= free_space p -> zlen es <= 92.
Proof. intros N R. destruct (node_free _ _ _ N) as [E B]. cbn [v_size leaf_codec] in E. lia. Qed.

Lemma free_space_nonneg p : page_wf p -> 0 <= free_space p.
Proof. intros W. rewrite wf_free_space by done. pose proof (wf_fit p W). lia. Qed.

Lemma link_leaf_ok d es link n :
  leaf_is (raw_page d) es link -> in_u32 n ->
  exists d', link_leaf n d = Ok (d', tt) /\ leaf_is (raw_page d') es n
    /\ (dense (raw_page d) -> dense (raw_page d')).
Proof.
  intros N Hn. unfold link_leaf. rewrite (from_page_ok d es link N), exec_bind_ret.
  destruct (set_next_leaf_ok _ _ _ n N Hn) as (q & -> & Nq & Dq & _). exists (page q).
  rewrite exec_bind_ret, raw_of_wf by apply (n_wf _ _ _ Nq). done.
Qed.

(** The page changes of an operation: a set of pages, the next allocations. *)
Record changed (P P' : Pool) (touched new : list Z) : Prop := {
  ch_frame : forall i, i ∉ touched -> i ∉ new -> pool_pages P' !! i = pool_pages P !! i;
  ch_supply : supply P = new ++ supply P' }.

(** The new entry placed in its half of a split leaf. *)
Lemma halves_place e es (k : list byte) (r : RowId) rest mid :
  strict es -> drop mid es = (k, r) :: rest -> (1 <= mid)%nat ->
  exists es1 es2, place e es = es1 ++ es2
    /\ (if kz e.1 <? kz k
        then es1 = place e (take mid es) /\ es2 = (k, r) :: rest
        else es1 = take mid es /\ es2 = place e ((k, r) :: rest))
    /\ Forall (fun x => kz x.1 < kz k) es1 /\ Forall (fun x => kz k <= kz x.1) es2.
Proof.
  intros S HD Hm. assert (es = take mid es ++ (k, r) :: rest) as E by (rewrite <- HD; by rewrite take_drop).
  assert (place e es = place e (take mid es ++ (k, r) :: rest)) as -> by (by rewrite <- E).
  rewrite E in S.
  apply strict_app in S as (S1 & S2 & S12). apply strict_cons in S2 as [S2 F2]. cbn [fst] in F2.
  assert (Forall (fun x => kz x.1 < kz k) (take mid es)) as FL.
  { apply Forall_forall. intros x Hx. apply (S12 x (k, r)); [done|set_solver]. }
  assert (Forall (fun x => kz k <= kz x.1) ((k, r) :: rest)) as FR.
  { constructor; [cbn [fst]; lia|]. eapply Forall_impl; [exact F2|]. cbn. intros. lia. }
  destruct (Z.ltb_spec (kz e.1) (kz k)) as [Hlt|Hge].
  - exists (place e (take mid es)), ((k, r) :: rest). split_and!; try done.
    + apply place_left. eapply Forall_impl; [exact FR|]. cbn. intros. lia.
    + by apply Forall_place.
  - exists (take mid es), (place e ((k, r) :: rest)). split_and!; try done.
    + apply place_right. eapply Forall_impl; [exact FL|]. cbn. intros. lia.
    + by apply Forall_place.
Qed.

Lemma half_bounds (n : nat) : (2 <= n)%nat -> (1 <= n / 2 < n /\ 2 * (n / 2) <= n)%nat.
Proof.
  intros. pose proof (Nat.div_mod_eq n 2). pose proof (Nat.mod_upper_bound n 2). lia.
Qed.

Section split_leaf.
Context (P : Pool) (pid np : Z) (d : list byte) (es : Leaf) (link : Z) (key : Key) (r : RowId)
  (rest : list Z) (k : list byte) (rr : RowId) (right : Leaf).
Hypotheses (Hd : pool_pages P !! pid = Some d) (N : leaf_is (raw_page d) es link) (S : strict es)
  (H2 : (2 <= length es)%nat) (L : zlen (key_data key) = 32) (Wr : row_id_wf r)
  (HS : supply P = np :: rest) (Hnp : np <> pid) (Hu : in_u32 np)
  (HD : drop (length es / 2) es = (k, rr) :: right).

Let e : list byte * RowId := (key_data key, r).
Let s : LeafSplitData := mk_leaf_split (key_of k) (entry_of <$> (k, rr) :: right) link np.

Lemma split_entries : wf_entries ((k, rr) :: right) /\ zlen k = 32 /\ ascending ((k, rr) :: right).
Proof.
  pose proof (n_es _ _ _ N) as F. rewrite <- (take_drop (length es / 2) es), HD in F.
  apply Forall_app in F as [_ F]. pose proof (Forall_inv F) as [? _].
  split_and!; [done..|]. pose proof S as S'. rewrite <- (take_drop (length es / 2) es), HD in S'.
  apply strict_app in S' as (_ & S' & _). by apply strict_ascending.
Qed.

Lemma right_size : zlen ((k, rr) :: right) <= 47.
Proof.
  pose proof (leaf_cap _ _ _ N (free_space_nonneg _ (n_wf _ _ _ N))) as H92.
  pose proof (half_bounds _ H2). pose proof (f_equal length HD) as E. rewrite length_drop in E.
  unfold zlen in *. rewrite <- E. pose proof (Nat.div_mod_eq (length es) 2).
  pose proof (Nat.mod_upper_bound (length es) 2). lia.
Qed.

Let P0 (x : list byte) : Pool :=
  mk_pool (<[pid := x]> (<[np := page_zeroed]> (pool_pages P))) rest (freed P).

(** The left half, with the entry when it belongs there. *)
Lemma split_left :
  exists d0 d1 i, modify_page pid (fun d =>
      let? p := from_page (V:=RowId) d in
      let? (p, s) := leaf_split p np in
      Ok (page p, s)) (mk_pool (<[np := page_zeroed]> (pool_pages P)) rest (freed P))
    = Some (Ok s, P0 d0)
    /\ (if negb (kz (key_data key) <? kz k) then bt_ret 0 else modify_page pid (leaf_insert_at key r)) (P0 d0)
       = Some (Ok i, P0 d1)
    /\ leaf_is (raw_page d1) (if kz (key_data key) <? kz k then place e (take (length es / 2) es)
                               else take (length es / 2) es) 0
    /\ dense (raw_page d1).
Proof.
  pose proof (leaf_cap _ _ _ N (free_space_nonneg _ (n_wf _ _ _ N))) as H92.
  destruct (leaf_split_ok _ _ _ np k rr right N (strict_ascending _ S) H92 HD) as (q & EQ & Nq & Dq & Fq).
  exists (page q).
  assert (strict (take (length es / 2) es)) as SL.
  { pose proof S as S'. rewrite <- (take_drop (length es / 2) es) in S'. by apply strict_app in S' as (? & _). }
  assert (modify_page pid (fun d =>
      let? p := from_page (V:=RowId) d in
      let? (p, s) := leaf_split p np in
      Ok (page p, s)) (mk_pool (<[np := page_zeroed]> (pool_pages P)) rest (freed P))
    = Some (Ok s, P0 (page q))) as G.
  { etransitivity; [apply (modify_ok pid _ _ d (page q) s)|done]; [cbn [pool_pages]; by rewrite lookup_insert_ne|].
    by rewrite (from_page_ok d es link N), exec_bind_ret, EQ. }
  destruct (kz (key_data key) <? kz k); cbn [negb].
  - destruct (leaf_insert_at_room (page q) _ 0 key r (node_raw _ _ _ Nq) SL L Wr) as (d1 & i & EI & NI & DI).
    { rewrite raw_of_wf by apply (n_wf _ _ _ Nq). rewrite Fq. unfold zlen in *. rewrite length_take.
      pose proof (half_bounds _ H2). lia. }
    exists d1, i. split_and!; [done| |done|].
    + erewrite modify_ok; [|unfold P0; cbn [pool_pages]; apply lookup_insert_eq|exact EI].
      unfold modify, P0. cbn [pool_pages supply freed]. by rewrite insert_insert_eq.
    + apply DI. by rewrite raw_of_wf by apply (n_wf _ _ _ Nq).
  - exists (page q), 0.
    split_and!; [done|done|by apply node_raw|by rewrite raw_of_wf by apply (n_wf _ _ _ Nq)].
Qed.

Lemma split_leaf_ok :
  exists P' es1 es2 d1 d2, split_leaf pid key r P = Some (Ok (mk_split (key_of k) np), P')
    /\ place e es = es1 ++ es2 /\ changed P P' [pid] [np]
    /\ pool_pages P' !! pid = Some d1 /\ pool_pages P' !! np = Some d2
    /\ leaf_is (raw_page d1) es1 np /\ leaf_is (raw_page d2) es2 link
    /\ dense (raw_page d1) /\ dense (raw_page d2)
    /\ Forall (fun x => kz x.1 < kz k) es1 /\ Forall (fun x => kz k <= kz x.1) es2.
Proof.
  destruct split_entries as (WR & Lk & AR). pose proof right_size as RS.
  destruct (half_bounds _ H2) as [[Hm _] _].
  destruct (halves_place e es k rr right _ S HD Hm) as (es1 & es2 & EP & HC & F1 & F2).
  destruct split_left as (d0 & d1 & i & E1 & E2 & N1 & D1).
  set (kir := negb (kz (key_data key) <? kz k)) in *.
  destruct (fill_right_ok s ((k, rr) :: right) link (if kir then Some (key, r) else None) es2 page_zeroed)
    as (d2 & EF & N2 & D2); try done.
  { apply (n_link_u32 _ _ _ N). }
  { unfold kir in *. destruct (kz e.1 <? kz k); destruct HC as [_ ->]; [lia|].
    unfold zlen in *. rewrite length_place. lia. }
  { destruct (kz e.1 <? kz k); destruct HC as [_ ->]; [done|]. by apply Forall_place. }
  { unfold kir. cbn [e fst] in HC. destruct (kz (key_data key) <? kz k); destruct HC as [_ ->]; done. }
  destruct (link_leaf_ok d1 _ 0 np N1 Hu) as (d1' & EL & N1' & D1').
  exists (mk_pool (<[pid := d1']> (<[np := d2]> (<[pid := d1]> (<[np := page_zeroed]> (pool_pages P))))) rest (freed P)).
  exists es1, es2, d1', d2.
  split_and!; [|exact EP| | | | |exact N2|by apply D1'|exact D2|exact F1|exact F2].
  - unfold split_leaf. erewrite bind_ok; [|unfold bt_alloc, allocate_page; by rewrite HS].
    rewrite (bind_ok _ _ _ _ _ E1). cbn [s l_middle_key].
    assert (match key_cmp key (key_of k) with Lt => false | _ => true end = kir) as ->.
    { rewrite cmp_key_of by done. unfold kir, Z.ltb. by destruct (kz (key_data key) ?= kz k). }
    rewrite (bind_ok _ _ _ _ _ E2).
    erewrite bind_ok; [|eapply modify_ok; [unfold P0; cbn [pool_pages]; rewrite lookup_insert_ne by done;
      apply lookup_insert_eq|exact EF]].
    rewrite wrap32_id by done.
    erewrite bind_ok; [|eapply modify_ok; [cbn [modify pool_pages]; rewrite lookup_insert_ne by done;
      unfold P0; cbn [pool_pages]; apply lookup_insert_eq|exact EL]]. done.
  - split; [|by cbn]. intros j Hj1 Hj2. cbn [pool_pages]. apply not_elem_of_cons in Hj1 as [Hj1 _], Hj2 as [Hj2 _].
    by rewrite !lookup_insert_ne by done.
  - cbn [pool_pages]. apply lookup_insert_eq.
  - cbn [pool_pages]. rewrite lookup_insert_ne by done. apply lookup_insert_eq.
  - cbn [e fst] in HC. destruct (kz (key_data key) <? kz k); by destruct HC as [-> _].
Qed.
End split_leaf.

(** *** A child among its siblings *)

Lemma last_child_cons c s s1 : last_child c (s :: s1) = last_child s.2 s1.
Proof. unfold last_child. destruct s1 as [|x s1 _] using rev_ind; [done|]. rewrite app_comm_cons, !last_snoc. done. Qed.

(** The child on the way to a key; what replaces it, and what it splits
    into, takes its place among the siblings. *)
Lemma kids_focus T seps z : sound T -> forall lo hi c es ids,
  kids T lo hi c seps es ids -> lo <= z < hi ->
  exists s1 s2 lo' hi' esl esm esr idl idm idr,
    seps = s1 ++ s2 /\ last_child c s1 = route z c seps
    /\ T (route z c seps) lo' hi' esm idm /\ lo' <= z < hi' /\ lo <= lo' /\ hi' <= hi
    /\ es = esl ++ esm ++ esr /\ ids = idl ++ idm ++ idr
    /\ Forall (fun x => kz x.1 < z) esl /\ Forall (fun x => z < kz x.1) esr
    /\ forall T', (forall c lo hi es ids', T c lo hi es ids' -> ids' ⊆ idl ++ idr -> T' c lo hi es ids') ->
       (forall esm' idm', T' (route z c seps) lo' hi' esm' idm' ->
          kids T' lo hi c seps (esl ++ esm' ++ esr) (idl ++ idm' ++ idr))
       /\ (forall k np es1 es2 i1 i2, lo' < kz k < hi' ->
          T' (route z c seps) lo' (kz k) es1 i1 -> T' np (kz k) hi' es2 i2 ->
          kids T' lo hi c (s1 ++ (k, np) :: s2) (esl ++ (es1 ++ es2) ++ esr) (idl ++ (i1 ++ i2) ++ idr)).
Proof.
  intros HT. induction seps as [|s seps IH]; intros lo hi c es ids K Hz; cbn [route].
  - destruct K as [Hlt K]. exists [], [], lo, hi, [], es, [], [], ids, [].
    rewrite !app_nil_r. split_and!; try done; try lia. intros T' HT'. split.
    + intros esm' idm' H. rewrite !app_nil_r. by split.
    + intros k np es1 es2 i1 i2 Hk H1 H2. rewrite !app_nil_r. cbn [app kids fst snd].
      split; [lia|]. exists es1, es2, i1, i2. split_and!; try done; lia.
  - cbn [kids] in K. destruct K as (Hlo & es1 & es2 & ids1 & ids2 & -> & -> & K1 & K2).
    destruct (kids_sound _ _ HT _ _ _ _ _ K2) as (Hhi & _ & W2 & _).
    destruct (HT _ _ _ _ _ K1) as (_ & _ & _ & W1). unfold within in *.
    destruct (Z.ltb_spec z (kz s.1)) as [Hlt|Hge].
    + exists [], (s :: seps), lo, (kz s.1), [], es1, es2, [], ids1, ids2.
      split_and!; try done; try lia.
      { eapply Forall_impl; [exact W2|]. cbn. intros. lia. }
      intros T' HT'. assert (kids T' (kz s.1) hi s.2 seps es2 ids2) as K2'.
      { eapply kids_impl; [|exact K2]. done. }
      split.
      * intros esm' idm' H. cbn [app kids fst snd]. split; [lia|]. by exists esm', es2, idm', ids2.
      * intros k np e1 e2 i1 i2 Hk H1 H2. cbn [app kids fst snd]. split; [lia|].
        exists e1, (e2 ++ es2), i1, (i2 ++ ids2). rewrite !app_assoc. split_and!; try done; [lia|].
        by exists e2, es2, i2, ids2.
    + destruct (IH _ _ _ _ _ K2) as (s1 & s2 & lo' & hi' & esl & esm & esr & idl & idm & idr & -> & EL & Tm
        & Hz' & Hl & Hh & -> & -> & Fl & Fr & G); [lia|].
      exists (s :: s1), s2, lo', hi', (es1 ++ esl), esm, esr, (ids1 ++ idl), idm, idr.
      rewrite last_child_cons. rewrite <- !app_assoc. split_and!; try done; try lia.
      { apply Forall_app; split; [|done]. eapply Forall_impl; [exact W1|]. cbn. intros. lia. }
      intros T' HT'. destruct (G T') as [G1 G2]; [intros; apply HT'; [done|set_solver]|].
      assert (T' c lo (kz s.1) es1 ids1) as T1 by (apply HT'; [done|set_solver]).
      split.
      * intros esm' idm' H. cbn [app kids fst snd]. split; [lia|].
        exists es1, (esl ++ esm' ++ esr), ids1, (idl ++ idm' ++ idr). rewrite <- !app_assoc.
        split_and!; try done. by apply G1.
      * intros k np e1 e2 i1 i2 Hk H1 H2. cbn [app kids fst snd]. split; [lia|].
        exists es1, (esl ++ (e1 ++ e2) ++ esr), ids1, (idl ++ (i1 ++ i2) ++ idr). rewrite <- !app_assoc.
        split_and!; try done. rewrite !(app_assoc e1), !(app_assoc i1). by apply G2.
Qed.

Lemma kids_cut T s1 k c' s2 : forall lo hi c es ids,
  kids T lo hi c (s1 ++ (k, c') :: s2) es ids -> sound T ->
  exists es1 es2 ids1 ids2, es = es1 ++ es2 /\ ids = ids1 ++ ids2 /\ lo < kz k < hi
    /\ kids T lo (kz k) c s1 es1 ids1 /\ kids T (kz k) hi c' s2 es2 ids2.
Proof.
  induction s1 as [|s s1 IH]; intros lo hi c es ids K HT; cbn [app kids] in K.
  - destruct K as (Hlo & es1 & es2 & ids1 & ids2 & -> & -> & K1 & K2). cbn [fst snd] in *.
    destruct (kids_sound _ _ HT _ _ _ _ _ K2) as (Hhi & _).
    exists es1, es2, ids1, ids2. split_and!; try done.
  - destruct K as (Hlo & es1 & es2 & ids1 & ids2 & -> & -> & K1 & K2).
    destruct (IH _ _ _ _ _ K2 HT) as (e1 & e2 & i1 & i2 & -> & -> & Hk & KA & KB).
    exists (es1 ++ e1), e2, (ids1 ++ i1), i2. rewrite <- !app_assoc. split_and!; try done; try lia. cbn [kids]. split; [done|].
    by exists es1, e1, ids1, i1.
Qed.

(** *** One level of an insertion *)

(** Pages that can be handed out: distinct, in range, not of the tree. *)
Record fresh_supply (P : Pool) (ids : list Z) : Prop := {
  fs_u32 : Forall in_u32 (supply P);
  fs_nodup : NoDup (supply P);
  fs_new : forall i, i ∈ ids -> i ∉ supply P }.

(** The outcome of an insertion below [pid]: the tree with the entries [es],
    or the two trees a split leaves, on the old pages and the allocated
    ones. *)
Definition inserted (h : nat) (P P' : Pool) (pid lo hi : Z) (es : Leaf) (ids : list Z)
    (res : option SplitResult) (new : list Z) : Prop :=
  changed P P' ids new /\
  match res with
  | None => exists ids', tree_at splittable h (pool_pages P') pid lo hi es ids' /\ ids' ≡ₚ ids ++ new
  | Some s =>
      exists k es1 es2 ids1 ids2, middle_key s = key_of k /\ zlen k = 32 /\ lo < kz k < hi
        /\ es = es1 ++ es2
        /\ tree_at splittable h (pool_pages P') pid lo (kz k) es1 ids1
        /\ tree_at splittable h (pool_pages P') (new_page_id s) (kz k) hi es2 ids2
        /\ ids1 ++ ids2 ≡ₚ ids ++ new
  end.

Lemma strict_place (e : list byte * RowId) es :
  strict es -> kz e.1 ∉ keys es -> strict (place e es).
Proof.
  induction es as [|x es IH]; intros S Hn; cbn [place].
  - repeat constructor.
  - apply strict_cons in S as [S F]. unfold keys in *. cbn [fmap list_fmap] in Hn.
    apply not_elem_of_cons in Hn as [Hx Hn]. destruct (Z.ltb_spec (kz e.1) (kz x.1)) as [C|C].
    + apply strict_cons. split; [by apply strict_cons|]. constructor; [lia|].
      eapply Forall_impl; [exact F|]. cbn. intros. lia.
    + apply strict_cons. split; [by apply IH|]. apply Forall_place; [lia|done].
Qed.

Lemma splittable_keep p q : (dense p -> dense q) ->
  slot_count (page_header p) <= slot_count (page_header q) -> splittable p -> splittable q.
Proof. intros HD HC [S|S]; [left; auto|right; lia]. Qed.

Lemma splittable_leaf p es link :
  leaf_is p es link -> splittable p -> free_space p < 44 -> (2 <= length es)%nat.
Proof.
  intros N [S|S] F; [pose proof (leaf_dense_full _ _ _ N S F)|pose proof (node_count _ _ _ N)];
    unfold zlen in *; lia.
Qed.

Lemma insert_leaf_in_place P pid lo hi es ids key r d link :
  tree_at splittable 0 (pool_pages P) pid lo hi es ids ->
  pool_pages P !! pid = Some d -> leaf_is (raw_page d) es link -> 44 <= free_space (raw_page d) ->
  zlen (key_data key) = 32 -> row_id_wf r -> lo <= kz (key_data key) < hi ->
  kz (key_data key) ∉ keys es ->
  exists P', insert_into_leaf pid key r P = Some (Ok None, P')
    /\ inserted 0 P P' pid lo hi (place (key_data key, r) es) ids None [].
Proof.
  intros (Hp & d0 & l0 & Hd & _ & SP & S & W & ->) Hd' N R L Wr Hz Hk. assert (d0 = d) as -> by congruence.
  destruct (leaf_insert_at_room d es link key r N S L Wr R) as (d' & i & E & N' & D').
  exists (modify P pid d'). split.
  { unfold insert_into_leaf. rewrite (bind_ok _ _ P (inl i) (modify P pid d')); [done|].
    unfold bt_try. by rewrite (modify_ok _ _ _ _ _ _ Hd' E). }
  split.
  { split; [|done]. intros j Hj _. cbn [modify pool_pages]. rewrite lookup_insert_ne; [done|]. set_solver. }
  exists [pid]. split; [|done]. split; [done|]. exists d', link. cbn [modify pool_pages].
  rewrite lookup_insert_eq. split_and!; try done.
  - eapply splittable_keep; [exact D'| |exact SP].
    rewrite (node_count _ _ _ N), (node_count _ _ _ N'). unfold zlen. rewrite length_place. lia.
  - by apply strict_place.
  - by apply Forall_place.
Qed.

Lemma split_key_range lo hi es (k : list byte) rr right :
  strict es -> within lo hi es -> (2 <= length es)%nat ->
  drop (length es / 2) es = (k, rr) :: right -> lo < kz k < hi.
Proof.
  intros S W H2 HD. pose proof (half_bounds _ H2) as HB.
  assert (es !! (length es / 2)%nat = Some (k, rr)) as Hk.
  { rewrite <- (Nat.add_0_r (length es / 2)), <- lookup_drop, HD. done. }
  destruct es as [|x es]; [cbn in H2; lia|].
  assert (kz x.1 < kz (k, rr).1); [eapply (strict_lookup _ 0); [exact S|done|exact Hk|lia]|].
  unfold within in W. rewrite Forall_forall in W. cbn [fst] in *.
  pose proof (W x ltac:(set_solver)). pose proof (W (k, rr) (list_elem_of_lookup_2 _ _ _ Hk)). cbn [fst] in *. lia.
Qed.

Lemma insert_leaf_split P pid lo hi es ids key r d link np rest :
  tree_at splittable 0 (pool_pages P) pid lo hi es ids ->
  pool_pages P !! pid = Some d -> leaf_is (raw_page d) es link -> free_space (raw_page d) < 44 ->
  zlen (key_data key) = 32 -> row_id_wf r -> lo <= kz (key_data key) < hi ->
  kz (key_data key) ∉ keys es -> supply P = np :: rest -> np <> pid -> in_u32 np ->
  exists P' s, insert_into_leaf pid key r P = Some (Ok (Some s), P')
    /\ inserted 0 P P' pid lo hi (place (key_data key, r) es) ids (Some s) [np].
Proof.
  intros (Hp & d0 & l0 & Hd & _ & SP & S & W & ->) Hd' N R L Wr Hz Hk HS Hnp Hu.
  assert (d0 = d) as -> by congruence.
  pose proof (splittable_leaf _ _ _ N SP R) as H2. pose proof (half_bounds _ H2) as HB.
  pose proof (strict_place (key_data key, r) es S Hk) as S'.
  assert (within lo hi (place (key_data key, r) es)) as W' by (apply Forall_place; done).
  destruct (drop (length es / 2) es) as [|[k rr] right] eqn:HD.
  { apply (f_equal length) in HD. rewrite length_drop in HD. cbn [length] in HD. lia. }
  destruct (split_entries d es link k rr right N S HD) as (_ & Lk & _).
  destruct (split_leaf_ok P pid np d es link key r rest k rr right Hd' N S H2 L Wr HS Hnp Hu HD)
    as (P' & es1 & es2 & d1 & d2 & E & EP & C & L1 & L2 & N1 & N2 & D1 & D2 & F1 & F2).
  exists P', (mk_split (key_of k) np). split.
  { unfold insert_into_leaf. rewrite (bind_ok _ _ P (inr BtPageFull) P); [by rewrite (bind_ok _ _ _ _ _ E)|].
    unfold bt_try. rewrite (modify_err _ _ _ _ BtPageFull Hd'); [done|].
    unfold leaf_insert_at. rewrite (from_page_ok d es link N), exec_bind_ret.
    by rewrite (leaf_insert_full _ _ _ _ _ N L R). }
  split; [done|]. rewrite EP in S', W'. apply strict_app in S' as (S1 & S2 & _).
  apply Forall_app in W' as [W1 W2]. unfold within. rewrite Forall_forall in W1, W2, F1, F2.
  exists k, es1, es2, [pid], [np]. split_and!; try done.
  1-2: by apply (split_key_range lo hi es k rr right).
  - split; [done|]. exists d1, np. split_and!; try done; [by left|]. apply Forall_forall. intros x Hx.
    specialize (W1 x Hx). specialize (F1 x Hx). cbn in *. lia.
  - split; [done|]. exists d2, link. split_and!; try done; [by left|]. apply Forall_forall. intros x Hx.
    specialize (W2 x Hx). specialize (F2 x Hx). cbn in *. lia.
Qed.

Lemma insert_leaf_ok P pid lo hi es ids key r :
  tree_at splittable 0 (pool_pages P) pid lo hi es ids -> fresh_supply P ids ->
  (1 <= length (supply P))%nat -> zlen (key_data key) = 32 -> row_id_wf r ->
  lo <= kz (key_data key) < hi -> kz (key_data key) ∉ keys es ->
  exists P' res new, insert_into_leaf pid key r P = Some (Ok res, P')
    /\ inserted 0 P P' pid lo hi (place (key_data key, r) es) ids res new /\ (length new <= 1)%nat.
Proof.
  intros T [FU FN FD] HL L Wr Hz Hk. pose proof T as (Hp & d & link & Hd & N & _ & _ & _ & ->).
  destruct (Z.le_gt_cases 44 (free_space (raw_page d))) as [R|R].
  - destruct (insert_leaf_in_place P pid lo hi es _ key r d link T Hd N R L Wr Hz Hk) as (P' & E & I).
    exists P', None, []. split_and!; [done..|]. cbn. lia.
  - destruct (supply P) as [|np rest] eqn:HS; [cbn in HL; lia|].
    apply Forall_cons in FU as [FU _]. assert (np <> pid) as Hnp by (intros ->; apply (FD pid); set_solver).
    destruct (insert_leaf_split P pid lo hi es _ key r d link np rest T Hd N R L Wr Hz Hk HS Hnp FU)
      as (P' & s & E & I).
    exists P', (Some s), [np]. split_and!; [done..|]. cbn. lia.
Qed.

Lemma last_child_elem c s1 : last_child c s1 ∈ c :: s1.*2.
Proof.
  unfold last_child. destruct s1 as [|x s1 _] using rev_ind; [set_solver|].
  rewrite last_snoc, fmap_app. cbn. set_solver.
Qed.

Lemma pending_test (cm child : Z) (b : Seps) :
  (cm =? child) || existsb (fun e => e.2 =? child) (entry_of <$> b) = bool_decide (child ∈ cm :: b.*2).
Proof.
  assert (existsb (fun e => e.2 =? child) (entry_of <$> b) = bool_decide (child ∈ b.*2)) as ->.
  { induction b as [|s b IH]; [done|]. cbn [fmap list_fmap existsb entry_of snd]. rewrite IH.
    destruct (Z.eqb_spec s.2 child) as [E|E]; cbn [orb].
    - symmetry. apply bool_decide_eq_true_2. set_solver.
    - apply bool_decide_ext. set_solver. }
  destruct (Z.eqb_spec cm child) as [E|E]; cbn [orb].
  - symmetry. apply bool_decide_eq_true_2. set_solver.
  - apply bool_decide_ext. set_solver.
Qed.

(** Which half of a split node the split child is in. *)
Lemma pending_half c0 s1 s2 a km cm b :
  s1 ++ s2 = a ++ (km, cm) :: b -> NoDup (c0 :: (s1 ++ s2).*2) ->
  if bool_decide (last_child c0 s1 ∈ cm :: b.*2)
  then exists b1, s1 = a ++ (km, cm) :: b1 /\ b = b1 ++ s2 /\ last_child c0 s1 = last_child cm b1
  else exists a2, a = s1 ++ a2 /\ s2 = a2 ++ (km, cm) :: b.
Proof.
  intros E U. pose proof (last_child_elem c0 s1) as HC.
  assert ((exists b1, s1 = a ++ (km, cm) :: b1 /\ b = b1 ++ s2)
          \/ exists a2, a = s1 ++ a2 /\ s2 = a2 ++ (km, cm) :: b) as [(b1 & -> & ->)|(a2 & -> & ->)].
  { apply app_eq_inv in E as [(l & -> & E)|(l & -> & E)]; [|right; by exists l].
    destruct l as [|x l]; cbn [app] in E.
    - right. exists []. rewrite !app_nil_r. by rewrite <- E.
    - injection E as <- E. left. by exists l. }
  - assert (last_child c0 (a ++ (km, cm) :: b1) = last_child cm b1) as EL.
    { clear. revert c0. induction a as [|x a IH]; intros c0; cbn [app]; rewrite last_child_cons; [done|apply IH]. }
    rewrite EL. rewrite bool_decide_eq_true_2; [by exists b1|].
    pose proof (last_child_elem cm b1). rewrite fmap_app. set_solver.
  - rewrite bool_decide_eq_false_2; [by exists a2|]. intros Hin.
    assert ((c0 :: s1.*2) ## (cm :: b.*2)) as Dj.
    { rewrite app_assoc, fmap_app in U.
      change (NoDup ((c0 :: (s1 ++ a2).*2) ++ ((km, cm) :: b).*2)) in U.
      apply NoDup_app in U as (_ & U & _). intros x H1 H2. apply (U x); [|done].
      rewrite fmap_app. set_solver. }
    by apply (Dj (last_child c0 s1)).
Qed.

Lemma fill_right_internal_ok km cm b np2 d (pending : option (SplitResult * Z)) RS :
  in_u32 cm -> zlen d = 4096 -> wf_entries b -> zlen b <= 60 ->
  match pending with
  | Some (c, child) => exists b1 s2 k np, c = mk_split (key_of k) np /\ b = b1 ++ s2
      /\ child = last_child cm b1 /\ RS = b1 ++ (k, np) :: s2 /\ NoDup (cm :: b.*2)
      /\ zlen k = 32 /\ in_u32 np /\ in_u32 child
  | None => RS = b
  end ->
  exists d', fill_right_internal (mk_internal_split (key_of km) cm (entry_of <$> b) np2) pending d = Ok (d', tt)
    /\ internal_is (raw_page d') cm RS /\ dense (raw_page d').
Proof.
  intros Hc HZ WB HB HP. unfold fill_right_internal. cbn [new_leftmost_child right_separators].
  destruct (node_init_ok (V:=Z) d HZ) as (p & -> & N & D & F). rewrite exec_bind_ret.
  destruct (patch_next_ok p [] 0 cm N Hc) as (p1 & E1 & N1 & D1 & F1).
  unfold set_leftmost_child. rewrite E1, exec_bind_ret.
  destruct (insert_all_ok b p1 [] cm N1 WB) as (q & -> & Nq & Dq & Fq); [cbn [v_size child_codec]; lia|].
  rewrite exec_bind_ret. cbn [app] in Nq.
  destruct pending as [[c child]|].
  - destruct HP as (b1 & s2 & k & np & -> & -> & -> & -> & U & Lk & Hn & Hl). cbn [middle_key new_page_id].
    destruct (insert_separator_ok q cm b1 s2 (key_of k) np Nq U Lk Hn Hl) as (q' & -> & Nq' & Dq').
    { rewrite Fq, F1, F. cbn [v_size child_codec]. lia. }
    exists (page q'). rewrite exec_bind_ret, raw_of_wf by apply (n_wf _ _ _ Nq').
    split_and!; [done..|]. auto.
  - subst RS. exists (page q). rewrite raw_of_wf by apply (n_wf _ _ _ Nq). split_and!; [done..|]. auto.
Qed.

Lemma insert_separator_at_ok d c0 s1 s2 k np :
  internal_is (raw_page d) c0 (s1 ++ s2) -> NoDup (c0 :: (s1 ++ s2).*2) -> zlen k = 32 ->
  in_u32 np -> in_u32 (last_child c0 s1) -> 42 <= free_space (raw_page d) ->
  exists d' i, insert_separator_at (mk_split (key_of k) np) (last_child c0 s1) d = Ok (d', i)
    /\ internal_is (raw_page d') c0 (s1 ++ (k, np) :: s2) /\ (dense (raw_page d) -> dense (raw_page d')).
Proof.
  intros N U Lk Hn Hl R. unfold insert_separator_at. cbn [middle_key new_page_id].
  rewrite (from_page_ok d _ c0 N), exec_bind_ret.
  destruct (insert_separator_ok _ c0 s1 s2 (key_of k) np N U Lk Hn Hl R) as (q & -> & Nq & Dq).
  exists (page q), (zlen s1). rewrite exec_bind_ret, raw_of_wf by apply (n_wf _ _ _ Nq). done.
Qed.

Lemma insert_separator_at_full d c0 s1 s2 k np :
  internal_is (raw_page d) c0 (s1 ++ s2) -> NoDup (c0 :: (s1 ++ s2).*2) ->
  in_u32 (last_child c0 s1) -> free_space (raw_page d) < 42 ->
  insert_separator_at (mk_split (key_of k) np) (last_child c0 s1) d = Err BtPageFull.
Proof.
  intros N U Hl R. unfold insert_separator_at. rewrite (from_page_ok d _ c0 N), exec_bind_ret.
  unfold insert_separator. rewrite (wrap32_id (last_child c0 s1)) by done.
  rewrite (separator_index_ok _ c0 s1 s2 N U), exec_bind_ret. change MAX_KEY_LEN with 32. page_consts.
  by rewrite (proj2 (Z.ltb_lt _ _)) by lia.
Qed.

(** The children are untouched by changes to other pages. *)
Lemma kids_kept h (m m' : gmap Z (list byte)) lo' hi' c' seps es' ids' :
  (forall i, i ∈ ids' -> m' !! i = m !! i) ->
  kids (tree_at splittable h m) lo' hi' c' seps es' ids' ->
  kids (tree_at splittable h m') lo' hi' c' seps es' ids'.
Proof.
  intros Hm K'. eapply kids_impl; [|exact K']. intros. eapply tree_frame; [|done].
  intros i Hi. apply Hm. set_solver.
Qed.

Section child_split.
Context (h : nat) (P : Pool) (pid : Z) (d : list byte) (c0 : Z) (s1 s2 : Seps) (k : list byte)
  (np lo hi : Z) (es : Leaf) (ids : list Z).
Hypotheses (Hp : in_u32 pid) (Hd : pool_pages P !! pid = Some d)
  (N : internal_is (raw_page d) c0 (s1 ++ s2)) (SP : splittable (raw_page d))
  (U : NoDup (c0 :: (s1 ++ s2).*2)) (Lk : zlen k = 32) (Hn : in_u32 np)
  (Hl : in_u32 (last_child c0 s1))
  (K : kids (tree_at splittable h (pool_pages P)) lo hi c0 (s1 ++ (k, np) :: s2) es ids)
  (Hni : pid ∉ ids).

Lemma child_split_room :
  42 <= free_space (raw_page d) ->
  exists P', insert_child_split pid (mk_split (key_of k) np) (last_child c0 s1) P = Some (Ok None, P')
    /\ inserted (S h) P P' pid lo hi es (pid :: ids) None [].
Proof.
  intros R. destruct (insert_separator_at_ok d c0 s1 s2 k np N U Lk Hn Hl R) as (d' & i & E & N' & D').
  exists (modify P pid d'). split.
  { unfold insert_child_split. rewrite (bind_ok _ _ P (inl i) (modify P pid d')); [done|].
    unfold bt_try. by rewrite (modify_ok _ _ _ _ _ _ Hd E). }
  split.
  { split; [|done]. intros j Hj _. cbn [modify pool_pages]. rewrite lookup_insert_ne; [done|]. set_solver. }
  exists (pid :: ids). rewrite app_nil_r. split; [|done]. split; [done|].
  exists d', c0, (s1 ++ (k, np) :: s2), ids. cbn [modify pool_pages]. rewrite lookup_insert_eq.
  split_and!; try done.
  - eapply splittable_keep; [exact D'| |exact SP].
    rewrite (node_count _ _ _ N), (node_count _ _ _ N'), !zlen_app, zlen_cons. lia.
  - apply (kids_kept h (pool_pages P)); [|done]. intros j Hj. rewrite lookup_insert_ne; [done|]. set_solver.
Qed.
(** The split of a full node, its two halves with the new separator. *)
Section split.
Context (np2 : Z) (rest : list Z) (a : Seps) (km : list byte) (cm : Z) (b : Seps).
Hypotheses (R : free_space (raw_page d) < 42) (HS : supply P = np2 :: rest) (Hnp : np2 <> pid)
  (Hu : in_u32 np2) (Hs : s1 ++ s2 = a ++ (km, cm) :: b)
  (Ha : length a = (length (s1 ++ s2) / 2)%nat) (H2 : (2 <= length (s1 ++ s2))%nat).

Let right : bool := bool_decide (last_child c0 s1 ∈ cm :: b.*2).

Lemma split_parts : wf_entries b /\ zlen b <= 48 /\ zlen a <= 48 /\ zlen (s1 ++ s2) <= 97
  /\ in_u32 cm /\ zlen km = 32 /\ NoDup (cm :: b.*2) /\ NoDup (c0 :: a.*2).
Proof.
  pose proof (n_es _ _ _ N) as F. rewrite Hs in F. apply Forall_app in F as [_ F].
  apply Forall_cons in F as [[? ?] F]. destruct (node_free _ _ _ N) as [E B].
  pose proof (free_space_nonneg _ (n_wf _ _ _ N)). cbn [v_size child_codec] in E.
  pose proof (f_equal length Hs) as HLs. rewrite (length_app a) in HLs. cbn [length] in HLs.
  pose proof (half_bounds _ H2). pose proof (Nat.div_mod_eq (length (s1 ++ s2)) 2).
  pose proof (Nat.mod_upper_bound (length (s1 ++ s2)) 2). unfold zlen in *.
  pose proof U as U'. rewrite Hs, fmap_app in U'.
  change (NoDup ((c0 :: a.*2) ++ (cm :: b.*2))) in U'. apply NoDup_app in U' as (? & _ & ?).
  split_and!; (done || lia).
Qed.

Let P0 (x : list byte) : Pool :=
  mk_pool (<[pid := x]> (<[np2 := page_zeroed]> (pool_pages P))) rest (freed P).
Let s : InternalSplitData := mk_internal_split (key_of km) cm (entry_of <$> b) np2.

Lemma split_left_half :
  exists d0 d1 i LS, modify_page pid (fun d =>
      let? p := from_page (V:=Z) d in
      let? (p, s) := internal_split p np2 in
      Ok (page p, s)) (mk_pool (<[np2 := page_zeroed]> (pool_pages P)) rest (freed P)) = Some (Ok s, P0 d0)
    /\ (if right then bt_ret 0
        else modify_page pid (insert_separator_at (mk_split (key_of k) np) (last_child c0 s1))) (P0 d0)
       = Some (Ok i, P0 d1)
    /\ internal_is (raw_page d1) c0 LS /\ dense (raw_page d1)
    /\ (if right then LS = a else exists a2, a = s1 ++ a2 /\ LS = s1 ++ (k, np) :: a2).
Proof.
  destruct split_parts as (WB & HB & HA & HN & Hc & Lm & Ub & Ua).
  destruct (internal_split_ok _ _ _ np2 a km cm b N HN Hs Ha) as (q & EQ & Nq & Dq & Fq).
  assert (modify_page pid (fun d =>
      let? p := from_page (V:=Z) d in
      let? (p, s) := internal_split p np2 in
      Ok (page p, s)) (mk_pool (<[np2 := page_zeroed]> (pool_pages P)) rest (freed P)) = Some (Ok s, P0 (page q))) as G.
  { etransitivity; [apply (modify_ok pid _ _ d (page q) s)|done]; [cbn [pool_pages]; by rewrite lookup_insert_ne|].
    by rewrite (from_page_ok d _ c0 N), exec_bind_ret, EQ. }
  pose proof (pending_half c0 s1 s2 a km cm b Hs U) as HP. exists (page q). fold right in HP. destruct right.
  - exists (page q), 0, a. split_and!; try done; [by apply node_raw|].
    by rewrite raw_of_wf by apply (n_wf _ _ _ Nq).
  - destruct HP as (a2 & Ea & Es). rewrite Ea in Nq, Ua.
    destruct (insert_separator_at_ok (page q) c0 s1 a2 k np (node_raw _ _ _ Nq) Ua Lk Hn Hl) as (d1 & i & E & N1 & D1).
    { rewrite raw_of_wf by apply (n_wf _ _ _ Nq). lia. }
    exists d1, i, (s1 ++ (k, np) :: a2). split_and!; [done| |done| |by exists a2].
    + erewrite modify_ok; [|unfold P0; cbn [pool_pages]; apply lookup_insert_eq|exact E].
      unfold modify, P0. cbn [pool_pages supply freed]. by rewrite insert_insert_eq.
    + apply D1. by rewrite raw_of_wf by apply (n_wf _ _ _ Nq).
Qed.
Lemma split_right_half LS :
  (if right then LS = a else exists a2, a = s1 ++ a2 /\ LS = s1 ++ (k, np) :: a2) ->
  exists d2 RS, fill_right_internal s (if right then Some (mk_split (key_of k) np, last_child c0 s1) else None)
      page_zeroed = Ok (d2, tt)
    /\ internal_is (raw_page d2) cm RS /\ dense (raw_page d2)
    /\ s1 ++ (k, np) :: s2 = LS ++ (km, cm) :: RS.
Proof.
  intros HLS. destruct split_parts as (WB & HB & HA & HN & Hc & Lm & Ub & Ua).
  assert (zlen page_zeroed = 4096) as HZ by (by vm_compute).
  pose proof (pending_half c0 s1 s2 a km cm b Hs U) as HP. fold right in HP. destruct right.
  - destruct HP as (b1 & Es1 & Eb & El).
    destruct (fill_right_internal_ok km cm b np2 page_zeroed (Some (mk_split (key_of k) np, last_child c0 s1))
      (b1 ++ (k, np) :: s2) Hc HZ WB) as (d2 & E & N2 & D2); [lia|by exists b1, s2, k, np|].
    exists d2, (b1 ++ (k, np) :: s2). split_and!; try done. subst LS. rewrite Es1 at 1. by rewrite <- app_assoc.
  - destruct HP as (a2 & Ea & Es2). destruct HLS as (a2' & Ea' & ->).
    assert (a2' = a2) as -> by (rewrite Ea in Ea'; by apply app_inv_head in Ea').
    destruct (fill_right_internal_ok km cm b np2 page_zeroed None b Hc HZ WB) as (d2 & E & N2 & D2); [lia|done|].
    exists d2, b. split_and!; try done. rewrite Es2. by rewrite <- app_assoc.
Qed.

Lemma child_split_full :
  np2 ∉ ids ->
  exists P' s', insert_child_split pid (mk_split (key_of k) np) (last_child c0 s1) P = Some (Ok (Some s'), P')
    /\ inserted (S h) P P' pid lo hi es (pid :: ids) (Some s') [np2].
Proof.
  intros Hn2. destruct split_parts as (_ & _ & _ & _ & Hc & Lm & _).
  destruct split_left_half as (d0 & d1 & i & LS & E1 & E2 & N1 & D1 & HLS).
  destruct (split_right_half LS HLS) as (d2 & RS & EF & N2 & D2 & EQ).
  pose proof K as K'. rewrite EQ in K'.
  destruct (kids_cut _ _ _ _ _ _ _ _ _ _ K' (tree_sound _ _ _)) as (es1 & es2 & i1 & i2 & -> & Ei & Hk & K1 & K2).
  set (m' := <[np2 := d2]> (<[pid := d1]> (<[np2 := page_zeroed]> (pool_pages P)))).
  assert (forall j, j ∈ ids -> m' !! j = pool_pages P !! j) as Hm.
  { intros j Hj. unfold m'. rewrite !lookup_insert_ne; [done| | |]; intros ->; done. }
  exists (mk_pool m' rest (freed P)), (mk_split (key_of km) np2). split.
  { unfold insert_child_split. rewrite (bind_ok _ _ P (inr BtPageFull) P).
    2: { unfold bt_try. by rewrite (modify_err _ _ _ _ _ Hd (insert_separator_at_full d c0 s1 s2 k np N U Hl R)). }
    rewrite (bind_ok _ _ P (mk_split (key_of km) np2) (mk_pool m' rest (freed P))); [done|].
    unfold split_internal. erewrite bind_ok; [|unfold bt_alloc, allocate_page; by rewrite HS].
    rewrite (bind_ok _ _ _ _ _ E1). cbn [s new_leftmost_child right_separators].
    rewrite (wrap32_id (last_child c0 s1)), pending_test by done. fold right.
    rewrite (bind_ok _ _ _ _ _ E2).
    erewrite bind_ok; [|eapply modify_ok; [unfold P0; cbn [pool_pages]; rewrite lookup_insert_ne by done;
      apply lookup_insert_eq|exact EF]]. done. }
  split.
  { split; [|done]. intros j Hj1 Hj2. apply not_elem_of_cons in Hj1 as [Hj1 _], Hj2 as [Hj2 _].
    cbn [pool_pages]. unfold m'. by rewrite !lookup_insert_ne by done. }
  exists km, es1, es2, (pid :: i1), (np2 :: i2). cbn [pool_pages new_page_id]. split_and!; try done; try lia.
  - split; [done|]. exists d1, c0, LS, i1. unfold m'. rewrite lookup_insert_ne, lookup_insert_eq by done.
    split_and!; try done; [by left|]. apply (kids_kept h (pool_pages P)); [|done]. intros j Hj. apply Hm. rewrite Ei. apply elem_of_app. by left.
  - split; [done|]. exists d2, cm, RS, i2. unfold m'. rewrite lookup_insert_eq.
    split_and!; try done; [by left|]. apply (kids_kept h (pool_pages P)); [|done]. intros j Hj. apply Hm. rewrite Ei. apply elem_of_app. by right.
  - rewrite Ei. cbn [app]. apply Permutation_skip. rewrite <- app_assoc.
    apply Permutation_app_head, Permutation_cons_append.
Qed.
End split.
End child_split.

(** *** The whole descent *)

Lemma kids_nodup T seps : sound T -> forall lo hi c es ids,
  kids T lo hi c seps es ids -> NoDup ids -> NoDup (c :: seps.*2).
Proof.
  intros HT. induction seps as [|s seps IH]; intros lo hi c es ids K U.
  - apply NoDup_singleton.
  - pose proof (kids_sound _ _ HT _ _ _ _ _ K) as (_ & _ & _ & _ & _ & HI).
    destruct K as (_ & es1 & es2 & ids1 & ids2 & -> & -> & K1 & K2).
    apply NoDup_app in U as (_ & Dj & U2). destruct (HT _ _ _ _ _ K1) as (_ & Hc & _).
    pose proof (kids_sound _ _ HT _ _ _ _ _ K2) as (_ & _ & _ & _ & _ & HI2).
    apply NoDup_cons. split; [|by apply (IH _ _ _ _ _ K2 U2)].
    intros Hin. apply (Dj c Hc). by apply HI2.
Qed.

Lemma fresh_sub P ids ids' : fresh_supply P ids -> (forall i, i ∈ ids' -> i ∈ ids) -> fresh_supply P ids'.
Proof. intros [? ? F] H. split; [done..|]. intros i Hi. by apply F, H. Qed.

Lemma fresh_next P P' ids touched new ids' :
  fresh_supply P ids -> changed P P' touched new -> ids' ≡ₚ ids ++ new -> fresh_supply P' ids'.
Proof.
  intros [FU FN FD] [_ CS] HP. rewrite CS in FU, FN. apply Forall_app in FU as [_ FU].
  apply NoDup_app in FN as (_ & Dj & FN). split; [done..|]. intros i. rewrite HP, elem_of_app.
  intros [Hi|Hi]; [|by apply Dj]. specialize (FD i Hi). rewrite CS in FD. set_solver.
Qed.

Lemma changed_weaken P P' t t' new :
  changed P P' t new -> (forall i, i ∈ t -> i ∈ t') -> changed P P' t' new.
Proof. intros [F S] H. split; [|done]. intros i Hi Hn. apply F; [|done]. intros Hin. by apply Hi, H. Qed.

Lemma inserted_compose h P P1 P' pid lo hi es ids ids1 res new1 new2 :
  changed P P1 ids new1 -> ids1 ≡ₚ ids ++ new1 ->
  inserted h P1 P' pid lo hi es ids1 res new2 ->
  inserted h P P' pid lo hi es ids res (new1 ++ new2).
Proof.
  intros [F1 S1] HP [[F2 S2] HR]. split.
  - split.
    + intros i Hi Hn. rewrite F2, F1; [done|done|set_solver| |set_solver].
      rewrite HP. set_solver.
    + by rewrite S1, S2, app_assoc.
  - destruct res as [s|].
    + destruct HR as (k & es1 & es2 & i1 & i2 & ? & ? & [? ?] & ? & ? & ? & E).
      exists k, es1, es2, i1, i2. split_and!; try done. by rewrite E, HP, app_assoc.
    + destruct HR as (ids' & HT & E). exists ids'. split; [done|]. by rewrite E, HP, app_assoc.
Qed.

Lemma place_middle e (l m r : Leaf) :
  Forall (fun x => kz x.1 < kz e.1) l -> Forall (fun x => kz e.1 < kz x.1) r ->
  place e (l ++ m ++ r) = l ++ place e m ++ r.
Proof.
  intros Fl Fr. rewrite place_right, place_left; [done|done|].
  eapply Forall_impl; [exact Fl|]. cbn. intros. lia.
Qed.

Lemma child_split_ok h P pid d c0 s1 s2 k np lo hi es ids :
  in_u32 pid -> pool_pages P !! pid = Some d -> internal_is (raw_page d) c0 (s1 ++ s2) ->
  splittable (raw_page d) -> NoDup (c0 :: (s1 ++ s2).*2) -> zlen k = 32 -> in_u32 np ->
  in_u32 (last_child c0 s1) ->
  kids (tree_at splittable h (pool_pages P)) lo hi c0 (s1 ++ (k, np) :: s2) es ids ->
  pid ∉ ids -> fresh_supply P (pid :: ids) -> (1 <= length (supply P))%nat ->
  exists P' res new,
    insert_child_split pid (mk_split (key_of k) np) (last_child c0 s1) P = Some (Ok res, P')
    /\ inserted (S h) P P' pid lo hi es (pid :: ids) res new /\ (length new <= 1)%nat.
Proof.
  intros Hp Hd N SP U Lk Hn Hl K Hni [FU FN FD] HS.
  destruct (Z.le_gt_cases 42 (free_space (raw_page d))) as [R|R].
  - destruct (child_split_room h P pid d c0 s1 s2 k np lo hi es ids Hp Hd N SP U Lk Hn Hl K Hni R) as (P' & E & I).
    exists P', None, []. split_and!; [done..|]. cbn [length]. lia.
  - destruct (supply P) as [|np2 rest] eqn:ES; [cbn in HS; lia|].
    apply Forall_cons in FU as [FU _].
    assert (np2 ∉ pid :: ids) as Hf by (intros Hin; apply (FD np2 Hin); set_solver).
    apply not_elem_of_cons in Hf as [Hf1 Hf2].
    assert (2 <= length (s1 ++ s2))%nat as H2.
    { destruct SP as [S|S]; [pose proof (internal_dense_full _ _ _ N S R)|pose proof (node_count _ _ _ N)];
        unfold zlen in *; lia. }
    pose proof (half_bounds _ H2) as HB.
    destruct (drop (length (s1 ++ s2) / 2) (s1 ++ s2)) as [|[km cm] b] eqn:HD.
    { apply (f_equal length) in HD. rewrite length_drop in HD. cbn [length] in HD. lia. }
    destruct (child_split_full h P pid d c0 s1 s2 k np lo hi es ids Hp Hd N U Lk Hn Hl K Hni np2 rest
      (take (length (s1 ++ s2) / 2) (s1 ++ s2)) km cm b R ES Hf1 FU) as (P' & s & E & I); try done.
    { by rewrite <- HD, take_drop. }
    { rewrite length_take. lia. }
    exists P', (Some s), [np2]. split_and!; [done..|]. cbn [length]. lia.
Qed.

(** One level up from the child that was inserted into. *)
Section level.
Context (h : nat) (P P1 : Pool) (pid : Z) (d : list byte) (c0 : Z) (s1 s2 : Seps)
  (lo hi : Z) (esl esr : Leaf) (idl idm idr new : list Z).
Hypotheses (Hp : in_u32 pid) (Hd : pool_pages P !! pid = Some d)
  (N : internal_is (raw_page d) c0 (s1 ++ s2)) (SP : splittable (raw_page d))
  (U : NoDup (pid :: idl ++ idm ++ idr)) (FS : fresh_supply P (pid :: idl ++ idm ++ idr))
  (C : changed P P1 idm new).

Let ids : list Z := pid :: idl ++ idm ++ idr.

Lemma outside_kept i : i ∈ pid :: idl ++ idr -> pool_pages P1 !! i = pool_pages P !! i.
Proof.
  intros Hi. apply (ch_frame _ _ _ _ C).
  - intros Hm. rewrite Permutation_app_swap_app in U.
    change (pid :: idm ++ idl ++ idr) with ([pid] ++ idm ++ idl ++ idr) in U.
    rewrite Permutation_app_swap_app in U. apply NoDup_app in U as (_ & Dj & _).
    apply (Dj i Hm). exact Hi.
  - intros Hn. destruct FS as [_ _ FD]. apply (FD i); [|rewrite (ch_supply _ _ _ _ C); set_solver].
    rewrite !elem_of_cons, !elem_of_app in *. tauto.
Qed.

Lemma siblings_kept c a b es ids' :
  tree_at splittable h (pool_pages P) c a b es ids' -> ids' ⊆ idl ++ idr ->
  tree_at splittable h (pool_pages P1) c a b es ids'.
Proof.
  intros T Hs. eapply tree_frame; [|exact T]. intros i Hi. apply outside_kept.
  apply elem_of_cons. right. by apply Hs.
Qed.

Lemma level_changed : changed P P1 ids new.
Proof.
  eapply changed_weaken; [exact C|]. intros i Hi. unfold ids. rewrite elem_of_cons, !elem_of_app. tauto.
Qed.

Lemma level_ids idm' : idm' ≡ₚ idm ++ new -> pid :: idl ++ idm' ++ idr ≡ₚ ids ++ new.
Proof.
  intros E. unfold ids. cbn [app]. apply Permutation_skip. rewrite E, <- !app_assoc.
  apply Permutation_app_head, Permutation_app_head, Permutation_app_comm.
Qed.

Lemma level_keep esm' idm' :
  kids (tree_at splittable h (pool_pages P1)) lo hi c0 (s1 ++ s2) (esl ++ esm' ++ esr) (idl ++ idm' ++ idr) ->
  idm' ≡ₚ idm ++ new ->
  inserted (S h) P P1 pid lo hi (esl ++ esm' ++ esr) ids None new.
Proof.
  intros K E. split; [apply level_changed|]. exists (pid :: idl ++ idm' ++ idr).
  split; [|by apply level_ids]. split; [done|]. exists d, c0, (s1 ++ s2), (idl ++ idm' ++ idr).
  rewrite outside_kept by set_solver. done.
Qed.

Lemma level_split k np esm' idm' :
  kids (tree_at splittable h (pool_pages P1)) lo hi c0 (s1 ++ (k, np) :: s2) (esl ++ esm' ++ esr)
    (idl ++ idm' ++ idr) ->
  idm' ≡ₚ idm ++ new -> NoDup (c0 :: (s1 ++ s2).*2) -> zlen k = 32 -> in_u32 np ->
  in_u32 (last_child c0 s1) -> (1 <= length (supply P1))%nat ->
  exists P' res new',
    insert_child_split pid (mk_split (key_of k) np) (last_child c0 s1) P1 = Some (Ok res, P')
    /\ inserted (S h) P P' pid lo hi (esl ++ esm' ++ esr) ids res (new ++ new') /\ (length new' <= 1)%nat.
Proof.
  intros K E UC Lk Hn Hl HS. pose proof (level_ids _ E) as EI.
  assert (fresh_supply P1 (pid :: idl ++ idm' ++ idr)) as FS1.
  { eapply fresh_next; [exact FS|exact level_changed|exact EI]. }
  assert (NoDup (pid :: idl ++ idm' ++ idr)) as U1.
  { rewrite EI. apply NoDup_app. split_and!; [exact U| |].
    - intros i Hi Hn'. destruct FS as [_ _ FD]. apply (FD i Hi). rewrite (ch_supply _ _ _ _ C). set_solver.
    - destruct FS as [_ FN _]. rewrite (ch_supply _ _ _ _ C) in FN. by apply NoDup_app in FN as (? & _). }
  apply NoDup_cons in U1 as [U1 _].
  destruct (child_split_ok h P1 pid d c0 s1 s2 k np lo hi (esl ++ esm' ++ esr) (idl ++ idm' ++ idr))
    as (P' & res & new' & E' & I & HL); try done.
  { rewrite outside_kept by set_solver. done. }
  exists P', res, new'. split_and!; try done.
  eapply inserted_compose; [exact level_changed|exact EI|exact I].
Qed.
End level.

Lemma insert_tree h : forall fuel root P pid lo hi es ids key r descent,
  tree_at splittable h (pool_pages P) pid lo hi es ids -> NoDup ids -> fresh_supply P ids ->
  (h + 1 <= length (supply P))%nat -> zlen (key_data key) = 32 -> row_id_wf r ->
  lo <= kz (key_data key) < hi -> kz (key_data key) ∉ keys es ->
  (forall i, i ∈ ids -> i ∉ descent) -> (h < fuel)%nat ->
  exists P' res new, insert_into_page fuel root pid key r descent P = Some (Ok res, P')
    /\ inserted h P P' pid lo hi (place (key_data key, r) es) ids res new /\ (length new <= h + 1)%nat.
Proof.
  induction h as [|h IH]; intros fuel root P pid lo hi es ids key r descent T U FS HL L Wr Hz Hk HD Hf;
    (destruct fuel as [|fuel]; [lia|]); cbn [insert_into_page];
    pose proof (tree_sound _ _ _ _ _ _ _ _ T) as (_ & Hpi & _);
    rewrite bool_decide_eq_false_2 by (by apply HD).
  - pose proof T as (_ & d & link & Hd & N & _).
    destruct (load_leaf root pid d es link P Hd N) as [E1 _]. rewrite (bind_ok _ _ _ _ _ E1).
    by apply insert_leaf_ok.
  - destruct T as (Hp & d & c0 & seps & ids' & Hd & N & SP & K & ->).
    destruct (load_internal root pid d c0 seps P Hd N) as [E1 E2].
    destruct (kids_sound _ _ (tree_sound _ h _) _ _ _ _ _ K) as (_ & _ & _ & SS & _).
    rewrite (bind_ok _ _ _ _ _ E1), (bind_lift _ _ _ _ E2), (bind_lift _ _ _ _ (child_binary _ _ _ _ N SS L)).
    pose proof (kids_nodup _ _ (tree_sound _ h _) _ _ _ _ _ K (NoDup_cons_1_2 _ _ U)) as UC.
    destruct (kids_focus _ _ _ (tree_sound _ h _) _ _ _ _ _ K Hz) as (s1 & s2 & lo' & hi' & esl & esm & esr
      & idl & idm & idr & -> & EL & Tm & Hz' & Hl1 & Hh1 & -> & -> & Fl & Fr & G).
    set (child := route (kz (key_data key)) c0 (s1 ++ s2)) in *.
    destruct (IH fuel root P child lo' hi' esm idm key r (pid :: descent)) as (P1 & res & new & E & [C I] & HN);
      [done| | |lia|done|done|done| | |lia|].
    { apply NoDup_cons in U as [_ U]. apply NoDup_app in U as (_ & _ & U). by apply NoDup_app in U as (U & _). }
    { eapply fresh_sub; [exact FS|]. intros i Hi. rewrite elem_of_cons, !elem_of_app. tauto. }
    { intros Hin. apply Hk. unfold keys in *. rewrite !fmap_app, !elem_of_app. tauto. }
    { intros i Hi. apply not_elem_of_cons. split.
      - intros ->. apply NoDup_cons in U as [U _]. apply U. rewrite !elem_of_app. tauto.
      - apply HD. rewrite elem_of_cons, !elem_of_app. tauto. }
    destruct (G (tree_at splittable h (pool_pages P1))) as [G1 G2]; [intros; by eapply siblings_kept|]. clear G.
    rewrite place_middle by done. rewrite (bind_ok _ _ _ _ _ E).
    pose proof (tree_sound _ _ _ _ _ _ _ _ Tm) as (Hcu & _). destruct res as [s|].
    + destruct I as (k & es1 & es2 & i1 & i2 & Ek & Lk & Hkr & -> & T1 & T2 & EI).
      pose proof (tree_sound _ _ _ _ _ _ _ _ T2) as (Hnu & _). destruct s as [mk np].
      cbn [middle_key new_page_id] in *. subst mk. rewrite <- EL in *.
      destruct (level_split h P P1 pid d c0 s1 s2 lo hi esl esr idl idm idr new Hp Hd N SP U FS C k np
        (es1 ++ es2) (i1 ++ i2)) as (P' & res & new' & E' & I' & HN'); try done.
      { by apply G2. }
      { pose proof (ch_supply _ _ _ _ C) as CS. apply (f_equal length) in CS. rewrite length_app in CS. lia. }
      exists P', res, (new ++ new'). split_and!; [done..|]. rewrite length_app. lia.
    + destruct I as (idm' & T' & EI). exists P1, None, new. split_and!; [done| |lia].
      eapply level_keep; try done. by apply G1.
Qed.

(** ** The index as a map *)

Definition KEY_END : Z := 256 ^ 32.

(** What the index maps keys to. *)
Definition index_map (es : Leaf) : gmap (list byte) RowId := list_to_map es.

(** The pool holds a well-formed index of height [h] with these entries. *)
Definition is_index (P : Pool) (root : Z) (h : nat) (es : Leaf) : Prop :=
  exists ids, tree_at splittable h (pool_pages P) root 0 KEY_END es ids /\ NoDup ids /\ fresh_supply P ids.

Lemma bt_key_ok key (p : Pool) :
  zlen key <= 32 -> exists k, bt_key key p = Some (Ok k, p) /\ key_data k = pad32 key /\ zlen (key_data k) = 32.
Proof.
  intros H. unfold bt_key, key_new, bt_lift. change MAX_KEY_LEN with 32. rewrite (proj2 (Z.ltb_ge _ _)) by lia.
  eexists. split; [done|]. split; [done|]. cbn [key_data]. unfold zlen in *. rewrite length_app, length_replicate. lia.
Qed.

Lemma kz_range kd : zlen kd = 32 -> 0 <= kz kd < KEY_END.
Proof.
  intros H. unfold kz, KEY_END. pose proof (be_val_bound kd) as B. unfold zlen in H.
  replace (length kd) with 32%nat in B by lia. exact B.
Qed.

Lemma leaf_keys_len h m pid lo hi es ids :
  tree_at splittable h m pid lo hi es ids -> Forall (fun e => zlen e.1 = 32) es.
Proof.
  revert pid lo hi es ids. induction h as [|h IH]; intros pid lo hi es ids [_ T].
  - destruct T as (d & link & _ & N & _). eapply Forall_impl; [exact (n_es _ _ _ N)|]. by intros x [? _].
  - destruct T as (d & c0 & seps & ids' & _ & _ & _ & K & _). clear d.
    revert lo c0 es ids' K. induction seps as [|s seps IHs]; intros lo c0 es ids' K; cbn [kids] in K.
    + destruct K as [_ K]. by eapply IH.
    + destruct K as (_ & es1 & es2 & ids1 & ids2 & -> & _ & K1 & K2). apply Forall_app. split; [by eapply IH|].
      by eapply IHs.
Qed.

Lemma assoc_map kd es :
  Forall (fun e => zlen e.1 = 32) es -> zlen kd = 32 -> assoc (kz kd) es = index_map es !! kd.
Proof.
  intros F L. induction F as [|[k r] es Lk _ IH]; [done|].
  unfold index_map. cbn [assoc fst snd list_to_map] in *. destruct (Z.eqb_spec (kz k) (kz kd)) as [E|E].
  - apply be_val_inj in E; [|unfold zlen in *; lia]. subst. symmetry. apply lookup_insert_eq.
  - change (list_to_map ((k, r) :: es) : gmap (list byte) RowId) with (<[k := r]> (list_to_map es : gmap (list byte) RowId)).
    rewrite lookup_insert_ne; [exact IH|]. by intros ->.
Qed.

Lemma keys_map kd es :
  Forall (fun e => zlen e.1 = 32) es -> zlen kd = 32 -> index_map es !! kd = None -> kz kd ∉ keys es.
Proof.
  intros F L. rewrite <- assoc_map by done. clear. induction es as [|e es IH]; intros HA; [set_solver|].
  cbn [assoc] in HA. unfold keys in *. cbn [fmap list_fmap]. destruct (Z.eqb_spec (kz e.1) (kz kd)); [done|].
  apply not_elem_of_cons. split; [lia|auto].
Qed.

Lemma place_map e es :
  Forall (fun e => zlen e.1 = 32) es -> zlen e.1 = 32 -> index_map es !! e.1 = None ->
  index_map (place e es) = <[e.1 := e.2]> (index_map es).
Proof.
  intros F L. unfold index_map. induction F as [|[k r] es Lk _ IH]; intros HN; cbn [place].
  - by destruct e.
  - destruct e as [ke re]. cbn [fst snd list_to_map] in *. case_match; [done|].
    change (list_to_map ((k, r) :: es) : gmap (list byte) RowId) with (<[k := r]> (list_to_map es : gmap (list byte) RowId)) in *.
    change (list_to_map ((k, r) :: place (ke, re) es) : gmap (list byte) RowId)
      with (<[k := r]> (list_to_map (place (ke, re) es) : gmap (list byte) RowId)).
    apply lookup_insert_None in HN as [HN Hne]. rewrite IH by done. by rewrite insert_insert_ne.
Qed.

(** The new root over the two halves of a split root. *)
Lemma new_root_ok h P root nr rest s lo hi es1 es2 i1 i2 k :
  tree_at splittable h (pool_pages P) root lo (kz k) es1 i1 ->
  tree_at splittable h (pool_pages P) (new_page_id s) (kz k) hi es2 i2 ->
  middle_key s = key_of k -> zlen k = 32 -> lo < kz k < hi ->
  supply P = nr :: rest -> in_u32 nr -> nr ∉ i1 ++ i2 ->
  exists P', (let! nr := bt_alloc in
      let! _ := modify_page nr (fun d =>
        let? p := node_init (V:=Z) d in
        let? p := set_leftmost_child p (wrap32 root) in
        let? (p, _) := insert_separator p (middle_key s) (new_page_id s) root in
        Ok (page p, tt)) in
      bt_ret nr) P = Some (Ok nr, P')
    /\ changed P P' [] [nr]
    /\ tree_at splittable (S h) (pool_pages P') nr lo hi (es1 ++ es2) (nr :: i1 ++ i2).
Proof.
  intros T1 T2 Em Lk Hk HS Hu Hni. destruct (tree_sound _ _ _ _ _ _ _ _ T1) as (Hr & _).
  destruct (tree_sound _ _ _ _ _ _ _ _ T2) as (Hn & _).
  destruct (node_init_ok (V:=Z) page_zeroed) as (p & E0 & N0 & D0 & F0); [by vm_compute|].
  destruct (patch_next_ok p [] 0 root N0 Hr) as (p1 & E1 & N1 & D1 & F1).
  destruct (insert_separator_ok p1 root [] [] (key_of k) (new_page_id s) N1) as (p2 & E2 & N2 & D2);
    [apply NoDup_singleton|done|done|done|lia|].
  change (last_child root []) with root in E2. cbn [app key_of key_data] in N2.
  exists (mk_pool (<[nr := page p2]> (<[nr := page_zeroed]> (pool_pages P))) rest (freed P)).
  assert (forall i, i ∈ i1 ++ i2 -> (<[nr := page p2]> (<[nr := page_zeroed]> (pool_pages P)) : gmap Z (list byte)) !! i
            = pool_pages P !! i) as HM.
  { intros i Hi. rewrite !lookup_insert_ne; [done| |]; by intros ->. }
  split_and!.
  - erewrite bind_ok; [|unfold bt_alloc, allocate_page; by rewrite HS].
    erewrite bind_ok; [|eapply modify_ok; [cbn [pool_pages]; apply lookup_insert_eq|]].
    2: { rewrite E0, exec_bind_ret. unfold set_leftmost_child. rewrite wrap32_id, E1, exec_bind_ret by done.
         by rewrite Em, E2. }
    done.
  - split; [|done]. intros i _ Hi. apply not_elem_of_cons in Hi as [Hi _]. cbn [pool_pages].
    by rewrite !lookup_insert_ne by done.
  - split; [done|]. exists (page p2), root, [(k, new_page_id s)], (i1 ++ i2). cbn [pool_pages].
    rewrite lookup_insert_eq, raw_of_wf by apply (n_wf _ _ _ N2). split_and!; try done.
    + left. auto.
    + cbn [kids fst snd]. split; [lia|]. exists es1, es2, i1, i2. split_and!; try done; [|lia|].
      * eapply tree_frame; [|exact T1]. intros i Hi. apply HM, elem_of_app. by left.
      * eapply tree_frame; [|exact T2]. intros i Hi. apply HM, elem_of_app. by right.
Qed.

(** The pages of the tree, named: what an insertion allocates joins them, and no
    other page changes. *)
Lemma insert_pages P root h es ids key r fuel :
  tree_at splittable h (pool_pages P) root 0 KEY_END es ids -> NoDup ids -> fresh_supply P ids ->
  zlen key <= 32 -> row_id_wf r -> index_map es !! pad32 key = None ->
  (h + 2 <= length (supply P))%nat -> (h < fuel)%nat ->
  exists P' root' h' ids' new, btree_insert fuel root key r P = Some (Ok root', P')
    /\ tree_at splittable h' (pool_pages P') root' 0 KEY_END (place (pad32 key, r) es) ids'
    /\ ids' ≡ₚ ids ++ new /\ changed P P' ids new /\ (h <= h' <= h + 1)%nat /\ (length new <= h + 2)%nat.
Proof.
  intros T U FS Hkey Wr HN HL Hf. destruct (bt_key_ok key P Hkey) as (k & Ek & Ed & Lk).
  rewrite <- Ed in HN |- *. pose proof (leaf_keys_len _ _ _ _ _ _ _ T) as FK.
  destruct (insert_tree h fuel root P root 0 KEY_END es ids k r []) as (P1 & res & new & E & [C I] & HNW);
    [done..|lia|done|done|by apply kz_range|by apply keys_map|set_solver|done|].
  pose proof (ch_supply _ _ _ _ C) as CS. unfold btree_insert. rewrite (bind_ok _ _ _ _ _ Ek), (bind_ok _ _ _ _ _ E).
  destruct res as [s|].
  - destruct I as (km & es1 & es2 & i1 & i2 & Em & Lm & Hm & EP & T1 & T2 & EI).
    pose proof (fresh_next _ _ _ _ _ _ FS C EI) as FS1. pose proof FS1 as [FU FN FD].
    destruct (supply P1) as [|nr rest] eqn:ES.
    { rewrite app_nil_r in CS. rewrite CS in HL. lia. }
    apply Forall_cons in FU as [FU _].
    destruct (new_root_ok h P1 root nr rest s 0 KEY_END es1 es2 i1 i2 km T1 T2 Em Lm Hm ES FU) as (P' & E' & C' & T').
    { intros Hin. apply (FD nr Hin). set_solver. }
    exists P', nr, (S h), (nr :: i1 ++ i2), (new ++ [nr]). split_and!; try lia.
    + exact E'.
    + by rewrite EP.
    + rewrite EI. rewrite app_assoc. apply Permutation_cons_append.
    + destruct C as [CF _], C' as [CF' CS']. split.
      * intros i Hi Hn. rewrite CF', CF; set_solver.
      * rewrite CS, ES in *. rewrite CS'. by rewrite <- app_assoc.
    + rewrite length_app. cbn [length]. lia.
  - destruct I as (ids' & T' & EI). exists P1, root, h, ids', new. split_and!; try done; lia.
Qed.

(** A tree of which an operation keeps or takes over the pages stays an index. *)
Lemma pages_index P P' root' h' es' ids ids' new :
  NoDup ids -> fresh_supply P ids -> changed P P' ids new -> ids' ≡ₚ ids ++ new ->
  tree_at splittable h' (pool_pages P') root' 0 KEY_END es' ids' ->
  NoDup ids' /\ fresh_supply P' ids'.
Proof.
  intros U FS C EI _. split; [|by apply (fresh_next P P' ids ids new)]. rewrite EI. destruct FS as [_ FN FD].
  rewrite (ch_supply _ _ _ _ C) in FN. apply NoDup_app. split_and!; [done| |by apply NoDup_app in FN as (? & _)].
  intros i Hi Hi'. apply (FD i Hi). rewrite (ch_supply _ _ _ _ C). set_solver.
Qed.

Lemma insert_index P root h es key r fuel :
  is_index P root h es -> zlen key <= 32 -> row_id_wf r -> index_map es !! pad32 key = None ->
  (h + 2 <= length (supply P))%nat -> (h < fuel)%nat ->
  exists P' root' h' n, btree_insert fuel root key r P = Some (Ok root', P')
    /\ is_index P' root' h' (place (pad32 key, r) es) /\ (h <= h' <= h + 1)%nat
    /\ supply P' = drop n (supply P) /\ (n <= h + 2)%nat.
Proof.
  intros (ids & T & U & FS) Hkey Wr HN HL Hf.
  destruct (insert_pages P root h es ids key r fuel T U FS Hkey Wr HN HL Hf) as (P' & root' & h' & ids' & new & E & T' & EI & C & Hh & Hn).
  exists P', root', h', (length new). split_and!; try done; try lia.
  - exists ids'. split; [done|]. by eapply pages_index.
  - by rewrite (ch_supply _ _ _ _ C), drop_app_length.
Qed.

(** ** Updating an entry *)

(** The entries with the row of one key replaced. *)
Definition set_row (z : Z) (r : RowId) (es : Leaf) : Leaf :=
  (fun e => if kz e.1 =? z then (e.1, r) else e) <$> es.

Lemma set_row_out z r es : Forall (fun e => kz e.1 <> z) es -> set_row z r es = es.
Proof. induction 1 as [|e es He _ IH]; [done|]. cbn. rewrite (proj2 (Z.eqb_neq _ _)) by done. by f_equal. Qed.

Lemma set_row_keys z r es : keys (set_row z r es) = keys es.
Proof. unfold keys, set_row. rewrite <- list_fmap_compose. apply list_fmap_ext. intros i e _. cbn. by case_match. Qed.

Lemma set_row_within z r lo hi es : within lo hi es -> within lo hi (set_row z r es).
Proof. unfold within, set_row. rewrite Forall_fmap. intros F. eapply Forall_impl; [exact F|]. intros e He. cbn. by case_match. Qed.

Lemma set_row_map kd r es :
  Forall (fun e => zlen e.1 = 32) es -> zlen kd = 32 -> is_Some (index_map es !! kd) ->
  index_map (set_row (kz kd) r es) = <[kd := r]> (index_map es).
Proof.
  intros F L [x Hx]. apply map_eq. intros k'. destruct (decide (k' = kd)) as [->|Hne].
  - rewrite lookup_insert_eq. unfold index_map in *. induction F as [|[k y] es Lk _ IH]; [done|].
    cbn [fst] in Lk.
    cbn [set_row fmap list_fmap fst]. destruct (Z.eqb_spec (kz k) (kz kd)) as [E|E].
    + apply be_val_inj in E; [|unfold zlen in *; lia]. subst. cbn [fst]. apply lookup_insert_eq.
    + assert (kd <> k) by (by intros ->). cbn [list_to_map foldr uncurry] in *. rewrite lookup_insert_ne in * by done. by apply IH.
  - rewrite lookup_insert_ne by done. clear Hx. unfold index_map. induction F as [|[k y] es Lk _ IH]; [done|].
    cbn [fst] in Lk.
    cbn [set_row fmap list_fmap fst]. destruct (Z.eqb_spec (kz k) (kz kd)) as [E|E].
    + apply be_val_inj in E; [|unfold zlen in *; lia]. subst. cbn [list_to_map foldr uncurry].
      rewrite !lookup_insert_ne by done. exact IH.
    + cbn [list_to_map foldr uncurry]. destruct (decide (k' = k)) as [->|]; [by rewrite !lookup_insert_eq|].
      rewrite !lookup_insert_ne by done. exact IH.
Qed.

Lemma assoc_at_rank z es :
  ascending es -> is_Some (assoc z es) -> exists e, es !! rank z es = Some e /\ kz e.1 = z.
Proof.
  intros A [r Hr]. rewrite (assoc_rank _ _ A) in Hr. unfold position_of in Hr. cbn [fst] in Hr.
  destruct (es !! rank z es) as [e|]; [|done]. destruct (Z.eqb_spec (kz e.1) z); [|done]. by exists e.
Qed.

Lemma update_leaf_page P pid lo hi es ids key r root fuel :
  tree_at splittable 0 (pool_pages P) pid lo hi es ids -> zlen (key_data key) = 32 -> row_id_wf r ->
  is_Some (assoc (kz (key_data key)) es) ->
  exists P', update_in_page (S fuel) root pid key r P = Some (Ok tt, P') /\ changed P P' ids [] /\ freed P' = freed P
    /\ tree_at splittable 0 (pool_pages P') pid lo hi (set_row (kz (key_data key)) r es) ids.
Proof.
  intros (Hp & d & link & Hd & N & SP & ST & W & ->) L Wr HA. cbn [update_in_page].
  destruct (load_leaf root pid d es link P Hd N) as [E1 _]. rewrite (bind_ok _ _ _ _ _ E1).
  destruct (leaf_update_ok _ es link key r N L Wr) as (p' & E & N' & D').
  { eapply leaf_cap; [exact N|]. apply free_space_nonneg, (n_wf _ _ _ N). }
  { by apply assoc_at_rank; [apply strict_ascending|]. }
  exists (modify P pid (page p')). split_and!.
  - eapply modify_ok; [exact Hd|]. rewrite (from_page_ok _ _ _ N), exec_bind_ret, E, exec_bind_ret. done.
  - split; [|done]. intros i Hi _. cbn. rewrite lookup_insert_ne; [done|]. set_solver.
  - done.
  - split; [done|]. exists (page p'), 0. cbn [modify pool_pages]. rewrite lookup_insert_eq, raw_of_wf by apply (n_wf _ _ _ N').
    split_and!; try done; [by left| |by apply set_row_within].
    unfold strict. by rewrite set_row_keys.
Qed.

Lemma update_tree h : forall fuel root P pid lo hi es ids key r,
  tree_at splittable h (pool_pages P) pid lo hi es ids -> NoDup ids -> zlen (key_data key) = 32 -> row_id_wf r ->
  lo <= kz (key_data key) < hi -> is_Some (assoc (kz (key_data key)) es) -> (h < fuel)%nat ->
  exists P', update_in_page fuel root pid key r P = Some (Ok tt, P') /\ changed P P' ids [] /\ freed P' = freed P
    /\ tree_at splittable h (pool_pages P') pid lo hi (set_row (kz (key_data key)) r es) ids.
Proof.
  induction h as [|h IH]; intros fuel root P pid lo hi es ids key r T U L Wr Hz HA Hf; (destruct fuel as [|fuel]; [lia|]).
  { by apply update_leaf_page. }
  cbn [update_in_page]. destruct T as (Hp & d & c0 & seps & ids' & Hd & N & SP & K & ->).
  destruct (load_internal root pid d c0 seps P Hd N) as [E1 E2].
  destruct (kids_sound _ _ (tree_sound _ h _) _ _ _ _ _ K) as (_ & _ & _ & SS & _).
  rewrite (bind_ok _ _ _ _ _ E1), (bind_lift _ _ _ _ E2), (bind_lift _ _ _ _ (child_binary _ _ _ _ N SS L)).
  destruct (kids_focus _ _ _ (tree_sound _ h _) _ _ _ _ _ K Hz) as (s1 & s2 & lo' & hi' & esl & esm & esr
    & idl & idm & idr & -> & EL & Tm & Hz' & _ & _ & -> & -> & Fl & Fr & G).
  assert (Ol : Forall (fun e => kz e.1 <> kz (key_data key)) esl) by (eapply Forall_impl; [exact Fl|]; cbn; lia).
  assert (Or : Forall (fun e => kz e.1 <> kz (key_data key)) esr) by (eapply Forall_impl; [exact Fr|]; cbn; lia).
  assert (HAm : is_Some (assoc (kz (key_data key)) esm)).
  { rewrite !assoc_app, (assoc_out _ esl), (assoc_out _ esr) in HA by done. by destruct (assoc _ esm); [|destruct HA]. }
  apply NoDup_cons in U as [Up U]. pose proof U as (_ & Dl & (Um & Dm & _)%NoDup_app)%NoDup_app.
  destruct (IH fuel root P _ lo' hi' esm idm key r Tm Um L Wr Hz' HAm ltac:(lia)) as (P' & E & C & EF & T').
  exists P'. split_and!; [done| |done|].
  - eapply changed_weaken; [exact C|]. intros i Hi. rewrite elem_of_cons, !elem_of_app. tauto.
  - assert (Keep : forall i, i ∈ pid :: idl ++ idr -> pool_pages P' !! i = pool_pages P !! i).
    { intros i Hi. apply (ch_frame _ _ _ _ C); [|set_solver]. intros Hm. apply elem_of_cons in Hi as [->|Hi].
      - apply Up. rewrite !elem_of_app. tauto.
      - apply elem_of_app in Hi as [Hi|Hi]; [apply (Dl i Hi); rewrite elem_of_app; tauto|by apply (Dm i Hm)]. }
    destruct (G (tree_at splittable h (pool_pages P'))) as [G1 _].
    { intros c a b es ids' Tc Hs. eapply tree_frame; [|exact Tc]. intros i Hi. apply Keep, elem_of_cons. right. by apply Hs. }
    split; [done|]. exists d, c0, (s1 ++ s2), (idl ++ idm ++ idr). rewrite Keep by by left. split_and!; try done.
    unfold set_row in *. rewrite !fmap_app. rewrite (set_row_out _ _ _ Ol : _ <$> esl = _), (set_row_out _ _ _ Or : _ <$> esr = _).
    by apply G1.
Qed.

(** Replacing the row of a key in use. *)
Lemma update_pages P root h es ids key r fuel :
  tree_at splittable h (pool_pages P) root 0 KEY_END es ids -> NoDup ids -> zlen key <= 32 -> row_id_wf r ->
  is_Some (index_map es !! pad32 key) -> (h < fuel)%nat ->
  exists P', btree_update fuel root key r P = Some (Ok tt, P') /\ changed P P' ids []
    /\ tree_at splittable h (pool_pages P') root 0 KEY_END (set_row (kz (pad32 key)) r es) ids.
Proof.
  intros T U Hkey Wr HS Hf. destruct (bt_key_ok key P Hkey) as (k & Ek & Ed & Lk). rewrite <- Ed in *.
  pose proof (leaf_keys_len _ _ _ _ _ _ _ T) as FK. rewrite <- assoc_map in HS by done.
  destruct (update_tree h fuel root P root 0 KEY_END es ids k r T U Lk Wr ltac:(by apply kz_range) HS Hf) as (P' & E & C & _ & T').
  exists P'. split_and!; [|done|done]. unfold btree_update. by rewrite (bind_ok _ _ _ _ _ Ek).
Qed.
