(* ===== verification/IndexManager.v ===== *)
(** * The index manager

    [src/storage/btree/index_manager.rs]: the index of a table as the
    executors use it.  Point reads descend the tree; the scans walk it with an
    explicit stack; the writes run one at a time behind the write gate, each
    with the publication of its root and of the reverse map, so a write is one
    step here.  The catalog's copy of the root, updated after the write, and
    the test-only pauses are not modelled. *)

From Stdlib Require Import ZArith Strings.Byte Lia Sorting.Sorted.
From stdpp Require Import base tactics list numbers gmap sorting.
From S2P Require Import Prelude RowKey PageLayout Version Overflow DataPage BTreeNode BTree BTreeInsert.
From S2P Require Import Values IndexKey.
Import Key RowId.

(** ** Ranges *)

(** Whether a value is on the right side of a bound that [c] compares it to:
    [bad] is the wrong side, an equal value passes an inclusive bound. *)
Definition side (c bad : comparison) (inclusive : bool) : bool :=
  match c with
  | Eq => inclusive
  | Lt => match bad with Lt => false | _ => true end
  | Gt => match bad with Gt => false | _ => true end
  end.

Definition subtree_overlaps (low high : option Key) (lower upper : KeyBound) : bool :=
  match high, lower with Some h, Some (b, inc) => side (key_cmp h b) Lt inc | _, _ => true end
  && match low, upper with Some l, Some (b, inc) => side (key_cmp l b) Gt inc | _, _ => true end.

(** ** Walking the tree *)

(** The loop of the scans: a page is visited once, a leaf gives [out], an
    internal page puts its children on the stack, the leftmost on top. *)
Fixpoint walk {A} (out : SlottedPageRef -> exec BtError (list A))
    (children_of : SlottedPageRef -> exec BtError (list Z))
    (fuel : nat) (root : Z) (stack : list Z) (visited : gset Z) (results : list A) : bt (list A) :=
  match stack with
  | [] => bt_ret results
  | pid :: stack =>
      match fuel with
      | O => bt_spent
      | S fuel =>
          if bool_decide (pid ∈ visited) then walk out children_of fuel root stack visited results
          else
            let visited := {[pid]} ∪ visited in
            let! (d, is_leaf) := load_intact root pid in
            let! p := bt_lift (ref_new d) in
            if (is_leaf : bool) then
              let! rs := bt_lift (out p) in
              walk out children_of fuel root stack visited (results ++ rs)
            else
              let! cs := bt_lift (children_of p) in
              walk out children_of fuel root (filter (fun c => c ∉ visited) cs ++ stack) visited results
      end
  end.

Fixpoint all_children_from (p : SlottedPageRef) (n : nat) (i : Z) : exec BtError (list Z) :=
  match n with
  | O => Ok []
  | S n =>
      let? c := get_value (V:=Z) p i in
      let? rest := all_children_from p n (i + 1) in
      Ok (match c with Some c => c :: rest | None => rest end)
  end.

Definition all_children (p : SlottedPageRef) : exec BtError (list Z) :=
  let? cs := all_children_from p (Z.to_nat (key_count p)) 0 in
  Ok (leftmost_child p :: cs).

Definition scan_leaf (p : SlottedPageRef) : exec BtError (list (list byte * RowId)) :=
  let? es := node_entries (V:=RowId) p in
  Ok ((fun e => (key_as_bytes e.1, e.2)) <$> es).

Definition index_scan_all (fuel : nat) (root : Z) : bt (list (list byte * RowId)) :=
  walk scan_leaf all_children fuel root [root] ∅ [].

Definition range_leaf (lower upper : KeyBound) (p : SlottedPageRef) : exec BtError (list RowId) :=
  let? es := node_entries (V:=RowId) p in
  Ok (snd <$> filter (fun e => key_in_range e.1 lower upper = true) es).

(** The children whose range can overlap, from the [i]-th separator on. *)
Fixpoint range_children_from (lower upper : KeyBound) (p : SlottedPageRef) (n : nat) (i : Z)
    : exec BtError (list Z) :=
  match n with
  | O => Ok []
  | S n =>
      let? c := get_value (V:=Z) p i in
      let? low := get_key (V:=Z) p i in
      let? high := if i + 1 <? key_count p then get_key (V:=Z) p (i + 1) else Ok None in
      let? rest := range_children_from lower upper p n (i + 1) in
      Ok (match c with
          | Some c => if subtree_overlaps low high lower upper then c :: rest else rest
          | None => rest
          end)
  end.

Definition range_children (lower upper : KeyBound) (p : SlottedPageRef) : exec BtError (list Z) :=
  let? high := if 0 <? key_count p then get_key (V:=Z) p 0 else Ok None in
  let? rest := range_children_from lower upper p (Z.to_nat (key_count p)) 0 in
  Ok (if subtree_overlaps None high lower upper then leftmost_child p :: rest else rest).

Definition scan_range_from_root (fuel : nat) (root : Z) (lower upper : KeyBound) : bt (list RowId) :=
  walk (range_leaf lower upper) (range_children lower upper) fuel root [root] ∅ [].

Definition scan_range (fuel : nat) (root : Z) (lower upper : KeyBound) : bt (list RowId) :=
  if range_is_empty lower upper then bt_ret []
  else scan_range_from_root fuel root lower upper.

(** ** The operations *)

Record IndexManager := mk_index { im_root : Z; row_to_key : gmap RowId (list byte) }.

Definition im_new : bt IndexManager :=
  let! root := btree_new in bt_ret (mk_index root ∅).

Definition im_from_root (root : Z) : IndexManager := mk_index root ∅.

Definition im_search (fuel : nat) (im : IndexManager) (key : list byte) : bt (option RowId) :=
  search fuel (im_root im) key.

Fixpoint search_all_candidates (fuel : nat) (root pid : Z) (key : Key) : bt (list RowId) :=
  match fuel with
  | O => bt_spent
  | S fuel =>
      let! (d, is_leaf) := load_intact root pid in
      let! p := bt_lift (ref_new d) in
      if (is_leaf : bool) then
        let! ms := bt_lift (find_all_matches p key) in
        bt_lift (read_matches p ms)
      else
        let! cs := bt_lift (equality_candidate_children p key) in
        foldl (fun acc c =>
          let! rs := acc in
          let! more := search_all_candidates fuel root c key in
          bt_ret (rs ++ more)) (bt_ret []) cs
  end.

Definition im_search_all (fuel : nat) (im : IndexManager) (key : list byte) : bt (list RowId) :=
  let! k := bt_key key in search_all_candidates fuel (im_root im) (im_root im) k.

Definition im_insert (fuel : nat) (im : IndexManager) (key : list byte) (row_id : RowId)
    : bt IndexManager :=
  let! root := btree_insert fuel (im_root im) key row_id in
  bt_ret (mk_index root (<[row_id := key]> (row_to_key im))).

Definition im_delete (fuel : nat) (im : IndexManager) (key : list byte) : bt IndexManager :=
  let! found := search fuel (im_root im) key in
  let! nr := btree_delete fuel (im_root im) key in
  bt_ret (mk_index (default (im_root im) nr)
    match found with Some r => base.delete r (row_to_key im) | None => row_to_key im end).

Definition im_delete_exact (fuel : nat) (im : IndexManager) (key : list byte) (row_id : RowId)
    : bt IndexManager :=
  let! _ := delete_exact fuel (im_root im) key row_id in
  bt_ret (mk_index (im_root im)
    (if bool_decide (row_to_key im !! row_id = Some key) then base.delete row_id (row_to_key im)
     else row_to_key im)).

Definition im_update (fuel : nat) (im : IndexManager) (key : list byte) (new_row_id : RowId)
    : bt IndexManager :=
  let! _ := btree_update fuel (im_root im) key new_row_id in
  bt_ret (mk_index (im_root im) (<[new_row_id := key]> (row_to_key im))).

Definition im_find_key_by_row_id (im : IndexManager) (row_id : RowId) : option (list byte) :=
  row_to_key im !! row_id.

(** [collect_all_pages]: the pages reachable through the bounded reader; a
    damaged page is listed and its children are not. *)
Fixpoint collect_pages (fuel : nat) (stack : list Z) (visited : gset Z) (result : list Z) : bt (list Z) :=
  match stack with
  | [] => bt_ret result
  | pid :: stack =>
      match fuel with
      | O => bt_spent
      | S fuel =>
          if bool_decide (pid ∈ visited) then collect_pages fuel stack visited result
          else
            let! d := load_page pid in
            let! step := bt_lift (check_tree_page d) in
            match invalid_type step with
            | Some actual => bt_fail (InvalidPageType LEAF_NODE actual)
            | None =>
                let cs := match violations step with [] => children step | _ => [] end in
                collect_pages fuel (reverse (filter (fun c => c <> 0) cs) ++ stack)
                  ({[pid]} ∪ visited) (result ++ [pid])
            end
      end
  end.

Definition collect_all_pages (fuel : nat) (root : Z) : bt (list Z) := collect_pages fuel [root] ∅ [].

(** [collect_all_pages_tolerant]: no page makes the walk fail. *)
Fixpoint collect_tolerant (fuel : nat) (stack : list Z) (visited : gset Z) (result : list Z) : bt (list Z) :=
  match stack with
  | [] => bt_ret result
  | pid :: stack =>
      match fuel with
      | O => bt_spent
      | S fuel =>
          if bool_decide (pid ∈ visited) then collect_tolerant fuel stack visited result
          else
            let! r := bt_try (load_page pid) in
            let! cs :=
              match r with
              | inr _ => bt_ret []
              | inl d =>
                  let! step := bt_lift (check_tree_page d) in
                  bt_ret (match invalid_type step, violations step with
                          | None, [] => children step
                          | _, _ => []
                          end)
              end in
            collect_tolerant fuel (reverse (filter (fun c => c <> 0) cs) ++ stack)
              ({[pid]} ∪ visited) (result ++ [pid])
      end
  end.

Definition collect_all_pages_tolerant (fuel : nat) (root : Z) : bt (list Z) :=
  if root =? 0 then bt_ret [] else collect_tolerant fuel [root] ∅ [].

(** ** The walk lists the entries in order *)

Lemma filter_keep {B} (Q : B -> Prop) `{forall x, Decision (Q x)} (l : list B) :
  (forall x, x ∈ l -> Q x) -> filter Q l = l.
Proof.
  induction l as [|x l IH]; intros HQ; [done|]. rewrite filter_cons_True by (apply HQ; set_solver).
  rewrite IH; [done|]. intros y Hy. apply HQ. set_solver.
Qed.

Lemma tree_pages D h m pid lo hi es ids :
  tree_at D h m pid lo hi es ids -> forall i, i ∈ ids -> is_Some (m !! i).
Proof.
  revert pid lo hi es ids. induction h as [|h IH]; intros pid lo hi es ids [_ T] i.
  - destruct T as (d & link & Hd & _ & _ & _ & _ & ->). rewrite list_elem_of_singleton. intros ->. eauto.
  - destruct T as (d & c0 & seps & ids' & Hd & _ & _ & K & ->). rewrite elem_of_cons.
    intros [->|Hi]; [eauto|]. clear d Hd. revert lo c0 es ids' K Hi.
    induction seps as [|s seps IHs]; intros lo c0 es ids' K Hi; cbn [kids] in K.
    + destruct K as [_ K]. by eapply IH.
    + destruct K as (_ & es1 & es2 & ids1 & ids2 & _ & -> & K1 & K2).
      apply elem_of_app in Hi as [Hi|Hi]; [by eapply IH|by eapply IHs].
Qed.

Section walk.
Context {A : Type} (out : SlottedPageRef -> exec BtError (list A))
  (children_of : SlottedPageRef -> exec BtError (list Z))
  (give : Leaf -> list A) (pick : option Z -> option Z -> bool).

(** The children the walk goes to, by the separators around them. *)
Fixpoint picked (low : option Z) (c : Z) (seps : Seps) : list Z :=
  match seps with
  | [] => if pick low None then [c] else []
  | s :: seps => (if pick low (Some (kz s.1)) then [c] else []) ++ picked (Some (kz s.1)) s.2 seps
  end.

Definition between (low high : option Z) (es : Leaf) : Prop :=
  Forall (fun e => match low with Some l => l <= kz e.1 | None => True end
                   /\ match high with Some h => kz e.1 < h | None => True end) es.

Hypotheses
  (Hout : forall p es link, leaf_is p es link -> out (sp_view p) = Ok (give es))
  (Hchildren : forall p c0 seps, internal_is p c0 seps ->
     children_of (sp_view p) = Ok (picked None c0 seps))
  (Hgive : forall l k, give (l ++ k) = give l ++ give k)
  (Hpick : forall low high es, pick low high = false -> Forall (fun e => zlen e.1 = 32) es ->
     between low high es -> give es = []).

(** From any stack, the walk of a subtree gives its entries and goes on with
    the rest of the stack, having visited pages of the subtree only. *)
Definition walked (root : Z) (P : Pool) (top stack : list Z) (visited : gset Z) (es : Leaf) (ids : list Z)
    : Prop :=
  exists visited' used, (used <= length ids)%nat /\ (forall i, i ∈ visited' -> i ∈ visited \/ i ∈ ids)
    /\ forall acc fuel, walk out children_of (fuel + used) root (top ++ stack) visited acc P
         = walk out children_of fuel root stack visited' (acc ++ give es) P.

Definition walks (T : Z -> Z -> Z -> Leaf -> list Z -> Prop) (root : Z) (P : Pool) : Prop :=
  forall c lo hi es ids stack visited, T c lo hi es ids -> NoDup ids ->
    (forall i, i ∈ ids -> i ∉ visited) -> walked root P [c] stack visited es ids.

Lemma walked_none root P stack visited es ids : give es = [] -> walked root P [] stack visited es ids.
Proof.
  intros E. exists visited, O. split_and!; [lia|auto|]. intros acc fuel.
  by rewrite E, app_nil_r, Nat.add_0_r.
Qed.

Lemma walked_app root P t1 t2 stack visited es1 es2 ids1 ids2 :
  walked root P t1 (t2 ++ stack) visited es1 ids1 ->
  (forall v, (forall i, i ∈ v -> i ∈ visited \/ i ∈ ids1) -> walked root P t2 stack v es2 ids2) ->
  walked root P (t1 ++ t2) stack visited (es1 ++ es2) (ids1 ++ ids2).
Proof.
  intros (v1 & u1 & Hu1 & Hv1 & E1) H2. destruct (H2 v1 Hv1) as (v2 & u2 & Hu2 & Hv2 & E2).
  exists v2, (u1 + u2)%nat. rewrite length_app. split_and!; [lia| |].
  - intros i Hi. rewrite elem_of_app. destruct (Hv2 i Hi) as [Hi'|]; [|tauto]. destruct (Hv1 i Hi'); tauto.
  - intros acc fuel. rewrite <- app_assoc. replace (fuel + (u1 + u2))%nat with (fuel + u2 + u1)%nat by lia.
    by rewrite E1, E2, Hgive, app_assoc.
Qed.

Lemma walk_kids T root P seps :
  walks T root P -> sound T -> (forall c lo hi es ids, T c lo hi es ids -> Forall (fun e => zlen e.1 = 32) es) ->
  forall lo hi c es ids low stack visited,
  kids T lo hi c seps es ids -> NoDup ids -> (forall i, i ∈ ids -> i ∉ visited) ->
  match low with Some l => l = lo | None => True end ->
  walked root P (picked low c seps) stack visited es ids.
Proof.
  intros HW HT HL. induction seps as [|s seps IH]; intros lo hi c es ids low stack visited K U V Hlow;
    cbn [picked].
  - destruct K as [_ K]. destruct (pick low None) eqn:EP; [by eapply HW|].
    apply walked_none, (Hpick low None es EP); [by eapply HL|].
    destruct (HT _ _ _ _ _ K) as (_ & _ & _ & W). eapply Forall_impl; [exact W|]. cbn. intros x Hx.
    split; [|done]. destruct low as [l|]; [subst; lia|done].
  - destruct K as (Hlo & es1 & es2 & ids1 & ids2 & -> & -> & K1 & K2).
    apply NoDup_app in U as (U1 & Dj & U2). destruct (HT _ _ _ _ _ K1) as (_ & _ & _ & W1).
    apply walked_app.
    + destruct (pick low (Some (kz s.1))) eqn:EP.
      * eapply HW; [exact K1|done|]. intros i Hi. apply V, elem_of_app. by left.
      * apply walked_none, (Hpick low _ es1 EP); [by eapply HL|]. eapply Forall_impl; [exact W1|].
        cbn. intros x Hx. split; [|lia]. destruct low as [l|]; [subst; lia|done].
    + intros v Hv. eapply IH; [exact K2|done| |done]. intros i Hi Hiv.
      destruct (Hv i Hiv) as [H1|H1]; [|by apply (Dj i)]. apply (V i); [|done]. apply elem_of_app. by right.
Qed.

Lemma picked_children low c seps i : i ∈ picked low c seps -> i ∈ c :: seps.*2.
Proof.
  revert low c. induction seps as [|s seps IH]; intros low c; cbn [picked].
  - destruct (pick low None); set_solver.
  - rewrite elem_of_app. intros [Hi|Hi]; [destruct (pick low _); set_solver|]. apply IH in Hi. set_solver.
Qed.

Lemma walk_tree h root P : walks (tree_at splittable h (pool_pages P)) root P.
Proof.
  induction h as [|h IH]; intros c lo hi es ids stack visited T U V;
    pose proof (tree_sound _ _ _ _ _ _ _ _ T) as (_ & Hc & _).
  - destruct T as (_ & d & link & Hd & N & _ & _ & _ & ->).
    exists ({[c]} ∪ visited), 1%nat. split_and!; [cbn; lia|set_solver|]. intros acc fuel.
    rewrite Nat.add_1_r. cbn [app walk]. rewrite bool_decide_eq_false_2 by (by apply V).
    destruct (load_leaf root c d es link P Hd N) as [E1 E2].
    rewrite (bind_ok _ _ _ _ _ E1), (bind_lift _ _ _ _ E2).
    by rewrite (bind_lift _ _ _ _ (Hout _ _ _ N)).
  - destruct T as (_ & d & c0 & seps & ids' & Hd & N & _ & K & ->). apply NoDup_cons in U as [Hni U].
    destruct (load_internal root c d c0 seps P Hd N) as [E1 E2].
    destruct (walk_kids _ root P seps IH (tree_sound _ h _) (leaf_keys_len h _) lo hi c0 es ids' None stack
      ({[c]} ∪ visited) K U) as (v & u & Hu & Hv & E); [|done|].
    { intros i Hi Hin. apply elem_of_union in Hin as [Hin|Hin]; [|by apply (V i); set_solver].
      apply elem_of_singleton in Hin. by subst. }
    exists v, (S u). split_and!; [cbn [length]; lia| |].
    { intros i Hi. specialize (Hv i Hi). set_solver. }
    intros acc fuel. rewrite Nat.add_succ_r. cbn [app walk].
    rewrite bool_decide_eq_false_2 by (by apply V).
    rewrite (bind_ok _ _ _ _ _ E1), (bind_lift _ _ _ _ E2), (bind_lift _ _ _ _ (Hchildren _ _ _ N)).
    rewrite filter_keep; [apply E|]. intros i Hi Hin. apply picked_children in Hi.
    destruct (kids_sound _ _ (tree_sound _ h _) _ _ _ _ _ K) as (_ & _ & _ & _ & _ & HI).
    specialize (HI i Hi). apply elem_of_union in Hin as [Hin|Hin]; [|by apply (V i); set_solver].
    apply elem_of_singleton in Hin. by subst.
Qed.
Lemma walk_index root P h es fuel :
  is_index P root h es -> (size (pool_pages P) <= fuel)%nat ->
  walk out children_of fuel root [root] ∅ [] P = Some (Ok (give es), P).
Proof.
  intros (ids & T & U & _) Hf.
  destruct (walk_tree h root P root 0 KEY_END es ids [] ∅ T U) as (v & u & Hu & _ & E).
  { intros i _. apply not_elem_of_empty. }
  pose proof (nodup_in_map_length _ _ U (tree_pages _ _ _ _ _ _ _ _ T)).
  replace fuel with ((fuel - u) + u)%nat by lia. cbn [app] in E. rewrite E. by destruct (fuel - u)%nat.
Qed.
End walk.

(** ** Scans *)

Lemma all_children_ok p c0 seps n i :
  internal_is p c0 seps -> 0 <= i -> (Z.to_nat i + n = length seps)%nat ->
  all_children_from (sp_view p) n i = Ok ((drop (Z.to_nat i) seps).*2).
Proof.
  intros N. revert i. induction n as [|n IH]; intros i H0 HL.
  - by rewrite drop_ge by lia.
  - cbn [all_children_from]. rewrite (node_value _ _ _ i N), exec_bind_ret by done.
    rewrite IH, exec_bind_ret by lia.
    destruct (seps !! Z.to_nat i) as [s|] eqn:Hs; [|apply lookup_ge_None in Hs; lia].
    rewrite (drop_S seps s (Z.to_nat i)) by done. cbn. do 3 f_equal. f_equal. lia.
Qed.

Lemma picked_all low c seps : picked (fun _ _ => true) low c seps = c :: seps.*2.
Proof. revert low c. induction seps as [|s seps IH]; intros low c; [done|]. cbn [picked app]. by rewrite IH. Qed.

Lemma scan_all_index P root h es fuel :
  is_index P root h es -> (size (pool_pages P) <= fuel)%nat ->
  index_scan_all fuel root P
  = Some (Ok ((fun e => (key_as_bytes (key_of e.1), e.2)) <$> es), P).
Proof.
  intros HI Hf. apply (walk_index _ _ (fun es => (fun e => (key_as_bytes (key_of e.1), e.2)) <$> es)
    (fun _ _ => true)) with h; try done.
  - intros p l link N. unfold scan_leaf. rewrite (node_entries_ok _ _ _ N), exec_bind_ret.
    f_equal. rewrite <- list_fmap_compose. by apply list_fmap_ext.
  - intros p c0 seps N. unfold all_children, key_count, leftmost_child. cbn [sp_view header].
    rewrite (node_count _ _ _ N), (all_children_ok p c0 seps) by (done || (unfold zlen; lia)).
    rewrite exec_bind_ret, drop_0, picked_all, (n_link _ _ _ N). done.
  - intros l k. by rewrite fmap_app.
Qed.

(** The keys between the bounds. *)
Definition in_bounds (lower upper : KeyBound) (z : Z) : Prop :=
  match lower with
  | Some (b, true) => kz (key_data b) <= z
  | Some (b, false) => kz (key_data b) < z
  | None => True
  end /\
  match upper with
  | Some (b, true) => z <= kz (key_data b)
  | Some (b, false) => z < kz (key_data b)
  | None => True
  end.

#[global] Instance in_bounds_dec lower upper z : Decision (in_bounds lower upper z).
Proof. unfold in_bounds. destruct lower as [[? []]|], upper as [[? []]|]; apply _. Defined.

Definition key_bound_wf (b : KeyBound) : Prop := match b with Some (k, _) => zlen (key_data k) = 32 | None => True end.

Definition overlap (lower upper : KeyBound) (low high : option Z) : bool :=
  match high, lower with Some h, Some (b, inc) => side (h ?= kz (key_data b)) Lt inc | _, _ => true end
  && match low, upper with Some l, Some (b, inc) => side (l ?= kz (key_data b)) Gt inc | _, _ => true end.

Section range.
Context (lower upper : KeyBound).
Hypotheses (WL : key_bound_wf lower) (WU : key_bound_wf upper).

Lemma key_in_range_spec kd :
  zlen kd = 32 -> (key_in_range (key_of kd) lower upper = true <-> in_bounds lower upper (kz kd)).
Proof.
  intros L. unfold key_in_range, in_bounds. rewrite andb_true_iff.
  destruct lower as [[b i]|], upper as [[b' i']|]; cbn [key_bound_wf] in *; rewrite ?key_of_cmp by done;
    repeat match goal with |- context [?x ?= ?y] => destruct (Z.compare_spec x y) end;
    repeat match goal with i : bool |- _ => destruct i end; cbn; intuition (lia || done).
Qed.

Lemma overlap_keys low high :
  match low with Some k => zlen k = 32 | None => True end ->
  match high with Some k => zlen k = 32 | None => True end ->
  subtree_overlaps (key_of <$> low) (key_of <$> high) lower upper = overlap lower upper (kz <$> low) (kz <$> high).
Proof.
  intros L H. unfold subtree_overlaps, overlap.
  destruct low, high, lower as [[b i]|], upper as [[b' i']|]; cbn [fmap option_fmap option_map key_bound_wf] in *;
    rewrite ?key_of_cmp by done; done.
Qed.

Lemma overlap_empty low high es :
  overlap lower upper low high = false -> between low high es ->
  Forall (fun e => ~ in_bounds lower upper (kz e.1)) es.
Proof.
  intros O B. eapply Forall_impl; [exact B|]. intros e [Hl Hh]. unfold overlap in O. unfold in_bounds.
  destruct low, high, lower as [[b i]|], upper as [[b' i']|]; cbn [side andb] in O; try discriminate O;
    repeat match goal with H : context [?x ?= ?y] |- _ => destruct (Z.compare_spec x y) end;
    repeat match goal with i : bool |- _ => destruct i end; cbn in O; try discriminate O; intuition lia.
Qed.

Lemma filter_none {B} (Q : B -> Prop) `{forall x, Decision (Q x)} (l : list B) :
  (forall x, x ∈ l -> ~ Q x) -> filter Q l = [].
Proof.
  induction l as [|x l IH]; intros HQ; [done|]. rewrite filter_cons_False by (apply HQ; set_solver).
  apply IH. intros y Hy. apply HQ. set_solver.
Qed.

Definition tail_picked (pick : option Z -> option Z -> bool) (seps : Seps) : list Z :=
  match seps with [] => [] | s :: seps => picked pick (Some (kz s.1)) s.2 seps end.

Lemma picked_head pick low c seps :
  picked pick low c seps
  = (if pick low (kz <$> (fst <$> head seps)) then [c] else []) ++ tail_picked pick seps.
Proof. destruct seps; cbn; [by rewrite app_nil_r|done]. Qed.

Lemma sep_key_len p c0 seps i :
  internal_is p c0 seps -> match fst <$> seps !! i with Some k => zlen k = 32 | None => True end.
Proof.
  intros N. destruct (seps !! i) as [s|] eqn:Hs; [|done]. pose proof (n_es _ _ _ N) as F.
  rewrite Forall_forall in F. apply F. by eapply list_elem_of_lookup_2.
Qed.

(** The separator after the [i]-th, which the code reads only below the
    count. *)
Lemma next_key p c0 seps i :
  internal_is p c0 seps -> 0 <= i ->
  (if i <? key_count (sp_view p) then get_key (V:=Z) (sp_view p) i else Ok None)
  = Ok (key_of <$> (fst <$> seps !! Z.to_nat i)).
Proof.
  intros N H0. unfold key_count. cbn [sp_view header]. rewrite (node_count _ _ _ N).
  destruct (Z.ltb_spec i (zlen seps)).
  - rewrite (node_key _ _ _ _ N) by lia. by destruct (seps !! Z.to_nat i).
  - rewrite lookup_ge_None_2 by (unfold zlen in *; lia). done.
Qed.

Lemma range_children_from_ok p c0 seps n i :
  internal_is p c0 seps -> 0 <= i -> (Z.to_nat i + n = length seps)%nat ->
  range_children_from lower upper (sp_view p) n i
  = Ok (tail_picked (overlap lower upper) (drop (Z.to_nat i) seps)).
Proof.
  intros N. revert i. induction n as [|n IH]; intros i H0 HL.
  - by rewrite drop_ge by lia.
  - cbn [range_children_from].
    destruct (seps !! Z.to_nat i) as [s|] eqn:Hs; [|apply lookup_ge_None in Hs; lia].
    rewrite (node_value _ _ _ i N), (node_key _ _ _ i N), Hs by done. cbn [fmap option_fmap option_map].
    rewrite !exec_bind_ret, (next_key _ _ _ (i + 1) N), exec_bind_ret by lia.
    rewrite IH, exec_bind_ret by lia. rewrite (drop_S seps s (Z.to_nat i)) by done. cbn [tail_picked].
    rewrite picked_head. replace (Z.to_nat (i + 1)) with (S (Z.to_nat i)) by lia.
    assert (head (drop (S (Z.to_nat i)) seps) = seps !! S (Z.to_nat i)) as ->.
    { rewrite <- (Nat.add_0_r (S (Z.to_nat i))), <- lookup_drop. rewrite Nat.add_0_r. by destruct (drop _ _). }
    pose proof (sep_key_len _ _ _ (Z.to_nat i) N) as L1. rewrite Hs in L1.
    change (Some (key_of s.1)) with (key_of <$> Some s.1). rewrite overlap_keys; [|done|by eapply sep_key_len].
    cbn [fmap option_fmap option_map]. by destruct (overlap _ _ _ _).
Qed.

Lemma range_children_ok p c0 seps :
  internal_is p c0 seps ->
  range_children lower upper (sp_view p) = Ok (picked (overlap lower upper) None c0 seps).
Proof.
  intros N. unfold range_children. rewrite (next_key _ _ _ 0 N), exec_bind_ret by lia.
  assert (range_children_from lower upper (sp_view p) (Z.to_nat (key_count (sp_view p))) 0
    = Ok (tail_picked (overlap lower upper) seps)) as ->.
  { unfold key_count. cbn [sp_view header]. rewrite (node_count _ _ _ N).
    rewrite (range_children_from_ok p c0 seps) by (done || (unfold zlen; lia)). by rewrite drop_0. }
  rewrite exec_bind_ret, picked_head.
  change (@None Key) with (key_of <$> (@None (list byte))).
  rewrite overlap_keys; [|done|by eapply sep_key_len]. unfold leftmost_child. cbn [sp_view header].
  rewrite (n_link _ _ _ N). change (seps !! Z.to_nat 0) with (seps !! 0%nat).
  assert (seps !! 0%nat = head seps) as -> by (by destruct seps). cbn [fmap option_fmap option_map].
  by destruct (overlap _ _ _ _).
Qed.

(** The rows of the entries between the bounds, in key order. *)
Definition rows_between (es : Leaf) : list RowId :=
  snd <$> filter (fun e => in_bounds lower upper (kz e.1)) es.

Lemma range_leaf_ok p es link :
  leaf_is p es link -> range_leaf lower upper (sp_view p) = Ok (rows_between es).
Proof.
  intros N. unfold range_leaf, rows_between. rewrite (node_entries_ok _ _ _ N), exec_bind_ret. f_equal.
  pose proof (n_es _ _ _ N) as F. clear N. induction F as [|e es [L _] _ IH]; [done|].
  cbn [fmap list_fmap]. rewrite !filter_cons. pose proof (key_in_range_spec e.1 L) as K.
  cbn [entry_of fst]. destruct (decide (in_bounds lower upper (kz e.1))) as [D|D].
  - rewrite decide_True by tauto. cbn [fmap list_fmap]. by rewrite IH.
  - rewrite decide_False by tauto. done.
Qed.

Lemma range_empty_spec es :
  range_is_empty lower upper = true -> rows_between es = [].
Proof.
  intros E. unfold rows_between. rewrite filter_none; [done|]. intros e _ [HL HU].
  unfold range_is_empty in E. destruct lower as [[b i]|], upper as [[b' i']|]; try discriminate E.
  cbn [key_bound_wf] in *. unfold key_cmp in E. rewrite bytes_cmp_be_val in E by (unfold zlen in *; lia).
  fold (kz (key_data b)) (kz (key_data b')) in E. destruct (Z.compare_spec (kz (key_data b)) (kz (key_data b')));
    destruct i, i'; cbn in E; try discriminate E; lia.
Qed.

Lemma scan_range_index P root h es fuel :
  is_index P root h es -> (size (pool_pages P) <= fuel)%nat ->
  scan_range fuel root lower upper P = Some (Ok (rows_between es), P).
Proof.
  intros HI Hf. unfold scan_range. destruct (range_is_empty lower upper) eqn:E.
  { by rewrite range_empty_spec. }
  apply (walk_index _ _ rows_between (overlap lower upper)) with h; try done.
  - intros p l link N. by eapply range_leaf_ok.
  - apply range_children_ok.
  - intros l k. unfold rows_between. by rewrite filter_app, fmap_app.
  - intros low high l HO _ HB. unfold rows_between. rewrite filter_none; [done|].
    intros e He. pose proof (overlap_empty low high l HO HB) as F. rewrite Forall_forall in F. by apply F.
Qed.
End range.

(** ** Theorems *)

Lemma tree_height h m pid lo hi es ids :
  tree_at splittable h m pid lo hi es ids -> (h + 1 <= length ids)%nat.
Proof.
  revert pid lo hi es ids. induction h as [|h IH]; intros pid lo hi es ids [_ T].
  - destruct T as (d & link & _ & _ & _ & _ & _ & ->). done.
  - destruct T as (d & c0 & seps & ids' & _ & _ & _ & K & ->). cbn [length].
    destruct seps as [|s seps]; cbn [kids] in K.
    + destruct K as [_ K]. apply IH in K. lia.
    + destruct K as (_ & es1 & es2 & ids1 & ids2 & -> & -> & K1 & _). apply IH in K1.
      rewrite length_app. lia.
Qed.

Lemma index_height P root h es : is_index P root h es -> (h < size (pool_pages P))%nat.
Proof.
  intros (ids & T & U & _). pose proof (tree_height _ _ _ _ _ _ _ T).
  pose proof (nodup_in_map_length _ _ U (tree_pages _ _ _ _ _ _ _ _ T)). lia.
Qed.

Lemma search_index P root h es key fuel :
  is_index P root h es -> zlen key <= 32 -> (h < fuel)%nat ->
  search fuel root key P = Some (Ok (index_map es !! pad32 key), P).
Proof.
  intros (ids & T & _) Hk Hf. destruct (bt_key_ok key P Hk) as (k & Ek & Ed & L).
  unfold search. rewrite (bind_ok _ _ _ _ _ Ek).
  rewrite (search_tree _ h fuel root P root 0 KEY_END es ids k T L); [|by apply kz_range|done].
  by rewrite assoc_map, Ed by (done || by eapply leaf_keys_len).
Qed.

(** C12: an index of any height, with any number of splits on the way, is a map
    from 32-byte padded keys to rows.  Inserting a new key succeeds, changes
    the map at that key only, keeps the index well-formed, and afterwards
    searching any key answers the map. *)
Theorem index_insert_refines P im h es key r fuel :
  is_index P (im_root im) h es -> zlen key <= 32 -> row_id_wf r ->
  index_map es !! pad32 key = None -> (h + 2 <= length (supply P))%nat -> (h + 2 <= fuel)%nat ->
  exists P' im' h' es', im_insert fuel im key r P = Some (Ok im', P')
    /\ is_index P' (im_root im') h' es' /\ (h <= h' <= h + 1)%nat
    /\ index_map es' = <[pad32 key := r]> (index_map es)
    /\ im_find_key_by_row_id im' r = Some key
    /\ forall key', zlen key' <= 32 ->
         im_search fuel im' key' P' = Some (Ok (<[pad32 key := r]> (index_map es) !! pad32 key'), P').
Proof.
  intros HI Hk Wr HN HS Hf.
  destruct (insert_index P (im_root im) h es key r fuel HI Hk Wr HN HS) as (P' & root' & h' & n & E & I' & Hh & _); [lia|].
  destruct HI as (ids & T & _). pose proof (leaf_keys_len _ _ _ _ _ _ _ T) as FK.
  assert (zlen (pad32 key) = 32) as LP.
  { unfold pad32, zlen in *. rewrite length_app, length_replicate. lia. }
  pose proof (place_map (pad32 key, r) es FK LP HN) as EM. cbn [fst snd] in EM.
  exists P', (mk_index root' (<[r := key]> (row_to_key im))), h', (place (pad32 key, r) es). split_and!; try done; try lia.
  - unfold im_insert. by rewrite (bind_ok _ _ _ _ _ E).
  - apply lookup_insert_eq.
  - intros key' Hk'. unfold im_search. cbn [im_root]. rewrite (search_index P' root' h' _ key' fuel I' Hk') by lia.
    by rewrite EM.
Qed.

(** Insertions one after the other into a new index. *)
Fixpoint im_insert_all (fuel : nat) (im : IndexManager) (kvs : list (list byte * RowId)) : bt IndexManager :=
  match kvs with
  | [] => bt_ret im
  | (k, r) :: kvs => let! im := im_insert fuel im k r in im_insert_all fuel im kvs
  end.

(** A new index is an empty leaf on the next free page. *)
Lemma new_tree P root rest :
  supply P = root :: rest -> in_u32 root ->
  exists P', im_new P = Some (Ok (mk_index root ∅), P') /\ changed P P' [] [root]
    /\ tree_at splittable 0 (pool_pages P') root 0 KEY_END [] [root].
Proof.
  intros HS Hr. destruct (node_init_ok (V:=RowId) page_zeroed) as (p & E & N & D & F); [by vm_compute|].
  exists (mk_pool (<[root := page p]> (<[root := page_zeroed]> (pool_pages P))) rest (freed P)). split_and!.
  - unfold im_new, btree_new. erewrite bind_ok; [done|].
    erewrite bind_ok; [|unfold bt_alloc, allocate_page; by rewrite HS].
    erewrite bind_ok; [|eapply modify_ok; [cbn [pool_pages]; apply lookup_insert_eq|by rewrite E]]. done.
  - split; [|done]. intros i _ Hi. apply not_elem_of_cons in Hi as [Hi _]. cbn [pool_pages]. by rewrite !lookup_insert_ne.
  - split; [done|]. exists (page p), 0. cbn [pool_pages]. rewrite lookup_insert_eq, raw_of_wf by apply (n_wf _ _ _ N).
    split_and!; try done; [by left|apply SSorted_nil|apply Forall_nil_2].
Qed.

Definition pool_fresh (P : Pool) : Prop :=
  pool_pages P = ∅ /\ Forall in_u32 (supply P) /\ NoDup (supply P).

Lemma new_index P :
  pool_fresh P -> (1 <= length (supply P))%nat ->
  exists P' root, im_new P = Some (Ok (mk_index root ∅), P') /\ is_index P' root 0 []
    /\ supply P = root :: supply P'.
Proof.
  intros (HP & FU & FN) HL. destruct (supply P) as [|root rest] eqn:HS; [cbn in HL; lia|].
  apply Forall_cons in FU as [Fr FU]. apply NoDup_cons in FN as [Hr FN].
  destruct (new_tree P root rest HS Fr) as (P' & E & [_ CS] & T). exists P', root.
  rewrite HS in CS. injection CS as CS. subst rest. split_and!; [done| |done].
  exists [root]. split_and!; [done|apply NoDup_singleton|]. split; [done..|].
  by intros i Hi%list_elem_of_singleton; subst i.
Qed.

Lemma insert_all_index kvs : forall P im h es fuel,
  is_index P (im_root im) h es -> Forall (fun e => zlen e.1 <= 32 /\ row_id_wf e.2) kvs ->
  NoDup (pad32 <$> kvs.*1) -> Forall (fun e => index_map es !! pad32 e.1 = None) kvs ->
  (length kvs * (h + length kvs + 2) <= length (supply P))%nat -> (h + length kvs + 2 <= fuel)%nat ->
  exists P' im' h' es', im_insert_all fuel im kvs P = Some (Ok im', P')
    /\ is_index P' (im_root im') h' es' /\ (h' < fuel)%nat
    /\ index_map es' = foldl (fun m e => <[pad32 e.1 := e.2]> m) (index_map es) kvs.
Proof.
  induction kvs as [|[k r] kvs IH]; intros P im h es fuel HI F U A HS Hf.
  - exists P, im, h, es. split_and!; try done. cbn in Hf. lia.
  - apply Forall_cons in F as [[Hk Wr] F]. apply Forall_cons in A as [A0 A]. cbn [fst snd] in *.
    cbn [fmap list_fmap fst] in U. apply NoDup_cons in U as [U0 U]. cbn [length] in *.
    destruct (insert_index P (im_root im) h es k r fuel HI Hk Wr A0) as (P1 & root1 & h1 & n & E & I1 & Hh & ES & Hn);
      [nia|lia|].
    destruct HI as (ids & T & _). pose proof (leaf_keys_len _ _ _ _ _ _ _ T) as FK.
    assert (zlen (pad32 k) = 32) as LP.
    { unfold pad32, zlen in *. rewrite length_app, length_replicate. lia. }
    pose proof (place_map (pad32 k, r) es FK LP A0) as EM. cbn [fst snd] in EM.
    destruct (IH P1 (mk_index root1 (<[r := k]> (row_to_key im))) h1 (place (pad32 k, r) es) fuel) as (P' & im' & h' & es' & E' & I' & Hf' & EM');
      [done|done|done| |rewrite ES, length_drop; nia|lia|].
    { rewrite Forall_forall in A |- *. intros e He. rewrite EM, lookup_insert_ne; [by apply A|].
      intros Heq. apply U0. rewrite Heq, <- list_fmap_compose. by apply (list_elem_of_fmap_2 (pad32 ∘ fst)). }
    exists P', im', h', es'. split_and!; try done.
    + cbn [im_insert_all]. erewrite bind_ok; [exact E'|]. unfold im_insert. by rewrite (bind_ok _ _ _ _ _ E).
    + rewrite EM', EM. done.
Qed.

(** C11: inserting rows with pairwise distinct keys into a new index, given
    enough pages, succeeds; afterwards every search answers exactly what was
    inserted, and the full scan lists exactly these entries in key order. *)
Theorem index_history P kvs fuel :
  pool_fresh P -> Forall (fun e => zlen e.1 <= 32 /\ row_id_wf e.2) kvs -> NoDup (pad32 <$> kvs.*1) ->
  (1 + length kvs * (length kvs + 2) <= length (supply P))%nat -> (length kvs + 2 <= fuel)%nat ->
  let M := foldl (fun (m : gmap (list byte) RowId) e => <[pad32 e.1 := e.2]> m) ∅ kvs in
  exists P' im, (let! im := im_new in im_insert_all fuel im kvs) P = Some (Ok im, P')
    /\ (forall key, zlen key <= 32 -> im_search fuel im key P' = Some (Ok (M !! pad32 key), P'))
    /\ exists es, strict es /\ index_map es = M /\ forall fuel', (size (pool_pages P') <= fuel')%nat ->
         index_scan_all fuel' (im_root im) P'
         = Some (Ok ((fun e => (key_as_bytes (key_of e.1), e.2)) <$> es), P').
Proof.
  intros HP F U HS Hf M. destruct (new_index P HP) as (P0 & root & E0 & I0 & ES); [lia|].
  destruct (insert_all_index kvs P0 (mk_index root ∅) 0 [] fuel I0 F U) as (P' & im & h & es & E & I & Hh & EM).
  { apply Forall_forall. intros e _. apply lookup_empty. }
  { rewrite ES in HS. cbn [length] in HS. lia. }
  { lia. }
  exists P', im. split_and!.
  - by rewrite (bind_ok _ _ _ _ _ E0).
  - intros key Hk. unfold im_search. rewrite (search_index P' _ h es key fuel I Hk Hh). by rewrite EM.
  - exists es. split_and!; [|by rewrite EM|].
    + destruct I as (ids & T & _). by destruct (tree_sound _ _ _ _ _ _ _ _ T) as (_ & _ & ? & _).
    + intros fuel' Hf'. by apply (scan_all_index P' _ h).
Qed.

(** C13: a range scan returns exactly the rows whose keys lie between the
    bounds, each inclusive or exclusive or absent, in ascending key order:
    pruning subtrees by their separators loses nothing. *)
Theorem scan_range_exact P root h es lower upper fuel :
  is_index P root h es -> key_bound_wf lower -> key_bound_wf upper -> (size (pool_pages P) <= fuel)%nat ->
  scan_range fuel root lower upper P
  = Some (Ok (snd <$> filter (fun e => in_bounds lower upper (kz e.1)) es), P)
  /\ strict es.
Proof.
  intros I WL WU Hf. split; [by apply (scan_range_index lower upper WL WU P root h)|].
  destruct I as (ids & T & _). by destruct (tree_sound _ _ _ _ _ _ _ _ T) as (_ & _ & ? & _).
Qed.

(** *** Instances *)

Definition demo_supply : Pool := mk_pool ∅ (Z.of_nat <$> seq 1 30) [].

Lemma demo_supply_fresh : pool_fresh demo_supply.
Proof.
  split; [done|]. split.
  - apply Forall_forall. intros i Hi. apply list_elem_of_fmap in Hi as (n & -> & Hn).
    apply elem_of_seq in Hn. word_lia.
  - apply NoDup_fmap_2; [intros ? ? ?; lia|]. apply NoDup_seq.
Qed.

Definition demo_index_pool : Pool :=
  match im_new demo_supply with Some (_, P) => P | None => demo_supply end.

Lemma demo_index : is_index demo_index_pool 1 0 [] /\ (29 <= length (supply demo_index_pool))%nat.
Proof.
  destruct (new_index demo_supply demo_supply_fresh) as (P & root & E & I & S); [vm_compute; lia|].
  assert (demo_index_pool = P) as -> by (unfold demo_index_pool; by rewrite E).
  assert (supply demo_supply = 1 :: (Z.of_nat <$> seq 2 29)) as D by done.
  rewrite D in S. injection S as <- S. rewrite <- S. split; [done|]. cbn [length]. lia.
Qed.

Lemma index_insert_refines_witness :
  exists P' im', im_insert 2 (mk_index 1 ∅) [Byte.x61] (mk_row_id 7 3) demo_index_pool = Some (Ok im', P')
    /\ im_search 2 im' [Byte.x61] P' = Some (Ok (Some (mk_row_id 7 3)), P').
Proof.
  destruct (index_insert_refines demo_index_pool (mk_index 1 ∅) 0 [] [Byte.x61] (mk_row_id 7 3) 2)
    as (P' & im' & h' & es' & E & _ & _ & _ & _ & S).
  - apply demo_index.
  - vm_compute. done.
  - vm_compute. done.
  - done.
  - pose proof (proj2 demo_index). lia.
  - lia.
  - exists P', im'. split; [exact E|]. rewrite (S [Byte.x61]); [|by vm_compute].
    by rewrite lookup_insert_eq.
Defined.

Lemma index_history_witness :
  exists P' im, (let! im := im_new in im_insert_all 4 im
      [([Byte.x62], mk_row_id 1 0); ([Byte.x61], mk_row_id 1 1)]) demo_supply = Some (Ok im, P')
    /\ im_search 4 im [Byte.x61] P' = Some (Ok (Some (mk_row_id 1 1)), P').
Proof.
  destruct (index_history demo_supply [([Byte.x62], mk_row_id 1 0); ([Byte.x61], mk_row_id 1 1)] 4)
    as (P' & im & E & S & _).
  - apply demo_supply_fresh.
  - repeat constructor; vm_compute; done.
  - cbn [fmap list_fmap fst]. apply NoDup_cons. split; [|apply NoDup_singleton].
    intros H%list_elem_of_singleton. vm_compute in H. discriminate H.
  - vm_compute. lia.
  - cbn [length]. lia.
  - exists P', im. split; [exact E|]. rewrite (S [Byte.x61]) by (by vm_compute).
    cbn [foldl fst snd]. by rewrite lookup_insert_eq.
Defined.

Lemma scan_range_exact_witness :
  exists P' root, btree_insert 2 1 [Byte.x61] (mk_row_id 7 3) demo_index_pool = Some (Ok root, P')
    /\ scan_range (size (pool_pages P')) root None (Some (key_of (pad32 [Byte.x61]), true)) P'
       = Some (Ok [mk_row_id 7 3], P').
Proof.
  destruct (insert_index demo_index_pool 1 0 [] [Byte.x61] (mk_row_id 7 3) 2) as (P' & root & h & n & E & I & _);
    [apply demo_index|by vm_compute|by vm_compute|done|pose proof (proj2 demo_index); lia|lia|].
  exists P', root. split; [exact E|].
  destruct (scan_range_exact P' root h _ None (Some (key_of (pad32 [Byte.x61]), true))
              (size (pool_pages P')) I) as [-> _].
  - exact Logic.I.
  - by vm_compute.
  - lia.
  - do 3 f_equal.
Defined.

(** *** What the index cannot do *)

Definition outcome {A} (r : option (exec BtError A * Pool)) : option (exec BtError A) := fst <$> r.

Fixpoint churn (n : nat) (im : IndexManager) (key : list byte) (r : RowId) : bt IndexManager :=
  match n with
  | O => bt_ret im
  | S n =>
      let! im := im_insert 2 im key r in
      let! im := im_delete 2 im key in
      churn n im key r
  end.

(** the space of a deleted entry is not reclaimed while the root is a
    leaf: after 107 times inserting and deleting one key the index is empty,
    and the next insertion fails because the full leaf has no entry to split
    at. *)
Theorem leaf_space_exhausts :
  outcome ((let! im := im_new in
            let! im := churn 107 im [Byte.x05] (mk_row_id 1 0) in
            let! es := index_scan_all 2 (im_root im) in
            let! r := bt_try (im_insert 2 im [Byte.x07] (mk_row_id 1 1)) in
            bt_ret (es, match r with inr e => Some e | inl _ => None end)) demo_supply)
  = Some (Ok ([], Some SplitEmptyNode)).
Proof. vm_compute. reflexivity. Qed.

(** A full root leaf, and one page left to allocate. *)
Definition full_leaf_keys : LeafEntries :=
  (fun n => (key_of (pad32 [byte_of (Z.of_nat n)]), mk_row_id (Z.of_nat n) 0)) <$> seq 1 92.

Definition full_leaf_pool : Pool :=
  mk_pool (<[1 := match leaf_build full_leaf_keys with Ok p => page p | _ => [] end]> ∅) [2] [].

(** when the page for the new root cannot be allocated after the root leaf
    was split, the insertion fails and the keys of the right half are no
    longer found. *)
Theorem failed_root_split_loses_keys :
  outcome ((let im := im_from_root 1 in
            let! before := im_search 2 im [Byte.x50] in
            let! r := bt_try (im_insert 2 im [Byte.x60] (mk_row_id 9 9)) in
            let! after := im_search 2 im [Byte.x50] in
            bt_ret (before, match r with inr e => Some e | inl _ => None end, after)) full_leaf_pool)
  = Some (Ok (Some (mk_row_id 80 0), Some BtAllocFailed, None)).
Proof. vm_compute. reflexivity. Qed.

(** Page 0 is a tree page like any other, as [scan_all] says, but the
    collection of the pages leaves it out when it is a child. *)
Definition page0_pool : Pool :=
  mk_pool (<[1 := match internal_build 0 [(key_of (pad32 [Byte.x41]), 2)] with Ok p => page p | _ => [] end]>
           (<[0 := match leaf_build [] with Ok p => page p | _ => [] end]>
            (<[2 := match leaf_build [] with Ok p => page p | _ => [] end]> ∅))) [] [].

Lemma collect_skips_page0 :
  outcome (collect_all_pages 10 1 page0_pool) = Some (Ok [1; 2])
  /\ outcome (index_scan_all 10 1 page0_pool) = Some (Ok []).
Proof. split; vm_compute; reflexivity. Qed.
