(* ===== verification/DataChain.v ===== *)
(** * The page chain of a table

    The data pages of a table ([src/storage/data_page.rs]) hang together by their
    next-page fields.  A write appends one row to that chain, a rewrite of a
    version header changes the header of one row, and pages outside the chain do
    not matter: so what a sequential scan walks is known after every write. *)

From Stdlib Require Import ZArith Strings.Byte Lia.
From stdpp Require Import base tactics list numbers gmap.
From S2P Require Import Prelude RowKey PageLayout Values IndexKey Tuple Version TxManager Overflow DataPage.
From S2P Require DataScan.
From S2P Require Import BTreeNode BTree BTreeInsert.
Import Key RowId.
#[local] Open Scope Z_scope.

Abbreviation data_chain := DataScan.data_chain.
Abbreviation chain_rows := DataScan.chain_rows.
Abbreviation page_rows := DataScan.page_rows.
Abbreviation scan_page := DataScan.scan_page.
Abbreviation mk_row := DataScan.mk_row.

(** ** Chains by position *)

(** One page of a chain and its link. *)
Definition linked (pages : gmap Z (list byte)) (ids : list Z) (k : nat) (pid : Z) : Prop :=
  exists d, pages !! pid = Some d /\ scan_page pid d /\ next_page_id (header_at d) = default 0 (ids !! S k)
    /\ ids !! S k <> Some 0.

Lemma chain_linked pages ids : data_chain pages ids <-> ids <> [] /\ forall k pid, ids !! k = Some pid -> linked pages ids k pid.
Proof.
  induction ids as [|pid rest IH]; [split; [done|by intros [? _]]|]. cbn [DataScan.data_chain]. split.
  - intros [(d & E & SP & N) Hr]. split; [done|]. intros [|k] q; cbn [lookup list_lookup].
    + intros [= <-]. exists d. split_and!; [done..| |]; destruct rest as [|r rest]; try done.
      cbn. destruct Hr as [?|[Hz _]]; [done|]. by intros [= ?].
    + intros Hq. destruct Hr as [->|[_ HC]]; [done|]. destruct (proj1 IH HC) as [_ HL].
      destruct (HL k q Hq) as (d' & ?). by exists d'.
  - intros [_ HL]. destruct (HL O pid eq_refl) as (d & E & SP & N & Hz). cbn in N, Hz. split.
    + exists d. split_and!; [done..|]. etrans; [exact N|]. by destruct rest.
    + destruct rest as [|r rest]; [by left|]. right. split; [cbn; intros ->; by apply Hz|]. apply IH. split; [done|].
      intros k q Hq. destruct (HL (S k) q Hq) as (d' & ?). by exists d'.
Qed.

Lemma chain_rows_app pages ids1 ids2 : chain_rows pages (ids1 ++ ids2) = chain_rows pages ids1 ++ chain_rows pages ids2.
Proof. unfold DataScan.chain_rows. by rewrite fmap_app, concat_app. Qed.

Lemma chain_rows_one pages pid d : pages !! pid = Some d -> chain_rows pages [pid] = page_rows pid d.
Proof. intros E. unfold DataScan.chain_rows, DataScan.image. cbn. by rewrite E, app_nil_r. Qed.

Lemma chain_rows_agree pages pages' ids : (forall i, i ∈ ids -> pages' !! i = pages !! i) -> chain_rows pages' ids = chain_rows pages ids.
Proof.
  intros HA. unfold DataScan.chain_rows, DataScan.image. f_equal. apply list_fmap_ext. intros k i Hi.
  rewrite HA; [done|]. by eapply list_elem_of_lookup_2.
Qed.

(** ** Pages *)

Lemma version_row pid lid vh tb : VersionHeader.wf vh ->
  mk_row (mk_row_id pid lid) (DataScan.header_of (slice (VersionHeader.to_bytes vh ++ tb) 0 22))
    (slice (VersionHeader.to_bytes vh ++ tb) 22 (zlen (VersionHeader.to_bytes vh ++ tb)))
  = mk_row (mk_row_id pid lid) vh tb.
Proof.
  intros W. pose proof (VersionFacts.length_to_bytes vh W) as L. set (vb := VersionHeader.to_bytes vh) in *.
  assert (ZV : zlen vb = 22) by (unfold zlen; lia).
  rewrite slice_app_l, slice_whole, slice_app_r, zlen_app, ZV by lia. replace (22 + zlen tb - 22) with (zlen tb) by lia.
  rewrite slice_whole by lia. f_equal. unfold DataScan.header_of. pose proof (VersionFacts.from_to_bytes vh [] W) as F.
  rewrite app_nil_r in F. fold vb in F. by rewrite F.
Qed.

Lemma page_rows_added pid d d' lid vh tb : VersionHeader.wf vh ->
  entries (raw_page d') = entries (raw_page d) ++ [(lid, VersionHeader.to_bytes vh ++ tb)] ->
  page_rows pid d' = page_rows pid d ++ [mk_row (mk_row_id pid lid) vh tb].
Proof. intros W E. unfold DataScan.page_rows. rewrite E, fmap_app. cbn [fmap list_fmap]. by rewrite version_row. Qed.

Lemma scan_page_added pid d d' vh tb : VersionHeader.wf vh -> scan_page pid d -> page_wf (raw_page d') ->
  entries (raw_page d') = entries (raw_page d) ++ [(zlen (entries (raw_page d)), VersionHeader.to_bytes vh ++ tb)] ->
  scan_page pid d'.
Proof.
  intros W [Pi _ De Ve] W' E. split; [done|done|..]; rewrite E.
  - rewrite fmap_app, De, zlen_app. unfold zlen at 4. cbn [length fmap list_fmap fst].
    pose proof (zlen_nonneg (entries (raw_page d))). by rewrite seqZ_app by lia.
  - apply Forall_app. split; [done|]. constructor; [|done]. cbn [snd]. rewrite zlen_app.
    pose proof (VersionFacts.length_to_bytes vh W). pose proof (zlen_nonneg tb). unfold zlen in *. lia.
Qed.

Lemma scan_page_first pid d' vh tb : VersionHeader.wf vh -> in_u32 pid -> page_wf (raw_page d') ->
  entries (raw_page d') = [(0, VersionHeader.to_bytes vh ++ tb)] -> scan_page pid d'.
Proof.
  intros W Hp W' E. split; [done|done|..]; rewrite E; [done|]. constructor; [|done]. cbn [snd]. rewrite zlen_app.
  pose proof (VersionFacts.length_to_bytes vh W). pose proof (zlen_nonneg tb). unfold zlen in *. lia.
Qed.

(** A page that keeps its entries. *)
Lemma scan_page_same pid d d' : scan_page pid d -> page_wf (raw_page d') -> entries (raw_page d') = entries (raw_page d) -> scan_page pid d'.
Proof. intros [P _ D V] W E. split; [done|done|by rewrite E..]. Qed.

Lemma page_rows_same pid d d' : entries (raw_page d') = entries (raw_page d) -> page_rows pid d' = page_rows pid d.
Proof. intros E. unfold DataScan.page_rows. by rewrite E. Qed.

(** ** The chain of a table *)

(** A table that was never written has one page of zeros. *)
Record chain_at (P : Pool) (head tail : Z) (ids : list Z) : Prop := {
  ca_pages : (ids = [tail] /\ pool_pages P !! tail = Some page_zeroed) \/ data_chain (pool_pages P) ids;
  ca_head : hd 0 ids = head;
  ca_last : last ids = Some tail;
  ca_nodup : NoDup ids;
  ca_u32 : Forall in_u32 ids;
  ca_nonzero : Forall (fun i => i <> 0) ids;
  ca_fresh : forall i, i ∈ ids -> i ∉ supply P }.

(** The tail page as a page of the chain. *)
Lemma chain_tail P head tail ids : chain_at P head tail ids ->
  exists front d, ids = front ++ [tail] /\ (tail ∉ front) /\ pool_pages P !! tail = Some d
    /\ (d = page_zeroed /\ front = [] \/ scan_page tail d).
Proof.
  intros [HP _ HL ND _ _ _]. apply last_Some in HL as [front ->]. exists front.
  assert (tail ∉ front) as Hn. { apply NoDup_app in ND as (_ & D & _). intros Hin. apply (D tail Hin). by left. }
  destruct HP as [[E HZ]|HC].
  - exists page_zeroed. destruct front as [|x [|y front]]; [|done..]. split_and!; try done. by left.
  - apply chain_linked in HC as [_ HL]. destruct (HL (length front) tail) as (d & E & SP & _).
    { by rewrite lookup_app_r, Nat.sub_diag by lia. }
    exists d. split_and!; try done. by right.
Qed.

(** The pages before the tail stay linked when their images stay. *)
Lemma front_linked P P' head tail front x k pid :
  chain_at P head tail (front ++ [tail]) -> (forall i, i ∈ front -> pool_pages P' !! i = pool_pages P !! i) ->
  x <> [] -> hd 0 x = tail -> front !! k = Some pid -> linked (pool_pages P') (front ++ x) k pid.
Proof.
  intros [HP _ _ _ _ NZ _] HA Hx Hh Hk. assert (pid ∈ front) as Hin by by eapply list_elem_of_lookup_2.
  destruct HP as [[E _]|HC].
  { destruct front as [|y [|z front]]; done. }
  apply chain_linked in HC as [_ HL]. destruct (HL k pid) as (d & E & SP & N & Z0); [by apply lookup_app_l_Some|].
  exists d. rewrite HA by done. assert ((front ++ x) !! S k = (front ++ [tail]) !! S k) as ->; [|done].
  pose proof (lookup_lt_Some _ _ _ Hk). destruct (decide (S k < length front)%nat) as [Hl|Hl]; [by rewrite !lookup_app_l|].
  rewrite !lookup_app_r by lia. replace (S k - length front)%nat with 0%nat by lia. destruct x; [done|]. cbn in *. by subst.
Qed.

(** ** A write *)

Section write.
Context (P P' : Pool) (head tail : Z) (ids : list Z) (rid : RowId) (vh : VersionHeader.vheader) (tuple : list byte) (new : list Z).
Context (S : supply_ok P) (C : chain_at P head tail ids) (Wv : VersionHeader.wf vh).
Context (W : written P P' tail rid vh tuple new).

Lemma new_pages i : i ∈ new -> i ∈ supply P /\ (i ∉ ids) /\ i ∉ supply P'.
Proof using S C W.
  intros Hi. pose proof (sup_nodup _ S) as ND. pose proof (wr_supply _ _ _ _ _ _ _ W) as ES. rewrite ES in ND.
  apply NoDup_app in ND as (_ & Dj & _). assert (i ∈ supply P) by (rewrite ES; apply elem_of_app; by left).
  split_and!; [done| |by apply Dj]. intros Hin. by apply (ca_fresh _ _ _ _ C i).
Qed.

Lemma old_pages i : i ∈ ids -> i <> tail -> pool_pages P' !! i = pool_pages P !! i.
Proof using S C W.
  intros Hi Hne. apply (wr_frame _ _ _ _ _ _ _ W); [done|]. intros Hn. by destruct (new_pages i Hn) as (_ & ? & _).
Qed.

Lemma still_fresh i : i ∈ ids -> i ∉ supply P'.
Proof using C W.
  intros Hi Hs. apply (ca_fresh _ _ _ _ C i Hi). rewrite (wr_supply _ _ _ _ _ _ _ W). apply elem_of_app. by right.
Qed.

(** The page of the new row ends the chain. *)
Lemma row_page_open d : pool_pages P' !! page_id rid = Some d -> entries (raw_page d) <> [] ->
  page_wf (raw_page d) /\ next_page_id (header_at d) = 0.
Proof using W.
  intros E He. destruct (wr_tail _ _ _ _ _ _ _ W) as (d' & E' & O). rewrite E in E'. injection E' as <-.
  destruct O as [->|(Wd & _ & _ & N)]; [by rewrite zeroed_entries in He|done].
Qed.

Lemma tail_page d' d (front : list Z) : (d = page_zeroed /\ front = [] \/ scan_page tail d) -> page_wf (raw_page d') ->
  entries (raw_page d') = entries (raw_page d) -> scan_page tail d'.
Proof using C.
  intros [[-> ->]|SP] Wd E; [|by apply (scan_page_same tail d)]. rewrite zeroed_entries in E.
  split; [|done|by rewrite E..]. pose proof (ca_u32 _ _ _ _ C) as U. rewrite Forall_forall in U. apply U.
  pose proof (ca_last _ _ _ _ C) as L. apply last_Some in L as [l ->]. apply elem_of_app. right. by left.
Qed.

(** On the tail page. *)
Lemma chain_on_tail front d d' tb :
  ids = front ++ [tail] -> (tail ∉ front) -> (d = page_zeroed /\ front = [] \/ scan_page tail d) ->
  pool_pages P !! tail = Some d -> page_id rid = tail -> pool_pages P' !! tail = Some d' -> slot_id rid = zlen (entries (raw_page d)) ->
  entries (raw_page d') = entries (raw_page d) ++ [(slot_id rid, VersionHeader.to_bytes vh ++ tb)] ->
  chain_at P' head (page_id rid) ids /\ chain_rows (pool_pages P') ids = chain_rows (pool_pages P) ids ++ [mk_row rid vh tb].
Proof using All.
  intros EI Hf Hd Ed ER Ed' Es EE.
  destruct (row_page_open d') as [Wd N]; [by rewrite ER|rewrite EE; by destruct (entries _)|].
  assert (SP : scan_page tail d').
  { destruct Hd as [[-> _]|SP]; [|by apply (scan_page_added tail d d' vh tb); rewrite <- ?Es].
    rewrite zeroed_entries in *. cbn in Es. rewrite Es in EE. apply (scan_page_first tail d' vh tb); try done.
    pose proof (ca_u32 _ _ _ _ C) as U. rewrite EI in U. by apply Forall_app in U as [_ [? _]%Forall_cons]. }
  assert (Front : forall i, i ∈ front -> pool_pages P' !! i = pool_pages P !! i).
  { intros i Hi. apply old_pages; [rewrite EI; apply elem_of_app; by left|by intros ->]. }
  rewrite ER. split.
  - pose proof C as [_ C1 C2 C3 C4 C5 _]. split; try done; [|apply still_fresh]. right. apply chain_linked. split; [rewrite EI; by destruct front|].
    intros k pid Hk. rewrite EI in *. destruct (decide (k < length front)%nat) as [Hl|Hl].
    + rewrite lookup_app_l in Hk by done. by apply (front_linked P P' head tail).
    + pose proof (lookup_lt_Some _ _ _ Hk) as HL. rewrite length_app in HL. cbn in HL. assert (k = length front) as -> by lia.
      rewrite lookup_app_r, Nat.sub_diag in Hk by lia. injection Hk as <-. exists d'. rewrite lookup_ge_None_2 by (rewrite length_app; cbn; lia). done.
  - rewrite EI, !chain_rows_app, (chain_rows_agree _ _ _ Front), (chain_rows_one _ _ _ Ed), (chain_rows_one _ _ _ Ed').
    rewrite (page_rows_added tail d d' (slot_id rid) vh tb Wv EE), app_assoc. do 3 f_equal. rewrite <- ER. by destruct rid.
Qed.

(** On a new page behind the tail. *)
Lemma chain_on_new front d d1 d2 tb :
  ids = front ++ [tail] -> (tail ∉ front) -> (d = page_zeroed /\ front = [] \/ scan_page tail d) ->
  pool_pages P !! tail = Some d -> page_id rid <> tail -> slot_id rid = 0 -> pool_pages P' !! tail = Some d1 ->
  pool_pages P' !! page_id rid = Some d2 -> entries (raw_page d1) = entries (raw_page d) ->
  next_page_id (header_at d1) = page_id rid -> entries (raw_page d2) = [(0, VersionHeader.to_bytes vh ++ tb)] ->
  chain_at P' head (page_id rid) (ids ++ [page_id rid])
  /\ chain_rows (pool_pages P') (ids ++ [page_id rid]) = chain_rows (pool_pages P) ids ++ [mk_row rid vh tb].
Proof using All.
  intros EI Hf Hd Ed ER Es Ed1 Ed2 EE1 N1 EE2.
  assert (page_id rid ∈ new) as Hn by (pose proof (wr_page _ _ _ _ _ _ _ W) as [?|?]%elem_of_cons; done).
  destruct (new_pages _ Hn) as (Hs & Hni & Hf'). destruct (row_page_open d2 Ed2) as [Wd2 N2]; [by rewrite EE2|].
  assert (page_wf (raw_page d1)) as Wd1 by (apply (wr_wf _ _ _ _ _ _ _ W tail); [by right|done]).
  assert (in_u32 (page_id rid)) as Hu by (pose proof (sup_u32 _ S) as U; rewrite Forall_forall in U; by apply U).
  assert (page_id rid <> 0) as Hz by (pose proof (sup_nonzero _ S) as U; rewrite Forall_forall in U; by apply U).
  assert (Front : forall i, i ∈ front -> pool_pages P' !! i = pool_pages P !! i).
  { intros i Hi. apply old_pages; [rewrite EI; apply elem_of_app; by left|by intros ->]. }
  pose proof (tail_page d1 d front Hd Wd1 EE1) as SP1. split.
  - pose proof C as [_ C1 C2 C3 C4 C5 _]. split.
    + right. apply chain_linked. split; [by destruct ids|]. intros k pid Hk. rewrite EI, <- app_assoc in *. cbn [app] in *.
      destruct (decide (k < length front)%nat) as [Hl|Hl].
      { rewrite lookup_app_l in Hk by done. by apply (front_linked P P' head tail). }
      rewrite lookup_app_r in Hk by lia. destruct (k - length front)%nat as [|[|m]] eqn:Ek; [| |by destruct m].
      * injection Hk as <-. exists d1. rewrite lookup_app_r by lia. replace (Datatypes.S k - length front)%nat with 1%nat by lia. cbn.
        split_and!; [done|done|done|by intros [= ?]].
      * injection Hk as <-. exists d2. rewrite lookup_ge_None_2 by (rewrite length_app; cbn; lia).
        split_and!; [done|by apply (scan_page_first _ d2 vh tb)|done|done].
    + rewrite EI in *. by destruct front.
    + by rewrite last_snoc.
    + apply NoDup_app. split_and!; [done| |apply NoDup_singleton]. by intros i Hi ->%list_elem_of_singleton.
    + apply Forall_app. split; [done|by constructor].
    + apply Forall_app. split; [done|by constructor].
    + intros i [Hi|Hi]%elem_of_app; [by apply still_fresh|]. by apply list_elem_of_singleton in Hi as ->.
  - rewrite EI, !chain_rows_app, (chain_rows_agree _ _ _ Front), (chain_rows_one _ _ _ Ed), (chain_rows_one _ _ _ Ed1), (chain_rows_one _ _ _ Ed2).
    rewrite (page_rows_same tail d d1 EE1). f_equal. rewrite (page_rows_added _ page_zeroed d2 0 vh tb Wv) by by rewrite zeroed_entries.
    unfold DataScan.page_rows. rewrite zeroed_entries. cbn. by rewrite <- Es; destruct rid.
Qed.

Lemma chain_written :
  exists tb roots ids', DataPage.row_bytes (pool_pages P') rid = Some (VersionHeader.to_bytes vh ++ tb)
    /\ rooted (pool_pages P') roots tb tuple /\ (forall i, i ∈ roots -> i ∈ new /\ i ∉ ids')
    /\ chain_at P' head (page_id rid) ids' /\ (forall i, i ∈ ids' <-> i ∈ ids \/ i = page_id rid)
    /\ (page_id rid ∈ ids \/ page_id rid ∈ new)
    /\ chain_rows (pool_pages P') ids' = chain_rows (pool_pages P) ids ++ [mk_row rid vh tb].
Proof using All.
  destruct (wr_bytes _ _ _ _ _ _ _ W) as (tb & roots & RB & LA & RT & RF).
  destruct (chain_tail _ _ _ _ C) as (front & d & EI & Hf & Ed & Hd).
  assert (tail ∈ ids) as Ht by (rewrite EI; apply elem_of_app; right; by left).
  destruct LA as [(ER & d0 & d' & E0 & E' & Es & EE)|(ER & Es & d0 & d1 & d2 & E0 & E1 & E2 & EE1 & N1 & EE2)];
    assert (d0 = d) as -> by congruence.
  - destruct (chain_on_tail front d d' tb) as [C' R']; try done. exists tb, roots, ids. split_and!; try done.
    + intros i Hi. destruct (RF i Hi) as [Hn _]. split; [done|]. by destruct (new_pages i Hn) as (_ & ? & _).
    + intros i. split; [by left|]. intros [?| ->]; [done|by rewrite ER].
    + left. by rewrite ER.
  - destruct (chain_on_new front d d1 d2 tb) as [C' R']; try done. exists tb, roots, (ids ++ [page_id rid]). split_and!; try done.
    + intros i Hi. destruct (RF i Hi) as [Hn Hne]. split; [done|]. rewrite elem_of_app, list_elem_of_singleton.
      destruct (new_pages i Hn) as (_ & ? & _). tauto.
    + intros i. by rewrite elem_of_app, list_elem_of_singleton.
    + right. pose proof (wr_page _ _ _ _ _ _ _ W) as [?|?]%elem_of_cons; done.
Qed.

End write.

(** ** Other pages, and version headers *)

Lemma data_chain_agree pages pages' ids : (forall i, i ∈ ids -> pages' !! i = pages !! i) -> data_chain pages ids -> data_chain pages' ids.
Proof.
  intros HA [Hne HL]%chain_linked. apply chain_linked. split; [done|]. intros k pid Hk. destruct (HL k pid Hk) as (d & E & ?).
  exists d. rewrite HA; [done|by eapply list_elem_of_lookup_2].
Qed.

Lemma chain_beside P P' head tail ids touched new :
  chain_at P head tail ids -> changed P P' touched new -> (forall i, i ∈ ids -> i ∉ touched) ->
  chain_at P' head tail ids /\ chain_rows (pool_pages P') ids = chain_rows (pool_pages P) ids.
Proof.
  intros [HP C1 C2 C3 C4 C5 HF] [CF CS] HD.
  assert (HA : forall i, i ∈ ids -> pool_pages P' !! i = pool_pages P !! i).
  { intros i Hi. apply CF; [by apply HD|]. intros Hn. apply (HF i Hi). rewrite CS. apply elem_of_app. by left. }
  split; [|by apply chain_rows_agree]. split; try done.
  - destruct HP as [[-> HZ]|HC]; [left; split; [done|]; rewrite HA; [done|by left]|right; by eapply data_chain_agree].
  - intros i Hi Hs. apply (HF i Hi). rewrite CS. apply elem_of_app. by right.
Qed.

(** The row [r] under another version header. *)
Definition restamp (r : RowId) (h : VersionHeader.vheader) (row : DataScan.SlotRow) : DataScan.SlotRow :=
  if bool_decide (DataScan.row_rid row = r) then mk_row r h (DataScan.row_tuple row) else row.

Lemma page_row_at pid d k row : scan_page pid d -> page_rows pid d !! k = Some row -> DataScan.row_rid row = mk_row_id pid (Z.of_nat k).
Proof. intros SP Hk. by destruct (DataScan.slot_read (E:=StorageError) pid d k row SP Hk) as (? & ? & _ & ? & _). Qed.

Lemma page_restamped pid d d' i lid vh tb h :
  scan_page pid d -> VersionHeader.wf vh -> VersionHeader.wf h -> page_wf (raw_page d') ->
  entries (raw_page d) !! i = Some (lid, VersionHeader.to_bytes vh ++ tb) ->
  entries (raw_page d') = <[i := (lid, VersionHeader.to_bytes h ++ tb)]> (entries (raw_page d)) ->
  scan_page pid d' /\ page_rows pid d' = restamp (mk_row_id pid lid) h <$> page_rows pid d.
Proof.
  intros SP Wv Wh W' Hi EE. pose proof (lookup_lt_Some _ _ _ Hi) as Li.
  assert (RI : page_rows pid d !! i = Some (mk_row (mk_row_id pid lid) vh tb)).
  { unfold DataScan.page_rows. rewrite list_lookup_fmap, Hi. cbn [fmap option_fmap option_map]. by rewrite version_row. }
  pose proof (page_row_at pid d i _ SP RI) as Ei. cbn in Ei. injection Ei as El.
  split.
  - destruct SP as [Pi _ De Ve]. split; [done|done|..]; rewrite EE.
    + assert (zlen (<[i := (lid, VersionHeader.to_bytes h ++ tb)]> (entries (raw_page d))) = zlen (entries (raw_page d))) as ->
        by (unfold zlen; by rewrite length_insert).
      rewrite list_fmap_insert, De. cbn [fst]. apply list_insert_id. rewrite <- De, list_lookup_fmap, Hi. done.
    + apply Forall_insert; [done|]. cbn [snd]. pose proof (VersionFacts.length_to_bytes h Wh). pose proof (zlen_nonneg tb).
      rewrite zlen_app. unfold zlen in *. lia.
  - apply list_eq. intros k. rewrite list_lookup_fmap. destruct (decide (k = i)) as [->|Hne].
    + rewrite RI. unfold DataScan.page_rows. rewrite list_lookup_fmap, EE, list_lookup_insert_eq by done.
      cbn [fmap option_fmap option_map]. rewrite version_row by done. unfold restamp. cbn. by rewrite bool_decide_eq_true_2.
    + assert (page_rows pid d' !! k = page_rows pid d !! k) as ->.
      { unfold DataScan.page_rows. by rewrite !list_lookup_fmap, EE, list_lookup_insert_ne. }
      destruct (page_rows pid d !! k) as [row|] eqn:Ek; [|done]. cbn. unfold restamp. rewrite bool_decide_eq_false_2; [done|].
      rewrite (page_row_at pid d k row SP Ek). intros [= E]. lia.
Qed.

Lemma fmap_concat {A B} (f : A -> B) (ls : list (list A)) : fmap (M:=list) f (concat ls) = concat (fmap (M:=list) (fmap (M:=list) f) ls).
Proof. induction ls as [|l ls IH]; [done|]. cbn [concat]. by rewrite fmap_app, IH. Qed.

Lemma chain_restamped P head tail ids r vh tb h :
  chain_at P head tail ids -> page_id r ∈ ids -> VersionHeader.wf vh -> VersionHeader.wf h ->
  DataPage.row_bytes (pool_pages P) r = Some (VersionHeader.to_bytes vh ++ tb) ->
  exists d', update_version_header_in_data_page P r h = Ok (modify P (page_id r) d')
    /\ chain_at (modify P (page_id r) d') head tail ids
    /\ (forall r', DataPage.row_bytes (<[page_id r := d']> (pool_pages P)) r' =
          if bool_decide (r' = r) then Some (VersionHeader.to_bytes h ++ tb) else DataPage.row_bytes (pool_pages P) r')
    /\ (forall d, pool_pages P !! page_id r = Some d -> open_tail d -> open_tail d')
    /\ chain_rows (<[page_id r := d']> (pool_pages P)) ids = restamp r h <$> chain_rows (pool_pages P) ids.
Proof.
  intros C Hr Wv Wh HB. pose proof C as [HP C1 C2 C3 C4 C5 HF].
  pose proof HB as HB'. unfold DataPage.row_bytes in HB'. destruct (pool_pages P !! page_id r) as [d|] eqn:Ed; [|done].
  assert (HC : data_chain (pool_pages P) ids).
  { destruct HP as [[-> HZ]|HC]; [|done]. apply list_elem_of_singleton in Hr. rewrite Hr, HZ in Ed. injection Ed as <-.
    cbn [mbind option_bind] in HB'. by rewrite zeroed_entries in HB'. }
  clear HB'. pose proof HC as [Hne HL]%chain_linked. pose proof Hr as [k Hk]%list_elem_of_lookup_1.
  assert (SP : scan_page (page_id r) d) by (destruct (HL k _ Hk) as (d0 & E0 & ? & _); rewrite Ed in E0; by injection E0 as <-).
  pose proof (VersionFacts.length_to_bytes vh Wv) as Lv. set (vb := VersionHeader.to_bytes vh) in *.
  assert (ZV : zlen vb = 22) by (unfold zlen; lia). pose proof (zlen_nonneg tb).
  assert (ET : slice (vb ++ tb) 22 (zlen (vb ++ tb)) = tb).
  { rewrite slice_app_r, zlen_app, ZV by lia. replace (22 + zlen tb - 22) with (zlen tb) by lia. by rewrite slice_whole by lia. }
  destruct (header_update_ok P r h d (vb ++ tb) Ed (DataScan.sc_wf _ _ SP) Wh HB) as (d' & i & E & W' & HH & Hi & EE & HR).
  { rewrite zlen_app. unfold VersionHeader.SIZE. lia. }
  rewrite ET in *. exists d'.
  destruct (page_restamped (page_id r) d d' i (slot_id r) vh tb h SP Wv Wh W' Hi EE) as [SP' RP].
  assert (mk_row_id (page_id r) (slot_id r) = r) as ER by by destruct r. rewrite ER in RP.
  split_and!; try done.
  - split; try done. right. apply chain_linked. split; [done|]. intros j pid Hj. destruct (HL j pid Hj) as (d0 & E0 & SP0 & N0).
    cbn [modify pool_pages]. destruct (decide (pid = page_id r)) as [->|Hp].
    + exists d'. rewrite lookup_insert_eq, HH. rewrite Ed in E0. by injection E0 as <-.
    + exists d0. by rewrite lookup_insert_ne.
  - intros d0 [= <-] [->|(_ & T & O)]; [by rewrite zeroed_entries in Hi|]. right. by rewrite HH.
  - unfold DataScan.chain_rows. rewrite fmap_concat, <- list_fmap_compose. f_equal. apply list_fmap_ext. intros j pid Hj.
    unfold compose, DataScan.image. destruct (decide (pid = page_id r)) as [->|Hp].
    + rewrite lookup_insert_eq, Ed. exact RP.
    + rewrite lookup_insert_ne by done. destruct (HL j pid Hj) as (d0 & E0 & SP0 & _). rewrite E0.
      change (page_rows pid d0 = restamp r h <$> page_rows pid d0). rewrite <- (list_fmap_id (page_rows pid d0)) at 1. apply list_fmap_ext. intros m row Hm. unfold restamp.
      rewrite bool_decide_eq_false_2; [done|]. rewrite (page_row_at pid d0 m row SP0 Hm). by intros <-.
Qed.

(** No two rows of a chain have one id. *)
Lemma chain_rows_nodup P head tail ids : chain_at P head tail ids -> NoDup (DataScan.row_rid <$> chain_rows (pool_pages P) ids).
Proof.
  intros [[[-> EZ]|HC] _ _ ND _ _ _].
  { rewrite (chain_rows_one _ _ _ EZ). unfold DataScan.page_rows. rewrite zeroed_entries. constructor. }
  revert HC ND. generalize (pool_pages P). intros pages. induction ids as [|pid rest IH]; [done|]. intros HC [Hn ND]%NoDup_cons.
  pose proof (DataScan.data_chain_head _ _ _ HC) as (Ed & SP & _ & Hr). rewrite DataScan.chain_rows_cons, fmap_app.
  assert (HR : NoDup (DataScan.row_rid <$> chain_rows pages rest)) by (destruct Hr as [->|(p & r & -> & _ & HC')]; [constructor|by apply IH]).
  apply NoDup_app. split_and!; [| |done].
  - apply NoDup_alt. intros i j x Hi Hj. apply list_lookup_fmap_Some in Hi as (a & Ea & Hi), Hj as (b & Eb & Hj).
    rewrite (page_row_at _ _ _ _ SP Hi) in Ea. rewrite (page_row_at _ _ _ _ SP Hj) in Eb. subst x. injection Eb. lia.
  - intros x (a & -> & Ha)%list_elem_of_fmap (b & Eb & Hb)%list_elem_of_fmap. apply list_elem_of_lookup_1 in Ha as [k Hk].
    rewrite (page_row_at _ _ _ _ SP Hk) in Eb. destruct Hr as [->|(p & r & -> & _ & HC')]; [by apply not_elem_of_nil in Hb|].
    destruct (DataScan.chain_row_slot _ _ _ HC' Hb) as (q & j & Hq & _ & Ej). rewrite Ej in Eb. injection Eb as -> _. done.
Qed.
