(* ===== verification/Text.v ===== *)
(** * Text

    What the executors use of Rust's strings and number formatting: the
    characters of a [String], ASCII case mapping, [trim_matches], [replace]
    and [split_whitespace]; [to_string] and [parse] of integers and of [f64];
    the rounding and conversion of floats.  A [char] is the bytes of its UTF-8
    encoding, so collecting characters back into a [String] is concatenation. *)

From Stdlib Require Import Strings.String ZArith Strings.Byte Lia SpecFloat List.
From stdpp Require Import base tactics list numbers gmap.
From S2P Require Import Prelude RowKey Values.
#[local] Open Scope string_scope.
#[local] Open Scope list_scope.
#[local] Open Scope Z_scope.

(** ** Characters *)

Definition char : Type := list byte.

Fixpoint chars (s : list byte) : list char :=
  match s with
  | [] => []
  | b :: r =>
      if byte_val b <? 128 then [b] :: chars r
      else
        match r with
        | c :: r =>
            if byte_val b <? 224 then [b; c] :: chars r
            else
              match r with
              | d :: r =>
                  if byte_val b <? 240 then [b; c; d] :: chars r
                  else
                    match r with
                    | e :: r => [b; c; d; e] :: chars r
                    | [] => [[b; c; d]]
                    end
              | [] => [[b; c]]
              end
        | [] => [[b]]
        end
  end.

(** An ASCII character by its code. *)
Definition ascii (n : Z) : char := [byte_of n].
Definition char_eqb (a b : char) : bool := bytes_eqb a b.

Definition ascii_upper (b : byte) : byte :=
  if byte_in 97 122 b then byte_of (byte_val b - 32) else b.
Definition ascii_lower (b : byte) : byte :=
  if byte_in 65 90 b then byte_of (byte_val b + 32) else b.
Definition to_ascii_uppercase : list byte -> list byte := map ascii_upper.
Definition to_ascii_lowercase : list byte -> list byte := map ascii_lower.

Fixpoint strip_char (c : byte) (s : list byte) : list byte :=
  match s with
  | b :: r => if Byte.eqb b c then strip_char c r else s
  | [] => []
  end.

(** [trim_matches(c)] for an ASCII [c]. *)
Definition trim_matches (c : byte) (s : list byte) : list byte :=
  reverse (strip_char c (reverse (strip_char c s))).

Fixpoint strip_prefix (p s : list byte) : option (list byte) :=
  match p, s with
  | [], _ => Some s
  | x :: p, y :: s => if Byte.eqb x y then strip_prefix p s else None
  | _ :: _, [] => None
  end.

(** [replace] of a non-empty pattern: the matches from the left, without
    overlap.  A match of valid UTF-8 in valid UTF-8 starts at a character. *)
Fixpoint replace_from (fuel : nat) (s from to : list byte) : list byte :=
  match fuel with
  | O => s
  | S fuel =>
      match s with
      | [] => []
      | b :: r =>
          match strip_prefix from s with
          | Some rest => to ++ replace_from fuel rest from to
          | None => b :: replace_from fuel r from to
          end
      end
  end.
Definition str_replace (s from to : list byte) : list byte :=
  replace_from (S (length s)) s from to.

(** The Unicode [White_Space] characters. *)
Definition is_whitespace (c : char) : bool :=
  match map byte_val c with
  | [b] => ((9 <=? b) && (b <=? 13)) || (b =? 32)
  | [194; b] => (b =? 133) || (b =? 160)
  | [225; 154; 128] => true
  | [226; 128; b] =>
      ((128 <=? b) && (b <=? 138)) || (b =? 168) || (b =? 169) || (b =? 175)
  | [226; 129; 159] => true
  | [227; 128; 128] => true
  | _ => false
  end.

Fixpoint words (cs : list char) (word : list byte) : list (list byte) :=
  let emit := match word with [] => [] | _ => [word] end in
  match cs with
  | [] => emit
  | c :: cs => if is_whitespace c then emit ++ words cs [] else words cs (word ++ c)
  end.
Definition split_whitespace (s : list byte) : list (list byte) := words (chars s) [].

(** ** Integers *)

Definition digit (d : Z) : byte := byte_of (48 + d).

Fixpoint dec_digits (fuel : nat) (n : Z) : list byte :=
  match fuel with
  | O => []
  | S fuel =>
      (if n <? 10 then [] else dec_digits fuel (n / 10)) ++ [digit (n mod 10)]
  end.
(** A number below [2^k] has at most [k] digits, and one when [k] is zero. *)
Definition dec (n : Z) : list byte := dec_digits (S (Z.to_nat (Z.log2 n))) n.

Definition minus : byte := byte_of 45.
Definition int_to_string (n : Z) : list byte :=
  if n <? 0 then minus :: dec (- n) else dec n.

(** [{:0w}] of a non-negative number. *)
Definition padded (w : nat) (n : Z) : list byte :=
  replicate (w - length (dec n)) (digit 0) ++ dec n.

Definition is_ascii_digit : byte -> bool := byte_in 48 57.
Definition digit_val (b : byte) : Z := byte_val b - 48.

Fixpoint digits_val (acc : Z) (s : list byte) : option Z :=
  match s with
  | [] => Some acc
  | b :: r => if is_ascii_digit b then digits_val (acc * 10 + digit_val b) r else None
  end.

(** [parse::<i64>]: an optional sign, one digit or more, in range. *)
Definition parse_i64 (s : list byte) : option Z :=
  let unsigned (s : list byte) := match s with [] => None | _ => digits_val 0 s end in
  let v :=
    match s with
    | b :: r =>
        if Byte.eqb b minus then Z.opp <$> unsigned r
        else if Byte.eqb b (byte_of 43) then unsigned r
        else unsigned s
    | [] => None
    end in
  match v with
  | Some n => if (-9223372036854775808 <=? n) && (n <? 9223372036854775808) then Some n else None
  | None => None
  end.

Definition bytes_of_string (s : string) : list byte := list_byte_of_string s.

Definition bool_to_string (b : bool) : list byte :=
  if b then bytes_of_string "true" else bytes_of_string "false".
Definition parse_bool (s : list byte) : option bool :=
  if bytes_eqb s (bytes_of_string "true") then Some true
  else if bytes_eqb s (bytes_of_string "false") then Some false
  else None.

(** ** Floats *)

Definition f64_sub (a b : Z) : Z := f64_encode (SFsub 53 1024 (f64_decode a) (f64_decode b)).
Definition f64_mul (a b : Z) : Z := f64_encode (SFmul 53 1024 (f64_decode a) (f64_decode b)).
Definition f64_abs (a : Z) : Z := a mod 9223372036854775808.

(** [f as i64]: towards zero, saturating, zero for a NaN. *)
Definition f64_as_i64 (a : Z) : Z :=
  match f64_decode a with
  | S754_zero _ | S754_nan => 0
  | S754_infinity s => if s then -9223372036854775808 else 9223372036854775807
  | S754_finite s m e =>
      let t := if 0 <=? e then Z.shiftl (Zpos m) e else Z.shiftr (Zpos m) (- e) in
      Z.max (-9223372036854775808) (Z.min (if s then - t else t) 9223372036854775807)
  end.

(** [floor], [ceil] and [round] of a finite float through its magnitude: [up]
    says whether a non-zero fraction moves the magnitude to the next integer,
    given the sign and the fraction compared to one half.  A zero keeps the
    sign. *)
Definition f64_to_integral (up : bool -> comparison -> bool) (a : Z) : Z :=
  match f64_decode a with
  | S754_finite s m e =>
      if 0 <=? e then a
      else
        let t := Z.shiftr (Zpos m) (- e) in
        let frac := Zpos m - Z.shiftl t (- e) in
        let half := Z.compare (2 * frac) (Z.shiftl 1 (- e)) in
        let t := if negb (frac =? 0) && up s half then t + 1 else t in
        f64_encode (binary_normalize 53 1024 (if s then - t else t) 0 s)
  | _ => a
  end.
Definition f64_floor : Z -> Z := f64_to_integral (fun s _ => s).
Definition f64_ceil : Z -> Z := f64_to_integral (fun s _ => negb s).
Definition f64_round : Z -> Z :=
  f64_to_integral (fun _ half => match half with Lt => false | _ => true end).

(** The float nearest to [d * 10^e], ties to even.  Beyond [1e310] and below
    [1e-330] the answer is known; a division keeps a sticky bit below at least
    65 bits of quotient. *)
Definition f64_of_decimal (sign : bool) (d e : Z) : Z :=
  let signed (n : Z) := if sign then - n else n in
  if d =? 0 then f64_encode (S754_zero sign)
  else
    let magnitude := Z.log2 d * 30103 / 100000 + e in
    if 310 <? magnitude then f64_encode (S754_infinity sign)
    else if magnitude <? -330 then f64_encode (S754_zero sign)
    else if 0 <=? e then f64_encode (binary_normalize 53 1024 (signed (d * 10 ^ e)) 0 sign)
    else
      let den := 10 ^ (- e) in
      let k := Z.max 0 (66 + Z.log2 den - Z.log2 d) in
      let q := Z.shiftl d k / den in
      let sticky := if Z.shiftl d k mod den =? 0 then 0 else 1 in
      f64_encode (binary_normalize 53 1024 (signed (2 * q + sticky)) (- (k + 1)) sign).

Fixpoint span_digits (s : list byte) : list byte * list byte :=
  match s with
  | b :: r => if is_ascii_digit b then let (ds, r) := span_digits r in (b :: ds, r) else ([], s)
  | [] => ([], [])
  end.

(** The exponent part: nothing, or [e], an optional sign and digits. *)
Definition parse_exponent (s : list byte) : option Z :=
  match s with
  | [] => Some 0
  | b :: r =>
      if Byte.eqb (ascii_lower b) (byte_of 101) then
        let (neg, r) :=
          match r with
          | b :: r' =>
              if Byte.eqb b minus then (true, r')
              else if Byte.eqb b (byte_of 43) then (false, r') else (false, r)
          | [] => (false, r)
          end in
        match r with
        | [] => None
        | _ => (fun n => if neg : bool then - n else n) <$> digits_val 0 r
        end
      else None
  end.

(** [parse::<f64>]. *)
Definition parse_f64 (s : list byte) : option Z :=
  let (sign, r) :=
    match s with
    | b :: r =>
        if Byte.eqb b minus then (true, r)
        else if Byte.eqb b (byte_of 43) then (false, r) else (false, s)
    | [] => (false, s)
    end in
  let low := to_ascii_lowercase r in
  if bytes_eqb low (bytes_of_string "inf") || bytes_eqb low (bytes_of_string "infinity") then
    Some (f64_encode (S754_infinity sign))
  else if bytes_eqb low (bytes_of_string "nan") then
    Some (f64_encode S754_nan + (if sign : bool then 9223372036854775808 else 0))
  else
    let (ints, r) := span_digits r in
    let (fracs, r) :=
      match r with
      | b :: r' => if Byte.eqb b (byte_of 46) then span_digits r' else ([], r)
      | [] => ([], r)
      end in
    match ints ++ fracs with
    | [] => None
    | ds =>
        match parse_exponent r, digits_val 0 ds with
        | Some e, Some d => Some (f64_of_decimal sign d (e - zlen fracs))
        | _, _ => None
        end
    end.

(** The shortest decimal that reads back as the float, the nearest of that
    length, and upwards when two are as near: [n] digits are tried from 1 to
    17, which always suffice.  A carry out of the last of them leaves a zero,
    which is dropped. *)
Fixpoint shortest_digits (tries : nat) (n : Z) (bits num den mag : Z) : Z * Z :=
  match tries with
  | O => (0, 0)
  | S tries =>
      let k := mag - n + 1 in
      let (a, b) := if 0 <=? k then (num, den * 10 ^ k) else (num * 10 ^ (- k), den) in
      let lo := a / b in
      let back d := f64_of_decimal false d k =? bits in
      let near_hi := b <=? 2 * (a mod b) in
      let hi := if (lo + 1) mod 10 =? 0 then ((lo + 1) / 10, k + 1) else (lo + 1, k) in
      if near_hi && back (lo + 1) then hi
      else if back lo then (lo, k)
      else if back (lo + 1) then hi
      else shortest_digits tries (n + 1) bits num den mag
  end.

Definition f64_magnitude (num den : Z) : Z :=
  let ge_pow k := if 0 <=? k then den * 10 ^ k <=? num else den <=? num * 10 ^ (- k) in
  let est := (Z.log2 num - Z.log2 den) * 30103 / 100000 in
  if ge_pow (est + 1) then est + 1 else if ge_pow est then est
  else if ge_pow (est - 1) then est - 1 else est - 2.

(** [to_string] of an [f64]: positional, no exponent. *)
Definition f64_to_string (a : Z) : list byte :=
  let sg (s : bool) := if s then [minus] else [] in
  match f64_decode a with
  | S754_nan => bytes_of_string "NaN"
  | S754_infinity s => sg s ++ bytes_of_string "inf"
  | S754_zero s => sg s ++ bytes_of_string "0"
  | S754_finite s m e =>
      let num := if 0 <=? e then Z.shiftl (Zpos m) e else Zpos m in
      let den := if 0 <=? e then 1 else Z.shiftl 1 (- e) in
      let (d, k) := shortest_digits 17 1 (f64_abs a) num den (f64_magnitude num den) in
      let ds := dec d in
      sg s ++
      if 0 <=? k then ds ++ replicate (Z.to_nat k) (digit 0)
      else if zlen ds <=? - k then
        bytes_of_string "0." ++ replicate (Z.to_nat (- k) - length ds) (digit 0) ++ ds
      else
        let cut := (length ds - Z.to_nat (- k))%nat in
        take cut ds ++ [byte_of 46] ++ drop cut ds
  end.

(** ** Printing and reading integers *)

Lemma digit_val_digit d : 0 <= d < 10 -> is_ascii_digit (digit d) = true /\ digit_val (digit d) = d.
Proof.
  intros H. unfold is_ascii_digit, digit_val, byte_in, digit.
  rewrite byte_val_of, Z.mod_small by lia. split; [|lia].
  rewrite andb_true_iff, !Z.leb_le. lia.
Qed.

Lemma dec_digits_enough f g n :
  0 <= n -> n < 2 ^ Z.of_nat (S f) -> n < 2 ^ Z.of_nat (S g) ->
  dec_digits (S f) n = dec_digits (S g) n.
Proof.
  assert (P : forall k, 2 ^ Z.of_nat (S (S k)) = 2 * 2 ^ Z.of_nat (S k)).
  { intros k. rewrite (Nat2Z.inj_succ (S k)). apply Z.pow_succ_r. lia. }
  revert g n. induction f as [|f IH]; intros g n H0 Hf Hg.
  { change (n < 2) in Hf. cbn [dec_digits]. rewrite !(proj2 (Z.ltb_lt n 10)) by lia. done. }
  cbn [dec_digits]. f_equal. destruct (Z.ltb_spec n 10); [done|].
  destruct g as [|g]; [change (n < 2) in Hg; lia|].
  rewrite P in Hf, Hg. apply IH; Z.div_mod_to_equations; lia.
Qed.

Lemma dec_small n : 0 <= n < 10 -> dec n = [digit n].
Proof.
  intros H. unfold dec. cbn [dec_digits].
  rewrite (proj2 (Z.ltb_lt _ _)), Z.mod_small by lia. done.
Qed.

Lemma dec_step n : 10 <= n -> dec n = dec (n / 10) ++ [digit (n mod 10)].
Proof.
  intros H. unfold dec at 1. cbn [dec_digits].
  rewrite (proj2 (Z.ltb_ge _ _)) by lia. f_equal. unfold dec.
  assert (0 < n / 10) by (Z.div_mod_to_equations; lia).
  pose proof (Z.log2_spec n ltac:(lia)) as [_ Hn].
  pose proof (Z.log2_spec (n / 10) ltac:(lia)) as [_ Hq].
  pose proof (Z.log2_nonneg (n / 10)).
  assert (3 <= Z.log2 n) by (change 3 with (Z.log2 10); by apply Z.log2_le_mono).
  replace (Z.to_nat (Z.log2 n)) with (S (Z.to_nat (Z.log2 n - 1))) by lia.
  apply dec_digits_enough; [lia| |].
  - rewrite Nat2Z.inj_succ, Z2Nat.id by lia. replace (Z.succ (Z.log2 n - 1)) with (Z.log2 n) by lia.
    rewrite Z.pow_succ_r in Hn by lia. Z.div_mod_to_equations; lia.
  - by rewrite Nat2Z.inj_succ, Z2Nat.id by lia.
Qed.

(** Induction on the digits of a number. *)
Lemma dec_ind (P : Z -> Prop) :
  (forall n, 0 <= n < 10 -> P n) -> (forall n, 10 <= n -> P (n / 10) -> P n) ->
  forall n, 0 <= n -> P n.
Proof.
  intros H0 H1. refine (Zlt_0_ind P _). intros n IH Hn.
  destruct (Z.lt_ge_cases n 10); [by apply H0|].
  apply H1; [done|]. apply IH. Z.div_mod_to_equations; lia.
Qed.

Lemma dec_nonempty n : 0 <= n -> exists b r, dec n = b :: r /\ is_ascii_digit b = true.
Proof.
  revert n. refine (dec_ind _ _ _).
  - intros n H. rewrite dec_small by done. exists (digit n), []. split; [done|].
    by apply digit_val_digit.
  - intros n H (b & r & E & D). rewrite dec_step, E by done. by exists b, (r ++ [digit (n mod 10)]).
Qed.

Lemma digits_val_app acc s d :
  0 <= d < 10 -> digits_val acc (s ++ [digit d]) = (fun v => v * 10 + d) <$> digits_val acc s.
Proof.
  intros H. destruct (digit_val_digit d H) as [D V]. revert acc.
  induction s as [|b s IH]; intros acc; cbn [app digits_val].
  - by rewrite D, V.
  - by destruct (is_ascii_digit b); [apply IH|].
Qed.

Lemma digits_val_dec n : 0 <= n -> digits_val 0 (dec n) = Some n.
Proof.
  revert n. refine (dec_ind _ _ _).
  - intros n H. destruct (digit_val_digit n H) as [D V].
    rewrite dec_small by done. cbn [digits_val]. by rewrite D, V.
  - intros n H IH. rewrite dec_step, digits_val_app, IH by (Z.div_mod_to_equations; lia).
    cbn. f_equal. Z.div_mod_to_equations; lia.
Qed.

Lemma digit_not_sign b :
  is_ascii_digit b = true -> Byte.eqb b minus = false /\ Byte.eqb b (byte_of 43) = false.
Proof. destruct b; vm_compute; done. Qed.

(** What [to_string] prints, [parse] reads back. *)
Lemma parse_int_to_string n : in_i64 n -> parse_i64 (int_to_string n) = Some n.
Proof.
  intros H. unfold int_to_string.
  assert (R : forall m, in_i64 m ->
    (if (-9223372036854775808 <=? m) && (m <? 9223372036854775808) then Some m else None) = Some m).
  { intros m Hm. unfold in_i64 in Hm.
    by rewrite (proj2 (Z.leb_le _ _)), (proj2 (Z.ltb_lt _ _)) by lia. }
  destruct (Z.ltb_spec n 0) as [N|N].
  - destruct (dec_nonempty (- n)) as (b & r & E & _); [lia|].
    unfold parse_i64. change (Byte.eqb minus minus) with true. cbv iota beta zeta.
    rewrite E, <- E, digits_val_dec by lia. cbn [fmap option_fmap option_map].
    rewrite Z.opp_involutive. by apply R.
  - destruct (dec_nonempty n) as (b & r & E & D); [lia|].
    destruct (digit_not_sign b D) as [S1 S2].
    unfold parse_i64. rewrite E. cbv zeta. rewrite S1, S2, <- E, digits_val_dec by lia.
    by apply R.
Qed.

(** *** Fixed width *)

(** The last [w] digits. *)
Fixpoint fixed (w : nat) (n : Z) : list byte :=
  match w with
  | O => []
  | S w => fixed w (n / 10) ++ [digit (n mod 10)]
  end.

Lemma fixed_zeros w : fixed w 0 = replicate w (digit 0).
Proof.
  induction w as [|w IH]; [done|]. cbn [fixed]. change (0 / 10) with 0. rewrite IH.
  change (0 mod 10) with 0. by rewrite <- replicate_S_end.
Qed.

Lemma length_fixed w n : length (fixed w n) = w.
Proof. revert n. induction w; intros n; [done|]. cbn. rewrite length_app, IHw. cbn. lia. Qed.

Lemma padded_fixed w n : 0 <= n < 10 ^ Z.of_nat w -> (0 < w)%nat -> padded w n = fixed w n.
Proof.
  revert n. induction w as [|w IH]; [lia|]. intros n H _.
  rewrite Nat2Z.inj_succ, Z.pow_succ_r in H by lia. unfold padded.
  destruct (Z.lt_ge_cases n 10) as [L|L].
  - rewrite dec_small by lia. cbn [length]. replace (S w - 1)%nat with w by lia.
    cbn [fixed]. rewrite Z.div_small, Z.mod_small, fixed_zeros by lia. done.
  - destruct w as [|w]; [cbn in H; lia|].
    change (fixed (S (S w)) n) with (fixed (S w) (n / 10) ++ [digit (n mod 10)]).
    rewrite dec_step, length_app by done. cbn [length].
    replace (S (S w) - (length (dec (n / 10)) + 1))%nat with (S w - length (dec (n / 10)))%nat by lia.
    rewrite app_assoc. f_equal. rewrite <- (IH (n / 10)); [done| |lia].
    Z.div_mod_to_equations; lia.
Qed.

Lemma digits_val_fixed w n : 0 <= n < 10 ^ Z.of_nat w -> digits_val 0 (fixed w n) = Some n.
Proof.
  revert n. induction w as [|w IH]; intros n H; [cbn in *; f_equal; lia|].
  rewrite Nat2Z.inj_succ, Z.pow_succ_r in H by lia.
  cbn [fixed]. rewrite digits_val_app, IH by (Z.div_mod_to_equations; lia).
  cbn. f_equal. Z.div_mod_to_equations; lia.
Qed.

Lemma digits_val_snoc acc s b n :
  digits_val acc (s ++ [b]) = Some n ->
  exists m d, digits_val acc s = Some m /\ 0 <= d < 10 /\ b = digit d /\ n = m * 10 + d.
Proof.
  revert acc. induction s as [|c s IH]; intros acc H; cbn in H |- *.
  - destruct (is_ascii_digit b) eqn:E; [|done]. injection H as <-.
    unfold is_ascii_digit, byte_in in E. rewrite andb_true_iff, !Z.leb_le in E.
    exists acc, (digit_val b). unfold digit_val, digit. split_and!; [done|lia|lia| |done].
    rewrite Z.add_sub_assoc, Z.add_comm, Z.add_simpl_r. by rewrite byte_of_val.
  - destruct (is_ascii_digit c); [|done]. by apply IH.
Qed.

(** Digits are read back only from themselves. *)
Lemma fixed_digits_val s n : digits_val 0 s = Some n -> s = fixed (length s) n /\ 0 <= n < 10 ^ zlen s.
Proof.
  revert n. induction s as [|b s IH] using rev_ind; intros n H.
  { cbn in H. injection H as <-. done. }
  apply digits_val_snoc in H as (m & d & Hs & Hd & -> & ->). destruct (IH _ Hs) as [E B].
  rewrite zlen_app, Z.pow_add_r by (apply zlen_nonneg || done).
  change (10 ^ zlen [digit d]) with 10. split; [|lia].
  rewrite length_app, Nat.add_comm. cbn [length Nat.add fixed].
  replace ((m * 10 + d) / 10) with m by (Z.div_mod_to_equations; lia).
  replace ((m * 10 + d) mod 10) with d by (Z.div_mod_to_equations; lia). by f_equal.
Qed.
