(* ===== verification/DateTime.v ===== *)
(** * Dates and timestamps

    [src/executor/datetime.rs]: the civil calendar, the strict text forms, the
    truncations, [datediff] and interval arithmetic.  A date counts the days
    since 0001-01-01 in an [i32], a timestamp the microseconds since 1970 in an
    [i64].  [/] of Rust truncates ([Z.quot]); [div_euclid] by a positive number
    is the floor ([Z.div]).  [i64_ow] marks the operations that can leave the
    [i64] range: they wrap, as in the release profile. *)

From Stdlib Require Import Strings.String ZArith Strings.Byte Lia List.
From stdpp Require Import base tactics list numbers gmap.
From S2P Require Import Prelude RowKey Values Text.
#[local] Open Scope string_scope.
#[local] Open Scope list_scope.
#[local] Open Scope Z_scope.

(** [z as i64] of a wrapping operation, [z as i32]. *)
Definition i64_ow (z : Z) : Z := to_i64 (wrap64 z).
Definition as_i32 (z : Z) : Z := to_i32 (wrap32 z).

Definition MICROS_PER_SECOND : Z := 1000000.
Definition MICROS_PER_MINUTE : Z := 60 * MICROS_PER_SECOND.
Definition MICROS_PER_HOUR : Z := 60 * MICROS_PER_MINUTE.
Definition MICROS_PER_DAY : Z := 24 * MICROS_PER_HOUR.

Inductive TruncUnit := Year | Month | Day | Hour | Minute | Second.
#[global] Instance trunc_unit_eq_dec : EqDecision TruncUnit.
Proof. solve_decision. Defined.

Definition parse_trunc_unit (s : list byte) : option TruncUnit :=
  let named (name : string) := bytes_eqb (to_ascii_lowercase s) (bytes_of_string name) in
  if named "year" then Some Year
  else if named "month" then Some Month
  else if named "day" then Some Day
  else if named "hour" then Some Hour
  else if named "minute" then Some Minute
  else if named "second" then Some Second
  else None.

(** ** The calendar *)

Definition days_from_civil (y m d : Z) : Z :=
  let y := if m <=? 2 then y - 1 else y in
  let era := Z.quot (if 0 <=? y then y else y - 399) 400 in
  let yoe := y - era * 400 in
  let mp := if 2 <? m then m - 3 else m + 9 in
  let doy := Z.quot (153 * mp + 2) 5 + d - 1 in
  let doe := yoe * 365 + Z.quot yoe 4 - Z.quot yoe 100 + doy in
  era * 146097 + doe - 719468.

Definition civil_from_days (z : Z) : Z * Z * Z :=
  let z := z + 719468 in
  let era := Z.quot (if 0 <=? z then z else z - 146096) 146097 in
  let doe := z - era * 146097 in
  let yoe := Z.quot (doe - Z.quot doe 1460 + Z.quot doe 36524 - Z.quot doe 146096) 365 in
  let y := yoe + era * 400 in
  let doy := doe - (365 * yoe + Z.quot yoe 4 - Z.quot yoe 100) in
  let mp := Z.quot (5 * doy + 2) 153 in
  let d := doy - Z.quot (153 * mp + 2) 5 + 1 in
  let m := if mp <? 10 then mp + 3 else mp - 9 in
  (if m <=? 2 then y + 1 else y, m, d).

Definition DAYS_0001_TO_1970 : Z := - days_from_civil 1 1 1.
Definition MAX_DATE_SERIAL : Z := days_from_civil 9999 12 31 + DAYS_0001_TO_1970.

Definition is_leap_year (y : Z) : bool :=
  ((Z.rem y 4 =? 0) && negb (Z.rem y 100 =? 0)) || (Z.rem y 400 =? 0).

Definition days_in_month (y m : Z) : Z :=
  match m with
  | 1 | 3 | 5 | 7 | 8 | 10 | 12 => 31
  | 4 | 6 | 9 | 11 => 30
  | 2 => if is_leap_year y then 29 else 28
  | _ => 0
  end.

(** ** Text forms *)

Definition digits4 (b : list byte) : option Z := digits_val 0 b.
Definition digits2 (b : list byte) : option Z :=
  match b with
  | [x; y] =>
      if is_ascii_digit x && is_ascii_digit y then Some (digit_val x * 10 + digit_val y) else None
  | _ => None
  end.

(** [b[i] == c] on a buffer known to be long enough. *)
Definition byte_is (b : list byte) (i : Z) (c : Z) : bool :=
  match b !! Z.to_nat i with Some x => byte_val x =? c | None => false end.

Definition date_serial (y m d : Z) : Z := days_from_civil y m d + DAYS_0001_TO_1970.

Definition parse_date (b : list byte) : option Z :=
  if negb (zlen b =? 10) || negb (byte_is b 4 45) || negb (byte_is b 7 45) then None
  else
    match digits4 (slice b 0 4), digits2 (slice b 5 7), digits2 (slice b 8 10) with
    | Some year, Some month, Some day =>
        if (year =? 0) || (month =? 0) || (12 <? month) then None
        else if (day =? 0) || (days_in_month year month <? day) then None
        else Some (as_i32 (date_serial year month day))
    | _, _, _ => None
    end.

Definition date_fields (days : Z) : Z * Z * Z :=
  let '(y, m, d) := civil_from_days (days - DAYS_0001_TO_1970) in (as_i32 y, m, d).

Definition format_date (days : Z) : list byte :=
  let '(y, m, d) := date_fields days in
  let dash := [byte_of 45] in
  (if 0 <=? y then padded 4 y else dash ++ padded 4 (- y))
  ++ dash ++ padded 2 m ++ dash ++ padded 2 d.

Definition date_serial_to_unix_micros (date hour minute second micros : Z) : Z :=
  i64_ow ((date - DAYS_0001_TO_1970) * MICROS_PER_DAY + hour * MICROS_PER_HOUR
          + minute * MICROS_PER_MINUTE + second * MICROS_PER_SECOND + micros).

Definition scale_fraction (frac : list byte) : option Z :=
  match digits_val 0 frac with
  | Some v => Some (v * 10 ^ (6 - zlen frac))
  | None => None
  end.

(** [s.get(0..10)] also asks for a character boundary, which the ten bytes of
    a date always end at. *)
Definition parse_timestamp (b : list byte) : option Z :=
  if zlen b <? 10 then None
  else
    match parse_date (slice b 0 10) with
    | None => None
    | Some date =>
        if zlen b =? 10 then Some (date_serial_to_unix_micros date 0 0 0 0)
        else if (zlen b <? 19) || (26 <? zlen b) then None
        else if negb (byte_is b 10 32) && negb (byte_is b 10 84) then None
        else if negb (byte_is b 13 58) || negb (byte_is b 16 58) then None
        else
          match digits2 (slice b 11 13), digits2 (slice b 14 16), digits2 (slice b 17 19) with
          | Some hour, Some minute, Some second =>
              if (23 <? hour) || (59 <? minute) || (59 <? second) then None
              else
                let finish micros :=
                  Some (date_serial_to_unix_micros date hour minute second micros) in
                if 19 <? zlen b then
                  if negb (byte_is b 19 46) then None
                  else
                    let frac := slice b 20 (zlen b) in
                    if (zlen frac =? 0) || (6 <? zlen frac) then None
                    else match scale_fraction frac with Some us => finish us | None => None end
                else finish 0
          | _, _, _ => None
          end
    end.

Definition ts_fields (micros : Z) : Z * Z * Z * Z * Z * Z * Z :=
  let unix_days := micros / MICROS_PER_DAY in
  let rem := micros mod MICROS_PER_DAY in
  let '(y, m, d) := civil_from_days unix_days in
  (as_i32 y, m, d, rem / MICROS_PER_HOUR, rem mod MICROS_PER_HOUR / MICROS_PER_MINUTE,
   rem mod MICROS_PER_MINUTE / MICROS_PER_SECOND, rem mod MICROS_PER_SECOND).

Definition format_timestamp (micros : Z) : list byte :=
  let '(y, mo, d, h, mi, s, us) := ts_fields micros in
  let sep (c : Z) := [byte_of c] in
  let base :=
    (if y <? 0 then sep 45 else []) ++ padded 4 (Z.abs y) ++ sep 45 ++ padded 2 mo ++ sep 45
    ++ padded 2 d ++ sep 32 ++ padded 2 h ++ sep 58 ++ padded 2 mi ++ sep 58 ++ padded 2 s in
  if us =? 0 then base else base ++ sep 46 ++ padded 6 us.

(** ** Truncation and conversion *)

Definition trunc_ts (micros : Z) (unit : TruncUnit) : Z :=
  match unit with
  | Second => i64_ow (micros / MICROS_PER_SECOND * MICROS_PER_SECOND)
  | Minute => i64_ow (micros / MICROS_PER_MINUTE * MICROS_PER_MINUTE)
  | Hour => i64_ow (micros / MICROS_PER_HOUR * MICROS_PER_HOUR)
  | Day => i64_ow (micros / MICROS_PER_DAY * MICROS_PER_DAY)
  | Month | Year =>
      let '(y, m, _, _, _, _, _) := ts_fields micros in
      let m := if bool_decide (unit = Year) then 1 else m in
      date_serial_to_unix_micros (as_i32 (date_serial y m 1)) 0 0 0 0
  end.

Definition ts_to_date_serial (micros : Z) : Z :=
  as_i32 (trunc_ts micros Day / MICROS_PER_DAY + DAYS_0001_TO_1970).

Definition date_serial_to_ts (date : Z) : Z := date_serial_to_unix_micros date 0 0 0 0.

Definition trunc_date (days : Z) (unit : TruncUnit) : Z :=
  match unit with
  | Day => days
  | Month | Year =>
      let '(y, m, _) := date_fields days in
      let m := if bool_decide (unit = Year) then 1 else m in
      as_i32 (date_serial y m 1)
  | _ => days
  end.

(** The write boundary of the date columns; the error carries the target. *)
Inductive DateTimeError := InvalidDateTime (expected : ColumnType).

Definition coerce_datetime_write (value : Value) (col_type : ColumnType)
    : exec DateTimeError Value :=
  match col_type, value with
  | CDate, VNull | CTimestamp, VNull => Ok VNull
  | CDate, VDate _ | CTimestamp, VTimestamp _ => Ok value
  | CDate, VString s =>
      match parse_date s with Some d => Ok (VDate d) | None => Err (InvalidDateTime CDate) end
  | CTimestamp, VString s =>
      match parse_timestamp s with
      | Some t => Ok (VTimestamp t)
      | None => Err (InvalidDateTime CTimestamp)
      end
  | CDate, _ => Err (InvalidDateTime CDate)
  | CTimestamp, _ => Err (InvalidDateTime CTimestamp)
  | _, _ => Ok value
  end.

(** ** Differences *)

(** Calendar fields, the time of day as one tuple, and the instant. *)
Definition expand (v : Value) : option (Z * Z * list Z * Z) :=
  match v with
  | VDate d =>
      let '(y, m, dd) := date_fields d in Some (y, m, [dd; 0; 0; 0; 0], date_serial_to_ts d)
  | VTimestamp t =>
      let '(y, m, d, h, mi, s, us) := ts_fields t in Some (y, m, [d; h; mi; s; us], t)
  | _ => None
  end.

(** The order of tuples. *)
Fixpoint tuple_lt (a b : list Z) : bool :=
  match a, b with
  | x :: a, y :: b => (x <? y) || ((x =? y) && tuple_lt a b)
  | _, _ => false
  end.

Definition datediff (unit : TruncUnit) (a b : Value) : exec ValueError Z :=
  match a, b with
  | VDate _, VDate _ | VTimestamp _, VTimestamp _ =>
      match expand a, expand b with
      | Some (ay, am, a_tail, a_micros), Some (by_, bm, b_tail, b_micros) =>
          let diff := i64_ow (b_micros - a_micros) in
          match unit with
          | Day => Ok (Z.quot diff MICROS_PER_DAY)
          | Hour => Ok (Z.quot diff MICROS_PER_HOUR)
          | Minute => Ok (Z.quot diff MICROS_PER_MINUTE)
          | Second => Ok (Z.quot diff MICROS_PER_SECOND)
          | Month | Year =>
              let months := (by_ - ay) * 12 + (bm - am) in
              let months :=
                if (0 <? months) && tuple_lt b_tail a_tail then months - 1
                else if (months <? 0) && tuple_lt a_tail b_tail then months + 1
                else months in
              Ok (if bool_decide (unit = Year) then Z.quot months 12 else months)
          end
      | _, _ => Err TypeMismatch
      end
  | _, _ => Err TypeMismatch
  end.

(** ** Intervals *)

Record IntervalParts := mk_interval { months : Z; micros : Z }.

Definition checked_i32 (z : Z) : option Z :=
  if (-2147483648 <=? z) && (z <? 2147483648) then Some z else None.
Definition checked_i64 (z : Z) : option Z :=
  if (-9223372036854775808 <=? z) && (z <? 9223372036854775808) then Some z else None.

Definition interval_parts_from_unit (unit : list byte) (n : Z) : option IntervalParts :=
  let named (one many : string) :=
    bytes_eqb unit (bytes_of_string one) || bytes_eqb unit (bytes_of_string many) in
  let of_months m := (fun m => mk_interval m 0) <$> checked_i32 m in
  let of_micros per := (fun m => mk_interval 0 m) <$> checked_i64 (n * per) in
  if named "year" "years" then
    match checked_i64 (n * 12) with Some m => of_months m | None => None end
  else if named "month" "months" then of_months n
  else if named "day" "days" then of_micros MICROS_PER_DAY
  else if named "hour" "hours" then of_micros MICROS_PER_HOUR
  else if named "minute" "minutes" then of_micros MICROS_PER_MINUTE
  else if named "second" "seconds" then of_micros MICROS_PER_SECOND
  else None.

Inductive IntervalError := IntervalForm | IntervalCount | IntervalUnit | IntervalRange.

Definition parse_interval_string (s : list byte) : exec IntervalError IntervalParts :=
  match split_whitespace s with
  | [count; unit] =>
      match parse_i64 count with
      | None => Err IntervalCount
      | Some n =>
          match interval_parts_from_unit (to_ascii_lowercase unit) n with
          | Some p => Ok p
          | None => Err IntervalUnit
          end
      end
  | _ => Err IntervalForm
  end.

Definition add_months_ymd (y m d months : Z) : Z * Z * Z :=
  let total := y * 12 + (m - 1) + months in
  let ny := total / 12 in
  let nm := total mod 12 + 1 in
  (as_i32 ny, nm, Z.min d (days_in_month ny nm)).

Definition add_interval_to_date (days months micros : Z) : exec IntervalError Z :=
  let '(y, m, d) := date_fields days in
  let '(ny, nm, nd) := add_months_ymd y m d months in
  let ts := i64_ow (date_serial ny nm nd * MICROS_PER_DAY + micros) in
  let serial := ts / MICROS_PER_DAY in
  if (0 <=? serial) && (serial <=? MAX_DATE_SERIAL) then Ok serial else Err IntervalRange.

Definition add_interval_to_ts (micros months delta : Z) : exec IntervalError Z :=
  let '(y, m, d, h, mi, s, us) := ts_fields micros in
  let '(ny, nm, nd) := add_months_ymd y m d months in
  let result :=
    i64_ow (days_from_civil ny nm nd * MICROS_PER_DAY + h * MICROS_PER_HOUR
            + mi * MICROS_PER_MINUTE + s * MICROS_PER_SECOND + us + delta) in
  let '(ry, _, _) := civil_from_days (result / MICROS_PER_DAY) in
  if (1 <=? ry) && (ry <=? 9999) then Ok result else Err IntervalRange.

(** ** The proleptic Gregorian calendar *)

Definition civil_valid (y m d : Z) : Prop := 1 <= m <= 12 /\ 1 <= d <= days_in_month y m.

Definition next_day (c : Z * Z * Z) : Z * Z * Z :=
  let '(y, m, d) := c in
  if d <? days_in_month y m then (y, m, d + 1)
  else if m <? 12 then (y, m + 1, 1)
  else (y + 1, 1, 1).

(** Years that begin in March: the days before one, and a date in it. *)
Definition march_start (y : Z) : Z := 365 * y + y / 4 - y / 100 + y / 400.
Definition march_len (y : Z) : Z := if is_leap_year (y + 1) then 366 else 365.
Definition of_march (y doy : Z) : Z * Z * Z :=
  let mp := (5 * doy + 2) / 153 in
  let m := if mp <? 10 then mp + 3 else mp - 9 in
  (if m <=? 2 then y + 1 else y, m, doy - (153 * mp + 2) / 5 + 1).

Lemma rem_zero y c : 0 < c -> (Z.rem y c =? 0) = (y mod c =? 0).
Proof.
  intros H. apply eq_true_iff_eq. rewrite !Z.eqb_eq, Z.rem_divide, Z.mod_divide by lia. done.
Qed.

Lemma march_len_spec y : march_start (y + 1) = march_start y + march_len y.
Proof.
  unfold march_start, march_len, is_leap_year. rewrite !rem_zero by lia.
  destruct (Z.eqb_spec ((y + 1) mod 4) 0), (Z.eqb_spec ((y + 1) mod 100) 0),
    (Z.eqb_spec ((y + 1) mod 400) 0); cbn [andb orb negb]; Z.div_mod_to_equations; lia.
Qed.

Lemma march_start_mono y y' : y <= y' -> march_start y <= march_start y'.
Proof. unfold march_start. intros. Z.div_mod_to_equations; lia. Qed.

Lemma march_len_bound y : 365 <= march_len y <= 366.
Proof. unfold march_len. destruct (is_leap_year _); lia. Qed.

Lemma march_unique y doy y' doy' :
  0 <= doy < march_len y -> 0 <= doy' < march_len y' ->
  march_start y + doy = march_start y' + doy' -> y = y' /\ doy = doy'.
Proof.
  intros H H' E. pose proof (march_len_spec y). pose proof (march_len_spec y').
  destruct (Z.lt_trichotomy y y') as [L|[->|L]]; [|lia|].
  - pose proof (march_start_mono (y + 1) y'). lia.
  - pose proof (march_start_mono (y' + 1) y). lia.
Qed.

(** The guarded quotients are floors. *)
Lemma quot_floor z c : 0 < c -> Z.quot (if 0 <=? z then z else z - (c - 1)) c = z / c.
Proof.
  intros H. destruct (Z.leb_spec 0 z); [by apply Z.quot_div_nonneg|].
  replace (z - (c - 1)) with (- (c - 1 - z)) by lia.
  rewrite Z.quot_opp_l, Z.quot_div_nonneg by lia.
  apply (Z.div_unique _ _ _ (c - 1 - (c - 1 - z) mod c)); [left|]; Z.div_mod_to_equations; nia.
Qed.

(** The year of a day of an era. *)
Lemma year_of_era doe :
  0 <= doe < 146097 ->
  let yoe := (doe - doe / 1460 + doe / 36524 - doe / 146096) / 365 in
  0 <= yoe < 400 /\ 0 <= doe - (365 * yoe + yoe / 4 - yoe / 100)
  /\ doe - (365 * yoe + yoe / 4 - yoe / 100) < march_len yoe.
Proof.
  intros H yoe. subst yoe. pose proof (march_len_spec ((doe - doe / 1460 + doe / 36524 - doe / 146096) / 365)) as L.
  unfold march_start in L.
  assert (E : doe / 146096 = if doe =? 146096 then 1 else 0)
    by (destruct (Z.eqb_spec doe 146096); Z.div_mod_to_equations; lia).
  assert (C : doe / 36524 = 0 \/ doe / 36524 = 1 \/ doe / 36524 = 2 \/ doe / 36524 = 3 \/ doe / 36524 = 4)
    by (Z.div_mod_to_equations; lia).
  rewrite E in *. destruct (Z.eqb_spec doe 146096) as [->|N].
  - vm_compute. split_and!; done.
  - destruct_or! C; rewrite C in *; split_and!; Z.div_mod_to_equations; lia.
Qed.

Lemma civil_march z :
  exists y doy, 0 <= doy < march_len y /\ z + 719468 = march_start y + doy
    /\ civil_from_days z = of_march y doy.
Proof.
  set (n := z + 719468). set (era := n / 146097). set (doe := n mod 146097).
  assert (Hd : 0 <= doe < 146097) by (apply Z.mod_pos_bound; lia).
  assert (Hn : n = era * 146097 + doe) by (unfold era, doe; Z.div_mod_to_equations; lia).
  set (yoe := (doe - doe / 1460 + doe / 36524 - doe / 146096) / 365).
  destruct (year_of_era doe Hd) as (Y & D0 & D1). fold yoe in Y, D0, D1.
  set (doy := doe - (365 * yoe + yoe / 4 - yoe / 100)) in *.
  exists (yoe + era * 400), doy. split_and!.
  - done.
  - replace (march_len (yoe + era * 400)) with (march_len yoe); [done|].
    unfold march_len, is_leap_year. rewrite !rem_zero by lia.
    replace (yoe + era * 400 + 1) with (yoe + 1 + era * 400) by lia.
    rewrite (Z.mod_add (yoe + 1) era 400) by lia.
    replace (era * 400) with (era * 100 * 4) at 1 by lia. rewrite Z.mod_add by lia.
    replace (era * 400) with (era * 4 * 100) by lia. by rewrite Z.mod_add by lia.
  - rewrite Hn. unfold march_start, doy. Z.div_mod_to_equations; lia.
  - unfold civil_from_days. fold n.
    pose proof (quot_floor n 146097 ltac:(lia)) as F. change (146097 - 1) with 146096 in F.
    rewrite F. fold era. replace (n - era * 146097) with doe by lia.
    rewrite !(Z.quot_div_nonneg doe) by lia.
    rewrite (Z.quot_div_nonneg (_ - _ + _ - _)) by (Z.div_mod_to_equations; lia). fold yoe.
    rewrite !(Z.quot_div_nonneg yoe) by lia. fold doy.
    pose proof (march_len_bound yoe).
    rewrite (Z.quot_div_nonneg (5 * doy + 2)) by lia.
    rewrite (Z.quot_div_nonneg (153 * _ + 2)) by (Z.div_mod_to_equations; lia).
    unfold of_march. done.
Qed.

(** The months of a year that begins in March. *)
Lemma march_months y doy :
  0 <= doy <= 365 ->
  (of_march y doy = (y, 3, doy - 0 + 1) /\ 0 <= doy < 31)
  \/ (of_march y doy = (y, 4, doy - 31 + 1) /\ 31 <= doy < 61)
  \/ (of_march y doy = (y, 5, doy - 61 + 1) /\ 61 <= doy < 92)
  \/ (of_march y doy = (y, 6, doy - 92 + 1) /\ 92 <= doy < 122)
  \/ (of_march y doy = (y, 7, doy - 122 + 1) /\ 122 <= doy < 153)
  \/ (of_march y doy = (y, 8, doy - 153 + 1) /\ 153 <= doy < 184)
  \/ (of_march y doy = (y, 9, doy - 184 + 1) /\ 184 <= doy < 214)
  \/ (of_march y doy = (y, 10, doy - 214 + 1) /\ 214 <= doy < 245)
  \/ (of_march y doy = (y, 11, doy - 245 + 1) /\ 245 <= doy < 275)
  \/ (of_march y doy = (y, 12, doy - 275 + 1) /\ 275 <= doy < 306)
  \/ (of_march y doy = (y + 1, 1, doy - 306 + 1) /\ 306 <= doy < 337)
  \/ (of_march y doy = (y + 1, 2, doy - 337 + 1) /\ 337 <= doy <= 365).
Proof.
  intros H. unfold of_march.
  assert (C : exists mp, (5 * doy + 2) / 153 = mp /\ 0 <= mp <= 11 /\ 153 * mp <= 5 * doy + 2 < 153 * mp + 153)
    by (eexists; split; [reflexivity|]; Z.div_mod_to_equations; lia).
  destruct C as (mp & -> & C & B).
  assert (D : mp = 0 \/ mp = 1 \/ mp = 2 \/ mp = 3 \/ mp = 4 \/ mp = 5 \/ mp = 6 \/ mp = 7
    \/ mp = 8 \/ mp = 9 \/ mp = 10 \/ mp = 11) by lia.
  destruct_or! D; subst mp;
    repeat first [left; split; [reflexivity|lia] | right; split; [reflexivity|lia] | right].
Qed.

Lemma of_march_valid y doy :
  0 <= doy < march_len y -> let '(cy, m, d) := of_march y doy in civil_valid cy m d.
Proof.
  intros H. unfold march_len in H.
  pose proof (march_months y doy ltac:(destruct (is_leap_year (y + 1)); lia)) as C.
  destruct_or! C; destruct C as [-> B]; unfold civil_valid, days_in_month; try lia.
  destruct (is_leap_year (y + 1)); lia.
Qed.

(** One day later. *)
Lemma of_march_next y doy :
  0 <= doy < march_len y ->
  next_day (of_march y doy)
  = if doy + 1 <? march_len y then of_march y (doy + 1) else of_march (y + 1) 0.
Proof.
  intros H. pose proof (march_len_bound y).
  change (of_march (y + 1) 0) with (y + 1, 3, 1).
  pose proof (march_months y doy ltac:(lia)) as C.
  destruct (Z.ltb_spec (doy + 1) (march_len y)).
  - pose proof (march_months y (doy + 1) ltac:(lia)) as D. unfold march_len in *.
    destruct_or! C; destruct C as [-> B]; destruct_or! D; destruct D as [-> B']; try lia;
      unfold next_day, days_in_month; try (destruct (is_leap_year (y + 1)); lia);
      repeat case_match; repeat (f_equal; try lia); try lia.
  - unfold march_len in *.
    destruct_or! C; destruct C as [-> B]; destruct (is_leap_year (y + 1)) eqn:L; try lia;
      unfold next_day, days_in_month; rewrite L; repeat case_match; repeat (f_equal; try lia); lia.
Qed.

(** Where a month begins in the year that began in March. *)
Definition month_start (m : Z) : Z := (153 * (if 2 <? m then m - 3 else m + 9) + 2) / 5.
Definition march_year (y m : Z) : Z := if m <=? 2 then y - 1 else y.

Lemma days_march y m d :
  1 <= m <= 12 ->
  days_from_civil y m d = march_start (march_year y m) + (month_start m + d - 1) - 719468.
Proof.
  intros H. unfold days_from_civil, month_start. fold (march_year y m). set (w := march_year y m).
  pose proof (quot_floor w 400 ltac:(lia)) as F. change (400 - 1) with 399 in F. rewrite F.
  rewrite (Z.quot_div_nonneg (153 * _ + 2)) by (destruct (2 <? m) eqn:E; lia).
  rewrite !(Z.quot_div_nonneg (w - _)) by (Z.div_mod_to_equations; lia).
  unfold march_start. set (k := (153 * _ + 2) / 5). clearbody k w. Z.div_mod_to_equations; lia.
Qed.

Lemma of_march_inv y doy cy m d :
  0 <= doy <= 365 -> of_march y doy = (cy, m, d) ->
  march_year cy m = y /\ month_start m + d - 1 = doy.
Proof.
  intros H E. pose proof (march_months y doy H) as D. rewrite E in D.
  destruct_or! D; destruct D as [D B]; injection D as -> -> ->; unfold march_year;
    match goal with |- context [month_start ?m] =>
      let v := eval vm_compute in (month_start m) in change (month_start m) with v end;
    cbn [Z.leb Z.compare Pos.compare Pos.compare_cont]; lia.
Qed.

Lemma civil_of_march y m d :
  civil_valid y m d ->
  0 <= month_start m + d - 1 < march_len (march_year y m)
  /\ of_march (march_year y m) (month_start m + d - 1) = (y, m, d).
Proof.
  intros [Hm Hd]. unfold march_len.
  assert (C : m = 1 \/ m = 2 \/ m = 3 \/ m = 4 \/ m = 5 \/ m = 6 \/ m = 7 \/ m = 8 \/ m = 9
    \/ m = 10 \/ m = 11 \/ m = 12) by lia.
  unfold days_in_month in Hd.
  destruct_or! C; subst m.
  all: match goal with |- context [month_start ?m] =>
         let v := eval vm_compute in (month_start m) in change (month_start m) with v end.
  1, 2: change (march_year y _) with (y - 1); rewrite (Z.sub_add 1 y).
  3-12: change (march_year y _) with y.
  all: match goal with |- context [if is_leap_year ?w then 366 else _] =>
         assert (365 <= (if is_leap_year w then 366 else 365)) by (destruct (is_leap_year w); lia) end.
  2: destruct (is_leap_year y).
  all: split; [lia|].
  all: match goal with |- of_march ?w ?doy = _ => pose proof (march_months w doy ltac:(lia)) as D end.
  all: destruct_or! D; destruct D as [-> B]; try lia; repeat f_equal; lia.
Qed.

Lemma civil_of_days y m d : civil_valid y m d -> civil_from_days (days_from_civil y m d) = (y, m, d).
Proof.
  intros V. destruct (civil_of_march y m d V) as [L E].
  destruct (civil_march (days_from_civil y m d)) as (y' & doy' & L' & S' & ->).
  rewrite days_march in S' by apply V. rewrite <- E.
  destruct (march_unique _ _ _ _ L L') as [-> ->]; [lia|done].
Qed.

Lemma days_of_civil z y m d :
  civil_from_days z = (y, m, d) -> civil_valid y m d /\ days_from_civil y m d = z.
Proof.
  destruct (civil_march z) as (cy & doy & L & S & ->). intros E.
  pose proof (of_march_valid cy doy L) as W. rewrite E in W.
  split; [done|]. rewrite days_march by apply W. pose proof (march_len_bound cy).
  destruct (of_march_inv cy doy y m d) as [-> ->]; [lia|done|lia].
Qed.

Lemma civil_succ z : civil_from_days (z + 1) = next_day (civil_from_days z).
Proof.
  destruct (civil_march z) as (y & doy & L & S & ->).
  rewrite of_march_next by done. pose proof (march_len_spec y). pose proof (march_len_bound (y + 1)).
  destruct (civil_march (z + 1)) as (y' & doy' & L' & S' & ->).
  destruct (Z.ltb_spec (doy + 1) (march_len y)).
  - destruct (march_unique y (doy + 1) y' doy') as [<- <-]; [lia..|done].
  - destruct (march_unique (y + 1) 0 y' doy') as [<- <-]; [lia..|done].
Qed.

(** The date conversions implement the proleptic Gregorian calendar: day 0
    is 1970-01-01, the day after is the calendar's next day, and numbers and
    valid dates correspond one to one. *)
Theorem calendar_is_gregorian :
  civil_from_days 0 = (1970, 1, 1)
  /\ (forall z, civil_from_days (z + 1) = next_day (civil_from_days z))
  /\ (forall z, let '(y, m, d) := civil_from_days z in
        civil_valid y m d /\ days_from_civil y m d = z)
  /\ (forall y m d, civil_valid y m d -> civil_from_days (days_from_civil y m d) = (y, m, d)).
Proof.
  split_and!; [done|apply civil_succ| |apply civil_of_days].
  intros z. destruct (civil_from_days z) as [[y m] d] eqn:E. by apply days_of_civil.
Qed.

(** ** Dates as text *)

Lemma year_range y m d :
  civil_valid y m d -> (0 <= date_serial y m d <= MAX_DATE_SERIAL <-> 1 <= y <= 9999).
Proof.
  intros V. unfold date_serial. change DAYS_0001_TO_1970 with 719162. change MAX_DATE_SERIAL with 3652058.
  destruct (civil_of_march y m d V) as [L _]. rewrite days_march by apply V.
  destruct V as [Hm Hd]. pose proof (march_len_bound (march_year y m)).
  assert (S : month_start m + d - 1 <= 305 <-> 3 <= m).
  { assert (C : m = 1 \/ m = 2 \/ m = 3 \/ m = 4 \/ m = 5 \/ m = 6 \/ m = 7 \/ m = 8 \/ m = 9
      \/ m = 10 \/ m = 11 \/ m = 12) by lia.
    unfold days_in_month in Hd.
    destruct_or! C; subst m; match goal with |- context [month_start ?m] =>
      let v := eval vm_compute in (month_start m) in change (month_start m) with v end;
      try lia; destruct (is_leap_year y); lia. }
  unfold march_start, march_year in *. destruct (Z.leb_spec m 2); Z.div_mod_to_equations; lia.
Qed.

Lemma as_i32_id z : in_i32 z -> as_i32 z = z.
Proof.
  unfold as_i32, to_i32, wrap32, in_i32. intros H.
  destruct (Z.ltb_spec (z mod 4294967296) 2147483648); Z.div_mod_to_equations; lia.
Qed.

Lemma i64_ow_id z : in_i64 z -> i64_ow z = z.
Proof.
  unfold i64_ow, to_i64, wrap64, in_i64. intros H.
  destruct (Z.ltb_spec (z mod 18446744073709551616) 9223372036854775808); Z.div_mod_to_equations; lia.
Qed.

(** A serial in range is a date of the years 1 to 9999. *)
Lemma serial_date days :
  0 <= days <= MAX_DATE_SERIAL ->
  exists y m d, civil_from_days (days - DAYS_0001_TO_1970) = (y, m, d) /\ civil_valid y m d
    /\ 1 <= y <= 9999 /\ date_serial y m d = days /\ date_fields days = (y, m, d).
Proof.
  intros H. destruct (civil_from_days (days - DAYS_0001_TO_1970)) as [[y m] d] eqn:E.
  destruct (days_of_civil _ _ _ _ E) as [V D]. exists y, m, d.
  assert (S : date_serial y m d = days) by (unfold date_serial; lia).
  assert (Y : 1 <= y <= 9999) by (apply (year_range y m d V); by rewrite S).
  split_and!; try done; try lia. unfold date_fields. rewrite E. by rewrite as_i32_id by word_lia.
Qed.

Lemma days_in_month_le y m : days_in_month y m <= 31.
Proof.
  unfold days_in_month. destruct (is_leap_year y); repeat case_match; lia.
Qed.

(** [YYYY-MM-DD] of a valid date. *)
Definition date_text (y m d : Z) : list byte :=
  fixed 4 y ++ [byte_of 45] ++ fixed 2 m ++ [byte_of 45] ++ fixed 2 d.

Lemma format_date_text days :
  0 <= days <= MAX_DATE_SERIAL ->
  exists y m d, civil_valid y m d /\ 1 <= y <= 9999 /\ date_serial y m d = days
    /\ format_date days = date_text y m d.
Proof.
  intros H. destruct (serial_date days H) as (y & m & d & _ & V & Y & S & F).
  exists y, m, d. split_and!; try done; try lia. unfold format_date, date_text. rewrite F.
  destruct V as [Hm Hd]. pose proof (days_in_month_le y m).
  rewrite (proj2 (Z.leb_le _ _)) by lia.
  by rewrite !padded_fixed by (cbn; lia).
Qed.

Lemma digits2_val b : length b = 2%nat -> digits2 b = digits_val 0 b.
Proof.
  destruct b as [|x [|y [|z b]]]; try done. intros _. cbn [digits2 digits_val].
  by destruct (is_ascii_digit x), (is_ascii_digit y).
Qed.

Lemma parse_date_text y m d :
  civil_valid y m d -> 1 <= y <= 9999 -> parse_date (date_text y m d) = Some (date_serial y m d).
Proof.
  intros V Y. pose proof (proj2 (year_range y m d V) Y) as R. change MAX_DATE_SERIAL with 3652058 in R.
  pose proof (days_in_month_le y m). destruct V as [Hm Hd]. unfold parse_date.
  change (zlen (date_text y m d) =? 10) with true.
  change (byte_is (date_text y m d) 4 45) with true.
  change (byte_is (date_text y m d) 7 45) with true.
  change (slice (date_text y m d) 0 4) with (fixed 4 y).
  change (slice (date_text y m d) 5 7) with (fixed 2 m).
  change (slice (date_text y m d) 8 10) with (fixed 2 d).
  cbn [negb orb]. unfold digits4. rewrite !digits2_val by apply length_fixed.
  rewrite !digits_val_fixed by (cbn; lia).
  rewrite !(proj2 (Z.eqb_neq _ _)) by lia. rewrite (proj2 (Z.ltb_ge 12 m)) by lia.
  rewrite (proj2 (Z.ltb_ge _ d)) by lia. cbn [orb]. by rewrite as_i32_id by word_lia.
Qed.

Lemma date_text_parses s days :
  parse_date s = Some days <-> 0 <= days <= MAX_DATE_SERIAL /\ s = format_date days.
Proof.
  split.
  - intros P. unfold parse_date in P.
    destruct (Z.eqb_spec (zlen s) 10) as [L|]; [|done]. unfold zlen in L.
    assert (N : length s = 10%nat) by lia. clear L.
    destruct s as [|c0 [|c1 [|c2 [|c3 [|c4 [|c5 [|c6 [|c7 [|c8 [|c9 [|]]]]]]]]]]]; try done. clear N.
    cbn [negb orb] in P. unfold byte_is in P.
    change (Z.to_nat 4) with 4%nat in P. change (Z.to_nat 7) with 7%nat in P. cbn [lookup list_lookup] in P.
    destruct (Z.eqb_spec (byte_val c4) 45) as [E4|]; [|done].
    destruct (Z.eqb_spec (byte_val c7) 45) as [E7|]; [|done]. cbn [negb orb] in P.
    change (slice _ 0 4) with [c0; c1; c2; c3] in P. change (slice _ 5 7) with [c5; c6] in P.
    change (slice _ 8 10) with [c8; c9] in P. unfold digits4 in P. rewrite !digits2_val in P by done.
    destruct (digits_val 0 [c0; c1; c2; c3]) as [y|] eqn:Ey; [|done].
    destruct (digits_val 0 [c5; c6]) as [m|] eqn:Em; [|done].
    destruct (digits_val 0 [c8; c9]) as [d|] eqn:Ed; [|done].
    apply fixed_digits_val in Ey as [Fy By], Em as [Fm Bm], Ed as [Fd Bd].
    change (10 ^ zlen [c0; c1; c2; c3]) with 10000 in By.
    change (10 ^ zlen _) with 100 in Bm, Bd.
    destruct (Z.eqb_spec y 0), (Z.eqb_spec m 0), (Z.ltb_spec 12 m); try done. cbn [orb] in P.
    destruct (Z.eqb_spec d 0), (Z.ltb_spec (days_in_month y m) d); try done. cbn [orb] in P.
    assert (V : civil_valid y m d) by (split; lia).
    pose proof (proj2 (year_range y m d V) ltac:(lia)) as R.
    rewrite as_i32_id in P by (change MAX_DATE_SERIAL with 3652058 in R; word_lia).
    injection P as <-. split; [done|].
    destruct (format_date_text _ R) as (y' & m' & d' & V' & Y' & S' & ->).
    assert (C : (y', m', d') = (y, m, d)).
    { rewrite <- (civil_of_days y' m' d' V'), <- (civil_of_days y m d V). f_equal. unfold date_serial in S'. lia. }
    injection C as -> -> ->. unfold date_text.
    rewrite <- (byte_of_val c4), E4, <- (byte_of_val c7), E7.
    cbn [length] in Fy, Fm, Fd. by rewrite <- Fy, <- Fm, <- Fd.
  - intros [R ->]. destruct (format_date_text _ R) as (y & m & d & V & Y & <- & ->).
    by apply parse_date_text.
Qed.

(** The text form of dates is exact: a string parses to a date precisely
    when it is what the date prints as, and every date of the years 1 to 9999
    has such a string. *)
Theorem date_text_exact s days :
  parse_date s = Some days <-> 0 <= days <= MAX_DATE_SERIAL /\ s = format_date days.
Proof. apply date_text_parses. Qed.

(** ** Timestamps as text *)

(** The microseconds of a day. *)
Definition time_of_day (h mi s us : Z) : Z :=
  h * MICROS_PER_HOUR + mi * MICROS_PER_MINUTE + s * MICROS_PER_SECOND + us.

Definition time_valid (h mi s us : Z) : Prop :=
  0 <= h < 24 /\ 0 <= mi < 60 /\ 0 <= s < 60 /\ 0 <= us < 1000000.

Ltac micros :=
  change MICROS_PER_DAY with 86400000000 in *; change MICROS_PER_HOUR with 3600000000 in *;
  change MICROS_PER_MINUTE with 60000000 in *; change MICROS_PER_SECOND with 1000000 in *.

(** The timestamps of the years 1 to 9999. *)
Definition ts_in_range (t : Z) : Prop :=
  0 <= t / MICROS_PER_DAY + DAYS_0001_TO_1970 <= MAX_DATE_SERIAL.

Lemma ts_fields_ok t :
  ts_in_range t ->
  exists y m d h mi s us,
    ts_fields t = (y, m, d, h, mi, s, us) /\ civil_valid y m d /\ 1 <= y <= 9999
    /\ time_valid h mi s us
    /\ t = (date_serial y m d - DAYS_0001_TO_1970) * MICROS_PER_DAY + time_of_day h mi s us.
Proof.
  intros R. destruct (serial_date _ R) as (y & m & d & E & V & Y & S & _).
  rewrite Z.add_simpl_r in E. unfold ts_fields. rewrite E.
  exists y, m, d; do 4 eexists. split; [by rewrite as_i32_id by word_lia|].
  split_and!; try done; try lia; unfold time_valid, time_of_day; micros; Z.div_mod_to_equations; lia.
Qed.

(** [YYYY-MM-DD HH:MM:SS]. *)
Definition ts_text (y m d h mi s : Z) : list byte :=
  date_text y m d ++ [byte_of 32] ++ fixed 2 h ++ [byte_of 58] ++ fixed 2 mi ++ [byte_of 58] ++ fixed 2 s.

Lemma format_ts_text t y m d h mi s us :
  ts_fields t = (y, m, d, h, mi, s, us) -> civil_valid y m d -> 1 <= y <= 9999 ->
  time_valid h mi s us ->
  format_timestamp t
  = ts_text y m d h mi s ++ (if us =? 0 then [] else [byte_of 46] ++ fixed 6 us).
Proof.
  intros F [Hm Hd] Y T. pose proof (days_in_month_le y m). unfold time_valid in T.
  unfold format_timestamp, ts_text, date_text. rewrite F.
  rewrite (proj2 (Z.ltb_ge _ _)), Z.abs_eq, app_nil_l by lia.
  rewrite !padded_fixed by (cbn; lia).
  destruct (us =? 0); rewrite <- ?app_assoc; [by rewrite app_nil_r|done].
Qed.

Lemma micros_of_fields y m d h mi s us :
  civil_valid y m d -> 1 <= y <= 9999 -> time_valid h mi s us ->
  date_serial_to_unix_micros (date_serial y m d) h mi s us
  = (date_serial y m d - DAYS_0001_TO_1970) * MICROS_PER_DAY + time_of_day h mi s us.
Proof.
  intros V Y T. pose proof (proj2 (year_range y m d V) Y) as R. unfold time_valid in T.
  unfold date_serial_to_unix_micros, time_of_day. rewrite i64_ow_id; [lia|].
  change MAX_DATE_SERIAL with 3652058 in R. change DAYS_0001_TO_1970 with 719162. micros. word_lia.
Qed.

Lemma parse_ts_text y m d h mi s us :
  civil_valid y m d -> 1 <= y <= 9999 -> time_valid h mi s us ->
  parse_timestamp (ts_text y m d h mi s ++ (if us =? 0 then [] else [byte_of 46] ++ fixed 6 us))
  = Some ((date_serial y m d - DAYS_0001_TO_1970) * MICROS_PER_DAY + time_of_day h mi s us).
Proof.
  intros V Y T. rewrite <- micros_of_fields by done.
  destruct T as (Hh & Hmi & Hs & Hus). unfold parse_timestamp.
  set (tail := if us =? 0 then _ else _).
  assert (Z.of_nat (length tail) = 0 /\ us = 0 \/ Z.of_nat (length tail) = 7 /\ us <> 0) as Ht.
  { subst tail. destruct (Z.eqb_spec us 0); [by left|right]. done. }
  set (b := ts_text y m d h mi s ++ tail).
  assert (Lb : zlen b = 19 + Z.of_nat (length tail)) by (subst b; by rewrite zlen_app).
  rewrite Lb, (proj2 (Z.ltb_ge _ 10)), (proj2 (Z.eqb_neq _ 10)) by lia.
  rewrite (proj2 (Z.ltb_ge _ 19)), (proj2 (Z.ltb_ge 26 _)) by lia. cbn [orb].
  change (slice b 0 10) with (date_text y m d). rewrite parse_date_text by done.
  change (byte_is b 10 32) with true. change (byte_is b 13 58) with true.
  change (byte_is b 16 58) with true. cbn [negb orb andb].
  change (slice b 11 13) with (fixed 2 h). change (slice b 14 16) with (fixed 2 mi).
  change (slice b 17 19) with (fixed 2 s).
  rewrite !digits2_val, !digits_val_fixed by (first [apply length_fixed | cbn; lia]).
  rewrite (proj2 (Z.ltb_ge 23 h)), (proj2 (Z.ltb_ge 59 mi)), (proj2 (Z.ltb_ge 59 s)) by lia.
  cbn [orb]. destruct Ht as [[Ht ->]|[Ht Hn]]; rewrite Ht; [done|].
  change (19 <? 19 + 7) with true. cbv iota.
  subst b tail. rewrite (proj2 (Z.eqb_neq us 0)) by done.
  change (slice _ 20 (19 + 7)) with (fixed 6 us).
  change (byte_is _ 19 46) with true. cbn [negb].
  change (zlen (fixed 6 us)) with 6. cbn [Z.eqb Z.ltb Z.compare Pos.compare Pos.compare_cont Pos.eqb orb].
  unfold scale_fraction. rewrite digits_val_fixed by (cbn; lia).
  change (10 ^ (6 - zlen (fixed 6 us))) with 1. by rewrite Z.mul_1_r.
Qed.

Lemma timestamp_text_parses t :
  ts_in_range t -> parse_timestamp (format_timestamp t) = Some t.
Proof.
  intros R. destruct (ts_fields_ok t R) as (y & m & d & h & mi & s & us & F & V & Y & T & E).
  rewrite (format_ts_text t _ _ _ _ _ _ _ F V Y T), parse_ts_text by done. by rewrite <- E.
Qed.

(** Every timestamp of the years 1 to 9999 reads back from what it prints
    as. *)
Theorem timestamp_text_roundtrip t :
  ts_in_range t -> parse_timestamp (format_timestamp t) = Some t.
Proof. apply timestamp_text_parses. Qed.

Lemma timestamp_text_roundtrip_witness :
  parse_timestamp (format_timestamp 1709214306500000) = Some 1709214306500000.
Proof. apply timestamp_text_roundtrip. vm_compute. by split. Defined.

(** ** Interval arithmetic *)

Lemma days_in_month_pos y m : 1 <= m <= 12 -> 28 <= days_in_month y m.
Proof.
  intros H.
  assert (C : m = 1 \/ m = 2 \/ m = 3 \/ m = 4 \/ m = 5 \/ m = 6 \/ m = 7 \/ m = 8 \/ m = 9
    \/ m = 10 \/ m = 11 \/ m = 12) by lia.
  destruct_or! C; subst m; cbn [days_in_month]; try lia. destruct (is_leap_year y); lia.
Qed.

Lemma days_bound y m d : civil_valid y m d -> 365 * y - 720200 <= days_from_civil y m d + Z.abs y
  /\ days_from_civil y m d <= 365 * y + Z.abs y + 1.
Proof.
  intros V. destruct (civil_of_march y m d V) as [L _]. rewrite days_march by apply V.
  pose proof (march_len_bound (march_year y m)).
  unfold march_start, march_year in *. destruct (Z.leb_spec m 2); Z.div_mod_to_equations; lia.
Qed.

(** C38: Adding an interval to a date moves the month first, keeping the day or
    falling back to the last of the month, then the days of the microseconds,
    rounded down; the result is an error exactly when it leaves the years 1 to
    9999.  This holds while the interval stays below a hundred thousand years
    and the microseconds below 2^62. *)
Theorem interval_date_exact days months micros y m d :
  0 <= days <= MAX_DATE_SERIAL -> date_fields days = (y, m, d) ->
  Z.abs months <= 1200000 -> Z.abs micros <= 4611686018427387904 ->
  exists ny nm, 12 * ny + nm = 12 * y + m + months /\ 1 <= nm <= 12
    /\ let s := date_serial ny nm (Z.min d (days_in_month ny nm)) + micros / MICROS_PER_DAY in
       add_interval_to_date days months micros
       = if decide (0 <= s <= MAX_DATE_SERIAL) then Ok s else Err IntervalRange.
Proof.
  intros R F Bm Bu. destruct (serial_date days R) as (y' & m' & d' & _ & V & Y & _ & F').
  rewrite F in F'. injection F' as <- <- <-. destruct V as [Hm Hd].
  set (total := y * 12 + (m - 1) + months). exists (total / 12), (total mod 12 + 1).
  assert (T : 12 * (total / 12) + (total mod 12 + 1) = 12 * y + m + months
    /\ 1 <= total mod 12 + 1 <= 12) by (unfold total; Z.div_mod_to_equations; lia).
  destruct T as [T Tm]. split_and!; [lia..|]. cbv zeta.
  unfold add_interval_to_date, add_months_ymd. rewrite F. fold total.
  set (ny := total / 12) in *. set (nm := total mod 12 + 1) in *.
  pose proof (days_in_month_pos ny nm Tm).
  set (nd := Z.min d (days_in_month ny nm)).
  assert (V' : civil_valid ny nm nd) by (subst nd; split; lia).
  pose proof (days_bound ny nm nd V') as B.
  rewrite as_i32_id by word_lia. unfold date_serial in *. change DAYS_0001_TO_1970 with 719162 in *.
  set (D := days_from_civil ny nm nd) in *. micros.
  rewrite i64_ow_id by word_lia. rewrite Z.add_comm, Z.div_add, Z.add_comm by lia.
  set (s := D + 719162 + micros / 86400000000).
  destruct (decide (0 <= s <= MAX_DATE_SERIAL)) as [I|I];
    destruct (Z.leb_spec 0 s), (Z.leb_spec s MAX_DATE_SERIAL); cbn [andb]; done || lia.
Qed.

Lemma interval_date_exact_witness :
  exists ny nm, 12 * ny + nm = 12 * 2024 + 1 + 1 /\ 1 <= nm <= 12
    /\ let s := date_serial ny nm (Z.min 31 (days_in_month ny nm)) + 0 / MICROS_PER_DAY in
       add_interval_to_date 738915 1 0
       = if decide (0 <= s <= MAX_DATE_SERIAL) then Ok s else Err IntervalRange.
Proof. apply interval_date_exact; [vm_compute; by split|reflexivity|lia|lia]. Defined.

(** An interval that parses can overflow the microseconds of the date it is
    added to: 584000 years after 2024-01-15 is reported as 1469-12-27 instead
    of as out of range. *)
Theorem interval_overflow_wraps :
  parse_interval_string (bytes_of_string "584000 years") = Ok (mk_interval 7008000 0)
  /\ parse_date (bytes_of_string "2024-01-15") = Some 738899
  /\ match add_interval_to_date 738899 7008000 0 with
     | Ok d => format_date d = bytes_of_string "1469-12-27"
     | _ => False
     end.
Proof. vm_compute. done. Qed.
