(* ===== verification/Like.v ===== *)
(** * LIKE

    [like_match] of [src/executor/predicate.rs]: greedy matching with
    backtracking on the last [%].  The loop runs on fuel; [like_fuel] is
    enough for every value and pattern, so [like_match] is total. *)

From Stdlib Require Import Strings.String ZArith Strings.Byte Lia List.
From stdpp Require Import base tactics list numbers gmap.
From S2P Require Import Prelude RowKey Values Text.
#[local] Open Scope string_scope.
#[local] Open Scope list_scope.
#[local] Open Scope nat_scope.

Definition percent : char := ascii 37.
Definition underscore : char := ascii 95.

(** [Some (Some pi)]: the loop ended at that position of the pattern;
    [Some None]: it returned [false]; [None]: the fuel is spent. *)
Fixpoint like_loop (fuel : nat) (v p : list char) (vi pi : nat) (star_v : option nat) (star_p : nat)
    : option (option nat) :=
  match fuel with
  | O => None
  | S fuel =>
      match v !! vi with
      | None => Some (Some pi)
      | Some c =>
          let back :=
            match star_v with
            | Some sv => like_loop fuel v p (sv + 1) (star_p + 1) (Some (sv + 1)) star_p
            | None => Some None
            end in
          match p !! pi with
          | Some q =>
              if char_eqb q underscore || char_eqb q c then
                like_loop fuel v p (vi + 1) (pi + 1) star_v star_p
              else if char_eqb q percent then
                like_loop fuel v p vi (pi + 1) (Some vi) pi
              else back
          | None => back
          end
      end
  end.

(** The patterns that are only [%] from [pi] on. *)
Fixpoint only_percent (p : list char) : bool :=
  match p with
  | [] => true
  | q :: p => char_eqb q percent && only_percent p
  end.

Definition like_fuel (v p : list char) : nat := (length v + 1) * (length p + 2) + 1.

Definition like_chars (v p : list char) : option bool :=
  match like_loop (like_fuel v p) v p 0 0 None 0 with
  | Some (Some pi) => Some (only_percent (drop pi p))
  | Some None => Some false
  | None => None
  end.

Definition like_match (value pattern : list byte) : bool :=
  default false (like_chars (chars value) (chars pattern)).

(** ** What LIKE means *)

Inductive like : list char -> list char -> Prop :=
| like_nil : like [] []
| like_one c v p : like v p -> like (c :: v) (underscore :: p)
| like_char c v p : c <> percent -> like v p -> like (c :: v) (c :: p)
| like_skip v p : like v p -> like v (percent :: p)
| like_absorb c v p : like v (percent :: p) -> like (c :: v) (percent :: p).

Lemma char_eqb_spec a b : char_eqb a b = true <-> a = b.
Proof.
  unfold char_eqb, bytes_eqb. split.
  - case_match; try done. intros _. by apply bytes_cmp_eq.
  - intros ->. by rewrite bytes_cmp_refl.
Qed.

Lemma char_eqb_false a b : char_eqb a b = false <-> a <> b.
Proof. rewrite <- char_eqb_spec. by destruct (char_eqb a b). Qed.

(** ** Termination *)

Definition star_base (star_v : option nat) : nat := default 0 star_v.

(** What is left to do: a backtrack moves the base of the last [%], every other
    step moves in the pattern. *)
Definition like_measure (v p : list char) (pi : nat) (star_v : option nat) : nat :=
  (length v - star_base star_v) * (length p + 2) + (length p - pi).

Lemma like_loop_total fuel v p vi pi star_v star_p :
  star_base star_v <= vi <= length v -> pi <= length p -> star_p <= length p ->
  (forall sv, star_v = Some sv -> star_p < pi) ->
  like_measure v p pi star_v < fuel ->
  like_loop fuel v p vi pi star_v star_p <> None.
Proof.
  revert vi pi star_v star_p. induction fuel as [|fuel IH]; intros vi pi star_v star_p Hv Hp Hs Ho F; [lia|].
  cbn [like_loop]. destruct (v !! vi) as [c|] eqn:Ev; [|done].
  apply lookup_lt_Some in Ev. unfold like_measure in F.
  assert (B : match star_v with
    | Some sv => like_loop fuel v p (sv + 1) (star_p + 1) (Some (sv + 1)) star_p
    | None => Some None end <> None).
  { destruct star_v as [sv|]; [|done]. cbn [star_base default] in *. specialize (Ho sv eq_refl).
    apply IH; cbn [star_base default]; try lia; [naive_solver lia|]. unfold like_measure, star_base, default.
    cbn in *. nia. }
  destruct (p !! pi) as [q|] eqn:Ep; [|done]. apply lookup_lt_Some in Ep.
  destruct (_ || _).
  { apply IH; try lia; [intros sv E; specialize (Ho sv E); lia|]. unfold like_measure. lia. }
  destruct (char_eqb q percent); [|done].
  apply IH; cbn [star_base default from_option] in *; try lia; [naive_solver lia|].
  unfold like_measure, star_base, default in *. cbn in *. nia.
Qed.

(** ** Facts about LIKE *)

Lemma like_snoc c q v p :
  like v p -> q = underscore \/ (q = c /\ c <> percent) -> like (v ++ [c]) (p ++ [q]).
Proof.
  intros H Q. induction H; cbn [app].
  - destruct Q as [->|[-> N]]; [apply like_one|apply like_char; [done|]]; apply like_nil.
  - by apply like_one.
  - by apply like_char.
  - by apply like_skip.
  - by apply like_absorb.
Qed.

Lemma like_percents v : like v [percent].
Proof. induction v; [apply like_skip, like_nil|by apply like_absorb]. Qed.

Lemma like_snoc_percent v w p : like v p -> like (v ++ w) (p ++ [percent]).
Proof.
  intros H. induction H; cbn [app].
  - apply like_percents.
  - by apply like_one.
  - by apply like_char.
  - by apply like_skip.
  - by apply like_absorb.
Qed.

Lemma like_only_percent v p q : like v p -> only_percent q = true -> like v (p ++ q).
Proof.
  revert p. induction q as [|c q IH]; intros p H E; [by rewrite app_nil_r|].
  cbn in E. apply andb_true_iff in E as [E1 E2]. apply char_eqb_spec in E1 as ->.
  change (percent :: q) with ([percent] ++ q). rewrite app_assoc. apply IH; [|done].
  rewrite <- (app_nil_r v). by apply like_snoc_percent.
Qed.

Lemma like_nil_inv p : like [] p -> only_percent p = true.
Proof.
  remember (@nil char) as v eqn:E. intros H. induction H; try done. cbn. by rewrite IHlike.
Qed.

Lemma like_cons_inv c v q p :
  q <> percent -> like (c :: v) (q :: p) -> like v p /\ (q = underscore \/ q = c).
Proof. intros N H. inversion H; subst; auto; done. Qed.

Lemma like_percent_inv v p : like v (percent :: p) -> exists j, like (drop j v) p.
Proof.
  remember (percent :: p) as q eqn:E. intros H. revert p E.
  induction H as [|c v q H IH|c v q N H IH|v q H IH|c v q H IH]; intros p' E; simplify_eq.
  - by exists 0.
  - destruct (IH p' eq_refl) as [j Hj]. by exists (S j).
Qed.

Lemma like_absorb_drop v p i j :
  i <= j -> like (drop j v) (percent :: p) -> like (drop i v) (percent :: p).
Proof.
  intros L H. replace j with (i + (j - i)) in H by lia. rewrite <- drop_drop in H.
  generalize dependent (drop i v). generalize (j - i). clear. intros n.
  induction n as [|n IH]; intros [|c w] H; try done. apply like_absorb. by apply IH.
Qed.

(** A stretch of the pattern without [%] matches as many characters. *)
Lemma like_walk n v p :
  (forall i, i < n -> p !! i <> Some percent) -> n <= length p -> like v p -> like (drop n v) (drop n p).
Proof.
  revert v p. induction n as [|n IH]; intros v p N L H; [by rewrite !drop_0|].
  destruct p as [|q p]; [cbn in L; lia|].
  assert (Q : q <> percent) by (intros ->; by apply (N 0); [lia|]).
  destruct v as [|c v].
  { apply like_nil_inv in H. cbn in H. apply andb_true_iff in H as [H _].
    by apply char_eqb_spec in H. }
  apply like_cons_inv in H as [H _]; [|done]. cbn [drop]. apply IH; [|cbn in L; lia|done].
  intros i Hi. apply (N (S i)). lia.
Qed.

(** ** The loop *)

Section loop.
Context (v p : list char) (plain : percent ∉ v).

Lemma plain_char i c : v !! i = Some c -> c <> percent.
Proof. intros H ->. apply plain. by eapply list_elem_of_lookup_2. Qed.

Lemma like_loop_sound fuel vi pi star_v star_p r :
  star_base star_v <= vi ->
  like (take vi v) (take pi p) ->
  (forall sv k, star_v = Some sv -> sv <= k -> like (take k v) (take (star_p + 1) p)) ->
  like_loop fuel v p vi pi star_v star_p = Some (Some r) -> like v (take r p).
Proof.
  revert vi pi star_v star_p. induction fuel as [|fuel IH]; intros vi pi star_v star_p Hv H S E; [done|].
  cbn [like_loop] in E. destruct (v !! vi) as [c|] eqn:Ev.
  2: { injection E as <-. apply lookup_ge_None in Ev. by rewrite take_ge in H by done. }
  assert (B : match star_v with
    | Some sv => like_loop fuel v p (sv + 1) (star_p + 1) (Some (sv + 1)) star_p
    | None => Some None end = Some (Some r) -> like v (take r p)).
  { destruct star_v as [sv|]; [|done]. intros Eb. revert Eb. apply IH.
    - done.
    - apply (S sv); [done|lia].
    - intros ? k [= <-] K. apply (S sv); [done|lia]. }
  destruct (p !! pi) as [q|] eqn:Ep; [|auto].
  destruct (char_eqb q underscore || char_eqb q c) eqn:Q.
  - revert E. apply IH; [lia| |done].
    rewrite !Nat.add_1_r, (take_S_r _ _ c), (take_S_r _ _ q) by done. apply like_snoc; [done|].
    apply orb_true_iff in Q as [Q|Q]; apply char_eqb_spec in Q; [by left|right].
    split; [done|by eapply plain_char].
  - destruct (char_eqb q percent) eqn:Q'; [|auto]. apply char_eqb_spec in Q' as ->.
    assert (P : forall k, vi <= k -> like (take k v) (take (pi + 1) p)).
    { intros k K. rewrite Nat.add_1_r, (take_S_r _ _ percent) by done.
      rewrite <- (take_drop vi (take k v)), take_take, Nat.min_l by lia. by apply like_snoc_percent. }
    revert E. apply IH; [done|by apply P|]. intros ? k [= <-] K. by apply P.
Qed.

(** What remains to match: from here, or from some point after the last [%]. *)
Definition pending (vi pi : nat) (star_v : option nat) (star_p : nat) : Prop :=
  match star_v with
  | None => like (drop vi v) (drop pi p)
  | Some sv =>
      sv <= vi /\ pi = star_p + 1 + (vi - sv) /\ pi <= length p
      /\ (forall i, star_p + 1 <= i < pi -> p !! i <> Some percent)
      /\ exists k, sv <= k /\ like (drop k v) (drop (star_p + 1) p)
  end.

(** The stretch after the last [%], walked from a later start. *)
Lemma pending_walk vi pi sv star_p :
  pending vi pi (Some sv) star_p -> exists j, vi <= j /\ like (drop j v) (drop pi p).
Proof.
  intros (L & -> & Lp & N & k & K & H). exists (k + (vi - sv)). split; [lia|].
  rewrite <- (drop_drop v _ k), <- (drop_drop p _ (star_p + 1)). apply like_walk; [| |done].
  - intros i Hi. rewrite lookup_drop. apply N. lia.
  - rewrite length_drop. lia.
Qed.

(** When the walk from the last start fails, a later start matches. *)
Lemma pending_later vi pi sv star_p :
  pending vi pi (Some sv) star_p -> ~ like (drop vi v) (drop pi p) ->
  pending (sv + 1) (star_p + 1) (Some (sv + 1)) star_p.
Proof.
  intros (L & -> & Lp & N & k & K & H) F.
  assert (k <> sv).
  { intros ->. apply F. replace (drop vi v) with (drop (vi - sv) (drop sv v))
      by (rewrite drop_drop; f_equal; lia).
    rewrite <- (drop_drop p _ (star_p + 1)).
    apply like_walk; [|rewrite length_drop; lia|done]. intros i Hi. rewrite lookup_drop. apply N. lia. }
  cbn. split_and!; try lia. exists k. split; [lia|done].
Qed.

Lemma like_loop_complete fuel vi pi star_v star_p r :
  pending vi pi star_v star_p ->
  like_loop fuel v p vi pi star_v star_p = Some r ->
  exists pi', r = Some pi' /\ only_percent (drop pi' p) = true.
Proof.
  revert vi pi star_v star_p. induction fuel as [|fuel IH]; intros vi pi star_v star_p H E; [done|].
  cbn [like_loop] in E. destruct (v !! vi) as [c|] eqn:Ev.
  2: { injection E as <-. exists pi. split; [done|]. apply lookup_ge_None in Ev. apply like_nil_inv.
    destruct star_v as [sv|].
    - destruct (pending_walk _ _ _ _ H) as (j & J & W). rewrite (drop_ge v) in W by lia. done.
    - cbn in H. rewrite (drop_ge v) in H by done. done. }
  pose proof (plain_char _ _ Ev) as Nc.
  assert (B : ~ like (drop vi v) (drop pi p) ->
    match star_v with
    | Some sv => like_loop fuel v p (sv + 1) (star_p + 1) (Some (sv + 1)) star_p
    | None => Some None end = Some r -> exists pi', r = Some pi' /\ only_percent (drop pi' p) = true).
  { intros F. destruct star_v as [sv|]; [|done].
    apply IH. by apply (pending_later _ _ _ _ H). }
  rewrite (drop_S _ _ _ Ev) in B.
  destruct (p !! pi) as [q|] eqn:Ep.
  2: { apply B in E; [done|]. apply lookup_ge_None in Ep. rewrite (drop_ge p) by done. intros L. inversion L. }
  pose proof (lookup_lt_Some _ _ _ Ep) as Lp. rewrite (drop_S _ _ _ Ep) in B.
  destruct (char_eqb q underscore || char_eqb q c) eqn:Q.
  - apply orb_true_iff in Q. rewrite !char_eqb_spec in Q.
    assert (Nq : q <> percent) by (destruct Q as [->| ->]; done).
    revert E. apply IH. rewrite !Nat.add_1_r. destruct star_v as [sv|]; cbn in H |- *.
    + destruct H as (L & -> & Lp' & N & K). split_and!; try lia; [|done].
      intros i Hi. destruct (Nat.eq_dec i (star_p + 1 + (vi - sv))) as [->|]; [rewrite Ep; congruence|].
      apply N. lia.
    + rewrite (drop_S _ _ _ Ev), (drop_S _ _ _ Ep) in H. by apply like_cons_inv in H as [H _].
  - apply orb_false_iff in Q as [Q1 Q2]. rewrite char_eqb_false in Q1, Q2.
    destruct (char_eqb q percent) eqn:Q'.
    + apply char_eqb_spec in Q' as ->.
      assert (W : like (drop vi v) (percent :: drop (pi + 1) p)).
      { destruct star_v as [sv|].
        - destruct (pending_walk _ _ _ _ H) as (j & J & W). rewrite (drop_S _ _ _ Ep) in W.
          rewrite Nat.add_1_r. by eapply like_absorb_drop.
        - cbn in H. rewrite (drop_S _ _ _ Ep) in H. by rewrite Nat.add_1_r. }
      destruct (like_percent_inv _ _ W) as [j Hj]. rewrite drop_drop in Hj.
      revert E. apply IH. cbn. split_and!; try lia. exists (vi + j). split; [lia|done].
    + apply char_eqb_false in Q'. apply B in E; [done|]. intros L.
      apply like_cons_inv in L as [_ [?|?]]; done.
Qed.
End loop.

(** C37: LIKE is exact on values without a percent sign: [%] matches any run of
    characters, [_] exactly one, anything else itself; the matcher always
    terminates with that answer. *)
Theorem like_match_exact v p :
  percent ∉ v -> exists b, like_chars v p = Some b /\ (b = true <-> like v p).
Proof.
  intros plain. unfold like_chars.
  destruct (like_loop (like_fuel v p) v p 0 0 None 0) as [r|] eqn:E.
  2: { exfalso. revert E. apply like_loop_total; cbn; try lia; [done|]. unfold like_measure, like_fuel. cbn. nia. }
  destruct r as [pi|]; eexists; (split; [reflexivity|split]).
  - intros O. rewrite <- (take_drop pi p). apply like_only_percent; [|done].
    eapply like_loop_sound; [done| | | |exact E]; [cbn; lia|apply like_nil|done].
  - intros L. apply (like_loop_complete _ _ plain) in E as (pi' & [= ->] & O); done.
  - done.
  - intros L. by apply (like_loop_complete _ _ plain) in E as (pi' & E & O).
Qed.

Lemma like_match_exact_witness :
  exists b, like_chars (chars (bytes_of_string "ab-abc")) (chars (bytes_of_string "%ab_")) = Some b
    /\ (b = true <-> like (chars (bytes_of_string "ab-abc")) (chars (bytes_of_string "%ab_"))).
Proof.
  apply like_match_exact. vm_compute. intros H. repeat (apply elem_of_cons in H as [H|H]; [done|]).
  by apply elem_of_nil in H.
Defined.

(** A percent sign in the value is compared to the [%] of the pattern before
    it is taken as a wildcard: [LIKE '50%'] rejects ["50% off"] although
    [%] matches any run. *)
Theorem like_percent_in_value :
  like_match (bytes_of_string "50% off") (bytes_of_string "50%") = false
  /\ like (chars (bytes_of_string "50% off")) (chars (bytes_of_string "50%")).
Proof.
  split; [done|]. cbn.
  do 2 (apply like_char; [done|]). apply like_percents.
Qed.
