(* ===== verification/Expr.v ===== *)
(** * Expressions and predicates

    [src/executor/predicate.rs] and [src/executor/function.rs]: the expression
    and predicate nodes, their evaluation on a row, casts, arithmetic,
    intervals, the scalar functions and the injection of parameters.

    An [Arc<dyn Expression>] is a tree here, a [ParameterExpression] carries
    the contents of its mutex, and an injection returns the tree with the new
    contents.  What the run-time environment decides is a [Runtime]: the clock
    that [NOW] reads and [10f64.powi], whose precision Rust leaves open. *)

From Stdlib Require Import Strings.String ZArith Strings.Byte Lia List.
From stdpp Require Import base tactics list numbers gmap.
From S2P Require Import Prelude RowKey Values Text DateTime Like.
#[local] Open Scope string_scope.
#[local] Open Scope list_scope.
#[local] Open Scope Z_scope.

(** ** Three-valued logic *)

Inductive Ternary := TTrue | TFalse | TUnknown.
#[global] Instance ternary_eq_dec : EqDecision Ternary.
Proof. solve_decision. Defined.

Definition fold (t : Ternary) : bool := match t with TTrue => true | _ => false end.
Definition ternary_of (b : bool) : Ternary := if b then TTrue else TFalse.

(** ** Nodes *)

Inductive ComparisonOp := OpEq | OpNe | OpGt | OpLt | OpGe | OpLe.
Inductive LogicalOp := OpAnd | OpOr.
Inductive CastType := CastInt | CastFloat | CastString | CastBool | CastDate | CastTimestamp.
Inductive ArithOp := OpAdd | OpSub | OpMul | OpDiv.

(** Induction reaches the nodes inside lists, pairs and options. *)
Scheme All for prod.
Scheme All for option.
Scheme All for list.

Inductive Expr :=
| ColumnExpression (column_name : list byte) (column_index : Z)
| ConstantExpression (value : Value)
| ParameterExpression (param_name : list byte) (value : Value)
| CaseExpression (whens : list (Pred * Expr)) (else_ : option Expr)
| CoalesceExpression (args : list Expr)
| CastExpression (expr : Expr) (target : CastType)
| BinaryArithExpression (left : Expr) (op : ArithOp) (right : Expr)
| IntervalArithExpression (left : Expr) (op : ArithOp) (interval : IntervalParts)
| FunctionExpression (name : string) (args : list Expr)
with Pred :=
| ComparisonPredicate (left : Expr) (op : ComparisonOp) (right : Expr)
| ConstantPredicate (value : bool)
| LogicalPredicate (left : Pred) (op : LogicalOp) (right : Pred)
| LikePredicate (expr pattern : Expr)
| IsNullPredicate (expr : Expr)
| NotPredicate (inner : Pred).

Scheme expr_mut := Induction for Expr Sort Prop
with pred_mut := Induction for Pred Sort Prop.
Combined Scheme expr_pred_ind from expr_mut, pred_mut.

(** The boxed errors of evaluation. *)
Inductive EvalError :=
| EvValue (e : ValueError)
| EvColumn (index len : Z)
| EvInterval (e : IntervalError)
| EvIntervalOp
| EvAbsOverflow
| EvUnit
| EvNoBorrow.

(** ** Casts *)

Definition opt_cast (o : option Value) : exec ValueError Value :=
  match o with Some v => Ok v | None => Err TypeMismatch end.

Definition cast_value (value : Value) (target : CastType) : exec ValueError Value :=
  match target, value with
  | _, VNull => Ok VNull
  | CastInt, VInt _ | CastFloat, VFloat _ | CastString, VString _ | CastBool, VBool _ => Ok value
  | CastInt, VFloat f => Ok (VInt (f64_as_i64 f))
  | CastFloat, VInt n => Ok (VFloat (f64_of_int n))
  | CastInt, VString s => opt_cast (VInt <$> parse_i64 s)
  | CastFloat, VString s => opt_cast (VFloat <$> parse_f64 s)
  | CastBool, VString s => opt_cast (VBool <$> parse_bool s)
  | CastString, VInt n => Ok (VString (int_to_string n))
  | CastString, VFloat f => Ok (VString (f64_to_string f))
  | CastString, VBool b => Ok (VString (bool_to_string b))
  | CastDate, VDate _ | CastTimestamp, VTimestamp _ => Ok value
  | CastDate, VString s => opt_cast (VDate <$> parse_date s)
  | CastTimestamp, VString s => opt_cast (VTimestamp <$> parse_timestamp s)
  | CastString, VDate d => Ok (VString (format_date d))
  | CastString, VTimestamp t => Ok (VString (format_timestamp t))
  | CastDate, VTimestamp t => Ok (VDate (ts_to_date_serial t))
  | CastTimestamp, VDate d => Ok (VTimestamp (date_serial_to_ts d))
  | _, _ => Err TypeMismatch
  end.

(** ** Arithmetic *)

Definition is_numeric (v : Value) : bool :=
  match v with VInt _ | VFloat _ => true | _ => false end.

(** The shared shape of the subtraction and the multiplication; the guard of
    the caller makes the last case unreachable. *)
Definition arith_rel (fi ff : Z -> Z -> Z) (l r : Value) : exec ValueError Value :=
  match l, r with
  | VInt a, VInt b => Ok (VInt (i64_ow (fi a b)))
  | VFloat a, VFloat b => Ok (VFloat (ff a b))
  | VInt a, VFloat b => Ok (VFloat (ff (f64_of_int a) b))
  | VFloat a, VInt b => Ok (VFloat (ff a (f64_of_int b)))
  | _, _ => Panic
  end.

Definition arith_eval (l : Value) (op : ArithOp) (r : Value) : exec ValueError Value :=
  if is_null l || is_null r then Ok VNull
  else if negb (is_numeric l) || negb (is_numeric r) then Err TypeMismatch
  else
    match op with
    | OpAdd => Ok (value_add l r)
    | OpDiv => exec_map_err (fun e : Empty_set => match e with end) (value_div l r)
    | OpSub => arith_rel Z.sub f64_sub l r
    | OpMul => arith_rel Z.mul f64_mul l r
    end.

Definition interval_eval (op : ArithOp) (interval : IntervalParts) (l : Value) : exec EvalError Value :=
  if is_null l then Ok VNull
  else
    let directed :=
      match op with
      | OpAdd => Some (months interval, micros interval)
      | OpSub => Some (- months interval, i64_ow (- micros interval))
      | _ => None
      end in
    match directed with
    | None => Err EvIntervalOp
    | Some (ms, us) =>
        match l with
        | VDate d =>
            exec_map_err EvInterval (let? d := add_interval_to_date d ms us in Ok (VDate d))
        | VTimestamp t =>
            exec_map_err EvInterval (let? t := add_interval_to_ts t ms us in Ok (VTimestamp t))
        | _ => Err (EvValue TypeMismatch)
        end
    end.

(** ** Scalar functions *)

Record Runtime := mk_runtime { now_micros : Z; powi10 : Z -> Z }.
Existing Class Runtime.

Definition REGISTRY : list (string * Z * Z) :=
  [("UPPER", 1, 1); ("LOWER", 1, 1); ("LENGTH", 1, 1); ("SUBSTR", 2, 3); ("REPLACE", 3, 3);
   ("TRIM", 1, 1); ("ABS", 1, 1); ("ROUND", 1, 2); ("FLOOR", 1, 1); ("CEIL", 1, 1);
   ("NOW", 0, 0); ("DATE", 1, 1); ("YEAR", 1, 1); ("MONTH", 1, 1); ("DAY", 1, 1);
   ("HOUR", 1, 1); ("MINUTE", 1, 1); ("SECOND", 1, 1); ("DATE_TRUNC", 2, 2); ("DATEDIFF", 3, 3)].

Definition registry_find (name : string) : option (string * Z * Z) :=
  find (fun m => String.eqb (fst (fst m)) name) REGISTRY.

Definition is_scalar_function (name : string) : bool :=
  existsb (fun m => String.eqb (fst (fst m)) name) REGISTRY.

Inductive FunctionError := UnknownFunction | WrongArity (min max got : Z).

Definition check_scalar_function (name : string) (argc : Z) : exec FunctionError unit :=
  match registry_find name with
  | None => Err UnknownFunction
  | Some (_, min, max) =>
      if (min <=? argc) && (argc <=? max) then Ok tt else Err (WrongArity min max argc)
  end.

Definition mismatch {A} : exec EvalError A := Err (EvValue TypeMismatch).

Definition string_arg (args : list Value) (i : Z) : exec EvalError (list byte) :=
  let? v := index_get args i in match v with VString s => Ok s | _ => mismatch end.
Definition int_arg (args : list Value) (i : Z) : exec EvalError Z :=
  let? v := index_get args i in match v with VInt n => Ok n | _ => mismatch end.
Definition float_arg (args : list Value) (i : Z) : exec EvalError Z :=
  let? v := index_get args i in
  match v with VInt n => Ok (f64_of_int n) | VFloat f => Ok f | _ => mismatch end.
Definition ymd_arg (args : list Value) (i : Z) : exec EvalError (Z * Z * Z) :=
  let? v := index_get args i in
  match v with
  | VDate d => Ok (date_fields d)
  | VTimestamp t => let '(y, m, d, _, _, _, _) := ts_fields t in Ok (y, m, d)
  | _ => mismatch
  end.
Definition hms_arg (args : list Value) (i : Z) : exec EvalError (Z * Z * Z) :=
  let? v := index_get args i in
  match v with
  | VTimestamp t => let '(_, _, _, h, mi, s, _) := ts_fields t in Ok (h, mi, s)
  | VDate _ => Ok (0, 0, 0)
  | _ => mismatch
  end.
Definition date_val_arg (args : list Value) (i : Z) : exec EvalError Z :=
  let? v := index_get args i in
  match v with VDate d => Ok d | VTimestamp t => Ok (ts_to_date_serial t) | _ => mismatch end.

(** Positions are one-based; the ones before the first are phantoms. *)
Definition substr_chars (s : list byte) (start : Z) (len : option Z) : list byte :=
  let cs := chars s in
  let n := zlen cs in
  let pos := if start <? 0 then n + start + 1 else start in
  match len with
  | None =>
      let from := Z.max (pos - 1) 0 in
      if n <=? from then [] else mjoin (drop (Z.to_nat from) cs)
  | Some len =>
      if 0 <=? len then
        let phantom := if pos <? 1 then i64_ow (1 - pos) else 0 in
        let from := Z.max (pos - 1) 0 in
        let take_ := Z.max (i64_ow (len - phantom)) 0 in
        mjoin (take (Z.to_nat take_) (drop (Z.to_nat from) cs))
      else
        let end_ := Z.min (Z.max (pos - 1) 0) n in
        let begin := sat_sub end_ (wrap64 (- len)) in
        mjoin (slice cs begin end_)
  end.

(** [let (y, _, _) = ymd_arg(args, 0)?] and its like. *)
Definition int_of {A} (m : exec EvalError A) (f : A -> Z) : exec EvalError Value :=
  let? a := m in Ok (VInt (f a)).

Definition round_eval (rt : Runtime) (args : list Value) : exec EvalError Value :=
  let? x := float_arg args 0 in
  let? digits :=
    match args !! 1%nat with
    | Some (VInt n) => Ok n
    | Some (VFloat f) => Ok (f64_as_i64 f)
    | Some _ => mismatch
    | None => Ok 0
    end in
  if 308 <? digits then Ok (VFloat x)
  else if digits <? -308 then Ok (VFloat 0)
  else
    let factor := powi10 rt digits in
    Ok (VFloat (f64_div (f64_round (f64_mul x factor)) factor)).

Definition unit_arg (args : list Value) : exec EvalError TruncUnit :=
  let? s := string_arg args 0 in
  match parse_trunc_unit s with Some u => Ok u | None => Err EvUnit end.

Definition date_trunc_eval (args : list Value) : exec EvalError Value :=
  let? unit := unit_arg args in
  let? v := index_get args 1 in
  match v with
  | VDate d =>
      match unit with
      | Year | Month | Day => Ok (VDate (trunc_date d unit))
      | _ => mismatch
      end
  | VTimestamp t => Ok (VTimestamp (trunc_ts t unit))
  | _ => mismatch
  end.

Definition abs_eval (args : list Value) : exec EvalError Value :=
  let? v := index_get args 0 in
  match v with
  | VInt n => if n =? -9223372036854775808 then Err EvAbsOverflow else Ok (VInt (Z.abs n))
  | VFloat f => Ok (VFloat (f64_abs f))
  | _ => mismatch
  end.

Definition substr_eval (args : list Value) : exec EvalError Value :=
  let? len :=
    match args !! 2%nat with
    | Some _ => let? n := int_arg args 2 in Ok (Some n)
    | None => Ok None
    end in
  let? s := string_arg args 0 in
  let? start := int_arg args 1 in
  Ok (VString (substr_chars s start len)).

Definition replace_eval (args : list Value) : exec EvalError Value :=
  let? from := string_arg args 1 in
  match from with
  | [] => let? s := string_arg args 0 in Ok (VString s)
  | _ =>
      let? s := string_arg args 0 in
      let? to := string_arg args 2 in
      Ok (VString (str_replace s from to))
  end.

(** A registered name without a case would be a panic. *)
Definition eval_scalar (rt : Runtime) (name : string) (args : list Value) : exec EvalError Value :=
  let text (f : list byte -> list byte) := let? s := string_arg args 0 in Ok (VString (f s)) in
  let float (f : Z -> Z) := let? x := float_arg args 0 in Ok (VFloat (f x)) in
  if String.eqb name "UPPER" then text to_ascii_uppercase
  else if String.eqb name "LOWER" then text to_ascii_lowercase
  else if String.eqb name "LENGTH" then
    let? s := string_arg args 0 in Ok (VInt (zlen (chars s)))
  else if String.eqb name "SUBSTR" then substr_eval args
  else if String.eqb name "REPLACE" then replace_eval args
  else if String.eqb name "TRIM" then text (trim_matches (byte_of 32))
  else if String.eqb name "ABS" then abs_eval args
  else if String.eqb name "ROUND" then round_eval rt args
  else if String.eqb name "FLOOR" then float f64_floor
  else if String.eqb name "CEIL" then float f64_ceil
  else if String.eqb name "NOW" then Ok (VTimestamp (now_micros rt))
  else if String.eqb name "DATE" then let? d := date_val_arg args 0 in Ok (VDate d)
  else if String.eqb name "YEAR" then int_of (ymd_arg args 0) (fun '(y, _, _) => y)
  else if String.eqb name "MONTH" then int_of (ymd_arg args 0) (fun '(_, m, _) => m)
  else if String.eqb name "DAY" then int_of (ymd_arg args 0) (fun '(_, _, d) => d)
  else if String.eqb name "HOUR" then int_of (hms_arg args 0) (fun '(h, _, _) => h)
  else if String.eqb name "MINUTE" then int_of (hms_arg args 0) (fun '(_, mi, _) => mi)
  else if String.eqb name "SECOND" then int_of (hms_arg args 0) (fun '(_, _, s) => s)
  else if String.eqb name "DATE_TRUNC" then date_trunc_eval args
  else if String.eqb name "DATEDIFF" then
    let? unit := unit_arg args in
    let? a := index_get args 1 in
    let? b := index_get args 2 in
    exec_map_err EvValue (let? n := datediff unit a b in Ok (VInt n))
  else Panic.

(** ** Evaluation *)

Definition is_datetime (v : Value) : bool :=
  match v with VDate _ | VTimestamp _ => true | _ => false end.
Definition same_datetime (l r : Value) : bool :=
  match l, r with
  | VDate _, VDate _ | VTimestamp _, VTimestamp _ => true
  | _, _ => false
  end.

Definition compare_values_op (op : ComparisonOp) (l r : Value) : exec EvalError Ternary :=
  if is_null l || is_null r then Ok TUnknown
  else if (is_datetime l || is_datetime r) && negb (same_datetime l r) then mismatch
  else
    let? b := exec_map_err EvValue
      match op with
      | OpEq => Ok (equals l r)
      | OpNe => Ok (negb (equals l r))
      | OpGt => value_gt l r
      | OpLt => value_lt l r
      | OpGe => value_ge l r
      | OpLe => value_le l r
      end in
    Ok (ternary_of b).

Definition like_values (v p : Value) : exec EvalError Ternary :=
  if is_null v || is_null p then Ok TUnknown
  else
    match v, p with
    | VString v, VString p => Ok (ternary_of (like_match v p))
    | _, _ => mismatch
    end.

Definition not_ternary (t : Ternary) : Ternary :=
  match t with TTrue => TFalse | TFalse => TTrue | TUnknown => TUnknown end.

(** The value of a column; the default [evaluate] goes through the borrowed
    row and back. *)
Definition column_value (row : list Value) (i : Z) : exec EvalError Value :=
  match map as_value_ref row !! Z.to_nat i with
  | Some r => Ok (to_value r)
  | None => Err (EvColumn i (zlen row))
  end.

Section evaluation.
Context (rt : Runtime).

Fixpoint evaluate (e : Expr) (row : list Value) : exec EvalError Value :=
  match e with
  | ColumnExpression _ i => column_value row i
  | ConstantExpression v => Ok (to_value (as_value_ref v))
  | ParameterExpression _ v => Ok v
  | CaseExpression whens else_ =>
      (fix cases ws :=
         match ws with
         | [] => match else_ with Some e => evaluate e row | None => Ok VNull end
         | (cond, result) :: ws =>
             let? t := evaluate_ternary cond row in
             if bool_decide (t = TTrue) then evaluate result row else cases ws
         end) whens
  | CoalesceExpression args =>
      (fix first args :=
         match args with
         | [] => Ok VNull
         | a :: args =>
             let? v := evaluate a row in
             if negb (is_null v) then Ok v else first args
         end) args
  | CastExpression e target =>
      let? v := evaluate e row in exec_map_err EvValue (cast_value v target)
  | BinaryArithExpression l op r =>
      let? l := evaluate l row in
      let? r := evaluate r row in
      exec_map_err EvValue (arith_eval l op r)
  | IntervalArithExpression l op interval =>
      let? l := evaluate l row in interval_eval op interval l
  | FunctionExpression name args =>
      let? vals :=
        (fix all args :=
           match args with
           | [] => Ok []
           | a :: args =>
               let? v := evaluate a row in
               let? vs := all args in Ok (v :: vs)
           end) args in
      if existsb is_null vals then Ok VNull else eval_scalar rt name vals
  end
with evaluate_ternary (p : Pred) (row : list Value) : exec EvalError Ternary :=
  match p with
  | ComparisonPredicate l op r =>
      let? l := evaluate l row in
      let? r := evaluate r row in compare_values_op op l r
  | ConstantPredicate b => Ok (ternary_of b)
  | LogicalPredicate l OpAnd r =>
      let? l := evaluate_ternary l row in
      if bool_decide (l = TFalse) then Ok TFalse
      else
        let? r := evaluate_ternary r row in
        Ok (match l, r with
            | _, TFalse => TFalse
            | TTrue, TTrue => TTrue
            | _, _ => TUnknown
            end)
  | LogicalPredicate l OpOr r =>
      let? l := evaluate_ternary l row in
      if bool_decide (l = TTrue) then Ok TTrue
      else
        let? r := evaluate_ternary r row in
        Ok (match l, r with
            | _, TTrue => TTrue
            | TFalse, TFalse => TFalse
            | _, _ => TUnknown
            end)
  | LikePredicate e pattern =>
      let? v := evaluate e row in
      let? p := evaluate pattern row in like_values v p
  | IsNullPredicate e =>
      let? v := evaluate e row in Ok (ternary_of (is_null v))
  | NotPredicate inner =>
      let? t := evaluate_ternary inner row in Ok (not_ternary t)
  end.

(** [Predicate::evaluate]: a constant answers without the fold. *)
Definition evaluate_pred (p : Pred) (row : list Value) : exec EvalError bool :=
  match p with
  | ConstantPredicate b => Ok b
  | _ => let? t := evaluate_ternary p row in Ok (fold t)
  end.

(** The borrowed entry point: columns and constants are borrowed, the rest is
    evaluated on a copy of the row and cannot lend a string; a parameter lends
    NULL for one. *)
Definition borrow (v : Value) : exec EvalError ValueRef :=
  match v with VString _ => Err EvNoBorrow | v => Ok (as_value_ref v) end.

Definition evaluate_ref (e : Expr) (row : list ValueRef) : exec EvalError ValueRef :=
  match e with
  | ColumnExpression _ i =>
      match row !! Z.to_nat i with Some r => Ok r | None => Err (EvColumn i (zlen row)) end
  | ConstantExpression v => Ok (as_value_ref v)
  | ParameterExpression _ v =>
      Ok (match v with VString _ => RefNull | v => as_value_ref v end)
  | BinaryArithExpression _ _ _ =>
      let? v := evaluate e (map to_value row) in
      match v with VInt _ | VFloat _ | VNull => Ok (as_value_ref v) | _ => Err EvNoBorrow end
  | IntervalArithExpression _ _ _ =>
      let? v := evaluate e (map to_value row) in
      match v with VDate _ | VTimestamp _ | VNull => Ok (as_value_ref v) | _ => Err EvNoBorrow end
  | _ => let? v := evaluate e (map to_value row) in borrow v
  end.
End evaluation.

(** ** Parameters *)

(** The contents of a cell after the injections, in order. *)
Fixpoint inject_cell (params : list (list byte * Value)) (name : list byte) (v : Value) : Value :=
  match params with
  | [] => v
  | (n, x) :: params => inject_cell params name (if bytes_eqb name n then x else v)
  end.

(** [inject_parameters], and [set_parameter_value] for one pair.  The loop over
    the pairs is pushed to the parameters, which are separate cells. *)
Fixpoint set_parameters (params : list (list byte * Value)) (e : Expr) : Expr :=
  match e with
  | ColumnExpression _ _ | ConstantExpression _ => e
  | ParameterExpression n v => ParameterExpression n (inject_cell params n v)
  | CaseExpression whens else_ =>
      CaseExpression (map (fun '(c, r) => (inject_parameters params c, set_parameters params r)) whens)
        (option_map (set_parameters params) else_)
  | CoalesceExpression args => CoalesceExpression (map (set_parameters params) args)
  | CastExpression e t => CastExpression (set_parameters params e) t
  | BinaryArithExpression l op r =>
      BinaryArithExpression (set_parameters params l) op (set_parameters params r)
  | IntervalArithExpression l op i => IntervalArithExpression (set_parameters params l) op i
  | FunctionExpression n args => FunctionExpression n (map (set_parameters params) args)
  end
with inject_parameters (params : list (list byte * Value)) (p : Pred) : Pred :=
  match p with
  | ComparisonPredicate l op r =>
      ComparisonPredicate (set_parameters params l) op (set_parameters params r)
  | ConstantPredicate b => ConstantPredicate b
  | LogicalPredicate l op r =>
      LogicalPredicate (inject_parameters params l) op (inject_parameters params r)
  | LikePredicate e q => LikePredicate (set_parameters params e) (set_parameters params q)
  | IsNullPredicate e => IsNullPredicate (set_parameters params e)
  | NotPredicate q => NotPredicate (inject_parameters params q)
  end.

(** Whether [set_parameter_value] reports a match; a CASE does not look at its
    conditions. *)
Fixpoint mentions (name : list byte) (e : Expr) : bool :=
  match e with
  | ColumnExpression _ _ | ConstantExpression _ => false
  | ParameterExpression n _ => bytes_eqb n name
  | CaseExpression whens else_ =>
      existsb (fun '(_, r) => mentions name r) whens
      || match else_ with Some e => mentions name e | None => false end
  | CoalesceExpression args => existsb (mentions name) args
  | CastExpression e _ => mentions name e
  | BinaryArithExpression l _ r => mentions name l || mentions name r
  | IntervalArithExpression l _ _ => mentions name l
  | FunctionExpression _ args => existsb (mentions name) args
  end.

Definition set_parameter_value (name : list byte) (v : Value) (e : Expr) : Expr * bool :=
  (set_parameters [(name, v)] e, mentions name e).

(** ** Theorems *)

Lemma list_all_map {A B} (f g : A -> B) l : list_all A (fun a => f a = g a) l -> map f l = map g l.
Proof. induction 1; cbn; by f_equal. Qed.

Lemma bytes_eqb_spec a b : bytes_eqb a b = true <-> a = b.
Proof. apply char_eqb_spec. Qed.

(** *** Injection *)

(** The last value given to a name, if any. *)
Lemma inject_cell_covered params name v w :
  name ∈ params.*1 -> inject_cell params name v = inject_cell params name w.
Proof.
  revert v w. induction params as [|[n x] params IH]; intros v w H; [by apply elem_of_nil in H|].
  cbn [inject_cell]. destruct (bytes_eqb name n) eqn:E; [done|].
  apply IH. cbn in H. apply elem_of_cons in H as [->|H]; [|done].
  by rewrite (proj2 (bytes_eqb_spec n n) eq_refl) in E.
Qed.

Lemma inject_cell_uncovered params name v : name ∉ params.*1 -> inject_cell params name v = v.
Proof.
  induction params as [|[n x] params IH]; [done|]. cbn. rewrite not_elem_of_cons. intros [N H].
  destruct (bytes_eqb name n) eqn:E; [by apply bytes_eqb_spec in E|]. by apply IH.
Qed.

Lemma inject_nil : (forall e, set_parameters [] e = e) /\ (forall p, inject_parameters [] p = p).
Proof.
  apply expr_pred_ind; intros; cbn [set_parameters inject_parameters]; f_equal; try done.
  - match goal with H : list_all _ _ whens |- _ => induction H as [|? [c Hc r Hr] ws _ IH] end;
      cbn [map]; [done|]. by rewrite Hc, Hr, IH.
  - match goal with H : option_all _ _ else_ |- _ => destruct H as [e He|] end; cbn; by rewrite ?He.
  - match goal with H : list_all _ _ args |- _ => induction H as [|e He es _ IH] end; cbn [map]; [done|]. by rewrite IH, He.
  - match goal with H : list_all _ _ args |- _ => induction H as [|e He es _ IH] end; cbn [map]; [done|]. by rewrite IH, He.
Qed.

Lemma inject_cell_app ps qs name v : inject_cell (ps ++ qs) name v = inject_cell qs name (inject_cell ps name v).
Proof. revert v. induction ps as [|[n x] ps IH]; intros v; [done|]. apply IH. Qed.

Lemma inject_app ps qs :
  (forall e, set_parameters (ps ++ qs) e = set_parameters qs (set_parameters ps e))
  /\ (forall p, inject_parameters (ps ++ qs) p = inject_parameters qs (inject_parameters ps p)).
Proof.
  apply expr_pred_ind; intros; cbn [set_parameters inject_parameters]; rewrite ?map_map; f_equal; try done.
  - apply inject_cell_app.
  - match goal with H : list_all _ _ whens |- _ => induction H as [|? [c Hc r Hr] ws _ IH] end;
      cbn [map]; [done|]. by rewrite Hc, Hr, IH.
  - match goal with H : option_all _ _ else_ |- _ => destruct H as [e He|] end; cbn; by rewrite ?He.
  - by apply list_all_map.
  - by apply list_all_map.
Qed.

(** Injecting the parameters of one row leaves no trace of the row before:
    once the later injection names every parameter of the earlier one, the tree
    is what it would be without the earlier one. *)
Theorem injection_overrides ps qs :
  ps.*1 ⊆ qs.*1 ->
  (forall e, set_parameters qs (set_parameters ps e) = set_parameters qs e)
  /\ (forall p, inject_parameters qs (inject_parameters ps p) = inject_parameters qs p).
Proof.
  intros Sub. apply expr_pred_ind; intros; cbn [set_parameters inject_parameters];
    rewrite ?map_map; f_equal; try done.
  - destruct (decide (param_name ∈ qs.*1)); [by apply inject_cell_covered|].
    rewrite (inject_cell_uncovered ps) by set_solver. done.
  - match goal with H : list_all _ _ whens |- _ => induction H as [|? [c Hc r Hr] ws _ IH] end;
      cbn [map]; [done|]. by rewrite Hc, Hr, IH.
  - match goal with H : option_all _ _ else_ |- _ => destruct H as [e He|] end; cbn; by rewrite ?He.
  - by apply list_all_map.
  - by apply list_all_map.
Qed.

Lemma injection_overrides_witness :
  let ps := [(bytes_of_string "o.id", VInt 1)] in
  let qs := [(bytes_of_string "o.id", VInt 2)] in
  (forall e, set_parameters qs (set_parameters ps e) = set_parameters qs e)
  /\ (forall p, inject_parameters qs (inject_parameters ps p) = inject_parameters qs p).
Proof. apply injection_overrides. cbn. set_solver. Defined.

(** *** Functions and their registry *)

Create HintDb safe.

Lemma no_panic_map_err {E F A} (f : E -> F) (m : exec E A) :
  no_panic m -> no_panic (exec_map_err f m).
Proof. by destruct m. Qed.

Lemma no_panic_ok {E A} (a : A) : no_panic (Ok (E:=E) a).
Proof. done. Qed.
Lemma no_panic_err {E A} (e : E) : no_panic (Err (A:=A) e).
Proof. done. Qed.
#[export] Hint Resolve no_panic_map_err no_panic_ok no_panic_err : safe.

(** Panic-freedom of a chain of binds and matches. *)
Ltac safe :=
  repeat match goal with
  | |- no_panic (exec_bind _ _) => apply no_panic_bind; [|intros]
  | |- no_panic (exec_map_err _ _) => apply no_panic_map_err
  | |- no_panic (match ?x with _ => _ end) => destruct x eqn:?
  end; auto with safe.

Section arguments.
Context (args : list Value) (i : Z) (H : 0 <= i < zlen args).

Lemma index_arg_safe : no_panic (index_get (E:=EvalError) args i).
Proof. by apply index_get_no_panic. Qed.
Lemma string_arg_safe : no_panic (string_arg args i).
Proof. pose proof index_arg_safe. unfold string_arg, mismatch. safe. Qed.
Lemma int_arg_safe : no_panic (int_arg args i).
Proof. pose proof index_arg_safe. unfold int_arg, mismatch. safe. Qed.
Lemma float_arg_safe : no_panic (float_arg args i).
Proof. pose proof index_arg_safe. unfold float_arg, mismatch. safe. Qed.
Lemma ymd_arg_safe : no_panic (ymd_arg args i).
Proof.
  pose proof index_arg_safe. unfold ymd_arg, mismatch. apply no_panic_bind; [done|].
  by intros [] _.
Qed.
Lemma hms_arg_safe : no_panic (hms_arg args i).
Proof.
  pose proof index_arg_safe. unfold hms_arg, mismatch. apply no_panic_bind; [done|].
  by intros [] _.
Qed.
Lemma date_val_arg_safe : no_panic (date_val_arg args i).
Proof. pose proof index_arg_safe. unfold date_val_arg, mismatch. safe. Qed.
End arguments.
#[export] Hint Resolve index_arg_safe string_arg_safe int_arg_safe float_arg_safe ymd_arg_safe
  hms_arg_safe date_val_arg_safe : safe.
#[export] Hint Extern 2 (_ <= _ < _) => lia : safe.

Lemma datediff_safe unit a b : no_panic (datediff unit a b).
Proof.
  unfold datediff. destruct a, b; try done; destruct (expand _) as [[[[]]]|]; try done;
    destruct (expand _) as [[[[]]]|]; try done; by destruct unit.
Qed.
#[export] Hint Resolve datediff_safe : safe.

(** The plan-time check and the dispatch agree: a call that passes the check of
    name and number of arguments never reaches the unreachable case or an
    argument that is not there. *)
Lemma eval_scalar_safe rt name args :
  check_scalar_function name (zlen args) = Ok tt -> no_panic (eval_scalar rt name args).
Proof.
  unfold check_scalar_function, registry_find. cbn [find REGISTRY fst].
  repeat match goal with
  | |- context [if String.eqb ?s name then _ else _] =>
      destruct (String.eqb_spec s name) as [<-|_];
      [destruct (_ && _) eqn:B; [intros _|done];
       rewrite andb_true_iff, !Z.leb_le in B; unfold eval_scalar; cbn [String.eqb Ascii.eqb Bool.eqb]|]
  end; [..|done].
  all: unfold substr_eval, replace_eval, abs_eval, round_eval, date_trunc_eval, unit_arg, int_of, mismatch.
  all: safe.
  match goal with H : args !! 2%nat = Some _ |- _ => apply lookup_lt_Some in H end.
  apply int_arg_safe. unfold zlen. lia.
Qed.

(** *** Panics *)

(** What the planner builds, divisions apart: every call is registered with the
    arity it has. *)
Fixpoint checked (e : Expr) : Prop :=
  match e with
  | ColumnExpression _ _ | ConstantExpression _ | ParameterExpression _ _ => True
  | CaseExpression whens else_ =>
      (fix all ws := match ws with [] => True | (c, r) :: ws => checked_pred c /\ checked r /\ all ws end) whens
      /\ match else_ with Some e => checked e | None => True end
  | CoalesceExpression args =>
      (fix all es := match es with [] => True | e :: es => checked e /\ all es end) args
  | CastExpression e _ => checked e
  | BinaryArithExpression l op r => op <> OpDiv /\ checked l /\ checked r
  | IntervalArithExpression l _ _ => checked l
  | FunctionExpression name args =>
      check_scalar_function name (zlen args) = Ok tt
      /\ (fix all es := match es with [] => True | e :: es => checked e /\ all es end) args
  end
with checked_pred (p : Pred) : Prop :=
  match p with
  | ComparisonPredicate l _ r => checked l /\ checked r
  | ConstantPredicate _ => True
  | LogicalPredicate l _ r => checked_pred l /\ checked_pred r
  | LikePredicate e q => checked e /\ checked q
  | IsNullPredicate e => checked e
  | NotPredicate q => checked_pred q
  end.

Lemma value_rel_safe ri rs rf rb a b : no_panic (value_rel ri rs rf rb a b).
Proof. by destruct a, b. Qed.
Lemma cast_value_safe v t : no_panic (cast_value v t).
Proof. destruct t, v; try done; cbn [cast_value opt_cast]; unfold opt_cast; by case_match. Qed.
Lemma arith_eval_safe l op r : op <> OpDiv -> no_panic (arith_eval l op r).
Proof. intros N. unfold arith_eval. destruct op; [..|done]; by destruct l, r. Qed.
Lemma interval_eval_safe op i l : no_panic (interval_eval op i l).
Proof.
  unfold interval_eval. destruct (is_null l); [done|].
  assert (D : forall d ms us, no_panic (add_interval_to_date d ms us)).
  { intros. unfold add_interval_to_date. repeat case_match; done. }
  assert (T : forall t ms us, no_panic (add_interval_to_ts t ms us)).
  { intros. unfold add_interval_to_ts. repeat case_match; done. }
  destruct op; try done; destruct l; try done; safe.
Qed.
Lemma compare_values_safe op l r : no_panic (compare_values_op op l r).
Proof. unfold compare_values_op, mismatch. safe; apply value_rel_safe. Qed.
Lemma like_values_safe v p : no_panic (like_values v p).
Proof. unfold like_values, mismatch. safe. Qed.
#[export] Hint Resolve cast_value_safe arith_eval_safe interval_eval_safe compare_values_safe
  like_values_safe : safe.

Lemma evaluate_all_length rt row args vals :
  (fix all args :=
     match args with
     | [] => Ok []
     | a :: args => let? v := evaluate rt a row in let? vs := all args in Ok (v :: vs)
     end) args = Ok vals -> length vals = length args.
Proof.
  revert vals. induction args as [|a args IH]; intros vals H; inv_exec; [done|].
  cbn. f_equal. by apply IH.
Qed.



(** Dividing the least integer by -1 panics: the overflow is not an error
    value of the expression. *)
Theorem division_panics rt :
  evaluate rt (BinaryArithExpression (ConstantExpression (VInt (-9223372036854775808))) OpDiv
    (ConstantExpression (VInt (-1)))) [] = Panic.
Proof. done. Qed.

(** *** Three-valued logic *)

(** [False < Unknown < True]. *)
Definition and_ternary (a b : Ternary) : Ternary :=
  match a, b with
  | TFalse, _ | _, TFalse => TFalse
  | TUnknown, _ | _, TUnknown => TUnknown
  | TTrue, TTrue => TTrue
  end.
Definition or_ternary (a b : Ternary) : Ternary := not_ternary (and_ternary (not_ternary a) (not_ternary b)).

(** The connectives are Kleene's: AND is the minimum and OR the maximum of
    the sides that have values, a side that already decides hides the error of
    the other, and De Morgan's laws and double negation hold on every row,
    errors included. *)
Theorem logic_is_kleene rt l r row :
  let ev p := evaluate_ternary rt p row in
  (forall a b, ev l = Ok a -> ev r = Ok b ->
     ev (LogicalPredicate l OpAnd r) = Ok (and_ternary a b)
     /\ ev (LogicalPredicate l OpOr r) = Ok (or_ternary a b))
  /\ (ev l = Ok TFalse -> ev (LogicalPredicate l OpAnd r) = Ok TFalse)
  /\ (ev l = Ok TTrue -> ev (LogicalPredicate l OpOr r) = Ok TTrue)
  /\ ev (NotPredicate (LogicalPredicate l OpAnd r))
     = ev (LogicalPredicate (NotPredicate l) OpOr (NotPredicate r))
  /\ ev (NotPredicate (LogicalPredicate l OpOr r))
     = ev (LogicalPredicate (NotPredicate l) OpAnd (NotPredicate r))
  /\ ev (NotPredicate (NotPredicate l)) = ev l.
Proof.
  cbv zeta. cbn [evaluate_ternary].
  destruct (evaluate_ternary rt l row) as [[]| |], (evaluate_ternary rt r row) as [[]| |];
    split_and!; try done; intros [] [] ? ?; simplify_eq; done.
Qed.

(** *** Casts *)

Definition printable (v : Value) : Prop :=
  match v with
  | VInt n => in_i64 n
  | VBool _ => True
  | VDate d => 0 <= d <= MAX_DATE_SERIAL
  | VTimestamp t => ts_in_range t
  | _ => False
  end.

Definition type_of (v : Value) : CastType :=
  match v with
  | VInt _ => CastInt
  | VFloat _ => CastFloat
  | VBool _ => CastBool
  | VDate _ => CastDate
  | VTimestamp _ => CastTimestamp
  | _ => CastString
  end.

(** A value cast to text and back to its type is itself: every integer,
    Boolean, and date or timestamp of the years 1 to 9999. *)
Theorem cast_text_roundtrip v :
  printable v ->
  (let? s := cast_value v CastString in cast_value s (type_of v)) = Ok v.
Proof.
  destruct v as [n|s| |f|b|d|t]; cbn [printable type_of cast_value exec_bind]; try done; intros H.
  - by rewrite parse_int_to_string.
  - by destruct b.
  - by rewrite (proj2 (date_text_parses _ _) (conj H eq_refl)).
  - by rewrite timestamp_text_parses.
Qed.

Lemma cast_text_roundtrip_witness :
  (let? s := cast_value (VInt (-42)) CastString in cast_value s CastInt) = Ok (VInt (-42)).
Proof. apply (cast_text_roundtrip (VInt (-42))). vm_compute. by split. Defined.

(** *** The borrowed entry point *)

(** Where the borrowed evaluation answers, it answers what the owned one
    does, on every row; only a parameter holding a string is lent as NULL. *)
Theorem evaluate_ref_agrees rt e row r :
  (forall n s, e <> ParameterExpression n (VString s)) ->
  evaluate_ref rt e (map as_value_ref row) = Ok r -> evaluate rt e row = Ok (to_value r).
Proof.
  intros N. assert (I : forall v, to_value (as_value_ref v) = v) by (by intros []).
  assert (M : map to_value (map as_value_ref row) = row).
  { rewrite map_map. rewrite <- (map_id row) at 2. by apply map_ext. }
  destruct e; cbn [evaluate_ref]; try rewrite M.
  1: { cbn [evaluate]. unfold column_value. case_match; [by intros [= ->]|done]. }
  1: { by intros [= <-]. }
  1: { cbn [evaluate]. destruct value; intros [= <-]; try done. by destruct (N param_name s). }
  all: intros H; apply exec_bind_Ok in H as (v & E & H); rewrite E; f_equal; destruct v; try done;
    cbn in H; injection H as <-; done.
Qed.

Lemma evaluate_ref_agrees_witness :
  evaluate (mk_runtime 0 (fun _ => 0)) (CastExpression (ColumnExpression [] 0) CastInt)
    [VString (bytes_of_string "17")] = Ok (to_value (RefInt 17)).
Proof. apply evaluate_ref_agrees; [done|]. reflexivity. Defined.
