(* ===== verification/Table.v ===== *)
(** * Tables

    [src/storage/data/table_manager.rs]: the metadata of a table as the
    executors share it, the keys of its secondary indexes, and the state that
    refuses readers while a column is being dropped.  [src/storage/error.rs]:
    the errors of the storage layer an executor passes on.

    An index manager is the root of its tree and its reverse map; the pages are
    in the pool. *)

From Stdlib Require Import ZArith Strings.Byte Lia.
From stdpp Require Import base tactics list numbers gmap.
From S2P Require Import Prelude RowKey PageLayout Values IndexKey Tuple Version TxManager Overflow DataPage DataScan.
From S2P Require Import BTreeNode BTree IndexManager DateTime.
Import Key RowId.
#[local] Open Scope Z_scope.

(** ** Errors *)

Inductive StoreError :=
| PageError (e : StorageError)
| IndexError (e : BtError)
| TupleFailed (e : TupleError)
| ScanFailed (e : ScanError)
| ReadRefused (table : list byte)
| UnregisteredIndex (name : list byte)
| PredicateError
| DuplicateKey
| RowKeyNotFound
| ColumnNotFound (column : list byte)
| NullConstraintViolation (column : list byte)
| KeyTypeMismatch (column : list byte) (actual : Value)
| ColumnTypeMismatch (column : list byte) (expected : ColumnType) (actual : Value)
| BadDateTime (e : DateTimeError)
| AssignmentFailed
| NoUniqueIndex (column : list byte)
| UnmaterializedParameter (index : nat)
| TailCycle (table : list byte)
| TxFailed (e : TxManager.TxError)
| VersionCycle (tx : Z) (table : list byte).

(** ** The in-flight state of a dropped column *)

Module Narrowing.

Record NarrowingState := mk_narrowing {
  narrowing_table : list byte; owner : Z; next_token : Z; published : bool }.

Definition narrowing_new (table : list byte) : NarrowingState := mk_narrowing table 0 1 false.
Definition is_in_flight (s : NarrowingState) : bool := published s.
Definition add_column_must_wait (s : NarrowingState) : bool := negb (owner s =? 0) || published s.

Definition try_acquire (s : NarrowingState) : option Z * NarrowingState :=
  let token := next_token s in
  let next := wrap64 (token + 1) in
  if owner s =? 0 then (Some token, mk_narrowing (narrowing_table s) token next (published s))
  else (None, mk_narrowing (narrowing_table s) (owner s) next (published s)).

Definition publish_narrowing (s : NarrowingState) (token : Z) : bool * NarrowingState :=
  if owner s =? token then (true, mk_narrowing (narrowing_table s) (owner s) (next_token s) true)
  else (false, s).

Definition clear_narrowing (s : NarrowingState) (token : Z) : bool * NarrowingState :=
  if owner s =? token then (true, mk_narrowing (narrowing_table s) 0 (next_token s) false)
  else (false, s).

Definition narrowing_release (s : NarrowingState) (token : Z) : bool * NarrowingState := clear_narrowing s token.

Definition ensure_readable (s : NarrowingState) : exec StoreError unit :=
  if is_in_flight s then Err (ReadRefused (narrowing_table s)) else Ok tt.

End Narrowing.
Import Narrowing.

(** ** Metadata *)

Record SecondaryIndexMeta := mk_secondary {
  si_name : list byte;
  column_index : nat;
  generation : Z;
  extra_column_indexes : list nat;
  si_index : IndexManager }.

Record TableMeta := mk_table {
  table_name : list byte;
  columns : list (list byte * ColumnType);
  not_null : list bool;
  pk_column : list byte;
  pk_index : nat;
  index_manager : IndexManager;
  unique_indexes : list (nat * IndexManager);
  secondary_indexes : list SecondaryIndexMeta;
  column_defaults : list (option Value);
  page_head : Z;
  page_tail : Z;
  table_narrowing : NarrowingState }.

Definition table_schema (t : TableMeta) : list ColumnType := (columns t).*2.

(** The types and values at the positions of an index, in order; [None] when a
    position is missing. *)
Fixpoint pick_columns (schema : list ColumnType) (values : list Value) (idxs : list nat)
    : option (list ColumnType * list Value) :=
  match idxs with
  | [] => Some ([], [])
  | i :: idxs =>
      c ← schema !! i; v ← values !! i;
      '(cs, vs) ← pick_columns schema values idxs;
      Some (c :: cs, v :: vs)
  end.

Definition derive_row_key (schema : list ColumnType) (values : list Value) (column_index : nat)
    (extra_column_indexes : list nat) (generation : Z) : option Key :=
  '(cols, picked) ← pick_columns schema values (column_index :: extra_column_indexes);
  derive_secondary_index_key cols picked generation.

Definition derive_key (s : SecondaryIndexMeta) (schema : list ColumnType) (values : list Value) : option Key :=
  derive_row_key schema values (column_index s) (extra_column_indexes s) (generation s).
