(* ===== verification/Budget.v ===== *)
(** * The memory budget of a statement

    [src/executor/query_budget.rs], and the computations of the executors,
    which share the budget of their statement.  The counter is a [u64] that
    wraps; the byte counts of resident rows are sizes of memory and are
    exact.  A computation returns nothing when its fuel is spent; after an
    error the statement ends, so the state of its executors is not kept. *)

From Stdlib Require Import Strings.String ZArith Strings.Byte Lia List.
From stdpp Require Import base tactics list numbers gmap.
From S2P Require Import Table.
From S2P Require Import Prelude RowKey Values Text DateTime Like Expr.
#[local] Open Scope Z_scope.

(** ** Sizes *)

Definition VALUE_BYTES : Z := 16.
Definition string_bytes (s : list byte) : Z := VALUE_BYTES + zlen s.
Definition value_bytes (v : Value) : Z :=
  match v with VString s => string_bytes s | _ => VALUE_BYTES end.
Definition sum_of {A} (f : A -> Z) (l : list A) : Z := fold_right (fun a n => f a + n) 0 l.
Definition row_bytes (row : list Value) : Z := sum_of value_bytes row.
Definition rows_bytes (rows : list (list Value)) : Z := sum_of row_bytes rows.
Definition param_key_bytes (params : list (list byte * Value)) : Z :=
  sum_of (fun '(name, value) => string_bytes name + value_bytes value) params.

(** ** The budget *)

Record QueryBudget := mk_budget { limit : Z; used : Z }.
Definition budget_new (limit : Z) : QueryBudget := mk_budget limit 0.
Definition unlimited : QueryBudget := budget_new 0.

Inductive QueryError :=
| QueryMemoryExceeded (limit : Z)
| ExecutionError (e : EvalError)
| CorrelatedColumnNotFound (column : list byte)
| SubqueryReturnsMultipleRow
| UnexpectedPlan
| TableNotFound (table : list byte)
| StorageFailed (e : StoreError).

(** Whether the charge fits, and the counter after it: one that does not fit is
    taken back. *)
Definition charge (bytes : Z) (b : QueryBudget) : exec QueryError unit * QueryBudget :=
  if (limit b =? 0) || (bytes =? 0) then (Ok tt, b)
  else
    let added := wrap64 (used b + bytes) in
    if limit b <? Z.min (used b + bytes) u64_max then
      (Err (QueryMemoryExceeded (limit b)), mk_budget (limit b) (wrap64 (added - bytes)))
    else (Ok tt, mk_budget (limit b) added).

Definition release (bytes : Z) (b : QueryBudget) : QueryBudget :=
  if (limit b =? 0) || (bytes =? 0) then b
  else mk_budget (limit b) (wrap64 (used b - bytes)).

(** ** Computations under a budget *)

Definition qm (A : Type) : Type := QueryBudget -> option (exec QueryError A * QueryBudget).

Definition q_ret {A} (a : A) : qm A := fun b => Some (Ok a, b).
Definition q_lift {A} (m : exec QueryError A) : qm A := fun b => Some (m, b).
Definition q_spent {A} : qm A := fun _ => None.
Definition q_bind {A B} (m : qm A) (k : A -> qm B) : qm B := fun b =>
  match m b with
  | Some (Ok a, b) => k a b
  | Some (Err e, b) => Some (Err e, b)
  | Some (Panic, b) => Some (Panic, b)
  | None => None
  end.

Notation "'let!' p ':=' c 'in' k" := (q_bind c (fun p => k))
  (at level 10, p pattern, c at level 200, k at level 200) : rust_scope.

Definition q_charge (bytes : Z) : qm unit := fun b => Some (charge bytes b).
Definition q_release (bytes : Z) : qm unit := fun b => Some (Ok tt, release bytes b).
Definition q_limit : qm Z := fun b => Some (Ok (limit b), b).

(** Evaluation inside an executor: the error of the expression is wrapped. *)
Definition q_eval {A} (m : exec EvalError A) : qm A := q_lift (exec_map_err ExecutionError m).

(** A loop whose body goes on with [inl] and ends with [inr]. *)
Fixpoint q_loop {A R} (fuel : nat) (body : A -> qm (A + R)) (a : A) : qm R :=
  match fuel with
  | O => q_spent
  | S fuel =>
      let! r := body a in
      match r with
      | inl a => q_loop fuel body a
      | inr r => q_ret r
      end
  end.

(** ** More fuel *)

(** The second computation answers whenever the first does, the same. *)
Definition qle {A} (m1 m2 : qm A) : Prop := forall b r, m1 b = Some r -> m2 b = Some r.

#[global] Instance qle_preorder {A} : PreOrder (@qle A).
Proof. split; [by intros m b r|intros m1 m2 m3 H1 H2 b r E; by apply H2, H1]. Qed.

#[global] Instance q_bind_mono {A B} :
  Proper (qle ==> pointwise_relation A qle ==> qle) (@q_bind A B).
Proof.
  intros m1 m2 Hm k1 k2 Hk b r E. unfold q_bind in *.
  destruct (m1 b) as [p|] eqn:E1; [|done]. rewrite (Hm _ _ E1).
  destruct p as [[a|e|] b']; try done. by apply Hk.
Qed.

Lemma q_loop_mono {A R} n m (body1 body2 : A -> qm (A + R)) a :
  (n <= m)%nat -> (forall a, qle (body1 a) (body2 a)) -> qle (q_loop n body1 a) (q_loop m body2 a).
Proof.
  intros L H. revert m a L. induction n as [|n IH]; intros m a L; [by intros b r|].
  destruct m as [|m]; [lia|]. cbn [q_loop]. apply q_bind_mono; [apply H|].
  intros [a'|r]; [apply IH; lia|done].
Qed.

(** ** No limit *)

(** What a computation answers under a limit, it answers without one. *)
Definition tame {A} (m : qm A) : Prop :=
  forall b a b', m b = Some (Ok a, b') -> m unlimited = Some (Ok a, unlimited).

Lemma tame_ret {A} (a : A) : tame (q_ret a).
Proof. by intros b x b' [= -> ->]. Qed.
Lemma tame_lift {A} (m : exec QueryError A) : tame (q_lift m).
Proof. by intros b x b' [= -> ->]. Qed.
Lemma tame_eval {A} (m : exec EvalError A) : tame (q_eval m).
Proof. apply tame_lift. Qed.
Lemma tame_spent {A} : tame (@q_spent A).
Proof. done. Qed.
Lemma tame_charge n : tame (q_charge n).
Proof. by intros b [] b' _. Qed.
Lemma tame_release n : tame (q_release n).
Proof. by intros b [] b' _. Qed.

Lemma tame_bind {A B} (m : qm A) (k : A -> qm B) :
  tame m -> (forall a, tame (k a)) -> tame (q_bind m k).
Proof.
  intros Hm Hk b x b' E. unfold q_bind in *.
  destruct (m b) as [[[a| |] b1]|] eqn:Em; try done.
  rewrite (Hm _ _ _ Em). by apply (Hk a b1 x b').
Qed.

Lemma tame_loop {A R} n (body : A -> qm (A + R)) a :
  (forall a, tame (body a)) -> tame (q_loop n body a).
Proof.
  intros H. revert a. induction n as [|n IH]; intros a; [apply tame_spent|].
  cbn [q_loop]. apply tame_bind; [apply H|]. intros [a'|r]; [apply IH|apply tame_ret].
Qed.

Create HintDb tame.
#[export] Hint Resolve tame_ret tame_lift tame_eval tame_spent tame_charge tame_release tame_bind tame_loop : tame.

(** ** Accounting *)

Inductive BudgetOp := Charge (bytes : Z) | Release (bytes : Z).

(** The verdicts of the charges and the counter at the end. *)
Fixpoint budget_run (ops : list BudgetOp) (b : QueryBudget) : list bool * Z :=
  match ops with
  | [] => ([], used b)
  | Charge n :: ops =>
      let (r, b) := charge n b in
      let (vs, u) := budget_run ops b in (is_ok r :: vs, u)
  | Release n :: ops => budget_run ops (release n b)
  end.

(** The bytes resident, with no counter that could wrap: a charge counts when it
    fits. *)
Fixpoint resident_run (limit : Z) (ops : list BudgetOp) (resident : Z) : list bool * Z :=
  match ops with
  | [] => ([], resident)
  | Charge n :: ops =>
      let fits := resident + n <=? limit in
      let (vs, u) := resident_run limit ops (if fits then resident + n else resident) in
      (fits :: vs, u)
  | Release n :: ops => resident_run limit ops (resident - n)
  end.

(** Only resident bytes are released; a size is a [u64]. *)
Fixpoint releases_resident (limit : Z) (ops : list BudgetOp) (resident : Z) : Prop :=
  match ops with
  | [] => True
  | Charge n :: ops =>
      in_u64 n
      /\ releases_resident limit ops (if resident + n <=? limit then resident + n else resident)
  | Release n :: ops => 0 <= n <= resident /\ releases_resident limit ops (resident - n)
  end.

Lemma budget_run_exact limit ops r :
  0 < limit < u64_max -> 0 <= r <= limit -> releases_resident limit ops r ->
  budget_run ops (mk_budget limit r) = resident_run limit ops r
  /\ 0 <= snd (resident_run limit ops r) <= limit.
Proof.
  intros L. revert r.
  induction ops as [|[n|n] ops IH]; intros r B R; cbn [budget_run resident_run releases_resident] in *; [done|..].
  - destruct R as [N R]. unfold charge. cbn [Budget.limit used].
    rewrite (proj2 (Z.eqb_neq limit _)) by lia. cbn [orb].
    destruct (Z.eqb_spec n 0) as [->|Nz].
    { rewrite Z.add_0_r in *. rewrite (proj2 (Z.leb_le r limit)) in * by lia.
      destruct (IH r B R) as [-> I]. by destruct (resident_run limit ops r). }
    unfold in_u64 in N. destruct (Z.leb_spec (r + n) limit) as [F|F].
    + rewrite (proj2 (Z.ltb_ge _ _)) by lia. unfold wrap64. rewrite Z.mod_small by word_lia.
      destruct (IH (r + n) ltac:(lia) R) as [-> I]. by destruct (resident_run limit ops (r + n)).
    + rewrite (proj2 (Z.ltb_lt _ _)) by word_lia.
      replace (wrap64 (wrap64 (r + n) - n)) with r.
      2: { unfold wrap64. rewrite Zminus_mod_idemp_l, Z.add_simpl_r, Z.mod_small by word_lia. done. }
      destruct (IH r B R) as [-> I]. by destruct (resident_run limit ops r).
  - destruct R as [N R]. unfold release. cbn [Budget.limit used].
    rewrite (proj2 (Z.eqb_neq limit _)) by lia. cbn [orb].
    destruct (Z.eqb_spec n 0) as [->|Nz].
    { rewrite Z.sub_0_r in *. by apply IH. }
    unfold wrap64. rewrite Z.mod_small by word_lia. apply IH; [lia|done].
Qed.

(** C39: Under a limit the counter is the number of resident bytes: it never wraps
    and never exceeds the limit, a charge is refused exactly when it would, and
    a refused charge leaves the counter as it was. *)
Theorem budget_exact limit ops :
  0 < limit < u64_max -> releases_resident limit ops 0 ->
  budget_run ops (budget_new limit) = resident_run limit ops 0
  /\ 0 <= snd (resident_run limit ops 0) <= limit.
Proof. intros L R. apply budget_run_exact; [done|lia|done]. Qed.

Lemma budget_exact_witness :
  budget_run [Charge 20; Charge 20; Release 20; Charge 20] (budget_new 32)
    = resident_run 32 [Charge 20; Charge 20; Release 20; Charge 20] 0
  /\ 0 <= snd (resident_run 32 [Charge 20; Charge 20; Release 20; Charge 20] 0) <= 32.
Proof. apply budget_exact; [word_lia|]. vm_compute. intuition discriminate. Defined.
