(* ===== verification/Executor.v ===== *)
(** * The executor interface and the row operators

    [src/executor/executor_trait.rs] with [result.rs], the sources
    [derived_scan.rs] and [single_row.rs], and the operators that pass rows on
    one by one: [filter.rs], [having.rs], [projection.rs], [limit.rs].

    [Executor] is the trait: [next] under fuel, which bounds the loops inside
    one call.  [ExecutorLaws] is what the operators promise each other: more
    fuel changes no answer, an executor that ended stays ended, and a memory
    limit changes no row.  [yields] is the stream an executor produces, to its
    end or its first error; every operator is proved to turn the streams of its
    inputs into the stream of a list function. *)

From Stdlib Require Import Strings.String ZArith Strings.Byte Lia List.
From stdpp Require Import base tactics list numbers gmap.
From S2P Require Import Prelude RowKey Values Text DateTime Like Expr Budget.
Import RowId.
#[local] Open Scope Z_scope.

Abbreviation Row := (list Value).

Inductive ExecResult :=
| ResRowId (row_id : RowId)
| ResAffectedRows (n : Z)
| ResRow (row : Row).

Class Executor (Src : Type) := {
  next : nat -> Src -> qm (option ExecResult * Src);
  finished : Src -> Prop
}.

Class ExecutorLaws (Src : Type) `{Executor Src} := {
  next_mono n m s : (n <= m)%nat -> qle (next n s) (next m s);
  next_tame n s : tame (next n s);
  next_ends n s b s' b' : next n s b = Some (Ok (None, s'), b') -> finished s';
  next_finished n s b :
    finished s -> (0 < n)%nat -> exists s', next n s b = Some (Ok (None, s'), b) /\ finished s'
}.

(** ** Streams *)

(** The rows of an executor without a memory limit, and how they end. *)
Inductive yields {Src} `{Executor Src} : Src -> list ExecResult -> exec QueryError unit -> Prop :=
| yields_end n s s' :
    next n s unlimited = Some (Ok (None, s'), unlimited) -> yields s [] (Ok tt)
| yields_error n s e b : next n s unlimited = Some (Err e, b) -> yields s [] (Err e)
| yields_panic n s b : next n s unlimited = Some (Panic, b) -> yields s [] Panic
| yields_next n s r s' rs o :
    next n s unlimited = Some (Ok (Some r, s'), unlimited) -> yields s' rs o -> yields s (r :: rs) o.

Section streams.
Context {Src : Type} `{Executor Src} `{!ExecutorLaws Src}.

Lemma next_agree n m s b r r' : next n s b = Some r -> next m s b = Some r' -> r = r'.
Proof.
  intros E E'. apply (next_mono n (n `max` m) s) in E; [|lia].
  apply (next_mono m (n `max` m) s) in E'; [|lia]. congruence.
Qed.

(** An executor has one stream. *)
Lemma yields_agree s rs o rs' o' : yields s rs o -> yields s rs' o' -> rs = rs' /\ o = o'.
Proof.
  intros Y. revert rs' o'.
  induction Y as [n s s1 E|n s e b E|n s b E|n s r s1 rs o E _ IH]; intros rs' o' Y';
    destruct Y' as [m t t1 E'|m t e' b' E'|m t b' E'|m t r' t1 rs' o' E' Y'];
    pose proof (next_agree _ _ _ _ _ _ E E'); simplify_eq; try done.
  destruct (IH _ _ Y') as [-> ->]. done.
Qed.
End streams.

(** ** Draining an input *)

(** [while let Some(result) = input.next()], the rows given to [f] and the
    other results skipped. *)
Definition drain_body {Src A} `{Executor Src} (n : nat) (f : A -> Row -> qm A) (st : Src * A)
    : qm ((Src * A) + (A * Src)) :=
  let (s, a) := st in
  let! (r, s) := next n s in
  match r with
  | None => q_ret (inr (a, s))
  | Some (ResRow row) => let! a := f a row in q_ret (inl (s, a))
  | Some _ => q_ret (inl (s, a))
  end.

Definition drain {Src A} `{Executor Src} (n : nat) (f : A -> Row -> qm A) (s : Src) (a : A) : qm (A * Src) :=
  q_loop n (drain_body n f) (s, a).

(** The rows of a stream. *)
Definition rows_of (rs : list ExecResult) : list Row :=
  omap (fun r => match r with ResRow row => Some row | _ => None end) rs.

Section draining.
Context {Src : Type} `{Executor Src} `{!ExecutorLaws Src} {A : Type}.
Implicit Types f : A -> Row -> qm A.

Lemma drain_mono n m f g s a :
  (n <= m)%nat -> (forall a row, qle (f a row) (g a row)) -> qle (drain n f s a) (drain m g s a).
Proof.
  intros L Hf. apply q_loop_mono; [done|]. intros [t x]. unfold drain_body.
  apply q_bind_mono; [by apply next_mono|]. intros [[[]|] t']; try done.
  by apply q_bind_mono.
Qed.

Lemma drain_tame n f s a : (forall a row, tame (f a row)) -> tame (drain n f s a).
Proof.
  intros Hf. apply tame_loop. intros [t x]. unfold drain_body.
  apply tame_bind; [apply next_tame|]. intros [[[]|] t']; auto with tame.
Qed.

(** The accumulator, in order, without a limit. *)
Fixpoint accumulate (f : A -> Row -> qm A) (rows : list Row) (a : A) : option (exec QueryError A) :=
  match rows with
  | [] => Some (Ok a)
  | row :: rows =>
      match f a row unlimited with
      | Some (Ok a, _) => accumulate f rows a
      | Some (Err e, _) => Some (Err e)
      | Some (Panic, _) => Some Panic
      | None => None
      end
  end.

(** A complete input drains into the accumulation of its rows. *)
Lemma drain_ok f s rs a a' :
  (forall a row, tame (f a row)) ->
  yields s rs (Ok tt) -> accumulate f (rows_of rs) a = Some (Ok a') ->
  exists n s', drain n f s a unlimited = Some (Ok (a', s'), unlimited) /\ finished s'.
Proof.
  intros Hf Y. remember (Ok tt) as o eqn:Eo. revert a. induction Y as [n s s1 E|n s e b E|n s b E|n s r s1 rs o E Y IH];
    intros a Ha; try done.
  - cbn in Ha. injection Ha as ->. exists (S n), s1. split; [|by eapply next_ends].
    unfold drain. cbn [q_loop]. unfold q_bind, drain_body.
    unfold q_bind. rewrite (next_mono n (S n) s ltac:(lia) _ _ E). done.
  - assert (St : exists a1, accumulate f (rows_of rs) a1 = Some (Ok a') /\
      forall k, (S n <= k)%nat -> drain_body k f (s, a) unlimited = Some (Ok (inl (s1, a1)), unlimited)).
    { assert (D : forall k, (S n <= k)%nat -> next k s unlimited = Some (Ok (Some r, s1), unlimited))
        by (intros k K; by apply (next_mono n k s ltac:(lia))).
      destruct r as [id|c|row]; cbn in Ha.
      1, 2: exists a; split; [done|]; intros k K; unfold drain_body, q_bind; by rewrite D.
      destruct (f a row unlimited) as [[[a1| |] b1]|] eqn:Ef; try done. exists a1. split; [done|].
      intros k K. unfold drain_body, q_bind. rewrite D by done. by rewrite (Hf _ _ _ _ _ Ef). }
    destruct St as (a1 & Ha1 & St). destruct (IH Eo a1 Ha1) as (m & s' & D & F).
    exists (S (n `max` m)), s'. split; [|done]. unfold drain. cbn [q_loop]. unfold q_bind at 1.
    rewrite St by lia. unfold drain in D.
    eapply q_loop_mono in D; [exact D|lia|].
    intros [t x]. unfold drain_body. apply q_bind_mono; [apply next_mono; lia|by intros [[[]|] t']].
Qed.

(** A failure, at another type. *)
Definition failure {B C} (o : exec QueryError B) : option (exec QueryError C) :=
  match o with Ok _ => None | Err e => Some (Err e) | Panic => Some Panic end.

(** How a drain fails: the accumulation fails, or it succeeds and the input
    fails. *)
Definition drain_failure {C} (acc : option (exec QueryError A)) (o : exec QueryError unit)
    : option (exec QueryError C) :=
  match acc with
  | Some (Ok _) => failure o
  | Some o => failure o
  | None => None
  end.

Lemma drain_fails f s rs o a (r : exec QueryError (A * Src)) :
  (forall a row, tame (f a row)) ->
  yields s rs o -> drain_failure (accumulate f (rows_of rs) a) o = Some r ->
  exists n b, drain n f s a unlimited = Some (r, b).
Proof.
  intros Hf Y. revert a. induction Y as [n s s1 E|n s e b E|n s b E|n s x s1 rs o E Y IH]; intros a Ha; try done.
  1, 2: cbn in Ha; injection Ha as <-; exists (S n), b; unfold drain; cbn [q_loop]; unfold q_bind, drain_body;
    unfold q_bind; by rewrite (next_mono n (S n) s ltac:(lia) _ _ E).
  assert (D : forall k, (S n <= k)%nat -> next k s unlimited = Some (Ok (Some x, s1), unlimited))
    by (intros k K; by apply (next_mono n k s ltac:(lia))).
  assert (Go : forall a1, drain_failure (accumulate f (rows_of rs) a1) o = Some r ->
    (forall k, (S n <= k)%nat -> drain_body k f (s, a) unlimited = Some (Ok (inl (s1, a1)), unlimited)) ->
    exists n b, drain n f s a unlimited = Some (r, b)).
  { intros a1 Ha1 St. destruct (IH a1 Ha1) as (m & b & Dm). exists (S (n `max` m)), b.
    unfold drain. cbn [q_loop]. unfold q_bind at 1. rewrite St by lia. unfold drain in Dm.
    eapply q_loop_mono in Dm; [exact Dm|lia|].
    intros [t y]. unfold drain_body. apply q_bind_mono; [apply next_mono; lia|by intros [[[]|] t']]. }
  destruct x as [id|c|row]; cbn in Ha.
  1, 2: apply (Go a Ha); intros k K; unfold drain_body, q_bind; by rewrite D.
  destruct (f a row unlimited) as [[[a1|e|] b1]|] eqn:Ef; try done.
  { apply (Go a1 Ha). intros k K. unfold drain_body, q_bind. rewrite D by done.
    by rewrite (Hf _ _ _ _ _ Ef). }
  all: cbn in Ha; injection Ha as <-; exists (S n), b1; unfold drain; cbn [q_loop]; unfold q_bind at 1, drain_body;
    unfold q_bind; rewrite D by lia; by rewrite Ef.
Qed.
End draining.

(** [next_batch]: [next] until the batch is full or the input ends. *)
Definition next_batch {Src} `{Executor Src} (n : nat) (max : nat) (s : Src) : qm (list ExecResult * Src) :=
  q_loop (S max) (fun st : list ExecResult * Src =>
    let (batch, s) := st in
    if (length batch <? max)%nat then
      let! (r, s) := next n s in
      match r with
      | None => q_ret (inr (batch, s))
      | Some r => q_ret (inl (batch ++ [r], s))
      end
    else q_ret (inr (batch, s))) ([], s).

(** ** Rows in memory *)

Definition apply_projection (projection : list Z) (values : Row) : exec QueryError Row :=
  match projection with
  | [] => Ok values
  | _ =>
      (fix go (idxs : list Z) :=
         match idxs with
         | [] => Ok []
         | i :: idxs =>
             let? v := index_get values i in
             let? vs := go idxs in Ok (v :: vs)
         end) projection
  end.

(** What the executors that hold their output hand out, row by row. *)
Definition emit (rows : list Row) (index : nat) : option ExecResult * nat :=
  match rows !! index with
  | Some row => (Some (ResRow row), S index)
  | None => (None, index)
  end.

Record DerivedScanExecutor := mk_derived { derived_rows : list Row; current_row : nat }.

Fixpoint project_all (projection : list Z) (rows : list Row) : exec QueryError (list Row) :=
  match rows with
  | [] => Ok []
  | row :: rows =>
      let? row := apply_projection projection row in
      let? rows := project_all projection rows in Ok (row :: rows)
  end.

Definition derived_new (rows : list Row) (projection : list Z) : exec QueryError DerivedScanExecutor :=
  let? rows := match projection with [] => Ok rows | _ => project_all projection rows end in
  Ok (mk_derived rows 0).

#[global] Instance derived_executor : Executor DerivedScanExecutor := {
  next n s :=
    match n with
    | O => q_spent
    | S _ =>
        let (r, i) := emit (derived_rows s) (current_row s) in
        q_ret (r, mk_derived (derived_rows s) i)
    end;
  finished s := (length (derived_rows s) <= current_row s)%nat
}.

(** [SingleRowExecutor]: one empty row. *)
Record SingleRowExecutor := mk_single { yielded : bool }.
#[global] Instance single_row_executor : Executor SingleRowExecutor := {
  next n s :=
    match n with
    | O => q_spent
    | S _ => q_ret (if yielded s then (None, s) else (Some (ResRow []), mk_single true))
    end;
  finished s := yielded s = true
}.

(** ** Operators on one row at a time *)

Record FilterExecutor (Src : Type) := mk_filter {
  filter_input : Src;
  filter_predicate : Pred;
  filter_projection : list Z
}.
Arguments mk_filter {Src}. Arguments filter_input {Src}.
Arguments filter_predicate {Src}. Arguments filter_projection {Src}.

Record HavingExecutor (Src : Type) := mk_having { having_input : Src; having_predicate : Pred }.
Arguments mk_having {Src}. Arguments having_input {Src}. Arguments having_predicate {Src}.

Record ProjectionExecutor (Src : Type) := mk_projection {
  projection_input : Src;
  projection_items : list Expr
}.
Arguments mk_projection {Src}. Arguments projection_input {Src}. Arguments projection_items {Src}.

Record LimitExecutor (Src : Type) := mk_limit {
  limit_input : Src;
  limit_rows : Z;
  offset : Z;
  skipped : Z;
  taken : Z
}.
Arguments mk_limit {Src}. Arguments limit_input {Src}. Arguments limit_rows {Src}.
Arguments offset {Src}. Arguments skipped {Src}. Arguments taken {Src}.

Definition limit_new {Src} (input : Src) (limit offset : Z) : LimitExecutor Src :=
  mk_limit input limit offset 0 0.

Section operators.
Context {rt : Runtime} {Src : Type} `{Executor Src}.

Definition filter_body (n : nat) (st : FilterExecutor Src)
    : qm (FilterExecutor Src + (option ExecResult * FilterExecutor Src)) :=
  let! (r, input) := next n (filter_input st) in
  let st := mk_filter input (filter_predicate st) (filter_projection st) in
  match r with
  | None => q_ret (inr (None, st))
  | Some (ResRow values) =>
      let! keep := q_eval (evaluate_pred rt (filter_predicate st) values) in
      if (keep : bool) then
        let! row := q_lift (apply_projection (filter_projection st) values) in
        q_ret (inr (Some (ResRow row), st))
      else q_ret (inl st)
  | Some other => q_ret (inr (Some other, st))
  end.

Definition having_body (n : nat) (st : HavingExecutor Src)
    : qm (HavingExecutor Src + (option ExecResult * HavingExecutor Src)) :=
  let! (r, input) := next n (having_input st) in
  let st := mk_having input (having_predicate st) in
  match r with
  | None => q_ret (inr (None, st))
  | Some (ResRow row) =>
      let! keep := q_eval (evaluate_pred rt (having_predicate st) row) in
      q_ret (if keep : bool then inr (Some (ResRow row), st) else inl st)
  | Some other => q_ret (inr (Some other, st))
  end.

Fixpoint evaluate_items (items : list Expr) (values : Row) : exec EvalError Row :=
  match items with
  | [] => Ok []
  | e :: items =>
      let? v := evaluate rt e values in
      let? vs := evaluate_items items values in Ok (v :: vs)
  end.

Definition projection_next (n : nat) (st : ProjectionExecutor Src)
    : qm (option ExecResult * ProjectionExecutor Src) :=
  let! (r, input) := next n (projection_input st) in
  let st := mk_projection input (projection_items st) in
  match r with
  | Some (ResRow values) =>
      let! out := q_eval (evaluate_items (projection_items st) values) in
      q_ret (Some (ResRow out), st)
  | r => q_ret (r, st)
  end.

(** The skipping loop ends with [None] to go on, or with what is returned. *)
Definition limit_skip (n : nat) (st : LimitExecutor Src)
    : qm (LimitExecutor Src + (option (option ExecResult) * LimitExecutor Src)) :=
  if skipped st <? offset st then
    let! (r, input) := next n (limit_input st) in
    let st' k := mk_limit input (limit_rows st) (offset st) k (taken st) in
    match r with
    | None => q_ret (inr (Some None, st' (skipped st)))
    | Some (ResRow _) => q_ret (inl (st' (skipped st + 1)))
    | Some other => q_ret (inr (Some (Some other), st' (skipped st)))
    end
  else q_ret (inr (None, st)).

(** After the skipping. *)
Definition limit_take (n : nat) (st : LimitExecutor Src) : qm (option ExecResult * LimitExecutor Src) :=
  if limit_rows st <=? taken st then q_ret (None, st)
  else
    let! (r, input) := next n (limit_input st) in
    let st' k := mk_limit input (limit_rows st) (offset st) (skipped st) k in
    q_ret (r, st' (match r with Some (ResRow _) => taken st + 1 | _ => taken st end)).

Definition limit_next (n : nat) (st : LimitExecutor Src) : qm (option ExecResult * LimitExecutor Src) :=
  if limit_rows st =? 0 then match n with O => q_spent | S _ => q_ret (None, st) end
  else
    let! (early, st) := q_loop n (limit_skip n) st in
    match early with
    | Some r => q_ret (r, st)
    | None => limit_take n st
    end.

#[global] Instance filter_executor : Executor (FilterExecutor Src) := {
  next n := q_loop n (filter_body n);
  finished st := finished (filter_input st)
}.
#[global] Instance having_executor : Executor (HavingExecutor Src) := {
  next n := q_loop n (having_body n);
  finished st := finished (having_input st)
}.
#[global] Instance projection_executor : Executor (ProjectionExecutor Src) := {
  next := projection_next;
  finished st := finished (projection_input st)
}.
#[global] Instance limit_executor : Executor (LimitExecutor Src) := {
  next := limit_next;
  finished st :=
    limit_rows st = 0 \/ (offset st <= skipped st /\ limit_rows st <= taken st) \/ finished (limit_input st)
}.
End operators.

(** ** The laws of the operators *)

Lemma q_bind_Ok {A B} (m : qm A) (k : A -> qm B) b r b' :
  q_bind m k b = Some (Ok r, b') -> exists a b1, m b = Some (Ok a, b1) /\ k a b1 = Some (Ok r, b').
Proof. unfold q_bind. destruct (m b) as [[[a| |] b1]|]; try done. by exists a, b1. Qed.

Lemma q_bind_ret {A B} (m : qm A) (k : A -> qm B) b a b1 :
  m b = Some (Ok a, b1) -> q_bind m k b = k a b1.
Proof. unfold q_bind. by intros ->. Qed.

(** A loop ends with the last turn of its body. *)
Lemma q_loop_ends {A R} n (body : A -> qm (A + R)) a b r b' :
  q_loop n body a b = Some (Ok r, b') -> exists a1 b1, body a1 b1 = Some (Ok (inr r), b').
Proof.
  revert a b. induction n as [|n IH]; intros a b H; [done|]. cbn [q_loop] in H.
  apply q_bind_Ok in H as ([a1|r1] & b1 & Hb & H); [by apply IH in H|].
  injection H as -> ->. by exists a, b.
Qed.

Lemma q_loop_once {A R} n (body : A -> qm (A + R)) a b r b' :
  (0 < n)%nat -> body a b = Some (Ok (inr r), b') -> q_loop n body a b = Some (Ok r, b').
Proof. destruct n; [lia|]. intros _ E. cbn [q_loop]. by rewrite (q_bind_ret _ _ _ _ _ E). Qed.

Ltac q_mono :=
  repeat match goal with
  | |- qle ?m ?m => reflexivity
  | |- qle (q_bind _ _) (q_bind _ _) => apply q_bind_mono; [|intros ?]
  | |- qle (next _ _) (next _ _) => apply next_mono; lia
  | |- qle (q_loop _ _ _) (q_loop _ _ _) => apply q_loop_mono; [lia|intros ?]
  | |- qle (drain _ _ _ _) (drain _ _ _ _) => apply drain_mono; [lia|intros ??]
  | |- qle (match ?x with _ => _ end) _ => destruct x
  end.

Ltac q_tame :=
  repeat match goal with
  | |- tame (q_bind _ _) => apply tame_bind; [|intros ?]
  | |- tame (next _ _) => apply next_tame
  | |- tame (q_loop _ _ _) => apply tame_loop; intros ?
  | |- tame (drain _ _ _ _) => apply drain_tame; intros ??
  | |- tame (match ?x with _ => _ end) => destruct x
  end; auto with tame.

(** Inverts every successful bind of the context. *)
Ltac inv_q :=
  repeat match goal with
  | H : q_bind _ _ _ = Some (Ok _, _) |- _ =>
      let a := fresh "a" in let b := fresh "b" in let E := fresh "E" in
      apply q_bind_Ok in H as (a & b & E & H)
  | H : q_ret _ _ = Some _ |- _ => unfold q_ret in H; simplify_eq
  | H : q_lift _ _ = Some _ |- _ => unfold q_lift in H; simplify_eq
  end.

#[global] Instance derived_laws : ExecutorLaws DerivedScanExecutor.
Proof.
  split.
  - intros [|n] [|m] s L; cbn; try lia; [by intros b r|by intros b r|reflexivity].
  - intros [|n] s; cbn; [apply tame_spent|]. destruct (emit _ _); apply tame_ret.
  - intros [|n] s b s' b' E; cbn in *; [done|]. unfold emit in E.
    destruct (derived_rows s !! current_row s) eqn:L; inv_q. by apply lookup_ge_None.
  - intros [|n] s b F L; cbn in *; [lia|]. unfold emit.
    rewrite (proj2 (lookup_ge_None _ _)) by done. by eexists.
Qed.

#[global] Instance single_row_laws : ExecutorLaws SingleRowExecutor.
Proof.
  split.
  - intros [|n] [|m] s L; cbn; try lia; [by intros b r|by intros b r|reflexivity].
  - intros [|n] s; cbn; auto with tame.
  - intros [|n] s b s' b' E; cbn in *; [done|]. destruct (yielded s) eqn:Y; by inv_q.
  - intros [|n] s b F L; cbn in *; [lia|]. rewrite F. by eexists.
Qed.

Section laws.
Context {rt : Runtime} {Src : Type} `{Executor Src} `{!ExecutorLaws Src}.

#[global] Instance filter_laws : ExecutorLaws (FilterExecutor Src).
Proof.
  split; cbn.
  - intros n m s L. unfold filter_body. q_mono.
  - intros n s. unfold filter_body. q_tame.
  - intros n s b s' b' E. apply q_loop_ends in E as (a1 & b1 & E). unfold filter_body in E. inv_q.
    destruct a as [[[]|] input]; inv_q; cbn; [by destruct a; inv_q|by eapply next_ends].
  - intros n s b F L. destruct (next_finished n (filter_input s) b F L) as (i & E & Fi).
    exists (mk_filter i (filter_predicate s) (filter_projection s)). split; [|done].
    apply q_loop_once; [done|]. unfold filter_body. by rewrite (q_bind_ret _ _ _ _ _ E).
Qed.

#[global] Instance having_laws : ExecutorLaws (HavingExecutor Src).
Proof.
  split; cbn.
  - intros n m s L. unfold having_body. q_mono.
  - intros n s. unfold having_body. q_tame.
  - intros n s b s' b' E. apply q_loop_ends in E as (a1 & b1 & E). unfold having_body in E. inv_q.
    destruct a as [[[]|] input]; inv_q; cbn; [by destruct a; inv_q|by eapply next_ends].
  - intros n s b F L. destruct (next_finished n (having_input s) b F L) as (i & E & Fi).
    exists (mk_having i (having_predicate s)). split; [|done].
    apply q_loop_once; [done|]. unfold having_body. by rewrite (q_bind_ret _ _ _ _ _ E).
Qed.

#[global] Instance projection_laws : ExecutorLaws (ProjectionExecutor Src).
Proof.
  split; cbn.
  - intros n m s L. unfold projection_next. q_mono.
  - intros n s. unfold projection_next. q_tame.
  - intros n s b s' b' E. unfold projection_next in E. inv_q.
    destruct a as [[[]|] input]; inv_q; cbn; by eapply next_ends.
  - intros n s b F L. destruct (next_finished n (projection_input s) b F L) as (i & E & Fi).
    exists (mk_projection i (projection_items s)). split; [|done].
    unfold projection_next. by rewrite (q_bind_ret _ _ _ _ _ E).
Qed.

#[global] Instance limit_laws : ExecutorLaws (LimitExecutor Src).
Proof.
  split; cbn.
  - intros n m s L. unfold limit_next, limit_skip, limit_take. destruct (limit_rows s =? 0).
    + destruct n, m; try lia; [by intros b r|by intros b r|reflexivity].
    + q_mono.
  - intros n s. unfold limit_next, limit_skip, limit_take. q_tame.
  - intros n s b s' b' E. unfold limit_next, limit_take in E. destruct (Z.eqb_spec (limit_rows s) 0) as [Z0|Z0].
    { destruct n; [done|]. inv_q. by left. }
    apply q_bind_Ok in E as ([early st] & b1 & El & E).
    apply q_loop_ends in El as (st1 & b2 & El). unfold limit_skip in El.
    destruct early as [r|].
    + inv_q. destruct (skipped st1 <? offset st1); inv_q. right; right.
      destruct a as [[[]|] input]; inv_q; cbn; by eapply next_ends.
    + destruct (Z.ltb_spec (skipped st1) (offset st1)); inv_q; [by destruct a as [[[]|] ?]; inv_q|].
      destruct (Z.leb_spec (limit_rows st) (taken st)); inv_q; [right; left; lia|].
      right; right. destruct a as [r input]; inv_q; cbn; by eapply next_ends.
  - intros n s b F L. unfold limit_next, limit_take. destruct (Z.eqb_spec (limit_rows s) 0) as [Z0|Z0].
    { destruct n; [lia|]. exists s. by split; [|left]. }
    destruct (Z.ltb_spec (skipped s) (offset s)) as [Lt|Ge].
    + destruct F as [|[[]|F]]; [lia..|].
      destruct (next_finished n (limit_input s) b F L) as (i & E & Fi).
      set (s' := mk_limit i (limit_rows s) (offset s) (skipped s) (taken s)).
      exists s'. split; [|by right; right].
      assert (El : q_loop n (limit_skip n) s b = Some (Ok (Some None, s'), b)).
      { apply q_loop_once; [done|]. unfold limit_skip.
        rewrite (proj2 (Z.ltb_lt _ _) Lt). by rewrite (q_bind_ret _ _ _ _ _ E). }
      by rewrite (q_bind_ret _ _ _ _ _ El).
    + assert (El : q_loop n (limit_skip n) s b = Some (Ok (None, s), b)).
      { apply q_loop_once; [done|]. unfold limit_skip. by rewrite (proj2 (Z.ltb_ge _ _) Ge). }
      rewrite (q_bind_ret _ _ _ _ _ El). destruct (Z.leb_spec (limit_rows s) (taken s)) as [T|T].
      { exists s. split; [done|]. right; left; lia. }
      destruct F as [|[[]|F]]; [lia..|].
      destruct (next_finished n (limit_input s) b F L) as (i & E & Fi).
      exists (mk_limit i (limit_rows s) (offset s) (skipped s) (taken s)). split; [|by right; right].
      by rewrite (q_bind_ret _ _ _ _ _ E).
Qed.
End laws.

(** ** The streams of the operators *)

(** Every answer from [s1] is an answer from [s], with enough fuel. *)
Definition reaches {Src} `{Executor Src} (s s1 : Src) : Prop :=
  forall k r, next k s1 unlimited = Some r -> exists m, next m s unlimited = Some r.

Lemma yields_reaches {Src} `{Executor Src} (s s1 : Src) rs o :
  reaches s s1 -> yields s1 rs o -> yields s rs o.
Proof.
  intros R Y. destruct Y as [n s1 s2 E|n s1 e b E|n s1 b E|n s1 r s2 rs o E Y];
    destruct (R _ _ E) as [m Em].
  - by eapply yields_end.
  - by eapply yields_error.
  - by eapply yields_panic.
  - by eapply yields_next.
Qed.

(** A turn of the loop that goes on. *)
Lemma loop_reaches {A R} (body : nat -> A -> qm (A + R)) n s s1 k r :
  (forall i j a, (i <= j)%nat -> qle (body i a) (body j a)) ->
  body n s unlimited = Some (Ok (inl s1), unlimited) ->
  q_loop k (body k) s1 unlimited = Some r ->
  exists m, q_loop m (body m) s unlimited = Some r.
Proof.
  intros M B L. exists (S (n `max` k)). cbn [q_loop].
  rewrite (q_bind_ret _ _ _ _ _ (M n (S (n `max` k)) s ltac:(lia) _ _ B)).
  eapply q_loop_mono; [| |exact L]; [lia|]. intros a. apply M. lia.
Qed.

(** The stream in which each row is kept, changed, dropped or a failure. *)
Fixpoint transform (f : Row -> exec QueryError (option Row)) (rs : list ExecResult)
    (o : exec QueryError unit) : list ExecResult * exec QueryError unit :=
  match rs with
  | [] => ([], o)
  | ResRow row :: rs =>
      match f row with
      | Ok (Some out) => let (xs, o) := transform f rs o in (ResRow out :: xs, o)
      | Ok None => transform f rs o
      | Err e => ([], Err e)
      | Panic => ([], Panic)
      end
  | other :: rs => let (xs, o) := transform f rs o in (other :: xs, o)
  end.

Definition filter_row (rt : Runtime) (p : Pred) (projection : list Z) (row : Row)
    : exec QueryError (option Row) :=
  let? keep := exec_map_err ExecutionError (evaluate_pred rt p row) in
  if (keep : bool) then let? out := apply_projection projection row in Ok (Some out) else Ok None.

Definition project_row (rt : Runtime) (items : list Expr) (row : Row) : exec QueryError (option Row) :=
  let? out := exec_map_err ExecutionError (evaluate_items (rt:=rt) items row) in Ok (Some out).

(** OFFSET and LIMIT count rows; nothing is read once the limit is reached. *)
Fixpoint limit_stream (off lim : Z) (rs : list ExecResult) (o : exec QueryError unit)
    : list ExecResult * exec QueryError unit :=
  if lim <=? 0 then ([], Ok tt)
  else
    match rs with
    | [] => ([], o)
    | ResRow row :: rs =>
        if 0 <? off then limit_stream (off - 1) lim rs o
        else let (xs, o) := limit_stream off (lim - 1) rs o in (ResRow row :: xs, o)
    | other :: rs => let (xs, o) := limit_stream off lim rs o in (other :: xs, o)
    end.

(** How [wrap s] answers, given how [s] does. *)
Definition answers {T} `{Executor T} (t : T) (r : exec QueryError (option ExecResult * T)) : Prop :=
  exists m b, next m t unlimited = Some (r, b) /\ (is_ok r = true -> b = unlimited).

Section transforming.
Context {Src T : Type} `{Executor Src} `{Executor T}.
Context (wrap : Src -> T) (f : Row -> exec QueryError (option Row)).
Context (wrap_none : forall n s s1, next n s unlimited = Some (Ok (None, s1), unlimited) ->
  exists t, answers (wrap s) (Ok (None, t))).
Context (wrap_error : forall n s e b, next n s unlimited = Some (Err e, b) -> answers (wrap s) (Err e)).
Context (wrap_panic : forall n s b, next n s unlimited = Some (Panic, b) -> answers (wrap s) Panic).
Context (wrap_other : forall n s r s1, next n s unlimited = Some (Ok (Some r, s1), unlimited) ->
  (forall row, r <> ResRow row) -> answers (wrap s) (Ok (Some r, wrap s1))).
Context (wrap_row : forall n s row s1, next n s unlimited = Some (Ok (Some (ResRow row), s1), unlimited) ->
  match f row with
  | Ok (Some out) => answers (wrap s) (Ok (Some (ResRow out), wrap s1))
  | Ok None => reaches (wrap s) (wrap s1)
  | Err e => answers (wrap s) (Err e)
  | Panic => answers (wrap s) Panic
  end).

Lemma answers_end t t' : answers t (Ok (None, t')) -> yields t [] (Ok tt).
Proof. intros (m & b & E & B). rewrite (B eq_refl) in E. by eapply yields_end. Qed.
Lemma answers_error t e : answers t (Err e) -> yields t [] (Err e).
Proof. intros (m & b & E & B). by eapply yields_error. Qed.
Lemma answers_panic t : answers t Panic -> yields t [] Panic.
Proof. intros (m & b & E & B). by eapply yields_panic. Qed.
Lemma answers_next t r t' rs o : answers t (Ok (Some r, t')) -> yields t' rs o -> yields t (r :: rs) o.
Proof. intros (m & b & E & B) Y. rewrite (B eq_refl) in E. by eapply yields_next. Qed.

Lemma transform_yields s rs o :
  yields s rs o -> yields (wrap s) (fst (transform f rs o)) (snd (transform f rs o)).
Proof.
  induction 1 as [n s s1 E|n s e b E|n s b E|n s r s1 rs o E Y IH]; cbn [transform].
  - destruct (wrap_none _ _ _ E) as [t A]. by eapply answers_end.
  - by eapply answers_error, wrap_error.
  - by eapply answers_panic, wrap_panic.
  - destruct r as [id|c|row].
    1, 2: destruct (transform f rs o) as [xs o'] eqn:D; eapply answers_next; [|exact IH];
      by eapply wrap_other.
    pose proof (wrap_row _ _ _ _ E) as R. destruct (f row) as [[out|]|e|].
    + destruct (transform f rs o) as [xs o'] eqn:D. eapply answers_next; [exact R|exact IH].
    + by eapply yields_reaches.
    + by apply answers_error.
    + by apply answers_panic.
Qed.
End transforming.

(** One turn of a loop that ends, or fails. *)
Lemma loop_answers {A} (body : nat -> A -> qm (A + (option ExecResult * A))) n s r b :
  (forall i j a, (i <= j)%nat -> qle (body i a) (body j a)) ->
  body n s unlimited = Some (r, b) ->
  match r with
  | Ok (inl _) => True
  | Ok (inr x) => exists m, q_loop m (body m) s unlimited = Some (Ok x, b)
  | Err e => exists m, q_loop m (body m) s unlimited = Some (Err e, b)
  | Panic => exists m, q_loop m (body m) s unlimited = Some (Panic, b)
  end.
Proof.
  intros M B. pose proof (M n (S n) s ltac:(lia) _ _ B) as B'.
  destruct r as [[a|x]|e|]; [done|..]; exists (S n); cbn [q_loop]; unfold q_bind; by rewrite B'.
Qed.

(** An operator that loops over its input until a row survives. *)
Section looping.
Context {Src T : Type} `{Executor Src} `{Executor T}.
Context (wrap : Src -> T) (f : Row -> exec QueryError (option Row)).
Context (body : nat -> T -> qm (T + (option ExecResult * T))).
Context (next_loop : forall n t, next n t = q_loop n (body n) t).
Context (body_mono : forall i j a, (i <= j)%nat -> qle (body i a) (body j a)).

Definition turn (r : exec QueryError (option ExecResult * Src)) (b : QueryBudget)
    : option (exec QueryError (T + (option ExecResult * T)) * QueryBudget) :=
  match r with
  | Ok (None, s1) => Some (Ok (inr (None, wrap s1)), b)
  | Ok (Some (ResRow row), s1) =>
      (let! out := q_lift (f row) in
       q_ret match out with
             | Some out => inr (Some (ResRow out), wrap s1)
             | None => inl (wrap s1)
             end) b
  | Ok (Some other, s1) => Some (Ok (inr (Some other, wrap s1)), b)
  | Err e => Some (Err e, b)
  | Panic => Some (Panic, b)
  end.

Context (body_turn : forall n s r b, next n s unlimited = Some (r, b) -> body n (wrap s) unlimited = turn r b).

Lemma loop_transform_yields s rs o :
  yields s rs o -> yields (wrap s) (fst (transform f rs o)) (snd (transform f rs o)).
Proof.
  assert (A : forall n s r b, next n s unlimited = Some (r, b) -> forall x, turn r b = Some (x, b) ->
    (is_ok x = true -> b = unlimited) ->
    match x with
    | Ok (inl t) => reaches (wrap s) t
    | Ok (inr y) => answers (wrap s) (Ok y)
    | Err e => answers (wrap s) (Err e)
    | Panic => answers (wrap s) Panic
    end).
  { intros n t r b E x X U. pose proof (body_turn _ _ _ _ E) as B. rewrite X in B.
    pose proof (loop_answers body n (wrap t) x b body_mono B) as L.
    destruct x as [[t'|y]|e|].
    - intros k y Ek. rewrite next_loop in Ek. rewrite (U eq_refl) in B.
      destruct (loop_reaches body n _ _ _ _ body_mono B Ek) as [m Em]. exists m. by rewrite next_loop.
    - destruct L as [m L]. exists m, b. by rewrite next_loop.
    - destruct L as [m L]. exists m, b. by rewrite next_loop.
    - destruct L as [m L]. exists m, b. by rewrite next_loop. }
  apply (transform_yields wrap f).
  - intros n t t1 E. exists (wrap t1). by apply (A _ _ _ _ E (Ok (inr (None, wrap t1)))).
  - intros n t e b E. by apply (A _ _ _ _ E (Err e)).
  - intros n t b E. by apply (A _ _ _ _ E Panic).
  - intros n t r t1 E N. destruct r as [id|c|row]; [..|by destruct (N row)].
    + by apply (A _ _ _ _ E (Ok (inr (Some (ResRowId id), wrap t1)))).
    + by apply (A _ _ _ _ E (Ok (inr (Some (ResAffectedRows c), wrap t1)))).
  - intros n t row t1 E. pose proof (A _ _ _ _ E) as R. cbn [turn] in R.
    unfold q_bind, q_lift, q_ret in R. destruct (f row) as [[out|]|e|]; exact (R _ eq_refl (fun _ => eq_refl)).
Qed.
End looping.

Section operator_streams.
Context {rt : Runtime} {Src : Type} `{Executor Src} `{!ExecutorLaws Src}.

Lemma filter_yields (s : Src) p proj rs o :
  yields s rs o ->
  yields (mk_filter s p proj) (fst (transform (filter_row rt p proj) rs o))
    (snd (transform (filter_row rt p proj) rs o)).
Proof.
  apply (loop_transform_yields (fun s => mk_filter s p proj) _ filter_body); [done|..].
  - intros i j a L. unfold filter_body. q_mono.
  - intros n t r b E. unfold filter_body, q_bind at 1. cbn [filter_input filter_predicate filter_projection].
    rewrite E. destruct r as [[[[]|] s1]|e|]; try done. unfold turn, filter_row, q_eval, q_lift, q_bind.
    destruct (evaluate_pred rt p row) as [[]| |]; try done. cbn [exec_map_err exec_bind].
    by destruct (apply_projection proj row).
Qed.

Lemma having_yields (s : Src) p rs o :
  yields s rs o ->
  yields (mk_having s p) (fst (transform (filter_row rt p []) rs o)) (snd (transform (filter_row rt p []) rs o)).
Proof.
  apply (loop_transform_yields (fun s => mk_having s p) _ having_body); [done|..].
  - intros i j a L. unfold having_body. q_mono.
  - intros n t r b E. unfold having_body, q_bind at 1. cbn [having_input having_predicate].
    rewrite E. destruct r as [[[[]|] s1]|e|]; try done. unfold turn, filter_row, q_eval, q_lift, q_bind.
    by destruct (evaluate_pred rt p row) as [[]| |].
Qed.

Lemma projection_yields (s : Src) items rs o :
  yields s rs o ->
  yields (mk_projection s items) (fst (transform (project_row rt items) rs o))
    (snd (transform (project_row rt items) rs o)).
Proof.
  assert (B : forall n s r b, next n s unlimited = Some (r, b) ->
    next n (mk_projection s items) unlimited
    = match r with
      | Ok (Some (ResRow row), s1) =>
          (let! out := q_eval (evaluate_items items row) in
           q_ret (Some (ResRow out), mk_projection s1 items)) b
      | Ok (r, s1) => Some (Ok (r, mk_projection s1 items), b)
      | Err e => Some (Err e, b)
      | Panic => Some (Panic, b)
      end).
  { intros n t r b E. cbn [next projection_executor]. unfold projection_next, q_bind at 1.
    cbn [projection_input projection_items]. rewrite E. by destruct r as [[[[]|] s1]|e|]. }
  apply (transform_yields (fun s => mk_projection s items)).
  - intros n t t1 E. exists (mk_projection t1 items), n, unlimited. by rewrite (B _ _ _ _ E).
  - intros n t e b E. exists n, b. by rewrite (B _ _ _ _ E).
  - intros n t b E. exists n, b. by rewrite (B _ _ _ _ E).
  - intros n t r t1 E N. exists n, unlimited. rewrite (B _ _ _ _ E).
    destruct r as [| |row]; [done..|by destruct (N row)].
  - intros n t row t1 E. unfold project_row. pose proof (B _ _ _ _ E) as R. cbn in R.
    unfold q_eval, q_lift, q_bind, q_ret in R.
    destruct (evaluate_items items row) as [out|e|]; cbn in *; by exists n, unlimited.
Qed.

Lemma limit_next_eq (st : LimitExecutor Src) k b :
  limit_rows st <> 0 ->
  next k st b = (let! (early, st) := q_loop k (limit_skip k) st in
                 match early with Some r => q_ret (r, st) | None => limit_take k st end) b.
Proof. intros N. cbn [next limit_executor]. unfold limit_next. by rewrite (proj2 (Z.eqb_neq _ _) N). Qed.

(** A call that skips a row goes on from the state after it. *)
Lemma limit_skip_reaches (st st1 : LimitExecutor Src) n :
  limit_rows st <> 0 -> limit_rows st1 <> 0 ->
  limit_skip n st unlimited = Some (Ok (inl st1), unlimited) -> reaches st st1.
Proof.
  intros N N1 E k r. rewrite limit_next_eq by done. unfold q_bind.
  destruct (q_loop k (limit_skip k) st1 unlimited) as [[x b]|] eqn:L; [|done]. intros Hr.
  set (m := S (n `max` k)). exists m. rewrite limit_next_eq by done. unfold q_bind.
  assert (M : forall i j a, (i <= j)%nat -> qle (limit_skip (Src:=Src) i a) (limit_skip j a)).
  { intros i j a Lij. unfold limit_skip. q_mono. }
  replace (q_loop m (limit_skip m) st unlimited) with (Some (x, b)).
  2: { symmetry. unfold m at 1. cbn [q_loop].
    rewrite (q_bind_ret _ _ _ _ _ (M n m st ltac:(lia) _ _ E)).
    eapply q_loop_mono; [| |exact L]; [lia|]. intros a. apply M. lia. }
  destruct x as [[[early|] st2]| |]; try done. revert Hr. unfold limit_take.
  destruct (limit_rows st2 <=? taken st2); [done|].
  eapply q_bind_mono; [apply next_mono; lia|done].
Qed.

(** The skipping loop over, the call takes from the input. *)
Lemma limit_no_skip (st : LimitExecutor Src) k r :
  limit_rows st <> 0 -> offset st <= skipped st -> (0 < k)%nat ->
  limit_take k st unlimited = Some r -> next k st unlimited = Some r.
Proof.
  intros N O K E. rewrite limit_next_eq by done.
  rewrite (q_bind_ret _ _ _ (None, st) unlimited); [done|]. apply q_loop_once; [done|].
  unfold limit_skip. by rewrite (proj2 (Z.ltb_ge _ _) O).
Qed.

(** What the executor makes of an answer of its input. *)
Definition limit_answer (lim off sk tk : Z) (r : exec QueryError (option ExecResult * Src))
    : exec QueryError (option ExecResult * LimitExecutor Src) :=
  let? (x, s1) := r in
  Ok (x, mk_limit s1 lim off sk (match x with Some (ResRow _) => tk + 1 | _ => tk end)).

Lemma limit_answers (s : Src) lim off sk tk n r b :
  lim <> 0 -> next n s unlimited = Some (r, b) ->
  (off <= sk /\ tk < lim) \/ (sk < off /\ forall row s1, r <> Ok (Some (ResRow row), s1)) ->
  exists m, next m (mk_limit s lim off sk tk) unlimited = Some (limit_answer lim off sk tk r, b).
Proof.
  intros N E C. exists (S n). apply (next_mono n (S n)) in E; [|lia]. destruct C as [[O T]|[O R]].
  - apply limit_no_skip; cbn; [done..|lia|]. unfold limit_take. cbn.
    rewrite (proj2 (Z.leb_gt _ _) T). unfold q_bind. rewrite E. by destruct r as [[x s1]| |].
  - rewrite limit_next_eq by done. unfold q_bind at 1. cbn [q_loop]. unfold limit_skip, q_bind. cbn.
    rewrite (proj2 (Z.ltb_lt _ _) O), E. destruct r as [[[[| |row]|] s1]| |]; try done. by destruct (R row s1).
Qed.

Lemma limit_yields (s : Src) lim off sk tk rs o :
  0 < lim -> 0 <= tk <= lim -> sk <= off -> (sk < off -> tk = 0) ->
  yields s rs o ->
  yields (mk_limit s lim off sk tk) (fst (limit_stream (off - sk) (lim - tk) rs o))
    (snd (limit_stream (off - sk) (lim - tk) rs o)).
Proof.
  intros Hl Ht Hs Hst Y. revert tk sk Ht Hs Hst.
  assert (Full : forall s tk sk, lim <= tk -> off <= sk -> yields (mk_limit s lim off sk tk) [] (Ok tt)).
  { intros t tk sk L O. apply (yields_end 1 _ (mk_limit t lim off sk tk)).
    apply limit_no_skip; cbn; [lia..|]. unfold limit_take. cbn. by rewrite (proj2 (Z.leb_le _ _) L). }
  induction Y as [n s s1 E|n s e b E|n s b E|n s r s1 rs o E Y IH]; intros tk sk Ht Hs Hst; cbn [limit_stream];
    (destruct (Z.leb_spec (lim - tk) 0); [apply Full; destruct (Z.lt_ge_cases sk off); lia|]);
    pose proof (limit_answers s lim off sk tk _ _ _ ltac:(lia) E) as A;
    try (destruct A as [m A]; [destruct (Z.lt_ge_cases sk off); [by right|left; lia]|]).
  - by eapply yields_end.
  - by eapply yields_error.
  - by eapply yields_panic.
  - destruct r as [id|c|row].
    1, 2: destruct A as [m A]; [destruct (Z.lt_ge_cases sk off); [by right|left; lia]|];
      specialize (IH tk sk Ht Hs Hst); destruct (limit_stream (off - sk) (lim - tk) rs o);
      by eapply yields_next.
    destruct (Z.ltb_spec 0 (off - sk)) as [O|O].
    + eapply yields_reaches; [|replace (off - sk - 1) with (off - (sk + 1)) by lia; apply IH; lia].
      eapply (limit_skip_reaches _ _ n); [cbn; lia..|]. unfold limit_skip, q_bind. cbn.
      by rewrite (proj2 (Z.ltb_lt sk off)), E by lia.
    + destruct A as [m A]; [left; lia|]. specialize (IH (tk + 1) sk ltac:(lia) Hs ltac:(lia)).
      replace (lim - (tk + 1)) with (lim - tk - 1) in IH by lia.
      destruct (limit_stream (off - sk) (lim - tk - 1) rs o). by eapply yields_next.
Qed.

Lemma limit_zero_yields (s : Src) off sk tk : yields (mk_limit s 0 off sk tk) [] (Ok tt).
Proof. by apply (yields_end 1 _ (mk_limit s 0 off sk tk)). Qed.
End operator_streams.

Lemma yields_eq {Src} `{Executor Src} (s : Src) rs rs' o : yields s rs o -> rs = rs' -> yields s rs' o.
Proof. by intros Y <-. Qed.

(** ** Plain rows *)

Lemma derived_yields rows i :
  yields (mk_derived rows i) (ResRow <$> drop i rows) (Ok tt).
Proof.
  remember (drop i rows) as l eqn:E. revert i E. induction l as [|row l IH]; intros i E.
  - apply (yields_end 1 _ (mk_derived rows i)). cbn. unfold emit.
    rewrite (lookup_ge_None_2 rows i); [done|]. apply (f_equal length) in E. rewrite length_drop in E. cbn in E. lia.
  - assert (L : rows !! i = Some row) by (rewrite <- (Nat.add_0_r i), <- lookup_drop, <- E; done).
    apply (yields_next 1 _ _ (mk_derived rows (S i))); [cbn; unfold emit; by rewrite L|].
    apply IH. rewrite <- (Nat.add_1_r i), <- drop_drop, <- E. done.
Qed.

Lemma transform_rows (f : Row -> exec QueryError (option Row)) (g : Row -> option Row) rows :
  Forall (fun row => f row = Ok (g row)) rows ->
  transform f (ResRow <$> rows) (Ok tt) = (ResRow <$> omap g rows, Ok tt).
Proof.
  induction 1 as [|row rows E _ IH]; [done|]. cbn. rewrite E.
  destruct (g row); cbn; by rewrite IH.
Qed.

Lemma limit_stream_rows off lim rows :
  limit_stream off lim (ResRow <$> rows) (Ok tt)
  = (ResRow <$> take (Z.to_nat lim) (drop (Z.to_nat off) rows), Ok tt).
Proof.
  revert off lim. induction rows as [|row rows IH]; intros off lim; cbn [fmap list_fmap limit_stream];
    destruct (Z.leb_spec lim 0) as [Z|P].
  1, 3: by replace (Z.to_nat lim) with 0%nat by lia.
  - by rewrite drop_nil, take_nil.
  - destruct (Z.ltb_spec 0 off) as [O|O]; rewrite IH.
    + by replace (Z.to_nat off) with (S (Z.to_nat (off - 1))) by lia.
    + replace (Z.to_nat lim) with (S (Z.to_nat (lim - 1))) by lia.
      by replace (Z.to_nat off) with 0%nat by lia.
Qed.

(** ** What the operators promise *)

(** Over any executor and any stream, to the end of it or to its first
    error, the row operators produce exactly the stream of the list function
    they stand for: WHERE keeps and projects the rows its predicate accepts,
    HAVING keeps them, the projection evaluates every item, and LIMIT/OFFSET
    skips [off] rows, passes [lim] on and reads nothing after them, so an error
    behind the limit is not reported. *)
Theorem row_operators_exact {rt : Runtime} {Src : Type} `{Executor Src} `{!ExecutorLaws Src}
    (s : Src) rs o (Y : yields s rs o) :
  (forall p proj, let out := transform (filter_row rt p proj) rs o in
    yields (mk_filter s p proj) (fst out) (snd out))
  /\ (forall p, let out := transform (filter_row rt p []) rs o in
    yields (mk_having s p) (fst out) (snd out))
  /\ (forall items, let out := transform (project_row rt items) rs o in
    yields (mk_projection s items) (fst out) (snd out))
  /\ (forall lim off, 0 <= lim -> 0 <= off -> let out := limit_stream off lim rs o in
    yields (limit_new s lim off) (fst out) (snd out)).
Proof.
  repeat split; intros.
  - subst out. apply filter_yields, Y.
  - subst out. apply having_yields, Y.
  - subst out. apply projection_yields, Y.
  - destruct (Z.eq_dec lim 0) as [->|N].
    + destruct rs as [|[]]; apply limit_zero_yields.
    + pose proof (limit_yields s lim off 0 0 rs o) as L. rewrite !Z.sub_0_r in L. apply L; [lia..|done].
Qed.

Definition sample_rows : list Row := [[VInt 1; VInt 10]; [VInt 2; VInt 20]; [VInt 3; VInt 30]; [VInt 4; VInt 40]].
Definition sample_runtime : Runtime := mk_runtime 0 (fun _ => 0).
#[local] Existing Instance sample_runtime.

Lemma row_operators_exact_witness :
  yields (limit_new (mk_derived sample_rows 0) 2 1) [ResRow [VInt 2; VInt 20]; ResRow [VInt 3; VInt 30]] (Ok tt).
Proof.
  pose proof (row_operators_exact (rt:=sample_runtime) _ _ _ (derived_yields sample_rows 0)) as (_ & _ & _ & L).
  exact (L 2 1 ltac:(lia) ltac:(lia)).
Defined.

(** [SELECT items ... WHERE p LIMIT lim OFFSET off] over materialized rows,
    composed as the executor pipeline composes it, is the list function: where
    the predicate and the items evaluate on every row, to [keep] and [out], the
    pipeline produces exactly [out] of the [lim] rows after the first [off]
    accepted ones, in order, and then ends. *)
Theorem select_pipeline {rt : Runtime} rows p items (keep : Row -> bool) (out : Row -> Row) lim off
    (Hp : Forall (fun row => evaluate_pred rt p row = Ok (keep row)) rows)
    (Hi : Forall (fun row => evaluate_items items row = Ok (out row)) rows)
    (Hl : 0 <= lim) (Ho : 0 <= off) :
  yields (limit_new (mk_projection (mk_filter (mk_derived rows 0) p []) items) lim off)
    (ResRow <$> (out <$> take (Z.to_nat lim) (drop (Z.to_nat off) (List.filter keep rows)))) (Ok tt).
Proof.
  pose proof (filter_yields _ p [] _ _ (derived_yields rows 0)) as F. rewrite drop_0 in F.
  rewrite (transform_rows _ (fun row => if keep row then Some row else None)) in F.
  2: { eapply Forall_impl; [exact Hp|]. intros row E. unfold filter_row. rewrite E. by destruct (keep row). }
  assert (K : omap (fun row => if keep row then Some row else None) rows = List.filter keep rows).
  { clear. induction rows as [|row rows IH]; [done|]. cbn. destruct (keep row); cbn; by rewrite IH. }
  rewrite K in F. cbn [fst snd] in F. apply (projection_yields _ items) in F.
  rewrite (transform_rows _ (fun row => Some (out row))) in F.
  2: { apply List.Forall_forall. intros row (I & _)%List.filter_In.
    unfold project_row. by rewrite (proj1 (List.Forall_forall _ _) Hi row I). }
  assert (M : omap (fun row => Some (out row)) (List.filter keep rows) = out <$> List.filter keep rows).
  { clear. induction (List.filter keep rows) as [|row l IH]; [done|]. cbn. by rewrite IH. }
  rewrite M in F. cbn [fst snd] in F. rewrite (fmap_take out), (fmap_drop out).
  destruct (Z.eq_dec lim 0) as [->|N]; [apply limit_zero_yields|].
  apply (limit_yields _ lim off 0 0) in F; [|lia..]. rewrite !Z.sub_0_r, limit_stream_rows in F. done.
Qed.

(** The second and third rows of [SELECT b WHERE a > 1]. *)
Lemma select_pipeline_witness :
  yields (limit_new (mk_projection (mk_filter (mk_derived sample_rows 0)
      (ComparisonPredicate (ColumnExpression [] 0) OpGt (ConstantExpression (VInt 1))) [])
      [ColumnExpression [] 1]) 2 1)
    [ResRow [VInt 30]; ResRow [VInt 40]] (Ok tt).
Proof.
  apply (select_pipeline (rt:=sample_runtime) sample_rows _ [ColumnExpression [] 1]
    (fun row => match row with VInt a :: _ => 1 <? a | _ => false end) (drop 1) 2 1);
    [repeat constructor..|lia|lia].
Defined.
