(* ===== verification/Ordering.v ===== *)
(** * Orders and sorting

    What the executors use of the standard library's sorts: the order of [f64]
    as an order of integers, comparators as total preorders, the stable sort,
    and the unstable sort, whose choice among equal elements, and whose result
    for a comparator that is no order, Rust leaves open: [Sorting] is the sort
    and [SortingLaws] what its documentation promises. *)

From Stdlib Require Import ZArith Strings.Byte Lia SpecFloat List Sorting.Sorted.
From stdpp Require Import base tactics list numbers gmap.
From S2P Require Import Prelude RowKey Values.
#[local] Open Scope Z_scope.

(** ** The order of [f64] *)

(** [partial_cmp] *)
Definition f64_partial_cmp (a b : Z) : option comparison := SFcompare (f64_decode a) (f64_decode b).

(** The place of a number that is not NaN; both zeros are at 0. *)
Definition f64_rank (bits : Z) : Z :=
  if Z.testbit bits 63 then - (bits mod 2 ^ 63) else bits mod 2 ^ 63.

(** ** Total preorders *)

Class TotalPreorder {A} (D : A -> Prop) (cmp : A -> A -> comparison) := {
  cmp_flip a b : D a -> D b -> cmp b a = CompOpp (cmp a b);
  cmp_trans a b c : D a -> D b -> D c -> cmp a b <> Gt -> cmp b c <> Gt -> cmp a c <> Gt
}.

Definition cmp_le {A} (cmp : A -> A -> comparison) (a b : A) : bool :=
  match cmp a b with Gt => false | _ => true end.

(** ** Sorts *)

Fixpoint insert_by {A} (cmp : A -> A -> comparison) (x : A) (l : list A) : list A :=
  match l with
  | [] => [x]
  | y :: l => if cmp_le cmp x y then x :: y :: l else y :: insert_by cmp x l
  end.

(** The stable sort. *)
Fixpoint sort_by {A} (cmp : A -> A -> comparison) (l : list A) : list A :=
  match l with
  | [] => []
  | x :: l => insert_by cmp x (sort_by cmp l)
  end.

Class Sorting := sort_unstable_by : forall {A}, (A -> A -> comparison) -> list A -> exec Empty_set (list A).

Class SortingLaws `{Sorting} :=
  sort_unstable_sorts : forall {A} (D : A -> Prop) (cmp : A -> A -> comparison) (l : list A),
    TotalPreorder D cmp -> Forall D l ->
    exists l', sort_unstable_by cmp l = Ok l' /\ l' ≡ₚ l /\ StronglySorted (cmp_le cmp) l'.

(** [Iterator::max_by] of a list that is not empty: the last of the greatest. *)
Definition max_by {A} (cmp : A -> A -> comparison) (x : A) (l : list A) : A :=
  fold_left (fun m y => match cmp m y with Gt => m | _ => y end) l x.

(** ** Laws *)

Lemma f64_fields bits :
  0 <= bits < 2 ^ 64 ->
  exists ex man, 0 <= ex < 2048 /\ 0 <= man < 2 ^ 52
    /\ Z.land (Z.shiftr bits 52) 2047 = ex /\ Z.land bits 4503599627370495 = man
    /\ bits mod 2 ^ 63 = ex * 2 ^ 52 + man
    /\ bits = (if Z.testbit bits 63 then 2 ^ 63 else 0) + (ex * 2 ^ 52 + man).
Proof.
  intros B. exists (Z.shiftr bits 52 mod 2 ^ 11), (bits mod 2 ^ 52).
  change 2047 with (Z.ones 11). change 4503599627370495 with (Z.ones 52). rewrite !Z.land_ones by lia.
  rewrite Z.shiftr_div_pow2 by lia.
  assert (T : Z.testbit bits 63 = (2 ^ 63 <=? bits)).
  { rewrite Z.testbit_eqb by lia. destruct (Z.leb_spec (2 ^ 63) bits); [apply Z.eqb_eq|apply Z.eqb_neq];
      Z.div_mod_to_equations; lia. }
  rewrite T. split_and!; try done; [Z.div_mod_to_equations; lia..|].
  destruct (Z.leb_spec (2 ^ 63) bits); Z.div_mod_to_equations; lia.
Qed.

(** What a decoded number is, by its fields. *)
Lemma f64_decode_cases bits :
  0 <= bits < 2 ^ 64 ->
  match f64_decode bits with
  | S754_nan => True
  | S754_infinity s => s = Z.testbit bits 63 /\ bits mod 2 ^ 63 = 2047 * 2 ^ 52
  | S754_zero s => s = Z.testbit bits 63 /\ bits mod 2 ^ 63 = 0
  | S754_finite s m e =>
      s = Z.testbit bits 63 /\ bits mod 2 ^ 63 = (e + 1074) * 2 ^ 52 + Zpos m
      /\ -1074 <= e < 972 /\ Zpos m < 2 ^ 53 /\ (e = -1074 \/ 2 ^ 52 <= Zpos m)
  end.
Proof.
  intros B. destruct (f64_fields bits B) as (ex & man & Hex & Hman & E1 & E2 & E3 & E4).
  unfold f64_decode. rewrite E1, E2. cbv zeta.
  destruct (Z.eqb_spec ex 2047) as [->|N]; [destruct (Z.eqb_spec man 0); [split; [done|lia]|done]|].
  destruct (Z.eqb_spec ex 0) as [->|N0].
  - destruct man as [|p|p] eqn:Em; [split; [done|lia]|..|lia]. split_and!; [done|lia..].
  - destruct (man + 4503599627370496) as [|p|p] eqn:Em; [lia|..|lia]. split_and!; [done|lia..].
Qed.

(** Numbers are ordered as their ranks. *)
Lemma f64_compare_rank a b :
  0 <= a < 2 ^ 64 -> 0 <= b < 2 ^ 64 -> f64_is_nan a = false -> f64_is_nan b = false ->
  f64_partial_cmp a b = Some (f64_rank a ?= f64_rank b).
Proof.
  intros A B Na Nb. pose proof (f64_decode_cases a A) as Ca. pose proof (f64_decode_cases b B) as Cb.
  unfold f64_is_nan in *. unfold f64_partial_cmp, f64_rank.
  destruct (f64_decode a) as [s|s| |s m e], (f64_decode b) as [s'|s'| |s' m' e']; try done; unfold SFcompare;
    destruct Ca as [<- Ca], Cb as [<- Cb]; destruct s, s'; f_equal; symmetry;
    try (first [apply Z.compare_eq_iff|apply Z.compare_lt_iff|apply Z.compare_gt_iff]; lia).
  all: destruct Ca as (Ca & Ea & Ma & Da), Cb as (Cb & Eb & Mb & Db); rewrite Ca, Cb;
    destruct (Z.compare_spec e e') as [<-|L|L];
    try (first [apply Z.compare_lt_iff|apply Z.compare_gt_iff]; lia);
    change (PosDef.Pos.compare_cont Eq m m') with (Zpos m ?= Zpos m');
    destruct (Z.compare_spec (Zpos m) (Zpos m')); cbn [CompOpp];
    first [apply Z.compare_eq_iff; lia|apply Z.compare_lt_iff; lia|apply Z.compare_gt_iff; lia].
Qed.

Lemma f64_rank_bits a b :
  0 <= a < 2 ^ 64 -> 0 <= b < 2 ^ 64 -> f64_rank a = f64_rank b -> f64_rank a <> 0 -> a = b.
Proof.
  intros A B. destruct (f64_fields a A) as (ex & man & Hex & Hman & _ & _ & Ea & Ea').
  destruct (f64_fields b B) as (ex' & man' & Hex' & Hman' & _ & _ & Eb & Eb').
  unfold f64_rank. rewrite Ea, Eb. destruct (Z.testbit a 63), (Z.testbit b 63); lia.
Qed.

Lemma f64_eqb_rank a b :
  0 <= a < 2 ^ 64 -> 0 <= b < 2 ^ 64 -> f64_is_nan a = false -> f64_is_nan b = false ->
  f64_eqb a b = (f64_rank a =? f64_rank b).
Proof.
  intros A B Na Nb. pose proof (f64_compare_rank a b A B Na Nb) as C. unfold f64_partial_cmp in C.
  unfold f64_eqb, SFeqb. rewrite C. rewrite Z.eqb_compare. by destruct (_ ?= _).
Qed.

Lemma f64_eqb_nan a b : f64_is_nan a = true \/ f64_is_nan b = true -> f64_eqb a b = false.
Proof.
  unfold f64_is_nan, f64_eqb, SFeqb. intros [N|N].
  - by destruct (f64_decode a).
  - by destruct (f64_decode a), (f64_decode b).
Qed.

Lemma f64_eqb_zero f g : in_u64 f -> in_u64 g -> f64_eqb f 0 = true -> f64_eqb f g = f64_eqb 0 g.
Proof.
  intros Wf Wg E. assert (F : 0 <= f < 2 ^ 64) by word_lia. assert (G : 0 <= g < 2 ^ 64) by word_lia.
  destruct (f64_is_nan f) eqn:Nf; [by rewrite f64_eqb_nan in E by by left|].
  rewrite f64_eqb_rank in E by (done || lia). apply Z.eqb_eq in E.
  destruct (f64_is_nan g) eqn:Ng; [by rewrite !f64_eqb_nan by by right|].
  rewrite !f64_eqb_rank by (done || lia). by rewrite E.
Qed.

Lemma f64_eqb_sym a b : f64_eqb a b = f64_eqb b a.
Proof.
  unfold f64_eqb, SFeqb. rewrite SFcompare_antisym. by destruct (SFcompare (f64_decode b) (f64_decode a)) as [[]|].
Qed.

(** ** Comparators *)

(** The first comparison that decides. *)
Definition cmp_then (c d : comparison) : comparison := match c with Eq => d | c => c end.

Section preorder.
Context {A : Type} {D : A -> Prop} {cmp : A -> A -> comparison} `{!TotalPreorder D cmp}.

Lemma cmp_refl a : D a -> cmp a a = Eq.
Proof. intros Ha. pose proof (cmp_flip a a Ha Ha) as F. by destruct (cmp a a). Qed.

Lemma cmp_le_lt a b c : D a -> D b -> D c -> cmp a b <> Gt -> cmp b c = Lt -> cmp a c = Lt.
Proof.
  intros Ha Hb Hc AB BC. destruct (cmp a c) eqn:AC; [|done|]; exfalso;
    apply (cmp_trans c a b); try done; rewrite cmp_flip by done; [by rewrite AC|by rewrite BC|by rewrite AC|by rewrite BC].
Qed.

Lemma cmp_lt_le a b c : D a -> D b -> D c -> cmp a b = Lt -> cmp b c <> Gt -> cmp a c = Lt.
Proof.
  intros Ha Hb Hc AB BC. destruct (cmp a c) eqn:AC; [|done|]; exfalso;
    apply (cmp_trans b c a); try done; rewrite cmp_flip by done; [by rewrite AC|by rewrite AB|by rewrite AC|by rewrite AB].
Qed.

Lemma cmp_eq_trans a b c : D a -> D b -> D c -> cmp a b = Eq -> cmp b c = Eq -> cmp a c = Eq.
Proof.
  intros Ha Hb Hc AB BC.
  pose proof (cmp_trans a b c Ha Hb Hc ltac:(by rewrite AB) ltac:(by rewrite BC)) as L.
  pose proof (cmp_trans c b a Hc Hb Ha) as G. rewrite (cmp_flip (cmp:=cmp) b c), (cmp_flip (cmp:=cmp) a b), (cmp_flip (cmp:=cmp) a c), AB, BC in G by done.
  specialize (G ltac:(done) ltac:(done)). by destruct (cmp a c).
Qed.

Lemma cmp_le_refl a : D a -> cmp_le cmp a a.
Proof. intros Ha. unfold cmp_le. by rewrite cmp_refl. Qed.

Lemma cmp_le_trans a b c : D a -> D b -> D c -> cmp_le cmp a b -> cmp_le cmp b c -> cmp_le cmp a c.
Proof.
  intros Ha Hb Hc AB BC. unfold cmp_le in *. pose proof (cmp_trans a b c Ha Hb Hc) as T.
  destruct (cmp a b), (cmp b c), (cmp a c); try done; by destruct T.
Qed.

Lemma cmp_le_total a b : D a -> D b -> cmp_le cmp a b = false -> cmp_le cmp b a.
Proof. intros Ha Hb AB. unfold cmp_le in *. rewrite (cmp_flip a b) by done. by destruct (cmp a b). Qed.

(** *** Sorting *)

Lemma insert_by_perm x l : insert_by cmp x l ≡ₚ x :: l.
Proof. induction l as [|y l IH]; [done|]. cbn. destruct (cmp_le cmp x y); [done|]. rewrite IH. constructor. Qed.

Lemma sort_by_perm l : sort_by cmp l ≡ₚ l.
Proof. induction l as [|x l IH]; [done|]. cbn. by rewrite insert_by_perm, IH. Qed.

Lemma insert_by_sorted x l :
  D x -> Forall D l -> StronglySorted (cmp_le cmp) l -> StronglySorted (cmp_le cmp) (insert_by cmp x l).
Proof.
  intros Hx Hl S. induction S as [|y l S IH F]; [by repeat constructor|].
  inversion_clear Hl as [|? ? Hy Hl']. cbn. destruct (cmp_le cmp x y) eqn:E.
  - assert (XY : cmp_le cmp x y) by by rewrite E. constructor; [by constructor|].
    constructor; [done|]. rewrite Forall_forall in F, Hl' |- *. intros z Hz.
    apply (cmp_le_trans x y z); auto.
  - constructor; [by apply IH|]. rewrite insert_by_perm. constructor; [by apply cmp_le_total|done].
Qed.

Lemma sort_by_sorted l : Forall D l -> StronglySorted (cmp_le cmp) (sort_by cmp l).
Proof.
  induction 1 as [|x l Hx Hl IH]; cbn; [constructor|]. apply insert_by_sorted; [done| |done]. by rewrite sort_by_perm.
Qed.

(** How many elements are at most [t]. *)
Definition at_most (t : A) (l : list A) : nat := length (filter (fun x => cmp_le cmp x t) l).

Lemma sorted_at_most l i x t :
  Forall D l -> D t -> StronglySorted (cmp_le cmp) l -> l !! i = Some x ->
  cmp_le cmp x t <-> (i < at_most t l)%nat.
Proof.
  intros Hl Ht S. revert i. induction S as [|y l S IH F]; intros i; [done|].
  inversion_clear Hl as [|? ? Hy Hl']. unfold at_most in *. rewrite filter_cons.
  destruct (decide (cmp_le cmp y t)) as [L|L]; destruct i as [|i]; cbn; intros E; simplify_eq.
  - split; [lia|done].
  - rewrite IH by done. lia.
  - split; [done|]. intros Pos.
    enough (N : filter (fun z => cmp_le cmp z t) l = []) by (rewrite N in Pos; cbn in Pos; lia).
    apply elem_of_nil_inv. intros z [Lz Hz]%list_elem_of_filter. apply L. rewrite Forall_forall in *. by apply (cmp_le_trans _ z t); auto.
  - rewrite IH by done. split; [intros P|intros P]; [|lia]. exfalso. apply L.
    assert (Hx : x ∈ l) by by eapply list_elem_of_lookup_2. rewrite Forall_forall in *.
    apply IH in P; [|done..]. by apply (cmp_le_trans _ x t); auto.
Qed.

(** Two sorted arrangements of the same elements agree place by place, up to
    the order. *)
Lemma sorted_agree l l' :
  Forall D l -> l ≡ₚ l' -> StronglySorted (cmp_le cmp) l -> StronglySorted (cmp_le cmp) l' ->
  Forall2 (fun a b => cmp a b = Eq) l l'.
Proof.
  intros Hl P S S'. assert (Hl' : Forall D l') by by rewrite <- P.
  apply Forall2_same_length_lookup. split; [by apply Permutation_length|]. intros i x y Ex Ey.
  assert (Dx : D x) by (rewrite Forall_forall in Hl; by eapply Hl, list_elem_of_lookup_2).
  assert (Dy : D y) by (rewrite Forall_forall in Hl'; by eapply Hl', list_elem_of_lookup_2).
  assert (Same : forall t, at_most t l = at_most t l') by (intros t; unfold at_most; by rewrite P).
  assert (XY : cmp_le cmp x y).
  { apply (sorted_at_most l i x y); [done..|]. rewrite Same. apply (sorted_at_most l' i y y); [done..|]. by apply cmp_le_refl. }
  assert (YX : cmp_le cmp y x).
  { apply (sorted_at_most l' i y x); [done..|]. rewrite <- Same. apply (sorted_at_most l i x x); [done..|]. by apply cmp_le_refl. }
  unfold cmp_le in *. rewrite (cmp_flip x y) in YX by done. by destruct (cmp x y).
Qed.

Lemma max_by_spec x l :
  D x -> Forall D l ->
  max_by cmp x l ∈ x :: l /\ forall y, y ∈ x :: l -> cmp_le cmp y (max_by cmp x l).
Proof.
  unfold max_by. revert x. induction l as [|z l IH]; intros x Hx Hl; cbn.
  - split; [by left|]. intros y [->|[]%not_elem_of_nil]%elem_of_cons. by apply cmp_le_refl.
  - inversion_clear Hl as [|? ? Hz Hl']. set (m := match cmp x z with Gt => x | _ => z end).
    assert (Dm : D m) by by (unfold m; destruct (cmp x z)). destruct (IH m Dm Hl') as [I B].
    split.
    { apply elem_of_cons in I as [->|I]; [unfold m; destruct (cmp x z); [right; left|right; left|left]|by right; right]. }
    assert (XM : cmp_le cmp x m /\ cmp_le cmp z m).
    { unfold m. destruct (cmp x z) eqn:E; (split; [|]); try (by apply cmp_le_refl); unfold cmp_le; rewrite ?E; try done.
      by rewrite (cmp_flip x z), E. }
    set (r := fold_left _ l m) in *.
    assert (Dr : D r).
    { assert (Hall : Forall D (m :: l)) by by constructor. rewrite Forall_forall in Hall. by apply Hall. }
    assert (MR : cmp_le cmp m r) by (apply B; by left). destruct XM as [XM ZM].
    intros y [->|[->|Hy]%elem_of_cons]%elem_of_cons.
    + by apply (cmp_le_trans _ m r).
    + by apply (cmp_le_trans _ m r).
    + apply B. by right.
Qed.
End preorder.

(** *** Building orders *)

Lemma key_preorder {A} (D : A -> Prop) (f : A -> Z) : TotalPreorder D (fun a b => f a ?= f b).
Proof. split; intros; [by rewrite Z.compare_antisym|rewrite Z.compare_le_iff in *; lia]. Qed.

Lemma cmp_then_preorder {A} (D : A -> Prop) (c d : A -> A -> comparison) :
  TotalPreorder D c -> TotalPreorder D d -> TotalPreorder D (fun x y => cmp_then (c x y) (d x y)).
Proof.
  intros C E. split.
  - intros a b Ha Hb. rewrite (cmp_flip (cmp:=c) a b), (cmp_flip (cmp:=d) a b) by done. by destruct (c a b).
  - intros x y z Hx Hy Hz. unfold cmp_then. destruct (c x y) eqn:XY, (c y z) eqn:YZ; try done; intros L L'.
    + rewrite (cmp_eq_trans (cmp:=c) x y z) by done. by apply (cmp_trans (cmp:=d) x y z).
    + by rewrite (cmp_le_lt (cmp:=c) x y z) by (done || by rewrite XY).
    + by rewrite (cmp_lt_le (cmp:=c) x y z) by (done || by rewrite YZ).
    + by rewrite (cmp_lt_le (cmp:=c) x y z) by (done || by rewrite YZ).
Qed.

Lemma cmp_opp_preorder {A} (D : A -> Prop) (c : A -> A -> comparison) :
  TotalPreorder D c -> TotalPreorder D (fun x y => CompOpp (c x y)).
Proof.
  intros C. split.
  - intros a b Ha Hb. by rewrite (cmp_flip (cmp:=c) a b).
  - intros x y z Hx Hy Hz. rewrite <- !(cmp_flip (cmp:=c)) by done. intros L L'. by apply (cmp_trans (cmp:=c) z y x).
Qed.

Lemma eq_preorder {A} (D : A -> Prop) : TotalPreorder D (fun _ _ => Eq).
Proof. done. Qed.

(** An order of the images is an order. *)
Lemma image_preorder {A B} (D : A -> Prop) (E : B -> Prop) (f : A -> B) (c : B -> B -> comparison) :
  (forall a, D a -> E (f a)) -> TotalPreorder E c -> TotalPreorder D (fun x y => c (f x) (f y)).
Proof.
  intros F C. split; intros.
  - by apply cmp_flip; apply F.
  - by apply (cmp_trans (cmp:=c) (f a) (f b) (f c0)); auto.
Qed.

(** Comparators that agree on the domain. *)
Lemma preorder_ext {A} (D : A -> Prop) (c d : A -> A -> comparison) :
  (forall a b, D a -> D b -> c a b = d a b) -> TotalPreorder D c -> TotalPreorder D d.
Proof.
  intros X C. split.
  - intros a b Ha Hb. rewrite <- !X by done. by apply cmp_flip.
  - intros a b e Ha Hb He. rewrite <- !X by done. by apply (cmp_trans (cmp:=c)).
Qed.

Lemma bytes_cmp_trans a b c : bytes_cmp a b <> Gt -> bytes_cmp b c <> Gt -> bytes_cmp a c <> Gt.
Proof.
  revert b c. induction a as [|x a IH]; intros [|y b] [|z c]; cbn; try done.
  destruct (Z.compare_spec (byte_val x) (byte_val y)), (Z.compare_spec (byte_val y) (byte_val z));
    try done; intros AB BC.
  - replace (byte_val x ?= byte_val z) with Eq by (symmetry; apply Z.compare_eq_iff; lia). by apply (IH b).
  - by replace (byte_val x ?= byte_val z) with Lt by (symmetry; apply Z.compare_lt_iff; lia).
  - by replace (byte_val x ?= byte_val z) with Lt by (symmetry; apply Z.compare_lt_iff; lia).
  - by replace (byte_val x ?= byte_val z) with Lt by (symmetry; apply Z.compare_lt_iff; lia).
Qed.

Lemma bytes_preorder (D : list byte -> Prop) : TotalPreorder D bytes_cmp.
Proof. split; intros; [apply bytes_cmp_antisym|by apply (bytes_cmp_trans a b c)]. Qed.

(** The stable sort is an unstable sort. *)
#[local] Instance insertion_sorting : Sorting := fun A cmp l => Ok (sort_by cmp l).
Lemma insertion_sorting_laws : SortingLaws.
Proof.
  intros A D cmp l P Hl. exists (sort_by cmp l). split; [done|]. split; [apply sort_by_perm|by eapply sort_by_sorted].
Qed.
