(* ===== verification/Hashing.v ===== *)
(** * Hash tables of the executors

    [HashSet] and [HashMap] over rows and values.  A table is the list of its
    entries, oldest first; which entry a lookup reaches is the table's own
    business ([Probing]), within what the standard library documents
    ([ProbingLaws]): an entry found is equal to the key, and an entry that is
    equal and hashes alike is found.  [Value] breaks the contract between [Eq]
    and [Hash] at the two zeros, so what a lookup does with a negative zero is
    open here, as it is in Rust; on the other keys lookup is exact.
    [charge_bucket_insert] is that of [src/executor/query_budget.rs]. *)

From Stdlib Require Import Strings.String ZArith Strings.Byte Lia List.
From stdpp Require Import base tactics list numbers gmap.
From S2P Require Import Prelude RowKey Values Text DateTime Like Expr Budget Ordering.
#[local] Open Scope Z_scope.

(** ** Keys *)

Class HashKey (K : Type) := {
  key_eq : K -> K -> bool;
  key_hash : K -> list (Z * (Z + list byte))
}.

#[global] Instance value_key : HashKey Value := {
  key_eq := value_partial_eq;
  key_hash v := [value_hash_input v]
}.

(** [Vec<T> == Vec<T>] *)
Fixpoint list_eqb {A} (eqb : A -> A -> bool) (a b : list A) : bool :=
  match a, b with
  | [], [] => true
  | x :: a, y :: b => eqb x y && list_eqb eqb a b
  | _, _ => false
  end.

#[global] Instance row_key : HashKey (list Value) := {
  key_eq := list_eqb value_partial_eq;
  key_hash row := value_hash_input <$> row
}.

(** The names and values of correlated parameters. *)
#[global] Instance params_key : HashKey (list (list byte * Value)) := {
  key_eq := list_eqb (fun a b => bytes_eqb (fst a) (fst b) && value_partial_eq (snd a) (snd b));
  key_hash ps := flat_map (fun p => [(1, inr (fst p)); value_hash_input (snd p)]) ps
}.

(** ** Tables *)

Class Probing := probe : forall {K} `{HashKey K}, list K -> K -> option nat.

Class ProbingLaws `{Probing} := {
  probe_sound {K} `{HashKey K} (t : list K) k i :
    probe t k = Some i -> exists e, t !! i = Some e /\ key_eq k e = true;
  probe_complete {K} `{HashKey K} (t : list K) k e :
    e ∈ t -> key_eq k e = true -> key_hash k = key_hash e -> is_Some (probe t k)
}.

Section tables.
Context `{Probing} {K V : Type} `{HashKey K}.

Definition set_contains (t : list K) (k : K) : bool := bool_decide (is_Some (probe t k)).

Definition map_get (m : list (K * V)) (k : K) : option V :=
  match probe m.*1 k with
  | Some i => snd <$> m !! i
  | None => None
  end.

(** [entry(k)]: the value of an occupied entry is changed in place, a vacant
    one is filled. *)
Definition map_entry (m : list (K * V)) (k : K) (occupied : V -> V) (vacant : V) : list (K * V) :=
  match probe m.*1 k with
  | Some i => alter (fun e => (fst e, occupied (snd e))) i m
  | None => m ++ [(k, vacant)]
  end.
End tables.

Abbreviation Buckets := (list (list Value * list (list Value))).

Definition bucket_bytes `{Probing} (m : Buckets) (key row : list Value) : Z :=
  match probe m.*1 key with
  | None => row_bytes key + row_bytes row
  | Some _ => row_bytes row
  end.

Definition charge_bucket_insert `{Probing} (m : Buckets) (key row : list Value) : qm (Z * Buckets) :=
  let bytes := bucket_bytes m key row in
  let! _ := q_charge bytes in
  q_ret (bytes, map_entry m key (fun rows => rows ++ [row]) [row]).

(** ** Keys on which lookup is exact *)

(** Equal normal keys are the same key. *)
Class NormalKeys {K} `{HashKey K} (N : K -> Prop) :=
  normal_eq a b : N a -> N b -> key_eq a b = true -> a = b.

(** No negative zero; a NaN is equal to nothing. *)
Definition normal_value (v : Value) : Prop := value_wf v /\ v <> VFloat (2 ^ 63).
Definition normal_row (row : list Value) : Prop := Forall normal_value row.

(** Moreover no NaN, so that a value is equal to itself. *)
Definition regular_value (v : Value) : Prop :=
  normal_value v /\ forall bits, v = VFloat bits -> f64_is_nan bits = false.
Definition regular_row (row : list Value) : Prop := Forall regular_value row.

Lemma list_eqb_eq {A} (eqb : A -> A -> bool) (N : A -> Prop) a b :
  (forall x y, N x -> N y -> eqb x y = true -> x = y) ->
  Forall N a -> Forall N b -> list_eqb eqb a b = true -> a = b.
Proof.
  intros E Ha. revert b. induction Ha as [|x a Hx Ha IH]; intros [|y b] Hb; cbn; try done.
  inversion_clear Hb. intros [X R]%andb_true_iff. f_equal; auto.
Qed.

Lemma list_eqb_refl {A} (eqb : A -> A -> bool) a : Forall (fun x => eqb x x = true) a -> list_eqb eqb a a = true.
Proof. induction 1 as [|x a E _ IH]; [done|]. cbn. by rewrite E. Qed.

Lemma f64_zero_bits bits : in_u64 bits -> f64_rank bits = 0 -> bits = 0 \/ bits = 2 ^ 63.
Proof.
  intros B E. assert (B' : 0 <= bits < 2 ^ 64) by word_lia.
  destruct (f64_fields bits B') as (ex & man & Hex & Hman & _ & _ & Em & Eb). unfold f64_rank in E.
  rewrite Em in E. destruct (Z.testbit bits 63); lia.
Qed.

#[global] Instance normal_values : NormalKeys normal_value.
Proof.
  intros a b [Wa Na] [Wb Nb]. cbn [key_eq value_key]. destruct a as [x|x| |x|x|x|x], b as [y|y| |y|y|y|y]; cbn; try done.
  - intros ->%Z.eqb_eq. done.
  - unfold bytes_eqb. destruct (bytes_cmp x y) eqn:E; try done. intros _. by rewrite (bytes_cmp_eq _ _ E).
  - intros E. cbn in Wa, Wb. assert (A : 0 <= x < 2 ^ 64) by word_lia. assert (B : 0 <= y < 2 ^ 64) by word_lia.
    destruct (f64_is_nan x) eqn:Nx; [by rewrite f64_eqb_nan in E by by left|].
    destruct (f64_is_nan y) eqn:Ny; [by rewrite f64_eqb_nan in E by by right|].
    rewrite f64_eqb_rank in E by done. apply Z.eqb_eq in E. f_equal.
    destruct (Z.eq_dec (f64_rank x) 0) as [Z|Z]; [|by apply f64_rank_bits].
    destruct (f64_zero_bits x Wa Z) as [->| ->]; [|done].
    destruct (f64_zero_bits y Wb ltac:(by rewrite <- E)) as [->| ->]; [done|done].
  - intros E. by rewrite (Bool.eqb_prop _ _ E).
  - intros ->%Z.eqb_eq. done.
  - intros ->%Z.eqb_eq. done.
Qed.

#[global] Instance normal_rows : NormalKeys normal_row.
Proof. intros a b Ha Hb E. apply (list_eqb_eq value_partial_eq normal_value); [|done..]. exact normal_eq. Qed.

Lemma regular_normal v : regular_value v -> normal_value v.
Proof. by intros []. Qed.

Lemma regular_row_normal row : regular_row row -> normal_row row.
Proof. intros R. eapply Forall_impl; [exact R|exact regular_normal]. Qed.

Lemma regular_value_refl v : regular_value v -> value_partial_eq v v = true.
Proof.
  intros [[W _] N]. destruct v as [x|x| |x|x|x|x]; cbn; rewrite ?Z.eqb_refl, ?Bool.eqb_reflx; try done.
  - unfold bytes_eqb. by rewrite bytes_cmp_refl.
  - cbn in W. rewrite f64_eqb_rank by first [apply N; done|word_lia]. apply Z.eqb_refl.
Qed.

(** Keys that are equal exactly when they are the same. *)
Class ExactKeys {K} `{HashKey K} `{EqDecision K} (R : K -> Prop) :=
  exact_eq a b : R a -> R b -> key_eq a b = bool_decide (a = b).

#[global] Instance regular_values : ExactKeys regular_value.
Proof.
  intros a b Ha Hb. case_bool_decide as E; [subst b; by apply regular_value_refl|].
  apply not_true_iff_false. intros T. apply E. by apply normal_eq; [apply regular_normal..|].
Qed.

#[global] Instance regular_rows : ExactKeys regular_row.
Proof.
  intros a b Ha Hb. case_bool_decide as E.
  - subst b. apply list_eqb_refl. eapply Forall_impl; [exact Ha|]. apply regular_value_refl.
  - apply not_true_iff_false. intros T. apply E. by apply normal_eq; [apply regular_row_normal..|].
Qed.

(** ** Lookup of normal keys *)

Section lookups.
Context `{ProbingLaws} {K : Type} `{HashKey K} {N : K -> Prop} `{!NormalKeys N}.

Lemma probe_normal (t : list K) k :
  Forall N t -> N k ->
  match probe t k with
  | Some i => t !! i = Some k /\ key_eq k k = true
  | None => forall e, e ∈ t -> key_eq k e = false
  end.
Proof.
  intros Ht Hk. destruct (probe t k) as [i|] eqn:E.
  - apply probe_sound in E as (e & Ee & Q). rewrite Forall_lookup in Ht.
    by pose proof (normal_eq k e Hk (Ht _ _ Ee) Q) as <-.
  - intros e He. apply not_true_iff_false. intros Q.
    rewrite Forall_forall in Ht. pose proof (normal_eq k e Hk (Ht _ He) Q) as <-.
    destruct (probe_complete t k k He Q eq_refl) as [i Ei]. congruence.
Qed.

Lemma set_contains_normal (t : list K) k :
  Forall N t -> N k -> set_contains t k = existsb (key_eq k) t.
Proof.
  intros Ht Hk. pose proof (probe_normal t k Ht Hk) as P. unfold set_contains.
  destruct (probe t k) as [i|]; symmetry.
  - rewrite bool_decide_true by done. apply existsb_exists. exists k.
    split; [|by destruct P]. apply list_elem_of_In. destruct P. by eapply list_elem_of_lookup_2.
  - rewrite bool_decide_false by by intros []. apply not_true_iff_false.
    intros (e & He & Q)%existsb_exists. apply list_elem_of_In in He. by rewrite P in Q.
Qed.
End lookups.

Section exact_lookups.
Context `{ProbingLaws} {K : Type} `{HashKey K} `{EqDecision K} {R : K -> Prop} `{!ExactKeys R}.

Lemma probe_exact (t : list K) k :
  Forall R t -> R k -> match probe t k with Some i => t !! i = Some k | None => k ∉ t end.
Proof.
  intros Ht Hk. destruct (probe t k) as [i|] eqn:E.
  - apply probe_sound in E as (e & Ee & Q). rewrite Forall_lookup in Ht.
    rewrite exact_eq in Q by eauto. by apply bool_decide_eq_true in Q as ->.
  - intros He. destruct (probe_complete t k k He) as [i Ei]; [|done|congruence].
    rewrite exact_eq by done. by apply bool_decide_eq_true.
Qed.

Lemma set_contains_exact (t : list K) k :
  Forall R t -> R k -> set_contains t k = bool_decide (k ∈ t).
Proof.
  intros Ht Hk. pose proof (probe_exact t k Ht Hk) as P. unfold set_contains.
  destruct (probe t k) as [i|]; apply bool_decide_ext; (split; [intros []|]); try done.
  by eapply list_elem_of_lookup_2.
Qed.
End exact_lookups.

(** The first entry that is equal and hashes alike. *)
#[local] Instance scan_probing : Probing := fun K _ t k =>
  fst <$> list_find (fun e => key_eq k e = true /\ key_hash k = key_hash e) t.
Lemma scan_probing_laws : ProbingLaws.
Proof.
  split; unfold probe, scan_probing; intros K HK t k x.
  - destruct (list_find _ t) as [[j e]|] eqn:E; cbn; [|done]. intros [= ->].
    apply list_find_Some in E as (L & [Q _] & _). by exists e.
  - intros E Q Hh. destruct (list_find _ t) as [[j y]|] eqn:F; cbn; [done|].
    apply list_find_None in F. rewrite Forall_forall in F. by destruct (F x E).
Qed.
