(* ===== verification/Operators.v ===== *)
(** * Operators that hold their rows

    The executors that read their whole input at the first call and then hand
    out rows: [Materialized] is the state they share, [Consumer] what each of
    them does at that first call.  This file has [src/executor/distinct.rs] and
    [set_operation.rs]; [Sort], [Joins] and [Aggregate] have the others. *)

From Stdlib Require Import Strings.String ZArith Strings.Byte Lia List.
From stdpp Require Import base tactics list numbers gmap.
From S2P Require Import Prelude RowKey Values Text DateTime Like Expr Budget Executor Ordering Hashing.
#[local] Open Scope Z_scope.

(** ** The shared state *)

Class Consumer (C : Type) := consume : nat -> C -> qm (list Row * C).

Class ConsumerLaws (C : Type) `{Consumer C} := {
  consume_mono n m c : (n <= m)%nat -> qle (consume n c) (consume m c);
  consume_tame n c : tame (consume n c)
}.

Record Materialized (C : Type) := mk_mat {
  source : C;
  rows : list Row;
  has_consumed_input : bool;
  index : nat
}.
Arguments mk_mat {C}. Arguments source {C}. Arguments rows {C}.
Arguments has_consumed_input {C}. Arguments index {C}.

Definition mat_new {C} (source : C) : Materialized C := mk_mat source [] false 0.

Definition mat_next {C} `{Consumer C} (n : nat) (st : Materialized C)
    : qm (option ExecResult * Materialized C) :=
  let! (rows, source) :=
    if has_consumed_input st then q_ret (rows st, source st) else consume n (source st) in
  let (r, i) := emit rows (index st) in
  q_ret (r, mk_mat source rows true i).

#[global] Instance mat_executor {C} `{Consumer C} : Executor (Materialized C) := {
  next := mat_next;
  finished st := has_consumed_input st = true /\ (length (rows st) <= index st)%nat
}.

(** [for row in rows] *)
Fixpoint q_fold {A B} (f : A -> B -> qm A) (l : list B) (a : A) : qm A :=
  match l with
  | [] => q_ret a
  | x :: l => let! a := f a x in q_fold f l a
  end.

(** The whole input, in memory. *)
Definition push_row (acc : list Row) (row : Row) : qm (list Row) :=
  let! _ := q_charge (row_bytes row) in q_ret (acc ++ [row]).

Definition collect {Src} `{Executor Src} (n : nat) (s : Src) : qm (list Row * Src) :=
  drain n push_row s [].

(** ** DISTINCT *)

Record Distinct (Src : Type) := mk_distinct { distinct_input : Src }.
Arguments mk_distinct {Src}. Arguments distinct_input {Src}.

(** [seen] and [rows]. *)
Definition distinct_row `{Probing} (acc : list Row * list Row) (row : Row) : qm (list Row * list Row) :=
  let (seen, rows) := acc in
  if set_contains seen row then q_ret (seen, rows)
  else
    let! _ := q_charge (Z.min (row_bytes row * 2) u64_max) in
    q_ret (seen ++ [row], rows ++ [row]).

#[global] Instance distinct_consumer `{Probing} {Src} `{Executor Src} : Consumer (Distinct Src) := fun n c =>
  let! ((_, rows), input) := drain n distinct_row (distinct_input c) ([], []) in
  q_ret (rows, mk_distinct input).

(** ** Set operations *)

Inductive SetOpKind := Union | Intersect | Except.

Record SetOperation (L R : Type) := mk_setop {
  setop_left : L;
  setop_right : R;
  op : SetOpKind;
  all : bool
}.
Arguments mk_setop {L R}. Arguments setop_left {L R}. Arguments setop_right {L R}.
Arguments op {L R}. Arguments all {L R}.

Section set_operations.
Context `{Probing}.

(** A row that survives is kept twice, the other is given back. *)
Definition survivor (survives : list Row -> Row -> bool) (acc : list Row * list Row) (row : Row)
    : qm (list Row * list Row) :=
  let (seen, rows) := acc in
  let bytes := row_bytes row in
  if survives seen row then
    let! _ := q_charge bytes in q_ret (seen ++ [row], rows ++ [row])
  else let! _ := q_release bytes in q_ret (seen, rows).

Definition right_set (acc : list Row) (row : Row) : qm (list Row) :=
  let bytes := row_bytes row in
  if set_contains acc row then let! _ := q_release bytes in q_ret acc
  else let! _ := q_charge bytes in q_ret (acc ++ [row]).

Definition combine_rows (op : SetOpKind) (all : bool) (left_rows right_rows : list Row) : qm (list Row) :=
  match op with
  | Union =>
      if all then q_ret (left_rows ++ right_rows)
      else
        let! (_, rows) :=
          q_fold (survivor (fun seen row => negb (set_contains seen row))) (left_rows ++ right_rows) ([], []) in
        q_ret rows
  | Intersect | Except =>
      let! right_keys := q_fold right_set right_rows [] in
      let want := match op with Intersect => true | _ => false end in
      let! (_, rows) :=
        q_fold (survivor (fun seen row => Bool.eqb (set_contains right_keys row) want && negb (set_contains seen row)))
          left_rows ([], []) in
      q_ret rows
  end.

#[global] Instance setop_consumer {L R} `{Executor L} `{Executor R} : Consumer (SetOperation L R) := fun n c =>
  let! (left_rows, l) := collect n (setop_left c) in
  let! (right_rows, r) := collect n (setop_right c) in
  let! rows := combine_rows (op c) (all c) left_rows right_rows in
  q_ret (rows, mk_setop l r (op c) (all c)).
End set_operations.

(** ** Laws *)

#[global] Instance mat_laws {C} `{ConsumerLaws C} : ExecutorLaws (Materialized C).
Proof.
  split; cbn.
  - intros n m s L. unfold mat_next. apply q_bind_mono; [|by intros [? ?]].
    destruct (has_consumed_input s); [reflexivity|by apply consume_mono].
  - intros n s. unfold mat_next. apply tame_bind.
    + destruct (has_consumed_input s); [apply tame_ret|apply consume_tame].
    + intros [rs c]. destruct (emit rs (index s)). apply tame_ret.
  - intros n s b s' b' E. unfold mat_next in E. apply q_bind_Ok in E as ([rs c] & b1 & _ & E). unfold emit in E.
    destruct (rs !! index s) eqn:L; inv_q. split; [done|]. by apply lookup_ge_None.
  - intros n s b [F I] L. unfold mat_next. rewrite F, (q_bind_ret _ _ _ _ _ eq_refl). unfold emit.
    rewrite (proj2 (lookup_ge_None _ _)) by done. by eexists.
Qed.

Lemma q_fold_tame {A B} (f : A -> B -> qm A) l a : (forall a x, tame (f a x)) -> tame (q_fold f l a).
Proof. intros H. revert a. induction l as [|x l IH]; intros a; cbn; auto with tame. Qed.

Lemma push_row_tame acc row : tame (push_row acc row).
Proof. unfold push_row. auto with tame. Qed.
#[export] Hint Resolve q_fold_tame push_row_tame : tame.

Lemma collect_mono {Src} `{ExecutorLaws Src} n m (s : Src) : (n <= m)%nat -> qle (collect n s) (collect m s).
Proof. intros L. unfold collect. q_mono. Qed.
Lemma collect_tame {Src} `{ExecutorLaws Src} n (s : Src) : tame (collect n s).
Proof. unfold collect. q_tame. Qed.
#[export] Hint Resolve collect_tame : tame.

#[global] Instance distinct_laws `{Probing} {Src} `{ExecutorLaws Src} : ConsumerLaws (Distinct Src).
Proof.
  split; unfold consume, distinct_consumer.
  - intros n m c L. q_mono.
  - intros n c. q_tame. unfold distinct_row. q_tame.
Qed.

Lemma combine_rows_tame `{Probing} o al l r : tame (combine_rows o al l r).
Proof.
  unfold combine_rows. q_tame; apply q_fold_tame; intros acc row; unfold survivor, right_set; q_tame.
Qed.

#[global] Instance setop_laws `{Probing} {L R} `{ExecutorLaws L} `{ExecutorLaws R} : ConsumerLaws (SetOperation L R).
Proof.
  split; unfold consume, setop_consumer.
  - intros n m c Le. repeat first [apply q_bind_mono; [by apply collect_mono|intros [? ?]]|reflexivity].
  - intros n c. q_tame. apply combine_rows_tame.
Qed.

(** ** Streams *)

(** What the first call leaves is handed out, row by row. *)
Lemma mat_yields_from {C} `{Consumer C} (c : C) rs i :
  yields (mk_mat c rs true i) (ResRow <$> drop i rs) (Ok tt).
Proof.
  remember (drop i rs) as l eqn:E. revert i E. induction l as [|row l IH]; intros i E.
  - apply (yields_end 0 _ (mk_mat c rs true i)). cbn. unfold mat_next. cbn. unfold emit.
    rewrite (lookup_ge_None_2 rs i); [done|]. apply (f_equal length) in E. rewrite length_drop in E. cbn in E. lia.
  - assert (Lk : rs !! i = Some row) by (rewrite <- (Nat.add_0_r i), <- lookup_drop, <- E; done).
    apply (yields_next 0 _ _ (mk_mat c rs true (S i))); [cbn; unfold mat_next, q_bind, emit; cbn; by rewrite Lk|].
    apply IH. rewrite <- (Nat.add_1_r i), <- drop_drop, <- E. done.
Qed.

Lemma mat_yields {C} `{Consumer C} n (c c' : C) rs :
  consume n c unlimited = Some (Ok (rs, c'), unlimited) -> yields (mat_new c) (ResRow <$> rs) (Ok tt).
Proof.
  intros E. pose proof (mat_yields_from c' rs 0) as Y. rewrite drop_0 in Y.
  assert (N : next n (mat_new c) unlimited
    = let (r, i) := emit rs 0 in Some (Ok (r, mk_mat c' rs true i), unlimited)).
  { cbn. unfold mat_next, mat_new. cbn [has_consumed_input source index]. rewrite (q_bind_ret _ _ _ _ _ E).
    by destruct (emit rs 0). }
  destruct rs as [|row rs]; cbn in *.
  - by eapply yields_end.
  - eapply yields_next; [exact N|]. apply (mat_yields_from c' (row :: rs) 1).
Qed.

Lemma mat_fails {C} `{Consumer C} n (c : C) b (r : exec QueryError (list Row * C)) (o : exec QueryError unit) :
  consume n c unlimited = Some (r, b) -> failure (C:=unit) r = Some o -> yields (mat_new c) [] o.
Proof.
  intros E F.
  assert (N : next n (mat_new c) unlimited
    = match r with
      | Ok _ => next n (mat_new c) unlimited
      | Err e => Some (Err e, b)
      | Panic => Some (Panic, b)
      end).
  { destruct r; [done|..]; cbn; unfold mat_next, mat_new; cbn; unfold q_bind; by rewrite E. }
  destruct r; cbn in F; [done|..]; injection F as <-; [by eapply yields_error|by eapply yields_panic].
Qed.

(** A step that cannot fail accumulates as a fold. *)
Lemma accumulate_fold {A} (f : A -> Row -> qm A) (g : A -> Row -> A) rows a :
  (forall a row, row ∈ rows -> f a row unlimited = Some (Ok (g a row), unlimited)) ->
  accumulate f rows a = Some (Ok (fold_left g rows a)).
Proof.
  revert a. induction rows as [|row rows IH]; intros a E; [done|]. cbn. rewrite E by by left.
  apply IH. intros. apply E. by right.
Qed.

Lemma q_fold_ok {A B} (f : A -> B -> qm A) (g : A -> B -> A) l a :
  (forall a x, f a x unlimited = Some (Ok (g a x), unlimited)) ->
  q_fold f l a unlimited = Some (Ok (fold_left g l a), unlimited).
Proof.
  intros E. revert a. induction l as [|x l IH]; intros a; [done|]. cbn. by rewrite (q_bind_ret _ _ _ _ _ (E a x)).
Qed.

Lemma fold_push rows acc : fold_left (fun l (row : Row) => l ++ [row]) rows acc = acc ++ rows.
Proof.
  revert acc. induction rows as [|row rows IH]; intros acc; cbn; [by rewrite app_nil_r|]. by rewrite IH, <- app_assoc.
Qed.

Lemma collect_ok {Src} `{ExecutorLaws Src} (s : Src) rs :
  yields s rs (Ok tt) -> exists n s', collect n s unlimited = Some (Ok (rows_of rs, s'), unlimited).
Proof.
  intros Y. edestruct (drain_ok push_row s rs [] (rows_of rs)) as (n & s' & E & _); [apply push_row_tame|done| |by eauto].
  rewrite (accumulate_fold _ (fun l row => l ++ [row])) by done. by rewrite fold_push.
Qed.

(** ** Row algebra *)

(** The rows of a list, each where it first occurs. *)
Fixpoint first_occurrences {A} `{EqDecision A} (l : list A) : list A :=
  match l with
  | [] => []
  | x :: l => x :: filter (fun y => y <> x) (first_occurrences l)
  end.

Section first_occurrences.
Context {A : Type} `{EqDecision A}.
Implicit Types l : list A.

Lemma elem_of_first_occurrences x l : x ∈ first_occurrences l <-> x ∈ l.
Proof.
  induction l as [|y l IH]; [done|]. cbn. rewrite !elem_of_cons, list_elem_of_filter, IH.
  destruct (decide (x = y)); naive_solver.
Qed.

Lemma first_occurrences_NoDup l : NoDup (first_occurrences l).
Proof.
  induction l as [|x l IH]; cbn; [constructor|]. constructor; [|by apply NoDup_filter].
  rewrite list_elem_of_filter. naive_solver.
Qed.

Lemma first_occurrences_snoc l x :
  first_occurrences (l ++ [x]) = first_occurrences l ++ (if bool_decide (x ∈ l) then [] else [x]).
Proof.
  induction l as [|y l IH]; [done|]. cbn [app first_occurrences]. rewrite IH, filter_app. cbn. f_equal. f_equal.
  destruct (decide (x = y)) as [->|N].
  - rewrite (bool_decide_true (y ∈ y :: l)) by by left. case_bool_decide; [done|].
    by rewrite filter_cons, decide_False by tauto.
  - rewrite (bool_decide_ext (x ∈ y :: l) (x ∈ l)) by (rewrite elem_of_cons; tauto).
    case_bool_decide; [done|]. by rewrite filter_cons, decide_True.
Qed.
End first_occurrences.

(** Keeping a row when it is accepted and not kept before. *)
Definition keep_fresh (accept : Row -> bool) (acc : list Row) (row : Row) : list Row :=
  if accept row && negb (bool_decide (row ∈ acc)) then acc ++ [row] else acc.

Lemma fold_keep_fresh accept l acc :
  fold_left (keep_fresh accept) l acc
  = acc ++ filter (fun r => r ∉ acc) (first_occurrences (filter (fun r => accept r = true) l)).
Proof.
  revert acc. induction l as [|x l IH]; intros acc; [cbn; by rewrite app_nil_r|].
  cbn [fold_left]. rewrite IH, filter_cons.
  unfold keep_fresh. destruct (decide (accept x = true)) as [A|A].
  - rewrite A. cbn [andb first_occurrences]. rewrite filter_cons. case_bool_decide as M; cbn [negb].
    + rewrite decide_False by (intros N; by apply N). f_equal. rewrite list_filter_filter. apply list_filter_iff.
      intros r. destruct (decide (r = x)) as [->|]; tauto.
    + rewrite decide_True by done. rewrite <- app_assoc. cbn. do 2 f_equal.
      rewrite list_filter_filter. apply list_filter_iff. intros r. set_solver.
  - by rewrite (not_true_is_false _ A).
Qed.

Definition keep_row (survives : list Row -> Row -> bool) (acc : list Row * list Row) (row : Row)
    : list Row * list Row :=
  let (seen, rows) := acc in
  if survives seen row then (seen ++ [row], rows ++ [row]) else (seen, rows).

Lemma fold_keep_row survives accept l acc :
  (forall seen row, Forall regular_row seen -> regular_row row ->
    survives seen row = accept row && negb (bool_decide (row ∈ seen))) ->
  Forall regular_row l -> Forall regular_row acc ->
  fold_left (keep_row survives) l (acc, acc)
  = (fold_left (keep_fresh accept) l acc, fold_left (keep_fresh accept) l acc).
Proof.
  intros S Hl. revert acc. induction Hl as [|x l Hx Hl IH]; intros acc Ha; [done|]. cbn.
  rewrite S by done. unfold keep_fresh at 2 4.
  destruct (accept x && negb (bool_decide (x ∈ acc))); apply IH; [|done].
  apply Forall_app. split; [done|]. by repeat constructor.
Qed.

Section row_algebra.
Context `{ProbingLaws}.

Lemma survivor_keep survives acc row :
  survivor survives acc row unlimited = Some (Ok (keep_row survives acc row), unlimited).
Proof. destruct acc as [seen rs]. unfold survivor, keep_row. by destruct (survives seen row). Qed.

Lemma distinct_row_keep acc row :
  distinct_row acc row unlimited
  = Some (Ok (keep_row (fun seen r => negb (set_contains seen r)) acc row), unlimited).
Proof. destruct acc as [seen rs]. unfold distinct_row, keep_row. by destruct (set_contains seen row). Qed.

Lemma fresh_fold accept l :
  fold_left (keep_fresh accept) l [] = first_occurrences (filter (fun r => accept r = true) l).
Proof.
  rewrite fold_keep_fresh. cbn [app].
  assert (P : forall l : list Row, filter (fun r => r ∉ []) l = l); [|apply P].
  clear. intros l. induction l as [|x l IH]; [done|]. rewrite filter_cons, decide_True by apply not_elem_of_nil.
  by rewrite IH.
Qed.

Lemma filter_true (l : list Row) : filter (fun _ => true = true) l = l.
Proof. induction l as [|x l IH]; [done|]. by rewrite filter_cons, decide_True, IH by done. Qed.

Lemma right_set_spec l :
  Forall regular_row l ->
  exists t, q_fold right_set l [] unlimited = Some (Ok t, unlimited) /\ Forall regular_row t /\
    forall row, row ∈ t <-> row ∈ l.
Proof.
  intros Hl. exists (fold_left (fun t row => if set_contains t row then t else t ++ [row]) l []).
  split; [apply q_fold_ok; intros t row; unfold right_set; by destruct (set_contains t row)|].
  assert (G : forall acc, Forall regular_row acc ->
    fold_left (fun t row => if set_contains t row then t else t ++ [row]) l acc
    = fold_left (keep_fresh (fun _ => true)) l acc).
  { induction Hl as [|x l Hx Hl IH]; intros acc Ha; [done|]. cbn. unfold keep_fresh at 2.
    rewrite (set_contains_exact (R:=regular_row)) by done. case_bool_decide; cbn; apply IH; [done|].
    apply Forall_app. split; [done|]. by repeat constructor. }
  rewrite G, fresh_fold, filter_true by constructor. split; [|intros row; apply elem_of_first_occurrences].
  rewrite Forall_forall in *. intros row M. by apply Hl, elem_of_first_occurrences.
Qed.

Lemma combine_rows_ok o al l r :
  Forall regular_row l -> Forall regular_row r ->
  combine_rows o al l r unlimited
  = Some (Ok (match o with
      | Union => if al then l ++ r else first_occurrences (l ++ r)
      | Intersect => first_occurrences (filter (fun row => row ∈ r) l)
      | Except => first_occurrences (filter (fun row => row ∉ r) l)
      end), unlimited).
Proof.
  intros Hl Hr. destruct o; cbn [combine_rows].
  - destruct al; [done|]. rewrite (q_bind_ret _ _ _ _ _ (q_fold_ok _ _ _ _ (survivor_keep _))).
    rewrite (fold_keep_row _ (fun _ => true)), fresh_fold, filter_true; [done|..|constructor].
    + intros seen row Hs Hrow. by rewrite (set_contains_exact (R:=regular_row)).
    + by apply Forall_app.
  - destruct (right_set_spec r Hr) as (t & Et & Ht & M). rewrite (q_bind_ret _ _ _ _ _ Et).
    rewrite (q_bind_ret _ _ _ _ _ (q_fold_ok _ _ _ _ (survivor_keep _))).
    rewrite (fold_keep_row _ (fun row => bool_decide (row ∈ r))), fresh_fold; [|..|done|constructor].
    + unfold q_ret. do 4 f_equal. apply list_filter_iff. intros row. apply bool_decide_eq_true.
    + intros seen row Hs Hrow. rewrite !(set_contains_exact (R:=regular_row)) by done.
      rewrite (bool_decide_ext _ _ (M row)). by destruct (bool_decide (row ∈ r)).
  - destruct (right_set_spec r Hr) as (t & Et & Ht & M). rewrite (q_bind_ret _ _ _ _ _ Et).
    rewrite (q_bind_ret _ _ _ _ _ (q_fold_ok _ _ _ _ (survivor_keep _))).
    rewrite (fold_keep_row _ (fun row => negb (bool_decide (row ∈ r)))), fresh_fold; [|..|done|constructor].
    + unfold q_ret. do 4 f_equal. apply list_filter_iff. intros row. by case_bool_decide.
    + intros seen row Hs Hrow. rewrite !(set_contains_exact (R:=regular_row)) by done.
      rewrite (bool_decide_ext _ _ (M row)). by destruct (bool_decide (row ∈ r)).
Qed.
End row_algebra.

Lemma distinct_yields `{ProbingLaws} {L : Type} `{ExecutorLaws L} (l : L) ls :
  yields l ls (Ok tt) -> Forall regular_row (rows_of ls) ->
  yields (mat_new (mk_distinct l)) (ResRow <$> first_occurrences (rows_of ls)) (Ok tt).
Proof.
  intros Yl Hl.
  pose proof (accumulate_fold _ _ (rows_of ls) ([], []) (fun a row _ => distinct_row_keep a row)) as A.
  rewrite (fold_keep_row _ (fun _ => true)), fresh_fold, filter_true in A; [|..|constructor]; [|..|done].
  2: { intros seen row Hs Hrow. by rewrite (set_contains_exact (R:=regular_row)). }
  apply (drain_ok distinct_row l ls) in A as (n & l' & D & _); [|intros; unfold distinct_row; q_tame|done].
  apply (mat_yields n _ (mk_distinct l')). unfold consume, distinct_consumer. cbn [distinct_input].
  by rewrite (q_bind_ret _ _ _ _ _ D).
Qed.

(** The rows of a set operation. *)
Definition set_rows (o : SetOpKind) (al : bool) (ls rs : list Row) : list Row :=
  match o with
  | Union => if al then ls ++ rs else first_occurrences (ls ++ rs)
  | Intersect => first_occurrences (filter (fun row => row ∈ rs) ls)
  | Except => first_occurrences (filter (fun row => row ∉ rs) ls)
  end.

Lemma setop_yields `{ProbingLaws} {L R : Type} `{ExecutorLaws L} `{ExecutorLaws R} (l : L) (r : R) ls rs o al :
  yields l ls (Ok tt) -> yields r rs (Ok tt) ->
  Forall regular_row (rows_of ls) -> Forall regular_row (rows_of rs) ->
  yields (mat_new (mk_setop l r o al)) (ResRow <$> set_rows o al (rows_of ls) (rows_of rs)) (Ok tt).
Proof.
  intros Yl Yr Hl Hr.
  destruct (collect_ok l ls Yl) as (n & l' & El). destruct (collect_ok r rs Yr) as (m & r' & Er).
  apply (mat_yields (n `max` m) _ (mk_setop l' r' o al)). unfold consume, setop_consumer.
  cbn [setop_left setop_right op all].
  rewrite (q_bind_ret _ _ _ _ _ (collect_mono n (n `max` m) l ltac:(lia) _ _ El)).
  rewrite (q_bind_ret _ _ _ _ _ (collect_mono m (n `max` m) r ltac:(lia) _ _ Er)).
  by rewrite (q_bind_ret _ _ _ _ _ (combine_rows_ok o al _ _ Hl Hr)).
Qed.

(** DISTINCT and the set operations, over any inputs that end without an
    error and whatever the hash tables do within their contract: on rows without
    NaN and without negative zero, DISTINCT yields each row once, where it first
    occurs; UNION ALL the left rows and then the right; UNION the first
    occurrences of both; INTERSECT those of the left rows that the right has,
    EXCEPT those that it has not. *)
Theorem row_algebra_exact `{ProbingLaws} {L R : Type} `{ExecutorLaws L} `{ExecutorLaws R}
    (l : L) (r : R) ls rs
    (Yl : yields l ls (Ok tt)) (Yr : yields r rs (Ok tt))
    (Hl : Forall regular_row (rows_of ls)) (Hr : Forall regular_row (rows_of rs)) :
  yields (mat_new (mk_distinct l)) (ResRow <$> first_occurrences (rows_of ls)) (Ok tt)
  /\ NoDup (first_occurrences (rows_of ls))
  /\ forall o al, yields (mat_new (mk_setop l r o al)) (ResRow <$> set_rows o al (rows_of ls) (rows_of rs)) (Ok tt).
Proof.
  split; [by apply distinct_yields|]. split; [apply first_occurrences_NoDup|]. intros o al. by apply setop_yields.
Qed.

Definition sample_left : list Row := [[VInt 1; VNull]; [VInt 2; VNull]; [VInt 1; VNull]].
Definition sample_right : list Row := [[VInt 1; VNull]; [VInt 3; VNull]].

#[local] Existing Instance scan_probing.
#[local] Existing Instance scan_probing_laws.

Lemma row_algebra_exact_witness :
  yields (mat_new (mk_setop (mk_derived sample_left 0) (mk_derived sample_right 0) Intersect false))
    [ResRow [VInt 1; VNull]] (Ok tt).
Proof.
  assert (Hl : Forall regular_row (rows_of (ResRow <$> drop 0 sample_left))).
  { repeat constructor; intros; discriminate. }
  assert (Hr : Forall regular_row (rows_of (ResRow <$> drop 0 sample_right))).
  { repeat constructor; intros; discriminate. }
  pose proof (row_algebra_exact (mk_derived sample_left 0) (mk_derived sample_right 0) _ _
    (derived_yields sample_left 0) (derived_yields sample_right 0) Hl Hr) as (_ & _ & S).
  refine (eq_ind _ (fun out => yields _ out (Ok tt)) (S Intersect false) _ _). vm_compute. reflexivity.
Defined.
