(* ===== verification/Sort.v ===== *)
(** * ORDER BY

    [src/executor/sort.rs]: the comparison of rows, the full sort and the
    bounded one that keeps the best rows only.  Sorting is the standard
    library's ([Sorting]); [to_lowercase], by which column names are matched,
    is Unicode's and left open.  A full sort hands out a sorted arrangement of
    its input whenever the keys of each ORDER BY column have one type; a bounded
    sort hands out what the full sort would, up to rows with equal keys. *)

From Stdlib Require Import Strings.String ZArith Strings.Byte Lia List Sorting.Sorted.
From stdpp Require Import base tactics list numbers gmap.
From S2P Require Import Prelude RowKey Values Text DateTime Like Expr Budget Executor Ordering Operators.
#[local] Open Scope Z_scope.

(** [str::to_lowercase] *)
Class Lowercase := to_lowercase : list byte -> list byte.

Record OrderByColumn := mk_order { column : list byte; asc : bool; order_expr : option Expr }.

(** ** Comparison *)

Definition compare_values (a b : Value) : comparison :=
  match a, b with
  | VNull, VNull => Eq
  | VNull, _ => Gt
  | _, VNull => Lt
  | VInt x, VInt y => x ?= y
  | VFloat x, VFloat y => default Eq (f64_partial_cmp x y)
  | VInt x, VFloat y => default Eq (f64_partial_cmp (f64_of_int x) y)
  | VFloat x, VInt y => default Eq (f64_partial_cmp x (f64_of_int y))
  | VString x, VString y => bytes_cmp x y
  | VBool x, VBool y => Z.b2z x ?= Z.b2z y
  | VDate x, VDate y => x ?= y
  | VTimestamp x, VTimestamp y => x ?= y
  | _, _ => Eq
  end.

Section rows.
Context `{Lowercase}.

Definition column_position (columns : list (list byte)) (name : list byte) : option nat :=
  fst <$> list_find (fun c => to_lowercase c = to_lowercase name) columns.

(** The expression keys are consumed in order; running out of them is the
    index out of bounds. *)
Fixpoint compare_rows (columns : list (list byte)) (order_by : list OrderByColumn) (a b a_keys b_keys : Row)
    : option comparison :=
  match order_by with
  | [] => Some Eq
  | o :: order_by =>
      let decide_by ordering a_keys b_keys :=
        match ordering with
        | Eq => compare_rows columns order_by a b a_keys b_keys
        | c => Some (if asc o then c else CompOpp c)
        end in
      match order_expr o with
      | Some _ =>
          match a_keys, b_keys with
          | x :: a_keys, y :: b_keys => decide_by (compare_values x y) a_keys b_keys
          | _, _ => None
          end
      | None =>
          match column_position columns (column o) with
          | Some idx =>
              match a !! idx, b !! idx with
              | Some x, Some y => decide_by (compare_values x y) a_keys b_keys
              | _, _ => decide_by Eq a_keys b_keys
              end
          | None => decide_by Eq a_keys b_keys
          end
      end
  end.

(** [compare_rows] on decorated rows; every row has its keys, as
    [decorated_comparable] shows. *)
Definition compare_decorated (columns : list (list byte)) (order_by : list OrderByColumn) (a b : Row * Row)
    : comparison :=
  default Eq (compare_rows columns order_by (snd a) (snd b) (fst a) (fst b)).

Fixpoint decorate_row_keys {rt : Runtime} (order_by : list OrderByColumn) (row : Row) : exec EvalError Row :=
  match order_by with
  | [] => Ok []
  | o :: order_by =>
      match order_expr o with
      | Some e =>
          let? v := evaluate rt e row in
          let? vs := decorate_row_keys order_by row in Ok (v :: vs)
      | None => decorate_row_keys order_by row
      end
  end.
End rows.

(** ** The executor *)

Record Sort (Src : Type) := mk_sort {
  sort_input : Src;
  order_by : list OrderByColumn;
  columns : list (list byte);
  sort_projection : list Z;
  bounded : option nat
}.
Arguments mk_sort {Src}. Arguments sort_input {Src}. Arguments order_by {Src}. Arguments columns {Src}.
Arguments sort_projection {Src}. Arguments bounded {Src}.

Definition q_sort `{Sorting} {A} (cmp : A -> A -> comparison) (l : list A) : qm (list A) :=
  q_lift (exec_map_err (fun e : Empty_set => match e with end) (sort_unstable_by cmp l)).

Fixpoint decorate_all {rt : Runtime} (order_by : list OrderByColumn) (rows : list Row)
    : exec EvalError (list (Row * Row)) :=
  match rows with
  | [] => Ok []
  | row :: rows =>
      let? keys := decorate_row_keys order_by row in
      let? rest := decorate_all order_by rows in Ok ((keys, row) :: rest)
  end.

Section executor.
Context {rt : Runtime} `{Lowercase} `{Sorting} {Src : Type} `{Executor Src}.

(** The index of [max_by] over the enumerated rows. *)
Definition worst_idx (cmp : Row * Row -> Row * Row -> comparison) (retained : list (Row * Row)) : option nat :=
  match imap (fun i r => (i, r)) retained with
  | [] => None
  | x :: l => Some (fst (max_by (fun p q => cmp (snd p) (snd q)) x l))
  end.

Definition retain (c : Sort Src) (k : nat) (retained : list (Row * Row)) (row : Row) : qm (list (Row * Row)) :=
  if (k =? 0)%nat then q_ret retained
  else
    let cmp := compare_decorated (columns c) (order_by c) in
    let! keys := q_eval (decorate_row_keys (order_by c) row) in
    if (length retained <? k)%nat then
      let! _ := q_charge (row_bytes row) in q_ret (retained ++ [(keys, row)])
    else
      match worst_idx cmp retained with
      | None => q_lift Panic
      | Some i =>
          let! worst := q_lift (index_get retained (Z.of_nat i)) in
          match cmp (keys, row) worst with
          | Lt =>
              let! _ := q_release (row_bytes (snd worst)) in
              let! _ := q_charge (row_bytes row) in
              q_ret (<[i := (keys, row)]> retained)
          | _ => q_ret retained
          end
      end.

Definition sort_full (c : Sort Src) (rows : list Row) : qm (list Row) :=
  if forallb (fun o => match order_expr o with None => true | Some _ => false end) (order_by c)
  then q_sort (fun a b => compare_decorated (columns c) (order_by c) ([], a) ([], b)) rows
  else
    let! decorated := q_eval (decorate_all (order_by c) rows) in
    let! sorted := q_sort (compare_decorated (columns c) (order_by c)) decorated in
    q_ret sorted.*2.

#[global] Instance sort_consumer : Consumer (Sort Src) := fun n c =>
  let done input := mk_sort input (order_by c) (columns c) (sort_projection c) (bounded c) in
  match bounded c with
  | None =>
      let! (rows, input) := collect n (sort_input c) in
      let! rows := sort_full c rows in
      let! out := q_lift (project_all (sort_projection c) rows) in
      q_ret (out, done input)
  | Some k =>
      let! (retained, input) := drain n (retain c k) (sort_input c) [] in
      let! retained := q_sort (compare_decorated (columns c) (order_by c)) retained in
      let! out := q_lift (project_all (sort_projection c) retained.*2) in
      q_ret (out, done input)
  end.
End executor.

(** ** Laws *)

Section laws.
Context {rt : Runtime} `{Lowercase} `{Sorting} {Src : Type} `{ExecutorLaws Src}.

Lemma q_sort_tame {A} (cmp : A -> A -> comparison) l : tame (q_sort cmp l).
Proof. apply tame_lift. Qed.
#[local] Hint Resolve q_sort_tame : tame.

Lemma retain_tame (c : Sort Src) k retained row : tame (retain c k retained row).
Proof. unfold retain. q_tame. Qed.

#[global] Instance sort_laws : ConsumerLaws (Sort Src).
Proof.
  split; unfold consume, sort_consumer.
  - intros n m c L. destruct (bounded c); (apply q_bind_mono; [|by intros [? ?]]); [q_mono|by apply collect_mono].
  - intros n c. q_tame; [apply retain_tame|]. unfold sort_full. q_tame.
Qed.
End laws.

(** ** Keys with one type each *)

(** NULL, or a value of the type, and not NaN. *)
Definition comparable (kind : Z) (v : Value) : Prop :=
  v = VNull \/ (fst (value_hash_input v) = kind /\ value_wf v /\ never_nan v).

(** NULL is last; within a type the values have a rank, strings their bytes. *)
Definition value_rank (v : Value) : Z :=
  match v with
  | VInt n | VDate n | VTimestamp n => n
  | VFloat b => f64_rank b
  | VBool b => Z.b2z b
  | _ => 0
  end.
Definition value_text (v : Value) : list byte := match v with VString s => s | _ => [] end.

Lemma compare_values_preorder kind : TotalPreorder (comparable kind) compare_values.
Proof.
  apply (preorder_ext _ (fun a b => cmp_then (Z.b2z (is_null a) ?= Z.b2z (is_null b))
    (cmp_then (value_rank a ?= value_rank b) (bytes_cmp (value_text a) (value_text b))))).
  - intros a b [->|(Ka & Wa & Na)] [->|(Kb & Wb & Nb)]; [done|by destruct b|by destruct a|].
    destruct a as [x|x| |x|x|x|x], b as [y|y| |y|y|y|y]; cbn in *; try congruence; try done;
      try (by destruct (_ ?= _)).
    rewrite f64_compare_rank by (done || word_lia). cbn. by destruct (_ ?= _).
  - repeat apply cmp_then_preorder; try apply key_preorder.
    apply (image_preorder _ (fun _ => True) value_text); [done|apply bytes_preorder].
Qed.

(** The value each ORDER BY column compares, if the row has one. *)
Section keys.
Context `{Lowercase}.

Fixpoint sort_values (columns : list (list byte)) (order_by : list OrderByColumn) (row keys : Row)
    : list (option Value) :=
  match order_by with
  | [] => []
  | o :: order_by =>
      match order_expr o with
      | Some _ => head keys :: sort_values columns order_by row (tail keys)
      | None => (idx ← column_position columns (column o); row !! idx) :: sort_values columns order_by row keys
      end
  end.

Fixpoint expression_keys (order_by : list OrderByColumn) : nat :=
  match order_by with
  | [] => 0
  | o :: order_by => match order_expr o with Some _ => 1 | None => 0 end + expression_keys order_by
  end.

Definition compare_optional (a b : option Value) : comparison :=
  match a, b with Some x, Some y => compare_values x y | _, _ => Eq end.

Fixpoint compare_keys (order_by : list OrderByColumn) (a b : list (option Value)) : comparison :=
  match order_by with
  | [] => Eq
  | o :: order_by =>
      cmp_then (let c := compare_optional (default None (head a)) (default None (head b)) in
                if asc o then c else CompOpp c)
        (compare_keys order_by (tail a) (tail b))
  end.

(** The comparison of rows is that of their keys, one after the other. *)
Lemma compare_rows_keys columns order_by a b a_keys b_keys :
  length a_keys = expression_keys order_by -> length b_keys = expression_keys order_by ->
  compare_rows columns order_by a b a_keys b_keys
  = Some (compare_keys order_by (sort_values columns order_by a a_keys) (sort_values columns order_by b b_keys)).
Proof.
  revert a_keys b_keys. induction order_by as [|o order_by IH]; intros a_keys b_keys La Lb; [done|].
  cbn [compare_rows compare_keys sort_values expression_keys] in *. destruct (order_expr o); cbn [Nat.add] in *.
  - destruct a_keys as [|x a_keys], b_keys as [|y b_keys]; try done. injection La as La. injection Lb as Lb.
    cbn. rewrite IH by done. by destruct (compare_values x y), (asc o).
  - destruct (column_position columns (column o)) as [idx|]; cbn; [|rewrite IH by done; by destruct (asc o)].
    destruct (a !! idx) as [x|], (b !! idx) as [y|]; cbn; rewrite IH by done; try (by destruct (asc o)).
    by destruct (compare_values x y), (asc o).
Qed.

(** [types]: the type of each key, none for a column the rows do not have. *)
Definition typed_keys (types : list (option Z)) (vs : list (option Value)) : Prop :=
  Forall2 (fun t v => match t, v with
    | Some t, Some v => comparable t v
    | None, None => True
    | _, _ => False
    end) types vs.

Lemma compare_keys_nil order_by : compare_keys order_by [] [] = Eq.
Proof. induction order_by as [|o order_by IH]; [done|]. cbn. rewrite IH. by destruct (asc o). Qed.

Lemma compare_keys_preorder order_by types : TotalPreorder (typed_keys types) (compare_keys order_by).
Proof.
  revert types. induction order_by as [|o order_by IH]; intros types; cbn; [apply eq_preorder|].
  destruct types as [|t types].
  { assert (N : forall a b, typed_keys [] a -> typed_keys [] b -> compare_keys (o :: order_by) a b = Eq).
    { intros a b Ha Hb. inversion_clear Ha. inversion_clear Hb. apply compare_keys_nil. }
    apply (preorder_ext _ (fun _ _ => Eq)); [|apply eq_preorder]. intros a b Ha Hb. by rewrite <- (N a b). }
  apply cmp_then_preorder; [|apply (image_preorder _ (typed_keys types)); [|apply IH]].
  - set (E v := match t, v with Some t, Some v => comparable t v | None, None => True | _, _ => False end).
    assert (P : TotalPreorder E compare_optional).
    { destruct t as [t|].
      - pose proof (compare_values_preorder t) as P. split.
        + intros [a|] [b|] Ha Hb; try done. exact (cmp_flip (cmp:=compare_values) a b Ha Hb).
        + intros [a|] [b|] [c|] Ha Hb Hc; try done. exact (cmp_trans (cmp:=compare_values) a b c Ha Hb Hc).
      - split; [by intros [a|] [b|]|by intros [a|] [b|] [c|]]. }
    pose proof (image_preorder (typed_keys (t :: types)) E (fun a => default None (head a)) compare_optional) as I.
    assert (I' := I ltac:(intros vs Hv; by inversion_clear Hv) P).
    destruct (asc o); [exact I'|by apply (cmp_opp_preorder _ _ I')].
  - intros vs Hv. by inversion_clear Hv.
Qed.

(** A decorated row whose keys have the types. *)
Definition typed_row (columns : list (list byte)) (order_by : list OrderByColumn) (types : list (option Z))
    (d : Row * Row) : Prop :=
  length (fst d) = expression_keys order_by /\ typed_keys types (sort_values columns order_by (snd d) (fst d)).

Lemma decorated_preorder columns order_by types :
  TotalPreorder (typed_row columns order_by types) (compare_decorated columns order_by).
Proof.
  apply (preorder_ext _ (fun a b => compare_keys order_by (sort_values columns order_by (snd a) (fst a))
    (sort_values columns order_by (snd b) (fst b)))).
  - intros a b [La _] [Lb _]. unfold compare_decorated. by rewrite compare_rows_keys.
  - apply (image_preorder _ (typed_keys types) (fun d => sort_values columns order_by (snd d) (fst d)));
      [by intros d []|apply compare_keys_preorder].
Qed.
End keys.

(** ** The best rows *)

Section best.
Context {A : Type} {D : A -> Prop} {cmp : A -> A -> comparison} `{!TotalPreorder D cmp}.

(** [best] are the [k] first of [l], in some order. *)
Definition best_of (k : nat) (l best : list A) : Prop :=
  length best = (k `min` length l)%nat /\
  exists rest, best ++ rest ≡ₚ l /\ forall a b, a ∈ best -> b ∈ rest -> cmp_le cmp a b.

Lemma best_of_all k l : (length l <= k)%nat -> best_of k l l.
Proof. intros L. split; [lia|]. exists []. rewrite app_nil_r. split; [done|]. by intros a b _ []%not_elem_of_nil. Qed.

Lemma best_of_keep k l best x w :
  Forall D l -> D x -> best_of k l best -> length best = k -> w ∈ best -> (forall a, a ∈ best -> cmp_le cmp a w) ->
  cmp x w <> Lt -> best_of k (l ++ [x]) best.
Proof.
  intros Hl Hx (Lb & rest & P & B) K Hw M C. split; [rewrite length_app; cbn; lia|].
  exists (x :: rest). rewrite <- P. split; [by rewrite <- Permutation_cons_append, Permutation_middle|].
  assert (Db : Forall D best) by (rewrite <- P in Hl; by apply Forall_app in Hl as [? _]). rewrite Forall_forall in Db.
  intros a b Ha [->|Hb]%elem_of_cons; [|by apply B]. apply (cmp_le_trans a w x); auto.
  unfold cmp_le. rewrite (cmp_flip x w) by auto. by destruct (cmp x w).
Qed.

Lemma best_of_replace k l best x i w :
  Forall D l -> D x -> best_of k l best -> length best = k -> best !! i = Some w ->
  (forall a, a ∈ best -> cmp_le cmp a w) -> cmp x w = Lt -> best_of k (l ++ [x]) (<[i := x]> best).
Proof.
  intros Hl Hx (Lb & rest & P & B) K Hw M C. split; [rewrite length_insert, length_app; cbn; lia|].
  exists (w :: rest). pose proof (lookup_lt_Some _ _ _ Hw) as Li.
  pose proof (take_drop_middle _ _ _ Hw) as T. assert (Hl' := Hl). rewrite <- P in Hl'.
  apply Forall_app in Hl' as [Db Dr]. rewrite Forall_forall in Db, Dr.
  assert (W : w ∈ best) by by eapply list_elem_of_lookup_2. split.
  - rewrite insert_take_drop by done. rewrite <- P. rewrite <- T at 3. rewrite <- !app_assoc. cbn.
    rewrite <- Permutation_cons_append. rewrite <- !Permutation_middle. constructor.
  - assert (XW : cmp_le cmp x w) by (unfold cmp_le; by rewrite C).
    assert (In : forall a, a ∈ <[i := x]> best -> a = x \/ a ∈ best).
    { intros a (j & Ej)%list_elem_of_lookup. apply list_lookup_insert_Some in Ej as [(_ & -> & _)|(_ & Ej)]; [by left|].
      right. by eapply list_elem_of_lookup_2. }
    intros a b [->|Ha]%In [->|Hb]%elem_of_cons; [done| |by apply M|by apply B].
    apply (cmp_le_trans x w b); auto.
Qed.

(** Sorted, they are the beginning of every sorted arrangement, up to the
    order. *)
Lemma best_of_sorted k l best sorted :
  Forall D l -> best_of k l best -> StronglySorted (cmp_le cmp) best ->
  sorted ≡ₚ l -> StronglySorted (cmp_le cmp) sorted ->
  Forall2 (fun a b => cmp a b = Eq) best (take k sorted).
Proof.
  intros Hl (Lb & rest & P & B) S Q S'.
  assert (Hl' := Hl). rewrite <- P in Hl'. apply Forall_app in Hl' as [Db Dr].
  assert (Sr := sort_by_sorted (cmp:=cmp) rest Dr).
  assert (Sall : StronglySorted (cmp_le cmp) (best ++ sort_by cmp rest)).
  { clear Lb P. induction S as [|x best S IH F]; [done|]. inversion_clear Db as [|? ? Hx Db']. constructor.
    - apply IH; [|done]. intros a b Ha Hb. apply B; [by right|done].
    - apply Forall_app. split; [done|]. rewrite sort_by_perm. apply Forall_forall. intros b Hb. apply B; [by left|done]. }
  assert (G : Forall2 (fun a b => cmp a b = Eq) (best ++ sort_by cmp rest) sorted).
  { apply (sorted_agree (D:=D)); [| |done|done].
    - apply Forall_app. split; [done|]. by rewrite sort_by_perm.
    - by rewrite sort_by_perm, Q. }
  apply Forall2_app_inv_l in G as (s1 & s2 & G1 & _ & ->).
  pose proof (Forall2_length _ _ _ G1) as L1. rewrite take_app.
  replace (take k s1) with s1 by (symmetry; apply take_ge; lia).
  apply Permutation_length in Q. rewrite length_app in Q.
  destruct (Nat.le_gt_cases k (length l)) as [K|K].
  - replace (k - length s1)%nat with 0%nat by lia. by rewrite app_nil_r.
  - replace (length s1) with (length l) in Q by lia. destruct s2; [|cbn in Q; lia]. by rewrite take_nil, app_nil_r.
Qed.
End best.

(** ** Streams *)

Section streams.
Context {rt : Runtime} `{Lowercase} `{SortingLaws} {Src : Type} `{ExecutorLaws Src}.

Lemma q_sort_ok {A} (D : A -> Prop) (cmp : A -> A -> comparison) l :
  TotalPreorder D cmp -> Forall D l ->
  exists l', q_sort cmp l unlimited = Some (Ok l', unlimited) /\ l' ≡ₚ l /\ StronglySorted (cmp_le cmp) l'.
Proof.
  intros P Hl. destruct (sort_unstable_sorts D cmp l P Hl) as (l' & E & Q & S).
  exists l'. split; [|done]. unfold q_sort. by rewrite E.
Qed.

Lemma decorate_all_rows ob rows ds : decorate_all ob rows = Ok ds -> ds.*2 = rows.
Proof.
  revert ds. induction rows as [|row rows IH]; intros ds E; cbn in E; [by simplify_eq|].
  apply exec_bind_Ok in E as (keys & _ & E). apply exec_bind_Ok in E as (rest & E' & E). simplify_eq. cbn.
  by rewrite (IH _ E').
Qed.

Lemma decorate_all_cons ob row rows ds :
  decorate_all ob (row :: rows) = Ok ds ->
  exists keys rest, decorate_row_keys ob row = Ok keys /\ decorate_all ob rows = Ok rest /\ ds = (keys, row) :: rest.
Proof.
  cbn. intros (keys & K & E)%exec_bind_Ok. apply exec_bind_Ok in E as (rest & R & E). simplify_eq. by eauto.
Qed.

(** Without expression keys the rows are decorated with nothing. *)
Lemma decorate_all_plain ob rows :
  forallb (fun o => match order_expr o with None => true | Some _ => false end) ob = true ->
  decorate_all ob rows = Ok (pair [] <$> rows).
Proof.
  intros F. assert (P : forall row, decorate_row_keys ob row = Ok []).
  { intros row. induction ob as [|o ob IH]; [done|]. cbn in *. by destruct (order_expr o); [|apply IH]. }
  induction rows as [|row rows IH]; [done|]. cbn. by rewrite P, IH.
Qed.

Lemma sorted_map {A B} (f : A -> B) (c : B -> B -> comparison) l :
  StronglySorted (cmp_le (fun a b => c (f a) (f b))) l -> StronglySorted (cmp_le c) (f <$> l).
Proof. induction 1 as [|x l S IH F]; cbn; constructor; [done|]. by apply Forall_fmap. Qed.

Lemma sort_full_ok (c : Sort Src) rows ds types :
  decorate_all (order_by c) rows = Ok ds -> Forall (typed_row (columns c) (order_by c) types) ds ->
  exists sorted, sort_full c rows unlimited = Some (Ok sorted.*2, unlimited) /\ sorted ≡ₚ ds
    /\ StronglySorted (cmp_le (compare_decorated (columns c) (order_by c))) sorted.
Proof.
  intros E T. pose proof (decorated_preorder (columns c) (order_by c) types) as P. unfold sort_full.
  destruct (forallb _ (order_by c)) eqn:F.
  - rewrite decorate_all_plain in E by done. injection E as <-. rewrite Forall_fmap in T.
    pose proof (image_preorder _ _ (pair ([] : Row)) _ (fun a Ha => Ha) P) as P'.
    destruct (q_sort_ok _ _ rows P' T) as (rows' & E & Q & S). exists (pair [] <$> rows').
    rewrite E. split; [|split; [by rewrite Q|by apply sorted_map]].
    rewrite <- list_fmap_compose. unfold compose. cbn. by rewrite list_fmap_id.
  - unfold q_eval. rewrite E. destruct (q_sort_ok _ _ ds P T) as (sorted & E' & Q & S). exists sorted.
    by rewrite (q_bind_ret _ _ _ ds unlimited eq_refl), (q_bind_ret _ _ _ _ _ E').
Qed.

Lemma worst_idx_ok (D : Row * Row -> Prop) cmp l :
  TotalPreorder D cmp -> Forall D l -> l <> [] ->
  exists i w, worst_idx cmp l = Some i /\ l !! i = Some w /\ forall a, a ∈ l -> cmp_le cmp a w.
Proof.
  intros P Hl N. unfold worst_idx. destruct (imap (fun i r => (i, r)) l) as [|x il] eqn:E.
  { destruct l; [done|]. by apply (f_equal length) in E. }
  pose proof (image_preorder (fun p => D (snd p)) D (snd (A:=nat)) cmp (fun a Ha => Ha) P) as P'.
  assert (M : forall p, p ∈ x :: il <-> l !! fst p = Some (snd p)).
  { intros [i r]. rewrite <- E, list_elem_of_lookup. cbn. split.
    - intros (j & Ej). rewrite list_lookup_imap in Ej. apply fmap_Some in Ej as (r' & Er & [= -> ->]). done.
    - intros L. exists i. by rewrite list_lookup_imap, L. }
  assert (Dil : Forall (fun p => D (snd p)) (x :: il)).
  { apply Forall_forall. intros p Hp%M. rewrite Forall_lookup in Hl. by eapply Hl. }
  inversion_clear Dil as [|? ? Hx Hil].
  destruct (max_by_spec (cmp:=fun p q => cmp (snd p) (snd q)) x il Hx Hil) as [I B].
  set (m := max_by _ x il) in *. exists (fst m), (snd m). split; [done|]. split; [by apply M|].
  intros a (j & Ej)%list_elem_of_lookup. apply (B (j, a)). by apply M.
Qed.

(** One more row. *)
Lemma retain_step (c : Sort Src) types k ds best keys row :
  let cmp := compare_decorated (columns c) (order_by c) in
  let D := typed_row (columns c) (order_by c) types in
  Forall D ds -> D (keys, row) -> decorate_row_keys (order_by c) row = Ok keys ->
  best_of (cmp:=cmp) k ds best ->
  exists best', retain c k best row unlimited = Some (Ok best', unlimited)
    /\ best_of (cmp:=cmp) k (ds ++ [(keys, row)]) best'.
Proof.
  intros cmp D Hd Hr K B. pose proof (decorated_preorder (columns c) (order_by c) types) as P. unfold retain.
  destruct (Nat.eqb_spec k 0) as [->|Nk].
  { exists best. split; [done|]. destruct B as (Lb & rest & Q & _). destruct best; [|done]. split; [done|].
    exists (ds ++ [(keys, row)]). split; [done|]. by intros a b []%not_elem_of_nil. }
  unfold q_eval. rewrite K. rewrite (q_bind_ret _ _ _ keys unlimited eq_refl).
  assert (Db : Forall D best).
  { destruct B as (_ & rest & Q & _). rewrite <- Q in Hd. by apply Forall_app in Hd as [? _]. }
  destruct (Nat.ltb_spec (length best) k) as [L|L].
  - exists (best ++ [(keys, row)]). split; [done|]. destruct B as (Lb & rest & Q & _).
    assert (rest = []) as ->. { apply Permutation_length in Q. rewrite length_app in Q. destruct rest; [done|cbn in Q; lia]. }
    rewrite app_nil_r in Q. split; [rewrite !length_app; cbn; lia|]. exists []. rewrite app_nil_r, Q.
    split; [done|]. by intros a b _ []%not_elem_of_nil.
  - assert (Lk : length best = k) by (destruct B as (Lb & _); lia).
    destruct (worst_idx_ok D cmp best P Db ltac:(by intros ->)) as (i & w & W & Hw & M).
    fold cmp. rewrite W. assert (G : index_get (E:=QueryError) best (Z.of_nat i) = Ok w).
    { unfold index_get. by rewrite (proj2 (Z.leb_le 0 _)), Nat2Z.id, Hw by lia. }
    rewrite G, (q_bind_ret _ _ _ w unlimited eq_refl).
    assert (Wb : w ∈ best) by by eapply list_elem_of_lookup_2. destruct (cmp (keys, row) w) eqn:C.
    + exists best. split; [done|]. eapply (best_of_keep (D:=D)); [done..|]. by rewrite C.
    + exists (<[i := (keys, row)]> best). split; [done|]. by eapply (best_of_replace (D:=D)).
    + exists best. split; [done|]. eapply (best_of_keep (D:=D)); [done..|]. by rewrite C.
Qed.

Lemma retain_all (c : Sort Src) types k rows ds0 best0 ds :
  let cmp := compare_decorated (columns c) (order_by c) in
  let D := typed_row (columns c) (order_by c) types in
  decorate_all (order_by c) rows = Ok ds -> Forall D (ds0 ++ ds) -> best_of (cmp:=cmp) k ds0 best0 ->
  exists best, accumulate (retain c k) rows best0 = Some (Ok best) /\ best_of (cmp:=cmp) k (ds0 ++ ds) best.
Proof.
  intros cmp D. revert ds0 best0 ds. induction rows as [|row rows IH]; intros ds0 best0 ds E Hd B.
  { cbn in E. simplify_eq. rewrite app_nil_r. by eauto. }
  apply decorate_all_cons in E as (keys & rest & K & R & ->).
  rewrite (cons_middle (keys, row) ds0 rest), app_assoc in Hd |- *.
  apply Forall_app in Hd as Hd'. destruct Hd' as [Hd0 _]. apply Forall_app in Hd0 as [Hd0 Hr].
  inversion_clear Hr. destruct (retain_step c types k ds0 best0 keys row) as (b1 & E1 & B1); [done..|].
  cbn [accumulate]. rewrite E1. by apply IH.
Qed.
End streams.

Lemma project_all_map proj (p : Row -> Row) rows :
  (forall row, row ∈ rows -> apply_projection proj row = Ok (p row)) -> project_all proj rows = Ok (p <$> rows).
Proof.
  induction rows as [|row rows IH]; intros E; [done|]. cbn. rewrite E by by left. cbn.
  rewrite IH; [done|]. intros. apply E. by right.
Qed.

Lemma perm_rows (ds ds' : list (Row * Row)) row : ds' ≡ₚ ds -> row ∈ ds'.*2 -> row ∈ ds.*2.
Proof. intros P. by rewrite P. Qed.

Section sorted_streams.
Context {rt : Runtime} `{Lowercase} `{SortingLaws} {Src : Type} `{ExecutorLaws Src}.
Context (s : Src) (rs : list ExecResult) (ob : list OrderByColumn) (cols : list (list byte)) (proj : list Z).
Context (types : list (option Z)) (ds : list (Row * Row)) (p : Row -> Row).
Context (Y : yields s rs (Ok tt)) (Hd : decorate_all ob (rows_of rs) = Ok ds).
Context (Ht : Forall (typed_row cols ob types) ds).
Context (Hp : forall row, row ∈ rows_of rs -> apply_projection proj row = Ok (p row)).

Lemma sort_all_yields :
  exists sorted, sorted ≡ₚ ds /\ StronglySorted (cmp_le (compare_decorated cols ob)) sorted
    /\ yields (mat_new (mk_sort s ob cols proj None)) (ResRow <$> (p <$> sorted.*2)) (Ok tt).
Proof.
  pose proof (decorate_all_rows _ _ _ Hd) as Rows.
  destruct (collect_ok s rs Y) as (n & s' & E). set (c := mk_sort s ob cols proj None).
  destruct (sort_full_ok c (rows_of rs) ds types Hd Ht) as (sorted & E' & Q & S).
  exists sorted. split; [done|]. split; [done|]. apply (mat_yields n _ (mk_sort s' ob cols proj None)).
  unfold consume, sort_consumer. cbn [bounded sort_input c].
  rewrite (q_bind_ret _ _ _ _ _ E). fold c. rewrite (q_bind_ret _ _ _ _ _ E'). cbn [sort_projection c].
  rewrite (project_all_map _ p); [done|]. intros row Hr. apply Hp. rewrite <- Rows. by apply (perm_rows ds sorted).
Qed.

Lemma sort_bounded_yields k :
  exists best,
    yields (mat_new (mk_sort s ob cols proj (Some k))) (ResRow <$> (p <$> best.*2)) (Ok tt)
    /\ forall sorted, sorted ≡ₚ ds -> StronglySorted (cmp_le (compare_decorated cols ob)) sorted ->
      Forall2 (fun a b => compare_decorated cols ob a b = Eq) best (take k sorted).
Proof.
  pose proof (decorate_all_rows _ _ _ Hd) as Rows. pose proof (decorated_preorder cols ob types) as P.
  set (c := mk_sort s ob cols proj (Some k)).
  destruct (retain_all c types k (rows_of rs) [] [] ds Hd Ht) as (best0 & A & B); [apply best_of_all; cbn; lia|].
  apply (drain_ok (retain c k) s rs) in A as (n & s' & E & _); [|apply retain_tame|done]. cbn [app] in B.
  assert (D0 : Forall (typed_row cols ob types) best0).
  { destruct B as (_ & rest & Q & _). rewrite <- Q in Ht. by apply Forall_app in Ht as [? _]. }
  destruct (q_sort_ok _ _ best0 P D0) as (best & E' & Q & S). exists best.
  assert (B' : best_of (cmp:=compare_decorated cols ob) k ds best).
  { destruct B as (Lb & rest & R & C). split; [by rewrite Q|]. exists rest. rewrite Q. split; [done|].
    intros a b Ha. apply C. by rewrite <- Q. }
  split; [|intros sorted Q' S'; by apply (best_of_sorted (D:=typed_row cols ob types) k ds)].
  apply (mat_yields n _ (mk_sort s' ob cols proj (Some k))).
  unfold consume, sort_consumer. cbn [bounded sort_input c].
  rewrite (q_bind_ret _ _ _ _ _ E). cbn [columns order_by c]. rewrite (q_bind_ret _ _ _ _ _ E').
  cbn [sort_projection c]. rewrite (project_all_map _ p); [done|]. intros row Hr. apply Hp. rewrite <- Rows.
  destruct B' as (_ & rest & R & _). rewrite <- R, fmap_app. apply elem_of_app. by left.
Qed.
End sorted_streams.


Definition sample_order : list OrderByColumn := [mk_order [x61] true None].
Definition sample_lowercase : Lowercase := to_ascii_lowercase.
#[local] Existing Instance insertion_sorting.
#[local] Existing Instance insertion_sorting_laws.
#[local] Existing Instance sample_lowercase.
#[local] Existing Instance sample_runtime.


(** NULL keys come last in ascending order and first in descending order,
    although the comment on [compare_values] has them last in both. *)
Theorem descending_nulls_first `{Lowercase} cols col e a b v :
  v <> VNull ->
  compare_rows cols [mk_order col true (Some e)] a b [VNull] [v] = Some Gt
  /\ compare_rows cols [mk_order col false (Some e)] a b [VNull] [v] = Some Lt.
Proof. by destruct v. Qed.

Lemma descending_nulls_first_witness :
  compare_rows [] [mk_order [] true (Some (ConstantExpression VNull))] [] [] [VNull] [VInt 1] = Some Gt
  /\ compare_rows [] [mk_order [] false (Some (ConstantExpression VNull))] [] [] [VNull] [VInt 1] = Some Lt.
Proof. by apply descending_nulls_first. Defined.

(** The comparison is no order across types: [2.0], a string and [1] would
    have to be equal, and are not. *)
Theorem mixed_keys_unordered :
  compare_values (VFloat (f64_of_int 2)) (VString [x61]) = Eq
  /\ compare_values (VString [x61]) (VInt 1) = Eq
  /\ compare_values (VFloat (f64_of_int 2)) (VInt 1) = Gt.
Proof. by vm_compute. Qed.
