(* ===== verification/Joins.v ===== *)
(** * Joins

    [src/executor/join.rs] (hash join), [nested_loop_join.rs] (inner, left and
    full joins on any predicate) and [sort_merge_join.rs], with the parts of
    [plan.rs] they are configured by, and their executor laws.  [JoinStreams]
    proves which rows they produce. *)

From Stdlib Require Import Strings.String ZArith Strings.Byte Lia List Sorting.Sorted.
From stdpp Require Import base tactics list numbers gmap.
From S2P Require Import Prelude RowKey Values Text DateTime Like Expr Budget Executor Ordering Hashing Operators Sort.
#[local] Open Scope Z_scope.

(** ** Configuration *)

Record ColumnRef := mk_column_ref { ref_table : option (list byte); ref_column : list byte }.
Record JoinCondition := mk_condition { left_column : ColumnRef; right_column : ColumnRef }.
Inductive JoinSide := SideLeft | SideRight.
Inductive NestedLoopJoinType := JoinInner | JoinLeft | JoinFull.

(** [HashMap<String, usize>], a finite map. *)
Abbreviation ColumnIndices := (list (list byte * Z)).
Definition indices_get (m : ColumnIndices) (name : list byte) : option Z :=
  snd <$> find (fun e => bool_decide (fst e = name)) m.

(** An [OutputColumn], of which the executors read [column_index], with its
    side. *)
Abbreviation Output := (list (Z * JoinSide)).

Section columns.
Context `{Lowercase}.

Definition condition_column_index (m : ColumnIndices) (c : ColumnRef) : option Z :=
  match ref_table c with
  | Some table =>
      match indices_get m (to_lowercase table ++ [x2e] ++ to_lowercase (ref_column c)) with
      | Some idx => Some idx
      | None => indices_get m (ref_column c)
      end
  | None => indices_get m (ref_column c)
  end.

Fixpoint key_values (m : ColumnIndices) (columns : list ColumnRef) (row : Row) : exec QueryError Row :=
  match columns with
  | [] => Ok []
  | c :: columns =>
      match condition_column_index m c with
      | None => Panic
      | Some idx =>
          let? v := index_get row idx in
          let? vs := key_values m columns row in Ok (v :: vs)
      end
  end.

(** [join_key] of the sort-merge join: none when a value is NULL. *)
Definition join_key (m : ColumnIndices) (columns : list ColumnRef) (row : Row) : exec QueryError (option Row) :=
  let? key := key_values m columns row in
  Ok (if existsb is_null key then None else Some key).

Definition normalize_zero (v : Value) : Value :=
  match v with VFloat f => if f64_eqb f 0 then VFloat 0 else v | v => v end.
Definition normalize_signed_zero_key (key : Row) : Row := map normalize_zero key.

(** [build_hash_key_left] and [build_hash_key_right]. *)
Definition build_hash_key (m : ColumnIndices) (columns : list ColumnRef) (row : Row)
    : exec QueryError (option Row) :=
  let? key := join_key m columns row in
  Ok (match key with Some key => Some (normalize_signed_zero_key key) | None => None end).
End columns.

Fixpoint build_output_row (output : Output) (left_row right_row : Row) : exec QueryError Row :=
  match output with
  | [] => Ok []
  | (idx, side) :: output =>
      let? v := index_get (match side with SideLeft => left_row | SideRight => right_row end) idx in
      let? vs := build_output_row output left_row right_row in Ok (v :: vs)
  end.

Fixpoint build_padded_row (output : Output) (left_row right_row : option Row) : exec QueryError Row :=
  match output with
  | [] => Ok []
  | (idx, side) :: output =>
      let? v :=
        match (match side with SideLeft => left_row | SideRight => right_row end) with
        | Some row => index_get row idx
        | None => Ok VNull
        end in
      let? vs := build_padded_row output left_row right_row in Ok (v :: vs)
  end.

(** ** The hash join *)

Inductive JoinPhase := BuildRight | OutputPhase.

(** [executed] of the source only sets the phase to what it is at first. *)
Record JoinExecutor (L R : Type) := mk_join {
  left_executor : L;
  right_executor : R;
  conditions : list JoinCondition;
  join_output : Output;
  left_column_indices : ColumnIndices;
  right_column_indices : ColumnIndices;
  right_hashmap : Buckets;
  current_left : option Row;
  current_match_key : option Row;
  current_right_index : nat;
  phase : JoinPhase
}.
Arguments mk_join {L R}. Arguments left_executor {L R}. Arguments right_executor {L R}.
Arguments conditions {L R}. Arguments join_output {L R}. Arguments left_column_indices {L R}.
Arguments right_column_indices {L R}. Arguments right_hashmap {L R}. Arguments current_left {L R}.
Arguments current_match_key {L R}. Arguments current_right_index {L R}. Arguments phase {L R}.

Definition join_new {L R} (l : L) (r : R) conditions output li ri : JoinExecutor L R :=
  mk_join l r conditions output li ri [] None None 0 BuildRight.

Section hash_join.
Context `{Lowercase} `{Probing} {L R : Type} `{Executor L} `{Executor R}.
Implicit Types st : JoinExecutor L R.

Definition build_right (st : JoinExecutor L R) (m : Buckets) (row : Row) : qm Buckets :=
  let! key := q_lift (build_hash_key (right_column_indices st) (right_column <$> conditions st) row) in
  match key with
  | Some key => let! (_, m) := charge_bucket_insert m key row in q_ret m
  | None => q_ret m
  end.

Definition with_left st l (cur key : option Row) (i : nat) : JoinExecutor L R :=
  mk_join l (right_executor st) (conditions st) (join_output st) (left_column_indices st)
    (right_column_indices st) (right_hashmap st) cur key i (phase st).

(** The current left row against its bucket. *)
Definition probe_left st (left_row : Row) : qm (JoinExecutor L R + (option ExecResult * JoinExecutor L R)) :=
  let next_left := with_left st (left_executor st) None (current_match_key st) (current_right_index st) in
  let! key :=
    if (current_right_index st =? 0)%nat
    then q_lift (build_hash_key (left_column_indices st) (left_column <$> conditions st) left_row)
    else match current_match_key st with Some key => q_ret (Some key) | None => q_lift Panic end in
  match key with
  | None => q_ret (inl next_left)
  | Some key =>
      match map_get (right_hashmap st) key with
      | Some bucket =>
          match bucket !! current_right_index st with
          | Some right_row =>
              let! out := q_lift (build_output_row (join_output st) left_row right_row) in
              q_ret (inr (Some (ResRow out),
                with_left st (left_executor st) (Some left_row) (Some key) (S (current_right_index st))))
          | None => q_ret (inl (with_left st (left_executor st) None (Some key) (current_right_index st)))
          end
      | None => q_ret (inl (with_left st (left_executor st) None (Some key) (current_right_index st)))
      end
  end.

(** One turn of the loop of [next]. *)
Definition join_body (n : nat) st : qm (JoinExecutor L R + (option ExecResult * JoinExecutor L R)) :=
  match phase st with
  | BuildRight =>
      let! (m, r) := drain n (build_right st) (right_executor st) (right_hashmap st) in
      q_ret (inl (mk_join (left_executor st) r (conditions st) (join_output st) (left_column_indices st)
        (right_column_indices st) m (current_left st) (current_match_key st) (current_right_index st) OutputPhase))
  | OutputPhase =>
      match current_left st with
      | None =>
          let! (r, l) := next n (left_executor st) in
          let kept := with_left st l None (current_match_key st) (current_right_index st) in
          match r with
          | Some (ResRow row) => probe_left (with_left st l (Some row) (current_match_key st) 0) row
          | Some _ => q_ret (inl kept)
          | None => q_ret (inr (None, kept))
          end
      | Some row => probe_left st row
      end
  end.

#[global] Instance join_executor : Executor (JoinExecutor L R) := {
  next n st := q_loop n (join_body n) st;
  finished st := phase st = OutputPhase /\ current_left st = None /\ finished (left_executor st)
}.
End hash_join.

(** ** The nested loop join *)

Record NestedLoopJoinExecutor (L R : Type) := mk_nlj {
  nl_left : L;
  nl_right : R;
  nl_predicate : Pred;
  nl_output : Output;
  join_type : NestedLoopJoinType;
  right_rows : list Row;
  right_materialized : bool;
  nl_current_left : option Row;
  nl_right_index : nat;
  left_matched : bool;
  right_matched : list bool;
  drain_index : nat
}.
Arguments mk_nlj {L R}. Arguments nl_left {L R}. Arguments nl_right {L R}. Arguments nl_predicate {L R}.
Arguments nl_output {L R}. Arguments join_type {L R}. Arguments right_rows {L R}.
Arguments right_materialized {L R}. Arguments nl_current_left {L R}. Arguments nl_right_index {L R}.
Arguments left_matched {L R}. Arguments right_matched {L R}. Arguments drain_index {L R}.

Definition nlj_new {L R} (l : L) (r : R) predicate output join_type : NestedLoopJoinExecutor L R :=
  mk_nlj l r predicate output join_type [] false None 0 false [] 0.

Definition is_full (t : NestedLoopJoinType) : bool := match t with JoinFull => true | _ => false end.
Definition is_inner (t : NestedLoopJoinType) : bool := match t with JoinInner => true | _ => false end.

(** The first unmatched right row from [i] on, and where it is; a right row has
    its bit. *)
Fixpoint next_unmatched (rows : list Row) (matched : list bool) (i : nat) : exec QueryError (option (Row * nat) * nat) :=
  match rows with
  | [] => Ok (None, i)
  | row :: rows =>
      match matched with
      | [] => Panic
      | true :: matched => next_unmatched rows matched (S i)
      | false :: _ => Ok (Some (row, i), S i)
      end
  end.

Section nested_loop.
Context {rt : Runtime} {L R : Type} `{Executor L} `{Executor R}.
Implicit Types st : NestedLoopJoinExecutor L R.

(** The state of the loops; the rest of the record is kept. *)
Definition nl_set st l cur i lm rm d : NestedLoopJoinExecutor L R :=
  mk_nlj l (nl_right st) (nl_predicate st) (nl_output st) (join_type st) (right_rows st) true cur i lm rm d.

Definition next_unmatched_right_row st l : exec QueryError (option ExecResult * NestedLoopJoinExecutor L R) :=
  let set d := nl_set st l None (nl_right_index st) (left_matched st) (right_matched st) d in
  if is_full (join_type st) then
    let? (found, d) :=
      next_unmatched (drop (drain_index st) (right_rows st)) (drop (drain_index st) (right_matched st))
        (drain_index st) in
    match found with
    | Some (row, _) =>
        let? out := build_padded_row (nl_output st) None (Some row) in Ok (Some (ResRow out), set d)
    | None => Ok (None, set d)
    end
  else Ok (None, set (drain_index st)).

(** The current left row with the right row at the index, or at the end of the
    right rows. *)
Definition nl_step st (left_row : Row)
    : qm (NestedLoopJoinExecutor L R + (option ExecResult * NestedLoopJoinExecutor L R)) :=
  let (i, lm) := (nl_right_index st, left_matched st) in
  let set cur i lm rm := nl_set st (nl_left st) cur i lm rm (drain_index st) in
  match right_rows st !! i with
  | Some right_row =>
      let! hit := q_eval (evaluate_pred rt (nl_predicate st) (left_row ++ right_row)) in
      if (hit : bool) then
        let rm := if is_full (join_type st) then <[i := true]> (right_matched st) else right_matched st in
        let! out := q_lift (build_output_row (nl_output st) left_row right_row) in
        q_ret (inr (Some (ResRow out), set (Some left_row) (S i) true rm))
      else q_ret (inl (set (Some left_row) (S i) lm (right_matched st)))
  | None =>
      if negb (is_inner (join_type st)) && negb lm then
        let! out := q_lift (build_padded_row (nl_output st) (Some left_row) None) in
        q_ret (inr (Some (ResRow out), set (Some left_row) i true (right_matched st)))
      else q_ret (inl (set None i lm (right_matched st)))
  end.

(** A turn materializes the right rows, or does one step of the loops. *)
Definition nl_body (n : nat) st
    : qm (NestedLoopJoinExecutor L R + (option ExecResult * NestedLoopJoinExecutor L R)) :=
  if negb (right_materialized st) then
    let! (rows, r) := drain n push_row (nl_right st) (right_rows st) in
    let rm := if is_full (join_type st) then replicate (length rows) false else right_matched st in
    q_ret (inl (mk_nlj (nl_left st) r (nl_predicate st) (nl_output st) (join_type st) rows true
      (nl_current_left st) (nl_right_index st) (left_matched st) rm (drain_index st)))
  else
    match nl_current_left st with
    | None =>
        let! (r, l) := next n (nl_left st) in
        match r with
        | None => let! out := q_lift (next_unmatched_right_row st l) in q_ret (inr out)
        | Some (ResRow row) => q_ret (inl (nl_set st l (Some row) 0 false (right_matched st) (drain_index st)))
        | Some _ =>
            q_ret (inl (nl_set st l None (nl_right_index st) (left_matched st) (right_matched st) (drain_index st)))
        end
    | Some row => nl_step st row
    end.

#[global] Instance nl_executor : Executor (NestedLoopJoinExecutor L R) := {
  next n st := q_loop n (nl_body n) st;
  finished st := right_materialized st = true /\ nl_current_left st = None /\ finished (nl_left st)
    /\ (is_full (join_type st) = true -> (length (right_rows st) <= drain_index st)%nat)
}.
End nested_loop.

(** ** The sort-merge join *)

Definition variant_rank (v : Value) : Z :=
  match v with
  | VNull => 0 | VBool _ => 1 | VInt _ => 2 | VFloat _ => 3 | VString _ => 4 | VDate _ => 5 | VTimestamp _ => 6
  end.

Definition compare_floats (a b : Z) : comparison :=
  match f64_is_nan a, f64_is_nan b with
  | true, true => Eq
  | true, false => Gt
  | false, true => Lt
  | false, false => default Eq (f64_partial_cmp a b)
  end.

Definition compare_join_value (a b : Value) : comparison :=
  cmp_then (variant_rank a ?= variant_rank b)
    match a, b with
    | VInt x, VInt y => x ?= y
    | VFloat x, VFloat y => compare_floats x y
    | VString x, VString y => bytes_cmp x y
    | VBool x, VBool y => Z.b2z x ?= Z.b2z y
    | VDate x, VDate y => x ?= y
    | VTimestamp x, VTimestamp y => x ?= y
    | _, _ => Eq
    end.

(** The pairs first, then the lengths. *)
Fixpoint compare_join_keys (a b : Row) : comparison :=
  match a, b with
  | x :: a, y :: b => cmp_then (compare_join_value x y) (compare_join_keys a b)
  | [], [] => Eq
  | [], _ :: _ => Lt
  | _ :: _, [] => Gt
  end.

(** The rows of a group: the first and those after it with an equal key. *)
Fixpoint group_end (key : Row) (rows : list (Row * Row)) : list (Row * Row) * list (Row * Row) :=
  match rows with
  | row :: rest =>
      if key_eq (fst row) key then let (g, rest) := group_end key rest in (row :: g, rest) else ([], rows)
  | [] => ([], [])
  end.

Fixpoint product_row (output : Output) (left_row : Row) (group : list (Row * Row)) : exec QueryError (list Row) :=
  match group with
  | [] => Ok []
  | (_, right_row) :: group =>
      let? out := build_output_row output left_row right_row in
      let? rest := product_row output left_row group in Ok (out :: rest)
  end.

Fixpoint product (output : Output) (lefts rights : list (Row * Row)) : exec QueryError (list Row) :=
  match lefts with
  | [] => Ok []
  | (_, left_row) :: lefts =>
      let? out := product_row output left_row rights in
      let? rest := product output lefts rights in Ok (out ++ rest)
  end.

(** The rows from both indices on; a turn takes a row of one of them. *)
Fixpoint merge_from (fuel : nat) (output : Output) (lefts rights : list (Row * Row)) : exec QueryError (list Row) :=
  match fuel, lefts, rights with
  | S fuel, (lk, lrow) :: lefts', (rk, rrow) :: rights' =>
      match compare_join_keys lk rk, key_eq lk rk with
      | Eq, true =>
          let (lg, lrest) := group_end lk lefts' in
          let (rg, rrest) := group_end rk rights' in
          let? out := product output ((lk, lrow) :: lg) ((rk, rrow) :: rg) in
          let? rest := merge_from fuel output lrest rrest in Ok (out ++ rest)
      | Lt, _ => merge_from fuel output lefts' rights
      | _, _ => merge_from fuel output lefts rights'
      end
  | _, _, _ => Ok []
  end.

Definition merge_product (output : Output) (lefts rights : list (Row * Row)) : exec QueryError (list Row) :=
  merge_from (length lefts + length rights) output lefts rights.

Record SortMergeJoin (L R : Type) := mk_smj {
  smj_left : L;
  smj_right : R;
  smj_conditions : list JoinCondition;
  smj_output : Output;
  smj_left_indices : ColumnIndices;
  smj_right_indices : ColumnIndices
}.
Arguments mk_smj {L R}. Arguments smj_left {L R}. Arguments smj_right {L R}. Arguments smj_conditions {L R}.
Arguments smj_output {L R}. Arguments smj_left_indices {L R}. Arguments smj_right_indices {L R}.

Section sort_merge.
Context `{Lowercase}.

Definition push_keyed (m : ColumnIndices) (columns : list ColumnRef) (acc : list (Row * Row)) (row : Row)
    : qm (list (Row * Row)) :=
  let! key := q_lift (join_key m columns row) in
  match key with
  | None => q_ret acc
  | Some key => let! _ := q_charge (row_bytes row) in q_ret (acc ++ [(key, row)])
  end.

Definition collect_keyed {Src} `{Executor Src} (n : nat) (s : Src) (m : ColumnIndices) (columns : list ColumnRef)
    : qm (list (Row * Row) * Src) :=
  let! (rows, s) := drain n (push_keyed m columns) s [] in
  q_ret (sort_by (fun a b => compare_join_keys (fst a) (fst b)) rows, s).

#[global] Instance smj_consumer {L R} `{Executor L} `{Executor R} : Consumer (SortMergeJoin L R) := fun n c =>
  let! (lefts, l) := collect_keyed n (smj_left c) (smj_left_indices c) (left_column <$> smj_conditions c) in
  let! (rights, r) := collect_keyed n (smj_right c) (smj_right_indices c) (right_column <$> smj_conditions c) in
  let! out := q_lift (merge_product (smj_output c) lefts rights) in
  q_ret (out, mk_smj l r (smj_conditions c) (smj_output c) (smj_left_indices c) (smj_right_indices c)).
End sort_merge.

(** ** Laws *)

Lemma build_right_tame `{Lowercase} `{Probing} {L R} (st : JoinExecutor L R) m row : tame (build_right st m row).
Proof. unfold build_right, charge_bucket_insert. q_tame. Qed.

Section hash_laws.
Context `{Lowercase} `{Probing} {L R : Type} `{ExecutorLaws L} `{ExecutorLaws R}.

Lemma join_body_mono i j (st : JoinExecutor L R) : (i <= j)%nat -> qle (join_body i st) (join_body j st).
Proof. intros Le. unfold join_body. q_mono. Qed.

Lemma probe_left_tame (st : JoinExecutor L R) row : tame (probe_left st row).
Proof. unfold probe_left. q_tame. Qed.
#[local] Hint Resolve probe_left_tame build_right_tame : tame.

(** Probing never ends the stream. *)
Lemma probe_left_goes_on (st : JoinExecutor L R) row b x b' :
  probe_left st row b = Some (Ok x, b') -> match x with inr (None, _) => False | _ => True end.
Proof.
  unfold probe_left. intros E. apply q_bind_Ok in E as ([key|] & b1 & _ & E); [|by inv_q].
  destruct (map_get _ _) as [bucket|]; [destruct (bucket !! _)|]; by inv_q.
Qed.

#[global] Instance join_laws : ExecutorLaws (JoinExecutor L R).
Proof.
  split; cbn.
  - intros n m s Le. apply q_loop_mono; [done|]. intros a. by apply join_body_mono.
  - intros n s. apply tame_loop. intros st. unfold join_body. q_tame.
  - intros n s b s' b' E. apply q_loop_ends in E as (a & b1 & E). unfold join_body in E.
    destruct (phase a) eqn:P; [inv_q; by destruct a0|]. destruct (current_left a).
    { by apply probe_left_goes_on in E. }
    apply q_bind_Ok in E as ([[[]|] l] & b2 & N & E); try (by inv_q).
    + by apply probe_left_goes_on in E.
    + inv_q. cbn. split_and!; [done..|]. by eapply next_ends.
  - intros n s b (P & C & F) Ln.
    destruct (next_finished n (left_executor s) b F Ln) as (l & N & F').
    exists (with_left s l None (current_match_key s) (current_right_index s)).
    split; [|by repeat split]. apply q_loop_once; [done|]. unfold join_body. rewrite P, C.
    by rewrite (q_bind_ret _ _ _ _ _ N).
Qed.
End hash_laws.

Lemma next_unmatched_index rows matched i found d :
  next_unmatched rows matched i = Ok (found, d) ->
  (found = None -> d = (i + length rows)%nat) .
Proof.
  revert matched i. induction rows as [|row rows IH]; intros matched i E N; cbn in *; [simplify_eq; lia|].
  destruct matched as [|[] matched]; [done| |by simplify_eq]. rewrite (IH _ _ E N). lia.
Qed.

Section nested_laws.
Context {rt : Runtime} {L R : Type} `{ExecutorLaws L} `{ExecutorLaws R}.

Lemma nl_body_mono i j (st : NestedLoopJoinExecutor L R) : (i <= j)%nat -> qle (nl_body i st) (nl_body j st).
Proof. intros Le. unfold nl_body. q_mono. Qed.

Lemma nl_step_tame (st : NestedLoopJoinExecutor L R) row : tame (nl_step st row).
Proof. unfold nl_step. q_tame. Qed.
#[local] Hint Resolve nl_step_tame : tame.

Lemma nl_step_goes_on (st : NestedLoopJoinExecutor L R) row b x b' :
  nl_step st row b = Some (Ok x, b') -> match x with inr (None, _) => False | _ => True end.
Proof.
  unfold nl_step. intros E. destruct (right_rows st !! nl_right_index st).
  - apply q_bind_Ok in E as ([] & b1 & _ & E); by inv_q.
  - destruct (_ && _); by inv_q.
Qed.

#[global] Instance nl_laws : ExecutorLaws (NestedLoopJoinExecutor L R).
Proof.
  split; cbn.
  - intros n m s Le. apply q_loop_mono; [done|]. intros a. by apply nl_body_mono.
  - intros n s. apply tame_loop. intros st. unfold nl_body. q_tame.
  - intros n s b s' b' E. apply q_loop_ends in E as (a & b1 & E). unfold nl_body in E.
    destruct (right_materialized a) eqn:P; cbn [negb] in E; [|inv_q; by destruct a0].
    destruct (nl_current_left a); [by apply nl_step_goes_on in E|].
    apply q_bind_Ok in E as ([[[]|] l] & b2 & N & E); try (by inv_q).
    apply q_bind_Ok in E as (out & b3 & U & E). unfold q_lift in U. injection U as U ->. inv_q.
    unfold next_unmatched_right_row in U.
    destruct (is_full (join_type a)) eqn:Fu; [|simplify_eq; cbn; rewrite Fu; split_and!; [done..|by eapply next_ends|done]].
    apply exec_bind_Ok in U as ([[[row k]|] d] & Un & E'); [by apply exec_bind_Ok in E' as (? & _ & ?)|].
    simplify_eq. cbn. split_and!; [done..|by eapply next_ends|]. intros _.
    apply next_unmatched_index in Un; [|done]. rewrite length_drop in Un. lia.
  - intros n s b (P & C & F & D) Ln.
    destruct (next_finished n (nl_left s) b F Ln) as (l & N & F').
    exists (nl_set s l None (nl_right_index s) (left_matched s) (right_matched s) (drain_index s)).
    split; [|by repeat split]. apply q_loop_once; [done|]. unfold nl_body. rewrite P, C. cbn [negb].
    rewrite (q_bind_ret _ _ _ _ _ N). unfold next_unmatched_right_row.
    destruct (is_full (join_type s)) eqn:Fu; [|done]. rewrite drop_ge by by apply D. done.
Qed.
End nested_laws.

#[global] Instance smj_laws `{Lowercase} {L R} `{ExecutorLaws L} `{ExecutorLaws R} : ConsumerLaws (SortMergeJoin L R).
Proof.
  split; unfold consume, smj_consumer, collect_keyed.
  - intros n m c Le. q_mono.
  - intros n c. q_tame; unfold push_keyed; q_tame.
Qed.
