(* ===== verification/JoinStreams.v ===== *)
(** * What the joins produce

    The streams of the executors of [Joins]: the hash join, the nested loop and
    the sort-merge join produce the rows of the same list function, for each left
    row the right rows that match. *)

From Stdlib Require Import Strings.String ZArith Strings.Byte Lia List Sorting.Sorted.
From stdpp Require Import base tactics list numbers gmap.
From S2P Require Import Prelude RowKey Values Text DateTime Like Expr Budget Executor Ordering Hashing Operators Sort Joins.
#[local] Open Scope Z_scope.

(** ** Streams of loops *)

(** An executor whose call is a loop, one turn at a time. *)
Section loop_streams.
Context {T : Type} `{Executor T} (body : nat -> T -> qm (T + (option ExecResult * T))).
Context (next_loop : forall n t, next n t = q_loop n (body n) t).
Context (body_mono : forall i j a, (i <= j)%nat -> qle (body i a) (body j a)).

Lemma loop_skip n t t1 rs o :
  body n t unlimited = Some (Ok (inl t1), unlimited) -> yields t1 rs o -> yields t rs o.
Proof.
  intros B. apply yields_reaches. intros k r E. rewrite next_loop in E.
  destruct (loop_reaches body n t t1 k r body_mono B E) as [m Em]. exists m. by rewrite next_loop.
Qed.

Lemma loop_emit n t r t1 rs o :
  body n t unlimited = Some (Ok (inr (Some r, t1)), unlimited) -> yields t1 rs o -> yields t (r :: rs) o.
Proof.
  intros B. destruct (loop_answers body n t _ _ body_mono B) as [m Em]. rewrite <- next_loop in Em. by eapply yields_next.
Qed.

Lemma loop_end n t t1 : body n t unlimited = Some (Ok (inr (None, t1)), unlimited) -> yields t [] (Ok tt).
Proof.
  intros B. destruct (loop_answers body n t _ _ body_mono B) as [m Em]. rewrite <- next_loop in Em. by eapply yields_end.
Qed.

Lemma loop_error n t e b : body n t unlimited = Some (Err e, b) -> yields t [] (Err e).
Proof.
  intros B. destruct (loop_answers body n t _ _ body_mono B) as [m Em]. rewrite <- next_loop in Em. by eapply yields_error.
Qed.

Lemma loop_panic n t b : body n t unlimited = Some (Panic, b) -> yields t [] Panic.
Proof.
  intros B. destruct (loop_answers body n t _ _ body_mono B) as [m Em]. rewrite <- next_loop in Em. by eapply yields_panic.
Qed.
End loop_streams.

(** ** Buckets *)

Definition reflexive_key (k : Row) : Prop := key_eq k k = true.

(** What a table holds after the keyed rows [ins]: one bucket per key that
    equals itself, with its rows in order. *)
Record bucket_inv (m : Buckets) (ins : list (Row * Row)) : Prop := {
  bucket_normal : Forall normal_row m.*1;
  bucket_rows i k rows : m !! i = Some (k, rows) -> reflexive_key k -> rows = (filter (fun e => fst e = k) ins).*2;
  bucket_has k : k ∈ ins.*1 -> reflexive_key k -> k ∈ m.*1;
  bucket_once i j k rows rows' :
    m !! i = Some (k, rows) -> m !! j = Some (k, rows') -> reflexive_key k -> i = j
}.

Lemma bucket_inv_nil : bucket_inv [] [].
Proof. split; [constructor|done|by intros k []%not_elem_of_nil|done]. Qed.

Lemma filter_ext_in {A} (P Q : A -> Prop) `{!forall x, Decision (P x), !forall x, Decision (Q x)} (l : list A) :
  (forall x, x ∈ l -> P x <-> Q x) -> filter P l = filter Q l.
Proof.
  induction l as [|x l IH]; intros E; [done|]. rewrite !filter_cons.
  rewrite IH by (intros y Hy; apply E; by right). pose proof (E x ltac:(by left)).
  destruct (decide (P x)), (decide (Q x)); done || tauto.
Qed.

Lemma lookup_fst (m : Buckets) i k : m.*1 !! i = Some k -> exists rows, m !! i = Some (k, rows).
Proof. rewrite list_lookup_fmap. intros ([k' rows] & E & ->)%fmap_Some. by exists rows. Qed.

Lemma filter_snoc_key (ins : list (Row * Row)) k key row :
  (filter (fun e => fst e = k) (ins ++ [(key, row)])).*2
  = (filter (fun e => fst e = k) ins).*2 ++ (if decide (key = k) then [row] else []).
Proof. rewrite filter_app, fmap_app, filter_cons. cbn [fst]. by destruct (decide (key = k)). Qed.

Section buckets.
Context `{ProbingLaws}.

Lemma bucket_push_inv m ins key row rows i :
  bucket_inv m ins -> m !! i = Some (key, rows) ->
  bucket_inv (alter (fun e => (fst e, snd e ++ [row])) i m) (ins ++ [(key, row)]).
Proof.
  intros [Nm Rm Hm Om] Ei.
  assert (Keys : (alter (fun e => (fst e, snd e ++ [row])) i m).*1 = m.*1).
  { apply list_eq. intros j. rewrite !list_lookup_fmap. destruct (decide (j = i)) as [->|Ne].
    - by rewrite list_lookup_alter_eq, Ei.
    - by rewrite list_lookup_alter_ne. }
  assert (At : forall j k rs, alter (fun e => (fst e, snd e ++ [row])) i m !! j = Some (k, rs) ->
    exists rs0, m !! j = Some (k, rs0) /\ (j = i -> rs = rs0 ++ [row]) /\ (j <> i -> rs = rs0)).
  { intros j k rs Ej. destruct (decide (j = i)) as [->|Ne].
    - rewrite list_lookup_alter_eq, Ei in Ej. cbn in Ej. simplify_eq. by exists rows.
    - rewrite list_lookup_alter_ne in Ej by done. by exists rs. }
  split.
  - by rewrite Keys.
  - intros j k rs Ej Rf. apply At in Ej as (rs0 & Ej & Same & Diff). rewrite filter_snoc_key, <- (Rm _ _ _ Ej Rf).
    destruct (decide (j = i)) as [->|Ne].
    + rewrite Ei in Ej. simplify_eq. by rewrite decide_True, (Same eq_refl).
    + rewrite decide_False, app_nil_r; [by apply Diff|]. intros ->. apply Ne. by eapply Om.
  - intros k Hk Rf. rewrite Keys. rewrite fmap_app, elem_of_app in Hk. destruct Hk as [Hk|Hk]; [by apply Hm|].
    apply list_elem_of_singleton in Hk as ->. cbn. apply list_elem_of_fmap. exists (key, rows). split; [done|].
    by eapply list_elem_of_lookup_2.
  - intros j j' k rs rs' Ej Ej' Rf. apply At in Ej as (? & Ej & _). apply At in Ej' as (? & Ej' & _). by eapply Om.
Qed.

Lemma bucket_new_inv m ins key row :
  bucket_inv m ins -> normal_row key -> (forall e, e ∈ m.*1 -> key_eq key e = false) ->
  bucket_inv (m ++ [(key, [row])]) (ins ++ [(key, row)]).
Proof.
  intros [Nm Rm Hm Om] Nk P.
  assert (New : reflexive_key key -> forall i rows, m !! i <> Some (key, rows)).
  { intros Rk i rows Ei. unfold reflexive_key in Rk. rewrite P in Rk; [done|]. apply list_elem_of_fmap.
    exists (key, rows). split; [done|]. by eapply list_elem_of_lookup_2. }
  split.
  - rewrite fmap_app. apply Forall_app. split; [done|]. by repeat constructor.
  - intros i k rows Ei Rf. rewrite filter_snoc_key. apply lookup_app_Some in Ei as [Ei|[Li Ei]].
    + rewrite <- (Rm _ _ _ Ei Rf). rewrite decide_False, app_nil_r; [done|]. intros ->. by apply (New Rf i rows).
    + apply list_lookup_singleton_Some in Ei as [_ [= <- <-]]. rewrite decide_True by done.
      replace (filter (fun e => fst e = key) ins) with ([] : list (Row * Row)); [done|]. symmetry.
      apply elem_of_nil_inv. intros [k r] [Ek Hk]%list_elem_of_filter. cbn [fst] in Ek. subst k.
      assert (Hin : key ∈ ins.*1) by (apply list_elem_of_fmap; by exists (key, r)).
      apply Hm in Hin; [|done]. unfold reflexive_key in Rf. by rewrite P in Rf.
  - intros k Hk Rf. rewrite !fmap_app, !elem_of_app in *. destruct Hk as [Hk|Hk]; [left; by apply Hm|by right].
  - intros i j k rs rs' Ei Ej Rf. apply lookup_app_Some in Ei as [Ei|[Li Ei]], Ej as [Ej|[Lj Ej]].
    + by eapply Om.
    + apply list_lookup_singleton_Some in Ej as [_ [= <- <-]]. by destruct (New Rf i rs).
    + apply list_lookup_singleton_Some in Ei as [_ [= <- <-]]. by destruct (New Rf j rs').
    + apply list_lookup_singleton_Some in Ei as [Ei _], Ej as [Ej _]. lia.
Qed.

Lemma bucket_insert_inv m ins key row :
  bucket_inv m ins -> normal_row key ->
  bucket_inv (map_entry m key (fun rows => rows ++ [row]) [row]) (ins ++ [(key, row)]).
Proof.
  intros I Nk. pose proof (probe_normal (N:=normal_row) m.*1 key (bucket_normal _ _ I) Nk) as P. unfold map_entry.
  destruct (probe m.*1 key) as [i|].
  - destruct P as [[rows Ei]%lookup_fst _]. by eapply bucket_push_inv.
  - by apply bucket_new_inv.
Qed.

(** A lookup finds the rows whose key is equal. *)
Lemma bucket_get m ins key :
  bucket_inv m ins -> Forall (fun e => normal_row (fst e)) ins -> normal_row key ->
  default [] (map_get m key) = (filter (fun e => key_eq key (fst e) = true) ins).*2.
Proof.
  intros [Nm Rm Hm Om] Ni Nk. pose proof (probe_normal (N:=normal_row) m.*1 key Nm Nk) as P. unfold map_get.
  destruct (probe m.*1 key) as [i|].
  - destruct P as [Pi Rk]. apply lookup_fst in Pi as [rows Ei]. rewrite Ei. cbn. rewrite (Rm _ _ _ Ei Rk). f_equal.
    rewrite Forall_forall in Ni. apply filter_ext_in. intros [k r] Hin. cbn. split; [by intros ->|].
    intros E. symmetry. apply normal_eq; [done|apply (Ni _ Hin)|done].
  - cbn. symmetry. replace (filter _ ins) with ([] : list (Row * Row)); [done|]. symmetry.
    apply elem_of_nil_inv. intros [k r] [Ek Hk]%list_elem_of_filter. cbn [fst] in Ek.
    rewrite Forall_forall in Ni. pose proof (normal_eq key k Nk (Ni _ Hk) Ek) as <-.
    assert (Hin : key ∈ ins.*1) by (apply list_elem_of_fmap; by exists (key, r)).
    apply Hm in Hin; [|done]. pose proof (P _ Hin) as Q. cbn in Q. congruence.
Qed.
End buckets.

(** ** Keys *)

#[local] Opaque f64_eqb f64_partial_cmp.

Lemma normalize_zero_eq a b :
  value_wf a -> value_wf b -> value_partial_eq (normalize_zero a) (normalize_zero b) = value_partial_eq a b.
Proof.
  intros Wa Wb. assert (W0 : in_u64 0) by word_lia. unfold normalize_zero.
  destruct a as [x|x| |x|x|x|x], b as [y|y| |y|y|y|y]; try reflexivity; cbn in Wa, Wb;
    try (by destruct (f64_eqb x 0)); try (by destruct (f64_eqb y 0)).
  destruct (f64_eqb x 0) eqn:X, (f64_eqb y 0) eqn:Y; cbn [value_partial_eq].
  - rewrite (f64_eqb_zero x y Wa Wb X), (f64_eqb_sym 0 y), Y. reflexivity.
  - symmetry. exact (f64_eqb_zero x y Wa Wb X).
  - rewrite (f64_eqb_sym x y), (f64_eqb_zero y x Wb Wa Y). apply f64_eqb_sym.
  - reflexivity.
Qed.

Lemma normalize_zero_normal v : value_wf v -> normal_value (normalize_zero v).
Proof.
  intros W. unfold normalize_zero, normal_value. destruct v as [x|x| |x|x|x|x]; try done.
  destruct (f64_eqb x 0) eqn:X; [by vm_compute|]. split; [done|]. intros [= ->]. by vm_compute in X.
Qed.

Lemma normalize_key_eq a b :
  Forall value_wf a -> Forall value_wf b ->
  key_eq (normalize_signed_zero_key a) (normalize_signed_zero_key b) = key_eq a b.
Proof.
  intros Ha. revert b. induction Ha as [|x a Hx Ha IH]; intros b Hb; [by destruct b|].
  destruct Hb as [|y b Hy Hb]; [done|]. cbn. rewrite normalize_zero_eq by done. f_equal. by apply IH.
Qed.

Lemma normalize_key_normal a : Forall value_wf a -> normal_row (normalize_signed_zero_key a).
Proof. intros Ha. apply Forall_fmap. eapply Forall_impl; [exact Ha|]. exact normalize_zero_normal. Qed.

(** Two rows whose keys are equal and not NULL. *)
Definition key_match (lk rk : Row -> Row) (l r : Row) : bool :=
  negb (existsb is_null (lk l)) && negb (existsb is_null (rk r)) && key_eq (lk l) (rk r).

(** The rows of a join: for each left row, the matching right rows. *)
Definition join_rows (matches : Row -> Row -> bool) (out : Row -> Row -> Row) (lefts rights : list Row) : list Row :=
  l ← lefts; out l <$> filter (fun r => matches l r = true) rights.

(** The keys and the output of the rows are in range, as the planner sets
    them up. *)
Record join_fits `{Lowercase} (conds : list JoinCondition) (output : Output) (li ri : ColumnIndices)
    (lefts rights : list Row) (lk rk : Row -> Row) (out : Row -> Row -> Row) : Prop := {
  fits_left l : l ∈ lefts -> key_values li (left_column <$> conds) l = Ok (lk l) /\ Forall value_wf (lk l);
  fits_right r : r ∈ rights -> key_values ri (right_column <$> conds) r = Ok (rk r) /\ Forall value_wf (rk r);
  fits_output l r : l ∈ lefts -> r ∈ rights -> build_output_row output l r = Ok (out l r)
}.

Section hash_stream.
Context `{Lowercase} `{ProbingLaws} {L R : Type} `{ExecutorLaws L} `{ExecutorLaws R}.
Context (conds : list JoinCondition) (output : Output) (li ri : ColumnIndices).
Context (lefts rights : list Row) (lk rk : Row -> Row) (out : Row -> Row -> Row).
Context (Fits : join_fits conds output li ri lefts rights lk rk out).

Definition keyed (rows : list Row) : list (Row * Row) :=
  omap (fun r => if existsb is_null (rk r) then None else Some (normalize_signed_zero_key (rk r), r)) rows.

Definition hash_state (l : L) (r : R) m cur key i : JoinExecutor L R :=
  mk_join l r conds output li ri m cur key i OutputPhase.

Lemma keyed_normal rows : (forall r, r ∈ rows -> r ∈ rights) -> Forall (fun e => normal_row (fst e)) (keyed rows).
Proof.
  intros Sub. apply Forall_forall. intros [k r] Hk. unfold keyed in Hk. apply list_elem_of_omap in Hk as (r' & Hr & E).
  destruct (existsb is_null (rk r')); simplify_eq. cbn. apply normalize_key_normal.
  apply (fits_right _ _ _ _ _ _ _ _ _ Fits). auto.
Qed.

(** The build phase. *)
Lemma build_right_ok (st : JoinExecutor L R) rows done m :
  conditions st = conds -> right_column_indices st = ri ->
  (forall r, r ∈ rows -> r ∈ rights) -> bucket_inv m (keyed done) ->
  exists m', accumulate (build_right st) rows m = Some (Ok m') /\ bucket_inv m' (keyed (done ++ rows)).
Proof.
  intros Ec Ei Sub. revert done m. induction rows as [|row rows IH]; intros done m I.
  { exists m. by rewrite app_nil_r. }
  destruct (fits_right _ _ _ _ _ _ _ _ _ Fits row ltac:(apply Sub; by left)) as [K W]. cbn [accumulate].
  assert (S : exists m1, build_right st m row unlimited = Some (Ok m1, unlimited)
    /\ bucket_inv m1 (keyed (done ++ [row]))).
  { unfold build_right, build_hash_key, join_key. rewrite Ec, Ei, K. unfold keyed. rewrite omap_app. cbn.
    destruct (existsb is_null (rk row)); cbn.
    - exists m. by rewrite app_nil_r.
    - eexists. split; [done|]. apply bucket_insert_inv; [done|]. by apply normalize_key_normal. }
  destruct S as (m1 & -> & I1). rewrite (cons_middle row), app_assoc. apply IH; [|done]. intros. apply Sub. by right.
Qed.

(** The bucket of a left row has the matching rows. *)
Lemma keyed_matches l :
  l ∈ lefts -> existsb is_null (lk l) = false ->
  (filter (fun e => key_eq (normalize_signed_zero_key (lk l)) (fst e) = true) (keyed rights)).*2
  = filter (fun r => key_match lk rk l r = true) rights.
Proof.
  intros Hl Nl. destruct (fits_left _ _ _ _ _ _ _ _ _ Fits l Hl) as [_ Wl].
  assert (Sub : forall r, r ∈ rights -> r ∈ rights) by done. revert Sub. unfold keyed.
  generalize rights at 1 3 4. intros rows Sub. induction rows as [|r rows IH]; [done|].
  assert (IH' := IH ltac:(intros x Hx; apply Sub; by right)).
  destruct (fits_right _ _ _ _ _ _ _ _ _ Fits r ltac:(apply Sub; by left)) as [_ Wr].
  assert (M : key_match lk rk l r = negb (existsb is_null (rk r)) && key_eq (lk l) (rk r))
    by (unfold key_match; by rewrite Nl).
  rewrite (filter_cons _ r rows). cbn [omap list_omap].
  destruct (decide (key_match lk rk l r = true)) as [T|T]; rewrite M in T; destruct (existsb is_null (rk r)); try done.
  - rewrite filter_cons, decide_True by (cbn [fst]; by rewrite normalize_key_eq). cbn [fmap list_fmap snd].
    f_equal. exact IH'.
  - rewrite filter_cons, decide_False by (cbn [fst]; by rewrite normalize_key_eq). exact IH'.
Qed.

Lemma join_loop n (t : JoinExecutor L R) : next n t = q_loop n (join_body n) t.
Proof. done. Qed.

(** The rest of the bucket of the current left row, then the other left rows. *)
Lemma bucket_yields (l : L) (r : R) m row key bucket i rs o :
  map_get m key = Some bucket -> (0 < i)%nat ->
  (forall x, x ∈ bucket -> build_output_row output row x = Ok (out row x)) ->
  (forall key i, yields (hash_state l r m None key i) rs o) ->
  yields (hash_state l r m (Some row) (Some key) i) ((ResRow <$> (out row <$> drop i bucket)) ++ rs) o.
Proof.
  intros G Hi Ho Y. remember (drop i bucket) as rest eqn:E. revert i Hi E.
  induction rest as [|x rest IH]; intros i Hi E.
  - apply (loop_skip join_body join_loop join_body_mono 0 _ (hash_state l r m None (Some key) i)); [|apply Y].
    unfold join_body, probe_left. cbn. rewrite (proj2 (Nat.eqb_neq i 0)) by lia. unfold q_bind. cbn. rewrite G.
    rewrite (lookup_ge_None_2 bucket i); [done|]. apply (f_equal length) in E. rewrite length_drop in E. cbn in E. lia.
  - assert (Lk : bucket !! i = Some x) by (rewrite <- (Nat.add_0_r i), <- lookup_drop, <- E; done).
    apply (loop_emit join_body join_loop join_body_mono 0 _ _ (hash_state l r m (Some row) (Some key) (S i))).
    + unfold join_body, probe_left. cbn. rewrite (proj2 (Nat.eqb_neq i 0)) by lia. unfold q_bind. cbn. rewrite G, Lk.
      by rewrite Ho by by eapply list_elem_of_lookup_2.
    + apply IH; [lia|]. rewrite <- (Nat.add_1_r i), <- drop_drop, <- E. done.
Qed.

(** A left row against the table. *)
Lemma left_row_yields (l l1 : L) (r : R) m key i n row rs o :
  bucket_inv m (keyed rights) -> row ∈ lefts ->
  next n l unlimited = Some (Ok (Some (ResRow row), l1), unlimited) ->
  (forall key i, yields (hash_state l1 r m None key i) rs o) ->
  yields (hash_state l r m None key i)
    ((ResRow <$> (out row <$> filter (fun x => key_match lk rk row x = true) rights)) ++ rs) o.
Proof.
  intros I Hr E Y. destruct (fits_left _ _ _ _ _ _ _ _ _ Fits row Hr) as [K W].
  pose proof (fun t => loop_skip join_body join_loop join_body_mono n (hash_state l r m None key i) t) as Skip.
  pose proof (fun x t => loop_emit join_body join_loop join_body_mono n (hash_state l r m None key i) x t) as Emit.
  unfold join_body in Skip, Emit. cbn [phase hash_state current_left left_executor] in Skip, Emit.
  rewrite (q_bind_ret _ _ _ _ _ E) in Skip, Emit. unfold probe_left, build_hash_key, join_key in Skip, Emit.
  cbn in Skip, Emit. rewrite K in Skip, Emit. cbn in Skip, Emit.
  destruct (existsb is_null (lk row)) eqn:N; cbn in Skip, Emit.
  - replace (filter _ rights) with ([] : list Row); [eapply Skip; [done|apply Y]|]. symmetry.
    apply elem_of_nil_inv. intros x [M _]%list_elem_of_filter. unfold key_match in M. by rewrite N in M.
  - rewrite <- (keyed_matches row Hr N).
    rewrite <- (bucket_get m (keyed rights)) by (done || by apply keyed_normal || by apply normalize_key_normal).
    assert (Sub : forall x, x ∈ default [] (map_get m (normalize_signed_zero_key (lk row))) -> x ∈ rights).
    { rewrite (bucket_get m (keyed rights)) by (done || by apply keyed_normal || by apply normalize_key_normal).
      rewrite (keyed_matches row Hr N). by intros x [_ Hx]%list_elem_of_filter. }
    destruct (map_get m (normalize_signed_zero_key (lk row))) as [[|x bucket]|] eqn:G; cbn in Skip, Emit |- *.
    + eapply Skip; [done|apply Y].
    + cbn in Sub. rewrite (fits_output _ _ _ _ _ _ _ _ _ Fits) in Emit by (done || apply Sub; by left). cbn in Emit.
      eapply Emit; [done|]. eapply (bucket_yields l1 r m row _ (x :: bucket) 1); [done|lia| |done].
      intros y Hy. apply (fits_output _ _ _ _ _ _ _ _ _ Fits); auto.
    + eapply Skip; [done|apply Y].
Qed.

Lemma hash_output_yields (l : L) (r : R) m key i ls o :
  bucket_inv m (keyed rights) -> yields l ls o -> (forall x, x ∈ rows_of ls -> x ∈ lefts) ->
  yields (hash_state l r m None key i) (ResRow <$> join_rows (key_match lk rk) out (rows_of ls) rights) o.
Proof.
  intros I Y. revert key i. induction Y as [n l l1 E|n l e b E|n l b E|n l x l1 ls o E Y IH]; intros key i Sub.
  - eapply (loop_end join_body join_loop join_body_mono n). unfold join_body. cbn. by rewrite (q_bind_ret _ _ _ _ _ E).
  - eapply (loop_error join_body join_loop join_body_mono n). unfold join_body, q_bind. cbn. by rewrite E.
  - eapply (loop_panic join_body join_loop join_body_mono n). unfold join_body, q_bind. cbn. by rewrite E.
  - destruct x as [id|c|row].
    1, 2: eapply (loop_skip join_body join_loop join_body_mono n); [|by apply (IH key i)];
      unfold join_body; cbn; by rewrite (q_bind_ret _ _ _ _ _ E).
    cbn. rewrite fmap_app. eapply left_row_yields; [done|apply Sub; by left|done|].
    intros key' i'. apply IH. intros y Hy. apply Sub. by right.
Qed.
End hash_stream.

Lemma hash_join_yields `{Lowercase} `{ProbingLaws} {L R : Type} `{ExecutorLaws L} `{ExecutorLaws R}
    (l : L) (r : R) ls rs o conds output li ri lk rk out :
  join_fits conds output li ri (rows_of ls) (rows_of rs) lk rk out ->
  yields l ls o -> yields r rs (Ok tt) ->
  yields (join_new l r conds output li ri)
    (ResRow <$> join_rows (key_match lk rk) out (rows_of ls) (rows_of rs)) o.
Proof.
  intros Fits Yl Yr. set (st := join_new l r conds output li ri).
  destruct (build_right_ok conds output li ri _ _ lk rk out Fits st (rows_of rs) [] []) as (m & A & I);
    [done..|apply bucket_inv_nil|].
  apply (drain_ok (build_right st) r rs) in A as (n & r' & D & _); [|apply build_right_tame|done].
  eapply (loop_skip join_body join_loop join_body_mono n).
  - unfold join_body. cbn [phase st join_new right_executor right_hashmap]. fold st. by rewrite (q_bind_ret _ _ _ _ _ D).
  - by eapply hash_output_yields.
Qed.

(** ** The nested loop *)

(** The rows that are not matched. *)
Definition unmatched (rows : list Row) (bits : list bool) : list Row :=
  (filter (fun e => snd e = false) (zip rows bits)).*1.

Lemma next_unmatched_ok rows bits i :
  length bits = length rows ->
  exists found d, next_unmatched rows bits i = Ok (found, d) /\
    match found with
    | None => unmatched rows bits = []
    | Some (row, _) => row ∈ rows /\ (i < d)%nat
        /\ unmatched rows bits = row :: unmatched (drop (d - i) rows) (drop (d - i) bits)
    end.
Proof.
  revert bits i. induction rows as [|row rows IH]; intros [|bit bits] i E; try done; [by eexists None, _|].
  injection E as E. destruct bit; cbn [next_unmatched].
  - destruct (IH bits (S i) E) as (found & d & -> & U). exists found, d. split; [done|].
    unfold unmatched in *. cbn [zip zip_with]. rewrite filter_cons, decide_False by done.
    destruct found as [[x k]|]; [|done]. destruct U as (M & Ld & ->). split_and!; [by right|lia|].
    by replace (d - i)%nat with (S (d - S i)) by lia.
  - exists (Some (row, i)), (S i). split; [done|]. split_and!; [by left|lia|].
    replace (S i - i)%nat with 1%nat by lia. unfold unmatched. cbn [zip zip_with].
    by rewrite filter_cons, decide_True.
Qed.

(** What the nested loop makes of its rows: for each left row the pairs that
    hit, or the left row padded; at the end, the right rows never hit, padded. *)
Definition nested_left (t : NestedLoopJoinType) (hit : Row -> Row -> bool) (out : Row -> Row -> Row)
    (padl : Row -> Row) (rights : list Row) (l : Row) : list Row :=
  match filter (fun r => hit l r = true) rights with
  | [] => if is_inner t then [] else [padl l]
  | hits => out l <$> hits
  end.

Definition nested_rest (t : NestedLoopJoinType) (hit : Row -> Row -> bool) (padr : Row -> Row)
    (lefts rights : list Row) : list Row :=
  if is_full t then padr <$> filter (fun r => existsb (fun l => hit l r) lefts = false) rights else [].

Record nested_fits {rt : Runtime} (p : Pred) (output : Output) (t : NestedLoopJoinType) (lefts rights : list Row)
    (hit : Row -> Row -> bool) (out : Row -> Row -> Row) (padl padr : Row -> Row) : Prop := {
  fits_predicate l r : l ∈ lefts -> r ∈ rights -> evaluate_pred rt p (l ++ r) = Ok (hit l r);
  fits_pair l r : l ∈ lefts -> r ∈ rights -> build_output_row output l r = Ok (out l r);
  fits_padl l : is_inner t = false -> l ∈ lefts -> build_padded_row output (Some l) None = Ok (padl l);
  fits_padr r : is_full t = true -> r ∈ rights -> build_padded_row output None (Some r) = Ok (padr r)
}.

Section nested_stream.
Context {rt : Runtime} {L R : Type} `{ExecutorLaws L} `{ExecutorLaws R}.
Context (p : Pred) (output : Output) (t : NestedLoopJoinType) (lefts rights : list Row).
Context (hit : Row -> Row -> bool) (out : Row -> Row -> Row) (padl padr : Row -> Row).
Context (Fits : nested_fits p output t lefts rights hit out padl padr).

Definition nl_state (l : L) (r : R) cur i lm rm d : NestedLoopJoinExecutor L R :=
  mk_nlj l r p output t rights true cur i lm rm d.

Lemma nl_loop n (st : NestedLoopJoinExecutor L R) : next n st = q_loop n (nl_body n) st.
Proof. done. Qed.

(** Which right rows the left rows [done] hit. *)
Definition bits (done : list Row) : list bool := (fun r => existsb (fun l => hit l r) done) <$> rights.

Lemma unmatched_bits done : unmatched rights (bits done) = filter (fun r => existsb (fun l => hit l r) done = false) rights.
Proof.
  unfold unmatched, bits. clear Fits. induction rights as [|r rows IH]; [done|]. cbn [fmap list_fmap zip zip_with].
  rewrite !filter_cons. cbn [snd]. destruct (decide (existsb _ done = false)); [cbn|]; by rewrite IH.
Qed.

(** The end of the left input: the unmatched right rows, one per call. *)
Lemma rest_yields (l : L) (r : R) i lm rm d :
  (exists n l1, next n l unlimited = Some (Ok (None, l1), unlimited) /\ finished l1) ->
  (is_full t = true -> length rm = length rights) ->
  yields (nl_state l r None i lm rm d)
    (ResRow <$> (if is_full t then padr <$> unmatched (drop d rights) (drop d rm) else [])) (Ok tt).
Proof.
  intros F Lr. remember (length rights - d)%nat as k eqn:Ek. revert l d F Ek.
  induction k as [k IH] using lt_wf_ind. intros l d (n & l1 & N & F1) Ek.
  pose proof (fun t1 => loop_end nl_body nl_loop nl_body_mono n (nl_state l r None i lm rm d) t1) as End.
  pose proof (fun x t1 => loop_emit nl_body nl_loop nl_body_mono n (nl_state l r None i lm rm d) x t1) as Emit.
  unfold nl_body in End, Emit. cbn [right_materialized negb nl_current_left nl_state nl_left] in End, Emit.
  rewrite (q_bind_ret _ _ _ _ _ N) in End, Emit. unfold next_unmatched_right_row in End, Emit.
  cbn in End, Emit. destruct (is_full t) eqn:Fu; [|by eapply End].
  destruct (next_unmatched_ok (drop d rights) (drop d rm) d) as (found & d' & U & S); [rewrite !length_drop; by rewrite Lr|].
  rewrite U in End, Emit. destruct found as [[row k']|]; cbn in End, Emit; [|rewrite S; by eapply End].
  destruct S as (M & Ld & ->). assert (Hr : row ∈ rights).
  { rewrite <- (take_drop d rights). apply elem_of_app. by right. }
  rewrite (fits_padr _ _ _ _ _ _ _ _ _ Fits) in Emit by done. cbn in Emit |- *.
  rewrite !drop_drop. replace (d + (d' - d))%nat with d' by lia. eapply Emit; [done|].
  assert (Hd : (d < length rights)%nat).
  { apply list_elem_of_lookup in M as (j & Mj). apply lookup_lt_Some in Mj. rewrite length_drop in Mj. lia. }
  destruct (next_finished 1 l1 unlimited F1 ltac:(lia)) as (l2 & N2 & F2).
  apply (IH (length rights - d')%nat); [lia|by eauto|done].
Qed.

(** The bits when the current row has been tried against [i] right rows. *)
Definition marking (done : list Row) (row : Row) (i : nat) : list bool :=
  take i (bits (done ++ [row])) ++ drop i (bits done).

Lemma bits_length done : length (bits done) = length rights.
Proof. apply length_fmap. Qed.

Lemma bits_snoc done row i x :
  rights !! i = Some x -> bits (done ++ [row]) !! i = Some (existsb (fun l => hit l x) done || hit row x).
Proof.
  intros E. unfold bits. rewrite list_lookup_fmap, E. cbn [fmap option_fmap option_map]. rewrite existsb_app. cbn [existsb]. by rewrite orb_false_r.
Qed.

Lemma marking_step done row i x :
  rights !! i = Some x ->
  marking done row (S i) = if hit row x then <[i := true]> (marking done row i) else marking done row i.
Proof.
  intros E. pose proof (lookup_lt_Some _ _ _ E) as Li. unfold marking.
  rewrite (take_S_r _ _ _ (bits_snoc done row i x E)).
  assert (B : bits done !! i = Some (existsb (fun l => hit l x) done)) by (unfold bits; by rewrite list_lookup_fmap, E).
  rewrite (drop_S _ _ _ B), <- app_assoc. cbn [app].
  assert (T : length (take i (bits (done ++ [row]))) = i) by (rewrite length_take, bits_length; lia).
  destruct (hit row x); [|by rewrite orb_false_r]. rewrite orb_true_r, insert_app_r_alt by lia.
  by rewrite T, Nat.sub_diag.
Qed.

Lemma marking_end done row i : (length rights <= i)%nat -> marking done row i = bits (done ++ [row]).
Proof. intros Li. unfold marking. rewrite take_ge, drop_ge, app_nil_r by (rewrite bits_length; lia). done. Qed.

(** The current left row against the right rows from [i] on. *)
Lemma row_yields (l : L) (r : R) done row i lm rm d rs o :
  row ∈ lefts -> (is_full t = true -> rm = marking done row i) ->
  (forall i lm rm, (is_full t = true -> rm = bits (done ++ [row])) -> yields (nl_state l r None i lm rm d) rs o) ->
  yields (nl_state l r (Some row) i lm rm d)
    ((ResRow <$> (out row <$> filter (fun x => hit row x = true) (drop i rights)))
     ++ (if negb (is_inner t) && negb lm && bool_decide (filter (fun x => hit row x = true) (drop i rights) = [])
         then [ResRow (padl row)] else []) ++ rs) o.
Proof.
  intros Hr Hm Y. remember (drop i rights) as rest eqn:E. revert i lm rm Hm E.
  induction rest as [|x rest IH]; intros i lm rm Hm E;
    pose proof (fun t1 => loop_skip nl_body nl_loop nl_body_mono 0 (nl_state l r (Some row) i lm rm d) t1) as Skip;
    pose proof (fun x t1 => loop_emit nl_body nl_loop nl_body_mono 0 (nl_state l r (Some row) i lm rm d) x t1) as Emit;
    unfold nl_body, nl_step in Skip, Emit;
    cbn [right_materialized negb nl_current_left nl_state nl_left right_rows nl_right_index left_matched
      nl_predicate nl_output join_type right_matched drain_index] in Skip, Emit.
  - assert (Li : (length rights <= i)%nat).
    { apply (f_equal length) in E. rewrite length_drop in E. cbn in E. lia. }
    rewrite (lookup_ge_None_2 rights i Li) in Skip, Emit.
    assert (Hend : is_full t = true -> rm = bits (done ++ [row])).
    { intros Fu. rewrite (Hm Fu). by apply marking_end. }
    cbn [fmap list_fmap filter list_filter app]. rewrite bool_decide_true, andb_true_r by done.
    destruct (negb (is_inner t) && negb lm) eqn:Pad.
    + apply andb_true_iff in Pad as [Inn%negb_true_iff _].
      unfold q_lift in Emit. rewrite (fits_padl _ _ _ _ _ _ _ _ _ Fits row Inn Hr) in Emit.
      eapply Emit; [done|]. eapply (loop_skip nl_body nl_loop nl_body_mono 0); [|by apply (Y i true rm)].
      unfold nl_body, nl_step. cbn. rewrite (lookup_ge_None_2 rights i Li). by rewrite andb_false_r.
    + eapply Skip; [done|]. by apply (Y i lm rm).
  - assert (Lk : rights !! i = Some x) by (rewrite <- (Nat.add_0_r i), <- lookup_drop, <- E; done).
    assert (Hx : x ∈ rights) by by eapply list_elem_of_lookup_2.
    assert (Erest : rest = drop (S i) rights) by (rewrite <- (Nat.add_1_r i), <- drop_drop, <- E; done).
    rewrite Lk in Skip, Emit. unfold q_eval, q_lift in Skip, Emit.
    rewrite (fits_predicate _ _ _ _ _ _ _ _ _ Fits row x Hr Hx) in Skip, Emit.
    pose proof (marking_step done row i x Lk) as Ms. rewrite filter_cons.
    destruct (hit row x) eqn:Hh; cbn in Skip, Emit.
    + rewrite decide_True by done. cbn [fmap list_fmap app]. rewrite bool_decide_false, andb_false_r by done.
      cbn [app]. rewrite (fits_pair _ _ _ _ _ _ _ _ _ Fits row x Hr Hx) in Emit. eapply Emit; [done|].
      specialize (IH (S i) true (if is_full t then <[i:=true]> rm else rm)). rewrite andb_false_r in IH. apply IH; [|done].
      intros Fu. by rewrite Fu, Ms, (Hm Fu).
    + rewrite decide_False by done. eapply Skip; [done|]. apply IH; [|done]. intros Fu. by rewrite Ms, (Hm Fu).
Qed.

Lemma nested_left_rows row :
  nested_left t hit out padl rights row
  = (out row <$> filter (fun x => hit row x = true) rights)
    ++ (if negb (is_inner t) && bool_decide (filter (fun x => hit row x = true) rights = []) then [padl row] else []).
Proof.
  unfold nested_left. destruct (filter _ rights) as [|x hits]; cbn.
  - by destruct (is_inner t).
  - by rewrite andb_false_r, app_nil_r.
Qed.

Lemma nl_output_yields (l : L) (r : R) done i lm rm ls o :
  yields l ls o -> (forall x, x ∈ rows_of ls -> x ∈ lefts) -> (is_full t = true -> rm = bits done) ->
  yields (nl_state l r None i lm rm 0)
    ((ResRow <$> (x ← rows_of ls; nested_left t hit out padl rights x))
     ++ (if is_ok o then ResRow <$> nested_rest t hit padr (done ++ rows_of ls) rights else [])) o.
Proof.
  intros Y. revert done i lm rm.
  induction Y as [n l l1 E|n l e b E|n l b E|n l x l1 ls o E Y IH]; intros done i lm rm Sub Hm.
  - cbn. rewrite app_nil_r. unfold nested_rest. rewrite <- unmatched_bits.
    pose proof (rest_yields l r i lm rm 0) as Rest. rewrite !drop_0 in Rest.
    destruct (is_full t) eqn:Fu; [rewrite <- Hm by done|]; (apply Rest; [exists n, l1; split; [done|by eapply next_ends]|]).
    + intros _. rewrite Hm by done. apply bits_length.
    + done.
  - eapply (loop_error nl_body nl_loop nl_body_mono n). unfold nl_body, q_bind. cbn. by rewrite E.
  - eapply (loop_panic nl_body nl_loop nl_body_mono n). unfold nl_body, q_bind. cbn. by rewrite E.
  - destruct x as [id|c|row].
    1, 2: eapply (loop_skip nl_body nl_loop nl_body_mono n); [|by apply (IH done i lm rm)];
      unfold nl_body; cbn; by rewrite (q_bind_ret _ _ _ _ _ E).
    assert (Hr : row ∈ lefts) by (apply Sub; by left).
    assert (Load : yields (nl_state l1 r (Some row) 0 false rm 0)
      ((ResRow <$> (x ← rows_of (ResRow row :: ls); nested_left t hit out padl rights x))
       ++ (if is_ok o then ResRow <$> nested_rest t hit padr (done ++ rows_of (ResRow row :: ls)) rights else [])) o).
    { cbn [rows_of omap list_omap mbind list_bind]. rewrite fmap_app, nested_left_rows, fmap_app, <- !app_assoc.
      epose proof (row_yields l1 r done row 0 false rm 0 _ o Hr) as RY. change (drop 0 rights) with rights in RY.
      rewrite andb_true_r in RY.
      assert (If : forall b : bool, ResRow <$> (if b then [padl row] else []) = if b then [ResRow (padl row)] else [])
        by by intros [].
      rewrite If.
      apply RY.
      - intros Fu. rewrite (Hm Fu). unfold marking. by rewrite take_0, drop_0.
      - intros i' lm' rm' Hm'. rewrite (cons_middle row done), app_assoc. apply IH; [|done].
        intros y Hy. apply Sub. by right. }
    eapply (loop_skip nl_body nl_loop nl_body_mono n); [|exact Load].
    unfold nl_body. cbn. by rewrite (q_bind_ret _ _ _ _ _ E).
Qed.
End nested_stream.

Lemma nested_loop_yields {rt : Runtime} {L R : Type} `{ExecutorLaws L} `{ExecutorLaws R}
    (l : L) (r : R) ls rs o p output t hit out padl padr :
  nested_fits p output t (rows_of ls) (rows_of rs) hit out padl padr ->
  yields l ls o -> yields r rs (Ok tt) ->
  yields (nlj_new l r p output t)
    ((ResRow <$> (x ← rows_of ls; nested_left t hit out padl (rows_of rs) x))
     ++ (if is_ok o then ResRow <$> nested_rest t hit padr (rows_of ls) (rows_of rs) else [])) o.
Proof.
  intros Fits Yl Yr. destruct (collect_ok r rs Yr) as (n & r' & E). unfold collect in E.
  eapply (loop_skip nl_body nl_loop nl_body_mono n).
  - unfold nl_body. cbn [right_materialized nlj_new negb nl_right right_rows]. by rewrite (q_bind_ret _ _ _ _ _ E).
  - cbn. eapply (nl_output_yields _ _ _ _ _ _ _ _ _ Fits l r' []); [done..|].
    intros Fu. rewrite Fu. unfold bits. cbn. clear. induction (rows_of rs) as [|x rows IH]; [done|]. cbn. by f_equal.
Qed.

(** Inner joins are [join_rows]. *)
Lemma nested_inner_rows hit out padl lefts rights :
  (x ← lefts; nested_left JoinInner hit out padl rights x) = join_rows hit out lefts rights.
Proof.
  unfold join_rows. induction lefts as [|l lefts IH]; [done|]. cbn. rewrite IH. f_equal.
  unfold nested_left. by destruct (filter _ rights).
Qed.

(** ** The merge *)

Definition wf_key (k : Row) : Prop := Forall value_wf k.
Definition nan_value (v : Value) : bool := match v with VFloat b => f64_is_nan b | _ => false end.

Lemma compare_join_value_preorder : TotalPreorder value_wf compare_join_value.
Proof.
  apply (preorder_ext _ (fun a b => cmp_then (variant_rank a ?= variant_rank b)
    (cmp_then (Z.b2z (nan_value a) ?= Z.b2z (nan_value b))
      (cmp_then ((if nan_value a then 0 else value_rank a) ?= (if nan_value b then 0 else value_rank b))
         (bytes_cmp (value_text a) (value_text b)))))).
  - intros a b Wa Wb. unfold compare_join_value.
    destruct a as [x|x| |x|x|x|x], b as [y|y| |y|y|y|y]; cbn in *; try done; try (by destruct (_ ?= _)).
    unfold compare_floats. destruct (f64_is_nan x) eqn:Nx, (f64_is_nan y) eqn:Ny; cbn; try done.
    rewrite f64_compare_rank by (done || word_lia). cbn. by destruct (_ ?= _).
  - repeat apply cmp_then_preorder; try apply key_preorder.
    apply (image_preorder _ (fun _ => True) value_text); [done|apply bytes_preorder].
Qed.

Lemma compare_join_keys_preorder : TotalPreorder wf_key compare_join_keys.
Proof.
  pose proof compare_join_value_preorder as P. split.
  - intros a b Ha. revert b. induction Ha as [|x a Hx Ha IH]; intros [|y b] Hb; try done. inversion_clear Hb.
    cbn. rewrite IH, (cmp_flip (cmp:=compare_join_value) x y) by done. by destruct (compare_join_value x y).
  - intros a b c Ha. revert b c. induction Ha as [|x a Hx Ha IH]; intros [|y b] [|z c] Hb Hc; try done.
    inversion_clear Hb. inversion_clear Hc. cbn. unfold cmp_then.
    destruct (compare_join_value x y) eqn:XY, (compare_join_value y z) eqn:YZ; try done; intros L L'.
    + rewrite (cmp_eq_trans (cmp:=compare_join_value) x y z) by done. by apply (IH b c).
    + by rewrite (cmp_le_lt (cmp:=compare_join_value) x y z) by (done || by rewrite XY).
    + by rewrite (cmp_lt_le (cmp:=compare_join_value) x y z) by (done || by rewrite YZ).
    + by rewrite (cmp_lt_le (cmp:=compare_join_value) x y z) by (done || by rewrite YZ).
Qed.

(** Equality of keys is the order's, for keys without NaN; one with NaN equals
    nothing. *)
Lemma join_value_eq a b :
  value_wf a -> value_wf b ->
  value_partial_eq a b = match compare_join_value a b with Eq => negb (nan_value a) | _ => false end.
Proof.
  intros Wa Wb. unfold compare_join_value.
  destruct a as [x|x| |x|x|x|x], b as [y|y| |y|y|y|y]; cbn [value_partial_eq nan_value]; try done; cbn in Wa, Wb |- *.
  all: try (rewrite Z.eqb_compare; by destruct (_ ?= _)).
  - unfold compare_floats. destruct (f64_is_nan x) eqn:Nx, (f64_is_nan y) eqn:Ny; cbn;
      [rewrite f64_eqb_nan by (by left)|rewrite f64_eqb_nan by (by left)|rewrite f64_eqb_nan by (by right)|]; try done.
    rewrite f64_eqb_rank, f64_compare_rank by (done || word_lia). cbn. rewrite Z.eqb_compare. by destruct (_ ?= _).
  - by destruct x, y.
Qed.

Lemma join_key_eq a b :
  wf_key a -> wf_key b ->
  key_eq a b = match compare_join_keys a b with Eq => negb (existsb nan_value a) | _ => false end.
Proof.
  intros Ha. revert b. induction Ha as [|x a Hx Ha IH]; intros [|y b] Hb; try done. inversion_clear Hb.
  cbn. rewrite join_value_eq by done. change (list_eqb value_partial_eq a b) with (key_eq a b). rewrite IH by done.
  destruct (compare_join_value x y); cbn; [|done..]. destruct (compare_join_keys a b); [|by rewrite andb_false_r..].
  by rewrite negb_orb.
Qed.

Lemma compare_nan a b : compare_join_keys a b = Eq -> existsb nan_value a = existsb nan_value b.
Proof.
  assert (V : forall x y, compare_join_value x y = Eq -> nan_value x = nan_value y).
  { intros x y. unfold compare_join_value. destruct x, y; cbn; try done. unfold compare_floats.
    by destruct (f64_is_nan bits0), (f64_is_nan bits1). }
  revert b. induction a as [|x a IH]; intros [|y b]; try done. cbn. unfold cmp_then.
  destruct (compare_join_value x y) eqn:E; try done. intros Eq. by rewrite (V _ _ E), (IH b Eq).
Qed.

#[local] Existing Instance compare_join_keys_preorder.

(** A key without NaN equals another one exactly when they compare equal. *)
Definition proper_key (k : Row) : Prop := wf_key k /\ existsb nan_value k = false.

Lemma proper_key_eq a b :
  proper_key a -> wf_key b -> key_eq a b = match compare_join_keys a b with Eq => true | _ => false end.
Proof. intros [Wa Na] Wb. by rewrite join_key_eq, Na. Qed.

Lemma key_eq_proper a b : wf_key a -> wf_key b -> key_eq a b = true -> proper_key a /\ proper_key b /\ compare_join_keys a b = Eq.
Proof.
  intros Wa Wb. rewrite join_key_eq by done. destruct (compare_join_keys a b) eqn:C; try done.
  intros N%negb_true_iff. split_and!; [done|split; [done|]|done]. by rewrite <- (compare_nan _ _ C).
Qed.

Abbreviation keyed_le := (cmp_le (fun a b : Row * Row => compare_join_keys (fst a) (fst b))).
Definition wf_keyed (e : Row * Row) : Prop := wf_key (fst e).

(** A group is the rows with the key, the others are greater. *)
Lemma group_end_spec key rows g rest :
  proper_key key -> Forall wf_keyed rows -> StronglySorted keyed_le rows ->
  Forall (fun e => compare_join_keys key (fst e) <> Gt) rows ->
  group_end key rows = (g, rest) ->
  rows = g ++ rest /\ Forall (fun e => proper_key (fst e) /\ compare_join_keys key (fst e) = Eq) g
  /\ Forall (fun e => compare_join_keys key (fst e) = Lt) rest.
Proof.
  intros Pk W S B. revert g rest. induction S as [|e rows S IH F]; intros g rest E; cbn [group_end] in E; [by simplify_eq|].
  inversion_clear W as [|? ? We W']. inversion_clear B as [|? ? Be B'].
  destruct (key_eq (fst e) key) eqn:K.
  - destruct (group_end key rows) as [g' rest'] eqn:G. simplify_eq.
    destruct (IH W' B' g' rest eq_refl) as (-> & Hg & Hr). split_and!; [done| |done]. constructor; [|done].
    destruct (key_eq_proper _ _ We (proj1 Pk) K) as (Pe & _ & C). split; [done|].
    by rewrite (cmp_flip (D:=wf_key) (cmp:=compare_join_keys) (fst e)), C by (done || apply Pk).
  - simplify_eq. split_and!; [done|constructor|].
    assert (Lt1 : compare_join_keys key (fst e) = Lt).
    { destruct (compare_join_keys key (fst e)) eqn:C; [|done|done]. exfalso.
      assert (Pe : proper_key (fst e)) by (split; [done|]; rewrite <- (compare_nan _ _ C); apply Pk).
      rewrite proper_key_eq in K by (done || apply Pk).
      by rewrite (cmp_flip (D:=wf_key) (cmp:=compare_join_keys) key), C in K by (done || apply Pk). }
    constructor; [done|]. rewrite Forall_forall in F, W' |- *. intros x Hx. specialize (F x Hx).
    apply (cmp_lt_le (D:=wf_key) (cmp:=compare_join_keys) key (fst e)); [apply Pk|done|by apply W'|done|].
    unfold cmp_le in F. by destruct (compare_join_keys (fst e) (fst x)).
Qed.

Section merging.
Context (output : Output) (out : Row -> Row -> Row).

(** The pairs with equal keys, in the order of both sides. *)
Definition equal_pairs (lefts rights : list (Row * Row)) : list Row :=
  x ← lefts; out (snd x) <$> (filter (fun e => key_eq (fst x) (fst e) = true) rights).*2.

Definition outputs_fit (lefts rights : list (Row * Row)) : Prop :=
  forall x y, x ∈ lefts -> y ∈ rights -> build_output_row output (snd x) (snd y) = Ok (out (snd x) (snd y)).

Lemma product_ok lefts rights :
  outputs_fit lefts rights -> product output lefts rights = Ok (x ← lefts; out (snd x) <$> rights.*2).
Proof.
  intros F. assert (Row_ok : forall x, x ∈ lefts -> product_row output (snd x) rights = Ok (out (snd x) <$> rights.*2)).
  { intros x Hx. assert (G : forall y, y ∈ rights -> build_output_row output (snd x) (snd y) = Ok (out (snd x) (snd y))).
    { intros y Hy. by apply F. }
    clear F. induction rights as [|[k y] rights IH]; [done|]. cbn. pose proof (G (k, y) ltac:(by left)) as Gy. cbn in Gy. rewrite Gy. cbn.
    rewrite IH; [done|]. intros. apply G. by right. }
  clear F. induction lefts as [|[k x] lefts IH]; [done|]. cbn. pose proof (Row_ok (k, x) ltac:(by left)) as Rx. cbn in Rx. rewrite Rx. cbn.
  rewrite IH; [done|]. intros. apply Row_ok. by right.
Qed.

Lemma equal_pairs_app l1 l2 rights : equal_pairs (l1 ++ l2) rights = equal_pairs l1 rights ++ equal_pairs l2 rights.
Proof. apply bind_app. Qed.

Lemma filter_nothing {A} (P : A -> Prop) `{!forall x, Decision (P x)} (l : list A) :
  (forall x, x ∈ l -> ~ P x) -> filter P l = [].
Proof. intros N. apply elem_of_nil_inv. intros x [Px Hx]%list_elem_of_filter. by apply (N x). Qed.

Lemma filter_all {A} (P : A -> Prop) `{!forall x, Decision (P x)} (l : list A) :
  (forall x, x ∈ l -> P x) -> filter P l = l.
Proof.
  induction l as [|x l IH]; intros N; [done|]. rewrite filter_cons, decide_True by (apply N; by left).
  f_equal. apply IH. intros. apply N. by right.
Qed.

(** Left rows that equal all of one group and none of the rest. *)
Lemma equal_pairs_group lefts group rest :
  (forall x y, x ∈ lefts -> y ∈ group -> key_eq (fst x) (fst y) = true) ->
  (forall x y, x ∈ lefts -> y ∈ rest -> key_eq (fst x) (fst y) = false) ->
  equal_pairs lefts (group ++ rest) = (x ← lefts; out (snd x) <$> group.*2).
Proof.
  unfold equal_pairs. intros G R. induction lefts as [|x lefts IH]; [done|]. cbn [mbind list_bind]. f_equal.
  - rewrite filter_app, (filter_all _ group), (filter_nothing _ rest), app_nil_r; [done|..].
    + intros y Hy. rewrite R; [done|by left|done].
    + intros y Hy. apply G; [by left|done].
  - apply IH; intros; [apply G|apply R]; done || by right.
Qed.

Lemma equal_pairs_skip lefts r rest :
  (forall x, x ∈ lefts -> key_eq (fst x) (fst r) = false) -> equal_pairs lefts (r :: rest) = equal_pairs lefts rest.
Proof.
  unfold equal_pairs. intros N. induction lefts as [|x lefts IH]; [done|]. cbn [mbind list_bind].
  rewrite filter_cons, decide_False by (rewrite N; [done|by left]). f_equal. apply IH. intros. apply N. by right.
Qed.

Lemma equal_pairs_skip_all lefts group rest :
  (forall x y, x ∈ lefts -> y ∈ group -> key_eq (fst x) (fst y) = false) ->
  equal_pairs lefts (group ++ rest) = equal_pairs lefts rest.
Proof.
  induction group as [|r group IH]; intros N; [done|]. cbn [app]. rewrite equal_pairs_skip.
  - apply IH. intros. apply N; [done|by right].
  - intros. apply N; [done|by left].
Qed.

Lemma sorted_above (e : Row * Row) rows :
  Forall (fun b => keyed_le e b) rows -> Forall (fun b => compare_join_keys (fst e) (fst b) <> Gt) rows.
Proof.
  intros F. eapply Forall_impl; [exact F|]. intros b Hb. unfold cmp_le in Hb.
  by destruct (compare_join_keys (fst e) (fst b)).
Qed.

Lemma sorted_app_r {A} (R : A -> A -> Prop) l1 l2 : StronglySorted R (l1 ++ l2) -> StronglySorted R l2.
Proof. induction l1 as [|x l1 IH]; [done|]. intros S. inversion_clear S. by apply IH. Qed.

(** Two rows with equal keys: their groups are multiplied, the rest is merged. *)
Lemma group_pairs x l y r lg lrest rg rrest :
  Forall wf_keyed (x :: l) -> Forall wf_keyed (y :: r) ->
  StronglySorted keyed_le (x :: l) -> StronglySorted keyed_le (y :: r) ->
  key_eq (fst x) (fst y) = true -> group_end (fst x) l = (lg, lrest) -> group_end (fst y) r = (rg, rrest) ->
  l = lg ++ lrest /\ r = rg ++ rrest /\
  equal_pairs (x :: l) (y :: r) = (z ← x :: lg; out (snd z) <$> (y :: rg).*2) ++ equal_pairs lrest rrest.
Proof.
  intros Wl Wr Sl Sr K Gl Gr. assert (Wl0 := Wl). assert (Wr0 := Wr).
  inversion Wl as [|? ? Wx Wl']; inversion Wr as [|? ? Wy Wr']; subst.
  inversion Sl as [|? ? Sl' Fl]; inversion Sr as [|? ? Sr' Fr]; subst.
  destruct (key_eq_proper _ _ Wx Wy K) as (Px & Py & C).
  destruct (group_end_spec _ _ _ _ Px Wl' Sl' (sorted_above _ _ Fl) Gl) as (-> & El & Ll).
  destruct (group_end_spec _ _ _ _ Py Wr' Sr' (sorted_above _ _ Fr) Gr) as (-> & Er & Lr).
  split; [done|]. split; [done|]. apply Forall_app in Wl' as [Wlg Wlr]. apply Forall_app in Wr' as [Wrg Wrr].
  rewrite Forall_forall in *.
  assert (GL : forall e, e ∈ x :: lg -> proper_key (fst e) /\ compare_join_keys (fst x) (fst e) = Eq).
  { intros e [->|He]%elem_of_cons; [split; [done|]; by apply (cmp_refl (D:=wf_key))|by apply El]. }
  assert (GR : forall e, e ∈ y :: rg -> wf_key (fst e) /\ compare_join_keys (fst x) (fst e) = Eq).
  { intros e [->|He]%elem_of_cons; [done|]. destruct (Er e He) as [[We _] Ee]. split; [done|].
    by apply (cmp_eq_trans (D:=wf_key) (fst x) (fst y) (fst e)). }
  assert (Flip : forall a b, wf_key a -> wf_key b -> compare_join_keys b a = CompOpp (compare_join_keys a b))
    by (intros; by apply (cmp_flip (D:=wf_key))).
  rewrite !app_comm_cons, equal_pairs_app. f_equal.
  - apply equal_pairs_group; intros a b Ha Hb; destruct (GL a Ha) as [Pa Ea]; pose proof (proj1 Pa) as Wa.
    + destruct (GR b Hb) as [Wb Eb]. rewrite proper_key_eq by done.
      rewrite (cmp_eq_trans (D:=wf_key) (fst a) (fst x) (fst b)); [done..|by rewrite Flip, Ea|done].
    + rewrite proper_key_eq by (done || by apply Wrr).
      rewrite (cmp_le_lt (D:=wf_key) (fst a) (fst y) (fst b)); [done..|by apply Wrr| |by apply Lr].
      rewrite (cmp_eq_trans (D:=wf_key) (fst a) (fst x) (fst y)); [done..|by rewrite Flip, Ea|done].
  - apply equal_pairs_skip_all. intros a b Ha Hb. destruct (GR b Hb) as [Wb Eb]. pose proof (Wlr a Ha) as Wa.
    rewrite join_key_eq by done. rewrite Flip by done.
    rewrite (cmp_le_lt (D:=wf_key) (fst b) (fst x) (fst a)); [done..|by rewrite Flip, Eb|by apply Ll].
Qed.

Lemma equal_pairs_drop_left x l r :
  (forall y, y ∈ r -> key_eq (fst x) (fst y) = false) -> equal_pairs (x :: l) r = equal_pairs l r.
Proof.
  intros N. unfold equal_pairs. cbn [mbind list_bind]. rewrite filter_nothing; [done|]. intros y Hy. by rewrite N.
Qed.

Lemma merge_from_ok fuel l r :
  (length l + length r <= fuel)%nat -> Forall wf_keyed l -> Forall wf_keyed r ->
  StronglySorted keyed_le l -> StronglySorted keyed_le r -> outputs_fit l r ->
  merge_from fuel output l r = Ok (equal_pairs l r).
Proof.
  revert l r. induction fuel as [|fuel IH]; intros l r Len Wl Wr Sl Sr F.
  { destruct l, r; cbn in Len; try lia. done. }
  destruct l as [|x l]; [by destruct r|].
  destruct r as [|y r]; [cbn; destruct x; clear; induction l; [done|]; exact IHl|].
  inversion Wl as [|? ? Wx Wl']; inversion Wr as [|? ? Wy Wr']; subst.
  inversion Sl as [|? ? Sl' Fl]; inversion Sr as [|? ? Sr' Fr]; subst. cbn in Len.
  assert (DropR : (forall z, z ∈ x :: l -> key_eq (fst z) (fst y) = false) ->
    merge_from fuel output (x :: l) r = Ok (equal_pairs (x :: l) (y :: r))).
  { intros N. rewrite equal_pairs_skip by done. apply IH; try done; [cbn; lia|].
    intros a b Ha Hb. apply F; [done|by right]. }
  destruct x as [lk lrow], y as [rk rrow]. cbn [merge_from]. pose proof (join_key_eq lk rk Wx Wy) as K.
  destruct (compare_join_keys lk rk) eqn:C; [destruct (key_eq lk rk) eqn:Q|..].
  - destruct (group_end lk l) as [lg lrest] eqn:Gl, (group_end rk r) as [rg rrest] eqn:Gr.
    destruct (group_pairs _ _ _ _ _ _ _ _ Wl Wr Sl Sr Q Gl Gr) as (-> & -> & ->).
    rewrite product_ok by (intros a b Ha Hb; apply F; rewrite app_comm_cons, elem_of_app; by left). cbn [exec_bind].
    rewrite !length_app in Len. apply sorted_app_r in Sl', Sr'.
    apply Forall_app in Wl' as [_ Wl'], Wr' as [_ Wr'].
    rewrite IH; [done|lia|done..|]. intros a b Ha Hb. apply F; rewrite app_comm_cons, elem_of_app; by right.
  - apply DropR. intros z Hz. symmetry in K. apply negb_false_iff in K. rewrite (compare_nan _ _ C) in K. change (fst (rk, rrow)) with rk.
    rewrite join_key_eq by first [done|rewrite Forall_forall in Wl; by apply Wl].
    destruct (compare_join_keys (fst z) rk) eqn:Z; [|done..]. by rewrite (compare_nan _ _ Z), K.
  - rewrite equal_pairs_drop_left.
    { apply IH; try done; [cbn; lia|]. intros a b Ha Hb. apply F; [by right|done]. }
    intros z Hz. rewrite Forall_forall in Wr. specialize (Wr z Hz). rewrite join_key_eq by done.
    assert (Le : compare_join_keys rk (fst z) <> Gt).
    { apply elem_of_cons in Hz as [->|Hz]; [by rewrite (cmp_refl (D:=wf_key) (cmp:=compare_join_keys))|].
      apply sorted_above in Fr. rewrite Forall_forall in Fr. by apply (Fr z). }
    cbn [fst]. by rewrite (cmp_lt_le (D:=wf_key) (cmp:=compare_join_keys) lk rk (fst z)).
  - apply DropR. intros z Hz. change (fst (rk, rrow)) with rk. rewrite Forall_forall in Wl. specialize (Wl z Hz). rewrite join_key_eq by done.
    assert (Le : compare_join_keys lk (fst z) <> Gt).
    { apply elem_of_cons in Hz as [->|Hz]; [by rewrite (cmp_refl (D:=wf_key) (cmp:=compare_join_keys))|].
      apply sorted_above in Fl. rewrite Forall_forall in Fl. by apply (Fl z). }
    rewrite (cmp_flip (D:=wf_key) (cmp:=compare_join_keys) rk (fst z)) by done.
    rewrite (cmp_lt_le (D:=wf_key) (cmp:=compare_join_keys) rk lk (fst z)); [done..| |done].
    by rewrite (cmp_flip (D:=wf_key) (cmp:=compare_join_keys) lk rk), C.
Qed.
End merging.

(** The rows with their keys, without those that have a NULL. *)
Definition with_key (key : Row -> Row) (rows : list Row) : list (Row * Row) :=
  omap (fun r => if existsb is_null (key r) then None else Some (key r, r)) rows.

Lemma with_key_cons key r rows :
  with_key key (r :: rows) = if existsb is_null (key r) then with_key key rows else (key r, r) :: with_key key rows.
Proof. unfold with_key. cbn [omap list_omap]. by destruct (existsb is_null (key r)). Qed.

Lemma elem_of_with_key key rows e : e ∈ with_key key rows -> snd e ∈ rows /\ fst e = key (snd e).
Proof.
  intros (r & Hr & E)%list_elem_of_omap. destruct (existsb is_null (key r)); [done|]. by injection E as <-.
Qed.

Lemma push_keyed_tame `{Lowercase} m columns acc row : tame (push_keyed m columns acc row).
Proof. unfold push_keyed. q_tame. Qed.

Lemma collect_keyed_mono `{Lowercase} {Src} `{ExecutorLaws Src} i j (s : Src) m columns :
  (i <= j)%nat -> qle (collect_keyed i s m columns) (collect_keyed j s m columns).
Proof. intros L. unfold collect_keyed. q_mono. Qed.

Lemma collect_keyed_ok `{Lowercase} {Src} `{ExecutorLaws Src} (s : Src) rs m columns key :
  yields s rs (Ok tt) -> (forall r, r ∈ rows_of rs -> key_values m columns r = Ok (key r)) ->
  exists n s', collect_keyed n s m columns unlimited
    = Some (Ok (sort_by (fun a b => compare_join_keys (fst a) (fst b)) (with_key key (rows_of rs)), s'), unlimited).
Proof.
  intros Y K.
  assert (A : forall rows acc, (forall r, r ∈ rows -> key_values m columns r = Ok (key r)) ->
    accumulate (push_keyed m columns) rows acc = Some (Ok (acc ++ with_key key rows))).
  { clear. induction rows as [|r rows IH]; intros acc K; [cbn; by rewrite app_nil_r|].
    cbn [accumulate]. unfold push_keyed at 1, join_key. rewrite K by by left. cbn.
    destruct (existsb is_null (key r)); cbn; rewrite IH by (intros; apply K; by right); [done|].
    by rewrite <- app_assoc. }
  specialize (A (rows_of rs) [] K). cbn [app] in A.
  apply (drain_ok (push_keyed m columns) s rs) in A as (n & s' & D & _); [|apply push_keyed_tame|done].
  exists n, s'. unfold collect_keyed. by rewrite (q_bind_ret _ _ _ _ _ D).
Qed.

Lemma bind_perm {A B} (f g : A -> list B) l l' :
  l ≡ₚ l' -> (forall x, f x ≡ₚ g x) -> mbind f l ≡ₚ mbind g l'.
Proof.
  intros P E. transitivity (mbind g l).
  - clear P. induction l as [|x l IH]; [done|]. cbn. by rewrite E, IH.
  - clear E. induction P as [|x l l' P IH|x y l|l1 l2 l3 P1 IH1 P2 IH2]; [done|..].
    + cbn. by rewrite IH.
    + cbn. by rewrite !app_assoc, (Permutation_app_comm (g y)).
    + by rewrite IH1.
Qed.

Lemma equal_pairs_perm out l l' r r' : l ≡ₚ l' -> r ≡ₚ r' -> equal_pairs out l r ≡ₚ equal_pairs out l' r'.
Proof. intros Pl Pr. unfold equal_pairs. apply bind_perm; [done|]. intros x. by rewrite Pr. Qed.

Lemma equal_pairs_rows out lk rk lefts rights :
  equal_pairs out (with_key lk lefts) (with_key rk rights) = join_rows (key_match lk rk) out lefts rights.
Proof.
  assert (M : forall l, existsb is_null (lk l) = false ->
    (filter (fun e => key_eq (lk l) (fst e) = true) (with_key rk rights)).*2
    = filter (fun r => key_match lk rk l r = true) rights).
  { intros l N. induction rights as [|r rights IH]; [done|]. rewrite with_key_cons.
    assert (K : key_match lk rk l r = negb (existsb is_null (rk r)) && key_eq (lk l) (rk r))
      by (unfold key_match; by rewrite N).
    rewrite (filter_cons _ r rights).
    destruct (decide (key_match lk rk l r = true)) as [T|T]; rewrite K in T; destruct (existsb is_null (rk r)); try done.
    - rewrite filter_cons, decide_True by done. cbn [fmap list_fmap snd]. f_equal. exact IH.
    - rewrite filter_cons, decide_False by done. exact IH. }
  unfold join_rows, equal_pairs. induction lefts as [|l lefts IH]; [done|]. rewrite with_key_cons.
  destruct (existsb is_null (lk l)) eqn:N; cbn [mbind list_bind fst snd].
  - rewrite (filter_nothing _ rights); [exact IH|]. intros r _. unfold key_match. by rewrite N.
  - rewrite M by done. f_equal. exact IH.
Qed.

Lemma sort_merge_yields `{Lowercase} {L R : Type} `{ExecutorLaws L} `{ExecutorLaws R}
    (l : L) (r : R) ls rs conds output li ri lk rk out :
  join_fits conds output li ri (rows_of ls) (rows_of rs) lk rk out ->
  yields l ls (Ok tt) -> yields r rs (Ok tt) ->
  exists rows, yields (mat_new (mk_smj l r conds output li ri)) (ResRow <$> rows) (Ok tt)
    /\ rows ≡ₚ join_rows (key_match lk rk) out (rows_of ls) (rows_of rs).
Proof.
  intros Fits Yl Yr.
  destruct (collect_keyed_ok l ls li (left_column <$> conds) lk Yl) as (n & l' & El);
    [intros x Hx; by apply (fits_left _ _ _ _ _ _ _ _ _ Fits)|].
  destruct (collect_keyed_ok r rs ri (right_column <$> conds) rk Yr) as (m & r' & Er);
    [intros x Hx; by apply (fits_right _ _ _ _ _ _ _ _ _ Fits)|].
  set (cmp := fun a b : Row * Row => compare_join_keys (fst a) (fst b)) in *.
  pose proof (image_preorder wf_keyed wf_key fst compare_join_keys (fun a Ha => Ha) compare_join_keys_preorder) as P.
  fold cmp in P.
  assert (Wl : Forall wf_keyed (with_key lk (rows_of ls))).
  { apply Forall_forall. intros e [He Ek]%elem_of_with_key. unfold wf_keyed. rewrite Ek. by apply (fits_left _ _ _ _ _ _ _ _ _ Fits). }
  assert (Wr : Forall wf_keyed (with_key rk (rows_of rs))).
  { apply Forall_forall. intros e [He Ek]%elem_of_with_key. unfold wf_keyed. rewrite Ek. by apply (fits_right _ _ _ _ _ _ _ _ _ Fits). }
  exists (equal_pairs out (sort_by cmp (with_key lk (rows_of ls))) (sort_by cmp (with_key rk (rows_of rs)))). split.
  - apply (mat_yields (n `max` m) _ (mk_smj l' r' conds output li ri)). unfold consume, smj_consumer.
    cbn [smj_left smj_right smj_left_indices smj_right_indices smj_conditions smj_output].
    rewrite (q_bind_ret _ _ _ _ _ (collect_keyed_mono n (n `max` m) l _ _ ltac:(lia) _ _ El)).
    rewrite (q_bind_ret _ _ _ _ _ (collect_keyed_mono m (n `max` m) r _ _ ltac:(lia) _ _ Er)).
    unfold merge_product. rewrite (merge_from_ok output out); [done|lia|by rewrite sort_by_perm|by rewrite sort_by_perm|..].
    + by apply (sort_by_sorted (D:=wf_keyed) (cmp:=cmp)).
    + by apply (sort_by_sorted (D:=wf_keyed) (cmp:=cmp)).
    + intros x y Hx Hy. rewrite sort_by_perm in Hx, Hy. apply elem_of_with_key in Hx as [Hx _], Hy as [Hy _].
      by apply (fits_output _ _ _ _ _ _ _ _ _ Fits).
  - rewrite <- equal_pairs_rows. apply equal_pairs_perm; apply sort_by_perm.
Qed.

(** ** The joins agree *)

(** The ON clause of an equi-join, over a left row of [n] values and a right row. *)
Fixpoint equi_predicate (n : Z) (pairs : list (Z * Z)) : Pred :=
  match pairs with
  | [] => ConstantPredicate true
  | (i, j) :: pairs =>
      let leg := ComparisonPredicate (ColumnExpression [] i) OpEq (ColumnExpression [] (n + j)) in
      match pairs with
      | [] => leg
      | _ => LogicalPredicate leg OpAnd (equi_predicate n pairs)
      end
  end.

Definition key_at (idxs : list Z) (row : Row) : Row := (fun i => default VNull (row !! Z.to_nat i)) <$> idxs.

(** The compared columns have one type, NULLs aside. *)
Definition same_type (a b : Value) : Prop :=
  is_null a = true \/ is_null b = true \/ fst (value_hash_input a) = fst (value_hash_input b).

Definition pairs_fit (pairs : list (Z * Z)) (l r : Row) : Prop :=
  Forall (fun p => 0 <= fst p < zlen l /\ 0 <= snd p < zlen r
    /\ same_type (default VNull (l !! Z.to_nat (fst p))) (default VNull (r !! Z.to_nat (snd p)))) pairs.

Lemma column_value_in row i :
  0 <= i < zlen row -> column_value row i = Ok (default VNull (row !! Z.to_nat i)).
Proof.
  intros I. unfold column_value. rewrite list_lookup_fmap.
  destruct (row !! Z.to_nat i) as [v|] eqn:E; [by destruct v|]. apply lookup_ge_None in E. unfold zlen in I. lia.
Qed.

(** Equality as the predicate sees it: true, or not. *)
Lemma leg_value a b :
  same_type a b ->
  exists t, compare_values_op OpEq a b = Ok t
    /\ (t = TTrue <-> negb (is_null a) && negb (is_null b) && value_partial_eq a b = true).
Proof.
  unfold same_type, compare_values_op, ternary_of.
  destruct a as [x|x| |x|x|x|x], b as [y|y| |y|y|y|y]; cbn; intros T; try (by destruct T as [|[]]);
    try (by eexists); eexists; (split; [done|]);
    match goal with |- context [if ?c then _ else _] => destruct c end; done.
Qed.

Lemma equi_ternary rt pairs l r :
  pairs <> [] -> pairs_fit pairs l r ->
  exists t, evaluate_ternary rt (equi_predicate (zlen l) pairs) (l ++ r) = Ok t
    /\ (t = TTrue <-> key_match (key_at pairs.*1) (key_at pairs.*2) l r = true).
Proof.
  intros N F. induction F as [|[i j] pairs (Hi & Hj & T) F IH]; [done|]. clear N. cbn [fst snd] in *.
  set (a := default VNull (l !! Z.to_nat i)) in *. set (b := default VNull (r !! Z.to_nat j)) in *.
  assert (Leg : evaluate_ternary rt (ComparisonPredicate (ColumnExpression [] i) OpEq (ColumnExpression [] (zlen l + j)))
    (l ++ r) = compare_values_op OpEq a b).
  { cbn [evaluate_ternary evaluate].
    rewrite !column_value_in by (unfold zlen in *; rewrite length_app; lia). cbn [exec_bind].
    rewrite lookup_app_l by (unfold zlen in *; lia). rewrite lookup_app_r by (unfold zlen in *; lia).
    by replace (Z.to_nat (zlen l + j) - length l)%nat with (Z.to_nat j) by (unfold zlen; lia). }
  destruct (leg_value a b T) as (t & Et & Ht).
  assert (K : key_match (key_at ((i, j) :: pairs).*1) (key_at ((i, j) :: pairs).*2) l r
    = negb (is_null a) && negb (is_null b) && value_partial_eq a b
      && key_match (key_at pairs.*1) (key_at pairs.*2) l r).
  { unfold key_match, key_at. cbn [fmap list_fmap fst snd existsb]. fold a b. rewrite !negb_orb.
    cbn [key_eq row_key list_eqb]. destruct (is_null a), (is_null b), (value_partial_eq a b), (existsb is_null _), (existsb is_null _);
      done. }
  rewrite K. destruct pairs as [|p pairs].
  - exists t. cbn [equi_predicate]. rewrite Leg. split; [done|]. rewrite Ht. cbn. by rewrite andb_true_r.
  - destruct (IH ltac:(done)) as (t' & Et' & Ht'). cbn [equi_predicate] in *. cbn [evaluate_ternary] in *.
    cbn [evaluate_ternary] in Leg. rewrite Leg, Et. cbn [exec_bind].
    assert (Both : forall t0, (t0 = TTrue <-> t = TTrue /\ t' = TTrue) ->
      (t0 = TTrue <-> negb (is_null a) && negb (is_null b) && value_partial_eq a b
        && key_match (key_at (p :: pairs).*1) (key_at (p :: pairs).*2) l r = true))
      by (intros t0; rewrite andb_true_iff; naive_solver).
    destruct t; cbn; rewrite ?Et'; cbn; eexists; (split; [done|]); apply Both; destruct t'; naive_solver.
Qed.

Lemma equi_predicate_match rt pairs l r :
  pairs <> [] -> pairs_fit pairs l r ->
  evaluate_pred rt (equi_predicate (zlen l) pairs) (l ++ r) = Ok (key_match (key_at pairs.*1) (key_at pairs.*2) l r).
Proof.
  intros N F. destruct (equi_ternary rt pairs l r N F) as (t & E & Ht).
  assert (P : evaluate_pred rt (equi_predicate (zlen l) pairs) (l ++ r) = Ok (fold t)).
  { unfold evaluate_pred. destruct pairs as [|[i j] [|p pairs]]; [done|by rewrite E..]. }
  rewrite P. f_equal. destruct (key_match _ _ l r), t; cbn; naive_solver.
Qed.

(** ** What the joins promise *)

(** C15: The hash join and the sort-merge join compute the equi-join.  Over inputs
    whose columns are in range, and whatever the hash table does within its
    contract, the hash join yields, for each left row in order, its output with
    every right row whose key equals it, NULL matching nothing, signed zeros
    matching each other and NaN matching nothing; an error of the left input
    ends it there.  The sort-merge join yields the same rows in some order. *)
Theorem equi_joins_exact `{Lowercase} `{ProbingLaws} {L R : Type} `{ExecutorLaws L} `{ExecutorLaws R}
    (l : L) (r : R) ls rs o conds output li ri lk rk out
    (Fits : join_fits conds output li ri (rows_of ls) (rows_of rs) lk rk out)
    (Yl : yields l ls o) (Yr : yields r rs (Ok tt)) :
  let rows := join_rows (key_match lk rk) out (rows_of ls) (rows_of rs) in
  yields (join_new l r conds output li ri) (ResRow <$> rows) o
  /\ (o = Ok tt -> exists rows', rows' ≡ₚ rows
      /\ yields (mat_new (mk_smj l r conds output li ri)) (ResRow <$> rows') (Ok tt)).
Proof.
  split; [by apply hash_join_yields|]. intros ->.
  destruct (sort_merge_yields l r ls rs conds output li ri lk rk out Fits Yl Yr) as (rows' & Y & P). by exists rows'.
Qed.

(** C17: The nested loop join, on any predicate that evaluates on the pairs: for
    each left row in order its pairs that hit, or, for a LEFT or FULL join, the
    row padded with NULLs when none does; after the last left row, for a FULL
    join, the right rows that no left row hit, padded, in order. *)
Theorem nested_loop_exact {rt : Runtime} {L R : Type} `{ExecutorLaws L} `{ExecutorLaws R}
    (l : L) (r : R) ls rs o p output t hit out padl padr
    (Fits : nested_fits p output t (rows_of ls) (rows_of rs) hit out padl padr)
    (Yl : yields l ls o) (Yr : yields r rs (Ok tt)) :
  yields (nlj_new l r p output t)
    ((ResRow <$> (x ← rows_of ls; nested_left t hit out padl (rows_of rs) x))
     ++ (if is_ok o then ResRow <$> nested_rest t hit padr (rows_of ls) (rows_of rs) else [])) o.
Proof. by apply nested_loop_yields. Qed.

(** C16: An equi-join may be run by the hash join or by the nested loop on its ON
    clause: where the compared columns have one type, NULLs aside, both yield the
    same stream. *)
Theorem hash_join_is_nested_loop {rt : Runtime} `{Lowercase} `{ProbingLaws} {L R : Type} `{ExecutorLaws L} `{ExecutorLaws R}
    (l : L) (r : R) ls rs o conds output li ri pairs n out
    (Fits : join_fits conds output li ri (rows_of ls) (rows_of rs) (key_at pairs.*1) (key_at pairs.*2) out)
    (Some_pair : pairs <> []) (Width : forall x, x ∈ rows_of ls -> zlen x = n)
    (Typed : forall x y, x ∈ rows_of ls -> y ∈ rows_of rs -> pairs_fit pairs x y)
    (Yl : yields l ls o) (Yr : yields r rs (Ok tt)) :
  exists rows, yields (join_new l r conds output li ri) rows o
    /\ yields (nlj_new l r (equi_predicate n pairs) output JoinInner) rows o.
Proof.
  exists (ResRow <$> join_rows (key_match (key_at pairs.*1) (key_at pairs.*2)) out (rows_of ls) (rows_of rs)).
  split; [by apply hash_join_yields|].
  pose proof (nested_loop_yields l r ls rs o (equi_predicate n pairs) output JoinInner
    (key_match (key_at pairs.*1) (key_at pairs.*2)) out id id) as Y.
  rewrite nested_inner_rows in Y. cbn [nested_rest is_full fmap list_fmap] in Y.
  replace (if is_ok o then [] else []) with ([] : list ExecResult) in Y by by destruct (is_ok o).
  rewrite app_nil_r in Y. apply Y; [|done..]. split; [|by apply (fits_output _ _ _ _ _ _ _ _ _ Fits)|done..].
  intros x y Hx Hy. rewrite <- (Width x Hx). apply equi_predicate_match; auto.
Qed.

(** The joins differ on columns of different types: the ON clause finds [1] and
    [1.0] equal, the hash join, which compares the values as keys, does not. *)
Theorem mixed_join_keys_differ rt :
  evaluate_pred rt (equi_predicate 1 [(0, 0)]) ([VInt 1] ++ [VFloat (f64_of_int 1)]) = Ok true
  /\ key_match id id [VInt 1] [VFloat (f64_of_int 1)] = false.
Proof. by vm_compute. Qed.

(** *** Witnesses *)

Definition sample_conditions : list JoinCondition := [mk_condition (mk_column_ref None [x61]) (mk_column_ref None [x62])].
Definition sample_join_left : list Row := [[VInt 1; VInt 10]; [VNull; VInt 20]; [VInt 2; VInt 30]].
Definition sample_join_right : list Row := [[VInt 2]; [VInt 1]; [VInt 1]].
Definition sample_output : Output := [(1, SideLeft); (0, SideRight)].
Definition sample_pair (l r : Row) : Row := [default VNull (l !! 1%nat); default VNull (r !! 0%nat)].

Lemma sample_fits `{Lowercase} :
  join_fits sample_conditions sample_output [([x61], 0)] [([x62], 0)] sample_join_left sample_join_right
    (key_at [0]) (key_at [0]) sample_pair.
Proof.
  split.
  - intros l Hl. repeat (apply elem_of_cons in Hl as [->|Hl]; [by repeat constructor|]). by apply not_elem_of_nil in Hl.
  - intros r Hr. repeat (apply elem_of_cons in Hr as [->|Hr]; [by repeat constructor|]). by apply not_elem_of_nil in Hr.
  - intros l r Hl Hr.
    repeat (apply elem_of_cons in Hl as [->|Hl]; [repeat (apply elem_of_cons in Hr as [->|Hr]; [done|]);
      by apply not_elem_of_nil in Hr|]). by apply not_elem_of_nil in Hl.
Qed.

#[local] Existing Instance scan_probing.
#[local] Existing Instance scan_probing_laws.
#[local] Existing Instance sample_lowercase.
#[local] Existing Instance sample_runtime.

Lemma equi_joins_exact_witness :
  yields (join_new (mk_derived sample_join_left 0) (mk_derived sample_join_right 0) sample_conditions sample_output
      [([x61], 0)] [([x62], 0)])
    [ResRow [VInt 10; VInt 1]; ResRow [VInt 10; VInt 1]; ResRow [VInt 30; VInt 2]] (Ok tt).
Proof.
  eapply yields_eq; [exact (proj1 (equi_joins_exact (mk_derived sample_join_left 0) (mk_derived sample_join_right 0)
    (ResRow <$> drop 0 sample_join_left)
    (ResRow <$> drop 0 sample_join_right) (Ok tt) _ _ _ _ _ _ _ sample_fits (derived_yields sample_join_left 0) (derived_yields sample_join_right 0)))|].
  vm_compute. reflexivity.
Defined.

Lemma sample_nested_fits t :
  nested_fits (equi_predicate 2 [(0, 0)]) sample_output t sample_join_left sample_join_right
    (key_match (key_at [0]) (key_at [0])) sample_pair (fun l => [default VNull (l !! 1%nat); VNull])
    (fun r => [VNull; default VNull (r !! 0%nat)]).
Proof.
  split.
  1, 2: intros l r Hl Hr;
    repeat (apply elem_of_cons in Hl as [->|Hl]; [repeat (apply elem_of_cons in Hr as [->|Hr]; [by vm_compute|]);
      by apply not_elem_of_nil in Hr|]); by apply not_elem_of_nil in Hl.
  1, 2: intros l _ Hl; repeat (apply elem_of_cons in Hl as [->|Hl]; [done|]); by apply not_elem_of_nil in Hl.
Qed.

Lemma nested_loop_exact_witness :
  yields (nlj_new (mk_derived sample_join_left 0) (mk_derived sample_join_right 0)
      (equi_predicate 2 [(0, 0)]) sample_output JoinLeft)
    [ResRow [VInt 10; VInt 1]; ResRow [VInt 10; VInt 1]; ResRow [VInt 20; VNull]; ResRow [VInt 30; VInt 2]] (Ok tt).
Proof.
  eapply yields_eq; [exact (nested_loop_exact (mk_derived sample_join_left 0) (mk_derived sample_join_right 0)
    (ResRow <$> drop 0 sample_join_left)
    (ResRow <$> drop 0 sample_join_right) (Ok tt) _ _ _ _ _ _ _ (sample_nested_fits JoinLeft) (derived_yields sample_join_left 0) (derived_yields sample_join_right 0))|].
  vm_compute. reflexivity.
Defined.

Lemma hash_join_is_nested_loop_witness :
  exists rows, yields (join_new (mk_derived sample_join_left 0) (mk_derived sample_join_right 0) sample_conditions
      sample_output [([x61], 0)] [([x62], 0)]) rows (Ok tt)
    /\ yields (nlj_new (mk_derived sample_join_left 0) (mk_derived sample_join_right 0)
         (equi_predicate 2 [(0, 0)]) sample_output JoinInner) rows (Ok tt).
Proof.
  apply (hash_join_is_nested_loop (mk_derived sample_join_left 0) (mk_derived sample_join_right 0)
    (ResRow <$> drop 0 sample_join_left) (ResRow <$> drop 0 sample_join_right)
    (Ok tt) sample_conditions sample_output _ _ [(0, 0)] 2 sample_pair);
    [exact sample_fits|done|..|apply (derived_yields sample_join_left 0)|apply (derived_yields sample_join_right 0)].
  - intros x Hx. repeat (apply elem_of_cons in Hx as [->|Hx]; [done|]). by apply not_elem_of_nil in Hx.
  - intros x y Hx Hy.
    repeat (apply elem_of_cons in Hx as [->|Hx]; [repeat (apply elem_of_cons in Hy as [->|Hy];
      [repeat constructor; done|]); by apply not_elem_of_nil in Hy|]). by apply not_elem_of_nil in Hx.
Defined.
