(* ===== verification/Aggregate.v ===== *)
(** * Aggregation

    [src/executor/aggregate.rs]: the accumulators of the aggregate functions
    and the hash aggregation of GROUP BY.  The iteration order of a [HashMap]
    is left open ([Iteration]): the groups come in some order.  Each group's
    accumulators hold what the functions mean on the rows of the group, in
    input order; MIN and MAX agree with the order of ORDER BY. *)

From Stdlib Require Import Strings.String ZArith Strings.Byte Lia List.
From stdpp Require Import base tactics list numbers gmap.
From S2P Require Import Prelude RowKey Values Text DateTime Like Expr Budget Executor Ordering Hashing Operators Sort Joins.
#[local] Open Scope Z_scope.

(** ** Accumulators *)

Inductive AggregateFunc :=
| CountStar
| Count (col : list byte)
| Sum (col : list byte)
| Avg (col : list byte)
| Min (col : list byte)
| Max (col : list byte)
| CountDistinct (col : list byte)
| SumDistinct (col : list byte)
| AvgDistinct (col : list byte)
| GroupConcat (col : list byte) (separator : option (list byte)).

Inductive AggregateState :=
| StCountStar (count : Z)
| StCount (count : Z)
| StSum (sum : option Value) (count : Z)
| StAvg (sum : option Value) (count : Z)
| StMin (current : option Value)
| StMax (current : option Value)
| StCountDistinct (seen : list Value)
| StSumDistinct (seen : list Value) (sum : option Value)
| StAvgDistinct (seen : list Value) (sum : option Value) (count : Z)
| StGroupConcat (parts : list (list byte)) (separator : list byte).

Definition result_column_name (func : AggregateFunc) : list byte :=
  match func with
  | CountStar => bytes_of_string "count_star"
  | Count col => bytes_of_string "count_" ++ col
  | Sum col => bytes_of_string "sum_" ++ col
  | Avg col => bytes_of_string "avg_" ++ col
  | Min col => bytes_of_string "min_" ++ col
  | Max col => bytes_of_string "max_" ++ col
  | CountDistinct col => bytes_of_string "count_distinct_" ++ col
  | SumDistinct col => bytes_of_string "sum_distinct_" ++ col
  | AvgDistinct col => bytes_of_string "avg_distinct_" ++ col
  | GroupConcat col _ => bytes_of_string "group_concat_" ++ col
  end.

Definition func_column (func : AggregateFunc) : option (list byte) :=
  match func with
  | CountStar => None
  | Count col | Sum col | Avg col | Min col | Max col
  | CountDistinct col | SumDistinct col | AvgDistinct col | GroupConcat col _ => Some col
  end.

Definition state_new (func : AggregateFunc) : AggregateState :=
  match func with
  | CountStar => StCountStar 0
  | Count _ => StCount 0
  | Sum _ => StSum None 0
  | Avg _ => StAvg None 0
  | Min _ => StMin None
  | Max _ => StMax None
  | CountDistinct _ => StCountDistinct []
  | SumDistinct _ => StSumDistinct [] None
  | AvgDistinct _ => StAvgDistinct [] None 0
  | GroupConcat _ separator => StGroupConcat [] (default [x2c] separator)
  end.

Definition concat_text (value : Value) : list byte :=
  match value with
  | VString s => s
  | VInt n => int_to_string n
  | VFloat f => f64_to_string f
  | VBool b => bool_to_string b
  | VDate d => format_date d
  | VTimestamp t => format_timestamp t
  | VNull => []
  end.

(** [Some(match sum.take() { Some(prev) => prev.add(value), None => value.clone() })] *)
Definition add_sum (sum : option Value) (value : Value) : option Value :=
  Some (match sum with Some prev => value_add prev value | None => value end).

(** [*count += 1] on an [i64]. *)
Definition count_one (count : Z) : Z := i64_ow (count + 1).

Section accumulators.
Context `{Probing}.

(** [seen.insert(value)]: whether the value is new. *)
Definition set_insert (seen : list Value) (value : Value) : bool * list Value :=
  if set_contains seen value then (false, seen) else (true, seen ++ [value]).

Definition update (state : AggregateState) (value : Value) : AggregateState :=
  match state with
  | StCountStar count => StCountStar (count_one count)
  | StCount count => if is_null value then state else StCount (count_one count)
  | StSum sum count => if is_null value then state else StSum (add_sum sum value) (count_one count)
  | StAvg sum count => if is_null value then state else StAvg (add_sum sum value) (count_one count)
  | StMin current =>
      if is_null value then state
      else StMin (Some (match current with
        | Some cur => if lt_agg value cur then value else cur
        | None => value
        end))
  | StMax current =>
      if is_null value then state
      else StMax (Some (match current with
        | Some cur => if lt_agg cur value then value else cur
        | None => value
        end))
  | StCountDistinct seen =>
      if is_null value then state else StCountDistinct (snd (set_insert seen value))
  | StSumDistinct seen sum =>
      if is_null value then state
      else
        let (fresh, seen) := set_insert seen value in
        StSumDistinct seen (if fresh then add_sum sum value else sum)
  | StAvgDistinct seen sum count =>
      if is_null value then state
      else
        let (fresh, seen) := set_insert seen value in
        if fresh then StAvgDistinct seen (add_sum sum value) (count_one count)
        else StAvgDistinct seen sum count
  | StGroupConcat parts separator =>
      if is_null value then state else StGroupConcat (parts ++ [concat_text value]) separator
  end.
End accumulators.

(** [parts.join(separator)] *)
Fixpoint join_parts (separator : list byte) (parts : list (list byte)) : list byte :=
  match parts with
  | [] => []
  | [p] => p
  | p :: parts => p ++ separator ++ join_parts separator parts
  end.

(** [Value::Float(sum_float / *count as f64)], the sum of another type counted
    as zero. *)
Definition average (sum : option Value) (count : Z) : Value :=
  match sum with
  | Some v =>
      if 0 <? count then
        let sum_float := match as_float v with Ok f => f | _ => 0 end in
        VFloat (f64_div sum_float (f64_of_int count))
      else VNull
  | None => VNull
  end.

Definition finalize (state : AggregateState) : Value :=
  match state with
  | StCountStar count | StCount count => VInt count
  | StSum sum _ | StSumDistinct _ sum => default VNull sum
  | StAvg sum count | StAvgDistinct _ sum count => average sum count
  | StMin current | StMax current => default VNull current
  | StCountDistinct seen => VInt (i64_ow (zlen seen))
  | StGroupConcat parts separator =>
      match parts with [] => VNull | _ => VString (join_parts separator parts) end
  end.

Definition state_value_bytes (state : AggregateState) : Z :=
  let opt_bytes (o : option Value) := match o with Some v => value_bytes v | None => 0 end in
  match state with
  | StSum sum _ | StAvg sum _ => opt_bytes sum
  | StMin current | StMax current => opt_bytes current
  | StCountDistinct seen => sum_of value_bytes seen
  | StSumDistinct seen sum | StAvgDistinct seen sum _ => sum_of value_bytes seen + opt_bytes sum
  | StGroupConcat parts separator => sum_of string_bytes parts + string_bytes separator
  | StCountStar _ | StCount _ => 0
  end.

(** ** The executor *)

(** The order in which a [HashMap] hands out its entries. *)
Class Iteration := iterate : forall {A}, list A -> list A.
Class IterationLaws `{Iteration} := iterate_perm : forall {A} (l : list A), iterate l ≡ₚ l.

Record Aggregate (Src : Type) := mk_aggregate {
  agg_input : Src;
  group_by : list (list byte);
  group_key_exprs : list Expr;
  aggregates : list AggregateFunc;
  aggregate_arg_indices : list (option Z);
  column_indices : ColumnIndices
}.
Arguments mk_aggregate {Src}. Arguments agg_input {Src}. Arguments group_by {Src}.
Arguments group_key_exprs {Src}. Arguments aggregates {Src}. Arguments aggregate_arg_indices {Src}.
Arguments column_indices {Src}.

(** The single group without GROUP BY, and the groups with their keys. *)
Record Groups := mk_groups {
  single_group : option (list AggregateState);
  groups : list (Row * list AggregateState)
}.

Section aggregate.
Context {rt : Runtime} `{Lowercase} `{Probing} {Src : Type}.

Definition extract_value (row : Row) (func : AggregateFunc) (arg_index : option Z) (indices : ColumnIndices) : Value :=
  match func with
  | CountStar => VInt 1
  | _ =>
      let idx :=
        match arg_index with
        | Some idx => Some idx
        | None => indices_get indices (to_lowercase (default [] (func_column func)))
        end in
      match idx with
      | Some idx => default VNull (row !! Z.to_nat idx)
      | None => VNull
      end
  end.

Definition update_state (state : AggregateState) (value : Value) : qm AggregateState :=
  let! lim := q_limit in
  if lim =? 0 then q_ret (update state value)
  else
    let before := state_value_bytes state in
    let state := update state value in
    let after := state_value_bytes state in
    let! _ :=
      if before <? after then q_charge (after - before)
      else if after <? before then q_release (before - after)
      else q_ret tt in
    q_ret state.

Fixpoint extract_group_key (exprs : list Expr) (row : Row) : exec EvalError Row :=
  match exprs with
  | [] => Ok []
  | e :: exprs =>
      let? v := evaluate rt e row in
      let? vs := extract_group_key exprs row in Ok (v :: vs)
  end.

(** [for (i, func) in self.aggregates.iter().enumerate()] *)
Fixpoint update_states (c : Aggregate Src) (row : Row) (i : nat) (funcs : list AggregateFunc)
    (states : list AggregateState) : qm (list AggregateState) :=
  match funcs with
  | [] => q_ret states
  | func :: funcs =>
      let value := extract_value row func (default None (aggregate_arg_indices c !! i)) (column_indices c) in
      match states !! i with
      | Some state =>
          let! state := update_state state value in
          update_states c row (S i) funcs (<[i := state]> states)
      | None => q_lift Panic
      end
  end.

Definition consume_row (c : Aggregate Src) (g : Groups) (row : Row) : qm Groups :=
  match group_by c with
  | [] =>
      match single_group g with
      | Some states =>
          let! states := update_states c row 0 (aggregates c) states in
          q_ret (mk_groups (Some states) (groups g))
      | None => q_lift Panic
      end
  | _ =>
      let! group_key := q_eval (extract_group_key (group_key_exprs c) row) in
      match probe (groups g).*1 group_key with
      | None =>
          let! _ := q_charge (row_bytes group_key) in
          let! states := update_states c row 0 (aggregates c) (state_new <$> aggregates c) in
          q_ret (mk_groups (single_group g) (groups g ++ [(group_key, states)]))
      | Some at_ =>
          match groups g !! at_ with
          | Some (key, states) =>
              let! states := update_states c row 0 (aggregates c) states in
              q_ret (mk_groups (single_group g) (<[at_ := (key, states)]> (groups g)))
          | None => q_lift Panic
          end
      end
  end.

Definition consume_input `{Executor Src} (n : nat) (c : Aggregate Src) : qm (Groups * Src) :=
  drain n (consume_row c) (agg_input c)
    (mk_groups (match group_by c with [] => Some (state_new <$> aggregates c) | _ => None end) []).

Definition build_output_rows `{Iteration} (c : Aggregate Src) (g : Groups) : list Row :=
  match group_by c with
  | [] =>
      match single_group g with
      | Some states => [finalize <$> states]
      | None => [(fun f => finalize (state_new f)) <$> aggregates c]
      end
  | _ => (fun '(group_key, states) => group_key ++ (finalize <$> states)) <$> iterate (groups g)
  end.

#[global] Instance aggregate_consumer `{Iteration} `{Executor Src} : Consumer (Aggregate Src) := fun n c =>
  let! (g, input) := consume_input n c in
  q_ret (build_output_rows c g,
    mk_aggregate input (group_by c) (group_key_exprs c) (aggregates c) (aggregate_arg_indices c) (column_indices c)).
End aggregate.

(** ** Laws *)


Section aggregate_laws.
Context {rt : Runtime} `{Lowercase} `{Probing}.

Lemma update_state_unlimited state value :
  update_state state value unlimited = Some (Ok (update state value), unlimited).
Proof. done. Qed.

Lemma update_state_tame state value : tame (update_state state value).
Proof.
  intros b st b' E. rewrite update_state_unlimited. unfold update_state in E.
  apply q_bind_Ok in E as (lim & b1 & _ & E). destruct (lim =? 0); [by injection E as <-|].
  apply q_bind_Ok in E as (u & b2 & _ & E). by injection E as <-.
Qed.

Lemma update_states_tame {Src} (c : Aggregate Src) row i funcs states : tame (update_states c row i funcs states).
Proof.
  revert i states. induction funcs as [|f funcs IH]; intros i states; cbn [update_states]; [apply tame_ret|].
  destruct (states !! i); [|apply tame_lift]. apply tame_bind; [apply update_state_tame|done].
Qed.

Lemma consume_row_tame {Src} (c : Aggregate Src) g row : tame (consume_row c g row).
Proof.
  pose proof (@update_states_tame Src c row). unfold consume_row.
  destruct (group_by c); [destruct (single_group g)|]; auto with tame.
  apply tame_bind; [apply tame_eval|]. intros key. destruct (probe _ key) as [i|]; [|auto with tame].
  destruct (groups g !! i) as [[k states]|]; auto with tame.
Qed.

#[global] Instance aggregate_laws `{Iteration} {Src} `{ExecutorLaws Src} : ConsumerLaws (Aggregate Src).
Proof.
  split; unfold consume, aggregate_consumer, consume_input.
  - intros n m c L. q_mono.
  - intros n c. q_tame. apply consume_row_tame.
Qed.
End aggregate_laws.

(** ** What the functions mean *)

Definition non_null (vs : list Value) : list Value := filter (fun v => is_null v = false) vs.

Definition reduce {A} (f : A -> A -> A) (l : list A) : option A :=
  match l with [] => None | x :: l => Some (fold_left f l x) end.

Definition least (cur v : Value) : Value := if lt_agg v cur then v else cur.
Definition greatest (cur v : Value) : Value := if lt_agg cur v then v else cur.

Definition mean (vs : list Value) : Value := average (reduce value_add vs) (zlen vs).

(** The value of a function on the values of a group, in order. *)
Definition agg_value (func : AggregateFunc) (vs : list Value) : Value :=
  match func with
  | CountStar => VInt (zlen vs)
  | Count _ => VInt (zlen (non_null vs))
  | Sum _ => default VNull (reduce value_add (non_null vs))
  | Avg _ => mean (non_null vs)
  | Min _ => default VNull (reduce least (non_null vs))
  | Max _ => default VNull (reduce greatest (non_null vs))
  | CountDistinct _ => VInt (zlen (first_occurrences (non_null vs)))
  | SumDistinct _ => default VNull (reduce value_add (first_occurrences (non_null vs)))
  | AvgDistinct _ => mean (first_occurrences (non_null vs))
  | GroupConcat _ separator =>
      match non_null vs with
      | [] => VNull
      | vs => VString (join_parts (default [x2c] separator) (concat_text <$> vs))
      end
  end.

(** The accumulator after those values. *)
Definition state_of (func : AggregateFunc) (vs : list Value) : AggregateState :=
  let vs' := non_null vs in
  let fresh := first_occurrences vs' in
  match func with
  | CountStar => StCountStar (zlen vs)
  | Count _ => StCount (zlen vs')
  | Sum _ => StSum (reduce value_add vs') (zlen vs')
  | Avg _ => StAvg (reduce value_add vs') (zlen vs')
  | Min _ => StMin (reduce least vs')
  | Max _ => StMax (reduce greatest vs')
  | CountDistinct _ => StCountDistinct fresh
  | SumDistinct _ => StSumDistinct fresh (reduce value_add fresh)
  | AvgDistinct _ => StAvgDistinct fresh (reduce value_add fresh) (zlen fresh)
  | GroupConcat _ separator => StGroupConcat (concat_text <$> vs') (default [x2c] separator)
  end.

Definition is_distinct (func : AggregateFunc) : bool :=
  match func with CountDistinct _ | SumDistinct _ | AvgDistinct _ => true | _ => false end.

Lemma reduce_snoc {A} (f : A -> A -> A) l x :
  reduce f (l ++ [x]) = Some (match reduce f l with Some a => f a x | None => x end).
Proof. destruct l as [|y l]; [done|]. cbn. by rewrite fold_left_app. Qed.

Lemma non_null_snoc vs v : non_null (vs ++ [v]) = non_null vs ++ (if is_null v then [] else [v]).
Proof. unfold non_null. rewrite filter_app, filter_cons. by destruct (is_null v). Qed.

Lemma zlen_snoc {A} (l : list A) x : zlen (l ++ [x]) = zlen l + 1.
Proof. unfold zlen. rewrite length_app. cbn. lia. Qed.

Lemma zlen_filter {A} (P : A -> Prop) `{!forall x, Decision (P x)} (l : list A) : zlen (filter P l) <= zlen l.
Proof. unfold zlen. pose proof (length_filter P l). lia. Qed.

Lemma zlen_first_occurrences {A} `{EqDecision A} (l : list A) : zlen (first_occurrences l) <= zlen l.
Proof.
  induction l as [|x l IH]; [done|]. cbn [first_occurrences].
  pose proof (zlen_filter (fun y => y <> x) (first_occurrences l)). unfold zlen in *. cbn. lia.
Qed.

Lemma count_one_exact {A} (l : list A) : zlen l + 1 < 2 ^ 63 -> count_one (zlen l) = zlen l + 1.
Proof. intros B. apply i64_ow_id. unfold in_i64, zlen in *. lia. Qed.

Lemma regular_first_occurrences vs : Forall regular_value vs -> Forall regular_value (first_occurrences vs).
Proof. rewrite !Forall_forall. intros R x Hx. by apply R, elem_of_first_occurrences. Qed.

Section meaning.
Context `{ProbingLaws}.

(** An accumulator takes one more value. *)
Lemma update_state_of func vs v :
  zlen (vs ++ [v]) < 2 ^ 63 -> (is_distinct func = true -> Forall regular_value (non_null (vs ++ [v]))) ->
  update (state_of func vs) v = state_of func (vs ++ [v]).
Proof.
  rewrite zlen_snoc, non_null_snoc. intros B R.
  pose proof (zlen_filter (fun v => is_null v = false) vs) as L.
  pose proof (zlen_first_occurrences (non_null vs)) as L'. fold (non_null vs) in L.
  assert (C : forall l : list Value, zlen l <= zlen vs -> count_one (zlen l) = zlen (l ++ [v]))
    by (intros l Hl; rewrite zlen_snoc; apply count_one_exact; lia).
  unfold state_of. rewrite non_null_snoc.
  destruct (is_null v) eqn:N.
  { rewrite app_nil_r. destruct func; cbn; rewrite ?N; try done. by rewrite C. }
  destruct func; cbn [update is_distinct] in *; rewrite ?N, ?reduce_snoc, ?fmap_app; rewrite ?C by lia; try done.
  all: specialize (R eq_refl); apply Forall_app in R as [R Rv]; rewrite Forall_singleton in Rv.
  all: assert (S : set_contains (first_occurrences (non_null vs)) v = bool_decide (v ∈ non_null vs))
    by (rewrite (set_contains_exact (R:=regular_value) _ _ (regular_first_occurrences _ R) Rv);
      apply bool_decide_ext, elem_of_first_occurrences).
  all: unfold set_insert; rewrite S, first_occurrences_snoc; case_bool_decide; rewrite ?app_nil_r; try done.
  all: cbn [snd]; rewrite ?reduce_snoc, ?C by lia; done.
Qed.

Lemma state_of_nil func : state_of func [] = state_new func.
Proof. by destruct func. Qed.

Lemma finalize_state_of func vs : zlen vs < 2 ^ 63 -> finalize (state_of func vs) = agg_value func vs.
Proof.
  intros B. destruct func; cbn; try done.
  - rewrite i64_ow_id; [done|]. pose proof (zlen_first_occurrences (non_null vs)).
    pose proof (zlen_filter (fun v => is_null v = false) vs). unfold non_null, in_i64, zlen in *. lia.
  - by destruct (non_null vs).
Qed.
End meaning.

(** ** Groups *)

Section grouping.
Context {rt : Runtime} `{Lowercase} `{ProbingLaws} {Src : Type}.
Context (c : Aggregate Src) (all_rows : list Row).

(** The argument of the [i]-th function. *)
Definition agg_arg (i : nat) (func : AggregateFunc) (row : Row) : Value :=
  extract_value row func (default None (aggregate_arg_indices c !! i)) (column_indices c).

Definition states_of (rows : list Row) : list AggregateState :=
  imap (fun i f => state_of f (agg_arg i f <$> rows)) (aggregates c).

(** The aggregates of a group of rows. *)
Definition agg_row (rows : list Row) : Row :=
  imap (fun i f => agg_value f (agg_arg i f <$> rows)) (aggregates c).

(** The arguments of the DISTINCT functions are no NaN and no negative zero. *)
Definition regular_args : Prop :=
  forall i f row, aggregates c !! i = Some f -> is_distinct f = true -> row ∈ all_rows -> regular_value (agg_arg i f row).

Context (Bound : zlen all_rows < 2 ^ 63) (Regular : regular_args).

Lemma update_states_ok row (g g' : nat -> AggregateFunc -> AggregateState) funcs pre :
  (forall j f, funcs !! j = Some f ->
    update (g (length pre + j)%nat f) (agg_arg (length pre + j) f row) = g' (length pre + j)%nat f) ->
  update_states c row (length pre) funcs (pre ++ imap (fun j => g (length pre + j)%nat) funcs) unlimited
  = Some (Ok (pre ++ imap (fun j => g' (length pre + j)%nat) funcs), unlimited).
Proof.
  revert pre. induction funcs as [|f funcs IH]; intros pre E; [done|]. cbn [update_states imap].
  rewrite list_lookup_middle by done. fold (agg_arg (length pre) f row).
  rewrite (q_bind_ret _ _ _ _ _ (update_state_unlimited _ _)), insert_app_r_alt, Nat.sub_diag by lia. cbn [list_insert insert].
  pose proof (E 0%nat f eq_refl) as E0. rewrite Nat.add_0_r in *. rewrite E0.
  specialize (IH (pre ++ [g' (length pre) f])).
  rewrite length_app in IH. cbn [length] in IH.
  rewrite <- !app_assoc in IH. cbn [app] in IH.
  rewrite (imap_ext (fun j => g (length pre + 1 + j)%nat) ((fun j => g (length pre + j)%nat) ∘ S)) in IH
    by (intros; cbn; f_equal; lia).
  rewrite (imap_ext (fun j => g' (length pre + 1 + j)%nat) ((fun j => g' (length pre + j)%nat) ∘ S)) in IH
    by (intros; cbn; f_equal; lia).
  rewrite Nat.add_1_r in IH. apply IH. intros j f' Hj. specialize (E (S j) f' Hj).
  by rewrite Nat.add_succ_r in E.
Qed.

(** The accumulators of a group take one more row. *)
Lemma states_of_snoc rows row :
  (forall r, r ∈ rows ++ [row] -> r ∈ all_rows) -> zlen (rows ++ [row]) <= zlen all_rows ->
  update_states c row 0 (aggregates c) (states_of rows) unlimited = Some (Ok (states_of (rows ++ [row])), unlimited).
Proof.
  intros Sub Len. unfold states_of.
  apply (update_states_ok row (fun i f => state_of f (agg_arg i f <$> rows))
    (fun i f => state_of f (agg_arg i f <$> rows ++ [row])) (aggregates c) []).
  intros j f Hj. cbn [length Nat.add]. rewrite fmap_app. cbn [fmap list_fmap]. apply update_state_of.
  - unfold zlen in *. rewrite length_app, length_fmap in *. cbn in *. lia.
  - intros D. apply Forall_forall. intros v [_ Hv]%list_elem_of_filter.
    change [agg_arg j f row] with (agg_arg j f <$> [row]) in Hv. rewrite <- fmap_app in Hv.
    apply list_elem_of_fmap in Hv as (r & -> & Hr). apply (Regular j f r Hj D). auto.
Qed.

Lemma states_of_nil : states_of [] = state_new <$> aggregates c.
Proof. unfold states_of. rewrite <- imap_const. apply imap_ext. intros i f _. apply state_of_nil. Qed.

Lemma finalize_states rows : zlen rows <= zlen all_rows -> finalize <$> states_of rows = agg_row rows.
Proof.
  intros L. unfold states_of, agg_row. rewrite fmap_imap. apply imap_ext. intros i f _. cbn.
  apply finalize_state_of. unfold zlen in *. rewrite length_fmap. lia.
Qed.

Context (key : Row -> Row).
Context (Keys : forall row, row ∈ all_rows -> extract_group_key (group_key_exprs c) row = Ok (key row) /\ regular_row (key row)).

Definition group (rows : list Row) (k : Row) : list Row := filter (fun r => key r = k) rows.

Definition groups_of (rows : list Row) : list (Row * list AggregateState) :=
  (fun k => (k, states_of (group rows k))) <$> first_occurrences (key <$> rows).

Lemma group_snoc rows row k : group (rows ++ [row]) k = group rows k ++ (if decide (key row = k) then [row] else []).
Proof. unfold group. rewrite filter_app, filter_cons. by destruct (decide (key row = k)). Qed.

Lemma groups_of_keys rows : (groups_of rows).*1 = first_occurrences (key <$> rows).
Proof. unfold groups_of. rewrite <- list_fmap_compose. apply list_fmap_id. Qed.

Lemma group_fresh rows row : key row ∉ key <$> rows -> group rows (key row) = [].
Proof.
  intros N. apply elem_of_nil_inv. intros r [E Hr]%list_elem_of_filter. apply N. rewrite <- E. by apply list_elem_of_fmap_2.
Qed.

(** A row of a new group, and one of a group that is there. *)
Lemma groups_of_new rows row :
  key row ∉ key <$> rows -> groups_of (rows ++ [row]) = groups_of rows ++ [(key row, states_of [row])].
Proof.
  intros N. unfold groups_of. rewrite (fmap_app key rows [row] : _ = (key <$> rows) ++ [key row]).
  rewrite first_occurrences_snoc, bool_decide_false, fmap_app by done.
  cbn [fmap list_fmap]. f_equal.
  - apply list_fmap_ext. intros i k Hk. rewrite group_snoc, decide_False, app_nil_r; [done|].
    intros <-. apply N. apply elem_of_first_occurrences. by eapply list_elem_of_lookup_2.
  - by rewrite group_snoc, decide_True, group_fresh.
Qed.

Lemma groups_of_old rows row i :
  first_occurrences (key <$> rows) !! i = Some (key row) ->
  groups_of (rows ++ [row]) = <[i := (key row, states_of (group rows (key row) ++ [row]))]> (groups_of rows).
Proof.
  intros Hi. unfold groups_of. rewrite (fmap_app key rows [row] : _ = (key <$> rows) ++ [key row]).
  rewrite first_occurrences_snoc, bool_decide_true, app_nil_r.
  2: { apply elem_of_first_occurrences. by eapply list_elem_of_lookup_2. }
  apply list_eq. intros j. rewrite list_lookup_fmap. destruct (decide (i = j)) as [<-|Nij].
  - rewrite list_lookup_insert_eq by (rewrite length_fmap; by eapply lookup_lt_Some).
    rewrite Hi. cbn. by rewrite group_snoc, decide_True.
  - rewrite list_lookup_insert_ne, list_lookup_fmap by done.
    destruct (first_occurrences (key <$> rows) !! j) as [k|] eqn:Hj; [|done]. cbn.
    rewrite group_snoc, decide_False, app_nil_r; [done|]. intros <-.
    apply Nij. exact (NoDup_lookup _ _ _ _ (first_occurrences_NoDup (key <$> rows)) Hi Hj).
Qed.

Lemma consume_group_row single rows row :
  group_by c <> [] -> (forall r, r ∈ rows ++ [row] -> r ∈ all_rows) -> zlen (rows ++ [row]) <= zlen all_rows ->
  consume_row c (mk_groups single (groups_of rows)) row unlimited
  = Some (Ok (mk_groups single (groups_of (rows ++ [row]))), unlimited).
Proof.
  intros G Sub Len. destruct (Keys row ltac:(apply Sub, elem_of_app; right; by left)) as [K R].
  assert (Rs : Forall regular_row (first_occurrences (key <$> rows))).
  { apply Forall_forall. intros k Hk. rewrite elem_of_first_occurrences in Hk.
    apply list_elem_of_fmap in Hk as (r & -> & Hr).
    apply Keys, Sub, elem_of_app. by left. }
  unfold consume_row. destruct (group_by c); [done|]. cbn [groups single_group]. unfold q_eval. rewrite K.
  rewrite (q_bind_ret _ _ _ (key row) unlimited eq_refl), groups_of_keys.
  pose proof (probe_exact (R:=regular_row) _ _ Rs R) as P. destruct (probe _ (key row)) as [i|].
  - unfold groups_of at 1. rewrite list_lookup_fmap, P. cbn [fmap option_fmap option_map].
    rewrite (q_bind_ret _ _ _ _ _ (states_of_snoc (group rows (key row)) row
      ltac:(intros r; unfold group; rewrite elem_of_app, list_elem_of_filter; intros Hr; apply Sub, elem_of_app; tauto)
      ltac:(pose proof (zlen_filter (fun r => key r = key row) rows); unfold group; rewrite zlen_snoc in *; lia))).
    by rewrite (groups_of_old rows row i P).
  - rewrite (q_bind_ret (q_charge _) _ unlimited tt unlimited eq_refl), <- states_of_nil.
    rewrite (q_bind_ret _ _ _ _ _ (states_of_snoc [] row
      ltac:(intros r Hr; apply Sub, elem_of_app; by right) ltac:(unfold zlen in *; rewrite length_app in Len; cbn in *; lia))).
    rewrite groups_of_new; [done|]. by rewrite <- elem_of_first_occurrences.
Qed.

Lemma consume_single_row rows row :
  group_by c = [] -> (forall r, r ∈ rows ++ [row] -> r ∈ all_rows) -> zlen (rows ++ [row]) <= zlen all_rows ->
  consume_row c (mk_groups (Some (states_of rows)) []) row unlimited
  = Some (Ok (mk_groups (Some (states_of (rows ++ [row]))) []), unlimited).
Proof.
  intros G Sub Len. unfold consume_row. rewrite G. cbn [single_group].
  by rewrite (q_bind_ret _ _ _ _ _ (states_of_snoc rows row Sub Len)).
Qed.
End grouping.

(** An accumulation whose state is a function of the rows so far. *)
Lemma accumulate_prefix {A} (f : A -> Row -> qm A) (state : list Row -> A) all_rows :
  (forall done row rest, all_rows = done ++ row :: rest ->
    f (state done) row unlimited = Some (Ok (state (done ++ [row])), unlimited)) ->
  accumulate f all_rows (state []) = Some (Ok (state all_rows)).
Proof.
  intros E. assert (G : forall rest done, all_rows = done ++ rest ->
    accumulate f rest (state done) = Some (Ok (state all_rows))); [|by apply (G all_rows [])].
  induction rest as [|row rest IH]; intros done Ed; cbn; [by rewrite Ed, app_nil_r|].
  rewrite (E done row rest Ed). apply IH. by rewrite <- app_assoc.
Qed.

Lemma aggregate_yields {rt : Runtime} `{Lowercase} `{ProbingLaws} `{IterationLaws} {Src : Type} `{ExecutorLaws Src}
    (c : Aggregate Src) rs (key : Row -> Row)
    (Y : yields (agg_input c) rs (Ok tt)) (Bound : zlen (rows_of rs) < 2 ^ 63)
    (Regular : regular_args c (rows_of rs))
    (Keys : forall row, row ∈ rows_of rs ->
      extract_group_key (group_key_exprs c) row = Ok (key row) /\ regular_row (key row)) :
  exists out, yields (mat_new c) (ResRow <$> out) (Ok tt) /\
    match group_by c with
    | [] => out = [agg_row c (rows_of rs)]
    | _ => out ≡ₚ (fun k => k ++ agg_row c (group key (rows_of rs) k)) <$> first_occurrences (key <$> rows_of rs)
    end.
Proof.
  set (state rows := match group_by c with
    | [] => mk_groups (Some (states_of c rows)) []
    | _ => mk_groups None (groups_of c key rows)
    end).
  assert (A : accumulate (consume_row c) (rows_of rs) (state []) = Some (Ok (state (rows_of rs)))).
  { apply accumulate_prefix. intros pre row rest E.
    assert (Sub : forall r, r ∈ pre ++ [row] -> r ∈ rows_of rs)
      by (intros r; rewrite E, !elem_of_app, !elem_of_cons, elem_of_nil; tauto).
    assert (Len : zlen (pre ++ [row]) <= zlen (rows_of rs))
      by (rewrite E; unfold zlen; rewrite !length_app; cbn; lia).
    unfold state. destruct (group_by c) eqn:G; [by apply (consume_single_row c (rows_of rs))|].
    apply (consume_group_row c (rows_of rs)); try done. by rewrite G. }
  apply (drain_ok (consume_row c) (agg_input c) rs) in A as (n & s' & D & _); [|apply consume_row_tame|done].
  exists (build_output_rows c (state (rows_of rs))). split.
  - eapply (mat_yields n). unfold consume, aggregate_consumer, consume_input.
    replace (mk_groups _ _) with (state []); [by rewrite (q_bind_ret _ _ _ _ _ D)|].
    unfold state. rewrite states_of_nil. by destruct (group_by c).
  - unfold build_output_rows, state. destruct (group_by c); cbn [single_group groups].
    + by rewrite (finalize_states c (rows_of rs)).
    + rewrite iterate_perm. unfold groups_of. rewrite <- list_fmap_compose.
      erewrite (list_fmap_ext (compose _ _)); [reflexivity|]. intros i k _. cbn.
      rewrite (finalize_states c (rows_of rs)); [done|done|apply zlen_filter].
Qed.

(** C10: Hash aggregation, over any input that ends without an error and
    whatever the hash tables do within their contract: without GROUP BY it
    yields one row, the aggregates of the whole input; with GROUP BY it yields,
    in some order, one row for each distinct key, the key followed by the
    aggregates of the rows with that key, in input order.  The keys, and the
    arguments of DISTINCT aggregates, are no NaN and no negative zero. *)
Theorem group_by_exact {rt : Runtime} `{Lowercase} `{ProbingLaws} `{IterationLaws} {Src : Type} `{ExecutorLaws Src}
    (c : Aggregate Src) rs (key : Row -> Row)
    (Y : yields (agg_input c) rs (Ok tt)) (Bound : zlen (rows_of rs) < 2 ^ 63)
    (Regular : regular_args c (rows_of rs))
    (Keys : forall row, row ∈ rows_of rs ->
      extract_group_key (group_key_exprs c) row = Ok (key row) /\ regular_row (key row)) :
  exists out, yields (mat_new c) (ResRow <$> out) (Ok tt) /\
    match group_by c with
    | [] => out = [agg_row c (rows_of rs)]
    | _ => out ≡ₚ (fun k => k ++ agg_row c (group key (rows_of rs) k)) <$> first_occurrences (key <$> rows_of rs)
    end.
Proof. by apply aggregate_yields. Qed.

(** ** The functions on a column *)

Definition aggregate_of `{Probing} (func : AggregateFunc) (vs : list Value) : Value :=
  finalize (fold_left update vs (state_new func)).

Lemma aggregate_of_value `{ProbingLaws} func vs :
  zlen vs < 2 ^ 63 -> (is_distinct func = true -> Forall regular_value (non_null vs)) ->
  aggregate_of func vs = agg_value func vs.
Proof.
  intros B R. unfold aggregate_of. rewrite <- finalize_state_of by done. f_equal.
  rewrite <- state_of_nil. change vs with ([] ++ vs) at 2. remember [] as pre eqn:Ep.
  assert (E : pre ++ vs = vs) by by subst. rewrite <- E in B, R. clear E Ep. revert pre B R.
  induction vs as [|v vs IH]; intros pre B R; cbn [fold_left]; [by rewrite app_nil_r|].
  rewrite (cons_middle v), app_assoc in *. rewrite update_state_of, IH; try done.
  - unfold zlen in *. rewrite (length_app _ vs) in B. lia.
  - intros D. specialize (R D). unfold non_null in *. rewrite filter_app in R. by apply Forall_app in R as [R _].
Qed.

Definition bool_kind : Z := fst (value_hash_input (VBool true)).

(** MIN and MAX compare as ORDER BY does, on a column that is not boolean. *)
Lemma lt_agg_compare kind a b :
  kind <> bool_kind -> comparable kind a -> comparable kind b -> is_null a = false -> is_null b = false ->
  lt_agg a b = match compare_values a b with Lt => true | _ => false end.
Proof.
  intros K [->|(Ka & Wa & Na)] [->|(Kb & Wb & Nb)] Ia Ib; try done. unfold bool_kind in K.
  destruct a as [x|x| |x|x|x|x], b as [y|y| |y|y|y|y]; cbn in *; try congruence; try done.
  unfold f64_ltb, SpecFloat.SFltb, f64_partial_cmp. by destruct (SpecFloat.SFcompare _ _) as [[]|].
Qed.

Definition int_total (vs : list Value) : Z :=
  sum_of (fun v => match v with VInt n => n | _ => 0 end) vs.

Lemma i64_ow_add a b : i64_ow (i64_ow a + b) = i64_ow (a + b).
Proof.
  unfold i64_ow. f_equal. unfold to_i64, wrap64. change 18446744073709551616 with (2 ^ 64).
  destruct (_ <? _); [by rewrite Zplus_mod_idemp_l|].
  replace (a mod 2 ^ 64 - 2 ^ 64 + b) with (a mod 2 ^ 64 + b + -1 * 2 ^ 64) by lia.
  by rewrite Z.mod_add, Zplus_mod_idemp_l by lia.
Qed.

(** Only the total has to fit: sums on the way may wrap. *)
Lemma int_sum vs n :
  Forall (fun v => exists n, v = VInt n) vs ->
  fold_left value_add vs (VInt (i64_ow n)) = VInt (i64_ow (n + int_total vs)).
Proof.
  intros F. revert n. induction F as [|v vs [x ->] F IH]; intros n; cbn [fold_left int_total sum_of fold_right].
  - by rewrite Z.add_0_r.
  - cbn [value_add]. fold (i64_ow (i64_ow n + x)). rewrite i64_ow_add, IH. do 2 f_equal. unfold int_total, sum_of. lia.
Qed.

(** The choice that [f] makes is among the values and precedes all of them. *)
Lemma reduce_extreme (D : Value -> Prop) (cmp : Value -> Value -> comparison) `{!TotalPreorder D cmp} f x l :
  (forall a b, D a -> D b -> f a b = if cmp_le cmp a b then a else b) -> Forall D (x :: l) ->
  fold_left f l x ∈ x :: l /\ forall v, v ∈ x :: l -> cmp_le cmp (fold_left f l x) v.
Proof.
  intros Hf. revert x. induction l as [|y l IH]; intros x F; cbn [fold_left].
  { split; [by left|]. inversion_clear F. intros v ->%list_elem_of_singleton.
    by eapply (cmp_le_refl (D:=D)). }
  inversion F as [|? ? Dx F' E1]; subst. inversion F' as [|? ? Dy Fl E2]; subst. rewrite Hf by done.
  set (m := if cmp_le cmp x y then x else y).
  assert (Dm : D m) by (unfold m; by destruct (cmp_le cmp x y)).
  destruct (IH m ltac:(by constructor)) as [M Le]. clear IH.
  assert (Dr : D (fold_left f l m)).
  { apply elem_of_cons in M as [->|M]; [done|]. rewrite Forall_forall in Fl. auto. }
  pose proof (Le m ltac:(by left)) as Lm.
  assert (cmp_le cmp m x /\ cmp_le cmp m y) as [Lx Ly].
  { unfold m. destruct (cmp_le cmp x y) eqn:C.
    - split; [by eapply (cmp_le_refl (D:=D))|by rewrite C].
    - split; [by apply (cmp_le_total (D:=D))|by eapply (cmp_le_refl (D:=D))]. }
  split.
  - apply elem_of_cons in M as [->|M]; [|by right; right]. unfold m. destruct (cmp_le cmp x y); [by left|by right; left].
  - intros v [->|[->|Hv]%elem_of_cons]%elem_of_cons.
    + by eapply (cmp_le_trans (D:=D) (fold_left f l m) m x).
    + by eapply (cmp_le_trans (D:=D) (fold_left f l m) m y).
    + apply Le. by right.
Qed.


(** MIN and MAX of a BOOLEAN column are whatever came first, and AVG of a text
    column is zero. *)
Theorem boolean_extremes_wrong `{Probing} col :
  aggregate_of (Min col) [VBool true; VBool false] = VBool true
  /\ aggregate_of (Max col) [VBool false; VBool true] = VBool false
  /\ aggregate_of (Avg col) [VString [x61]; VString [x62]] = VFloat 0.
Proof. by vm_compute. Qed.

(** *** Witnesses *)

#[local] Existing Instance scan_probing.
#[local] Existing Instance scan_probing_laws.
#[local] Existing Instance sample_lowercase.
#[local] Existing Instance sample_runtime.
#[local] Instance in_order : Iteration := fun A l => l.
#[local] Instance in_order_laws : IterationLaws.
Proof. by intros A l. Qed.

Definition sample_orders : list Row := [[VInt 1; VInt 10]; [VInt 2; VNull]; [VInt 1; VInt 5]; [VInt 1; VInt 10]].

(** [SELECT a, COUNT( * ), COUNT(DISTINCT b), SUM(b), MIN(b) ... GROUP BY a] *)
Definition sample_aggregate : Aggregate DerivedScanExecutor :=
  mk_aggregate (mk_derived sample_orders 0) [[x61]] [ColumnExpression [x61] 0]
    [CountStar; CountDistinct [x62]; Sum [x62]; Min [x62]] [] [([x61], 0); ([x62], 1)].

Lemma group_by_exact_witness :
  exists out, yields (mat_new sample_aggregate) (ResRow <$> out) (Ok tt)
    /\ out ≡ₚ [[VInt 1; VInt 3; VInt 2; VInt 25; VInt 5]; [VInt 2; VInt 1; VInt 0; VNull; VNull]].
Proof.
  destruct (group_by_exact sample_aggregate (ResRow <$> sample_orders) (fun row => take 1 row)
    (derived_yields sample_orders 0)) as (out & Y & P); [done|..|by exists out].
  - intros i f row Hi D Hr. destruct i as [|[|[|[|]]]]; cbn in Hi; simplify_eq; try done.
    repeat (apply elem_of_cons in Hr as [->|Hr]; [by repeat split|]). by apply not_elem_of_nil in Hr.
  - intros row Hr. repeat (apply elem_of_cons in Hr as [->|Hr]; [by repeat constructor|]). by apply not_elem_of_nil in Hr.
Defined.

