(* ===== verification/Subquery.v ===== *)
(** * Subqueries

    [src/executor/semi_join.rs] (IN, EXISTS), [anti_join.rs] (NOT IN, NOT
    EXISTS), [subquery_eval.rs] (scalar subqueries of the SELECT list) and
    [scalar_subquery_filter.rs] (those of WHERE), with their executor laws.
    [SubqueryStreams] proves what they produce.

    A correlated subquery is a plan that is built again for each row, with the
    values of the outer row in its parameters.  [SubPlan] is what the executors
    use of plans; [Pipeline] provides it.  The parameters of a plan are shared
    by its clones, so an injection also changes the plan an executor keeps. *)

From Stdlib Require Import Strings.String ZArith Strings.Byte Lia List.
From stdpp Require Import base tactics list numbers gmap.
From S2P Require Import Prelude RowKey Values Text DateTime Like Expr Budget Executor Ordering Hashing Operators Sort Joins.
#[local] Open Scope Z_scope.

(** ** Plans *)

Abbreviation Params := (list (list byte * Value)).

Class SubPlan (P E : Type) := {
  inject_correlated_values : P -> Params -> P;
  create_executor_from_plan : nat -> P -> qm E
}.

Class SubPlanLaws (P E : Type) `{SubPlan P E} := {
  create_mono n m (p : P) : (n <= m)%nat -> qle (create_executor_from_plan n p) (create_executor_from_plan m p);
  create_tame n (p : P) : tame (create_executor_from_plan n p);
  inject_twice (p : P) ps qs :
    ps.*1 = qs.*1 -> inject_correlated_values (inject_correlated_values p ps) qs = inject_correlated_values p qs
}.

Record CorrelatedParam := mk_param { outer_table : list byte; outer_column : list byte; param_name : list byte }.

(** ** Parameters *)

Section parameters.
Context `{Lowercase}.

(** The value of a column the row is too short for: NULL, or the panic of an
    index out of bounds. *)
Fixpoint extract_param_values (strict : bool) (indices : ColumnIndices) (params : list CorrelatedParam) (row : Row)
    : exec QueryError Params :=
  match params with
  | [] => Ok []
  | cp :: params =>
      match indices_get indices (to_lowercase (outer_column cp)) with
      | None => Err (CorrelatedColumnNotFound (outer_column cp))
      | Some idx =>
          let? v := if strict then index_get row idx else Ok (default VNull (row !! Z.to_nat idx)) in
          let? vs := extract_param_values strict indices params row in Ok ((param_name cp, v) :: vs)
      end
  end.
End parameters.

(** [HashMap::insert] *)
Definition map_insert `{Probing} {K V} `{HashKey K} (m : list (K * V)) (k : K) (v : V) : list (K * V) :=
  map_entry m k (fun _ => v) v.

(** ** Semi-joins and anti-joins *)

Inductive RelatedKind := Semi | Anti.
Inductive RelatedPhase := BuildRightTable | ScanLeft | RelatedDone.

(** The right rows by their keys, whether there are rows, and whether one has a
    NULL in its key. *)
Record RightTable := mk_table { table_map : Buckets; right_has_rows : bool; right_has_null_key : bool }.
Definition empty_table : RightTable := mk_table [] false false.

(** [SemiJoinExecutorV2] and [AntiJoinExecutor]; [executed] only sets the phase
    to what it is at first, and a semi-join has no use for
    [right_has_null_key]. *)
Record RelatedJoin (P L R : Type) := mk_related {
  related_kind : RelatedKind;
  related_left : L;
  related_right : R;
  related_conditions : list JoinCondition;
  related_projection : list Z;
  correlated_params : list CorrelatedParam;
  right_plan : option P;
  related_left_indices : ColumnIndices;
  related_right_indices : ColumnIndices;
  right_table : option RightTable;
  correlated_rows_cache : list (Params * list Row);
  right_residency : Z;
  related_phase : RelatedPhase
}.
Arguments mk_related {P L R}. Arguments related_kind {P L R}. Arguments related_left {P L R}.
Arguments related_right {P L R}. Arguments related_conditions {P L R}. Arguments related_projection {P L R}.
Arguments correlated_params {P L R}. Arguments right_plan {P L R}. Arguments related_left_indices {P L R}.
Arguments related_right_indices {P L R}. Arguments right_table {P L R}. Arguments correlated_rows_cache {P L R}.
Arguments right_residency {P L R}. Arguments related_phase {P L R}.

Definition related_new {P L R} kind (l : L) (r : R) conditions projection params (plan : option P) li ri : RelatedJoin P L R :=
  mk_related kind l r conditions projection params plan li ri None [] 0 BuildRightTable.

Section related.
Context `{Lowercase} `{Probing} {P E L R : Type} `{SubPlan P E} `{Executor E} `{Executor L} `{Executor R}.
Implicit Types st : RelatedJoin P L R.

Fixpoint related_values (indices : ColumnIndices) (columns : list ColumnRef) (row : Row) : exec QueryError Row :=
  match columns with
  | [] => Ok []
  | c :: columns =>
      let? v :=
        match indices_get indices (to_lowercase (ref_column c)) with
        | Some idx => index_get row idx
        | None => Ok VNull
        end in
      let? vs := related_values indices columns row in Ok (v :: vs)
  end.

(** [build_right_key] and [build_left_key] *)
Definition related_key (indices : ColumnIndices) (columns : list ColumnRef) (row : Row) : exec QueryError (option Row) :=
  let? key := related_values indices columns row in
  Ok (if existsb is_null key then None else Some key).

Definition build_right_key st : Row -> exec QueryError (option Row) :=
  related_key (related_right_indices st) (right_column <$> related_conditions st).
Definition build_left_key st : Row -> exec QueryError (option Row) :=
  related_key (related_left_indices st) (left_column <$> related_conditions st).

(** A right row enters the table; the bytes it takes are counted. *)
Definition add_right st (acc : RightTable * Z) (row : Row) : qm (RightTable * Z) :=
  let (t, residency) := acc in
  let! key := q_lift (build_right_key st row) in
  match key with
  | Some key =>
      let! (bytes, m) := charge_bucket_insert (table_map t) key row in
      q_ret (mk_table m true (right_has_null_key t), residency + bytes)
  | None => q_ret (mk_table (table_map t) true true, residency)
  end.

Definition add_collect st (acc : (RightTable * Z) * list Row) (row : Row) : qm ((RightTable * Z) * list Row) :=
  let! t := add_right st (fst acc) row in q_ret (t, snd acc ++ [row]).

Definition with_table st (plan : option P) (t : RightTable) (cache : list (Params * list Row)) (residency : Z) : RelatedJoin P L R :=
  mk_related (related_kind st) (related_left st) (related_right st) (related_conditions st) (related_projection st)
    (correlated_params st) plan (related_left_indices st) (related_right_indices st) (Some t) cache residency
    (related_phase st).

(** The table of the right rows for the parameters of a left row. *)
Definition rebuild_right (n : nat) st (left_row : Row) : qm (RelatedJoin P L R) :=
  let strict := match related_kind st with Semi => false | Anti => true end in
  let! params := q_lift (extract_param_values strict (related_left_indices st) (correlated_params st) left_row) in
  match map_get (correlated_rows_cache st) params with
  | Some rows =>
      let! _ := q_release (right_residency st) in
      let! (t, residency) := q_fold (add_right st) rows (empty_table, 0) in
      q_ret (with_table st (right_plan st) t (correlated_rows_cache st) residency)
  | None =>
      match right_plan st with
      | None => q_lift Panic
      | Some plan =>
          let plan := inject_correlated_values plan params in
          let! right_exec := create_executor_from_plan n plan in
          let! _ := q_release (right_residency st) in
          let! (((t, residency), collected), _) := drain n (add_collect st) right_exec ((empty_table, 0), []) in
          let! _ := q_charge (param_key_bytes params + rows_bytes collected) in
          q_ret (with_table st (Some plan) t (map_insert (correlated_rows_cache st) params collected) residency)
      end
  end.

(** The anti-join leaves the table as it is when it has no plan. *)
Definition refresh_right (n : nat) st (left_row : Row) : qm (RelatedJoin P L R) :=
  match correlated_params st with
  | [] => q_ret st
  | _ =>
      match related_kind st, right_plan st with
      | Anti, None => q_ret st
      | _, _ => rebuild_right n st left_row
      end
  end.

(** Whether the left row is kept. *)
Definition keeps st (t : RightTable) (left_row : Row) : exec QueryError bool :=
  match related_kind st, related_conditions st with
  | Semi, [] => Ok (right_has_rows t)
  | Anti, [] => Ok (negb (right_has_rows t))
  | Semi, _ =>
      let? key := build_left_key st left_row in
      Ok (match key with Some key => set_contains (table_map t).*1 key | None => false end)
  | Anti, _ =>
      if right_has_null_key t then Ok false
      else if negb (right_has_rows t) then Ok true
      else
        let? key := build_left_key st left_row in
        Ok (match key with Some key => negb (set_contains (table_map t).*1 key) | None => false end)
  end.

Definition related_to st l r t phase : RelatedJoin P L R :=
  mk_related (related_kind st) l r (related_conditions st) (related_projection st) (correlated_params st)
    (right_plan st) (related_left_indices st) (related_right_indices st) t (correlated_rows_cache st)
    (right_residency st) phase.

(** A turn of the loops of [next]. *)
Definition related_body (n : nat) st : qm (RelatedJoin P L R + (option ExecResult * RelatedJoin P L R)) :=
  match related_phase st with
  | BuildRightTable =>
      match correlated_params st with
      | [] =>
          let! ((t, _), r) := drain n (add_right st) (related_right st) (empty_table, 0) in
          q_ret (inl (related_to st (related_left st) r (Some t) ScanLeft))
      | _ => q_ret (inl (related_to st (related_left st) (related_right st) (Some empty_table) ScanLeft))
      end
  | ScanLeft =>
      let! (r, l) := next n (related_left st) in
      let st := related_to st l (related_right st) (right_table st) ScanLeft in
      match r with
      | Some (ResRow left_row) =>
          let! st := refresh_right n st left_row in
          match right_table st with
          | None => q_lift Panic
          | Some t =>
              let! keep := q_lift (keeps st t left_row) in
              if (keep : bool) then
                let! out := q_lift (apply_projection (related_projection st) left_row) in
                q_ret (inr (Some (ResRow out), st))
              else q_ret (inl st)
          end
      | Some _ => q_ret (inl st)
      | None => q_ret (inl (related_to st l (related_right st) (right_table st) RelatedDone))
      end
  | RelatedDone => q_ret (inr (None, st))
  end.

#[global] Instance related_executor : Executor (RelatedJoin P L R) := {
  next n st := q_loop n (related_body n) st;
  finished st := related_phase st = RelatedDone
}.
End related.

(** ** Scalar subqueries *)

(** The rows of a scalar subquery so far: their number and the value. *)
Record ScalarRows := mk_scalar { row_count : Z; result_value : option Value; scalar_rows : list Row }.
Definition no_scalar : ScalarRows := mk_scalar 0 None [].

Definition scalar_row (acc : ScalarRows) (row : Row) : qm ScalarRows :=
  if 1 <? row_count acc + 1 then q_lift (Err SubqueryReturnsMultipleRow)
  else
    q_ret (mk_scalar (row_count acc + 1)
      (match row with v :: _ => Some v | [] => result_value acc end) (scalar_rows acc ++ [row])).

Section scalar.
Context {P E : Type} `{SubPlan P E} `{Executor E}.

(** [eval_subquery], [eval_subquery_scalar]: the value, and the rows. *)
Definition eval_subquery (n : nat) (plan : P) : qm (Value * list Row) :=
  let! executor := create_executor_from_plan n plan in
  let! (acc, _) := drain n scalar_row executor no_scalar in
  q_ret (default VNull (result_value acc), scalar_rows acc).
End scalar.

(** *** In the SELECT list *)

Record SubqueryEval (P Src : Type) := mk_eval {
  eval_input : Src;
  subquery_plan : P;
  result_column_index : Z;
  eval_params : list CorrelatedParam;
  outer_column_indices : ColumnIndices;
  cached_result : option Value;
  correlated_cache : list (Params * list Row);
  output_width : Z
}.
Arguments mk_eval {P Src}. Arguments eval_input {P Src}. Arguments subquery_plan {P Src}.
Arguments result_column_index {P Src}. Arguments eval_params {P Src}. Arguments outer_column_indices {P Src}.
Arguments cached_result {P Src}. Arguments correlated_cache {P Src}. Arguments output_width {P Src}.

Definition eval_new {P Src} (input : Src) (plan : P) index params indices width : SubqueryEval P Src :=
  mk_eval input plan index params indices None [] width.

(** The scalar goes into the row, narrowed to the output width. *)
Definition insert_scalar (width index : Z) (row : Row) (v : Value) : Row :=
  let row := if (0 <? width) && (width <=? zlen row) then take (Z.to_nat width) row else row in
  if index <=? zlen row then take (Z.to_nat index) row ++ v :: drop (Z.to_nat index) row else row ++ [v].

Section subquery_eval.
Context `{Lowercase} `{Probing} {P E Src : Type} `{SubPlan P E} `{Executor E} `{Executor Src}.
Implicit Types st : SubqueryEval P Src.

Definition eval_set st input plan cached cache : SubqueryEval P Src :=
  mk_eval input plan (result_column_index st) (eval_params st) (outer_column_indices st) cached cache (output_width st).

Definition scalar_for (n : nat) st (row : Row) : qm (Value * SubqueryEval P Src) :=
  match eval_params st with
  | [] =>
      match cached_result st with
      | Some v => q_ret (v, st)
      | None =>
          let! (v, _) := eval_subquery n (subquery_plan st) in
          q_ret (v, eval_set st (eval_input st) (subquery_plan st) (Some v) (correlated_cache st))
      end
  | _ =>
      let! params := q_lift (extract_param_values false (outer_column_indices st) (eval_params st) row) in
      match map_get (correlated_cache st) params with
      | Some rows => q_ret (match rows with (v :: _) :: _ => v | _ => VNull end, st)
      | None =>
          let plan := inject_correlated_values (subquery_plan st) params in
          let! (v, collected) := eval_subquery n plan in
          let! _ := q_charge (param_key_bytes params + rows_bytes collected) in
          q_ret (v, eval_set st (eval_input st) plan (cached_result st)
            (map_insert (correlated_cache st) params collected))
      end
  end.

Definition eval_body (n : nat) st : qm (SubqueryEval P Src + (option ExecResult * SubqueryEval P Src)) :=
  let! (r, input) := next n (eval_input st) in
  let st := eval_set st input (subquery_plan st) (cached_result st) (correlated_cache st) in
  match r with
  | Some (ResRow row) =>
      let! (v, st) := scalar_for n st row in
      q_ret (inr (Some (ResRow (insert_scalar (output_width st) (result_column_index st) row v)), st))
  | Some _ => q_ret (inl st)
  | None => q_ret (inr (None, st))
  end.

#[global] Instance eval_executor : Executor (SubqueryEval P Src) := {
  next n st := q_loop n (eval_body n) st;
  finished st := finished (eval_input st)
}.
End subquery_eval.

(** *** In WHERE *)

(** A binding with its cache. *)
Record ScalarBinding (P : Type) := mk_binding {
  binding_param : list byte;
  binding_plan : P;
  binding_correlated : list CorrelatedParam;
  scalar : option Value;
  correlated : list (Params * Value)
}.
Arguments mk_binding {P}. Arguments binding_param {P}. Arguments binding_plan {P}.
Arguments binding_correlated {P}. Arguments scalar {P}. Arguments correlated {P}.

Record ScalarFilter (P Src : Type) := mk_scalar_filter {
  sf_input : Src;
  sf_predicate : Pred;
  bindings : list (ScalarBinding P);
  sf_indices : ColumnIndices;
  sf_projection : list Z
}.
Arguments mk_scalar_filter {P Src}. Arguments sf_input {P Src}. Arguments sf_predicate {P Src}.
Arguments bindings {P Src}. Arguments sf_indices {P Src}. Arguments sf_projection {P Src}.

Section scalar_filter.
Context {rt : Runtime} `{Lowercase} `{Probing} {P E Src : Type} `{SubPlan P E} `{Executor E} `{Executor Src}.
Implicit Types st : ScalarFilter P Src.

Definition binding_set (b : ScalarBinding P) plan cached cache : ScalarBinding P :=
  mk_binding (binding_param b) plan (binding_correlated b) cached cache.

Definition eval_binding (n : nat) (indices : ColumnIndices) (b : ScalarBinding P) (row : Row)
    : qm (Value * ScalarBinding P) :=
  match binding_correlated b with
  | [] =>
      match scalar b with
      | Some v => q_ret (v, b)
      | None =>
          let! (v, _) := eval_subquery n (binding_plan b) in
          q_ret (v, binding_set b (binding_plan b) (Some v) (correlated b))
      end
  | _ =>
      let! params := q_lift (extract_param_values false indices (binding_correlated b) row) in
      match map_get (correlated b) params with
      | Some v => q_ret (v, b)
      | None =>
          let plan := inject_correlated_values (binding_plan b) params in
          let! (v, _) := eval_subquery n plan in
          let! _ := q_charge (param_key_bytes params + value_bytes v) in
          q_ret (v, binding_set b plan (scalar b) (map_insert (correlated b) params v))
      end
  end.

(** The bindings in turn, each value injected into the predicate. *)
Fixpoint eval_bindings (n : nat) (indices : ColumnIndices) (bs : list (ScalarBinding P)) (p : Pred) (row : Row)
    : qm (list (ScalarBinding P) * Pred) :=
  match bs with
  | [] => q_ret ([], p)
  | b :: bs =>
      let! (v, b) := eval_binding n indices b row in
      let p := inject_parameters [(binding_param b, v)] p in
      let! (bs, p) := eval_bindings n indices bs p row in
      q_ret (b :: bs, p)
  end.

Definition sf_body (n : nat) st : qm (ScalarFilter P Src + (option ExecResult * ScalarFilter P Src)) :=
  let! (r, input) := next n (sf_input st) in
  let set bs p := mk_scalar_filter input p bs (sf_indices st) (sf_projection st) in
  match r with
  | None => q_ret (inr (None, set (bindings st) (sf_predicate st)))
  | Some (ResRow values) =>
      let! (bs, p) := eval_bindings n (sf_indices st) (bindings st) (sf_predicate st) values in
      let! keep := q_eval (evaluate_pred rt p values) in
      if (keep : bool) then
        let! out := q_lift (apply_projection (sf_projection st) values) in
        q_ret (inr (Some (ResRow out), set bs p))
      else q_ret (inl (set bs p))
  | Some _ => q_ret (inl (set (bindings st) (sf_predicate st)))
  end.

#[global] Instance sf_executor : Executor (ScalarFilter P Src) := {
  next n st := q_loop n (sf_body n) st;
  finished st := finished (sf_input st)
}.
End scalar_filter.

(** ** Laws *)

Ltac plan_mono :=
  repeat match goal with
  | |- qle (create_executor_from_plan _ _) (create_executor_from_plan _ _) => apply create_mono; lia
  | |- qle (drain _ _ _ _) (drain _ _ _ _) => apply drain_mono; [lia|intros ??; reflexivity]
  | _ => progress q_mono
  end.

Lemma add_right_tame `{Lowercase} `{Probing} {P L R} (st : RelatedJoin P L R) acc row : tame (add_right st acc row).
Proof. unfold add_right, charge_bucket_insert. destruct acc. q_tame. Qed.
Lemma add_collect_tame `{Lowercase} `{Probing} {P L R} (st : RelatedJoin P L R) acc row : tame (add_collect st acc row).
Proof. unfold add_collect. apply tame_bind; [apply add_right_tame|intros; apply tame_ret]. Qed.
Lemma scalar_row_tame acc row : tame (scalar_row acc row).
Proof. unfold scalar_row. q_tame. Qed.
Lemma create_tame' {P E} `{SubPlanLaws P E} n (p : P) : tame (create_executor_from_plan (E:=E) n p).
Proof. apply create_tame. Qed.
#[export] Hint Resolve add_right_tame add_collect_tame scalar_row_tame create_tame' : tame.

Section related_laws.
Context `{Lowercase} `{Probing} {P E L R : Type} `{SubPlanLaws P E} `{ExecutorLaws E} `{ExecutorLaws L} `{ExecutorLaws R}.
Implicit Types st : RelatedJoin P L R.

Lemma refresh_right_mono i j st row : (i <= j)%nat -> qle (refresh_right (E:=E) i st row) (refresh_right j st row).
Proof. intros Le. unfold refresh_right, rebuild_right. plan_mono. Qed.

Lemma refresh_right_tame n st row : tame (refresh_right (E:=E) n st row).
Proof. unfold refresh_right, rebuild_right. q_tame. Qed.

Lemma related_body_mono i j st : (i <= j)%nat -> qle (related_body (E:=E) i st) (related_body j st).
Proof. intros Le. unfold related_body. plan_mono. by apply refresh_right_mono. Qed.

#[global] Instance related_laws : ExecutorLaws (RelatedJoin P L R).
Proof.
  split; cbn.
  - intros n m s Le. apply q_loop_mono; [done|]. intros a. by apply related_body_mono.
  - intros n s. apply tame_loop. intros st. unfold related_body. q_tame. apply refresh_right_tame.
  - intros n s b s' b' E1. apply q_loop_ends in E1 as (a & b1 & E1). unfold related_body in E1.
    destruct (related_phase a) eqn:Ph.
    + destruct (correlated_params a); inv_q. by repeat case_match.
    + apply q_bind_Ok in E1 as ([[[]|] l] & b2 & N & E1); try (by inv_q).
      apply q_bind_Ok in E1 as (st & b3 & _ & E1). destruct (right_table st); [|by inv_q].
      apply q_bind_Ok in E1 as ([] & b4 & _ & E1); by inv_q.
    + by inv_q.
  - intros n s b F Ln. exists s. split; [|done]. apply q_loop_once; [done|]. unfold related_body. by rewrite F.
Qed.
End related_laws.

Section scalar_laws.
Context {rt : Runtime} `{Lowercase} `{Probing} {P E Src : Type} `{SubPlanLaws P E} `{ExecutorLaws E} `{ExecutorLaws Src}.

Lemma eval_subquery_mono i j (p : P) : (i <= j)%nat -> qle (eval_subquery (E:=E) i p) (eval_subquery j p).
Proof. intros Le. unfold eval_subquery. plan_mono. Qed.
Lemma eval_subquery_tame n (p : P) : tame (eval_subquery (E:=E) n p).
Proof. unfold eval_subquery. q_tame. Qed.
#[local] Hint Resolve eval_subquery_tame : tame.

Ltac scalar_mono := repeat first [progress plan_mono|apply eval_subquery_mono; lia].

Lemma scalar_for_mono i j (st : SubqueryEval P Src) row :
  (i <= j)%nat -> qle (scalar_for (E:=E) i st row) (scalar_for j st row).
Proof. intros Le. unfold scalar_for. scalar_mono. Qed.

Lemma eval_body_mono i j (st : SubqueryEval P Src) : (i <= j)%nat -> qle (eval_body (E:=E) i st) (eval_body j st).
Proof. intros Le. unfold eval_body. plan_mono. by apply scalar_for_mono. Qed.

#[global] Instance eval_laws : ExecutorLaws (SubqueryEval P Src).
Proof.
  split; cbn.
  - intros n m s Le. apply q_loop_mono; [done|]. intros a. by apply eval_body_mono.
  - intros n s. apply tame_loop. intros st. unfold eval_body, scalar_for. q_tame.
  - intros n s b s' b' E1. apply q_loop_ends in E1 as (a & b1 & E1). unfold eval_body in E1.
    apply q_bind_Ok in E1 as ([[[]|] l] & b2 & N & E1); try (by inv_q).
    + apply q_bind_Ok in E1 as ([v st] & b3 & _ & E1). by inv_q.
    + inv_q. by eapply next_ends.
  - intros n s b F Ln. destruct (next_finished n (eval_input s) b F Ln) as (l & N & F').
    exists (eval_set s l (subquery_plan s) (cached_result s) (correlated_cache s)). split; [|done].
    apply q_loop_once; [done|]. unfold eval_body. by rewrite (q_bind_ret _ _ _ _ _ N).
Qed.

Lemma eval_bindings_mono i j indices (bs : list (ScalarBinding P)) p row :
  (i <= j)%nat -> qle (eval_bindings (E:=E) i indices bs p row) (eval_bindings j indices bs p row).
Proof.
  intros Le. revert p. induction bs as [|b bs IH]; intros p; cbn; [done|].
  apply q_bind_mono; [unfold eval_binding; scalar_mono|]. intros [v b']. apply q_bind_mono; [apply IH|]. by intros [].
Qed.

Lemma eval_bindings_tame n indices (bs : list (ScalarBinding P)) p row : tame (eval_bindings (E:=E) n indices bs p row).
Proof.
  revert p. induction bs as [|b bs IH]; intros p; cbn; [apply tame_ret|].
  apply tame_bind; [unfold eval_binding; q_tame|]. intros [v b']. apply tame_bind; [apply IH|]. intros []. apply tame_ret.
Qed.
#[local] Hint Resolve eval_bindings_tame : tame.

Lemma sf_body_mono i j (st : ScalarFilter P Src) : (i <= j)%nat -> qle (sf_body (E:=E) i st) (sf_body j st).
Proof. intros Le. unfold sf_body. plan_mono. by apply eval_bindings_mono. Qed.

#[global] Instance sf_laws : ExecutorLaws (ScalarFilter P Src).
Proof.
  split; cbn.
  - intros n m s Le. apply q_loop_mono; [done|]. intros a. by apply sf_body_mono.
  - intros n s. apply tame_loop. intros st. unfold sf_body. q_tame.
  - intros n s b s' b' E1. apply q_loop_ends in E1 as (a & b1 & E1). unfold sf_body in E1.
    apply q_bind_Ok in E1 as ([[[]|] l] & b2 & N & E1); try (by inv_q).
    + apply q_bind_Ok in E1 as ([bs p] & b3 & _ & E1). apply q_bind_Ok in E1 as ([] & b4 & _ & E1); by inv_q.
    + inv_q. by eapply next_ends.
  - intros n s b F Ln. destruct (next_finished n (sf_input s) b F Ln) as (l & N & F').
    eexists. split; [apply q_loop_once; [done|]; unfold sf_body; by rewrite (q_bind_ret _ _ _ _ _ N)|done].
Qed.
End scalar_laws.
