(* ===== verification/SubqueryStreams.v ===== *)
(** * What the subquery executors produce

    The streams of the executors of [Subquery]: IN and NOT IN follow SQL's
    three-valued logic, EXISTS and NOT EXISTS the presence of a row, and a
    scalar subquery has the value of its only row.  A correlated subquery is
    answered as if it were evaluated for each outer row, whatever the cache
    holds. *)

From Stdlib Require Import Strings.String ZArith Strings.Byte Lia List.
From stdpp Require Import base tactics list numbers gmap.
From S2P Require Import Prelude RowKey Values Text DateTime Like Expr Budget Executor Ordering Hashing Operators Sort Joins JoinStreams Subquery.
#[local] Open Scope Z_scope.

(** ** Operators with a hidden state *)

(** The rows of a stream, each kept, changed, dropped or a failure; results that
    are no rows are dropped. *)
Fixpoint row_stream (f : Row -> exec QueryError (option Row)) (rows : list Row) (o : exec QueryError unit)
    : list Row * exec QueryError unit :=
  match rows with
  | [] => ([], o)
  | row :: rows =>
      match f row with
      | Ok (Some out) => let (xs, o) := row_stream f rows o in (out :: xs, o)
      | Ok None => row_stream f rows o
      | Err e => ([], Err e)
      | Panic => ([], Panic)
      end
  end.

Lemma row_stream_ext f g rows o : (forall row, row ∈ rows -> f row = g row) -> row_stream f rows o = row_stream g rows o.
Proof.
  induction rows as [|row rows IH]; intros E; [done|]. cbn. rewrite (E row) by by left.
  rewrite IH by (intros; apply E; by right). done.
Qed.

(** Rows that are kept or dropped, and changed, without a failure. *)
Lemma row_stream_filter (keep : Row -> bool) (out : Row -> Row) rows o :
  row_stream (fun row => Ok (if keep row then Some (out row) else None)) rows o
  = (out <$> filter (fun row => keep row = true) rows, o).
Proof.
  induction rows as [|row rows IH]; [done|]. cbn [row_stream]. rewrite filter_cons, IH. by destruct (keep row).
Qed.

Section hidden_state.
Context {Src T Hidden : Type} `{Executor Src} `{Executor T}.
Context (wrap : Src -> Hidden -> T) (inv : Hidden -> Prop) (admissible : Row -> Prop).
Context (f : Row -> exec QueryError (option Row)).
Context (body : nat -> T -> qm (T + (option ExecResult * T))).
Context (next_loop : forall n t, next n t = q_loop n (body n) t).
Context (body_mono : forall i j a, (i <= j)%nat -> qle (body i a) (body j a)).
Context (on_end : forall n s s1 h, next n s unlimited = Some (Ok (None, s1), unlimited) -> yields (wrap s h) [] (Ok tt)).
Context (on_failure : forall n s h (r : exec QueryError (option ExecResult * Src)) b o,
  next n s unlimited = Some (r, b) -> failure r = Some o ->
  exists m b', body m (wrap s h) unlimited = Some (o, b')).
Context (on_other : forall n s r s1 h, next n s unlimited = Some (Ok (Some r, s1), unlimited) ->
  (forall row, r <> ResRow row) -> body n (wrap s h) unlimited = Some (Ok (inl (wrap s1 h)), unlimited)).
Context (on_row : forall n s row s1 h, next n s unlimited = Some (Ok (Some (ResRow row), s1), unlimited) ->
  inv h -> admissible row ->
  exists m, match f row with
  | Ok out => exists h', inv h' /\ body m (wrap s h) unlimited = Some (Ok (match out with
      | Some out => inr (Some (ResRow out), wrap s1 h')
      | None => inl (wrap s1 h')
      end), unlimited)
  | Err e => exists b, body m (wrap s h) unlimited = Some (Err e, b)
  | Panic => exists b, body m (wrap s h) unlimited = Some (Panic, b)
  end).

Lemma hidden_yields s rs o h :
  yields s rs o -> inv h -> (forall row, row ∈ rows_of rs -> admissible row) ->
  yields (wrap s h) (ResRow <$> fst (row_stream f (rows_of rs) o)) (snd (row_stream f (rows_of rs) o)).
Proof.
  intros Y. revert h. induction Y as [n s s1 E|n s e b E|n s b E|n s r s1 rs o E Y IH]; intros h I A.
  - by eapply on_end.
  - destruct (on_failure _ _ h _ _ (Err e) E eq_refl) as (m & b' & B). by eapply (loop_error body).
  - destruct (on_failure _ _ h _ _ Panic E eq_refl) as (m & b' & B). by eapply (loop_panic body).
  - destruct r as [id|c|row].
    1, 2: eapply (loop_skip body); [done..|by eapply on_other|by apply IH].
    cbn [rows_of omap list_omap row_stream]. change (omap _ rs) with (rows_of rs).
    destruct (on_row _ _ _ _ h E I ltac:(apply A; by left)) as [m R].
    assert (A' : forall row, row ∈ rows_of rs -> admissible row) by (intros; apply A; by right).
    destruct (f row) as [[out|]|e|].
    + destruct R as (h' & I' & B). specialize (IH h' I' A'). destruct (row_stream f (rows_of rs) o).
      by eapply (loop_emit body).
    + destruct R as (h' & I' & B). eapply (loop_skip body); [done..|by apply IH].
    + destruct R as (b & B). by eapply (loop_error body).
    + destruct R as (b & B). by eapply (loop_panic body).
Qed.
End hidden_state.

(** ** Caches *)

Definition normal_params (ps : Params) : Prop := Forall (fun p => normal_value (snd p)) ps.

#[global] Instance normal_params_keys : NormalKeys normal_params.
Proof.
  intros a b Ha Hb E. refine (list_eqb_eq _ (fun p => normal_value (snd p)) a b _ Ha Hb E).
  intros [n v] [m w] Hv Hw [Nm Vw]%andb_true_iff. cbn in *. unfold bytes_eqb in Nm.
  destruct (bytes_cmp n m) eqn:C; try done. by rewrite (bytes_cmp_eq _ _ C), (normal_values v w Hv Hw Vw).
Qed.

(** Every entry of a cache is related to its key. *)
Definition cache_inv {V} (R : Params -> V -> Prop) (cache : list (Params * V)) : Prop :=
  Forall (fun e => normal_params (fst e) /\ R (fst e) (snd e)) cache.

Section caches.
Context `{ProbingLaws} {V : Type} (R : Params -> V -> Prop).

Lemma cache_hit cache ps v : cache_inv R cache -> normal_params ps -> map_get cache ps = Some v -> R ps v.
Proof.
  intros I N. unfold map_get. destruct (probe cache.*1 ps) as [i|] eqn:P; [|done].
  apply probe_sound in P as (e & Ei & Q). rewrite list_lookup_fmap in Ei.
  destruct (cache !! i) as [[k w]|] eqn:C; [|done]. cbn in *. simplify_eq. intros [= ->].
  unfold cache_inv in I. rewrite Forall_lookup in I. destruct (I _ _ C) as [Nk E]. cbn in Nk, E.
  by rewrite (normal_params_keys ps e N Nk Q).
Qed.

Lemma cache_insert cache ps v :
  cache_inv R cache -> normal_params ps -> R ps v -> map_get cache ps = None -> cache_inv R (map_insert cache ps v).
Proof.
  intros I N Rv. unfold map_get, map_insert, map_entry. destruct (probe cache.*1 ps) as [i|] eqn:P.
  - apply probe_sound in P as (e & Ei & _). rewrite list_lookup_fmap in Ei. by destruct (cache !! i).
  - intros _. apply Forall_app. split; [done|]. by repeat constructor.
Qed.
End caches.

(** ** Right tables *)

Section right_tables.
Context `{Lowercase} `{ProbingLaws} (rk : Row -> Row).

Definition null_key (r : Row) : bool := existsb is_null (rk r).
Definition matches_key (k : Row) (r : Row) : bool := negb (null_key r) && key_eq k (rk r).

Record table_inv (t : RightTable) (rights : list Row) : Prop := {
  table_normal : Forall normal_row (table_map t).*1;
  table_lookup k : normal_row k -> set_contains (table_map t).*1 k = existsb (matches_key k) rights;
  table_rows : right_has_rows t = negb (bool_decide (rights = []));
  table_nulls : right_has_null_key t = existsb null_key rights
}.

Lemma empty_table_inv : table_inv empty_table [].
Proof.
  split; try done. intros k Nk. cbn. by rewrite (set_contains_normal (N:=normal_row)).
Qed.

Lemma snoc_nonempty {A} `{EqDecision A} (l : list A) x : negb (bool_decide (l ++ [x] = [])) = true.
Proof. rewrite bool_decide_false; [done|]. by destruct l. Qed.

Lemma existsb_snoc {A} (p : A -> bool) l x : existsb p (l ++ [x]) = existsb p l || p x.
Proof. rewrite existsb_app. cbn. by rewrite orb_false_r. Qed.

Lemma add_entry_inv t rights row :
  table_inv t rights -> normal_row (rk row) -> null_key row = false ->
  table_inv (mk_table (map_entry (table_map t) (rk row) (fun rows => rows ++ [row]) [row]) true (right_has_null_key t))
    (rights ++ [row]).
Proof.
  intros [Nt Lt _ Nl] Nr Nk. unfold map_entry.
  pose proof (probe_normal (N:=normal_row) _ _ Nt Nr) as Pr. destruct (probe (table_map t).*1 (rk row)) as [i|].
  - assert (Keys : (alter (fun e => (fst e, snd e ++ [row])) i (table_map t)).*1 = (table_map t).*1).
    { apply list_eq. intros j. rewrite !list_lookup_fmap. destruct (decide (j = i)) as [->|Ne].
      - rewrite list_lookup_alter_eq. by destruct (table_map t !! i).
      - by rewrite list_lookup_alter_ne. }
    split; cbn [table_map right_has_rows right_has_null_key]; rewrite ?Keys; try done.
    + intros k Nk'. rewrite Lt, existsb_snoc by done. unfold matches_key at 3. rewrite Nk. cbn [negb andb].
      destruct (key_eq k (rk row)) eqn:Q; [|by rewrite orb_false_r]. rewrite orb_true_r.
      pose proof (normal_eq (N:=normal_row) k _ Nk' Nr Q) as ->. rewrite <- Lt by done.
      rewrite (set_contains_normal (N:=normal_row)) by done. apply existsb_exists. exists (rk row).
      split; [|done]. destruct Pr as [Pr _]. apply list_elem_of_In. by eapply list_elem_of_lookup_2.
    + by rewrite snoc_nonempty.
    + by rewrite existsb_snoc, Nk, orb_false_r.
  - assert (Nt' : Forall normal_row ((table_map t).*1 ++ [rk row])) by (apply Forall_app; split; [done|by repeat constructor]).
    split; cbn [table_map right_has_rows right_has_null_key]; rewrite ?fmap_app; cbn [fmap list_fmap fst]; try done.
    + intros k Nk'. rewrite (set_contains_normal (N:=normal_row)) by done. rewrite !existsb_snoc. f_equal.
      * by rewrite <- (set_contains_normal (N:=normal_row)), Lt.
      * unfold matches_key. by rewrite Nk.
    + by rewrite snoc_nonempty.
    + by rewrite existsb_snoc, Nk, orb_false_r.
Qed.

Lemma add_null_inv t rights row :
  table_inv t rights -> null_key row = true -> table_inv (mk_table (table_map t) true true) (rights ++ [row]).
Proof.
  intros [Nt Lt _ Nl] Nk. split; cbn [table_map right_has_rows right_has_null_key]; try done.
  - intros k Nk'. rewrite Lt, existsb_snoc by done. unfold matches_key at 3. by rewrite Nk, orb_false_r.
  - by rewrite snoc_nonempty.
  - by rewrite existsb_snoc, Nk, orb_true_r.
Qed.
End right_tables.

(** ** Semi-joins and anti-joins *)

(** What the subquery of a left row has to say about it. *)
Definition related_keep (kind : RelatedKind) (conds : list JoinCondition) (lk rk : Row -> Row) (rights : list Row) (l : Row)
    : bool :=
  let found := negb (null_key lk l) && existsb (matches_key rk (lk l)) rights in
  match kind, conds with
  | Semi, [] => negb (bool_decide (rights = []))
  | Anti, [] => bool_decide (rights = [])
  | Semi, _ => found
  | Anti, _ =>
      negb (existsb (null_key rk) rights) && (bool_decide (rights = []) || negb (null_key lk l) && negb found)
  end.

(** The stream of a plan, without a memory limit. *)
Definition plan_yields {P E} `{SubPlan P E} `{Executor E} (p : P) (rows : list Row) : Prop :=
  exists n e rs, create_executor_from_plan n p unlimited = Some (Ok e, unlimited)
    /\ yields e rs (Ok tt) /\ rows_of rs = rows.

Section related_streams.
Context `{Lowercase} `{ProbingLaws} {P E L R : Type} `{SubPlanLaws P E} `{ExecutorLaws E} `{ExecutorLaws L} `{ExecutorLaws R}.
Context (kind : RelatedKind) (conds : list JoinCondition) (proj : list Z) (params : list CorrelatedParam).
Context (plan : option P) (li ri : ColumnIndices) (r0 : R).
Context (lefts : list Row) (rights : Row -> Prop) (lk rk out : Row -> Row) (right_of : Row -> list Row).

(** The keys and the output of the rows are in range, and no key has a negative
    zero. *)
Record related_fits : Prop := {
  related_left_fits l : l ∈ lefts -> related_values li (left_column <$> conds) l = Ok (lk l) /\ normal_row (lk l);
  related_right_fits r : rights r ->
    related_values ri (right_column <$> conds) r = Ok (rk r) /\ normal_row (rk r);
  related_out_fits l : l ∈ lefts -> apply_projection proj l = Ok (out l)
}.
Context (Fits : related_fits).

(** The state that changes from row to row. *)
Record RelatedHidden := mk_hidden {
  hidden_plan : option P;
  hidden_table : option RightTable;
  hidden_cache : list (Params * list Row);
  hidden_residency : Z;
  hidden_right : R
}.
Definition related_state (l : L) (h : RelatedHidden) : RelatedJoin P L R :=
  mk_related kind l (hidden_right h) conds proj params (hidden_plan h) li ri (hidden_table h) (hidden_cache h)
    (hidden_residency h) ScanLeft.

Lemma add_right_ok (st : RelatedJoin P L R) t residency rs row :
  related_right_indices st = ri -> related_conditions st = conds ->
  related_values ri (right_column <$> conds) row = Ok (rk row) -> normal_row (rk row) -> table_inv rk t rs ->
  exists t' residency', add_right st (t, residency) row unlimited = Some (Ok (t', residency'), unlimited)
    /\ table_inv rk t' (rs ++ [row]).
Proof.
  intros Ei Ec K N I. unfold add_right, build_right_key, related_key. rewrite Ei, Ec, K. cbn [exec_bind].
  fold (null_key rk row). destruct (null_key rk row) eqn:Nk.
  - eexists _, _. split; [done|]. by apply add_null_inv.
  - eexists _, _. split; [done|]. by apply add_entry_inv.
Qed.

Lemma add_rights_ok (st : RelatedJoin P L R) rows t residency rs :
  related_right_indices st = ri -> related_conditions st = conds ->
  (forall row, row ∈ rows -> related_values ri (right_column <$> conds) row = Ok (rk row) /\ normal_row (rk row)) ->
  table_inv rk t rs ->
  exists t' residency', table_inv rk t' (rs ++ rows)
    /\ q_fold (add_right st) rows (t, residency) unlimited = Some (Ok (t', residency'), unlimited)
    /\ accumulate (add_right st) rows (t, residency) = Some (Ok (t', residency'))
    /\ forall c, accumulate (add_collect st) rows ((t, residency), c) = Some (Ok ((t', residency'), c ++ rows)).
Proof.
  intros Ei Ec. revert t residency rs. induction rows as [|row rows IH]; intros t residency rs Hr I.
  { exists t, residency. rewrite app_nil_r. split_and!; try done. intros c. by rewrite app_nil_r. }
  destruct (Hr row ltac:(by left)) as [K N].
  destruct (add_right_ok st t residency rs row Ei Ec K N I) as (t1 & r1 & A & I1).
  destruct (IH t1 r1 (rs ++ [row]) ltac:(intros; apply Hr; by right) I1) as (t2 & r2 & I2 & F & Ac & Col).
  exists t2, r2. rewrite <- app_assoc in I2. split_and!; [done|..].
  - cbn [q_fold]. by rewrite (q_bind_ret _ _ _ _ _ A).
  - cbn [accumulate]. by rewrite A.
  - intros c. cbn [accumulate]. unfold add_collect at 1. cbn [fst snd]. rewrite (q_bind_ret _ _ _ _ _ A). cbn.
    by rewrite Col, <- app_assoc.
Qed.

Lemma keeps_ok l h t row rs :
  row ∈ lefts -> table_inv rk t rs ->
  keeps (related_state l h) t row = Ok (related_keep kind conds lk rk rs row).
Proof.
  intros Hr [Nt Lt Rt Ut]. destruct (related_left_fits Fits row Hr) as [K N].
  unfold keeps, related_keep, build_left_key, related_key. cbn [related_kind related_conditions related_state related_left_indices].
  destruct kind, conds as [|c conds']; rewrite ?Rt, ?Ut, ?negb_involutive; try done.
  - rewrite K. cbn [exec_bind]. fold (null_key lk row). destruct (null_key lk row); [done|]. by rewrite Lt.
  - destruct (existsb (null_key rk) rs); [done|]. cbn [negb andb]. case_bool_decide; [done|]. cbn [orb].
    rewrite K. cbn [exec_bind]. fold (null_key lk row). destruct (null_key lk row); [done|]. by rewrite Lt.
Qed.

(** The row that is decided, once its table is there. *)
Lemma scan_row n l row l1 h h' t :
  next n l unlimited = Some (Ok (Some (ResRow row), l1), unlimited) -> row ∈ lefts ->
  refresh_right n (related_state l1 h) row unlimited = Some (Ok (related_state l1 h'), unlimited) ->
  hidden_table h' = Some t -> table_inv rk t (right_of row) ->
  related_body n (related_state l h) unlimited
  = Some (Ok (if related_keep kind conds lk rk (right_of row) row
      then inr (Some (ResRow (out row)), related_state l1 h') else inl (related_state l1 h')), unlimited).
Proof.
  intros Nx Hr Re Ht I. unfold related_body. cbn [related_phase related_state related_left].
  rewrite (q_bind_ret _ _ _ _ _ Nx).
  change (related_to _ l1 _ _ ScanLeft) with (related_state l1 h).
  rewrite (q_bind_ret _ _ _ _ _ Re). cbn [right_table related_state]. rewrite Ht.
  rewrite (keeps_ok l1 h' t row (right_of row) Hr I).
  unfold q_bind, q_lift. destruct (related_keep kind conds lk rk (right_of row) row); [|done].
  cbn [related_projection related_state]. by rewrite (related_out_fits Fits row Hr).
Qed.

Definition keep_row_out (row : Row) : exec QueryError (option Row) :=
  Ok (if related_keep kind conds lk rk (right_of row) row then Some (out row) else None).

Lemma related_loop n (t : RelatedJoin P L R) : next n t = q_loop n (related_body n) t.
Proof. done. Qed.

(** The scan of the left rows, given that the table of each can be had. *)
Lemma related_scan_yields (inv : RelatedHidden -> Prop) l ls o h :
  (forall l1 h row, inv h -> row ∈ lefts -> exists k h' t,
    refresh_right k (related_state l1 h) row unlimited = Some (Ok (related_state l1 h'), unlimited)
    /\ inv h' /\ hidden_table h' = Some t /\ table_inv rk t (right_of row)) ->
  yields l ls o -> inv h -> (forall row, row ∈ rows_of ls -> row ∈ lefts) ->
  yields (related_state l h)
    (ResRow <$> (out <$> filter (fun row => related_keep kind conds lk rk (right_of row) row = true) (rows_of ls))) o.
Proof.
  intros Refresh Y I Sub.
  pose proof (hidden_yields related_state inv (fun row => row ∈ lefts) keep_row_out related_body) as Hid.
  unfold keep_row_out in Hid.
  setoid_rewrite (row_stream_filter (fun row => related_keep kind conds lk rk (right_of row) row) out) in Hid.
  cbn [fst snd] in Hid. apply Hid; [apply related_loop|apply related_body_mono|..]; [..|done|done|done].
  - intros n s s1 g E1.
    apply (loop_skip related_body related_loop related_body_mono n _
      (related_to (related_state s1 g) s1 (hidden_right g) (hidden_table g) RelatedDone)).
    + unfold related_body. cbn [related_phase related_state related_left].
      rewrite (q_bind_ret _ _ _ _ _ E1). reflexivity.
    + eapply (loop_end related_body related_loop related_body_mono 0). reflexivity.
  - intros n s g r b o' E1 F. exists n, b. unfold related_body, q_bind. cbn [related_phase related_state related_left].
    rewrite E1. by destruct r; cbn in F; simplify_eq.
  - intros n s r s1 g E1 N. unfold related_body. cbn [related_phase related_state related_left].
    rewrite (q_bind_ret _ _ _ _ _ E1). destruct r as [| |row]; [done..|by destruct (N row)].
  - intros n s row s1 g E1 Ig Hr. destruct (Refresh s1 g row Ig Hr) as (k & g' & t & Re & Ig' & Ht & It).
    exists (Nat.max n k). eexists. split; [exact Ig'|].
    rewrite (scan_row (Nat.max n k) s row s1 g g' t); [|by apply (next_mono n); [lia|]|done| |done..].
    + by destruct (related_keep _ _ _ _ _ _).
    + by apply (refresh_right_mono k); [lia|].
Qed.
End related_streams.

(** ** Three-valued membership *)

Definition sql_eq (a b : Value) : Ternary :=
  if is_null a || is_null b then TUnknown else ternary_of (value_partial_eq a b).

(** [x = v1 OR x = v2 OR ...] *)
Definition sql_in (x : Value) (vs : list Value) : Ternary := fold_right (fun v t => or_ternary (sql_eq x v) t) TFalse vs.

(** What IN, NOT IN, EXISTS and NOT EXISTS mean for a left row. *)
Definition subquery_holds (kind : RelatedKind) (conds : list JoinCondition) (x y : Row -> Value) (rights : list Row) (l : Row)
    : bool :=
  match kind, conds with
  | Semi, [] => negb (bool_decide (rights = []))
  | Anti, [] => bool_decide (rights = [])
  | Semi, _ => fold (sql_in (x l) (y <$> rights))
  | Anti, _ => fold (not_ternary (sql_in (x l) (y <$> rights)))
  end.

Lemma sql_in_cases x vs :
  sql_in x vs =
    if negb (is_null x) && existsb (fun v => negb (is_null v) && value_partial_eq x v) vs then TTrue
    else if bool_decide (vs = []) then TFalse
    else if is_null x || existsb is_null vs then TUnknown else TFalse.
Proof.
  induction vs as [|v vs IH]; [by rewrite andb_false_r|]. cbn [sql_in fold_right]. fold (sql_in x vs). rewrite IH. clear IH.
  rewrite (bool_decide_false (v :: vs = [])) by done. cbn [existsb]. unfold sql_eq, ternary_of.
  destruct (is_null x), (is_null v), (value_partial_eq x v); cbn [negb andb orb];
    destruct (existsb (fun v => negb (is_null v) && value_partial_eq x v) vs); cbn [negb andb orb]; try done;
    destruct vs as [|w vs]; cbn; try done; by destruct (_ || _).
Qed.


(** A column of the rows, as the keys of at most one condition. *)
Definition column_key (conds : list JoinCondition) (x : Row -> Value) (row : Row) : Row := (fun _ => x row) <$> conds.

Lemma existsb_fmap {A B} (f : A -> B) (p : B -> bool) l : existsb p (f <$> l) = existsb (fun a => p (f a)) l.
Proof. induction l as [|a l IH]; [done|]. cbn. by rewrite <- IH. Qed.

Lemma existsb_ext' {A} (p q : A -> bool) l : (forall a, p a = q a) -> existsb p l = existsb q l.
Proof. intros E. induction l as [|a l IH]; [done|]. cbn. by rewrite E, IH. Qed.


Lemma related_keep_sql kind conds (x y : Row -> Value) rights l :
  (length conds <= 1)%nat ->
  related_keep kind conds (column_key conds x) (column_key conds y) rights l = subquery_holds kind conds x y rights l.
Proof.
  intros L. destruct conds as [|c [|]]; [by destruct kind| |cbn in L; lia].
  unfold related_keep, subquery_holds. rewrite sql_in_cases, !existsb_fmap.
  assert (M : existsb (matches_key (column_key [c] y) (column_key [c] x l)) rights
    = existsb (fun r => negb (is_null (y r)) && value_partial_eq (x l) (y r)) rights).
  { apply existsb_ext'. intros r. unfold matches_key, null_key, column_key. cbn. by rewrite orb_false_r, andb_true_r. }
  assert (Nl : existsb (null_key (column_key [c] y)) rights = existsb (fun r => is_null (y r)) rights).
  { apply existsb_ext'. intros r. unfold null_key, column_key. cbn. by rewrite orb_false_r. }
  assert (Nx : null_key (column_key [c] x) l = is_null (x l)) by (unfold null_key, column_key; cbn; by rewrite orb_false_r).
  assert (Em : bool_decide (y <$> rights = []) = bool_decide (rights = [])).
  { apply bool_decide_ext. by destruct rights. }
  rewrite M, Nl, Nx, Em. destruct (decide (rights = [])) as [->|Ne].
  - by destruct (is_null (x l)), kind.
  - rewrite bool_decide_false by done.
    destruct (is_null (x l)), (existsb (fun r => negb (is_null (y r)) && value_partial_eq (x l) (y r)) rights), kind; try done;
      by destruct (existsb (fun r => is_null (y r)) rights).
Qed.

Lemma extract_param_names `{Lowercase} strict indices params row ps :
  extract_param_values strict indices params row = Ok ps -> ps.*1 = param_name <$> params.
Proof.
  revert ps. induction params as [|cp params IH]; intros ps E; cbn in E; [by simplify_eq|].
  destruct (indices_get _ _); [|done]. apply exec_bind_Ok in E as (v & _ & E).
  apply exec_bind_Ok in E as (vs & Evs & E). simplify_eq. cbn. f_equal. by apply IH.
Qed.

(** The hypotheses of both theorems, for keys of at most one column. *)
Definition one_column_fits `{Lowercase} conds proj li ri (lefts : list Row) (rights : Row -> Prop) x y out : Prop :=
  (length conds <= 1)%nat /\ related_fits conds proj li ri lefts rights (column_key conds x) (column_key conds y) out.

Lemma related_fixed_yields `{Lowercase} `{ProbingLaws} {P E L R : Type} `{SubPlanLaws P E} `{ExecutorLaws E}
    `{ExecutorLaws L} `{ExecutorLaws R} kind conds proj (plan : option P) li ri (l : L) (r : R) ls rs o x y out
    (Yl : yields l ls o) (Yr : yields r rs (Ok tt))
    (Fits : one_column_fits conds proj li ri (rows_of ls) (fun r => r ∈ rows_of rs) x y out) :
  yields (related_new kind l r conds proj [] plan li ri)
    (ResRow <$> (out <$> filter (fun row => subquery_holds kind conds x y (rows_of rs) row = true) (rows_of ls))) o.
Proof.
  destruct Fits as [Len Fits].
  rewrite (list_filter_iff _ (fun row =>
    related_keep kind conds (column_key conds x) (column_key conds y) (rows_of rs) row = true))
    by (intros row; by rewrite related_keep_sql).
  destruct (add_rights_ok (L:=L) (R:=R) conds ri (column_key conds y) (related_new kind l r conds proj [] plan li ri)
    (rows_of rs) empty_table 0 [] eq_refl eq_refl) as (t & res & I & _ & Ac & _).
  { intros row Hr. by apply (related_right_fits _ _ _ _ _ _ _ _ _ Fits). }
  { apply empty_table_inv. }
  apply (drain_ok _ r rs) in Ac as (n & r' & D & _); [|apply add_right_tame|done].
  set (h := mk_hidden plan (Some t) [] 0 r').
  apply (loop_skip related_body related_loop related_body_mono n _ (related_state kind conds proj [] li ri l h)).
  { unfold related_body. cbn [related_phase related_new correlated_params related_right].
    rewrite (q_bind_ret _ _ _ _ _ D). reflexivity. }
  apply (related_scan_yields kind conds proj [] li ri (rows_of ls) _ _ (column_key conds y) out (fun _ => rows_of rs) Fits
    (fun g => g = h)); [|done..].
  intros l1 g row -> _. exists 0%nat, h, t. by split_and!.
Qed.


(** *** Correlated subqueries *)

Definition strict_of (kind : RelatedKind) : bool := match kind with Semi => false | Anti => true end.

Section correlated_streams.
Context `{Lowercase} `{ProbingLaws} {P E L R : Type} `{SubPlanLaws P E} `{ExecutorLaws E} `{ExecutorLaws L} `{ExecutorLaws R}.

(** A plan that differs from [plan] at most in the values of its parameters. *)
Definition injected (names : list (list byte)) (plan p : P) : Prop :=
  p = plan \/ exists ps, ps.*1 = names /\ p = inject_correlated_values plan ps.

Lemma injected_inject plan p ps :
  injected ps.*1 plan p -> inject_correlated_values p ps = inject_correlated_values plan ps.
Proof. intros [->|(qs & E1 & ->)]; [done|]. by apply inject_twice. Qed.

Context (kind : RelatedKind) (conds : list JoinCondition) (proj : list Z) (params : list CorrelatedParam).
Context (plan : P) (li ri : ColumnIndices).
Context (lefts : list Row) (rk : Row -> Row) (pv : Row -> Params) (right_rows : Params -> list Row).
Context (Extract : forall l, l ∈ lefts -> extract_param_values (strict_of kind) li params l = Ok (pv l) /\ normal_params (pv l)).
Context (Plan : forall l, l ∈ lefts -> plan_yields (inject_correlated_values plan (pv l)) (right_rows (pv l))).
Context (Rights : forall l r, l ∈ lefts -> r ∈ right_rows (pv l) ->
  related_values ri (right_column <$> conds) r = Ok (rk r) /\ normal_row (rk r)).

Definition related_inv (h : RelatedHidden (P:=P) (R:=R)) : Prop :=
  cache_inv (fun ps rows => rows = right_rows ps) (hidden_cache h)
  /\ exists p, hidden_plan h = Some p /\ injected (param_name <$> params) plan p.

Lemma rebuild_right_ok l1 h row :
  related_inv h -> row ∈ lefts ->
  exists k h' t, rebuild_right k (related_state kind conds proj params li ri (l1 : L) h) row unlimited
      = Some (Ok (related_state kind conds proj params li ri l1 h'), unlimited)
    /\ related_inv h' /\ hidden_table h' = Some t /\ table_inv rk t (right_rows (pv row)).
Proof.
  intros (Ci & p & Hp & Ip) Hr. destruct (Extract row Hr) as [Ex Np].
  pose proof (extract_param_names _ _ _ _ _ Ex) as Names.
  set (st := related_state kind conds proj params li ri l1 h).
  destruct (add_rights_ok conds ri rk st (right_rows (pv row)) empty_table 0 [] eq_refl eq_refl)
    as (t & res & I & Fo & _ & Col); [intros r; by apply Rights|apply empty_table_inv|].
  unfold rebuild_right. cbn [related_kind related_left_indices correlated_params correlated_rows_cache right_plan st related_state].
  fold (strict_of kind). rewrite Ex.
  destruct (map_get (hidden_cache h) (pv row)) as [rows|] eqn:G.
  - pose proof (cache_hit _ _ _ _ Ci Np G) as ->.
    exists 0%nat, (mk_hidden (hidden_plan h) (Some t) (hidden_cache h) res (hidden_right h)), t.
    rewrite (q_bind_ret _ _ _ (pv row) unlimited eq_refl), G.
    rewrite (q_bind_ret (q_release _) _ unlimited tt unlimited eq_refl), (q_bind_ret _ _ _ _ _ Fo).
    split_and!; [done| |done|done]. split; [done|]. by exists p.
  - destruct (Plan row Hr) as (n1 & e & rs & Cr & Ye & Rs).
    specialize (Col []). rewrite <- Rs in Col.
    apply (drain_ok _ e rs) in Col as (n2 & e' & D & _); [|apply add_collect_tame|done].
    exists (Nat.max n1 n2), (mk_hidden (Some (inject_correlated_values plan (pv row))) (Some t)
      (map_insert (hidden_cache h) (pv row) (right_rows (pv row))) res (hidden_right h)), t.
    rewrite (q_bind_ret _ _ _ (pv row) unlimited eq_refl), G, Hp, (injected_inject plan p (pv row)) by by rewrite Names.
    rewrite (q_bind_ret _ _ _ _ _ (create_mono n1 (Nat.max n1 n2) _ ltac:(lia) _ _ Cr)).
    rewrite (q_bind_ret (q_release _) _ unlimited tt unlimited eq_refl).
    assert (D' : drain (Nat.max n1 n2) (add_collect st) e ((empty_table, 0), []) unlimited
      = Some (Ok (((t, res), [] ++ rows_of rs), e'), unlimited)).
    { eapply drain_mono; [|intros ??; reflexivity|exact D]. lia. }
    rewrite (q_bind_ret _ _ _ _ _ D'). cbn [app]. rewrite Rs.
    rewrite (q_bind_ret (q_charge _) _ unlimited tt unlimited eq_refl).
    split_and!; [done| |done|done]. split; [by apply cache_insert|]. eexists. split; [done|].
    right. exists (pv row). by rewrite Names.
Qed.
End correlated_streams.

Lemma related_correlated_yields `{Lowercase} `{ProbingLaws} {P E L R : Type} `{SubPlanLaws P E} `{ExecutorLaws E}
    `{ExecutorLaws L} `{ExecutorLaws R} kind conds proj params (plan : P) li ri (l : L) (r : R) ls o x y out
    (pv : Row -> Params) (right_rows : Params -> list Row)
    (Correlated : params <> []) (Yl : yields l ls o)
    (Extract : forall row, row ∈ rows_of ls ->
      extract_param_values (strict_of kind) li params row = Ok (pv row) /\ normal_params (pv row))
    (Plan : forall row, row ∈ rows_of ls -> plan_yields (inject_correlated_values plan (pv row)) (right_rows (pv row)))
    (Fits : one_column_fits conds proj li ri (rows_of ls) (fun r => exists row, row ∈ rows_of ls /\ r ∈ right_rows (pv row)) x y out) :
  yields (related_new kind l r conds proj params (Some plan) li ri)
    (ResRow <$> (out <$> filter (fun row => subquery_holds kind conds x y (right_rows (pv row)) row = true) (rows_of ls))) o.
Proof.
  destruct Fits as [Len Fits].
  rewrite (list_filter_iff _ (fun row =>
    related_keep kind conds (column_key conds x) (column_key conds y) (right_rows (pv row)) row = true))
    by (intros row; by rewrite related_keep_sql).
  set (h := mk_hidden (Some plan) (Some empty_table) [] 0 r).
  apply (loop_skip related_body related_loop related_body_mono 0 _ (related_state kind conds proj params li ri l h)).
  { unfold related_body. cbn [related_phase related_new correlated_params]. by destruct params. }
  apply (related_scan_yields kind conds proj params li ri (rows_of ls) _ _ (column_key conds y) out (fun row => right_rows (pv row)) Fits
    (related_inv params plan right_rows)); [|done| |done].
  - intros l1 g row I Hr.
    destruct (rebuild_right_ok kind conds proj params plan li ri (rows_of ls) (column_key conds y) pv right_rows
      Extract Plan ltac:(intros l' r' Hl Hr'; apply (related_right_fits _ _ _ _ _ _ _ _ _ Fits); by exists l')
      l1 g row I Hr) as (k & g' & t & Re & I' & Ht & It).
    exists k, g', t. split_and!; try done. unfold refresh_right. cbn [correlated_params related_state related_kind right_plan].
    destruct params; [done|]. destruct I as (_ & p & -> & _). destruct kind; exact Re.
  - split; [constructor|]. exists plan. split; [done|by left].
Qed.

(** C9: The same for a correlated subquery: each outer row is judged by the rows
    its own parameters give the subquery, although the executor keeps the rows of
    parameters it has met and overwrites the parameters of the plan it shares. *)
Theorem correlated_subquery_exact `{Lowercase} `{ProbingLaws} {P E L R : Type} `{SubPlanLaws P E} `{ExecutorLaws E}
    `{ExecutorLaws L} `{ExecutorLaws R} kind conds proj params (plan : P) li ri (l : L) (r : R) ls o x y out
    (pv : Row -> Params) (right_rows : Params -> list Row)
    (Correlated : params <> []) (Yl : yields l ls o)
    (Extract : forall row, row ∈ rows_of ls ->
      extract_param_values (strict_of kind) li params row = Ok (pv row) /\ normal_params (pv row))
    (Plan : forall row, row ∈ rows_of ls -> plan_yields (inject_correlated_values plan (pv row)) (right_rows (pv row)))
    (Fits : one_column_fits conds proj li ri (rows_of ls) (fun r => exists row, row ∈ rows_of ls /\ r ∈ right_rows (pv row)) x y out) :
  yields (related_new kind l r conds proj params (Some plan) li ri)
    (ResRow <$> (out <$> filter (fun row => subquery_holds kind conds x y (right_rows (pv row)) row = true) (rows_of ls))) o.
Proof. by apply related_correlated_yields. Qed.

(** ** Scalar subqueries *)

(** The value of a subquery that must have at most one row. *)
Definition scalar_of (rows : list Row) : exec QueryError Value :=
  match rows with
  | [] => Ok VNull
  | [row] => Ok (match row with v :: _ => v | [] => VNull end)
  | _ => Err SubqueryReturnsMultipleRow
  end.

(** The rows of the subquery for each outer row: always the same, or those of the
    plan with the parameters of the row. *)
Definition subquery_rows `{Lowercase} {P E} `{SubPlan P E} `{Executor E} (indices : ColumnIndices)
    (params : list CorrelatedParam) (plan : P) (outer : list Row) (sub_rows : Row -> list Row) : Prop :=
  match params with
  | [] => exists rows, plan_yields plan rows /\ forall row, row ∈ outer -> sub_rows row = rows
  | _ => exists (pv : Row -> Params) right_rows, forall row, row ∈ outer ->
      extract_param_values false indices params row = Ok (pv row) /\ normal_params (pv row)
      /\ plan_yields (inject_correlated_values plan (pv row)) (right_rows (pv row))
      /\ sub_rows row = right_rows (pv row)
  end.

Section scalar_streams.
Context {rt : Runtime} `{Lowercase} `{ProbingLaws} {P E : Type} `{SubPlanLaws P E} `{ExecutorLaws E}.

Lemma eval_subquery_ok (p : P) rows :
  plan_yields p rows ->
  exists n, match scalar_of rows with
  | Ok v => eval_subquery n p unlimited = Some (Ok (v, rows), unlimited)
  | Err e => exists b, eval_subquery n p unlimited = Some (Err e, b)
  | Panic => False
  end.
Proof.
  intros (n1 & e & rs & Cr & Y & <-). unfold eval_subquery.
  assert (Go : forall acc, accumulate scalar_row (rows_of rs) no_scalar = Some (Ok acc) -> exists n e',
    create_executor_from_plan n p unlimited = Some (Ok e, unlimited)
    /\ drain n scalar_row e no_scalar unlimited = Some (Ok (acc, e'), unlimited)).
  { intros acc A. apply (drain_ok _ e rs) in A as (n2 & e' & D & _); [|apply scalar_row_tame|done].
    exists (Nat.max n1 n2), e'. split; [by apply (create_mono n1); [lia|]|].
    eapply drain_mono; [|intros ??; reflexivity|exact D]. lia. }
  destruct (rows_of rs) as [|row [|row2 rows]] eqn:Rs; cbn [scalar_of].
  - destruct (Go no_scalar eq_refl) as (n & e' & Cn & D). exists n. by rewrite (q_bind_ret _ _ _ _ _ Cn), (q_bind_ret _ _ _ _ _ D).
  - destruct (Go (mk_scalar 1 (match row with v :: _ => Some v | [] => None end) [row])) as (n & e' & Cn & D).
    { by destruct row. }
    exists n. rewrite (q_bind_ret _ _ _ _ _ Cn), (q_bind_ret _ _ _ _ _ D). by destruct row.
  - destruct (drain_fails scalar_row e rs (Ok tt) no_scalar (Err SubqueryReturnsMultipleRow)) as (n2 & b & D);
      [apply scalar_row_tame|done|by rewrite Rs|].
    exists (Nat.max n1 n2), b. rewrite (q_bind_ret _ _ _ _ _ (create_mono n1 (Nat.max n1 n2) _ ltac:(lia) _ _ Cr)).
    assert (D' : drain (Nat.max n1 n2) scalar_row e no_scalar unlimited = Some (Err SubqueryReturnsMultipleRow, b)).
    { eapply drain_mono; [|intros ??; reflexivity|exact D]. lia. }
    unfold q_bind. by rewrite D'.
Qed.
End scalar_streams.

(** *** In the SELECT list *)

Section eval_streams.
Context `{Lowercase} `{ProbingLaws} {P E Src : Type} `{SubPlanLaws P E} `{ExecutorLaws E} `{ExecutorLaws Src}.
Context (index width : Z) (params : list CorrelatedParam) (plan : P) (indices : ColumnIndices).

Record EvalHidden := mk_eval_hidden {
  eh_plan : P;
  eh_cached : option Value;
  eh_cache : list (Params * list Row)
}.
Definition eval_state (s : Src) (h : EvalHidden) : SubqueryEval P Src :=
  mk_eval s (eh_plan h) index params indices (eh_cached h) (eh_cache h) width.

Lemma eval_loop n (t : SubqueryEval P Src) : next n t = q_loop n (eval_body n) t.
Proof. done. Qed.

Definition eval_inv (sub : Params -> list Row) (rows0 : list Row) (h : EvalHidden) : Prop :=
  match params with
  | [] => eh_plan h = plan /\ forall v, eh_cached h = Some v -> scalar_of rows0 = Ok v
  | _ =>
      injected (param_name <$> params) plan (eh_plan h)
      /\ cache_inv (fun ps rows => rows = sub ps /\ is_ok (scalar_of rows) = true) (eh_cache h)
  end.

(** How [scalar_for] answers for a row whose subquery has the rows [rows]. *)
Definition answers_scalar (inv : EvalHidden -> Prop) (s : Src) (h : EvalHidden) (row : Row) (rows : list Row) : Prop :=
  exists k, match scalar_of rows with
  | Ok v => exists h', inv h' /\ scalar_for k (eval_state s h) row unlimited = Some (Ok (v, eval_state s h'), unlimited)
  | Err e => exists b, scalar_for k (eval_state s h) row unlimited = Some (Err e, b)
  | Panic => False
  end.

Lemma scalar_for_fixed s h row rows sub :
  params = [] -> plan_yields plan rows -> eval_inv sub rows h -> answers_scalar (eval_inv sub rows) s h row rows.
Proof.
  intros Pe Y I. unfold answers_scalar, scalar_for. cbn [eval_state eval_params]. unfold eval_inv in *. rewrite Pe in *.
  destruct I as [Ip Ic]. cbn [cached_result eval_state subquery_plan]. destruct (eh_cached h) as [v|] eqn:C.
  - exists 0%nat. rewrite (Ic v eq_refl). exists h. split; [split; [done|intros w; rewrite C; by intros [= ->]]|done].
  - destruct (eval_subquery_ok plan rows Y) as [n E1]. exists n. rewrite Ip. destruct (scalar_of rows) as [v|e|]; [..|done].
    + exists (mk_eval_hidden plan (Some v) (eh_cache h)). split; [split; [done|by intros w [= ->]]|].
      by rewrite (q_bind_ret _ _ _ _ _ E1).
    + destruct E1 as [b E1]. exists b. unfold q_bind. by rewrite E1.
Qed.

Lemma scalar_for_correlated s h row ps sub rows0 :
  params <> [] -> extract_param_values false indices params row = Ok ps -> normal_params ps ->
  plan_yields (inject_correlated_values plan ps) (sub ps) -> eval_inv sub rows0 h ->
  answers_scalar (eval_inv sub rows0) s h row (sub ps).
Proof.
  intros Pn Ex Np Y I. pose proof (extract_param_names _ _ _ _ _ Ex) as Names.
  assert (St : forall k, scalar_for k (eval_state s h) row unlimited
    = match map_get (eh_cache h) ps with
      | Some rows => Some (Ok (match rows with (v :: _) :: _ => v | _ => VNull end, eval_state s h), unlimited)
      | None =>
          (let! (v, collected) := eval_subquery k (inject_correlated_values (eh_plan h) ps) in
           let! _ := q_charge (param_key_bytes ps + rows_bytes collected) in
           q_ret (v, eval_state s (mk_eval_hidden (inject_correlated_values (eh_plan h) ps) (eh_cached h)
             (map_insert (eh_cache h) ps collected)))) unlimited
      end).
  { intros k. unfold scalar_for. cbn [eval_state eval_params outer_column_indices correlated_cache subquery_plan].
    rewrite Ex. destruct params; [done|]. unfold q_bind at 1, q_lift. by destruct (map_get (eh_cache h) ps). }
  unfold answers_scalar. unfold eval_inv in *. destruct params as [|c cs]; [done|].
  destruct I as (Ip & Ic).
  destruct (map_get (eh_cache h) ps) as [rows|] eqn:G.
  - destruct (cache_hit _ _ _ _ Ic Np G) as [-> Ok1]. exists 0%nat.
    destruct (sub ps) as [|row1 [|row2 rows]]; try done; exists h; (split; [done|]); rewrite St; [done|by destruct row1].
  - destruct (eval_subquery_ok _ _ Y) as [n E1]. exists n.
    rewrite (injected_inject plan (eh_plan h) ps) in St by by rewrite Names.
    destruct (scalar_of (sub ps)) as [v|e|] eqn:Sc; [..|done].
    + exists (mk_eval_hidden (inject_correlated_values plan ps) (eh_cached h) (map_insert (eh_cache h) ps (sub ps))).
      split.
      * split; [right; exists ps; by rewrite Names|]. apply cache_insert; [done..| |done]. by rewrite Sc.
      * by rewrite St, (q_bind_ret _ _ _ _ _ E1).
    + destruct E1 as [b E1]. exists b. rewrite St. unfold q_bind. by rewrite E1.
Qed.
End eval_streams.

(** The row with the value of its subquery, or the error. *)
Definition with_scalar (width index : Z) (sub_rows : Row -> list Row) (row : Row) : exec QueryError (option Row) :=
  let? v := scalar_of (sub_rows row) in Ok (Some (insert_scalar width index row v)).

Section eval_scan.
Context `{Lowercase} `{ProbingLaws} {P E Src : Type} `{SubPlanLaws P E} `{ExecutorLaws E} `{ExecutorLaws Src}.
Context (index width : Z) (params : list CorrelatedParam) (plan : P) (indices : ColumnIndices).

Lemma eval_scan_yields (inv : EvalHidden -> Prop) (s : Src) rs o h sub_rows :
  (forall s h row, inv h -> row ∈ rows_of rs ->
    answers_scalar index width params indices inv (s : Src) h row (sub_rows row)) ->
  yields s rs o -> inv h ->
  yields (eval_state index width params indices s h)
    (ResRow <$> fst (row_stream (with_scalar width index sub_rows) (rows_of rs) o))
    (snd (row_stream (with_scalar width index sub_rows) (rows_of rs) o)).
Proof.
  intros Ans Y I.
  apply (hidden_yields (eval_state index width params indices) inv (fun row => row ∈ rows_of rs) _ eval_body);
    [apply eval_loop|apply eval_body_mono|..|done|done|done].
  - intros n t t1 g E1. eapply (loop_end eval_body eval_loop eval_body_mono n). unfold eval_body. cbn [eval_state eval_input].
    rewrite (q_bind_ret _ _ _ _ _ E1). reflexivity.
  - intros n t g r b o' E1 F. exists n, b. unfold eval_body, q_bind. cbn [eval_state eval_input].
    rewrite E1. by destruct r; cbn in F; simplify_eq.
  - intros n t r t1 g E1 N. unfold eval_body. cbn [eval_state eval_input].
    rewrite (q_bind_ret _ _ _ _ _ E1). destruct r as [| |row]; [done..|by destruct (N row)].
  - intros n t row t1 g E1 Ig Hr. destruct (Ans t1 g row Ig Hr) as [k A]. exists (Nat.max n k). unfold with_scalar.
    assert (B : eval_body (Nat.max n k) (eval_state index width params indices t g) unlimited
      = (let! (v, st) := scalar_for (Nat.max n k) (eval_state index width params indices t1 g) row in
         q_ret (inr (Some (ResRow (insert_scalar (output_width st) (result_column_index st) row v)), st))) unlimited).
    { unfold eval_body. cbn [eval_state eval_input].
      by rewrite (q_bind_ret _ _ _ _ _ (next_mono n (Nat.max n k) t ltac:(lia) _ _ E1)). }
    assert (M : forall x, scalar_for k (eval_state index width params indices t1 g) row unlimited = Some x ->
      scalar_for (Nat.max n k) (eval_state index width params indices t1 g) row unlimited = Some x).
    { apply scalar_for_mono. lia. }
    destruct (scalar_of (sub_rows row)) as [v|e|]; cbn [exec_bind]; [..|done].
    + destruct A as (g' & Ig' & A). exists g'. split; [done|]. by rewrite B, (q_bind_ret _ _ _ _ _ (M _ A)).
    + destruct A as (b & A). exists b. rewrite B. unfold q_bind. by rewrite (M _ A).
Qed.
End eval_scan.

Lemma eval_yields `{Lowercase} `{ProbingLaws} {P E Src : Type} `{SubPlanLaws P E} `{ExecutorLaws E}
    `{ExecutorLaws Src} index width params (plan : P) indices (s : Src) rs o sub_rows
    (Y : yields s rs o) (Sub : subquery_rows indices params plan (rows_of rs) sub_rows) :
  yields (eval_new s plan index params indices width)
    (ResRow <$> fst (row_stream (with_scalar width index sub_rows) (rows_of rs) o))
    (snd (row_stream (with_scalar width index sub_rows) (rows_of rs) o)).
Proof.
  change (eval_new s plan index params indices width)
    with (eval_state index width params indices s (mk_eval_hidden plan None [])).
  unfold subquery_rows in Sub. destruct params as [|c cs] eqn:Ep.
  - destruct Sub as (rows & Yp & Same).
    apply (eval_scan_yields index width [] indices (eval_inv [] plan (fun _ => []) rows)); [|done|by split].
    intros t g row Ig Hr. rewrite (Same row Hr). by apply (scalar_for_fixed index width [] plan).
  - destruct Sub as (pv & right_rows & Sub). rewrite <- Ep in *.
    apply (eval_scan_yields index width params indices (eval_inv params plan right_rows [])); [|done|].
    + intros t g row Ig Hr. destruct (Sub row Hr) as (Ex & Np & Yp & ->).
      apply (scalar_for_correlated index width params plan); try done. by rewrite Ep.
    + unfold eval_inv. rewrite Ep. split; [by left|constructor].
Qed.

(** C19: A scalar subquery of the SELECT list, correlated or not: each outer row
    gets the value of the only row its subquery has, NULL if there is none, at
    its place in the output; the first outer row whose subquery has two rows ends
    the statement with the error.  Values kept for parameters met before change
    nothing. *)
Theorem scalar_subquery_exact `{Lowercase} `{ProbingLaws} {P E Src : Type} `{SubPlanLaws P E} `{ExecutorLaws E}
    `{ExecutorLaws Src} index width params (plan : P) indices (s : Src) rs o sub_rows
    (Y : yields s rs o) (Sub : subquery_rows indices params plan (rows_of rs) sub_rows) :
  yields (eval_new s plan index params indices width)
    (ResRow <$> fst (row_stream (with_scalar width index sub_rows) (rows_of rs) o))
    (snd (row_stream (with_scalar width index sub_rows) (rows_of rs) o)).
Proof. by apply eval_yields. Qed.

(** *** In WHERE *)

(** The values of the subqueries for a row, with the names of their
    placeholders. *)
Fixpoint scalars (subs : list (list byte * (Row -> list Row))) (row : Row) : exec QueryError Params :=
  match subs with
  | [] => Ok []
  | (name, sub) :: subs =>
      let? v := scalar_of (sub row) in
      let? ps := scalars subs row in Ok ((name, v) :: ps)
  end.

(** The row through WHERE, with those values in its predicate. *)
Definition where_row (rt : Runtime) (p : Pred) (proj : list Z) (subs : list (list byte * (Row -> list Row))) (row : Row)
    : exec QueryError (option Row) :=
  let? ps := scalars subs row in filter_row rt (inject_parameters ps p) proj row.

Definition binding_new {P} (name : list byte) (plan : P) (params : list CorrelatedParam) : ScalarBinding P :=
  mk_binding name plan params None [].

Section where_streams.
Context {rt : Runtime} `{Lowercase} `{ProbingLaws} {P E Src : Type} `{SubPlanLaws P E} `{ExecutorLaws E} `{ExecutorLaws Src}.
Context (indices : ColumnIndices) (outer : list Row).

(** A binding whose subquery has the rows [sub], whatever it has kept. *)
Definition binding_ok (sub : Row -> list Row) (b : ScalarBinding P) : Prop :=
  match binding_correlated b with
  | [] => exists rows, plan_yields (binding_plan b) rows /\ (forall row, row ∈ outer -> sub row = rows)
      /\ forall v, scalar b = Some v -> scalar_of rows = Ok v
  | params => exists plan (pv : Row -> Params) right_rows,
      injected (param_name <$> params) plan (binding_plan b)
      /\ cache_inv (fun ps v => scalar_of (right_rows ps) = Ok v) (correlated b)
      /\ forall row, row ∈ outer ->
        extract_param_values false indices params row = Ok (pv row) /\ normal_params (pv row)
        /\ plan_yields (inject_correlated_values plan (pv row)) (right_rows (pv row))
        /\ sub row = right_rows (pv row)
  end.

Lemma binding_new_ok name plan params sub : subquery_rows indices params plan outer sub -> binding_ok sub (binding_new name plan params).
Proof.
  unfold subquery_rows, binding_ok. cbn [binding_correlated binding_new]. destruct params as [|c cs].
  - intros (rows & Y & Same). exists rows. by split_and!.
  - intros (pv & right_rows & Sub). exists plan, pv, right_rows. split_and!; [by left|constructor|done].
Qed.

Definition answers_binding (sub : Row -> list Row) (b : ScalarBinding P) (row : Row) : Prop :=
  exists k, match scalar_of (sub row) with
  | Ok v => exists b', binding_ok sub b' /\ binding_param b' = binding_param b
      /\ eval_binding k indices b row unlimited = Some (Ok (v, b'), unlimited)
  | Err e => exists bud, eval_binding k indices b row unlimited = Some (Err e, bud)
  | Panic => False
  end.

Lemma eval_binding_fixed sub b row :
  binding_correlated b = [] -> binding_ok sub b -> row ∈ outer -> answers_binding sub b row.
Proof.
  intros C I Hr. unfold answers_binding, eval_binding. unfold binding_ok in I. rewrite C in *.
  destruct I as (rows & Y & Same & Ic). rewrite (Same row Hr). destruct (scalar b) as [v|] eqn:Sb.
  - exists 0%nat. rewrite (Ic v eq_refl). exists b. split_and!; try done. unfold binding_ok. rewrite C.
    exists rows. split_and!; [done..|]. intros w. rewrite Sb. apply Ic.
  - destruct (eval_subquery_ok (binding_plan b) rows Y) as [n E1]. exists n. destruct (scalar_of rows) as [v|e|] eqn:Sc; [..|done].
    + exists (binding_set b (binding_plan b) (Some v) (correlated b)). split_and!; [|done|].
      * unfold binding_ok. cbn [binding_set binding_correlated binding_plan scalar]. rewrite C. exists rows.
        split_and!; [done..|]. by intros w [= <-].
      * by rewrite (q_bind_ret _ _ _ _ _ E1).
    + destruct E1 as [bud E1]. exists bud. unfold q_bind. by rewrite E1.
Qed.

Lemma eval_binding_correlated sub b row :
  binding_correlated b <> [] -> binding_ok sub b -> row ∈ outer -> answers_binding sub b row.
Proof.
  intros C I Hr. unfold answers_binding. unfold binding_ok in I. destruct (binding_correlated b) as [|c cs] eqn:Bc; [done|].
  rewrite <- Bc in *. destruct I as (plan & pv & right_rows & Ip & Ic & Sub).
  destruct (Sub row Hr) as (Ex & Np & Y & Er). rewrite Er. pose proof (extract_param_names _ _ _ _ _ Ex) as Names.
  assert (St : forall k, eval_binding k indices b row unlimited
    = match map_get (correlated b) (pv row) with
      | Some v => Some (Ok (v, b), unlimited)
      | None =>
          (let! (v, _) := eval_subquery k (inject_correlated_values (binding_plan b) (pv row)) in
           let! _ := q_charge (param_key_bytes (pv row) + value_bytes v) in
           q_ret (v, binding_set b (inject_correlated_values (binding_plan b) (pv row)) (scalar b)
             (map_insert (correlated b) (pv row) v))) unlimited
      end).
  { intros k. unfold eval_binding. rewrite Ex, Bc. unfold q_bind at 1, q_lift. by destruct (map_get (correlated b) (pv row)). }
  destruct (map_get (correlated b) (pv row)) as [v|] eqn:G.
  - pose proof (cache_hit _ _ _ _ Ic Np G) as Hv. cbn in Hv. exists 0%nat. rewrite Hv. exists b.
    split_and!; [|done|apply St]. unfold binding_ok. rewrite Bc, <- Bc. by exists plan, pv, right_rows.
  - rewrite (injected_inject plan (binding_plan b) (pv row)) in St by by rewrite Names.
    destruct (eval_subquery_ok _ _ Y) as [n E1]. exists n. destruct (scalar_of (right_rows (pv row))) as [v|e|] eqn:Sc; [..|done].
    + eexists. split_and!; [| |by rewrite St, (q_bind_ret _ _ _ _ _ E1)]; [|done].
      unfold binding_ok. cbn [binding_set binding_correlated binding_plan scalar correlated]. rewrite Bc, <- Bc.
      exists plan, pv, right_rows. split_and!; [right; exists (pv row); by rewrite Names| |done].
      by apply cache_insert.
    + destruct E1 as [bud E1]. exists bud. rewrite St. unfold q_bind. by rewrite E1.
Qed.

Lemma eval_binding_ok sub b row : binding_ok sub b -> row ∈ outer -> answers_binding sub b row.
Proof.
  destruct (binding_correlated b) eqn:C; intros; [by apply eval_binding_fixed|].
  apply eval_binding_correlated; [by rewrite C|done..].
Qed.

Lemma eval_binding_mono i j (b : ScalarBinding P) row :
  (i <= j)%nat -> qle (eval_binding (E:=E) i indices b row) (eval_binding j indices b row).
Proof. intros Le. unfold eval_binding. repeat first [progress plan_mono|apply eval_subquery_mono; lia]. Qed.

Definition bindings_ok (subs : list (list byte * (Row -> list Row))) (bs : list (ScalarBinding P)) : Prop :=
  Forall2 (fun sub b => binding_ok (snd sub) b /\ binding_param b = fst sub) subs bs.

Lemma scalars_names subs row ps : scalars subs row = Ok ps -> ps.*1 = subs.*1.
Proof.
  revert ps. induction subs as [|[name sub] subs IH]; intros ps E1; cbn in E1; [by simplify_eq|].
  apply exec_bind_Ok in E1 as (v & _ & E1). apply exec_bind_Ok in E1 as (qs & Eq & E1). simplify_eq. cbn. f_equal. by apply IH.
Qed.

Lemma eval_bindings_ok subs bs p row :
  bindings_ok subs bs -> row ∈ outer ->
  exists k, match scalars subs row with
  | Ok ps => exists bs', bindings_ok subs bs'
      /\ eval_bindings k indices bs p row unlimited = Some (Ok (bs', inject_parameters ps p), unlimited)
  | Err e => exists bud, eval_bindings k indices bs p row unlimited = Some (Err e, bud)
  | Panic => False
  end.
Proof.
  intros F Hr. revert p. induction F as [|[name sub] b subs bs [Ib Nb] F IH]; intros p.
  { exists 0%nat, []. split; [constructor|]. cbn. by rewrite (proj2 inject_nil). }
  cbn [fst snd] in *. destruct (eval_binding_ok sub b row Ib Hr) as [k A]. cbn [scalars].
  destruct (scalar_of (sub row)) as [v|e|]; cbn [exec_bind]; [..|done].
  - destruct A as (b' & Ib' & Nb' & A). destruct (IH (inject_parameters [(name, v)] p)) as [m Bs]. exists (Nat.max k m).
    cbn [eval_bindings]. pose proof (eval_binding_mono k (Nat.max k m) b row ltac:(lia) _ _ A) as A'.
    rewrite (q_bind_ret _ _ _ _ _ A'), Nb', Nb.
    assert (M : qle (eval_bindings m indices bs (inject_parameters [(name, v)] p) row)
      (eval_bindings (Nat.max k m) indices bs (inject_parameters [(name, v)] p) row)) by (apply eval_bindings_mono; lia).
    destruct (scalars subs row) as [ps|e|]; cbn [exec_bind]; [..|done].
    + destruct Bs as (bs' & F' & Bs). exists (b' :: bs'). split; [constructor; [split; [done|by rewrite Nb']|done]|].
      rewrite (q_bind_ret _ _ _ _ _ (M _ _ Bs)). unfold q_ret. do 4 f_equal.
      symmetry. apply (proj2 (inject_app [(name, v)] ps)).
    + destruct Bs as [bud Bs]. exists bud. unfold q_bind. by rewrite (M _ _ Bs).
  - destruct A as [bud A]. exists k, bud. cbn [eval_bindings]. unfold q_bind. by rewrite A.
Qed.

Context (p0 : Pred) (proj : list Z) (subs : list (list byte * (Row -> list Row))).

Definition where_state (s : Src) (h : list (ScalarBinding P) * Pred) : ScalarFilter P Src :=
  mk_scalar_filter s (snd h) (fst h) indices proj.

Definition where_inv (h : list (ScalarBinding P) * Pred) : Prop :=
  bindings_ok subs (fst h) /\ (snd h = p0 \/ exists ps, ps.*1 = subs.*1 /\ snd h = inject_parameters ps p0).

Lemma sf_loop n (t : ScalarFilter P Src) : next n t = q_loop n (sf_body n) t.
Proof. done. Qed.

(** The row under the current state. *)
Lemma sf_row n s row s1 h :
  next n s unlimited = Some (Ok (Some (ResRow row), s1), unlimited) -> where_inv h -> row ∈ outer ->
  exists m, match where_row rt p0 proj subs row with
  | Ok out => exists h', where_inv h' /\ sf_body m (where_state s h) unlimited = Some (Ok (match out with
      | Some out => inr (Some (ResRow out), where_state s1 h')
      | None => inl (where_state s1 h')
      end), unlimited)
  | Err e => exists b, sf_body m (where_state s h) unlimited = Some (Err e, b)
  | Panic => exists b, sf_body m (where_state s h) unlimited = Some (Panic, b)
  end.
Proof.
  intros E1 [Ib Ip] Hr. destruct (eval_bindings_ok subs (fst h) (snd h) row Ib Hr) as [k A]. exists (Nat.max n k).
  pose proof (next_mono n (Nat.max n k) s ltac:(lia) _ _ E1) as E1'.
  pose proof (eval_bindings_mono (E:=E) k (Nat.max n k) indices (fst h) (snd h) row ltac:(lia)) as M.
  unfold sf_body. cbn [where_state sf_input sf_indices bindings sf_predicate sf_projection].
  rewrite (q_bind_ret _ _ _ _ _ E1'). unfold where_row.
  destruct (scalars subs row) as [ps|e|] eqn:Sc; cbn [exec_bind]; [..|done].
  - destruct A as (bs' & F' & A). rewrite (q_bind_ret _ _ _ _ _ (M _ _ A)).
    assert (Pq : inject_parameters ps (snd h) = inject_parameters ps p0).
    { destruct Ip as [->|(qs & Q & ->)]; [done|]. apply (proj2 (injection_overrides qs ps ltac:(by rewrite Q, (scalars_names _ _ _ Sc)))). }
    rewrite Pq. unfold filter_row, q_eval, q_lift, q_bind.
    assert (I' : where_inv (bs', inject_parameters ps p0)).
    { split; [done|]. right. exists ps. split; [by eapply scalars_names|done]. }
    destruct (evaluate_pred rt (inject_parameters ps p0) row) as [[]|e|]; cbn [exec_map_err exec_bind].
    + destruct (apply_projection proj row) as [out|e|]; cbn [exec_bind]; [by exists (bs', inject_parameters ps p0)|by eexists..].
    + by exists (bs', inject_parameters ps p0).
    + by eexists.
    + by eexists.
  - destruct A as [bud A]. exists bud. unfold q_bind. by rewrite (M _ _ A).
Qed.
End where_streams.

Lemma where_yields {rt : Runtime} `{Lowercase} `{ProbingLaws} {P E Src : Type} `{SubPlanLaws P E}
    `{ExecutorLaws E} `{ExecutorLaws Src} p proj indices (s : Src) rs o
    (bs : list (list byte * P * list CorrelatedParam)) (sub_rows : list (Row -> list Row))
    (Y : yields s rs o)
    (Sub : Forall2 (fun b sub => subquery_rows indices (snd b) (snd (fst b)) (rows_of rs) sub) bs sub_rows) :
  let f := where_row rt p proj (zip (fst <$> (fst <$> bs)) sub_rows) in
  yields (mk_scalar_filter s p ((fun '(name, plan, params) => binding_new name plan params) <$> bs) indices proj)
    (ResRow <$> fst (row_stream f (rows_of rs) o)) (snd (row_stream f (rows_of rs) o)).
Proof.
  intros f. set (subs := zip (fst <$> (fst <$> bs)) sub_rows) in *.
  assert (I : where_inv indices (rows_of rs) p subs
    ((fun '(name, plan, params) => binding_new name plan params) <$> bs, p)).
  { split; [|by left]. cbn [fst]. unfold subs. clear f. clear subs.
    induction Sub as [|[[name plan] params] sub bs sub_rows Hb Sub IH]; [constructor|].
    cbn. constructor; [|exact IH]. split; [by apply binding_new_ok|done]. }
  apply (hidden_yields (where_state indices proj) (where_inv indices (rows_of rs) p subs) (fun row => row ∈ rows_of rs) f sf_body
    sf_loop sf_body_mono) with (h := (_, p)); [..|done|exact I|done].
  - intros n t t1 g E1. eapply (loop_end sf_body sf_loop sf_body_mono n). unfold sf_body. cbn [where_state sf_input].
    rewrite (q_bind_ret _ _ _ _ _ E1). reflexivity.
  - intros n t g r b o' E1 F. exists n, b. unfold sf_body, q_bind. cbn [where_state sf_input].
    rewrite E1. by destruct r; cbn in F; simplify_eq.
  - intros n t r t1 g E1 N. unfold sf_body. cbn [where_state sf_input].
    rewrite (q_bind_ret _ _ _ _ _ E1). destruct r as [| |row]; [done..|by destruct (N row)].
  - intros n t row t1 g E1 Ig Hr. by apply (sf_row indices (rows_of rs) p proj subs n).
Qed.

(** WHERE with scalar subqueries: a row passes exactly when the predicate is
    true of it with each subquery replaced by its value for that row; the error
    of a subquery or of the predicate ends the statement.  The values injected
    for one row leave no trace at the next. *)
Theorem scalar_where_exact {rt : Runtime} `{Lowercase} `{ProbingLaws} {P E Src : Type} `{SubPlanLaws P E}
    `{ExecutorLaws E} `{ExecutorLaws Src} p proj indices (s : Src) rs o
    (bs : list (list byte * P * list CorrelatedParam)) (sub_rows : list (Row -> list Row))
    (Y : yields s rs o)
    (Sub : Forall2 (fun b sub => subquery_rows indices (snd b) (snd (fst b)) (rows_of rs) sub) bs sub_rows) :
  let f := where_row rt p proj (zip (fst <$> (fst <$> bs)) sub_rows) in
  yields (mk_scalar_filter s p ((fun '(name, plan, params) => binding_new name plan params) <$> bs) indices proj)
    (ResRow <$> fst (row_stream f (rows_of rs) o)) (snd (row_stream f (rows_of rs) o)).
Proof. by apply where_yields. Qed.

(** A hash lookup may miss the zero of the other sign, so [-0.0] need not be
    found IN a subquery that has [0.0], although the two compare equal. *)
Theorem signed_zero_membership :
  sql_in (VFloat (2 ^ 63)) [VFloat 0] = TTrue
  /\ set_contains (H:=scan_probing) [[VFloat 0]] [VFloat (2 ^ 63)] = false.
Proof. by vm_compute. Qed.

(** *** Witnesses *)

Lemma yields_same {Src} `{Executor Src} (s : Src) rs o rs' o' : yields s rs o -> (rs, o) = (rs', o') -> yields s rs' o'.
Proof. by intros Y [= <- <-]. Qed.

(** A plan that filters rows in memory. *)
Definition MemoryPlan : Type := list Row * Pred.
#[local] Instance memory_plan {rt : Runtime} : SubPlan MemoryPlan (FilterExecutor DerivedScanExecutor) := {
  inject_correlated_values p ps := (fst p, inject_parameters ps (snd p));
  create_executor_from_plan n p := q_ret (mk_filter (mk_derived (fst p) 0) (snd p) [])
}.
#[local] Instance memory_plan_laws {rt : Runtime} : SubPlanLaws MemoryPlan (FilterExecutor DerivedScanExecutor).
Proof.
  split; cbn; [done|intros; apply tame_ret|].
  intros [rows p] ps qs E. cbn. f_equal. apply (proj2 (injection_overrides ps qs ltac:(by rewrite E))).
Qed.

#[local] Existing Instance scan_probing.
#[local] Existing Instance scan_probing_laws.
#[local] Existing Instance sample_lowercase.
#[local] Existing Instance sample_runtime.

Definition memory_rows (p : MemoryPlan) : list Row :=
  rows_of (fst (transform (filter_row sample_runtime (snd p) []) (ResRow <$> fst p) (Ok tt))).

Lemma memory_plan_yields (p : MemoryPlan) :
  snd (transform (filter_row sample_runtime (snd p) []) (ResRow <$> fst p) (Ok tt)) = Ok tt -> plan_yields p (memory_rows p).
Proof.
  intros E. eexists 0%nat, _, _. split; [reflexivity|]. split; [|reflexivity].
  pose proof (filter_yields _ (snd p) [] _ _ (derived_yields (fst p) 0)) as Y. rewrite drop_0, E in Y. exact Y.
Qed.


Definition sample_param : CorrelatedParam := mk_param [x6f] [x61] [x70].
(** [... WHERE b = o.a] over two rows. *)
Definition sample_subplan : MemoryPlan :=
  ([[VInt 1; VInt 10]; [VInt 3; VInt 30]], ComparisonPredicate (ColumnExpression [x62] 0) OpEq (ParameterExpression [x70] VNull)).
Definition sample_outer : list Row := [[VInt 1]; [VInt 2]; [VInt 1]].
Definition sample_pv (row : Row) : Params := [([x70], default VNull (row !! 0%nat))].

Lemma sample_correlated row :
  row ∈ sample_outer ->
  (forall strict, extract_param_values strict [([x61], 0)] [sample_param] row = Ok (sample_pv row)) /\ normal_params (sample_pv row)
  /\ plan_yields (inject_correlated_values sample_subplan (sample_pv row))
       (memory_rows (inject_correlated_values sample_subplan (sample_pv row))).
Proof.
  intros Hr. repeat (apply elem_of_cons in Hr as [->|Hr];
    [split; [by intros []|]; split; [by repeat constructor|by apply memory_plan_yields]|]). by apply not_elem_of_nil in Hr.
Qed.

(** [... WHERE EXISTS (SELECT ... WHERE b = o.a)] *)
Lemma correlated_subquery_exact_witness :
  yields (related_new Semi (mk_derived sample_outer 0) (mk_derived [] 0) [] [] [sample_param] (Some sample_subplan) [([x61], 0)] [])
    [ResRow [VInt 1]; ResRow [VInt 1]] (Ok tt).
Proof.
  eapply yields_eq; [apply (correlated_subquery_exact Semi [] [] [sample_param] sample_subplan [([x61], 0)] []
    (mk_derived sample_outer 0) (mk_derived [] 0) _ _ (fun _ => VNull) (fun _ => VNull) id sample_pv (fun ps => memory_rows (inject_correlated_values sample_subplan ps))
    ltac:(done) (derived_yields sample_outer 0))|by vm_compute].
  - intros row Hr. destruct (sample_correlated row Hr) as (Ex & N & _). by split; [apply Ex|].
  - intros row Hr. by destruct (sample_correlated row Hr) as (_ & _ & Y).
  - split; [cbn; lia|]. split; [intros; by repeat constructor..|done].
Defined.

(** [SELECT a, (SELECT c ... WHERE b = o.a) FROM o] *)
Lemma scalar_subquery_exact_witness :
  yields (eval_new (mk_derived sample_outer 0) (sample_subplan : MemoryPlan) 1 [sample_param] [([x61], 0)] 0)
    [ResRow [VInt 1; VInt 1]; ResRow [VInt 2; VNull]; ResRow [VInt 1; VInt 1]] (Ok tt).
Proof.
  eapply yields_same; [apply (scalar_subquery_exact 1 0 [sample_param] sample_subplan [([x61], 0)] (mk_derived sample_outer 0) _ _
    (fun row => memory_rows (inject_correlated_values sample_subplan (sample_pv row))) (derived_yields sample_outer 0))|by vm_compute].
  exists sample_pv, (fun ps => memory_rows (inject_correlated_values sample_subplan ps)).
  intros row Hr. destruct (sample_correlated row Hr) as (Ex & N & Y). by split_and!; [apply Ex|..].
Defined.

(** [... WHERE a = (SELECT ...)] with a placeholder for the subquery. *)
Lemma scalar_where_exact_witness :
  yields (mk_scalar_filter (mk_derived sample_outer 0)
      (ComparisonPredicate (ColumnExpression [x61] 0) OpEq (ParameterExpression [x71] VNull))
      [binding_new [x71] (sample_subplan : MemoryPlan) [sample_param]] [([x61], 0)] [])
    [ResRow [VInt 1]; ResRow [VInt 1]] (Ok tt).
Proof.
  eapply yields_same; [apply (scalar_where_exact (ComparisonPredicate (ColumnExpression [x61] 0) OpEq (ParameterExpression [x71] VNull))
    [] [([x61], 0)] (mk_derived sample_outer 0) _ _ [([x71], sample_subplan, [sample_param])]
    [fun row => memory_rows (inject_correlated_values sample_subplan (sample_pv row))] (derived_yields sample_outer 0))|by vm_compute].
  constructor; [|constructor]. exists sample_pv, (fun ps => memory_rows (inject_correlated_values sample_subplan ps)).
  intros row Hr. destruct (sample_correlated row Hr) as (Ex & N & Y). by split_and!; [apply Ex|..].
Defined.
