(* ===== verification/Plan.v ===== *)
(** * Query plans

    The plan nodes of SELECT statements ([src/executor/plan.rs]), the injection
    of parameters into a plan ([correlated.rs]) and the column maps that
    [src/pipeline.rs] derives from a plan: [plan_output_names],
    [extract_column_indices] and [register_join_qualified_keys].  The nodes of
    writes and of schema changes have no executor here and are left out.

    A [HashMap] of column names is a list of its entries, the latest first;
    [indices_get] finds the latest. *)

From Stdlib Require Import Strings.String ZArith Strings.Byte Lia List.
From stdpp Require Import base tactics list numbers gmap.
From S2P Require Import IndexKey.
From S2P Require Import Prelude RowKey Values Text DateTime Like Expr Budget Executor Ordering Hashing Operators Sort Joins Aggregate Subquery.
#[local] Open Scope Z_scope.

Abbreviation Name := (list byte).

(** ** Nodes *)

Record ScanNode := mk_scan_node { scan_table : Name; scan_columns : list Name; scan_projection : list Z }.

Record DataScanNode := mk_data_scan {
  ds_table : Name;
  ds_columns : list Name;
  ds_predicate : option Pred;
  ds_cap : option Z;
  ds_projection : list Z
}.

Record IndexScanNode := mk_index_scan {
  is_table : Name;
  is_key : list byte;
  is_columns : list Name;
  is_projection : list Z
}.

Record IndexScanAllNode := mk_index_scan_all {
  isa_table : Name;
  isa_key : list byte;
  isa_columns : list Name;
  isa_projection : list Z;
  isa_index : option Name
}.

Record IndexRangeScanNode := mk_range_scan {
  irs_table : Name;
  irs_index : Name;
  irs_columns : list Name;
  irs_projection : list Z;
  irs_lower : option RangeSentinel;
  irs_upper : option RangeSentinel;
  irs_omitted_scan : bool;
  irs_predicate : option Pred;
  irs_column_indexes : list Z;
  irs_generation : Z;
  irs_column_types : list ColumnType
}.

Record OutputColumn := mk_output {
  oc_table : option Name;
  oc_column : Name;
  oc_alias : Name;
  oc_index : Z
}.

Inductive PhysicalPlan :=
| Scan (node : ScanNode)
| DataScan (node : DataScanNode)
| IndexScan (node : IndexScanNode)
| IndexScanAll (node : IndexScanAllNode)
| IndexRangeScan (node : IndexRangeScanNode)
| Filter (input : PhysicalPlan) (predicate : Pred) (table_name : Name) (projection : list Z)
| SortPlan (input : PhysicalPlan) (order_by : list OrderByColumn) (table_name : Name) (columns : list Name)
    (projection : list Z) (bounded : option nat)
| Limit (input : PhysicalPlan) (limit offset : Z)
| Join (left right : PhysicalPlan) (conditions : list JoinCondition) (output_columns : list OutputColumn)
    (output_sides : list JoinSide)
| SortMergeJoinPlan (left right : PhysicalPlan) (conditions : list JoinCondition) (output_columns : list OutputColumn)
    (output_sides : list JoinSide)
| NestedLoopJoin (left right : PhysicalPlan) (predicate : Pred) (output_columns : list OutputColumn)
    (output_sides : list JoinSide) (join_type : NestedLoopJoinType)
| AggregatePlan (input : PhysicalPlan) (group_by : list Name) (group_key_exprs : list Expr)
    (aggregates : list AggregateFunc) (aggregate_arg_indices : list (option Z)) (output_columns : list Name)
    (table_name : Name) (column_indices : ColumnIndices)
| Having (input : PhysicalPlan) (predicate : Pred) (table_name : Name)
| SemiJoin (left right : PhysicalPlan) (conditions : list JoinCondition) (output_columns : list OutputColumn)
    (projection : list Z) (correlated_params : list CorrelatedParam)
| AntiJoin (left right : PhysicalPlan) (conditions : list JoinCondition) (output_columns : list OutputColumn)
    (projection : list Z) (correlated_params : list CorrelatedParam)
| SubqueryEvalPlan (input subquery : PhysicalPlan) (output_column : Name) (result_column_index : Z)
    (correlated_params : list CorrelatedParam) (output_width : Z)
| ScalarSubqueryFilter (input : PhysicalPlan) (predicate : Pred)
    (bindings : list (Name * PhysicalPlan * list CorrelatedParam)) (columns : list Name) (table_name : Name)
    (projection : list Z)
| DerivedScan (subquery : PhysicalPlan) (alias : Name) (columns : list Name) (projection : list Z)
| Projection (input : PhysicalPlan) (items : list (Expr * Name)) (columns : list Name)
| DistinctPlan (input : PhysicalPlan)
| SetOperationPlan (left right : PhysicalPlan) (op : SetOpKind) (all : bool) (columns : list Name)
| Explain (input : PhysicalPlan)
| SingleRow.

(** ** Parameters *)

Definition inject_order (ps : Params) (o : OrderByColumn) : OrderByColumn :=
  mk_order (column o) (asc o) (set_parameters ps <$> order_expr o).

(** [inject_correlated_values]: the parameters of the predicates, of the sort
    keys and of the projected items; group keys, aggregates and index scans have
    none that are reached. *)
Fixpoint inject_plan (ps : Params) (plan : PhysicalPlan) : PhysicalPlan :=
  match plan with
  | Filter input p t proj => Filter (inject_plan ps input) (inject_parameters ps p) t proj
  | Having input p t => Having (inject_plan ps input) (inject_parameters ps p) t
  | SemiJoin l r c oc proj cp => SemiJoin (inject_plan ps l) (inject_plan ps r) c oc proj cp
  | AntiJoin l r c oc proj cp => AntiJoin (inject_plan ps l) (inject_plan ps r) c oc proj cp
  | SubqueryEvalPlan input sub oc i cp w =>
      SubqueryEvalPlan (inject_plan ps input) (inject_plan ps sub) oc i cp w
  | ScalarSubqueryFilter input p bs cols t proj =>
      ScalarSubqueryFilter (inject_plan ps input) p
        (map (fun '(name, sub, cp) => (name, inject_plan ps sub, cp)) bs) cols t proj
  | DataScan node =>
      DataScan (mk_data_scan (ds_table node) (ds_columns node) (inject_parameters ps <$> ds_predicate node)
        (ds_cap node) (ds_projection node))
  | SortPlan input ob t cols proj b => SortPlan (inject_plan ps input) (inject_order ps <$> ob) t cols proj b
  | Limit input l o => Limit (inject_plan ps input) l o
  | AggregatePlan input gb ke ag ai oc t ci => AggregatePlan (inject_plan ps input) gb ke ag ai oc t ci
  | Join l r c oc os => Join (inject_plan ps l) (inject_plan ps r) c oc os
  | SortMergeJoinPlan l r c oc os => SortMergeJoinPlan (inject_plan ps l) (inject_plan ps r) c oc os
  | NestedLoopJoin l r p oc os t =>
      NestedLoopJoin (inject_plan ps l) (inject_plan ps r) (inject_parameters ps p) oc os t
  | DerivedScan sub alias cols proj => DerivedScan (inject_plan ps sub) alias cols proj
  | Projection input items cols =>
      Projection (inject_plan ps input) ((fun '(e, name) => (set_parameters ps e, name)) <$> items) cols
  | SetOperationPlan l r op all cols => SetOperationPlan (inject_plan ps l) (inject_plan ps r) op all cols
  | DistinctPlan input => DistinctPlan (inject_plan ps input)
  | Scan _ | IndexScan _ | IndexScanAll _ | IndexRangeScan _ | Explain _ | SingleRow => plan
  end.

(** ** Column maps *)

Section columns.
Context `{Lowercase}.

(** [.enumerate().map(|(idx, col)| (col.to_lowercase(), idx)).collect()] *)
Definition name_positions (names : list Name) : ColumnIndices :=
  rev (imap (fun i c => (to_lowercase c, Z.of_nat i)) names).

(** [projection.iter().map(|&i| columns[i].clone()).collect()] *)
Fixpoint pick {A} (projection : list Z) (columns : list A) : exec QueryError (list A) :=
  match projection with
  | [] => Ok []
  | i :: projection =>
      let? c := index_get columns i in
      let? cs := pick projection columns in Ok (c :: cs)
  end.

Definition projected (columns : list Name) (projection : list Z) : exec QueryError (list Name) :=
  match projection with [] => Ok columns | _ => pick projection columns end.

(** [names.insert(idx, name)] after the truncation to the output width. *)
Definition insert_column (width index : Z) (name : Name) (names : list Name) : list Name :=
  let names := if 0 <? width then take (Z.to_nat width) names else names in
  let idx := Z.to_nat (Z.min index (zlen names)) in
  take idx names ++ name :: drop idx names.

Fixpoint plan_output_names (plan : PhysicalPlan) : exec QueryError (option (list Name)) :=
  let some (m : exec QueryError (list Name)) := let? names := m in Ok (Some names) in
  match plan with
  | Scan n => some (projected (scan_columns n) (scan_projection n))
  | DataScan n => some (projected (ds_columns n) (ds_projection n))
  | DerivedScan _ _ cols proj => some (projected cols proj)
  | IndexScan n => Ok (Some (is_columns n))
  | IndexScanAll n => some (projected (isa_columns n) (isa_projection n))
  | IndexRangeScan n => some (projected (irs_columns n) (irs_projection n))
  | ScalarSubqueryFilter _ _ _ cols _ _ => Ok (Some cols)
  | SemiJoin _ _ _ oc proj _ | AntiJoin _ _ _ oc proj _ => some (projected (oc_column <$> oc) proj)
  | AggregatePlan _ _ _ _ _ oc _ _ => Ok (Some oc)
  | SortPlan _ _ _ cols proj _ => some (projected cols proj)
  | Limit input _ _ => plan_output_names input
  | SubqueryEvalPlan input _ oc i _ w =>
      let? names := plan_output_names input in
      Ok (insert_column w i oc <$> names)
  | _ => Ok None
  end.

(** [conditions.first().map(|c| c.left_column.table.clone().unwrap_or_default()).unwrap_or_default()] *)
Definition first_left_table (conditions : list JoinCondition) : Name :=
  match conditions with c :: _ => default [] (ref_table (left_column c)) | [] => [] end.

Definition outputs_map (oc : list OutputColumn) : ColumnIndices := name_positions (oc_column <$> oc).

(** The number of names of a map. *)
Definition indices_len (m : ColumnIndices) : Z := zlen (first_occurrences m.*1).

Fixpoint extract_column_indices (plan : PhysicalPlan) : exec QueryError (ColumnIndices * Name) :=
  let narrowed (columns : list Name) (projection : list Z) (table : Name) :=
    let? names := projected columns projection in Ok (name_positions names, table) in
  match plan with
  | Scan n => Ok (name_positions (scan_columns n), scan_table n)
  | DataScan n => Ok (name_positions (ds_columns n), ds_table n)
  | Join _ _ conds oc _ | SortMergeJoinPlan _ _ conds oc _ => Ok (outputs_map oc, first_left_table conds)
  | NestedLoopJoin _ _ _ oc _ _ => Ok (outputs_map oc, match oc with c :: _ => oc_alias c | [] => [] end)
  | SemiJoin _ _ conds oc _ _ | AntiJoin _ _ conds oc _ _ => Ok (outputs_map oc, first_left_table conds)
  | Filter input _ _ _ => extract_column_indices input
  | AggregatePlan _ _ _ _ _ oc t _ => Ok (name_positions oc, t)
  | SubqueryEvalPlan input _ oc i _ w =>
      let? names := plan_output_names input in
      match names with
      | Some names =>
          let? (_, table) := extract_column_indices input in
          Ok (name_positions (insert_column w i oc names), table)
      | None =>
          let? (indices, table) := extract_column_indices input in
          Ok ((to_lowercase oc, indices_len indices) :: indices, table)
      end
  | ScalarSubqueryFilter _ _ _ cols t _ => Ok (name_positions cols, t)
  | SortPlan _ _ t cols proj _ => narrowed cols proj t
  | Limit input _ _ => extract_column_indices input
  | DerivedScan _ _ cols _ => Ok (name_positions cols, [])
  | IndexScan n => Ok (name_positions (is_columns n), is_table n)
  | IndexScanAll n => narrowed (isa_columns n) (isa_projection n) (isa_table n)
  | IndexRangeScan n => narrowed (irs_columns n) (irs_projection n) (irs_table n)
  | SingleRow => Ok ([], [])
  | _ => Err UnexpectedPlan
  end.

(** The pairs of a table and a column with their positions. *)
Definition collect_output_column_pairs (columns : list OutputColumn) : list (Name * Name * Z) :=
  mjoin (imap (fun i c => match oc_table c with Some t => [(t, oc_column c, Z.of_nat i)] | None => [] end) columns).

Definition collect_join_key_pairs (plan : PhysicalPlan) : list (Name * Name * Z) :=
  let named (table : Name) (columns : list Name) := imap (fun i c => (table, c, Z.of_nat i)) columns in
  match plan with
  | Scan n => named (scan_table n) (scan_columns n)
  | DerivedScan _ alias cols _ => named alias cols
  | IndexScan n => named (is_table n) (is_columns n)
  | Join _ _ _ oc _ | SortMergeJoinPlan _ _ _ oc _ | NestedLoopJoin _ _ _ oc _ _
  | SemiJoin _ _ _ oc _ _ | AntiJoin _ _ _ oc _ _ => collect_output_column_pairs oc
  | _ => []
  end.

(** The keys met once so far, and those met more than once. *)
Definition note_pair (acc : ColumnIndices * list Name) (pair : Name * Name * Z) : ColumnIndices * list Name :=
  let '(candidates, ambiguous) := acc in
  let '(table, column, pos) := pair in
  let key := to_lowercase table ++ [x2e] ++ to_lowercase column in
  if bool_decide (key ∈ candidates.*1) then (filter (fun e => fst e <> key) candidates, key :: ambiguous)
  else ((key, pos) :: candidates, ambiguous).

Definition or_insert (m : ColumnIndices) (entry : Name * Z) : ColumnIndices :=
  match indices_get m (fst entry) with Some _ => m | None => entry :: m end.

Definition register_join_qualified_keys (m : ColumnIndices) (plan : PhysicalPlan) : ColumnIndices :=
  let '(candidates, ambiguous) := fold_left note_pair (collect_join_key_pairs plan) ([], []) in
  fold_left or_insert (filter (fun e => fst e ∉ ambiguous) candidates) m.
End columns.

(** ** Qualified join keys *)

Section qualified.
Context `{Lowercase}.

Definition qualified (pr : Name * Name * Z) : Name :=
  to_lowercase (fst (fst pr)) ++ [x2e] ++ to_lowercase (snd (fst pr)).

(** The position of the only pair with the key. *)
Definition only_position (k : Name) (pairs : list (Name * Name * Z)) : option Z :=
  match filter (fun pr => qualified pr = k) pairs with [pr] => Some (snd pr) | _ => None end.

Lemma indices_get_cons m k i k' : indices_get ((k, i) :: m) k' = if decide (k = k') then Some i else indices_get m k'.
Proof. unfold indices_get. cbn. case_bool_decide; destruct (decide (k = k')); done. Qed.

Lemma indices_get_None m k : indices_get m k = None <-> k ∉ m.*1.
Proof.
  induction m as [|[k' i] m IH]; [split; [intros _; apply not_elem_of_nil|done]|].
  rewrite indices_get_cons, fmap_cons, not_elem_of_cons. destruct (decide (k' = k)) as [->|N]; cbn; naive_solver.
Qed.

Lemma indices_get_filter (P : Name -> Prop) `{!forall x, Decision (P x)} m k :
  indices_get (filter (fun e => P (fst e)) m) k = if decide (P k) then indices_get m k else None.
Proof.
  induction m as [|[k' i] m IH]; [by destruct (decide _)|]. rewrite filter_cons, indices_get_cons. cbn [fst].
  destruct (decide (P k')) as [Y|N]; rewrite ?indices_get_cons, IH;
    destruct (decide (k' = k)) as [->|]; destruct (decide (P k)); done.
Qed.

(** What is known of a key after some pairs. *)
Definition noted (k : Name) (pairs : list (Name * Name * Z)) (acc : ColumnIndices * list Name) : Prop :=
  match filter (fun pr => qualified pr = k) pairs with
  | [] => indices_get (fst acc) k = None /\ k ∉ snd acc
  | [pr] => indices_get (fst acc) k = Some (snd pr) /\ k ∉ snd acc
  | _ => k ∈ snd acc
  end.

Lemma note_pair_noted k pairs acc pr : noted k pairs acc -> noted k (pairs ++ [pr]) (note_pair acc pr).
Proof.
  destruct acc as [cs am], pr as [[t c] pos]. unfold noted, note_pair. rewrite filter_app. cbn [fst snd].
  set (q := qualified (t, c, pos)). change (to_lowercase t ++ [x2e] ++ to_lowercase c) with q.
  rewrite filter_cons, filter_nil. fold q. intros I. cbn [fst snd] in I.
  destruct (decide (q = k)) as [<-|N]; rewrite ?app_nil_r.
  - case_bool_decide as B.
    + destruct (filter _ pairs) as [|p1 [|p2 ps]]; cbn [app fst snd].
      * destruct I as [I _]. by apply indices_get_None in I.
      * by left.
      * by right.
    + destruct (filter _ pairs) as [|p1 [|p2 ps]]; cbn [app fst snd].
      * rewrite indices_get_cons, decide_True by done. by destruct I.
      * destruct I as [I _]. by rewrite (proj2 (indices_get_None cs _) B) in I.
      * done.
  - assert (N' : k <> q) by congruence.
    pose proof (indices_get_filter (fun x => x <> q) cs k) as Fq. cbn beta in Fq. rewrite decide_True in Fq by done.
    case_bool_decide as B; cbn [fst snd]; destruct (filter _ pairs) as [|p1 [|p2 ps]];
      rewrite ?Fq, ?indices_get_cons, ?(decide_False (P:=q = k)) by done;
      try done; try (by right); destruct I as [I1 I2]; (split; [done|set_solver]).
Qed.

Lemma note_pairs_noted k pairs : noted k pairs (fold_left note_pair pairs ([], [])).
Proof.
  induction pairs as [|pr pairs IH] using rev_ind; [split; [done|apply not_elem_of_nil]|].
  rewrite fold_left_app. by apply note_pair_noted.
Qed.

Lemma or_insert_get entries m k :
  indices_get (fold_left or_insert entries m) k =
    match indices_get m k with Some i => Some i | None => indices_get entries k end.
Proof.
  revert m. induction entries as [|[k' i] entries IH]; intros m; cbn [fold_left]; [by destruct (indices_get m k)|].
  rewrite IH, indices_get_cons. unfold or_insert. cbn [fst].
  destruct (indices_get m k') as [j|] eqn:E; rewrite ?indices_get_cons; destruct (decide (k' = k)) as [<-|]; rewrite ?E; done.
Qed.
End qualified.

(** Qualified keys of a join input: a name already in the column map keeps
    its position; otherwise [table.column] is a key exactly when one column of
    the input has that name, and it leads to that column.  Names that two columns
    share, as in a self-join, are not registered. *)
Theorem join_keys_exact `{Lowercase} m plan k :
  indices_get (register_join_qualified_keys m plan) k =
    match indices_get m k with Some i => Some i | None => only_position k (collect_join_key_pairs plan) end.
Proof.
  unfold register_join_qualified_keys, only_position.
  pose proof (note_pairs_noted k (collect_join_key_pairs plan)) as I. unfold noted in I.
  destruct (fold_left note_pair _ _) as [cs am]. cbn [fst snd] in I.
  pose proof (indices_get_filter (fun x => x ∉ am) cs k) as Fa. cbn beta in Fa. rewrite or_insert_get, Fa.
  destruct (indices_get m k); [done|]. destruct (filter _ _) as [|p1 [|p2 ps]];
    destruct (decide (k ∉ am)); naive_solver.
Qed.
