(* ===== verification/PlanFormat.v ===== *)
(** * EXPLAIN

    [src/executor/plan_format.rs] and [explain.rs]: a plan as text, one line per
    node, the root first and the depth as indentation.  The [Debug] text of
    predicates is left open ([DebugText]).  The lines determine the shape of the
    plan: reading the indentation back gives the tree of the node texts. *)

From Stdlib Require Import Strings.String ZArith Strings.Byte Lia List.
From stdpp Require Import base tactics list numbers gmap.
From S2P Require Import Prelude RowKey Values Text DateTime Like Expr Budget Executor Ordering Hashing Operators Sort Joins Aggregate Subquery Plan.
#[local] Open Scope string_scope.
#[local] Open Scope list_scope.
#[local] Open Scope Z_scope.

(** ** Lines *)

(** [format!("{:?}", predicate)] *)
Class DebugText := pred_debug : Pred -> list byte.

Definition text : string -> list byte := bytes_of_string.
Definition usize_text (n : Z) : list byte := int_to_string n.
Definition comma_list (l : list (list byte)) : list byte := join_parts (text ", ") l.
Definition bracketed (l : list (list byte)) : list byte := text "[" ++ comma_list l ++ text "]".

Definition columns_text (all : list Name) (projection : list Z) : exec QueryError (list byte) :=
  let? names := projected all projection in Ok (bracketed names).

Definition hex_digit (d : Z) : byte := byte_of (if d <? 10 then 48 + d else 87 + d).
Definition key_hex (key : list byte) : list byte :=
  flat_map (fun b => [hex_digit (byte_val b / 16); hex_digit (byte_val b mod 16)]) key.

Definition column_ref_text (c : ColumnRef) : list byte :=
  match ref_table c with Some table => table ++ text "." ++ ref_column c | None => ref_column c end.
Definition join_condition_text (c : JoinCondition) : list byte :=
  column_ref_text (left_column c) ++ text " = " ++ column_ref_text (right_column c).

Definition aggregate_text (func : AggregateFunc) : list byte :=
  match func with
  | CountStar => text "count(*)"
  | Count col => text "count(" ++ col ++ text ")"
  | Sum col => text "sum(" ++ col ++ text ")"
  | Avg col => text "avg(" ++ col ++ text ")"
  | Min col => text "min(" ++ col ++ text ")"
  | Max col => text "max(" ++ col ++ text ")"
  | CountDistinct col => text "count(DISTINCT " ++ col ++ text ")"
  | SumDistinct col => text "sum(DISTINCT " ++ col ++ text ")"
  | AvgDistinct col => text "avg(DISTINCT " ++ col ++ text ")"
  | GroupConcat col (Some sep) => text "group_concat(" ++ col ++ text ", sep=" ++ sep ++ text ")"
  | GroupConcat col None => text "group_concat(" ++ col ++ text ")"
  end.

Section describe.
Context `{DebugText}.

Definition param (name : string) (value : list byte) : list byte := text name ++ text "=" ++ value.
Definition node_text (head : list byte) (params : list (list byte)) : list byte :=
  head ++ text " (" ++ comma_list params ++ text ")".

Definition describe (plan : PhysicalPlan) : exec QueryError (list byte) :=
  match plan with
  | Scan n =>
      let? cols := columns_text (scan_columns n) (scan_projection n) in
      Ok (node_text (text "Scan " ++ scan_table n) [cols])
  | DataScan n =>
      let? cols := columns_text (ds_columns n) (ds_projection n) in
      Ok (node_text (text "DataScan " ++ ds_table n)
        ([param "columns" cols]
         ++ match ds_predicate n with Some p => [param "predicate" (pred_debug p)] | None => [] end
         ++ match ds_cap n with Some cap => [param "scan_cap" (usize_text cap)] | None => [] end))
  | IndexScan n =>
      Ok (node_text (text "IndexScan " ++ is_table n)
        [param "key" (key_hex (is_key n)); param "columns" (bracketed (is_columns n))])
  | IndexScanAll n =>
      let? cols := columns_text (isa_columns n) (isa_projection n) in
      Ok (node_text (text "IndexScanAll " ++ isa_table n)
        ([param "key" (key_hex (isa_key n))]
         ++ match isa_index n with Some name => [param "index" name] | None => [] end
         ++ [param "columns" cols]))
  | IndexRangeScan n =>
      let? cols := columns_text (irs_columns n) (irs_projection n) in
      Ok (node_text (text "IndexRangeScan " ++ irs_table n)
        ([param "index" (irs_index n); param "columns" cols]
         ++ (if irs_omitted_scan n then [text "omitted=scan"] else [])))
  | Filter _ p t _ => Ok (node_text (text "Filter " ++ t) [param "predicate" (pred_debug p)])
  | SortPlan _ ob _ cols proj _ =>
      let? cols := columns_text cols proj in
      Ok (node_text (text "Sort")
        [param "order_by" (bracketed ((fun o => column o ++ text (if asc o then " ASC" else " DESC")) <$> ob));
         param "columns" cols])
  | Limit _ limit offset => Ok (node_text (text "Limit") [param "limit" (usize_text limit); param "offset" (usize_text offset)])
  | Join _ _ conds _ _ => Ok (node_text (text "Join [Inner]") [param "on" (bracketed (join_condition_text <$> conds))])
  | SortMergeJoinPlan _ _ conds _ _ =>
      Ok (node_text (text "SortMergeJoin") [param "on" (bracketed (join_condition_text <$> conds))])
  | NestedLoopJoin _ _ p _ _ t =>
      Ok (node_text (text "NestedLoopJoin [" ++ text (match t with JoinInner => "Inner" | JoinLeft => "Left" | JoinFull => "Full" end) ++ text "]")
        [param "on" (pred_debug p)])
  | AggregatePlan _ gb _ ag _ _ t _ =>
      Ok (node_text (text "Aggregate " ++ t)
        [param "group_by" (bracketed gb); param "aggregates" (bracketed (aggregate_text <$> ag))])
  | Having _ p t => Ok (node_text (text "Having " ++ t) [param "predicate" (pred_debug p)])
  | SemiJoin _ _ conds _ _ cp =>
      Ok (node_text (text "SemiJoin")
        [param "on" (bracketed (join_condition_text <$> conds)); param "correlated_params" (usize_text (zlen cp))])
  | AntiJoin _ _ conds _ _ cp =>
      Ok (node_text (text "AntiJoin")
        [param "on" (bracketed (join_condition_text <$> conds)); param "correlated_params" (usize_text (zlen cp))])
  | SubqueryEvalPlan _ _ oc _ cp _ =>
      Ok (node_text (text "SubqueryEval") [param "column" oc; param "correlated_params" (usize_text (zlen cp))])
  | ScalarSubqueryFilter _ _ bs cols t _ =>
      Ok (node_text (text "ScalarSubqueryFilter " ++ t)
        [param "bindings" (usize_text (zlen bs));
         param "correlated_params" (usize_text (sum_of (fun b => zlen (snd b)) bs));
         param "columns" (bracketed cols)])
  | DerivedScan _ alias cols _ => Ok (node_text (text "DerivedScan " ++ alias) [param "columns" (bracketed cols)])
  | Projection _ items _ => Ok (node_text (text "Projection") [param "columns" (bracketed (snd <$> items))])
  | DistinctPlan _ => Ok (text "Distinct")
  | SetOperationPlan _ _ op all cols =>
      Ok (node_text (text "SetOperation [" ++ text (match op with Union => "UNION" | Intersect => "INTERSECT" | Except => "EXCEPT" end)
          ++ text (if all then " ALL" else "") ++ text "]") [param "columns" (bracketed cols)])
  | SingleRow => Ok (text "SingleRow")
  | Explain _ => Ok (text "Explain")
  end.

(** The plans below a node, in the order of their lines. *)
Definition children (plan : PhysicalPlan) : list PhysicalPlan :=
  match plan with
  | Filter input _ _ _ | SortPlan input _ _ _ _ _ | Limit input _ _ | AggregatePlan input _ _ _ _ _ _ _
  | Having input _ _ | Projection input _ _ | DistinctPlan input | DerivedScan input _ _ _ | Explain input => [input]
  | SubqueryEvalPlan input sub _ _ _ _ => [input; sub]
  | ScalarSubqueryFilter input _ bs _ _ _ => input :: map (fun b => snd (fst b)) bs
  | Join l r _ _ _ | SortMergeJoinPlan l r _ _ _ | NestedLoopJoin l r _ _ _ _
  | SemiJoin l r _ _ _ _ | AntiJoin l r _ _ _ _ | SetOperationPlan l r _ _ _ => [l; r]
  | Scan _ | DataScan _ | IndexScan _ | IndexScanAll _ | IndexRangeScan _ | SingleRow => []
  end.
End describe.

(** ** The tree *)

(** ["  ".repeat(depth)] *)
Definition indent (depth : nat) (line : list byte) : list byte := repeat x20 (2 * depth) ++ line.

Section render.
Context `{DebugText}.

(** [render_node]: the lines of the node and of the plans below it, in order. *)
Fixpoint render_node (depth : nat) (plan : PhysicalPlan) : exec QueryError (list (list byte)) :=
  let? line := describe plan in
  let one (input : PhysicalPlan) := render_node (S depth) input in
  let two (l r : PhysicalPlan) :=
    let? ls := render_node (S depth) l in
    let? rs := render_node (S depth) r in Ok (ls ++ rs) in
  let? below :=
    match plan with
    | Filter input _ _ _ | SortPlan input _ _ _ _ _ | Limit input _ _ | AggregatePlan input _ _ _ _ _ _ _
    | Having input _ _ | Projection input _ _ | DistinctPlan input => one input
    | SubqueryEvalPlan input sub _ _ _ _ => two input sub
    | ScalarSubqueryFilter input _ bs _ _ _ =>
        let? ls := render_node (S depth) input in
        let? rs := (fix go (bs : list (Name * PhysicalPlan * list CorrelatedParam)) :=
          match bs with
          | [] => Ok []
          | (_, sub, _) :: bs =>
              let? ls := render_node (S depth) sub in
              let? rs := go bs in Ok (ls ++ rs)
          end) bs in
        Ok (ls ++ rs)
    | DerivedScan sub _ _ _ => one sub
    | Explain input => one input
    | Join l r _ _ _ | SortMergeJoinPlan l r _ _ _ | NestedLoopJoin l r _ _ _ _
    | SemiJoin l r _ _ _ _ | AntiJoin l r _ _ _ _ | SetOperationPlan l r _ _ _ => two l r
    | Scan _ | DataScan _ | IndexScan _ | IndexScanAll _ | IndexRangeScan _ | SingleRow => Ok []
    end in
  Ok (indent depth line :: below).

Definition render_plan_tree (plan : PhysicalPlan) : exec QueryError (list (list byte)) :=
  let? lines := render_node 1 plan in Ok (text "EXPLAIN" :: lines).
End render.

(** [ExplainExecutor]: the lines, one row of one text each. *)
Record ExplainExecutor := mk_explain { lines : list (list byte) }.
Definition explain_new `{DebugText} (input : PhysicalPlan) : exec QueryError ExplainExecutor :=
  let? lines := render_plan_tree input in Ok (mk_explain lines).

#[global] Instance explain_executor : Executor ExplainExecutor := {
  next n s :=
    match n with
    | O => q_spent
    | S _ =>
        q_ret match lines s with
              | line :: rest => (Some (ResRow [VString line]), mk_explain rest)
              | [] => (None, s)
              end
    end;
  finished s := lines s = []
}.

#[global] Instance explain_laws : ExecutorLaws ExplainExecutor.
Proof.
  split.
  - intros [|n] [|m] s L; cbn; try lia; [by intros b r|by intros b r|reflexivity].
  - intros [|n] s; cbn; [apply tame_spent|apply tame_ret].
  - intros [|n] [[|]] b s' b' E; cbn in *; [done..|inv_q; done|inv_q].
  - intros [|n] [ls] b F L; cbn in *; [lia|]. subst. by eexists.
Qed.

Lemma explain_yields ls : yields (mk_explain ls) ((fun line => ResRow [VString line]) <$> ls) (Ok tt).
Proof.
  induction ls as [|line ls IH]; [by apply (yields_end 1 _ (mk_explain []))|].
  by apply (yields_next 1 _ _ (mk_explain ls)).
Qed.

(** ** Reading the lines back *)

Inductive Tree := Node (label : list byte) (below : list Tree).

(** The tree of the texts of a plan's nodes. *)
Inductive shows `{DebugText} : PhysicalPlan -> Tree -> Prop :=
| shows_node plan label ts :
    describe plan = Ok label -> Forall2 shows (children plan) ts -> shows plan (Node label ts).

Fixpoint split_indent (line : list byte) : nat * list byte :=
  match line with
  | x20 :: rest => let (n, label) := split_indent rest in (S n, label)
  | _ => (0%nat, line)
  end.

Fixpoint deeper (d : nat) (stack : list (nat * Tree)) : list Tree * list (nat * Tree) :=
  match stack with
  | (e, t) :: rest => if (d <? e)%nat then let (ts, rest) := deeper d rest in (t :: ts, rest) else ([], stack)
  | [] => ([], [])
  end.

(** A line takes the deeper trees after it as its own. *)
Definition add_line (line : list byte) (stack : list (nat * Tree)) : list (nat * Tree) :=
  let (d, label) := split_indent line in
  let (ts, rest) := deeper d stack in (d, Node label ts) :: rest.

Definition read_lines (ls : list (list byte)) : list (nat * Tree) := fold_right add_line [] ls.

Definition starts_text (label : list byte) : Prop := match label with x20 :: _ => False | _ => True end.

Section reading.
Context `{DebugText}.

Lemma plan_children_ind (P : PhysicalPlan -> Prop) :
  (forall plan, Forall P (children plan) -> P plan) -> forall plan, P plan.
Proof.
  intros Step. fix IH 1. intros plan. apply Step.
  destruct plan; cbn [children]; repeat first [apply Forall_nil_2 | apply Forall_cons_2; [apply IH|]].
  induction bindings as [|[[name sub] cp] bs IHbs]; cbn; [apply Forall_nil_2|].
  apply Forall_cons_2; [apply IH|exact IHbs].
Qed.

Fixpoint render_all (depth : nat) (plans : list PhysicalPlan) : exec QueryError (list (list byte)) :=
  match plans with
  | [] => Ok []
  | plan :: plans =>
      let? ls := render_node depth plan in
      let? rs := render_all depth plans in Ok (ls ++ rs)
  end.

Lemma render_node_children depth plan :
  render_node depth plan =
    let? line := describe plan in
    let? below := render_all (S depth) (children plan) in Ok (indent depth line :: below).
Proof.
  destruct plan; cbn [render_node children render_all]; destruct (describe _) as [line| |]; cbn; try done.
  all: repeat match goal with
    | |- context [render_node ?d ?p] => destruct (render_node d p) as [?ls| |] eqn:?; cbn; try done
    end; try by rewrite ?app_nil_r.
  assert (B : forall bs,
    (fix go (bs : list (Name * PhysicalPlan * list CorrelatedParam)) : exec QueryError (list (list byte)) :=
       match bs with
       | [] => Ok []
       | (_, sub, _) :: bs => let? ls := render_node (S depth) sub in let? rs := go bs in Ok (ls ++ rs)
       end) bs = render_all (S depth) (map (fun b => snd (fst b)) bs)).
  { induction bs as [|[[name sub] cp] bs IH]; cbn; [done|]. by rewrite IH. }
  by rewrite B.
Qed.

Lemma describe_starts plan label : describe plan = Ok label -> starts_text label.
Proof.
  destruct plan; cbn [describe]; try (by intros [= <-]);
    destruct (columns_text _ _); cbn; try done; by intros [= <-].
Qed.

Lemma split_indent_indent d label : starts_text label -> split_indent (indent d label) = ((2 * d)%nat, label).
Proof.
  intros S. unfold indent. induction (2 * d)%nat as [|n IH]; cbn.
  - destruct label as [|c label]; [done|]. destruct c; try done.
  - by rewrite IH.
Qed.

Lemma deeper_skip d e (ts : list Tree) stack :
  (d < e)%nat -> match stack with (e, _) :: _ => (e <= d)%nat | [] => True end ->
  deeper d (((fun t => (e, t)) <$> ts) ++ stack) = (ts, stack).
Proof.
  intros L Top. induction ts as [|t ts IH]; cbn [fmap list_fmap app].
  - destruct stack as [|[e' t'] stack]; [done|]. cbn [deeper]. by rewrite (proj2 (Nat.ltb_ge _ _) Top).
  - cbn [deeper]. rewrite (proj2 (Nat.ltb_lt _ _) L). by setoid_rewrite IH.
Qed.

(** Every node can be read back where no deeper tree follows it. *)
Lemma render_node_reads plan : forall depth t stack,
  shows plan t -> match stack with (e, _) :: _ => (e <= 2 * depth)%nat | [] => True end ->
  exists ls, render_node depth plan = Ok ls /\ fold_right add_line stack ls = ((2 * depth)%nat, t) :: stack.
Proof.
  induction plan as [plan IH] using plan_children_ind. intros depth t stack Sh Top.
  destruct Sh as [plan label ts D Sh]. rewrite render_node_children, D. cbn.
  assert (All : forall st, match st with (e, _) :: _ => (e <= 2 * S depth)%nat | [] => True end ->
    exists ls, render_all (S depth) (children plan) = Ok ls /\
      fold_right add_line st ls = ((fun t => ((2 * S depth)%nat, t)) <$> ts) ++ st).
  { intros st Hst. clear D. induction Sh as [|p t ps ts Hp Hps IHps]; cbn [render_all]; [by exists []|].
    inversion_clear IH as [|? ? IHp IHrest]. destruct (IHps IHrest) as (rs & -> & Rs).
    destruct (IHp (S depth) t (((fun t => ((2 * S depth)%nat, t)) <$> ts) ++ st) Hp) as (ls & -> & Ls).
    { destruct ts; [exact Hst|]. cbn. lia. }
    exists (ls ++ rs). split; [done|]. by rewrite fold_right_app, Rs, Ls. }
  destruct (All stack) as (ls & -> & Ls); [destruct stack as [|[]]; [done|lia]|].
  exists (indent depth label :: ls). split; [done|]. cbn [fold_right]. rewrite Ls. unfold add_line.
  rewrite (split_indent_indent _ _ (describe_starts _ _ D)). rewrite deeper_skip; [done|lia|done].
Qed.
End reading.

(** C35: EXPLAIN shows the plan.  For a plan whose nodes have the texts of the
    tree [t], the rendering succeeds; reading the indentation of its lines back
    gives the line EXPLAIN with exactly the tree [t] below it; and the executor
    hands out these lines, one row each, without running the plan. *)
Theorem explain_roundtrip `{DebugText} plan t :
  shows plan t ->
  exists ls e, render_plan_tree plan = Ok ls /\
    read_lines ls = [(0%nat, Node (text "EXPLAIN") [t])] /\
    explain_new plan = Ok e /\ yields e ((fun line => ResRow [VString line]) <$> ls) (Ok tt).
Proof.
  intros Sh. destruct (render_node_reads plan 1 t [] Sh I) as (ls & R & F).
  exists (text "EXPLAIN" :: ls), (mk_explain (text "EXPLAIN" :: ls)).
  unfold explain_new, render_plan_tree. rewrite R. split_and!; [done| |done|apply explain_yields].
  unfold read_lines. cbn [fold_right]. rewrite F. done.
Qed.

(** [EXPLAIN SELECT DISTINCT name FROM (SELECT id, name FROM t) d UNION SELECT name FROM t LIMIT 3] *)
Definition sample_plan : PhysicalPlan :=
  let scan := DataScan (mk_data_scan (text "t") [text "id"; text "name"] None None [1]) in
  Limit (SetOperationPlan (DistinctPlan (DerivedScan scan (text "d") [text "name"] [])) scan Union false [text "name"]) 3 0.

Lemma explain_roundtrip_witness :
  let _ : DebugText := fun _ => [] in
  exists ls e, render_plan_tree sample_plan = Ok ls /\
    read_lines ls =
      [(0%nat, Node (text "EXPLAIN")
        [Node (text "Limit (limit=3, offset=0)")
          [Node (text "SetOperation [UNION] (columns=[name])")
            [Node (text "Distinct") [Node (text "DerivedScan d (columns=[name])") [Node (text "DataScan t (columns=[name])") []]];
             Node (text "DataScan t (columns=[name])") []]]])] /\
    explain_new sample_plan = Ok e /\ yields e ((fun line => ResRow [VString line]) <$> ls) (Ok tt).
Proof.
  intros D. apply (@explain_roundtrip D sample_plan).
  repeat first [apply shows_node | apply Forall2_nil_2 | apply Forall2_cons_2 | vm_compute; reflexivity | progress cbn [children sample_plan]].
Defined.
