(* ===== verification/Pipeline.v ===== *)
(** * From plans to executors

    [create_executor_from_plan] of [src/pipeline.rs] for the plans of SELECT
    statements.  [Dyn] is [Box<dyn Executor>]: the executors over boxed inputs,
    which rebuild the plans of their subqueries with the same function.  What the
    five table accesses open is the interface [Tables].

    An executor runs its inputs, and the executors of its subqueries, one level
    deeper: [dyn_executor] is the trait for trees of a bounded depth, and the
    height of a plan bounds what its executor needs. *)

From Stdlib Require Import Strings.String ZArith Strings.Byte Lia List.
From stdpp Require Import base tactics list numbers gmap.
From S2P Require Import Prelude RowKey Values Text DateTime Like Expr Budget Executor Ordering Hashing Operators Sort Joins JoinStreams Aggregate Subquery SubqueryStreams Plan PlanFormat.
#[local] Open Scope Z_scope.

(** The executors of table accesses: [Scan], [DataScan] and the index scans. *)
Class Tables (Leaf : Type) := open_table : PhysicalPlan -> qm Leaf.
Class TablesLaws (Leaf : Type) `{Tables Leaf} := open_tame : forall p : PhysicalPlan, tame (open_table p).

(** ** Boxed executors *)

Inductive Dyn (Leaf : Type) :=
| DynLeaf (x : Leaf)
| DynDerived (x : DerivedScanExecutor)
| DynSingle (x : SingleRowExecutor)
| DynExplain (x : ExplainExecutor)
| DynFilter (x : FilterExecutor (Dyn Leaf))
| DynHaving (x : HavingExecutor (Dyn Leaf))
| DynProjection (x : ProjectionExecutor (Dyn Leaf))
| DynLimit (x : LimitExecutor (Dyn Leaf))
| DynSort (x : Materialized (Sort (Dyn Leaf)))
| DynDistinct (x : Materialized (Distinct (Dyn Leaf)))
| DynSetOp (x : Materialized (SetOperation (Dyn Leaf) (Dyn Leaf)))
| DynAggregate (x : Materialized (Aggregate (Dyn Leaf)))
| DynJoin (x : JoinExecutor (Dyn Leaf) (Dyn Leaf))
| DynMerge (x : Materialized (SortMergeJoin (Dyn Leaf) (Dyn Leaf)))
| DynNested (x : NestedLoopJoinExecutor (Dyn Leaf) (Dyn Leaf))
| DynRelated (x : RelatedJoin PhysicalPlan (Dyn Leaf) (Dyn Leaf))
| DynEval (x : SubqueryEval PhysicalPlan (Dyn Leaf))
| DynWhere (x : ScalarFilter PhysicalPlan (Dyn Leaf)).
Arguments DynLeaf {Leaf}. Arguments DynDerived {Leaf}. Arguments DynSingle {Leaf}. Arguments DynExplain {Leaf}.
Arguments DynFilter {Leaf}. Arguments DynHaving {Leaf}. Arguments DynProjection {Leaf}. Arguments DynLimit {Leaf}.
Arguments DynSort {Leaf}. Arguments DynDistinct {Leaf}. Arguments DynSetOp {Leaf}. Arguments DynAggregate {Leaf}.
Arguments DynJoin {Leaf}. Arguments DynMerge {Leaf}. Arguments DynNested {Leaf}. Arguments DynRelated {Leaf}.
Arguments DynEval {Leaf}. Arguments DynWhere {Leaf}.

(** [next] of the executor in the box. *)
Definition boxed {T D} (box : T -> D) (m : qm (option ExecResult * T)) : qm (option ExecResult * D) :=
  let! (r, x) := m in q_ret (r, box x).

(** The columns of an output with their sides. *)
Definition join_output_of (columns : list OutputColumn) (sides : list JoinSide) : Output :=
  zip (oc_index <$> columns) sides.

(** A row of a derived table, in memory until the last one is. *)
Definition derived_row (acc : list Row * Z) (row : Row) : qm (list Row * Z) :=
  let (rows, charged) := acc in
  let bytes := row_bytes row in
  let! _ := q_charge bytes in q_ret (rows ++ [row], charged + bytes).

Section pipeline.
Context {rt : Runtime} `{Lowercase} `{Probing} `{Sorting} `{Iteration} `{DebugText}.
Context {Leaf : Type} `{Tables Leaf} `{Executor Leaf}.

Definition related_plan (params : list CorrelatedParam) (right : PhysicalPlan) : option PhysicalPlan :=
  match params with [] => None | _ => Some right end.

(** [create_executor_from_plan], running derived tables with [E]. *)
Fixpoint create (E : Executor (Dyn Leaf)) (n : nat) (plan : PhysicalPlan) : qm (Dyn Leaf) :=
  let related kind l r conds proj params :=
    let! (ri, _) := q_lift (extract_column_indices r) in
    let! (li, _) := q_lift (extract_column_indices l) in
    let! le := create E n l in
    let! re := create E n r in
    q_ret (DynRelated (related_new kind le re conds proj params (related_plan params r) li ri)) in
  match plan with
  | Filter input p _ proj => let! i := create E n input in q_ret (DynFilter (mk_filter i p proj))
  | Scan _ | DataScan _ | IndexScan _ | IndexScanAll _ | IndexRangeScan _ =>
      let! leaf := open_table plan in q_ret (DynLeaf leaf)
  | AggregatePlan input gb ke ag ai _ _ ci =>
      let! i := create E n input in q_ret (DynAggregate (mat_new (mk_aggregate i gb ke ag ai ci)))
  | Having input p _ => let! i := create E n input in q_ret (DynHaving (mk_having i p))
  | SortPlan input ob _ cols proj b =>
      let! i := create E n input in q_ret (DynSort (mat_new (mk_sort i ob cols proj b)))
  | Limit input lim off => let! i := create E n input in q_ret (DynLimit (limit_new i lim off))
  | Join l r conds oc os =>
      let! (li, _) := q_lift (extract_column_indices l) in
      let! (ri, _) := q_lift (extract_column_indices r) in
      let li := register_join_qualified_keys li l in
      let ri := register_join_qualified_keys ri r in
      let! le := create E n l in
      let! re := create E n r in
      q_ret (DynJoin (join_new le re conds (join_output_of oc os) li ri))
  | SortMergeJoinPlan l r conds oc os =>
      let! (li, _) := q_lift (extract_column_indices l) in
      let! (ri, _) := q_lift (extract_column_indices r) in
      let li := register_join_qualified_keys li l in
      let ri := register_join_qualified_keys ri r in
      let! le := create E n l in
      let! re := create E n r in
      q_ret (DynMerge (mat_new (mk_smj le re conds (join_output_of oc os) li ri)))
  | NestedLoopJoin l r p oc os t =>
      let! _ := q_lift (extract_column_indices l) in
      let! le := create E n l in
      let! re := create E n r in
      q_ret (DynNested (nlj_new le re p (join_output_of oc os) t))
  | SemiJoin l r conds _ proj params => related Semi l r conds proj params
  | AntiJoin l r conds _ proj params => related Anti l r conds proj params
  | SubqueryEvalPlan input sub _ i params w =>
      let! names := q_lift (plan_output_names input) in
      let! indices :=
        match names with
        | Some names => q_ret (name_positions names)
        | None => let! (indices, _) := q_lift (extract_column_indices input) in q_ret indices
        end in
      let! e := create E n input in
      q_ret (DynEval (eval_new e sub i params indices w))
  | ScalarSubqueryFilter input p bs _ _ proj =>
      let! (indices, _) := q_lift (extract_column_indices input) in
      let! e := create E n input in
      q_ret (DynWhere (mk_scalar_filter e p ((fun '(name, sub, params) => binding_new name sub params) <$> bs) indices proj))
  | DerivedScan sub _ _ proj =>
      let! e := create E n sub in
      let! ((rows, charged), _) := drain n derived_row e ([], 0) in
      let! _ := q_release charged in
      let! d := q_lift (derived_new rows proj) in
      q_ret (DynDerived d)
  | Projection input items _ => let! i := create E n input in q_ret (DynProjection (mk_projection i items.*1))
  | DistinctPlan input => let! i := create E n input in q_ret (DynDistinct (mat_new (mk_distinct i)))
  | SetOperationPlan l r op all _ =>
      let! le := create E n l in
      let! re := create E n r in
      q_ret (DynSetOp (mat_new (mk_setop le re op all)))
  | SingleRow => q_ret (DynSingle (mk_single false))
  | Explain input => let! e := q_lift (explain_new input) in q_ret (DynExplain e)
  end.

(** Plans of subqueries, built and run with [E]. *)
#[local] Instance plan_with (E : Executor (Dyn Leaf)) : SubPlan PhysicalPlan (Dyn Leaf) := {
  inject_correlated_values p ps := inject_plan ps p;
  create_executor_from_plan := create E
}.

(** The executor whose inputs and subqueries [E] runs. *)
Definition dyn_step (E : Executor (Dyn Leaf)) : Executor (Dyn Leaf) := {|
  next n s :=
    match s with
    | DynLeaf x => boxed DynLeaf (next n x)
    | DynDerived x => boxed DynDerived (next n x)
    | DynSingle x => boxed DynSingle (next n x)
    | DynExplain x => boxed DynExplain (next n x)
    | DynFilter x => boxed DynFilter (next n x)
    | DynHaving x => boxed DynHaving (next n x)
    | DynProjection x => boxed DynProjection (next n x)
    | DynLimit x => boxed DynLimit (next n x)
    | DynSort x => boxed DynSort (next n x)
    | DynDistinct x => boxed DynDistinct (next n x)
    | DynSetOp x => boxed DynSetOp (next n x)
    | DynAggregate x => boxed DynAggregate (next n x)
    | DynJoin x => boxed DynJoin (next n x)
    | DynMerge x => boxed DynMerge (next n x)
    | DynNested x => boxed DynNested (next n x)
    | DynRelated x => boxed DynRelated (next n x)
    | DynEval x => boxed DynEval (next n x)
    | DynWhere x => boxed DynWhere (next n x)
    end;
  finished s :=
    match s with
    | DynLeaf x => finished x
    | DynDerived x => finished x
    | DynSingle x => finished x
    | DynExplain x => finished x
    | DynFilter x => finished x
    | DynHaving x => finished x
    | DynProjection x => finished x
    | DynLimit x => finished x
    | DynSort x => finished x
    | DynDistinct x => finished x
    | DynSetOp x => finished x
    | DynAggregate x => finished x
    | DynJoin x => finished x
    | DynMerge x => finished x
    | DynNested x => finished x
    | DynRelated x => finished x
    | DynEval x => finished x
    | DynWhere x => finished x
    end
|}.

Fixpoint dyn_executor (depth : nat) : Executor (Dyn Leaf) :=
  match depth with
  | O => {| next _ _ := q_spent; finished _ := False |}
  | S depth => dyn_step (dyn_executor depth)
  end.

End pipeline.

(** ** Laws *)

Lemma inject_order_twice ps qs o : ps.*1 = qs.*1 -> inject_order qs (inject_order ps o) = inject_order qs o.
Proof.
  intros E. destruct o as [c a [e|]]; cbn; [|done]. unfold inject_order. cbn. do 2 f_equal.
  by apply (proj1 (injection_overrides ps qs ltac:(by rewrite E))).
Qed.

Lemma map_twice {A} (f g : A -> A) l : (forall a, a ∈ l -> g (f a) = g a) -> map g (map f l) = map g l.
Proof.
  induction l as [|a l IH]; intros E; [done|]. cbn. rewrite (E a) by by left. f_equal. apply IH.
  intros b Hb. apply E. by right.
Qed.

Lemma inject_plan_twice ps qs plan : ps.*1 = qs.*1 -> inject_plan qs (inject_plan ps plan) = inject_plan qs plan.
Proof.
  intros E. pose proof (injection_overrides ps qs ltac:(by rewrite E)) as [Ex Pr].
  induction plan as [plan IH] using plan_children_ind.
  destruct plan; cbn [children] in IH; repeat match goal with
    | H : Forall _ (_ :: _) |- _ => apply Forall_cons in H as [? H]
    end; cbn [inject_plan]; try congruence.
  - destruct node as [t c [p|] cap pr]; cbn; [|done]. by rewrite Pr.
  - f_equal; [done|]. apply map_twice. intros o _. by apply inject_order_twice.
  - f_equal; [done|]. apply map_twice. intros [[name sub] cp] Hb. cbn. do 2 f_equal.
    rewrite Forall_forall in IH. apply IH. by apply (list_elem_of_fmap_2 (fun b => snd (fst b)) bindings (name, sub, cp)).
  - f_equal; [done|]. apply map_twice. intros [e name] _. cbn. by rewrite Ex.
Qed.

(** Boxing an executor keeps its laws and its stream. *)
Section boxing.
Context {T D : Type} `{ExecutorLaws T} (box : T -> D).

Lemma boxed_mono n m (x : T) : (n <= m)%nat -> qle (boxed box (next n x)) (boxed box (next m x)).
Proof. intros L. unfold boxed. q_mono. Qed.

Lemma boxed_tame n (x : T) : tame (boxed box (next n x)).
Proof. unfold boxed. q_tame. Qed.

Lemma boxed_ends n (x : T) b s' b' :
  boxed box (next n x) b = Some (Ok (None, s'), b') -> exists x', s' = box x' /\ finished x'.
Proof.
  unfold boxed. intros E. apply q_bind_Ok in E as ([r x'] & b1 & E & R). inv_q. exists x'. split; [done|]. by eapply next_ends.
Qed.

Lemma boxed_finished n (x : T) b :
  finished x -> (0 < n)%nat -> exists x', boxed box (next n x) b = Some (Ok (None, box x'), b) /\ finished x'.
Proof.
  intros F L. destruct (next_finished n x b F L) as (x' & E & F'). exists x'. split; [|done].
  unfold boxed. by rewrite (q_bind_ret _ _ _ _ _ E).
Qed.

Lemma boxed_yields (ED : Executor D) (x : T) rs o :
  (forall n x, next n (box x) = boxed box (next n x)) -> yields x rs o -> yields (box x) rs o.
Proof.
  intros N. induction 1 as [n s s' E|n s e b E|n s b E|n s r s' rs o E Y IH].
  - eapply (yields_end n). rewrite N. unfold boxed. by rewrite (q_bind_ret _ _ _ _ _ E).
  - eapply (yields_error n). rewrite N. unfold boxed, q_bind. by rewrite E.
  - eapply (yields_panic n). rewrite N. unfold boxed, q_bind. by rewrite E.
  - eapply (yields_next n); [|exact IH]. rewrite N. unfold boxed. by rewrite (q_bind_ret _ _ _ _ _ E).
Qed.
End boxing.

Lemma derived_row_tame acc row : tame (derived_row acc row).
Proof. unfold derived_row. destruct acc. q_tame. Qed.
#[export] Hint Resolve derived_row_tame open_tame : tame.

Section dyn_laws.
Context {rt : Runtime} `{Lowercase} `{Probing} `{Sorting} `{Iteration} `{DebugText}.
Context {Leaf : Type} `{TablesLaws Leaf} `{ExecutorLaws Leaf}.

Lemma create_more (E : Executor (Dyn Leaf)) `{!ExecutorLaws (Dyn Leaf)} n m plan :
  (n <= m)%nat -> qle (create E n plan) (create E m plan).
Proof.
  intros L. induction plan as [plan IH] using plan_children_ind.
  destruct plan; cbn [children] in IH; repeat match goal with
    | H : Forall _ (_ :: _) |- _ => apply Forall_cons in H as [? H]
    end; cbn [create]; repeat first [assumption | progress q_mono | apply q_bind_mono; [|intros ?]];
    try reflexivity.
Qed.

Lemma create_tame_with (E : Executor (Dyn Leaf)) `{!ExecutorLaws (Dyn Leaf)} n plan : tame (create E n plan).
Proof.
  induction plan as [plan IH] using plan_children_ind.
  destruct plan; cbn [children] in IH; repeat match goal with
    | H : Forall _ (_ :: _) |- _ => apply Forall_cons in H as [? H]
    end; cbn [create]; q_tame.
Qed.

#[local] Existing Instance plan_with.
#[local] Instance plan_with_laws (E : Executor (Dyn Leaf)) `{!ExecutorLaws (Dyn Leaf)} : SubPlanLaws PhysicalPlan (Dyn Leaf).
Proof.
  split; cbn.
  - intros n m p L. exact (create_more E n m p L).
  - intros n p. exact (create_tame_with E n p).
  - intros p ps qs Eq. by apply inject_plan_twice.
Qed.

Lemma dyn_step_laws (E : Executor (Dyn Leaf)) (LE : ExecutorLaws (Dyn Leaf)) : @ExecutorLaws (Dyn Leaf) (dyn_step E).
Proof.
  split.
  - intros n m [] L; cbn [next dyn_step]; by apply boxed_mono.
  - intros n []; cbn [next dyn_step]; apply boxed_tame.
  - intros n [] b s' b' En; cbn [next dyn_step] in En; apply boxed_ends in En as (x' & -> & F); exact F.
  - intros n [] b F L; cbn [next finished dyn_step] in *;
      match goal with |- context [boxed ?c _] => destruct (boxed_finished c n _ b F L) as (x' & N & F'); by exists (c x') end.
Qed.

#[global] Instance dyn_laws depth : @ExecutorLaws (Dyn Leaf) (dyn_executor depth).
Proof.
  induction depth as [|depth IH]; [|by apply dyn_step_laws].
  split; cbn; [by intros ????? b r|intros; apply tame_spent|done|done].
Qed.
End dyn_laws.

(** ** Depth *)

(** [E'] answers whenever [E] does, the same. *)
Definition at_least {D} (E E' : Executor D) : Prop := forall n s, qle (@next D E n s) (@next D E' n s).

Lemma drain_at_least {D A} (E E' : Executor D) n (f g : A -> Row -> qm A) s a :
  at_least E E' -> (forall a row, qle (f a row) (g a row)) -> qle (@drain D A E n f s a) (@drain D A E' n g s a).
Proof.
  intros L Hf. apply q_loop_mono; [done|]. intros [t x]. unfold drain_body.
  apply q_bind_mono; [apply L|]. intros [[[]|] t']; try done. by apply q_bind_mono.
Qed.

Ltac e_mono :=
  repeat match goal with
  | |- qle ?m ?m => reflexivity
  | L : at_least ?E ?E' |- qle (@next _ ?E _ _) (@next _ ?E' _ _) => apply L
  | |- qle (q_bind _ _) (q_bind _ _) => apply q_bind_mono; [|intros ?]
  | |- qle (q_loop _ _ _) (q_loop _ _ _) => apply q_loop_mono; [done|intros ?]
  | |- qle (drain _ _ _ _) (drain _ _ _ _) => apply drain_at_least; [assumption|intros ??]
  | |- qle (match ?x with _ => _ end) _ => destruct x
  end.

Section depth.
Context {rt : Runtime} `{Lowercase} `{Probing} `{Sorting} `{Iteration} `{DebugText}.
Context {Leaf : Type} `{TablesLaws Leaf} `{ExecutorLaws Leaf}.

Lemma create_at_least (E E' : Executor (Dyn Leaf)) n plan : at_least E E' -> qle (create E n plan) (create E' n plan).
Proof.
  intros L. induction plan as [plan IH] using plan_children_ind.
  destruct plan; cbn [children] in IH; repeat match goal with
    | H : Forall _ (_ :: _) |- _ => apply Forall_cons in H as [? H]
    end; cbn [create]; repeat first [assumption | progress e_mono].
Qed.

#[local] Existing Instance plan_with.

Lemma eval_bindings_at_least (E E' : Executor (Dyn Leaf)) n indices bs p row :
  at_least E E' ->
  qle (@eval_bindings _ _ PhysicalPlan (Dyn Leaf) (plan_with E) E n indices bs p row)
    (@eval_bindings _ _ PhysicalPlan (Dyn Leaf) (plan_with E') E' n indices bs p row).
Proof.
  intros L. pose proof (fun n p => create_at_least E E' n p L) as C. revert p.
  induction bs as [|b bs IH]; intros p; cbn [eval_bindings]; [done|].
  apply q_bind_mono; [|intros []; apply q_bind_mono; [apply IH|by intros []]].
  unfold eval_binding, eval_subquery. cbn [create_executor_from_plan inject_correlated_values plan_with].
  repeat first [apply C | progress e_mono].
Qed.

Lemma dyn_step_at_least (E E' : Executor (Dyn Leaf)) : at_least E E' -> at_least (dyn_step E) (dyn_step E').
Proof.
  intros L n s. pose proof (fun n p => create_at_least E E' n p L) as C.
  destruct s; cbn [next dyn_step]; unfold boxed; (apply q_bind_mono; [|intros ?; reflexivity]); try reflexivity;
    cbn [next filter_executor having_executor projection_executor limit_executor mat_executor join_executor nl_executor
      related_executor eval_executor sf_executor];
    unfold projection_next, mat_next, consume, sort_consumer, distinct_consumer, setop_consumer, aggregate_consumer,
      smj_consumer, collect, collect_keyed, consume_input; repeat progress e_mono;
    unfold filter_body, having_body, limit_next, limit_skip, limit_take, join_body, nl_body, related_body, eval_body, sf_body, refresh_right,
      rebuild_right, scalar_for, eval_subquery; cbn [create_executor_from_plan inject_correlated_values plan_with]; repeat first [apply C | apply eval_bindings_at_least, L | progress e_mono].
Qed.

(** More depth changes no answer. *)
Lemma dyn_at_least j k : (j <= k)%nat -> at_least (dyn_executor (Leaf:=Leaf) j) (dyn_executor k).
Proof.
  revert k. induction j as [|j IH]; intros k L; [by intros n s b r|]. destruct k as [|k]; [lia|].
  apply dyn_step_at_least, IH. lia.
Qed.

Lemma yields_deeper j k (s : Dyn Leaf) rs o :
  (j <= k)%nat -> @yields _ (dyn_executor j) s rs o -> @yields _ (dyn_executor k) s rs o.
Proof.
  intros L. pose proof (dyn_at_least j k L) as M. induction 1 as [n s s' E|n s e b E|n s b E|n s r s' rs o E Y IH].
  - eapply (@yields_end _ (dyn_executor k) n), M, E.
  - eapply (@yields_error _ (dyn_executor k) n), M, E.
  - eapply (@yields_panic _ (dyn_executor k) n), M, E.
  - eapply (@yields_next _ (dyn_executor k) n); [apply M, E|exact IH].
Qed.
End depth.
