(* ===== verification/PlanMeaning.v ===== *)
(** * What a plan computes

    [means plan Q] says what a plan stands for, node by node, in terms of lists
    of rows alone: [Q] holds of the rows and the outcome of the plan.  It is a
    set of streams, since hash tables iterate in no order and sorts are not
    stable.  The rules name what each operator needs of its input: that it ends
    without an error where the operator reads it whole, and that keys and columns
    are in range.  [plan_runs] is the refinement: the executor that
    [create_executor_from_plan] builds runs with such a stream. *)

From Stdlib Require Import Strings.String ZArith Strings.Byte Lia List Sorting.Sorted.
From stdpp Require Import base tactics list numbers gmap.
From S2P Require Import Prelude RowKey Values Text DateTime Like Expr Budget Executor Ordering Hashing Operators Sort Joins JoinStreams Aggregate Subquery SubqueryStreams Plan PlanFormat Pipeline.
#[local] Open Scope Z_scope.

(** ** Streams *)

Definition Stream : Type := list Row -> exec QueryError unit -> Prop.

Definition one (rows : list Row) (o : exec QueryError unit) : Stream := fun out o' => out = rows /\ o' = o.

(** Row by row, up to the first failure. *)
Definition through (f : Row -> exec QueryError (option Row)) (Q : Stream) : Stream := fun out o' =>
  exists rows o, Q rows o /\ row_stream f rows o = (out, o').

(** Every stream ends without an error, with rows that satisfy [P]. *)
Definition complete (Q : Stream) (P : list Row -> Prop) : Prop := forall rows o, Q rows o -> o = Ok tt /\ P rows.

(** The whole input at once. *)
Definition mapped (F : list Row -> list Row -> Prop) (Q : Stream) : Stream := fun out o' =>
  o' = Ok tt /\ exists rows, Q rows (Ok tt) /\ F rows out.
Definition mapped2 (F : list Row -> list Row -> list Row -> Prop) (Q R : Stream) : Stream := fun out o' =>
  o' = Ok tt /\ exists ls rs, Q ls (Ok tt) /\ R rs (Ok tt) /\ F ls rs out.

(** [LIMIT lim OFFSET off]: the input is not read past the last row. *)
Definition limit_of (off lim : Z) (rows : list Row) (o : exec QueryError unit) : list Row * exec QueryError unit :=
  (take (Z.to_nat lim) (drop (Z.to_nat off) rows), if (lim =? 0) || (off + lim <=? zlen rows) then Ok tt else o).
Definition limited (off lim : Z) (Q : Stream) : Stream := fun out o' =>
  exists rows o, Q rows o /\ limit_of off lim rows o = (out, o').

(** ** Operators on whole inputs *)

Section operators.
Context {rt : Runtime} `{Lowercase}.

(** Rows that ORDER BY can sort: their keys evaluate and have one type per
    column. *)
Definition sortable (ob : list OrderByColumn) (cols : list Name) (proj : list Z) (p : Row -> Row) (rows : list Row) : Prop :=
  (exists ds types, decorate_all ob rows = Ok ds /\ Forall (typed_row cols ob types) ds)
  /\ forall row, row ∈ rows -> apply_projection proj row = Ok (p row).

Definition sorted_rows (ob : list OrderByColumn) (cols : list Name) (p : Row -> Row) (bound : option nat) (rows out : list Row) : Prop :=
  exists ds, decorate_all ob rows = Ok ds /\
  match bound with
  | None => exists sorted, sorted ≡ₚ ds /\ StronglySorted (cmp_le (compare_decorated cols ob)) sorted /\ out = p <$> sorted.*2
  | Some k => exists best, out = p <$> best.*2 /\
      forall sorted, sorted ≡ₚ ds -> StronglySorted (cmp_le (compare_decorated cols ob)) sorted ->
        Forall2 (fun a b => compare_decorated cols ob a b = Eq) best (take k sorted)
  end.

(** An aggregation without its input. *)
Definition aggregation gb ke ag ai ci : Aggregate unit := mk_aggregate tt gb ke ag ai ci.

Definition groupable (c : Aggregate unit) (key : Row -> Row) (rows : list Row) : Prop :=
  zlen rows < 2 ^ 63 /\ regular_args c rows /\
  forall row, row ∈ rows -> extract_group_key (group_key_exprs c) row = Ok (key row) /\ regular_row (key row).

Definition grouped_rows (c : Aggregate unit) (key : Row -> Row) (rows out : list Row) : Prop :=
  match group_by c with
  | [] => out = [agg_row c rows]
  | _ => out ≡ₚ (fun k => k ++ agg_row c (group key rows k)) <$> first_occurrences (key <$> rows)
  end.

(** The column maps of a join. *)
Definition join_indices (plan : PhysicalPlan) (m : ColumnIndices) : Prop :=
  exists m0 t, extract_column_indices plan = Ok (m0, t) /\ m = register_join_qualified_keys m0 plan.
Definition plain_indices (plan : PhysicalPlan) (m : ColumnIndices) : Prop :=
  exists t, extract_column_indices plan = Ok (m, t).
(** The columns an outer row has for the subqueries of the SELECT list. *)
Definition outer_indices (plan : PhysicalPlan) (m : ColumnIndices) : Prop :=
  exists names, plan_output_names plan = Ok names /\
  match names with Some names => m = name_positions names | None => plain_indices plan m end.
End operators.

(** ** Plans *)

Definition is_table (plan : PhysicalPlan) : bool :=
  match plan with Scan _ | DataScan _ | IndexScan _ | IndexScanAll _ | IndexRangeScan _ => true | _ => false end.

Definition related_of (kind : RelatedKind) l r conds oc proj params : PhysicalPlan :=
  match kind with Semi => SemiJoin l r conds oc proj params | Anti => AntiJoin l r conds oc proj params end.

(** The plan of a subquery for the parameters of a row. *)
Definition plan_for (params : list CorrelatedParam) (sub : PhysicalPlan) (ps : Params) : PhysicalPlan :=
  match params with [] => sub | _ => inject_plan ps sub end.

(** The levels of executors below a plan. *)
Fixpoint height (plan : PhysicalPlan) : nat :=
  S match plan with
    | Filter input _ _ _ | SortPlan input _ _ _ _ _ | Limit input _ _ | AggregatePlan input _ _ _ _ _ _ _
    | Having input _ _ | Projection input _ _ | DistinctPlan input | DerivedScan input _ _ _ => height input
    | SubqueryEvalPlan l r _ _ _ _ | Join l r _ _ _ | SortMergeJoinPlan l r _ _ _ | NestedLoopJoin l r _ _ _ _
    | SemiJoin l r _ _ _ _ | AntiJoin l r _ _ _ _ | SetOperationPlan l r _ _ _ => Nat.max (height l) (height r)
    | ScalarSubqueryFilter input _ bs _ _ _ =>
        Nat.max (height input) (list_max (map (fun b => height (snd (fst b))) bs))
    | Scan _ | DataScan _ | IndexScan _ | IndexScanAll _ | IndexRangeScan _ | SingleRow | Explain _ => 0
    end.

Section meaning.
Context {rt : Runtime} `{Lowercase} `{Probing} `{Sorting} `{Iteration} `{DebugText}.
Context {Leaf : Type} `{Tables Leaf} `{Executor Leaf}.

Definition table_stream (plan : PhysicalPlan) (rows : list Row) (o : exec QueryError unit) : Prop :=
  exists leaf, open_table plan unlimited = Some (Ok leaf, unlimited) /\ yields leaf (ResRow <$> rows) o.

(** The executor of the plan can be built. *)
Definition opens (plan : PhysicalPlan) : Prop :=
  exists e, forall k, (height plan <= k)%nat ->
    exists n, create (Leaf:=Leaf) (dyn_executor k) n plan unlimited = Some (Ok e, unlimited).

(** The executor of the plan runs with these rows and this outcome. *)
Definition runs (plan : PhysicalPlan) (rows : list Row) (o : exec QueryError unit) : Prop :=
  exists e, forall k, (height plan <= k)%nat ->
    (exists n, create (Leaf:=Leaf) (dyn_executor k) n plan unlimited = Some (Ok e, unlimited))
    /\ @yields _ (dyn_executor k) e (ResRow <$> rows) o.

(** Every stream ends without an error. *)
Definition ends (Q : Stream) : Prop := complete Q (fun _ => True).

(** The parameters of each outer row, and the streams of the subquery for
    them. *)
Definition subquery_fits (strict : bool) (indices : ColumnIndices) (params : list CorrelatedParam) (Q : Stream)
    (pv : Row -> Params) (R : Params -> Stream) : Prop :=
  (forall rows o row, Q rows o -> row ∈ rows ->
    extract_param_values strict indices params row = Ok (pv row) /\ normal_params (pv row) /\ ends (R (pv row)))
  /\ (params = [] -> ends (R [])).

(** The rows the subquery has for the parameters met. *)
Definition answers_with (pv : Row -> Params) (R : Params -> Stream) (rows : list Row) (rights : Params -> list Row) : Prop :=
  forall row, row ∈ rows -> R (pv row) (rights (pv row)) (Ok tt).

Inductive means : PhysicalPlan -> Stream -> Prop :=
| means_table plan rows o : is_table plan = true -> table_stream plan rows o -> means plan (one rows o)
| means_single : means SingleRow (one [[]] (Ok tt))
| means_explain plan ls :
    render_plan_tree plan = Ok ls -> means (Explain plan) (one ((fun line => [VString line]) <$> ls) (Ok tt))
| means_derived plan alias cols proj Q :
    means plan Q -> complete Q (fun rows => is_ok (project_all proj rows) = true) ->
    means (DerivedScan plan alias cols proj) (mapped (fun rows out => project_all proj rows = Ok out) Q)
| means_filter input p t proj Q : means input Q -> means (Filter input p t proj) (through (filter_row rt p proj) Q)
| means_having input p t Q : means input Q -> means (Having input p t) (through (filter_row rt p []) Q)
| means_projection input items cols Q :
    means input Q -> means (Projection input items cols) (through (project_row rt items.*1) Q)
| means_limit input lim off Q :
    means input Q -> 0 <= lim -> 0 <= off -> means (Limit input lim off) (limited off lim Q)
| means_sort input ob t cols proj b p Q :
    means input Q -> complete Q (sortable ob cols proj p) ->
    means (SortPlan input ob t cols proj b) (mapped (sorted_rows ob cols p b) Q)
| means_distinct input Q :
    means input Q -> complete Q (Forall regular_row) ->
    means (DistinctPlan input) (mapped (fun rows out => out = first_occurrences rows) Q)
| means_setop l r op all cols L R :
    means l L -> means r R -> complete L (Forall regular_row) -> complete R (Forall regular_row) ->
    means (SetOperationPlan l r op all cols) (mapped2 (fun ls rs out => out = set_rows op all ls rs) L R)
| means_aggregate input gb ke ag ai oc t ci key Q :
    means input Q -> complete Q (groupable (aggregation gb ke ag ai ci) key) ->
    means (AggregatePlan input gb ke ag ai oc t ci) (mapped (grouped_rows (aggregation gb ke ag ai ci) key) Q)
| means_join l r conds oc os li ri lk rk out L R :
    means l L -> means r R -> join_indices l li -> join_indices r ri -> ends R ->
    (forall ls o rs, L ls o -> R rs (Ok tt) -> join_fits conds (join_output_of oc os) li ri ls rs lk rk out) ->
    means (Join l r conds oc os) (fun res o => exists ls rs, L ls o /\ R rs (Ok tt) /\ res = join_rows (key_match lk rk) out ls rs)
| means_merge l r conds oc os li ri lk rk out L R :
    means l L -> means r R -> join_indices l li -> join_indices r ri -> ends L -> ends R ->
    (forall ls o rs, L ls o -> R rs (Ok tt) -> join_fits conds (join_output_of oc os) li ri ls rs lk rk out) ->
    means (SortMergeJoinPlan l r conds oc os) (mapped2 (fun ls rs res => res ≡ₚ join_rows (key_match lk rk) out ls rs) L R)
| means_nested l r p oc os t hit out padl padr li L R :
    means l L -> means r R -> plain_indices l li -> ends R ->
    (forall ls o rs, L ls o -> R rs (Ok tt) -> nested_fits p (join_output_of oc os) t ls rs hit out padl padr) ->
    means (NestedLoopJoin l r p oc os t) (fun res o => exists ls rs, L ls o /\ R rs (Ok tt)
      /\ res = (x ← ls; nested_left t hit out padl rs x) ++ (if is_ok o then nested_rest t hit padr ls rs else []))
| means_related kind l r conds oc proj li ri x y out L R :
    means l L -> means r R -> plain_indices l li -> plain_indices r ri -> ends R ->
    (forall ls o rs, L ls o -> R rs (Ok tt) -> one_column_fits conds proj li ri ls (fun row => row ∈ rs) x y out) ->
    means (related_of kind l r conds oc proj []) (fun res o => exists ls rs, L ls o /\ R rs (Ok tt)
      /\ res = out <$> filter (fun row => subquery_holds kind conds x y rs row = true) ls)
| means_correlated kind l r conds oc proj params li ri pv x y out L (R : Params -> Stream) :
    params <> [] -> means l L -> opens r -> plain_indices l li -> plain_indices r ri ->
    subquery_fits (strict_of kind) li params L pv R ->
    (forall ls o row, L ls o -> row ∈ ls -> means (inject_plan (pv row) r) (R (pv row))) ->
    (forall ls o rights, L ls o -> answers_with pv R ls rights ->
      one_column_fits conds proj li ri ls (fun r => exists row, row ∈ ls /\ r ∈ rights (pv row)) x y out) ->
    means (related_of kind l r conds oc proj params) (fun res o => exists ls rights, L ls o /\ answers_with pv R ls rights
      /\ res = out <$> filter (fun row => subquery_holds kind conds x y (rights (pv row)) row = true) ls)
| means_eval input sub oc i params w indices pv Q (R : Params -> Stream) :
    means input Q -> outer_indices input indices -> subquery_fits false indices params Q pv R ->
    (params = [] -> means sub (R [])) ->
    (forall rows o row, Q rows o -> row ∈ rows -> means (plan_for params sub (pv row)) (R (pv row))) ->
    means (SubqueryEvalPlan input sub oc i params w) (fun out o' => exists rows o rights, Q rows o
      /\ answers_with pv R rows rights
      /\ row_stream (with_scalar w i (fun row => rights (pv row))) rows o = (out, o'))
| means_where input p bs cols t proj indices (pv : nat -> Row -> Params) Q (R : nat -> Params -> Stream) :
    means input Q -> plain_indices input indices ->
    (forall i name sub params, bs !! i = Some (name, sub, params) -> subquery_fits false indices params Q (pv i) (R i)) ->
    (forall i name sub, bs !! i = Some (name, sub, []) -> means sub (R i [])) ->
    (forall i name sub params rows o row, bs !! i = Some (name, sub, params) -> Q rows o -> row ∈ rows ->
      means (plan_for params sub (pv i row)) (R i (pv i row))) ->
    means (ScalarSubqueryFilter input p bs cols t proj) (fun out o' => exists rows o (rights : nat -> Params -> list Row), Q rows o
      /\ (forall i b, bs !! i = Some b -> answers_with (pv i) (R i) rows (rights i))
      /\ row_stream (where_row rt p proj (imap (fun i b => (fst (fst b), fun row => rights i (pv i row))) bs)) rows o = (out, o')).
End meaning.

(** ** Running the operators *)

Lemma rows_of_ResRow rows : rows_of (ResRow <$> rows) = rows.
Proof. induction rows as [|row rows IH]; [done|]. cbn. by f_equal. Qed.

Lemma transform_row_stream f rows o :
  transform f (ResRow <$> rows) o = (ResRow <$> fst (row_stream f rows o), snd (row_stream f rows o)).
Proof.
  induction rows as [|row rows IH]; [done|]. cbn. destruct (f row) as [[out|]|e|]; try done.
  rewrite IH. by destruct (row_stream f rows o).
Qed.

Lemma limit_stream_of off lim rows o :
  0 <= off -> 0 <= lim ->
  limit_stream off lim (ResRow <$> rows) o = (ResRow <$> fst (limit_of off lim rows o), snd (limit_of off lim rows o)).
Proof.
  unfold limit_of. cbn [fst snd]. revert off lim.
  induction rows as [|row rows IH]; intros off lim Ho Hl; cbn [fmap list_fmap limit_stream];
    destruct (Z.leb_spec lim 0) as [L|L].
  1, 3: replace lim with 0 by lia; by rewrite take_0.
  - rewrite drop_nil, take_nil, (proj2 (Z.eqb_neq lim 0)) by lia. cbn [orb].
    rewrite (proj2 (Z.leb_gt _ _)) by (unfold zlen; cbn; lia). done.
  - destruct (Z.ltb_spec 0 off) as [P|P].
    + rewrite IH by lia. replace (Z.to_nat off) with (S (Z.to_nat (off - 1))) by lia. cbn [drop].
      do 2 f_equal. rewrite zlen_cons. destruct (lim =? 0); [done|]. cbn.
      destruct (Z.leb_spec (off - 1 + lim) (zlen rows)), (Z.leb_spec (off + lim) (1 + zlen rows)); done || lia.
    + replace off with 0 in * by lia. rewrite IH by lia. rewrite !drop_0.
      replace (Z.to_nat lim) with (S (Z.to_nat (lim - 1))) by lia. cbn [take fmap list_fmap].
      do 2 f_equal. rewrite zlen_cons, (proj2 (Z.eqb_neq lim 0)) by lia. cbn [orb].
      destruct (Z.eqb_spec (lim - 1) 0), (Z.leb_spec (0 + (lim - 1)) (zlen rows)), (Z.leb_spec (0 + lim) (1 + zlen rows));
        cbn; try done; try lia. unfold zlen in *. lia.
Qed.

Lemma project_all_nil rows : project_all [] rows = Ok rows.
Proof. induction rows as [|row rows IH]; [done|]. cbn. by rewrite IH. Qed.

(** One value per key, for finitely many keys. *)
Lemma list_choice {K V} `{EqDecision K} `{Inhabited V} (R : K -> V -> Prop) (keys : list K) :
  (forall k, k ∈ keys -> exists v, R k v) -> exists f, forall k, k ∈ keys -> R k (f k).
Proof.
  induction keys as [|k keys IH]; intros E; [exists (fun _ => inhabitant); intros k Hk; by apply not_elem_of_nil in Hk|].
  destruct IH as [f Hf]; [intros; apply E; by right|]. destruct (E k) as [v Hv]; [by left|].
  exists (fun j => if decide (j = k) then v else f j). intros j Hj. destruct (decide (j = k)) as [->|N]; [done|].
  apply Hf. by apply elem_of_cons in Hj as [].
Qed.

Lemma inject_plan_height ps plan : height (inject_plan ps plan) = height plan.
Proof.
  induction plan as [plan IH] using plan_children_ind.
  destruct plan; cbn [children] in IH; repeat match goal with
    | H : Forall _ (_ :: _) |- _ => apply Forall_cons in H as [? H]
    end; cbn [inject_plan height]; try congruence.
  do 2 f_equal; [done|]. f_equal. clear -IH. induction bindings as [|[[name sub] cp] bs IHb]; [done|]. cbn in *.
  apply Forall_cons in IH as [E IH]. rewrite E. f_equal. by apply IHb.
Qed.

Lemma plan_for_height params sub ps : height (plan_for params sub ps) = height sub.
Proof. destruct params; [done|]. apply inject_plan_height. Qed.

Section running.
Context {rt : Runtime} `{Lowercase} `{ProbingLaws} `{SortingLaws} `{IterationLaws} `{DebugText}.
Context {Leaf : Type} `{TablesLaws Leaf} `{ExecutorLaws Leaf}.
#[local] Abbreviation runs := (runs (Leaf:=Leaf)).

Lemma runs_opens plan rows o : runs plan rows o -> opens (Leaf:=Leaf) plan.
Proof. intros [e He]. exists e. intros k L. by apply He. Qed.

(** A node with one input: what it builds over its input, boxed. *)
Lemma runs_unary {T} `{ET : forall E : Executor (Dyn Leaf), Executor T} (box : T -> Dyn Leaf) (wrap : Dyn Leaf -> T)
    plan input rows o out o' :
  height plan = S (height input) ->
  (forall k n e, create (dyn_executor k) n input unlimited = Some (Ok e, unlimited) ->
    create (dyn_executor k) n plan unlimited = Some (Ok (box (wrap e)), unlimited)) ->
  (forall k n x, @next _ (dyn_executor (S k)) n (box x) = boxed box (@next _ (ET (dyn_executor k)) n x)) ->
  (forall k e, @yields _ (dyn_executor k) e (ResRow <$> rows) o ->
    @yields _ (ET (dyn_executor k)) (wrap e) (ResRow <$> out) o') ->
  runs input rows o -> runs plan out o'.
Proof.
  intros Hh Cr Nx Y [e He]. exists (box (wrap e)). intros [|k] L; [lia|]. split.
  - destruct (He (S k) ltac:(lia)) as [[n C] _]. exists n. by apply Cr.
  - apply (boxed_yields (H:=ET (dyn_executor k)) box (dyn_executor (S k))); [apply Nx|].
    apply Y. by apply He; lia.
Qed.

Lemma create_up k n m plan r :
  create (Leaf:=Leaf) (dyn_executor k) n plan unlimited = Some r -> (n <= m)%nat ->
  create (Leaf:=Leaf) (dyn_executor k) m plan unlimited = Some r.
Proof. intros E L. exact (create_more (dyn_executor k) n m plan L _ _ E). Qed.

(** A node with two inputs. *)
Lemma runs_binary {T} `{ET : forall E : Executor (Dyn Leaf), Executor T} (box : T -> Dyn Leaf)
    (wrap : Dyn Leaf -> Dyn Leaf -> T) plan l r ls o rs o1 out o' :
  height plan = S (Nat.max (height l) (height r)) ->
  (forall k n le re, create (dyn_executor k) n l unlimited = Some (Ok le, unlimited) ->
    create (dyn_executor k) n r unlimited = Some (Ok re, unlimited) ->
    create (dyn_executor k) n plan unlimited = Some (Ok (box (wrap le re)), unlimited)) ->
  (forall k n x, @next _ (dyn_executor (S k)) n (box x) = boxed box (@next _ (ET (dyn_executor k)) n x)) ->
  (forall k le re, @yields _ (dyn_executor k) le (ResRow <$> ls) o -> @yields _ (dyn_executor k) re (ResRow <$> rs) o1 ->
    @yields _ (ET (dyn_executor k)) (wrap le re) (ResRow <$> out) o') ->
  runs l ls o -> runs r rs o1 -> runs plan out o'.
Proof.
  intros Hh Cr Nx Y [le Hl] [re Hr]. exists (box (wrap le re)). intros [|k] L; [lia|]. split.
  - destruct (Hl (S k) ltac:(lia)) as [[n C] _], (Hr (S k) ltac:(lia)) as [[m D] _].
    exists (Nat.max n m). apply Cr; [apply (create_up _ n)|apply (create_up _ m)]; done || lia.
  - apply (boxed_yields (H:=ET (dyn_executor k)) box (dyn_executor (S k))); [apply Nx|].
    apply Y; [by apply Hl; lia|by apply Hr; lia].
Qed.

Lemma runs_filter input p t proj rows o out o' :
  runs input rows o -> row_stream (filter_row rt p proj) rows o = (out, o') -> runs (Filter input p t proj) out o'.
Proof.
  intros R E. revert R. apply (runs_unary DynFilter (fun e => mk_filter e p proj)); [done| |done|].
  - intros k n e C. cbn [create]. by rewrite (q_bind_ret _ _ _ _ _ C).
  - intros k e Y. apply (filter_yields _ p proj) in Y. by rewrite transform_row_stream, E in Y.
Qed.

Lemma runs_having input p t rows o out o' :
  runs input rows o -> row_stream (filter_row rt p []) rows o = (out, o') -> runs (Having input p t) out o'.
Proof.
  intros R E. revert R. apply (runs_unary DynHaving (fun e => mk_having e p)); [done| |done|].
  - intros k n e C. cbn [create]. by rewrite (q_bind_ret _ _ _ _ _ C).
  - intros k e Y. apply (having_yields _ p) in Y. by rewrite transform_row_stream, E in Y.
Qed.

Lemma runs_projection input items cols rows o out o' :
  runs input rows o -> row_stream (project_row rt items.*1) rows o = (out, o') -> runs (Projection input items cols) out o'.
Proof.
  intros R E. revert R. apply (runs_unary DynProjection (fun e => mk_projection e items.*1)); [done| |done|].
  - intros k n e C. cbn [create]. by rewrite (q_bind_ret _ _ _ _ _ C).
  - intros k e Y. apply (projection_yields _ items.*1) in Y. by rewrite transform_row_stream, E in Y.
Qed.

Lemma runs_limit input lim off rows o out o' :
  0 <= lim -> 0 <= off -> runs input rows o -> limit_of off lim rows o = (out, o') -> runs (Limit input lim off) out o'.
Proof.
  intros Hl Ho R E. revert R. apply (runs_unary DynLimit (fun e => limit_new e lim off)); [done| |done|].
  - intros k n e C. cbn [create]. by rewrite (q_bind_ret _ _ _ _ _ C).
  - intros k e Y. destruct (Z.eq_dec lim 0) as [->|N].
    + unfold limit_of in E. cbn in E. simplify_eq. apply limit_zero_yields.
    + apply (limit_yields _ lim off 0 0) in Y; [|lia..]. by rewrite !Z.sub_0_r, limit_stream_of, E in Y.
Qed.

Lemma runs_distinct input rows :
  runs input rows (Ok tt) -> Forall regular_row rows -> runs (DistinctPlan input) (first_occurrences rows) (Ok tt).
Proof.
  intros R F. revert R. apply (runs_unary DynDistinct (fun e => mat_new (mk_distinct e))); [done| |done|].
  - intros k n e C. cbn [create]. by rewrite (q_bind_ret _ _ _ _ _ C).
  - intros k e Y. apply distinct_yields in Y; by rewrite rows_of_ResRow in *.
Qed.

Lemma runs_setop l r op all cols ls rs :
  runs l ls (Ok tt) -> runs r rs (Ok tt) -> Forall regular_row ls -> Forall regular_row rs ->
  runs (SetOperationPlan l r op all cols) (set_rows op all ls rs) (Ok tt).
Proof.
  intros Rl Rr Fl Fr. revert Rl Rr. apply (runs_binary DynSetOp (fun le re => mat_new (mk_setop le re op all))); [done| |done|].
  - intros k n le re C D. cbn [create]. by rewrite (q_bind_ret _ _ _ _ _ C), (q_bind_ret _ _ _ _ _ D).
  - intros k le re Yl Yr. pose proof (setop_yields le re _ _ op all Yl Yr) as Y. rewrite !rows_of_ResRow in Y. by apply Y.
Qed.

(** The depth a plan needs is enough. *)
Lemma runs_at plan n e rows o :
  create (Leaf:=Leaf) (dyn_executor (height plan)) n plan unlimited = Some (Ok e, unlimited) ->
  @yields _ (dyn_executor (height plan)) e (ResRow <$> rows) o -> runs plan rows o.
Proof.
  intros C Y. exists e. intros k L. split; [|by apply (yields_deeper (height plan))].
  exists n. by apply (create_at_least _ _ _ _ (dyn_at_least _ _ L)).
Qed.

Lemma runs_sort input ob t cols proj b p rows :
  runs input rows (Ok tt) -> sortable ob cols proj p rows ->
  exists out, sorted_rows ob cols p b rows out /\ runs (SortPlan input ob t cols proj b) out (Ok tt).
Proof.
  intros [e He] [(ds & types & Hd & Ht) Hp].
  destruct (He (S (height input)) ltac:(lia)) as [[n C] _], (He (height input) ltac:(lia)) as [_ Y].
  assert (Run : forall out, @yields _ (@mat_executor _ (@sort_consumer _ _ _ _ (dyn_executor (height input))))
      (mat_new (mk_sort e ob cols proj b)) (ResRow <$> out) (Ok tt) -> runs (SortPlan input ob t cols proj b) out (Ok tt)).
  { intros out Yo. apply (runs_at _ n (DynSort (mat_new (mk_sort e ob cols proj b)))).
    - cbn [create]. by rewrite (q_bind_ret _ _ _ _ _ C).
    - by refine (@boxed_yields _ _ _ DynSort (dyn_executor (S (height input))) _ _ _ _ Yo). }
  pose proof (fun T => sort_all_yields e _ ob cols proj types ds p Y T Ht) as All.
  pose proof (fun T => sort_bounded_yields e _ ob cols proj types ds p Y T Ht) as Bound.
  rewrite rows_of_ResRow in All, Bound. destruct b as [k|].
  - destruct (Bound Hd Hp k) as (best & Yb & B). exists (p <$> best.*2). split; [|by apply Run].
    exists ds. split; [done|]. by exists best.
  - destruct (All Hd Hp) as (sorted & P & S & Ys). exists (p <$> sorted.*2). split; [|by apply Run].
    exists ds. split; [done|]. by exists sorted.
Qed.

Lemma runs_aggregate input gb ke ag ai oc t ci key rows :
  runs input rows (Ok tt) -> groupable (aggregation gb ke ag ai ci) key rows ->
  exists out, grouped_rows (aggregation gb ke ag ai ci) key rows out
    /\ runs (AggregatePlan input gb ke ag ai oc t ci) out (Ok tt).
Proof.
  intros [e He] (Bd & Rg & Ks).
  destruct (He (S (height input)) ltac:(lia)) as [[n C] _], (He (height input) ltac:(lia)) as [_ Y].
  pose proof (aggregate_yields (mk_aggregate e gb ke ag ai ci) _ key Y) as A. rewrite rows_of_ResRow in A.
  destruct (A Bd Rg Ks) as (out & Yo & G). exists out. split; [exact G|].
  apply (runs_at _ n (DynAggregate (mat_new (mk_aggregate e gb ke ag ai ci)))).
  - cbn [create]. by rewrite (q_bind_ret _ _ _ _ _ C).
  - by refine (@boxed_yields _ _ _ DynAggregate (dyn_executor (S (height input))) _ _ _ _ Yo).
Qed.

Lemma runs_join l r conds oc os li ri lk rk out ls o rs :
  runs l ls o -> runs r rs (Ok tt) -> join_indices l li -> join_indices r ri ->
  join_fits conds (join_output_of oc os) li ri ls rs lk rk out ->
  runs (Join l r conds oc os) (join_rows (key_match lk rk) out ls rs) o.
Proof.
  intros Rl Rr (m1 & t1 & E1 & ->) (m2 & t2 & E2 & ->) Fits. revert Rl Rr.
  apply (runs_binary DynJoin (fun le re => join_new le re conds (join_output_of oc os)
    (register_join_qualified_keys m1 l) (register_join_qualified_keys m2 r))); [done| |done|].
  - intros k n le re C D. cbn [create]. rewrite E1, E2. cbn [q_lift].
    by rewrite !(q_bind_ret (q_lift (Ok _)) _ unlimited _ unlimited eq_refl), (q_bind_ret _ _ _ _ _ C), (q_bind_ret _ _ _ _ _ D).
  - intros k le re Yl Yr. pose proof (fun F => hash_join_yields le re _ _ o conds (join_output_of oc os)
      (register_join_qualified_keys m1 l) (register_join_qualified_keys m2 r) lk rk out F Yl Yr) as Y.
    rewrite !rows_of_ResRow in Y. by apply Y.
Qed.

Lemma runs_nested l r p oc os t hit out padl padr li ls o rs :
  runs l ls o -> runs r rs (Ok tt) -> plain_indices l li ->
  nested_fits p (join_output_of oc os) t ls rs hit out padl padr ->
  runs (NestedLoopJoin l r p oc os t)
    ((x ← ls; nested_left t hit out padl rs x) ++ (if is_ok o then nested_rest t hit padr ls rs else [])) o.
Proof.
  intros Rl Rr (t1 & E1) Fits. revert Rl Rr.
  apply (runs_binary DynNested (fun le re => nlj_new le re p (join_output_of oc os) t)); [done| |done|].
  - intros k n le re C D. cbn [create]. rewrite E1.
    by rewrite (q_bind_ret (q_lift (Ok _)) _ unlimited _ unlimited eq_refl), (q_bind_ret _ _ _ _ _ C), (q_bind_ret _ _ _ _ _ D).
  - intros k le re Yl Yr.
    pose proof (fun F => nested_loop_yields le re _ _ o p (join_output_of oc os) t hit out padl padr F Yl Yr) as Y.
    rewrite !rows_of_ResRow in Y. rewrite fmap_app. eapply yields_eq; [by apply Y|]. f_equal. by destruct (is_ok o).
Qed.

Lemma runs_merge l r conds oc os li ri lk rk out ls rs :
  runs l ls (Ok tt) -> runs r rs (Ok tt) -> join_indices l li -> join_indices r ri ->
  join_fits conds (join_output_of oc os) li ri ls rs lk rk out ->
  exists res, res ≡ₚ join_rows (key_match lk rk) out ls rs /\ runs (SortMergeJoinPlan l r conds oc os) res (Ok tt).
Proof.
  intros [le Hl] [re Hr] (m1 & t1 & E1 & ->) (m2 & t2 & E2 & ->) Fits. set (h := Nat.max (height l) (height r)).
  destruct (Hl (S h) ltac:(lia)) as [[n C] _], (Hr (S h) ltac:(lia)) as [[m D] _].
  destruct (Hl h ltac:(lia)) as [_ Yl], (Hr h ltac:(lia)) as [_ Yr].
  pose proof (fun F => sort_merge_yields le re _ _ conds (join_output_of oc os)
    (register_join_qualified_keys m1 l) (register_join_qualified_keys m2 r) lk rk out F Yl Yr) as Y.
  rewrite !rows_of_ResRow in Y. destruct (Y Fits) as (res & Ys & P). exists res. split; [done|].
  apply (runs_at _ (Nat.max n m) (DynMerge (mat_new (mk_smj le re conds (join_output_of oc os)
    (register_join_qualified_keys m1 l) (register_join_qualified_keys m2 r))))).
  - cbn [create]. rewrite E1, E2, !(q_bind_ret (q_lift (Ok _)) _ unlimited _ unlimited eq_refl).
    rewrite (q_bind_ret _ _ _ _ _ (create_up _ _ (Nat.max n m) _ _ C ltac:(lia))).
    by rewrite (q_bind_ret _ _ _ _ _ (create_up _ _ (Nat.max n m) _ _ D ltac:(lia))).
  - by refine (@boxed_yields _ _ _ DynMerge (dyn_executor (S h)) _ _ _ _ Ys).
Qed.

(** A plan without inputs. *)
Lemma runs_leaf {T} `{ET : Executor T} (box : T -> Dyn Leaf) plan x rows o :
  (forall k, create (dyn_executor (S k)) 0 plan unlimited = Some (Ok (box x), unlimited)) ->
  (forall k n x, @next _ (dyn_executor (S k)) n (box x) = boxed box (next n x)) ->
  (0 < height plan)%nat -> yields x (ResRow <$> rows) o -> runs plan rows o.
Proof.
  intros C N Hh Y. exists (box x). intros [|k] L; [lia|]. split; [by exists 0%nat|].
  apply (boxed_yields box (dyn_executor (S k))); [apply N|done].
Qed.

Lemma derived_rows_ok rows done c :
  exists c', accumulate derived_row rows (done, c) = Some (Ok (done ++ rows, c')).
Proof.
  revert done c. induction rows as [|row rows IH]; intros done c; cbn [accumulate].
  - exists c. by rewrite app_nil_r.
  - cbn. destruct (IH (done ++ [row]) (c + row_bytes row)) as [c' E]. exists c'. by rewrite E, <- app_assoc.
Qed.

Lemma runs_derived sub alias cols proj rows out :
  runs sub rows (Ok tt) -> project_all proj rows = Ok out -> runs (DerivedScan sub alias cols proj) out (Ok tt).
Proof.
  intros [e He] P. destruct (He (S (height sub)) ltac:(lia)) as [[n C] Y].
  destruct (derived_rows_ok rows [] 0) as [c A].
  assert (D : exists m e', @drain _ _ (dyn_executor (S (height sub))) m derived_row e ([], 0) unlimited
    = Some (Ok ((rows, c), e'), unlimited)).
  { destruct (@drain_ok _ (dyn_executor (S (height sub))) _ _ derived_row e (ResRow <$> rows) ([], 0) (rows, c)) as (m & e' & D & _);
      [apply derived_row_tame|exact Y|by rewrite rows_of_ResRow|by exists m, e']. }
  destruct D as (m & e' & D). apply (runs_at _ (Nat.max n m) (DynDerived (mk_derived out 0))).
  - cbn [create height]. rewrite (q_bind_ret _ _ _ _ _ (create_up _ _ (Nat.max n m) _ _ C ltac:(lia))).
    rewrite (q_bind_ret _ _ _ _ _ (@drain_mono _ (dyn_executor (S (height sub))) _ _ m (Nat.max n m) derived_row derived_row e ([], 0) ltac:(lia) (fun _ _ b r E => E) _ _ D)).
    rewrite (q_bind_ret (q_release c) _ unlimited tt unlimited eq_refl).
    unfold derived_new. destruct proj as [|i proj]; [rewrite project_all_nil in P; by simplify_eq|by rewrite P].
  - pose proof (derived_yields out 0) as Yd. rewrite drop_0 in Yd.
    by apply (boxed_yields DynDerived (dyn_executor (S (height sub)))).
Qed.

Lemma runs_table plan rows o : is_table plan = true -> table_stream (Leaf:=Leaf) plan rows o -> runs plan rows o.
Proof.
  intros T (leaf & Op & Y). apply (runs_leaf DynLeaf plan leaf); [|done|destruct plan; cbn [height]; lia|done].
  intros k. destruct plan; try done; cbn [create]; by rewrite (q_bind_ret _ _ _ _ _ Op).
Qed.

(** *** Subqueries *)

#[local] Existing Instance plan_with.
#[local] Existing Instance plan_with_laws.

(** The executors with subqueries, one level above the executor that runs
    them. *)
Section steps.
Context (E : Executor (Dyn Leaf)) `{!ExecutorLaws (Dyn Leaf)}.

Lemma step_related kind le re conds proj li ri ls o rs x y out :
  yields le (ResRow <$> ls) o -> yields re (ResRow <$> rs) (Ok tt) ->
  one_column_fits conds proj li ri ls (fun row => row ∈ rs) x y out ->
  @yields _ (dyn_step E) (DynRelated (related_new kind le re conds proj [] None li ri))
    (ResRow <$> (out <$> filter (fun row => subquery_holds kind conds x y rs row = true) ls)) o.
Proof.
  intros Yl Yr F. apply (boxed_yields DynRelated (dyn_step E)); [done|].
  pose proof (related_fixed_yields kind conds proj None li ri le re _ _ o x y out Yl Yr) as Y.
  rewrite !rows_of_ResRow in Y. by apply Y.
Qed.

Lemma step_correlated kind le re conds proj params plan li ri ls o x y out pv rights :
  params <> [] -> yields le (ResRow <$> ls) o ->
  (forall row, row ∈ ls -> extract_param_values (strict_of kind) li params row = Ok (pv row) /\ normal_params (pv row)) ->
  (forall row, row ∈ ls -> plan_yields (inject_plan (pv row) plan) (rights (pv row))) ->
  one_column_fits conds proj li ri ls (fun r => exists row, row ∈ ls /\ r ∈ rights (pv row)) x y out ->
  @yields _ (dyn_step E) (DynRelated (related_new kind le re conds proj params (Some plan) li ri))
    (ResRow <$> (out <$> filter (fun row => subquery_holds kind conds x y (rights (pv row)) row = true) ls)) o.
Proof.
  intros Np Yl Ex Pl F. apply (boxed_yields DynRelated (dyn_step E)); [done|].
  pose proof (related_correlated_yields kind conds proj params plan li ri le re _ o x y out pv rights Np Yl) as Y.
  rewrite !rows_of_ResRow in Y. by apply Y.
Qed.

Lemma step_eval e sub i params w indices rows o out o' sub_rows :
  yields e (ResRow <$> rows) o -> subquery_rows indices params sub rows sub_rows ->
  row_stream (with_scalar w i sub_rows) rows o = (out, o') ->
  @yields _ (dyn_step E) (DynEval (eval_new e sub i params indices w)) (ResRow <$> out) o'.
Proof.
  intros Ye Sb R. apply (boxed_yields DynEval (dyn_step E)); [done|].
  pose proof (eval_yields i w params sub indices e _ o sub_rows Ye) as Y.
  rewrite !rows_of_ResRow, R in Y. by apply Y.
Qed.

Lemma step_where e p bs proj indices rows o out o' sub_rows :
  yields e (ResRow <$> rows) o ->
  Forall2 (fun b sub => subquery_rows indices (snd b) (snd (fst b)) rows sub) bs sub_rows ->
  row_stream (where_row rt p proj (zip (fst <$> (fst <$> bs)) sub_rows)) rows o = (out, o') ->
  @yields _ (dyn_step E)
    (DynWhere (mk_scalar_filter e p ((fun '(name, sub, params) => binding_new name sub params) <$> bs) indices proj))
    (ResRow <$> out) o'.
Proof.
  intros Ye Sb R. apply (boxed_yields DynWhere (dyn_step E)); [done|].
  pose proof (where_yields p proj indices e _ o bs sub_rows Ye) as Y.
  cbn zeta in Y. rewrite !rows_of_ResRow, R in Y. by apply Y.
Qed.
End steps.

Lemma runs_plan_yields k plan rows :
  runs plan rows (Ok tt) -> (height plan <= k)%nat ->
  @plan_yields PhysicalPlan (Dyn Leaf) (plan_with (dyn_executor k)) (dyn_executor k) plan rows.
Proof.
  intros [e He] L. destruct (He k L) as [[n C] Y]. exists n, e, (ResRow <$> rows). by rewrite rows_of_ResRow.
Qed.

Lemma runs_related kind l r conds oc proj li ri ls o rs x y out :
  runs l ls o -> runs r rs (Ok tt) -> plain_indices l li -> plain_indices r ri ->
  one_column_fits conds proj li ri ls (fun row => row ∈ rs) x y out ->
  runs (related_of kind l r conds oc proj []) (out <$> filter (fun row => subquery_holds kind conds x y rs row = true) ls) o.
Proof.
  intros [le Hl] [re Hr] (t1 & E1) (t2 & E2) F.
  exists (DynRelated (related_new kind le re conds proj [] None li ri)).
  assert (Hh : height (related_of kind l r conds oc proj []) = S (Nat.max (height l) (height r))) by by destruct kind.
  intros [|k] L; [lia|]. split.
  - destruct (Hl (S k) ltac:(lia)) as [[n C] _], (Hr (S k) ltac:(lia)) as [[m D] _]. exists (Nat.max n m).
    apply (create_up _ _ (Nat.max n m)) in C, D; [|lia..].
    destruct kind; cbn [create related_of]; rewrite E1, E2, !(q_bind_ret (q_lift (Ok _)) _ unlimited _ unlimited eq_refl);
      by rewrite (q_bind_ret _ _ _ _ _ C), (q_bind_ret _ _ _ _ _ D).
  - exact (step_related (dyn_executor k) kind le re conds proj li ri ls o rs x y out
      (proj2 (Hl k ltac:(lia))) (proj2 (Hr k ltac:(lia))) F).
Qed.

Lemma runs_correlated kind l r conds oc proj params li ri ls o x y out pv rights :
  params <> [] -> runs l ls o -> opens (Leaf:=Leaf) r -> plain_indices l li -> plain_indices r ri ->
  (forall row, row ∈ ls -> extract_param_values (strict_of kind) li params row = Ok (pv row) /\ normal_params (pv row)) ->
  (forall row, row ∈ ls -> runs (inject_plan (pv row) r) (rights (pv row)) (Ok tt)) ->
  one_column_fits conds proj li ri ls (fun r => exists row, row ∈ ls /\ r ∈ rights (pv row)) x y out ->
  runs (related_of kind l r conds oc proj params)
    (out <$> filter (fun row => subquery_holds kind conds x y (rights (pv row)) row = true) ls) o.
Proof.
  intros Np [le Hl] [re Hr] (t1 & E1) (t2 & E2) Ex Pl F.
  exists (DynRelated (related_new kind le re conds proj params (Some r) li ri)).
  assert (Hh : height (related_of kind l r conds oc proj params) = S (Nat.max (height l) (height r))) by by destruct kind.
  intros [|k] L; [lia|]. split.
  - destruct (Hl (S k) ltac:(lia)) as [[n C] _], (Hr (S k) ltac:(lia)) as [m D]. exists (Nat.max n m).
    apply (create_up _ _ (Nat.max n m)) in C, D; [|lia..].
    replace (Some r) with (related_plan params r) by by destruct params.
    destruct kind; cbn [create related_of]; rewrite E1, E2, !(q_bind_ret (q_lift (Ok _)) _ unlimited _ unlimited eq_refl);
      by rewrite (q_bind_ret _ _ _ _ _ C), (q_bind_ret _ _ _ _ _ D).
  - refine (step_correlated (dyn_executor k) kind le re conds proj params r li ri ls o x y out pv rights
      Np (proj2 (Hl k ltac:(lia))) Ex _ F).
    intros row Hrow. apply runs_plan_yields; [by apply Pl|]. rewrite inject_plan_height. lia.
Qed.

(** A subquery whose plan runs for the parameters of every outer row. *)
Lemma runs_subquery_rows k indices params sub rows pv rights :
  (height sub <= k)%nat ->
  (forall row, row ∈ rows -> extract_param_values false indices params row = Ok (pv row) /\ normal_params (pv row)) ->
  (params = [] -> runs sub (rights []) (Ok tt)) ->
  (forall row, row ∈ rows -> runs (plan_for params sub (pv row)) (rights (pv row)) (Ok tt)) ->
  @subquery_rows _ PhysicalPlan (Dyn Leaf) (plan_with (dyn_executor k)) (dyn_executor k) indices params sub rows
    (fun row => rights (pv row)).
Proof.
  intros L Ex Fx Pl. unfold subquery_rows. destruct params as [|c cs].
  - exists (rights []). split; [apply runs_plan_yields; [by apply Fx|done]|].
    intros row Hr. destruct (Ex row Hr) as [E _]. cbn in E. by injection E as <-.
  - exists pv, rights. intros row Hr. destruct (Ex row Hr) as [E N]. split_and!; [done|done| |done].
    apply runs_plan_yields; [by apply Pl|]. cbn. by rewrite inject_plan_height.
Qed.

Lemma runs_eval input sub oc i params w indices rows o out o' pv rights :
  runs input rows o -> outer_indices input indices ->
  (forall row, row ∈ rows -> extract_param_values false indices params row = Ok (pv row) /\ normal_params (pv row)) ->
  (params = [] -> runs sub (rights []) (Ok tt)) ->
  (forall row, row ∈ rows -> runs (plan_for params sub (pv row)) (rights (pv row)) (Ok tt)) ->
  row_stream (with_scalar w i (fun row => rights (pv row))) rows o = (out, o') ->
  runs (SubqueryEvalPlan input sub oc i params w) out o'.
Proof.
  intros [e He] (names & En & Ei) Ex Fx Pl R. exists (DynEval (eval_new e sub i params indices w)).
  intros [|k] L; cbn [height] in L; [lia|]. split.
  - destruct (He (S k) ltac:(lia)) as [[n C] _]. exists n. cbn [create].
    rewrite En, (q_bind_ret (q_lift (Ok _)) _ unlimited _ unlimited eq_refl).
    destruct names as [names|]; [subst indices; by rewrite (q_bind_ret (q_ret _) _ unlimited _ unlimited eq_refl), (q_bind_ret _ _ _ _ _ C)|].
    destruct Ei as [t Ei]. rewrite Ei. unfold q_bind at 1. cbn. by rewrite (q_bind_ret _ _ _ _ _ C).
  - refine (step_eval (dyn_executor k) e sub i params w indices rows o out o' _ (proj2 (He k ltac:(lia))) _ R).
    apply runs_subquery_rows; done || lia.
Qed.

Lemma zip_imap {A B C} (f : A -> B) (g : nat -> A -> C) l : zip (f <$> l) (imap g l) = imap (fun i a => (f a, g i a)) l.
Proof. revert g. induction l as [|a l IH]; intros g; [done|]. cbn. f_equal. apply IH. Qed.

Lemma Forall2_imap {A B} (P : A -> B -> Prop) (g : nat -> A -> B) l :
  (forall i a, l !! i = Some a -> P a (g i a)) -> Forall2 P l (imap g l).
Proof.
  revert g. induction l as [|a l IH]; intros g E; [constructor|]. cbn. constructor; [by apply (E 0%nat)|].
  apply (IH (g ∘ S)). intros i b Hi. by apply (E (S i)).
Qed.

Lemma runs_where input p bs cols t proj indices rows o out o' (pv : nat -> Row -> Params) (rights : nat -> Params -> list Row) :
  runs input rows o -> plain_indices input indices ->
  (forall i name sub params, bs !! i = Some (name, sub, params) ->
    (forall row, row ∈ rows -> extract_param_values false indices params row = Ok (pv i row) /\ normal_params (pv i row))
    /\ (params = [] -> runs sub (rights i []) (Ok tt))
    /\ forall row, row ∈ rows -> runs (plan_for params sub (pv i row)) (rights i (pv i row)) (Ok tt)) ->
  row_stream (where_row rt p proj (imap (fun i b => (fst (fst b), fun row => rights i (pv i row))) bs)) rows o = (out, o') ->
  runs (ScalarSubqueryFilter input p bs cols t proj) out o'.
Proof.
  intros [e He] (t1 & E1) Subs R.
  eexists (DynWhere (mk_scalar_filter e p ((fun '(name, sub, params) => binding_new name sub params) <$> bs) indices proj)).
  intros [|k] L; cbn [height] in L; [lia|]. split.
  - destruct (He (S k) ltac:(lia)) as [[n C] _]. exists n. cbn [create].
    by rewrite E1, (q_bind_ret (q_lift (Ok _)) _ unlimited _ unlimited eq_refl), (q_bind_ret _ _ _ _ _ C).
  - refine (step_where (dyn_executor k) e p bs proj indices rows o out o' (imap (fun i _ row => rights i (pv i row)) bs)
      (proj2 (He k ltac:(lia))) _ _).
    + apply Forall2_imap. intros i [[name sub] params] Hi. destruct (Subs i name sub params Hi) as (Ex & Fx & Pl).
      apply (runs_subquery_rows k indices params sub rows (pv i) (rights i)); try done.
      assert (M : (height sub <= list_max (map (fun b => height (snd (fst b))) bs))%nat); [|lia].
      pose proof (proj1 (list_max_le (map (fun b => height (snd (fst b))) bs) _) (le_n _)) as Fa.
      rewrite List.Forall_forall in Fa. apply Fa, in_map_iff. exists (name, sub, params). split; [done|].
      apply list_elem_of_In. by eapply list_elem_of_lookup_2.
    + rewrite <- list_fmap_compose, zip_imap. exact R.
Qed.

(** ** Refinement *)

(** Some stream of the plan's meaning. *)
Definition runs_some (plan : PhysicalPlan) (Q : Stream) : Prop := exists rows o, Q rows o /\ runs plan rows o.

Lemma runs_complete plan Q P : runs_some plan Q -> complete Q P -> exists rows, Q rows (Ok tt) /\ P rows /\ runs plan rows (Ok tt).
Proof. intros (rows & o & Hq & R) C. destruct (C rows o Hq) as [-> Hp]. by exists rows. Qed.

(** The rows of the subquery for all the parameters met. *)
Lemma choose_rights params sub (pv : Row -> Params) (R : Params -> Stream) rows :
  (forall row, row ∈ rows -> runs_some (plan_for params sub (pv row)) (R (pv row)) /\ ends (R (pv row))) ->
  (params = [] -> runs_some sub (R []) /\ ends (R [])) ->
  exists rights, answers_with pv R rows rights
    /\ (params = [] -> runs sub (rights []) (Ok tt))
    /\ forall row, row ∈ rows -> runs (plan_for params sub (pv row)) (rights (pv row)) (Ok tt).
Proof.
  intros Rw Fx.
  set (keys := match params with [] => [[]] | _ => [] end ++ (pv <$> rows) : list Params).
  destruct (list_choice (fun ps r => R ps r (Ok tt) /\ runs (plan_for params sub ps) r (Ok tt)) keys) as [f Hf].
  { intros ps Hk. assert (X : runs_some (plan_for params sub ps) (R ps) /\ ends (R ps)).
    { apply elem_of_app in Hk as [Hk|(row & -> & Hr)%list_elem_of_fmap]; [|by apply Rw].
      destruct params; [|by apply not_elem_of_nil in Hk]. apply list_elem_of_singleton in Hk as ->. by apply Fx. }
    destruct X as [X En]. destruct (runs_complete _ _ _ X En) as (r & Hr & _ & Rr). by exists r. }
  assert (In : forall row, row ∈ rows -> pv row ∈ keys).
  { intros row Hr. apply elem_of_app. right. by apply list_elem_of_fmap_2. }
  exists f. split_and!; [intros row Hr; by apply Hf, In| |intros row Hr; by apply Hf, In].
  intros Ep. destruct (Hf []) as [_ F0]; [unfold keys; rewrite Ep; by left|]. by rewrite Ep in F0.
Qed.

(** The same for each of the bindings. *)
Lemma choose_all_rights (bs : list (Name * PhysicalPlan * list CorrelatedParam)) (pv : nat -> Row -> Params)
    (R : nat -> Params -> Stream) rows :
  (forall i name sub params, bs !! i = Some (name, sub, params) ->
    (forall row, row ∈ rows -> runs_some (plan_for params sub (pv i row)) (R i (pv i row)) /\ ends (R i (pv i row)))
    /\ (params = [] -> runs_some sub (R i []) /\ ends (R i []))) ->
  exists rights : nat -> Params -> list Row, forall i name sub params, bs !! i = Some (name, sub, params) ->
    answers_with (pv i) (R i) rows (rights i)
    /\ (params = [] -> runs sub (rights i []) (Ok tt))
    /\ forall row, row ∈ rows -> runs (plan_for params sub (pv i row)) (rights i (pv i row)) (Ok tt).
Proof.
  intros Sub.
  destruct (list_choice (V:=Params -> list Row) (fun i rights => forall name sub params, bs !! i = Some (name, sub, params) ->
    answers_with (pv i) (R i) rows rights
    /\ (params = [] -> runs sub (rights []) (Ok tt))
    /\ forall row, row ∈ rows -> runs (plan_for params sub (pv i row)) (rights (pv i row)) (Ok tt)) (seq 0 (length bs)))
    as [F HF].
  - intros i _. destruct (bs !! i) as [[[name sub] params]|] eqn:Ei; [|by exists (fun _ => [])].
    destruct (Sub i name sub params Ei) as [Rw Fx].
    destruct (choose_rights params sub (pv i) (R i) rows Rw Fx) as [f Hf]. exists f. intros ??? [= <- <- <-]. done.
  - exists F. intros i name sub params Ei. refine (HF i _ name sub params Ei).
    apply lookup_lt_Some in Ei. apply elem_of_seq. lia.
Qed.

Lemma runs_single : runs SingleRow [[]] (Ok tt).
Proof.
  apply (runs_leaf DynSingle SingleRow (mk_single false)); [done|done|cbn; lia|].
  apply (yields_next 1 _ _ (mk_single true)); [done|]. by apply (yields_end 1 _ (mk_single true)).
Qed.

Lemma runs_explain plan ls :
  render_plan_tree plan = Ok ls -> runs (Explain plan) ((fun line => [VString line]) <$> ls) (Ok tt).
Proof.
  intros R. apply (runs_leaf DynExplain (Explain plan) (mk_explain ls)); [|done|cbn; lia|].
  - intros k. cbn [create]. unfold explain_new. by rewrite R.
  - rewrite <- list_fmap_compose. apply explain_yields.
Qed.

Lemma some_correlated kind l r conds oc proj params li ri pv x y out L (R : Params -> Stream) :
  params <> [] -> runs_some l L -> opens (Leaf:=Leaf) r -> plain_indices l li -> plain_indices r ri ->
  subquery_fits (strict_of kind) li params L pv R ->
  (forall ls o row, L ls o -> row ∈ ls -> runs_some (inject_plan (pv row) r) (R (pv row))) ->
  (forall ls o rights, L ls o -> answers_with pv R ls rights ->
    one_column_fits conds proj li ri ls (fun r => exists row, row ∈ ls /\ r ∈ rights (pv row)) x y out) ->
  runs_some (related_of kind l r conds oc proj params) (fun res o => exists ls rights, L ls o /\ answers_with pv R ls rights
    /\ res = out <$> filter (fun row => subquery_holds kind conds x y (rights (pv row)) row = true) ls).
Proof.
  intros Np (ls & o & Hl & Rl) Op Il Ir [Sf _] Rr F.
  assert (Pf : forall ps, plan_for params r ps = inject_plan ps r) by by destruct params.
  destruct (choose_rights params r pv R ls) as (rights & A & _ & Ro); [|done|].
  { intros row Hr. rewrite Pf. split; [by apply (Rr ls o)|by apply (Sf ls o)]. }
  eexists _, o. split; [by exists ls, rights|]. apply (runs_correlated kind l r conds oc proj params li ri); try done.
  - intros row Hr. destruct (Sf ls o row Hl Hr) as (? & ? & _). done.
  - intros row Hr. rewrite <- Pf. by apply Ro.
  - by apply (F ls o).
Qed.

Lemma some_eval input sub oc i params w indices pv Q (R : Params -> Stream) :
  runs_some input Q -> outer_indices input indices -> subquery_fits false indices params Q pv R ->
  (params = [] -> runs_some sub (R [])) ->
  (forall rows o row, Q rows o -> row ∈ rows -> runs_some (plan_for params sub (pv row)) (R (pv row))) ->
  runs_some (SubqueryEvalPlan input sub oc i params w) (fun out o' => exists rows o rights, Q rows o
    /\ answers_with pv R rows rights /\ row_stream (with_scalar w i (fun row => rights (pv row))) rows o = (out, o')).
Proof.
  intros (rows & o & Hq & Rn) Oi [Sf S0] Fx Rw.
  destruct (choose_rights params sub pv R rows) as (rights & A & R0 & Ro).
  { intros row Hr. split; [by apply (Rw rows o)|by apply (Sf rows o)]. }
  { intros Ep. split; [by apply Fx|by apply S0]. }
  destruct (row_stream (with_scalar w i (fun row => rights (pv row))) rows o) as [out o'] eqn:E.
  exists out, o'. split; [by exists rows, o, rights|].
  apply (runs_eval input sub oc i params w indices rows o out o' pv rights); try done.
  intros row Hr. destruct (Sf rows o row Hq Hr) as (? & ? & _). done.
Qed.

Lemma some_where input p bs cols t proj indices (pv : nat -> Row -> Params) Q (R : nat -> Params -> Stream) :
  runs_some input Q -> plain_indices input indices ->
  (forall i name sub params, bs !! i = Some (name, sub, params) -> subquery_fits false indices params Q (pv i) (R i)) ->
  (forall i name sub, bs !! i = Some (name, sub, []) -> runs_some sub (R i [])) ->
  (forall i name sub params rows o row, bs !! i = Some (name, sub, params) -> Q rows o -> row ∈ rows ->
    runs_some (plan_for params sub (pv i row)) (R i (pv i row))) ->
  runs_some (ScalarSubqueryFilter input p bs cols t proj) (fun out o' => exists rows o (rights : nat -> Params -> list Row), Q rows o
    /\ (forall i b, bs !! i = Some b -> answers_with (pv i) (R i) rows (rights i))
    /\ row_stream (where_row rt p proj (imap (fun i b => (fst (fst b), fun row => rights i (pv i row))) bs)) rows o = (out, o')).
Proof.
  intros (rows & o & Hq & Rn) Pi Sf Fx Rw.
  destruct (choose_all_rights bs pv R rows) as (rights & A).
  { intros i name sub params Hi. destruct (Sf i name sub params Hi) as [Sr S0]. split.
    - intros row Hr. split; [by apply (Rw i name sub params rows o)|by apply (Sr rows o)].
    - intros ->. split; [by apply (Fx i name)|by apply S0]. }
  destruct (row_stream (where_row rt p proj (imap (fun i b => (fst (fst b), fun row => rights i (pv i row))) bs)) rows o)
    as [out o'] eqn:E.
  exists out, o'. split.
  - exists rows, o, rights. split_and!; [done| |done]. intros i [[name sub] params] Hi. by apply (A i name sub params).
  - apply (runs_where input p bs cols t proj indices rows o out o' pv rights); try done.
    intros i name sub params Hi. destruct (A i name sub params Hi) as (_ & R0 & Ro). split_and!; [|done|done].
    intros row Hr. destruct (Sf i name sub params Hi) as [Sr _]. destruct (Sr rows o row Hq Hr) as (? & ? & _). done.
Qed.

Lemma plan_runs_some plan Q : means (Leaf:=Leaf) plan Q -> runs_some plan Q.
Proof.
  induction 1 as [plan rows o T Ts| |plan ls Rd|plan alias cols proj Q _ IH C|input p t proj Q _ IH|input p t Q _ IH
    |input items cols Q _ IH|input lim off Q _ IH Hl Ho|input ob t cols proj b p Q _ IH C|input Q _ IH C
    |l r op all cols L R _ IHl _ IHr Cl Cr|input gb ke ag ai oc t ci key Q _ IH C
    |l r conds oc os li ri lk rk out L R _ IHl _ IHr Il Ir Er F|l r conds oc os li ri lk rk out L R _ IHl _ IHr Il Ir El Er F
    |l r p oc os t hit out padl padr li L R _ IHl _ IHr Il Er F|kind l r conds oc proj li ri x y out L R _ IHl _ IHr Il Ir Er F
    |kind l r conds oc proj params li ri pv x y out L R Np _ IHl Op Il Ir Sf _ IHr F
    |input sub oc i params w indices pv Q R _ IH Oi Sf _ IHf _ IHs|input p bs cols t proj indices pv Q R _ IH Pi Sf _ IHf _ IHs].
  - exists rows, o. split; [done|]. by apply runs_table.
  - exists [[]], (Ok tt). split; [done|]. by apply runs_single.
  - eexists _, _. split; [done|]. by apply runs_explain.
  - destruct (runs_complete _ _ _ IH C) as (rows & Hq & P & Rn). destruct (project_all proj rows) as [out| |] eqn:E; try done.
    exists out, (Ok tt). split; [split; [done|by exists rows]|]. by apply (runs_derived plan alias cols proj rows).
  - destruct IH as (rows & o & Hq & Rn). destruct (row_stream (filter_row rt p proj) rows o) as [out o'] eqn:E.
    exists out, o'. split; [by exists rows, o|]. by apply (runs_filter input p t proj rows o).
  - destruct IH as (rows & o & Hq & Rn). destruct (row_stream (filter_row rt p []) rows o) as [out o'] eqn:E.
    exists out, o'. split; [by exists rows, o|]. by apply (runs_having input p t rows o).
  - destruct IH as (rows & o & Hq & Rn). destruct (row_stream (project_row rt items.*1) rows o) as [out o'] eqn:E.
    exists out, o'. split; [by exists rows, o|]. by apply (runs_projection input items cols rows o).
  - destruct IH as (rows & o & Hq & Rn). destruct (limit_of off lim rows o) as [out o'] eqn:E.
    exists out, o'. split; [by exists rows, o|]. by apply (runs_limit input lim off rows o).
  - destruct (runs_complete _ _ _ IH C) as (rows & Hq & P & Rn).
    destruct (runs_sort input ob t cols proj b p rows Rn P) as (out & S & Ro).
    exists out, (Ok tt). split; [split; [done|by exists rows]|done].
  - destruct (runs_complete _ _ _ IH C) as (rows & Hq & P & Rn).
    eexists _, (Ok tt). split; [split; [done|by exists rows]|by apply runs_distinct].
  - destruct (runs_complete _ _ _ IHl Cl) as (ls & Hl & Pl & Rl), (runs_complete _ _ _ IHr Cr) as (rs & Hr & Pr & Rr).
    eexists _, (Ok tt). split; [split; [done|by exists ls, rs]|by apply runs_setop].
  - destruct (runs_complete _ _ _ IH C) as (rows & Hq & P & Rn).
    destruct (runs_aggregate input gb ke ag ai oc t ci key rows Rn P) as (out & G & Ro).
    exists out, (Ok tt). split; [split; [done|by exists rows]|done].
  - destruct IHl as (ls & o & Hl & Rl), (runs_complete _ _ _ IHr Er) as (rs & Hr & _ & Rr).
    eexists _, o. split; [by exists ls, rs|]. eapply runs_join; try done. by apply (F ls o).
  - destruct (runs_complete _ _ _ IHl El) as (ls & Hl & _ & Rl), (runs_complete _ _ _ IHr Er) as (rs & Hr & _ & Rr).
    destruct (runs_merge l r conds oc os li ri lk rk out ls rs Rl Rr Il Ir (F _ _ _ Hl Hr)) as (res & P & Rm).
    exists res, (Ok tt). split; [split; [done|by exists ls, rs]|done].
  - destruct IHl as (ls & o & Hl & Rl), (runs_complete _ _ _ IHr Er) as (rs & Hr & _ & Rr).
    eexists _, o. split; [by exists ls, rs|]. eapply runs_nested; try done. by apply (F ls o).
  - destruct IHl as (ls & o & Hl & Rl), (runs_complete _ _ _ IHr Er) as (rs & Hr & _ & Rr).
    eexists _, o. split; [by exists ls, rs|]. eapply runs_related; try done. by apply (F ls o).
  - by eapply some_correlated.
  - by eapply some_eval.
  - by eapply some_where.
Qed.
End running.

(** C3: The executor built for a plan computes the plan.  For every plan that
    has a meaning, [create_executor_from_plan] builds an executor, whatever the
    hash tables and sorts do within their contracts, and this executor runs to
    one of the streams the plan stands for: its rows in order and how it ends, an
    error of a row operator included.  Executor trees as deep as the plan are
    enough, and deeper ones change nothing. *)
Theorem plan_executor_refines {rt : Runtime} `{Lowercase} `{ProbingLaws} `{SortingLaws} `{IterationLaws} `{DebugText}
    {Leaf : Type} `{TablesLaws Leaf} `{ExecutorLaws Leaf} plan Q
    (M : means (Leaf:=Leaf) plan Q) :
  exists e rows o, Q rows o /\ forall k, (height plan <= k)%nat ->
    (exists n, create (Leaf:=Leaf) (dyn_executor k) n plan unlimited = Some (Ok e, unlimited))
    /\ @yields _ (dyn_executor k) e (ResRow <$> rows) o.
Proof. destruct (plan_runs_some plan Q M) as (rows & o & Hq & e & He). by exists e, rows, o. Qed.

(** *** [SELECT * FROM t WHERE a = (SELECT MAX(a) FROM t) LIMIT 5] *)

Definition sample_table : list Row := [[VInt 1]; [VInt 3]; [VNull]; [VInt 2]].
#[local] Instance sample_tables : Tables DerivedScanExecutor := fun _ => q_ret (mk_derived sample_table 0).
#[local] Instance sample_tables_laws : TablesLaws DerivedScanExecutor.
Proof. intros p. apply tame_ret. Qed.
#[local] Instance no_debug : DebugText := fun _ => [].
#[local] Existing Instance scan_probing.
#[local] Existing Instance scan_probing_laws.
#[local] Existing Instance insertion_sorting.
#[local] Existing Instance insertion_sorting_laws.
#[local] Existing Instance sample_lowercase.
#[local] Existing Instance sample_runtime.

Definition sample_scan : PhysicalPlan := Scan (mk_scan_node [x74] [[x61]] []).
Definition sample_max : PhysicalPlan := AggregatePlan sample_scan [] [] [Max [x61]] [Some 0] [[x6d]] [x74] [([x61], 0)].
Definition sample_query : PhysicalPlan :=
  Limit (ScalarSubqueryFilter sample_scan
    (ComparisonPredicate (ColumnExpression [x61] 0) OpEq (ParameterExpression [x70] VNull))
    [([x70], sample_max, [])] [[x61]] [x74] []) 5 0.
#[local] Existing Instance in_order.
#[local] Existing Instance in_order_laws.

Lemma sample_scan_means : means (Leaf:=DerivedScanExecutor) sample_scan (one sample_table (Ok tt)).
Proof.
  apply means_table; [done|]. eexists. split; [reflexivity|].
  pose proof (derived_yields sample_table 0) as Y. by rewrite drop_0 in Y.
Qed.

Definition sample_aggregation : Aggregate unit := aggregation [] [] [Max [x61]] [Some 0] [([x61], 0)].

Lemma sample_max_means :
  means (Leaf:=DerivedScanExecutor) sample_max (mapped (grouped_rows sample_aggregation (fun _ => [])) (one sample_table (Ok tt))).
Proof.
  apply means_aggregate; [apply sample_scan_means|]. intros rows o [-> ->]. split; [done|]. split_and!.
  - done.
  - intros i f row Hi D _. destruct i as [|[|i]]; cbn in Hi; by simplify_eq.
  - intros row _. split; [done|constructor].
Qed.

Lemma plan_executor_refines_witness :
  exists e, forall k, (height sample_query <= k)%nat ->
    (exists n, create (Leaf:=DerivedScanExecutor) (dyn_executor k) n sample_query unlimited = Some (Ok e, unlimited))
    /\ @yields _ (dyn_executor k) e [ResRow [VInt 3]] (Ok tt).
Proof.
  set (Qmax := mapped (grouped_rows sample_aggregation (fun _ => [])) (one sample_table (Ok tt))).
  assert (Ends : ends Qmax) by by intros rows o [-> _].
  assert (Wi : plain_indices sample_scan [([x61], 0)]) by by eexists.
  assert (Wf : forall i name sub params, [([x70], sample_max, [] : list CorrelatedParam)] !! i = Some (name, sub, params) ->
    subquery_fits false [([x61], 0)] params (one sample_table (Ok tt)) (fun _ => []) (fun _ => Qmax)).
  { intros [|[]] name sub params Hi; cbn in Hi; simplify_eq. split; [|done]. intros rows o row _ _. split_and!; [done|constructor|done]. }
  assert (Wm : forall i name sub, [([x70], sample_max, [] : list CorrelatedParam)] !! i = Some (name, sub, []) ->
    means (Leaf:=DerivedScanExecutor) sub Qmax).
  { intros [|[]] name sub Hi; cbn in Hi; simplify_eq. apply sample_max_means. }
  assert (Ws : forall i name sub params rows o (row : Row),
    [([x70], sample_max, [] : list CorrelatedParam)] !! i = Some (name, sub, params) ->
    one sample_table (Ok tt) rows o -> row ∈ rows -> means (Leaf:=DerivedScanExecutor) (plan_for params sub []) Qmax).
  { intros [|[]] name sub params rows o row Hi _ _; cbn in Hi; simplify_eq. apply sample_max_means. }
  destruct (plan_executor_refines (Leaf:=DerivedScanExecutor) sample_query _
    (means_limit _ 5 0 _ (means_where sample_scan
      (ComparisonPredicate (ColumnExpression [x61] 0) OpEq (ParameterExpression [x70] VNull))
      [([x70], sample_max, [])] [[x61]] [x74] [] [([x61], 0)] (fun _ _ => []) (one sample_table (Ok tt)) (fun _ _ => Qmax)
      sample_scan_means Wi Wf Wm Ws) ltac:(done) ltac:(done)))
    as (e & out & o & (rows & o1 & (rows0 & o0 & rights & [-> ->] & A & E1) & E2) & He).
  destruct (A 0%nat _ eq_refl [VInt 1] ltac:(by left)) as [_ (tab & [-> _] & G)]. cbn beta in G.
  assert (G' : rights 0%nat [] = [[VInt 3]]) by (rewrite G; by vm_compute).
  cbn [imap] in E1. unfold where_row in E1. cbn [scalars row_stream sample_table fst] in E1. rewrite G' in E1.
  vm_compute in E1. injection E1 as <- <-. vm_compute in E2. injection E2 as <- <-. exists e. exact He.
Defined.

(** A parameter of the statement inside the predicate of a scalar subquery filter
    keeps the value NULL: [WHERE a = ? AND a = (SELECT MAX(a) FROM t)] drops the
    row it asks for, since the injection goes to the input and to the subqueries
    and not to the predicate of the node itself. *)
Theorem scalar_filter_parameter_lost :
  let name := bytes_of_string "__param_0" in
  let p := LogicalPredicate (ComparisonPredicate (ColumnExpression [x61] 0) OpEq (ParameterExpression name VNull)) OpAnd
    (ComparisonPredicate (ColumnExpression [x61] 0) OpEq (ParameterExpression [x70] VNull)) in
  filter_row sample_runtime (inject_parameters [(name, VInt 3); ([x70], VInt 3)] p) [] [VInt 3] = Ok (Some [VInt 3])
  /\ match inject_plan [(name, VInt 3)] (ScalarSubqueryFilter sample_scan p [([x70], sample_max, [])] [[x61]] [x74] []) with
     | ScalarSubqueryFilter _ p' _ _ _ proj => where_row sample_runtime p' proj [([x70], fun _ => [[VInt 3]])] [VInt 3] = Ok None
     | _ => False
     end.
Proof. by vm_compute. Qed.
