(* ===== verification/TableAccess.v ===== *)
(** * Table accesses

    The executors at the leaves of a plan: [src/executor/scan.rs],
    [index_scan.rs], [index_scan_all.rs], [index_range_scan.rs], the streaming
    [DataScanExecutor] as an executor, and the arms of
    [create_executor_from_plan] (src/pipeline.rs) that open them, with the
    routing of attached databases.

    A database is its page pool, the visibility summary of its pages, its tables
    and its active transactions.  A statement reads one state of it.  The summary
    belongs to the pool and a scan updates it: each scan carries the summary on
    from the one it found.  Fuel bounds the loops of one call: the pages of a
    chain, the levels of a tree, the versions of a row. *)

From Stdlib Require Import ZArith Strings.Byte Lia.
From stdpp Require Import base tactics list numbers gmap.
From S2P Require Import Prelude RowKey PageLayout Values IndexKey Tuple Version Overflow DataPage.
From S2P Require DataScan.
From S2P Require Import BTreeNode BTree IndexManager Table.
From S2P Require Import Text DateTime Like Expr Budget Executor Hashing Ordering Plan Pipeline.
Import Key RowId Narrowing.
#[local] Open Scope Z_scope.

(** ** Databases *)

Record Store := mk_store {
  store_pool : Pool;
  store_vis : DataScan.VisMap;
  store_tables : gmap Name TableMeta;
  store_active : list Z }.

Abbreviation RoutedTables := (gmap Name (Store * Name)).

Definition routed_db (routed : RoutedTables) (database : Store) (table_name : Name) : Store * Name :=
  match routed !! table_name with
  | Some (db, local_name) => (db, local_name)
  | None => (database, table_name)
  end.

Definition get_table (db : Store) (name : Name) : exec QueryError TableMeta :=
  match store_tables db !! name with
  | Some t => Ok t
  | None => Err (TableNotFound name)
  end.

Definition load_table_meta (routed : RoutedTables) (database : Store) (table_name : Name)
    : exec QueryError TableMeta :=
  let (db, local_name) := routed_db routed database table_name in get_table db local_name.

(** ** Reading one row *)

(** What the index and page readers hold in common. *)
Record Reader := mk_reader {
  rd_table : TableMeta;
  rd_pool : Pool;
  rd_vis : DataScan.VisMap;
  rd_snapshot : option Snapshot.snapshot;
  rd_projection : list Z }.

Definition q_store {A} (m : exec StoreError A) : qm A := q_lift (exec_map_err StorageFailed m).

(** A read that may run out of fuel. *)
Definition q_read {A} (m : option (exec StoreError A)) : qm A :=
  match m with None => q_spent | Some m => q_store m end.

(** An index read: the pool is left as it was. *)
Definition q_index {A} (r : Reader) (m : bt A) : qm A :=
  q_read ((fun x => exec_map_err IndexError x.1) <$> m (rd_pool r)).

Definition read_row (r : Reader) (bytes : list byte) : exec StoreError Row :=
  exec_map_err TupleFailed (deserialize_row bytes (table_schema (rd_table r)) (column_defaults (rd_table r))).

(** The row a statement sees under a row id: the newest version visible to its
    snapshot, or, without a snapshot, the version itself. *)
Definition visible_row (n : nat) (r : Reader) (row_id : RowId) : qm (option Row) :=
  match rd_snapshot r with
  | Some sn =>
      let! found := q_read ((exec_map_err PageError) <$>
        DataScan.find_visible_version (pool_pages (rd_pool r)) (rd_vis r) n row_id sn) in
      match found with
      | None => q_ret None
      | Some bytes => let! row := q_store (read_row r bytes) in q_ret (Some row)
      end
  | None =>
      let! (_, bytes) := q_store (exec_map_err PageError (read_tuple_from_data_page (pool_pages (rd_pool r)) row_id)) in
      let! row := q_store (read_row r bytes) in
      q_ret (Some row)
  end.

Definition rd_project (r : Reader) (row : Row) : qm Row := q_lift (apply_projection (rd_projection r) row).

Definition rd_readable (r : Reader) : qm unit := q_store (ensure_readable (table_narrowing (rd_table r))).

(** The visible rows under some row ids, projected. *)
Fixpoint visible_rows (n : nat) (r : Reader) (ids : list RowId) (acc : list Row) : qm (list Row) :=
  match ids with
  | [] => q_ret acc
  | id :: ids =>
      let! found := visible_row n r id in
      match found with
      | None => visible_rows n r ids acc
      | Some row => let! row := rd_project r row in visible_rows n r ids (acc ++ [row])
      end
  end.

(** ** The streaming scan *)

Section access.
Context {rt : Runtime}.

Definition scan_predicate (p : Pred) (row : Row) : exec ValueError bool :=
  exec_map_err (fun _ => TypeMismatch) (evaluate_pred rt p row).

Record DataScanExecutor := mk_data_scan_executor {
  dse_pool : Pool; dse_vis : DataScan.VisMap; dse_scan : DataScan.DataScan }.

Definition data_scan_new (t : TableMeta) (pool : Pool) (vis : DataScan.VisMap) (snapshot : option Snapshot.snapshot)
    (predicate : option Pred) (cap : option Z) (tx_manager : option (list Z)) (projection : list Z) : DataScanExecutor :=
  mk_data_scan_executor pool vis
    (DataScan.with_projection
      (DataScan.scan_new (table_schema t) (column_defaults t) (page_head t) (is_in_flight (table_narrowing t)) snapshot
        (scan_predicate <$> predicate) (Z.to_nat <$> cap) tx_manager)
      (Z.to_nat <$> projection)).

Definition data_scan_next (n : nat) (s : DataScanExecutor) : qm (option ExecResult * DataScanExecutor) :=
  match DataScan.scan_next (pool_pages (dse_pool s)) n (dse_scan s) (dse_vis s) with
  | None => q_spent
  | Some (m, vis) =>
      let! (r, scan) := q_store (exec_map_err ScanFailed m) in
      q_ret (ResRow <$> r, mk_data_scan_executor (dse_pool s) vis scan)
  end.

#[global] Instance data_scan_executor : Executor DataScanExecutor := {
  next := data_scan_next;
  finished s := DataScan.narrowing (dse_scan s) = false /\ DataScan.current_page_id (dse_scan s) = None
    /\ is_Some (DataScan.superseded_map (dse_scan s)) /\ is_Some (DataScan.scan_active (dse_scan s))
}.

(** ** The full scan through the primary index *)

Record ScanExecutor := mk_scan_executor {
  sc_reader : Reader;
  sc_tx_manager : option (list Z);
  sc_results : list Row;
  sc_index : nat;
  sc_executed : bool }.

Definition is_keyless (t : TableMeta) : bool :=
  match columns t !! pk_index t with Some (_, CInt) => false | _ => true end.

Definition collect_keyless_rows (n : nat) (s : ScanExecutor) : qm (list Row) :=
  let r := sc_reader s in
  let scan := data_scan_new (rd_table r) (rd_pool r) (rd_vis r) (rd_snapshot r) None None (sc_tx_manager s) (rd_projection r) in
  let! (rows, _) := drain n (fun rows row => q_ret (rows ++ [row])) scan (sc_results s) in
  q_ret rows.

Definition scan_collect (n : nat) (s : ScanExecutor) : qm (list Row) :=
  let r := sc_reader s in
  if is_keyless (rd_table r) then collect_keyless_rows n s
  else
    let! entries := q_index r (index_scan_all n (im_root (index_manager (rd_table r)))) in
    visible_rows n r entries.*2 (sc_results s).

Definition scan_emit (s : ScanExecutor) : option ExecResult * ScanExecutor :=
  match sc_results s !! sc_index s with
  | Some row => (Some (ResRow row), mk_scan_executor (sc_reader s) (sc_tx_manager s) (sc_results s) (S (sc_index s)) (sc_executed s))
  | None => (None, s)
  end.

Definition scan_next (n : nat) (s : ScanExecutor) : qm (option ExecResult * ScanExecutor) :=
  match n with
  | O => q_spent
  | S _ =>
      let! _ := rd_readable (sc_reader s) in
      if sc_executed s then q_ret (scan_emit s)
      else
        let! rows := scan_collect n s in
        q_ret (scan_emit (mk_scan_executor (sc_reader s) (sc_tx_manager s) rows (sc_index s) true))
  end.

Definition readable (r : Reader) : Prop := is_in_flight (table_narrowing (rd_table r)) = false.

#[global] Instance scan_executor : Executor ScanExecutor := {
  next := scan_next;
  finished s := readable (sc_reader s) /\ sc_executed s = true /\ (length (sc_results s) <= sc_index s)%nat
}.

(** ** The lookup of a primary key *)

Record IndexScanExecutor := mk_index_scan_executor {
  ix_reader : Reader; ix_key : list byte; ix_executed : bool }.

Definition index_scan_next (n : nat) (s : IndexScanExecutor) : qm (option ExecResult * IndexScanExecutor) :=
  match n with
  | O => q_spent
  | S _ =>
      let r := ix_reader s in
      let! _ := rd_readable r in
      if ix_executed s then q_ret (None, s)
      else
        let s := mk_index_scan_executor r (ix_key s) true in
        let! row_id := q_index r (im_search n (index_manager (rd_table r)) (ix_key s)) in
        match row_id with
        | None => q_ret (None, s)
        | Some id =>
            let! found := visible_row n r id in
            match found with
            | None => q_ret (None, s)
            | Some row => let! row := rd_project r row in q_ret (Some (ResRow row), s)
            end
        end
  end.

#[global] Instance index_scan_executor : Executor IndexScanExecutor := {
  next := index_scan_next;
  finished s := readable (ix_reader s) /\ ix_executed s = true
}.

(** ** All rows under a key *)

Record IndexScanAllExecutor := mk_index_scan_all_executor {
  ia_reader : Reader;
  ia_key : list byte;
  ia_index : option IndexManager;
  ia_row_ids : list RowId;
  ia_current : nat;
  ia_initialized : bool }.

Definition ia_at (s : IndexScanAllExecutor) (i : nat) : IndexScanAllExecutor :=
  mk_index_scan_all_executor (ia_reader s) (ia_key s) (ia_index s) (ia_row_ids s) i (ia_initialized s).

Definition ia_body (n : nat) (s : IndexScanAllExecutor)
    : qm (IndexScanAllExecutor + (option ExecResult * IndexScanAllExecutor)) :=
  match ia_row_ids s !! ia_current s with
  | None => q_ret (inr (None, s))
  | Some id =>
      let s := ia_at s (S (ia_current s)) in
      let! found := visible_row n (ia_reader s) id in
      match found with
      | None => q_ret (inl s)
      | Some row => let! row := rd_project (ia_reader s) row in q_ret (inr (Some (ResRow row), s))
      end
  end.

Definition index_scan_all_next (n : nat) (s : IndexScanAllExecutor) : qm (option ExecResult * IndexScanAllExecutor) :=
  let r := ia_reader s in
  let! _ := rd_readable r in
  let! s :=
    if ia_initialized s then q_ret s
    else
      let! ids := q_index r (im_search_all n (default (index_manager (rd_table r)) (ia_index s)) (ia_key s)) in
      q_ret (mk_index_scan_all_executor r (ia_key s) (ia_index s) ids (ia_current s) true) in
  q_loop n (ia_body n) s.

#[global] Instance index_scan_all_executor : Executor IndexScanAllExecutor := {
  next := index_scan_all_next;
  finished s := readable (ia_reader s) /\ ia_initialized s = true /\ (length (ia_row_ids s) <= ia_current s)%nat
}.

(** ** Ranges of a secondary index *)

Record IndexRangeScanExecutor := mk_range_executor {
  ir_reader : Reader;
  ir_index : IndexManager;
  ir_lower : KeyBound;
  ir_upper : KeyBound;
  ir_omitted_scan : bool;
  ir_predicate : option Pred;
  ir_column_indexes : list Z;
  ir_column_types : list ColumnType;
  ir_generation : Z;
  ir_rows : list Row;
  ir_cursor : nat;
  ir_initialized : bool }.

Definition derived_key (s : IndexRangeScanExecutor) (row : Row) : option Key :=
  values ← mapM (fun i => row !! Z.to_nat i) (ir_column_indexes s);
  if negb (length values =? length (ir_column_types s))%nat then None
  else derive_secondary_index_key (ir_column_types s) values (ir_generation s).

(** The slots of a page with their delete marks, and the versions they
    supersede. *)
Fixpoint tail_slots_from (p : SlottedPageRef) (pid : Z) (n : nat) (i : Z) (pointed : gset RowId)
    : exec StorageError (gset RowId * list (RowId * bool)) :=
  match n with
  | O => Ok (pointed, [])
  | S n =>
      let? slot := get_slot p i in
      match slot with
      | None => tail_slots_from p pid n (i + 1) pointed
      | Some slot =>
          match get_slot_data_checked p slot with
          | None => Err (CorruptedSlot pid i slot)
          | Some slot_data =>
              if zlen slot_data <? VersionHeader.SIZE then tail_slots_from p pid n (i + 1) pointed
              else
                match VersionHeader.from_bytes (slice slot_data 0 VersionHeader.SIZE) with
                | None => tail_slots_from p pid n (i + 1) pointed
                | Some vh =>
                    let? pointed :=
                      if VersionHeader.create_tx_id vh =? 0 then Ok pointed
                      else
                        let? target := exec_map_err DataScan.never (VersionHeader.next_version vh) in
                        Ok match target with Some t => {[t]} ∪ pointed | None => pointed end in
                    let? (pointed, rest) := tail_slots_from p pid n (i + 1) pointed in
                    Ok (pointed, (mk_row_id (wrap32 pid) (logical_id slot), VersionHeader.is_deleted vh) :: rest)
                end
          end
      end
  end.

Definition tail_slots (d : list byte) (pid : Z) (pointed : gset RowId)
    : exec StorageError (Z * (gset RowId * list (RowId * bool))) :=
  let? slotted := ref_new d in
  if slot_count_exceeds_capacity (header slotted)
  then Err (CorruptedSlotCount pid (slot_count (header slotted)))
  else
    let? r := tail_slots_from slotted pid (Z.to_nat (slot_count (header slotted))) 0 pointed in
    Ok (next_page_id (header slotted), r).

Fixpoint chain_tails (n : nat) (r : Reader) (pid : Z) (pointed : gset RowId) (tails : list (RowId * bool))
    : qm (gset RowId * list (RowId * bool)) :=
  match n with
  | O => q_spent
  | S n =>
      match pool_pages (rd_pool r) !! pid with
      | None => q_store (Err (PageError (StoragePageMissing pid)))
      | Some d =>
          let! (next, (pointed, slots)) := q_store (exec_map_err PageError (tail_slots d pid pointed)) in
          if next =? 0 then q_ret (pointed, tails ++ slots)
          else chain_tails n r next pointed (tails ++ slots)
      end
  end.

Fixpoint omitted_among (n : nat) (s : IndexRangeScanExecutor) (p : Pred) (pointed : gset RowId)
    (tails : list (RowId * bool)) (seen : gset RowId) (rows : list Row) : qm (list Row) :=
  match tails with
  | [] => q_ret rows
  | (row_id, deleted) :: tails =>
      let next := omitted_among n s p pointed tails ({[row_id]} ∪ seen) in
      if bool_decide (row_id ∈ seen) || bool_decide (row_id ∈ pointed) then next rows
      else if (match rd_snapshot (ir_reader s) with None => true | Some _ => false end) && deleted then next rows
      else
        let! found := visible_row n (ir_reader s) row_id in
        match found with
        | None => next rows
        | Some values =>
            if bool_decide (is_Some (derived_key s values)) then next rows
            else
              match evaluate_pred rt p values with
              | Ok true => let! row := rd_project (ir_reader s) values in next (rows ++ [row])
              | Ok false => next rows
              | Err _ => q_store (Err PredicateError)
              | Panic => q_store Panic
              end
        end
  end.

Definition omitted_rows (n : nat) (s : IndexRangeScanExecutor) : qm (list Row) :=
  match ir_predicate s with
  | None => q_ret []
  | Some p =>
      let! (pointed, tails) := chain_tails n (ir_reader s) (page_head (rd_table (ir_reader s))) ∅ [] in
      omitted_among n s p pointed tails ∅ []
  end.

Definition range_collect (n : nat) (s : IndexRangeScanExecutor) : qm (list Row) :=
  let r := ir_reader s in
  let! ids := q_index r (scan_range n (im_root (ir_index s)) (ir_lower s) (ir_upper s)) in
  let! rows := visible_rows n r ids (ir_rows s) in
  if ir_omitted_scan s then let! more := omitted_rows n s in q_ret (rows ++ more) else q_ret rows.

Definition ir_set (s : IndexRangeScanExecutor) (rows : list Row) (cursor : nat) (initialized : bool) : IndexRangeScanExecutor :=
  mk_range_executor (ir_reader s) (ir_index s) (ir_lower s) (ir_upper s) (ir_omitted_scan s) (ir_predicate s)
    (ir_column_indexes s) (ir_column_types s) (ir_generation s) rows cursor initialized.

Definition range_emit (s : IndexRangeScanExecutor) : option ExecResult * IndexRangeScanExecutor :=
  match ir_rows s !! ir_cursor s with
  | Some row => (Some (ResRow row), ir_set s (ir_rows s) (S (ir_cursor s)) (ir_initialized s))
  | None => (None, s)
  end.

Definition range_next (n : nat) (s : IndexRangeScanExecutor) : qm (option ExecResult * IndexRangeScanExecutor) :=
  match n with
  | O => q_spent
  | S _ =>
      let! _ := rd_readable (ir_reader s) in
      if ir_initialized s then q_ret (range_emit s)
      else let! rows := range_collect n s in q_ret (range_emit (ir_set s rows (ir_cursor s) true))
  end.

#[global] Instance range_executor : Executor IndexRangeScanExecutor := {
  next := range_next;
  finished s := readable (ir_reader s) /\ ir_initialized s = true /\ (length (ir_rows s) <= ir_cursor s)%nat
}.

(** ** Opening a table *)

Inductive TableLeaf :=
| LeafScan (x : ScanExecutor)
| LeafData (x : DataScanExecutor)
| LeafIndex (x : IndexScanExecutor)
| LeafIndexAll (x : IndexScanAllExecutor)
| LeafRange (x : IndexRangeScanExecutor).

#[global] Instance leaf_executor : Executor TableLeaf := {
  next n s :=
    match s with
    | LeafScan x => boxed LeafScan (next n x)
    | LeafData x => boxed LeafData (next n x)
    | LeafIndex x => boxed LeafIndex (next n x)
    | LeafIndexAll x => boxed LeafIndexAll (next n x)
    | LeafRange x => boxed LeafRange (next n x)
    end;
  finished s :=
    match s with
    | LeafScan x => finished x
    | LeafData x => finished x
    | LeafIndex x => finished x
    | LeafIndexAll x => finished x
    | LeafRange x => finished x
    end
}.

Definition find_secondary (t : TableMeta) (name : Name) : exec QueryError IndexManager :=
  match List.find (fun s => bool_decide (si_name s = name)) (secondary_indexes t) with
  | Some s => Ok (si_index s)
  | None => Err (StorageFailed (UnregisteredIndex name))
  end.

Section opening.
Context (routed : RoutedTables) (database : Store) (snapshot : option Snapshot.snapshot).

Definition reader_of (table : Name) (projection : list Z) : exec QueryError Reader :=
  let db := (routed_db routed database table).1 in
  let? t := load_table_meta routed database table in
  Ok (mk_reader t (store_pool db) (store_vis db) snapshot projection).

(** The table access arms of [create_executor_from_plan]. *)
Definition open_leaf (plan : PhysicalPlan) : exec QueryError TableLeaf :=
  match plan with
  | Scan node =>
      let db := (routed_db routed database (scan_table node)).1 in
      let? r := reader_of (scan_table node) (scan_projection node) in
      Ok (LeafScan (mk_scan_executor r (Some (store_active db)) [] 0 false))
  | DataScan node =>
      let db := (routed_db routed database (ds_table node)).1 in
      let? t := load_table_meta routed database (ds_table node) in
      Ok (LeafData (data_scan_new t (store_pool db) (store_vis db) snapshot (ds_predicate node) (ds_cap node)
        (Some (store_active db)) (ds_projection node)))
  | IndexScan node =>
      let? r := reader_of (is_table node) (is_projection node) in
      Ok (LeafIndex (mk_index_scan_executor r (is_key node) false))
  | IndexScanAll node =>
      let? r := reader_of (isa_table node) (isa_projection node) in
      let? index :=
        match isa_index node with
        | Some name => let? i := find_secondary (rd_table r) name in Ok (Some i)
        | None => Ok None
        end in
      Ok (LeafIndexAll (mk_index_scan_all_executor r (isa_key node) index [] 0 false))
  | IndexRangeScan node =>
      let? r := reader_of (irs_table node) (irs_projection node) in
      let? index := find_secondary (rd_table r) (irs_index node) in
      Ok (LeafRange (mk_range_executor r index (as_bound (irs_lower node)) (as_bound (irs_upper node))
        (irs_omitted_scan node) (irs_predicate node) (irs_column_indexes node) (irs_column_types node)
        (irs_generation node) [] 0 false))
  | _ => Err UnexpectedPlan
  end.

Definition table_access : Tables TableLeaf := fun plan => q_lift (open_leaf plan).
End opening.

End access.

(** ** More fuel *)

Definition opt_le {A} (m1 m2 : option A) : Prop := forall r, m1 = Some r -> m2 = Some r.

Definition bt_le {A} (m1 m2 : bt A) : Prop := forall P, opt_le (m1 P) (m2 P).

#[global] Instance bt_le_preorder {A} : PreOrder (@bt_le A).
Proof. split; [by intros m P r|intros m1 m2 m3 H1 H2 P r E; by apply H2, H1]. Qed.

#[global] Instance bt_bind_mono {A B} :
  Proper (bt_le ==> pointwise_relation A bt_le ==> bt_le) (@bt_bind A B).
Proof.
  intros m1 m2 Hm k1 k2 Hk P r E. unfold bt_bind in *.
  destruct (m1 P) as [p|] eqn:E1; [|done]. rewrite (Hm _ _ E1). destruct p as [[a|e|] P']; try done. by apply Hk.
Qed.

Ltac bt_mono :=
  repeat match goal with
  | |- bt_le ?m ?m => reflexivity
  | |- bt_le (bt_bind _ _) (bt_bind _ _) => apply bt_bind_mono; [|intros ?]
  | |- bt_le (match ?x with _ => _ end) _ => destruct x
  end.

Lemma search_more n m root pid key : (n <= m)%nat -> bt_le (search_from_page n root pid key) (search_from_page m root pid key).
Proof.
  revert m pid. induction n as [|n IH]; intros m pid L; [by intros P r|].
  destruct m as [|m]; [lia|]. cbn [search_from_page]. bt_mono. apply IH. lia.
Qed.

Lemma im_search_more n m im key : (n <= m)%nat -> bt_le (im_search n im key) (im_search m im key).
Proof. intros L. unfold im_search, search. bt_mono. by apply search_more. Qed.

Lemma candidates_more n m root pid key :
  (n <= m)%nat -> bt_le (search_all_candidates n root pid key) (search_all_candidates m root pid key).
Proof.
  revert m pid. induction n as [|n IH]; intros m pid L; [by intros P r|].
  destruct m as [|m]; [lia|]. cbn [search_all_candidates]. bt_mono.
  match goal with |- bt_le (foldl _ ?z ?l) _ => generalize l; intros cs; cut (bt_le z z); [|reflexivity]; generalize z at 1 3; generalize z end.
  intros m2 m1 Hm. revert m1 m2 Hm. induction cs as [|c cs IHc]; intros m1 m2 Hm; cbn [foldl]; [done|].
  apply IHc. apply bt_bind_mono; [done|]. intros rs. bt_mono. apply IH. lia.
Qed.

Lemma im_search_all_more n m im key : (n <= m)%nat -> bt_le (im_search_all n im key) (im_search_all m im key).
Proof. intros L. unfold im_search_all. bt_mono. by apply candidates_more. Qed.

Lemma walk_more {A} (out : SlottedPageRef -> exec BtError (list A)) kids n m root stack visited results :
  (n <= m)%nat -> bt_le (walk out kids n root stack visited results) (walk out kids m root stack visited results).
Proof.
  revert m stack visited results. induction n as [|n IH]; intros m stack visited results L.
  - destruct stack; [destruct m; by intros P r|by intros P r].
  - destruct m as [|m]; [lia|]. destruct stack as [|pid stack]; [by intros P r|]. cbn [walk]. bt_mono; apply IH; lia.
Qed.

Lemma scan_range_more n m root lower upper : (n <= m)%nat -> bt_le (scan_range n root lower upper) (scan_range m root lower upper).
Proof. intros L. unfold scan_range, scan_range_from_root. bt_mono. by apply walk_more. Qed.

Lemma walk_versions_more pages sn n m cur :
  (n <= m)%nat -> opt_le (DataScan.walk_versions pages sn n cur) (DataScan.walk_versions pages sn m cur).
Proof.
  revert m cur. induction n as [|n IH]; intros m cur L; [by intros r|].
  destruct m as [|m]; [lia|]. cbn [DataScan.walk_versions]. destruct cur as [c|]; [|by intros r].
  intros r. repeat case_match; try done. apply IH. lia.
Qed.

Lemma find_visible_more pages vis n m id sn :
  (n <= m)%nat -> opt_le (DataScan.find_visible_version pages vis n id sn) (DataScan.find_visible_version pages vis m id sn).
Proof.
  intros L r. unfold DataScan.find_visible_version. repeat case_match; try done; by apply walk_versions_more.
Qed.

Lemma superseded_more pages n m pid s :
  (n <= m)%nat -> opt_le (DataScan.build_superseded_map pages n pid s) (DataScan.build_superseded_map pages m pid s).
Proof.
  revert m pid s. induction n as [|n IH]; intros m pid s L; [by intros r|].
  destruct m as [|m]; [lia|]. cbn [DataScan.build_superseded_map]. intros r. repeat case_match; try done. apply IH. lia.
Qed.

Lemma scan_loop_more pages sup active n m s vis :
  (n <= m)%nat -> opt_le (DataScan.scan_loop pages sup active n s vis) (DataScan.scan_loop pages sup active m s vis).
Proof.
  revert m s vis. induction n as [|n IH]; intros m s vis L; [by intros r|].
  destruct m as [|m]; [lia|]. cbn [DataScan.scan_loop]. intros r. repeat case_match; try done. apply IH. lia.
Qed.

Lemma data_scan_more pages n m s vis :
  (n <= m)%nat -> opt_le (DataScan.scan_next pages n s vis) (DataScan.scan_next pages m s vis).
Proof.
  intros L r. unfold DataScan.scan_next. destruct (DataScan.narrowing s); [done|].
  destruct (DataScan.superseded_map s) as [sup|]; [by apply scan_loop_more|].
  destruct (DataScan.build_superseded_map pages n (DataScan.data_page_head s) ∅) as [o|] eqn:E; [|done].
  rewrite (superseded_more _ _ _ _ _ L _ E). destruct o; try done. by apply scan_loop_more.
Qed.

Lemma q_read_mono {A} (m1 m2 : option (exec StoreError A)) : opt_le m1 m2 -> qle (q_read m1) (q_read m2).
Proof. intros H. destruct m1 as [x|]; [by rewrite (H x)|by intros b r]. Qed.

Lemma q_read_fmap {A B} (f : A -> exec StoreError B) (m1 m2 : option A) :
  opt_le m1 m2 -> qle (q_read (f <$> m1)) (q_read (f <$> m2)).
Proof. intros H. apply q_read_mono. intros r E. apply fmap_Some in E as (x & E & ->). by rewrite (H x). Qed.

Lemma q_index_mono {A} r (m1 m2 : bt A) : bt_le m1 m2 -> qle (q_index r m1) (q_index r m2).
Proof. intros H. apply q_read_fmap, H. Qed.

Lemma visible_row_mono n m r id : (n <= m)%nat -> qle (visible_row n r id) (visible_row m r id).
Proof.
  intros L. unfold visible_row. destruct (rd_snapshot r); [|reflexivity].
  apply q_bind_mono; [|intros ?; reflexivity]. by apply q_read_fmap, find_visible_more.
Qed.

Lemma visible_rows_mono n m r ids acc : (n <= m)%nat -> qle (visible_rows n r ids acc) (visible_rows m r ids acc).
Proof.
  intros L. revert acc. induction ids as [|id ids IH]; intros acc; cbn [visible_rows]; [reflexivity|].
  apply q_bind_mono; [by apply visible_row_mono|]. intros [row|]; [|apply IH]. apply q_bind_mono; [reflexivity|]. intros x. apply IH.
Qed.

Lemma chain_tails_mono n m r pid pointed tails : (n <= m)%nat -> qle (chain_tails n r pid pointed tails) (chain_tails m r pid pointed tails).
Proof.
  revert m pid pointed tails. induction n as [|n IH]; intros m pid pointed tails L; [by intros b x|].
  destruct m as [|m]; [lia|]. cbn [chain_tails]. destruct (pool_pages (rd_pool r) !! pid); [|reflexivity].
  apply q_bind_mono; [reflexivity|]. intros (next & pt & slots). destruct (next =? 0); [reflexivity|]. apply IH. lia.
Qed.

Lemma omitted_among_mono {rt : Runtime} n m s p pointed tails seen rows :
  (n <= m)%nat -> qle (omitted_among n s p pointed tails seen rows) (omitted_among m s p pointed tails seen rows).
Proof.
  intros L. revert seen rows. induction tails as [|[id del] tails IH]; intros seen rows; cbn [omitted_among]; [reflexivity|].
  repeat match goal with
  | |- qle ?x ?x => reflexivity
  | |- qle (omitted_among _ _ _ _ _ _ _) _ => apply IH
  | |- qle (visible_row _ _ _) _ => by apply visible_row_mono
  | |- qle (q_bind _ _) _ => apply q_bind_mono; [|intros ?]
  | |- qle (match ?x with _ => _ end) _ => destruct x
  end.
Qed.

(** ** Laws *)

Lemma tame_store {A} (m : exec StoreError A) : tame (q_store m).
Proof. apply tame_lift. Qed.
Lemma tame_read {A} (m : option (exec StoreError A)) : tame (q_read m).
Proof. destruct m; [apply tame_lift|apply tame_spent]. Qed.
Lemma tame_index {A} r (m : bt A) : tame (q_index r m).
Proof. apply tame_read. Qed.
#[export] Hint Resolve tame_store tame_read tame_index : tame.

Lemma visible_row_tame n r id : tame (visible_row n r id).
Proof. unfold visible_row. q_tame. Qed.
#[export] Hint Resolve visible_row_tame : tame.

Lemma visible_rows_tame n r ids acc : tame (visible_rows n r ids acc).
Proof. revert acc. induction ids as [|id ids IH]; intros acc; cbn [visible_rows]; unfold rd_project; q_tame. Qed.

Lemma chain_tails_tame n r pid pointed tails : tame (chain_tails n r pid pointed tails).
Proof. revert pid pointed tails. induction n as [|n IH]; intros pid pointed tails; cbn [chain_tails]; q_tame. Qed.

Lemma omitted_among_tame {rt : Runtime} n s p pointed tails seen rows : tame (omitted_among n s p pointed tails seen rows).
Proof.
  revert seen rows. induction tails as [|[id del] tails IH]; intros seen rows; cbn [omitted_among]; unfold rd_project; q_tame.
Qed.
#[export] Hint Resolve visible_rows_tame chain_tails_tame omitted_among_tame : tame.

(** A read that succeeds found the table readable. *)
Lemma rd_readable_ok r b b' : rd_readable r b = Some (Ok tt, b') -> readable r /\ b' = b.
Proof.
  unfold rd_readable, q_store, q_lift, ensure_readable, readable. by destruct (is_in_flight _); intros [=].
Qed.

Lemma readable_ok r : readable r -> rd_readable r = q_ret tt.
Proof. unfold rd_readable, q_store, ensure_readable, readable. by intros ->. Qed.

(** What a scan keeps from one call to the next. *)
Definition same_scan (s s' : DataScan.DataScan) : Prop :=
  DataScan.narrowing s' = DataScan.narrowing s /\ DataScan.superseded_map s' = DataScan.superseded_map s
  /\ DataScan.scan_active s' = DataScan.scan_active s.

Lemma turn_same pages s vis sup active pid r vis' :
  DataScan.scan_turn pages s vis sup active pid = (Ok r, vis') ->
  match r with
  | inl (o, s') => same_scan s s' /\ (o = None -> DataScan.current_page_id s' = None)
  | inr s' => same_scan s s'
  end.
Proof.
  unfold DataScan.scan_turn. destruct (DataScan.slot_is_superseded _ _ _ _ _) as [[]| |]; [by intros [= <- _]| |done..].
  destruct (_ !! pid) as [d|]; [|done]. destruct (DataScan.page_action _ _ _ _ _ _) as [[act i]| |]; [|done..].
  destruct (match DataScan.scan_snapshot _ with Some _ => _ | None => _ end) as [armed| |]; [|done..].
  intros E. apply (f_equal fst) in E. cbn [fst] in E. apply exec_bind_Ok in E as (act' & _ & E).
  destruct act' as [vs| | | |]; try discriminate E; try (by injection E as <-).
  apply exec_bind_Ok in E as ([vs'|] & _ & E); [|by injection E as <-].
  apply exec_bind_Ok in E as (row & _ & E). injection E as <-. unfold DataScan.yield_capped.
  destruct (DataScan.scan_cap _) as [cap|]; [destruct (cap <=? _)%nat|]; done.
Qed.

Lemma loop_none pages sup active n s vis s' vis' :
  DataScan.scan_loop pages sup active n s vis = Some (Ok (None, s'), vis') ->
  DataScan.current_page_id s' = None /\ DataScan.narrowing s' = DataScan.narrowing s
  /\ DataScan.superseded_map s' = DataScan.superseded_map s /\ DataScan.scan_active s' = DataScan.scan_active s.
Proof.
  revert s vis. induction n as [|n IH]; intros s vis; cbn [DataScan.scan_loop]; [done|].
  destruct (DataScan.current_page_id s) as [pid|] eqn:C; [|intros [= <- <-]; done].
  destruct (DataScan.scan_turn _ _ _ _ _ _) as [[[[o t]|t]| |] v] eqn:T; try done.
  - intros [= -> -> ->]. apply turn_same in T as [T N]. by split; [apply N|].
  - intros E. destruct (IH _ _ E) as (? & -> & -> & ->). by apply turn_same in T.
Qed.

#[global] Instance data_scan_laws : ExecutorLaws DataScanExecutor.
Proof.
  split.
  - intros n m s L b r. cbn [next data_scan_executor]. unfold data_scan_next.
    destruct (DataScan.scan_next _ n _ _) as [[o v]|] eqn:E; [|done]. by rewrite (data_scan_more _ _ _ _ _ L _ E).
  - intros n s. cbn [next data_scan_executor]. unfold data_scan_next. q_tame.
  - intros n s b s' b'. cbn [next finished data_scan_executor]. unfold data_scan_next.
    destruct (DataScan.scan_next _ n _ _) as [[o v]|] eqn:E; [|done]. intros X.
    apply q_bind_Ok in X as ([r t] & b1 & X & Y). inv_q. destruct r; [done|]. cbn [dse_scan].
    unfold q_store, q_lift in X. destruct o as [x| |]; cbn in X; simplify_eq.
    revert E. unfold DataScan.scan_next. destruct (DataScan.narrowing (dse_scan s)) eqn:N; [done|].
    destruct (match DataScan.superseded_map _ with Some _ => _ | None => _ end) as [[m| |]|]; try done.
    intros E. apply loop_none in E as (? & -> & -> & ->). by cbn.
  - intros n s b (N & C & [sup S] & [act A]) L. cbn [next finished data_scan_executor]. unfold data_scan_next, DataScan.scan_next.
    rewrite N, S, A. destruct n as [|n]; [lia|]. cbn [DataScan.scan_loop DataScan.captured DataScan.current_page_id]. rewrite C.
    eexists. split; [reflexivity|]. cbn. by split_and!.
Qed.

Lemma scan_collect_mono {rt : Runtime} n m s : (n <= m)%nat -> qle (scan_collect n s) (scan_collect m s).
Proof.
  intros L. unfold scan_collect, collect_keyless_rows. destruct (is_keyless _); [q_mono|].
  apply q_bind_mono; [by apply q_index_mono, walk_more|]. intros es. by apply visible_rows_mono.
Qed.

Lemma range_collect_mono {rt : Runtime} n m s : (n <= m)%nat -> qle (range_collect n s) (range_collect m s).
Proof.
  intros L. unfold range_collect, omitted_rows.
  apply q_bind_mono; [by apply q_index_mono, scan_range_more|]. intros ids.
  apply q_bind_mono; [by apply visible_rows_mono|]. intros rows. destruct (ir_omitted_scan s); [|reflexivity].
  apply q_bind_mono; [|reflexivity]. destruct (ir_predicate s); [|reflexivity].
  apply q_bind_mono; [by apply chain_tails_mono|]. intros []. by apply omitted_among_mono.
Qed.

#[global] Instance scan_laws {rt : Runtime} : ExecutorLaws ScanExecutor.
Proof.
  split.
  - intros [|n] [|m] s L; cbn [next scan_executor scan_next]; try lia; [by intros b r..|].
    apply q_bind_mono; [reflexivity|]. intros _. destruct (sc_executed s); [reflexivity|].
    apply q_bind_mono; [by apply scan_collect_mono|reflexivity].
  - intros [|n] s; cbn [next scan_executor scan_next]; [apply tame_spent|]. unfold rd_readable, scan_collect, collect_keyless_rows. q_tame.
  - intros [|n] s b s' b'; cbn [next finished scan_executor scan_next]; [done|]. intros E.
    apply q_bind_Ok in E as ([] & b1 & R & E). apply rd_readable_ok in R as [R ->].
    assert (Em : forall t, sc_reader t = sc_reader s -> sc_executed t = true -> scan_emit t = (None, s') ->
      readable (sc_reader s') /\ sc_executed s' = true /\ (length (sc_results s') <= sc_index s')%nat).
    { intros t Et Xt. unfold scan_emit. destruct (_ !! _) eqn:Ln; [done|]. intros [= <-]. rewrite Et. by apply lookup_ge_None in Ln. }
    destruct (sc_executed s) eqn:X; inv_q; (eapply Em; [| |eassumption]); done.
  - intros [|n] s b (R & X & Ln) L; cbn [next finished scan_executor scan_next]; [lia|]. rewrite readable_ok by done.
    exists s. split; [|done]. unfold q_bind, q_ret. rewrite X. unfold scan_emit. by rewrite lookup_ge_None_2.
Qed.

#[global] Instance index_scan_laws : ExecutorLaws IndexScanExecutor.
Proof.
  split.
  - intros [|n] [|m] s L; cbn [next index_scan_executor index_scan_next]; try lia; [by intros b r..|].
    apply q_bind_mono; [reflexivity|]. intros _. destruct (ix_executed s); [reflexivity|].
    apply q_bind_mono; [by apply q_index_mono, im_search_more|]. intros [id|]; [|reflexivity].
    apply q_bind_mono; [by apply visible_row_mono|reflexivity].
  - intros [|n] s; cbn [next index_scan_executor index_scan_next]; [apply tame_spent|]. unfold rd_readable, rd_project. q_tame.
  - intros [|n] s b s' b'; cbn [next finished index_scan_executor index_scan_next]; [done|]. intros E.
    apply q_bind_Ok in E as ([] & b1 & R & E). apply rd_readable_ok in R as [R ->].
    destruct (ix_executed s) eqn:X; [by inv_q|]. apply q_bind_Ok in E as ([id|] & b1 & _ & E); [|by inv_q].
    apply q_bind_Ok in E as ([row|] & b2 & _ & E); by inv_q.
  - intros [|n] s b (R & X) L; cbn [next finished index_scan_executor index_scan_next]; [lia|]. rewrite readable_ok by done.
    exists s. split; [|done]. unfold q_bind, q_ret. by rewrite X.
Qed.

Lemma ia_body_keeps n s b r b' :
  ia_body n s b = Some (Ok r, b') ->
  match r with
  | inl s' => ia_reader s' = ia_reader s /\ ia_initialized s' = ia_initialized s
  | inr (None, s') => s' = s /\ (length (ia_row_ids s) <= ia_current s)%nat
  | inr (Some _, _) => True
  end.
Proof.
  unfold ia_body. destruct (_ !! _) as [id|] eqn:Li.
  - intros E. apply q_bind_Ok in E as ([row|] & b1 & _ & E); by inv_q.
  - intros E. inv_q. by apply lookup_ge_None in Li.
Qed.

Lemma ia_loop_none k n s b s' b' :
  q_loop k (ia_body n) s b = Some (Ok (None, s'), b') ->
  ia_reader s' = ia_reader s /\ ia_initialized s' = ia_initialized s /\ (length (ia_row_ids s') <= ia_current s')%nat.
Proof.
  revert s b. induction k as [|k IH]; intros s b; cbn [q_loop]; [done|]. intros E.
  apply q_bind_Ok in E as ([t|[o t]] & b1 & B & E); apply ia_body_keeps in B.
  - destruct (IH _ _ E) as (-> & -> & ?). by destruct B as [-> ->].
  - inv_q. by destruct B as [-> ?].
Qed.

#[global] Instance index_scan_all_laws : ExecutorLaws IndexScanAllExecutor.
Proof.
  split.
  - intros n m s L. cbn [next index_scan_all_executor]. unfold index_scan_all_next.
    apply q_bind_mono; [reflexivity|]. intros _. apply q_bind_mono.
    + destruct (ia_initialized s); [reflexivity|]. apply q_bind_mono; [by apply q_index_mono, im_search_all_more|reflexivity].
    + intros t. apply q_loop_mono; [done|]. intros u. unfold ia_body. destruct (_ !! _); [|reflexivity].
      apply q_bind_mono; [by apply visible_row_mono|reflexivity].
  - intros n s. cbn [next index_scan_all_executor]. unfold index_scan_all_next, rd_readable, ia_body, rd_project. q_tame.
  - intros n s b s' b'. cbn [next finished index_scan_all_executor]. unfold index_scan_all_next. intros E.
    apply q_bind_Ok in E as ([] & b1 & R & E). apply rd_readable_ok in R as [R ->].
    apply q_bind_Ok in E as (t & b1 & T & E).
    assert (Ht : ia_reader t = ia_reader s /\ ia_initialized t = true) by (destruct (ia_initialized s) eqn:X; by inv_q).
    destruct Ht as [Rt It]. apply ia_loop_none in E as (-> & -> & ?). by rewrite Rt.
  - intros n s b (R & I & Ln) L. cbn [next finished index_scan_all_executor]. unfold index_scan_all_next.
    rewrite readable_ok by done. rewrite I. exists s. split; [|done]. destruct n as [|n]; [lia|].
    unfold q_bind, q_ret. cbn [q_loop]. unfold q_bind, ia_body. by rewrite lookup_ge_None_2.
Qed.

#[global] Instance range_laws {rt : Runtime} : ExecutorLaws IndexRangeScanExecutor.
Proof.
  split.
  - intros [|n] [|m] s L; cbn [next range_executor range_next]; try lia; [by intros b r..|].
    apply q_bind_mono; [reflexivity|]. intros _. destruct (ir_initialized s); [reflexivity|].
    apply q_bind_mono; [by apply range_collect_mono|reflexivity].
  - intros [|n] s; cbn [next range_executor range_next]; [apply tame_spent|]. unfold rd_readable, range_collect, omitted_rows. q_tame.
  - intros [|n] s b s' b'; cbn [next finished range_executor range_next]; [done|]. intros E.
    apply q_bind_Ok in E as ([] & b1 & R & E). apply rd_readable_ok in R as [R ->].
    assert (Em : forall t, ir_reader t = ir_reader s -> ir_initialized t = true -> range_emit t = (None, s') ->
      readable (ir_reader s') /\ ir_initialized s' = true /\ (length (ir_rows s') <= ir_cursor s')%nat).
    { intros t Et Xt. unfold range_emit. destruct (_ !! _) eqn:Ln; [done|]. intros [= <-]. rewrite Et. by apply lookup_ge_None in Ln. }
    destruct (ir_initialized s) eqn:X; inv_q; (eapply Em; [| |eassumption]); done.
  - intros [|n] s b (R & X & Ln) L; cbn [next finished range_executor range_next]; [lia|]. rewrite readable_ok by done.
    exists s. split; [|done]. unfold q_bind, q_ret. rewrite X. unfold range_emit. by rewrite lookup_ge_None_2.
Qed.

#[global] Instance leaf_laws {rt : Runtime} : ExecutorLaws TableLeaf.
Proof.
  split.
  - intros n m [] L; cbn [next leaf_executor]; by apply boxed_mono.
  - intros n []; cbn [next leaf_executor]; apply boxed_tame.
  - intros n [] b s' b' E; cbn [next leaf_executor] in E; apply boxed_ends in E as (x' & -> & F); exact F.
  - intros n [] b F L; cbn [next finished leaf_executor] in *;
      match goal with |- context [boxed ?c _] => destruct (boxed_finished c n _ b F L) as (x' & N & F'); by exists (c x') end.
Qed.

(** The tables of a database are what the pipeline asks for. *)
Lemma table_access_laws {rt : Runtime} routed database snapshot :
  @TablesLaws TableLeaf (table_access routed database snapshot).
Proof. intros plan. apply tame_lift. Qed.
