(* ===== verification/Statements.v ===== *)
(** * Statements that write

    [src/executor/insert.rs], [delete.rs], [update.rs] and [upsert.rs], with
    [TableManager::write_tuple] and [heal_stale_tail]
    (src/storage/data/table_manager.rs): how a statement changes a table, its
    indexes, the versions its transaction recorded and the log.

    The state is the part of the database one statement touches: the page pool
    and the visibility summary, the table with the roots of its indexes, the
    tail page the catalog remembers, the transaction manager and the records
    appended to the log.  A computation keeps its changes when it fails, as the
    code does; undoing them is the transaction's abort.  [None] is fuel spent
    inside an index. *)

From Stdlib Require Import ZArith Strings.Byte Lia.
From stdpp Require Import base tactics list numbers gmap.
From S2P Require Import Prelude RowKey PageLayout Values IndexKey Tuple Version TxManager Overflow DataPage.
From S2P Require Import BTreeNode BTree IndexManager WalRecord Text DateTime Like Expr Executor Table.
From S2P Require DataScan.
Import Key RowId Narrowing.
#[local] Open Scope Z_scope.

(** ** The state of a statement *)

Record Db := mk_db {
  db_pool : Pool;
  db_vis : DataScan.VisMap;
  db_table : TableMeta;
  db_catalog_tail : Z;
  db_tx : TxManager.TM;
  db_wal : option (list WalRecord) }.

Definition with_pool (p : Pool) (d : Db) : Db :=
  mk_db p (db_vis d) (db_table d) (db_catalog_tail d) (db_tx d) (db_wal d).
Definition with_vis (v : DataScan.VisMap) (d : Db) : Db :=
  mk_db (db_pool d) v (db_table d) (db_catalog_tail d) (db_tx d) (db_wal d).
Definition with_table (t : TableMeta) (d : Db) : Db :=
  mk_db (db_pool d) (db_vis d) t (db_catalog_tail d) (db_tx d) (db_wal d).
Definition with_catalog_tail (n : Z) (d : Db) : Db :=
  mk_db (db_pool d) (db_vis d) (db_table d) n (db_tx d) (db_wal d).
Definition with_tx (m : TxManager.TM) (d : Db) : Db :=
  mk_db (db_pool d) (db_vis d) (db_table d) (db_catalog_tail d) m (db_wal d).
Definition with_wal (w : option (list WalRecord)) (d : Db) : Db :=
  mk_db (db_pool d) (db_vis d) (db_table d) (db_catalog_tail d) (db_tx d) w.

Definition sm (A : Type) : Type := Db -> option (exec StoreError A * Db).

Definition s_ret {A} (a : A) : sm A := fun d => Some (Ok a, d).
Definition s_lift {A} (m : exec StoreError A) : sm A := fun d => Some (m, d).
Definition s_fail {A} (e : StoreError) : sm A := s_lift (Err e).
Definition s_bind {A B} (m : sm A) (k : A -> sm B) : sm B := fun d =>
  match m d with
  | Some (Ok a, d) => k a d
  | Some (Err e, d) => Some (Err e, d)
  | Some (Panic, d) => Some (Panic, d)
  | None => None
  end.

Notation "'let*' p ':=' c 'in' k" := (s_bind c (fun p => k))
  (at level 10, p pattern, c at level 200, k at level 200) : rust_scope.

Definition s_table : sm TableMeta := fun d => Some (Ok (db_table d), d).
Definition s_modify (f : Db -> Db) : sm unit := fun d => Some (Ok tt, f d).

(** [l[i]]. *)
Definition at_index {A} (l : list A) (i : nat) : sm A :=
  match l !! i with Some x => s_ret x | None => s_lift Panic end.

(** ** The indexes of the table *)

Inductive IndexRef := PkIndex | UniqueIndex (pos : nat) | SecondaryIndex (pos : nat).

Definition get_index (t : TableMeta) (r : IndexRef) : option IndexManager :=
  match r with
  | PkIndex => Some (index_manager t)
  | UniqueIndex i => snd <$> unique_indexes t !! i
  | SecondaryIndex i => si_index <$> secondary_indexes t !! i
  end.

Definition set_index (t : TableMeta) (r : IndexRef) (im : IndexManager) : TableMeta :=
  mk_table (table_name t) (columns t) (not_null t) (pk_column t) (pk_index t)
    match r with PkIndex => im | _ => index_manager t end
    match r with UniqueIndex i => alter (fun u => (u.1, im)) i (unique_indexes t) | _ => unique_indexes t end
    match r with
    | SecondaryIndex i =>
        alter (fun s => mk_secondary (si_name s) (column_index s) (generation s) (extra_column_indexes s) im) i (secondary_indexes t)
    | _ => secondary_indexes t
    end
    (column_defaults t) (page_head t) (page_tail t) (table_narrowing t).

Definition set_tail (t : TableMeta) (tail : Z) : TableMeta :=
  mk_table (table_name t) (columns t) (not_null t) (pk_column t) (pk_index t) (index_manager t) (unique_indexes t)
    (secondary_indexes t) (column_defaults t) (page_head t) tail (table_narrowing t).

(** A read of an index. *)
Definition index_read {A} (r : IndexRef) (f : IndexManager -> bt A) : sm A := fun d =>
  match get_index (db_table d) r with
  | None => Some (Panic, d)
  | Some im => (fun x => (exec_map_err IndexError x.1, with_pool x.2 d)) <$> f im (db_pool d)
  end.

(** A write of an index, which publishes its root and reverse map. *)
Definition index_write (r : IndexRef) (f : IndexManager -> bt IndexManager) : sm unit := fun d =>
  match get_index (db_table d) r with
  | None => Some (Panic, d)
  | Some im =>
      match f im (db_pool d) with
      | None => None
      | Some (Ok im, p) => Some (Ok tt, with_table (set_index (db_table d) r im) (with_pool p d))
      | Some (Err e, p) => Some (Err (IndexError e), with_pool p d)
      | Some (Panic, p) => Some (Panic, with_pool p d)
      end
  end.

(** ** Pages, versions and the log *)

Definition s_clear_all_visible (pid : Z) : sm unit :=
  s_modify (fun d => with_vis (DataScan.clear_all_visible (db_vis d) pid) d).
Definition s_visible_on_insert (pid tx : Z) : sm unit :=
  s_modify (fun d => with_vis (DataScan.update_visibility_on_insert (db_vis d) pid tx) d).
Definition s_log (r : WalRecord) : sm unit :=
  s_modify (fun d => with_wal ((fun w => w ++ [r]) <$> db_wal d) d).
Definition s_record_version (tx : Z) (r : RowId) : sm unit :=
  s_modify (fun d => with_tx (TxManager.record_version (db_tx d) tx (table_name (db_table d)) r) d).

Definition s_read_tuple (r : RowId) : sm (VersionHeader.vheader * list byte) := fun d =>
  Some (exec_map_err PageError (read_tuple_from_data_page (pool_pages (db_pool d)) r), d).

(** [write_tuple_to_data_page] at the tail of the table. *)
Definition s_write_tuple (vh : VersionHeader.vheader) (bytes : list byte) : sm RowId := fun d =>
  match write_tuple_to_data_page (db_pool d) (page_tail (db_table d)) vh bytes with
  | (m, p, tail) => Some (exec_map_err PageError m, with_table (set_tail (db_table d) tail) (with_pool p d))
  end.

Definition s_update_header (r : RowId) (vh : VersionHeader.vheader) : sm unit := fun d =>
  match update_version_header_in_data_page (db_pool d) r vh with
  | Ok p => Some (Ok tt, with_pool p d)
  | Err e => Some (Err (PageError e), d)
  | Panic => Some (Panic, d)
  end.

(** The chain from a page to its terminal page; a page outside the file is
    missing from the pool. *)
Fixpoint terminal_page (pages : gmap Z (list byte)) (table : list byte) (fuel : nat) (visited : gset Z) (current : Z)
    : exec StoreError Z :=
  match fuel with
  | O => Err (TailCycle table)
  | S fuel =>
      match pages !! current with
      | None => Err (PageError (StoragePageMissing current))
      | Some d =>
          if bool_decide (current ∈ visited) then Err (TailCycle table)
          else
            let? slotted := ref_new d in
            let next := next_page_id (header slotted) in
            if next =? 0 then Ok current else terminal_page pages table fuel ({[current]} ∪ visited) next
      end
  end.

Definition heal_stale_tail (tail : Z) : sm Z := fun d =>
  let pages := pool_pages (db_pool d) in
  match terminal_page pages (table_name (db_table d)) (S (size pages)) ∅ tail with
  | Ok terminal =>
      if terminal =? tail then Some (Ok tail, d)
      else Some (Ok terminal, with_catalog_tail (wrap32 terminal) (with_table (set_tail (db_table d) terminal) d))
  | Err e => Some (Err e, d)
  | Panic => Some (Panic, d)
  end.

(** [TableManager::write_tuple]. *)
Definition tm_write_tuple (vh : VersionHeader.vheader) (bytes : list byte) : sm RowId :=
  let* t := s_table in
  let* old_tail := heal_stale_tail (page_tail t) in
  let* row_id := s_write_tuple vh bytes in
  let* _ := if page_id row_id =? old_tail then s_ret tt
            else s_modify (with_catalog_tail (page_id row_id)) in
  s_ret row_id.

(** ** Gates *)

Definition type_fits (v : Value) (c : ColumnType) : bool :=
  match v, c with
  | VNull, _ | VInt _, CInt | VString _, CString _ | VFloat _, CFloat | VBool _, CBool
  | VDate _, CDate | VTimestamp _, CTimestamp => true
  | _, _ => false
  end.

Fixpoint coerce_row (schema : list ColumnType) (row : Row) : exec StoreError Row :=
  match row, schema with
  | v :: row, c :: schema =>
      let? v := exec_map_err BadDateTime (coerce_datetime_write v c) in
      let? row := coerce_row schema row in
      Ok (v :: row)
  | _, _ => Ok []
  end.

(** Integers of FLOAT columns become floats. *)
Definition widen (c : ColumnType) (v : Value) : Value :=
  match c, v with CFloat, VInt n => VFloat (f64_of_int n) | _, _ => v end.

Fixpoint widen_row (schema : list ColumnType) (row : Row) : Row :=
  match row, schema with
  | v :: row, c :: schema => widen c v :: widen_row schema row
  | row, _ => row
  end.

Definition column_name (t : TableMeta) (i : nat) : sm (list byte) :=
  let* c := at_index (columns t) i in s_ret c.1.

Fixpoint check_not_null (t : TableMeta) (i : nat) (row : Row) : sm unit :=
  match row with
  | [] => s_ret tt
  | v :: row =>
      let* required := at_index (not_null t) i in
      if (required : bool) && is_null v then
        let* name := column_name t i in s_fail (NullConstraintViolation name)
      else check_not_null t (S i) row
  end.

Definition int_key (v : Value) : bool := match v with VInt _ | VNull => true | _ => false end.

(** A key column declared INT takes integers and NULL. *)
Definition check_key_type (t : TableMeta) (v : Value) : sm unit :=
  let* c := at_index (table_schema t) (pk_index t) in
  match c with
  | CInt => if int_key v then s_ret tt else s_fail (KeyTypeMismatch (pk_column t) v)
  | _ => s_ret tt
  end.

Fixpoint check_types (t : TableMeta) (i : nat) (row : Row) : sm unit :=
  match row with
  | [] => s_ret tt
  | v :: row =>
      let* c := at_index (table_schema t) i in
      if type_fits v c then check_types t (S i) row
      else let* name := column_name t i in s_fail (ColumnTypeMismatch name c v)
  end.

(** [UpsertExecutor::prepare_row], and the same gates of [InsertExecutor::next]. *)
Definition prepare_row (row : Row) : sm Row :=
  let* t := s_table in
  let* coerced := s_lift (coerce_row (table_schema t) row) in
  let coerced := widen_row (table_schema t) coerced in
  let* _ := check_not_null t 0 coerced in
  let* pk := at_index coerced (pk_index t) in
  let* _ := check_key_type t pk in
  s_ret coerced.

Section statements.
Context {rt : Runtime} (fuel : nat).

Definition s_search (r : IndexRef) (key : list byte) : sm (option RowId) :=
  index_read r (fun im => im_search fuel im key).
Definition s_insert_key (r : IndexRef) (key : list byte) (row_id : RowId) : sm unit :=
  index_write r (fun im => im_insert fuel im key row_id).
Definition s_delete_key (r : IndexRef) (key : list byte) : sm unit :=
  index_write r (fun im => im_delete fuel im key).
Definition s_delete_exact (r : IndexRef) (key : list byte) (row_id : RowId) : sm unit :=
  index_write r (fun im => im_delete_exact fuel im key row_id).
Definition s_update_key (r : IndexRef) (key : list byte) (row_id : RowId) : sm unit :=
  index_write r (fun im => im_update fuel im key row_id).

Definition reject_duplicate (r : IndexRef) (key : list byte) : sm unit :=
  let* found := s_search r key in
  match found with Some _ => s_fail DuplicateKey | None => s_ret tt end.

(** ** Insertion *)

Fixpoint check_uniques (t : TableMeta) (pos : nat) (uniques : list (nat * IndexManager)) (row : Row) : sm unit :=
  match uniques with
  | [] => s_ret tt
  | (col, _) :: uniques =>
      let* v := at_index row col in
      let* _ :=
        if is_null v then s_ret tt
        else match to_key v with
             | None => let* name := column_name t col in s_fail (KeyTypeMismatch name v)
             | Some key => reject_duplicate (UniqueIndex pos) (key_as_bytes key)
             end in
      check_uniques t (S pos) uniques row
  end.

Fixpoint insert_uniques (pos : nat) (uniques : list (nat * IndexManager)) (row : Row) (row_id : RowId) : sm unit :=
  match uniques with
  | [] => s_ret tt
  | (col, _) :: uniques =>
      let* v := at_index row col in
      let* _ := match to_key v with
                | Some key => s_insert_key (UniqueIndex pos) (key_as_bytes key) row_id
                | None => s_ret tt
                end in
      insert_uniques (S pos) uniques row row_id
  end.

Fixpoint insert_secondaries (schema : list ColumnType) (pos : nat) (secondaries : list SecondaryIndexMeta) (row : Row)
    (row_id : RowId) : sm unit :=
  match secondaries with
  | [] => s_ret tt
  | s :: secondaries =>
      let* _ := match derive_key s schema row with
                | Some key => s_insert_key (SecondaryIndex pos) (key_as_bytes key) row_id
                | None => s_ret tt
                end in
      insert_secondaries schema (S pos) secondaries row row_id
  end.

(** [serialize_tuple] into a buffer of [compute_tuple_size] bytes. *)
Definition tuple_bytes (schema : list ColumnType) (row : Row) : exec StoreError (list byte) :=
  let? size := exec_map_err DataScan.never (compute_tuple_size row schema) in
  let? (buf, _) := exec_map_err TupleFailed (serialize_tuple row schema (replicate (Z.to_nat size) Byte.x00)) in
  Ok buf.

Definition insert_gates (row : Row) : sm (list byte) :=
  let* t := s_table in
  let* pk := at_index row (pk_index t) in
  let* _ := match to_key pk with Some key => reject_duplicate PkIndex (key_as_bytes key) | None => s_ret tt end in
  let* _ := check_uniques t 0 (unique_indexes t) row in
  let* _ := check_types t 0 row in
  s_lift (tuple_bytes (table_schema t) row).

Definition insert_write (tx : Z) (row : Row) (buf : list byte) : sm unit :=
  let* t := s_table in
  let* row_id := tm_write_tuple (VersionHeader.vh_new tx None) buf in
  let* _ := s_clear_all_visible (page_id row_id) in
  let* _ := s_visible_on_insert (page_id row_id) tx in
  let* _ := s_log (WInsert tx (table_name t) row_id buf) in
  let* _ := s_record_version tx row_id in
  let* pk := at_index row (pk_index t) in
  let* _ := match to_key pk with Some key => s_insert_key PkIndex (key_as_bytes key) row_id | None => s_ret tt end in
  let* _ := insert_uniques 0 (unique_indexes t) row row_id in
  insert_secondaries (table_schema t) 0 (secondary_indexes t) row row_id.

(** [UpsertExecutor::insert_row], and the rest of the loop of
    [InsertExecutor::next]: what may reject the row, then the writes. *)
Definition insert_row (tx : Z) (row : Row) : sm unit :=
  let* buf := insert_gates row in insert_write tx row buf.

Fixpoint insert_rows (tx : Z) (values : list Row) (count : Z) : sm Z :=
  match values with
  | [] => s_ret count
  | row :: values =>
      let* row := prepare_row row in
      let* _ := insert_row tx row in
      insert_rows tx values (count + 1)
  end.

Record InsertExecutor := mk_insert { insert_values : list Row; insert_tx : Z; insert_executed : bool }.

Definition insert_next (e : InsertExecutor) : sm (option ExecResult * InsertExecutor) :=
  if insert_executed e then s_ret (None, e)
  else
    let* count := insert_rows (insert_tx e) (insert_values e) 0 in
    s_ret (Some (ResAffectedRows count), mk_insert (insert_values e) (insert_tx e) true).

(** ** Deletion *)

(** An outcome with one error taken as a value. *)
Definition s_try {A} (m : sm A) : sm (A + StoreError) := fun d =>
  match m d with
  | Some (Ok a, d) => Some (Ok (inl a), d)
  | Some (Err e, d) => Some (Ok (inr e), d)
  | Some (Panic, d) => Some (Panic, d)
  | None => None
  end.

Definition is_slot_not_found (e : StoreError) : bool :=
  match e with PageError (SlotNotFound _) => true | _ => false end.

Definition s_ensure_readable : sm unit :=
  let* t := s_table in s_lift (ensure_readable (table_narrowing t)).

Definition s_read_row (bytes : list byte) : sm Row :=
  let* t := s_table in
  s_lift (exec_map_err TupleFailed (deserialize_row bytes (table_schema t) (column_defaults t))).

Fixpoint unique_keys (pos : nat) (uniques : list (nat * IndexManager)) (row : Row) : sm (list (IndexRef * list byte)) :=
  match uniques with
  | [] => s_ret []
  | (col, _) :: uniques =>
      let* v := at_index row col in
      let* keys := unique_keys (S pos) uniques row in
      s_ret match to_key v with Some key => (UniqueIndex pos, key_as_bytes key) :: keys | None => keys end
  end.

Fixpoint secondary_keys (schema : list ColumnType) (pos : nat) (secondaries : list SecondaryIndexMeta) (row : Row)
    : list (IndexRef * list byte) :=
  match secondaries with
  | [] => []
  | s :: secondaries =>
      let keys := secondary_keys schema (S pos) secondaries row in
      match derive_key s schema row with Some key => (SecondaryIndex pos, key_as_bytes key) :: keys | None => keys end
  end.

(** The row a deletion removes, decoded: [None] when its slot is gone. *)
Definition old_row (rid : RowId) : sm (option Row) :=
  let* read := s_try (s_read_tuple rid) in
  match read with
  | inl (_, bytes) =>
      let* _ := s_ensure_readable in
      let* row := s_read_row bytes in
      s_ret (Some row)
  | inr e => if is_slot_not_found e then s_ret None else s_fail e
  end.

(** The keys of a row in the unique and the secondary indexes. *)
Definition keys_of_row (row : option Row) : sm (list (IndexRef * list byte) * list (IndexRef * list byte)) :=
  match row with
  | None => s_ret ([], [])
  | Some row =>
      let* t := s_table in
      let* uniques := unique_keys 0 (unique_indexes t) row in
      s_ret (uniques, secondary_keys (table_schema t) 0 (secondary_indexes t) row)
  end.

Definition unique_keys_of_row (rid : RowId) : sm (list (IndexRef * list byte) * list (IndexRef * list byte)) :=
  let* t := s_table in
  match unique_indexes t, secondary_indexes t with
  | [], [] => s_ret ([], [])
  | _, _ => let* row := old_row rid in keys_of_row row
  end.

(** The tombstone of a row, written without its chain pointer. *)
Definition write_tombstone (tx : Z) (rid : RowId) : sm (option RowId) :=
  let* read := s_try (s_read_tuple rid) in
  match read with
  | inl _ =>
      let* written := s_write_tuple (VersionHeader.mark_deleted (VersionHeader.vh_new tx None)) [] in
      let* _ := s_clear_all_visible (page_id written) in
      let* _ := s_clear_all_visible (page_id rid) in
      s_ret (Some written)
  | inr e => if is_slot_not_found e then s_ret None else s_fail e
  end.

(** The chain pointer, once the version is recorded. *)
Definition link_tombstone (tx : Z) (tombstone : option RowId) (rid : RowId) : sm unit :=
  match tombstone with
  | None => s_ret tt
  | Some tombstone =>
      let* vh := s_lift (exec_map_err DataScan.never (VersionHeader.with_next_version (VersionHeader.vh_new tx None) rid)) in
      s_update_header tombstone (VersionHeader.mark_deleted vh)
  end.

Fixpoint delete_keys (keys : list (IndexRef * list byte)) : sm unit :=
  match keys with
  | [] => s_ret tt
  | (r, key) :: keys => let* _ := s_delete_key r key in delete_keys keys
  end.

Fixpoint delete_exact_keys (keys : list (IndexRef * list byte)) (rid : RowId) : sm unit :=
  match keys with
  | [] => s_ret tt
  | (r, key) :: keys => let* _ := s_delete_exact r key rid in delete_exact_keys keys rid
  end.

Definition delete_row (tx : Z) (key : list byte) : sm Z :=
  let* found := s_search PkIndex key in
  match found with
  | None => s_ret 0
  | Some rid =>
      let* (uniques, secondaries) := unique_keys_of_row rid in
      let* tombstone := write_tombstone tx rid in
      let* _ := s_record_version tx (default rid tombstone) in
      let* _ := link_tombstone tx tombstone rid in
      let* _ := s_delete_key PkIndex key in
      let* _ := delete_keys uniques in
      let* _ := delete_exact_keys secondaries rid in
      let* t := s_table in
      let* _ := s_log (WDelete tx (table_name t) rid) in
      s_ret 1
  end.

(** The keys of the table when the statement starts. *)
Definition all_keys : sm (list (list byte)) :=
  let* entries := index_read PkIndex (fun im => index_scan_all fuel (im_root im)) in
  s_ret entries.*1.

Fixpoint for_keys (f : list byte -> sm Z) (keys : list (list byte)) (affected : Z) : sm Z :=
  match keys with
  | [] => s_ret affected
  | key :: keys => let* n := f key in for_keys f keys (affected + n)
  end.

(** One key, or without a WHERE clause all keys. *)
Definition affect (f : list byte -> sm Z) (key : option (list byte)) : sm Z :=
  match key with
  | Some key => f key
  | None => let* keys := all_keys in for_keys f keys 0
  end.

Record DeleteExecutor := mk_delete { delete_key : option (list byte); delete_tx : Z; delete_executed : bool }.

Definition delete_next (e : DeleteExecutor) : sm (option ExecResult * DeleteExecutor) :=
  if delete_executed e then s_ret (None, e)
  else
    let* affected := affect (delete_row (delete_tx e)) (delete_key e) in
    s_ret (Some (ResAffectedRows affected), mk_delete None (delete_tx e) true).

(** ** Update *)

Inductive UpdateValue := UpdateLiteral (v : Value) | UpdateExpression (e : Expr).
Record UpdateAssignment := mk_assignment { assign_column : list byte; assign_value : UpdateValue }.

Definition column_position (t : TableMeta) (name : list byte) : option nat :=
  fst <$> list_find (fun c => c.1 = name) (columns t).

(** The right-hand sides, all on the old row. *)
Fixpoint resolve_assignments (t : TableMeta) (old : Row) (assignments : list UpdateAssignment) : sm (list (nat * Value)) :=
  match assignments with
  | [] => s_ret []
  | a :: assignments =>
      match column_position t (assign_column a) with
      | None => s_fail (ColumnNotFound (assign_column a))
      | Some col =>
          let* raw :=
            match assign_value a with
            | UpdateLiteral v => s_ret v
            | UpdateExpression e => s_lift (exec_map_err (fun _ => AssignmentFailed) (evaluate rt e old))
            end in
          let* rest := resolve_assignments t old assignments in
          s_ret ((col, raw) :: rest)
      end
  end.

(** The gate of a key column, with the search that rejects a new key in use. *)
Definition check_rekey (t : TableMeta) (key : list byte) (col : nat) (raw : Value) : sm unit :=
  let* c := at_index (columns t) col in
  if bool_decide (c.1 = pk_column t) then
    if (match c.2 with CInt => negb (int_key raw) | _ => false end) then s_fail (KeyTypeMismatch (pk_column t) raw)
    else
      match to_key raw with
      | None => s_ret tt
      | Some new_key =>
          if bool_decide (key_as_bytes new_key = key) then s_ret tt
          else reject_duplicate PkIndex (key_as_bytes new_key)
      end
  else s_ret tt.

Fixpoint assignment_gates (t : TableMeta) (key : list byte) (resolved : list (nat * Value)) : sm (list (nat * Value)) :=
  match resolved with
  | [] => s_ret []
  | (col, raw) :: resolved =>
      let* c := at_index (columns t) col in
      let* required := if is_null raw then at_index (not_null t) col else s_ret false in
      if (required : bool) then s_fail (NullConstraintViolation c.1)
      else
        let* _ := check_rekey t key col raw in
        let* raw := s_lift (exec_map_err BadDateTime (coerce_datetime_write raw c.2)) in
        let* rest := assignment_gates t key resolved in
        s_ret ((col, raw) :: rest)
  end.

Definition set_at (row : Row) (i : nat) (v : Value) : sm Row :=
  if (i <? length row)%nat then s_ret (<[i := v]> row) else s_lift Panic.

Definition add_once (i : nat) (l : list nat) : list nat := if bool_decide (i ∈ l) then l else l ++ [i].

Fixpoint assign_all (resolved : list (nat * Value)) (row : Row) (assigned : list nat) : sm (Row * list nat) :=
  match resolved with
  | [] => s_ret (row, assigned)
  | (col, v) :: resolved => let* row := set_at row col v in assign_all resolved row (add_once col assigned)
  end.

Fixpoint values_at (row : Row) (cols : list nat) : sm (list Value) :=
  match cols with
  | [] => s_ret []
  | i :: cols => let* v := at_index row i in let* vs := values_at row cols in s_ret (v :: vs)
  end.

(** A unique column that changes to a value in use. *)
Fixpoint check_unique_changes (t : TableMeta) (pos : nat) (uniques : list (nat * IndexManager)) (old : list Value) (row : Row)
    : sm unit :=
  match uniques, old with
  | (col, _) :: uniques, old_v :: old =>
      let* new_v := at_index row col in
      let* _ :=
        if value_partial_eq old_v new_v || is_null new_v then s_ret tt
        else match to_key new_v with
             | None => let* name := column_name t col in s_fail (KeyTypeMismatch name new_v)
             | Some key => reject_duplicate (UniqueIndex pos) (key_as_bytes key)
             end in
      check_unique_changes t (S pos) uniques old row
  | _, _ => s_ret tt
  end.

(** The assigned columns take values of their types; integers of FLOAT columns
    become floats. *)
Fixpoint type_assigned (t : TableMeta) (cols : list nat) (row : Row) : sm Row :=
  match cols with
  | [] => s_ret row
  | i :: cols =>
      let* v := at_index row i in
      let* c := at_index (table_schema t) i in
      let v' := widen c v in
      if type_fits v' c then let* row := set_at row i v' in type_assigned t cols row
      else let* name := column_name t i in s_fail (ColumnTypeMismatch name c v)
  end.

(** The entry of the primary index follows the row. *)
Definition move_pk (key : list byte) (new_key : option (option Key)) (new_row_id : RowId) : sm unit :=
  match new_key with
  | None => s_update_key PkIndex key new_row_id
  | Some None => s_delete_key PkIndex key
  | Some (Some k) =>
      if bool_decide (key_as_bytes k = key) then s_update_key PkIndex key new_row_id
      else
        let* _ := s_delete_key PkIndex key in
        s_insert_key PkIndex (key_as_bytes k) new_row_id
  end.

Definition on_key (k : option Key) (f : list byte -> sm unit) : sm unit :=
  match k with Some k => f (key_as_bytes k) | None => s_ret tt end.

Fixpoint move_uniques (pos : nat) (uniques : list (nat * IndexManager)) (old : list Value) (row : Row) (new_row_id : RowId)
    : sm unit :=
  match uniques, old with
  | (col, _) :: uniques, old_v :: old =>
      let* new_v := at_index row col in
      let r := UniqueIndex pos in
      let* _ :=
        if value_partial_eq old_v new_v then on_key (to_key new_v) (fun k => s_update_key r k new_row_id)
        else if is_null new_v then on_key (to_key old_v) (s_delete_key r)
        else
          let* _ := on_key (to_key old_v) (s_delete_key r) in
          on_key (to_key new_v) (fun k => s_insert_key r k new_row_id) in
      move_uniques (S pos) uniques old row new_row_id
  | _, _ => s_ret tt
  end.

Definition same_key (a b : option Key) : bool :=
  match a, b with Some a, Some b => key_eqb a b | None, None => true | _, _ => false end.

Fixpoint move_secondaries (schema : list ColumnType) (pos : nat) (secondaries : list SecondaryIndexMeta)
    (old_keys : list (option Key)) (row : Row) (old_row_id new_row_id : RowId) : sm unit :=
  match secondaries, old_keys with
  | s :: secondaries, old_key :: old_keys =>
      let new_key := derive_key s schema row in
      let r := SecondaryIndex pos in
      let* _ :=
        if same_key old_key new_key then
          on_key new_key (fun k =>
            let* _ := s_delete_exact r k old_row_id in s_insert_key r k new_row_id)
        else
          let* _ := on_key old_key (fun k => s_delete_exact r k old_row_id) in
          on_key new_key (fun k => s_insert_key r k new_row_id) in
      move_secondaries schema (S pos) secondaries old_keys row old_row_id new_row_id
  | _, _ => s_ret tt
  end.

(** The new version of a row: the tuple, its link to the old version, the summary
    of both pages, the log and the transaction. *)
Definition write_version (tx : Z) (old_row_id : RowId) (old_bytes buf : list byte) : sm RowId :=
  let* vh := s_lift (exec_map_err DataScan.never (VersionHeader.with_next_version (VersionHeader.vh_new tx None) old_row_id)) in
  let* new_row_id := s_write_tuple vh buf in
  let* _ := s_clear_all_visible (page_id new_row_id) in
  let* _ := s_clear_all_visible (page_id old_row_id) in
  let* t := s_table in
  let* _ := s_log (WUpdate tx (table_name t) new_row_id old_bytes buf) in
  let* _ := s_record_version tx new_row_id in
  s_ret new_row_id.

(** What the gates of an update hand to its writes. *)
Record UpdatePlan := mk_update_plan {
  up_row : Row;
  up_assigned : list nat;
  up_bytes : list byte;
  up_old_uniques : list Value;
  up_old_secondaries : list (option Key) }.

Definition update_gates (key : list byte) (assignments : list UpdateAssignment) (old_bytes : list byte) : sm UpdatePlan :=
  let* t := s_table in
  let* old := s_read_row old_bytes in
  let* resolved := resolve_assignments t old assignments in
  let* resolved := assignment_gates t key resolved in
  let* old_uniques := values_at old (unique_indexes t).*1 in
  let old_secondaries := (fun s => derive_key s (table_schema t) old) <$> secondary_indexes t in
  let* (row, assigned) := assign_all resolved old [] in
  let* _ := check_unique_changes t 0 (unique_indexes t) old_uniques row in
  let* row := type_assigned t assigned row in
  let* buf := s_lift (tuple_bytes (table_schema t) row) in
  s_ret (mk_update_plan row assigned buf old_uniques old_secondaries).

(** The new key of the row when its key column is assigned. *)
Definition assigned_key (t : TableMeta) (assigned : list nat) (row : Row) : sm (option (option Key)) :=
  match column_position t (pk_column t) with
  | Some i =>
      if bool_decide (i ∈ assigned) then let* v := at_index row i in s_ret (Some (to_key v)) else s_ret None
  | None => s_ret None
  end.

Definition update_writes (tx : Z) (key : list byte) (old_row_id : RowId) (old_bytes : list byte) (p : UpdatePlan) : sm unit :=
  let* t := s_table in
  let* new_row_id := write_version tx old_row_id old_bytes (up_bytes p) in
  let* new_key := assigned_key t (up_assigned p) (up_row p) in
  let* _ := move_pk key new_key new_row_id in
  let* _ := move_uniques 0 (unique_indexes t) (up_old_uniques p) (up_row p) new_row_id in
  move_secondaries (table_schema t) 0 (secondary_indexes t) (up_old_secondaries p) (up_row p) old_row_id new_row_id.

Definition update_row (tx : Z) (assignments : list UpdateAssignment) (key : list byte) : sm Z :=
  let* found := s_search PkIndex key in
  match found with
  | None => s_fail RowKeyNotFound
  | Some old_row_id =>
      let* _ := s_ensure_readable in
      let* (_, old_bytes) := s_read_tuple old_row_id in
      let* p := update_gates key assignments old_bytes in
      let* _ := update_writes tx key old_row_id old_bytes p in
      s_ret 1
  end.

Record UpdateExecutor := mk_update {
  update_key : option (list byte); update_assignments : list UpdateAssignment; update_tx : Z; update_executed : bool }.

Definition update_next (e : UpdateExecutor) : sm (option ExecResult * UpdateExecutor) :=
  if update_executed e then s_ret (None, e)
  else
    let* affected := affect (update_row (update_tx e) (update_assignments e)) (update_key e) in
    s_ret (Some (ResAffectedRows affected), mk_update None (update_assignments e) (update_tx e) true).

(** ** Upsert *)

Inductive ConflictArbiter := ArbiterAll | ArbiterColumn (i : nat).
Inductive UpsertValueExpr :=
| UpsertLiteral (v : Value) | UpsertExcluded (i : nat) | UpsertOld (i : nat) | UpsertParam (i : nat).
Record UpsertAssignment := mk_upsert_assignment { up_column : nat; up_expr : UpsertValueExpr }.
Inductive ConflictAction := DoNothing | DoUpdate (assignments : list UpsertAssignment) | Replace.

Fixpoint unique_hits (t : TableMeta) (pos : nat) (uniques : list (nat * IndexManager)) (row : Row) (hits : list RowId)
    : sm (list RowId) :=
  match uniques with
  | [] => s_ret hits
  | (col, _) :: uniques =>
      let* v := at_index row col in
      let* found :=
        if is_null v then s_ret None
        else match to_key v with
             | None => let* name := column_name t col in s_fail (KeyTypeMismatch name v)
             | Some key => s_search (UniqueIndex pos) (key_as_bytes key)
             end in
      unique_hits t (S pos) uniques row (hits ++ option_list found)
  end.

Definition pk_hit (t : TableMeta) (row : Row) : sm (option RowId) :=
  let* v := at_index row (pk_index t) in
  match to_key v with Some key => s_search PkIndex (key_as_bytes key) | None => s_ret None end.

Definition arbitrate (arbiter : ConflictArbiter) (row : Row) : sm (list RowId) :=
  let* t := s_table in
  match arbiter with
  | ArbiterAll =>
      let* hit := pk_hit t row in
      unique_hits t 0 (unique_indexes t) row (option_list hit)
  | ArbiterColumn i =>
      if bool_decide (i = pk_index t) then let* hit := pk_hit t row in s_ret (option_list hit)
      else
        match list_find (fun u => u.1 = i) (unique_indexes t) with
        | None => let* name := column_name t i in s_fail (NoUniqueIndex name)
        | Some (pos, _) =>
            let* v := at_index row i in
            if is_null v then s_ret []
            else match to_key v with
                 | None => let* name := column_name t i in s_fail (KeyTypeMismatch name v)
                 | Some key => let* hit := s_search (UniqueIndex pos) (key_as_bytes key) in s_ret (option_list hit)
                 end
        end
  end.

Definition upsert_value (inserted old : Row) (e : UpsertValueExpr) : sm Value :=
  match e with
  | UpsertLiteral v => s_ret v
  | UpsertExcluded i => at_index inserted i
  | UpsertOld i => at_index old i
  | UpsertParam i => s_fail (UnmaterializedParameter i)
  end.

Fixpoint upsert_assign (t : TableMeta) (inserted old : Row) (assignments : list UpsertAssignment) (row : Row) (touched : list nat)
    : sm (Row * list nat) :=
  match assignments with
  | [] => s_ret (row, touched)
  | a :: assignments =>
      let* raw := upsert_value inserted old (up_expr a) in
      let* c := at_index (table_schema t) (up_column a) in
      let* v := s_lift (exec_map_err BadDateTime (coerce_datetime_write raw c)) in
      let* row := set_at row (up_column a) v in
      upsert_assign t inserted old assignments row (add_once (up_column a) touched)
  end.

Fixpoint touched_not_null (t : TableMeta) (touched : list nat) (row : Row) : sm unit :=
  match touched with
  | [] => s_ret tt
  | i :: touched =>
      let* required := at_index (not_null t) i in
      let* v := at_index row i in
      if (required : bool) && is_null v then let* name := column_name t i in s_fail (NullConstraintViolation name)
      else touched_not_null t touched row
  end.

Definition unchanged_key (old_key : option Key) (new_key : Key) : bool :=
  match old_key with Some k => bool_decide (key_as_bytes k = key_as_bytes new_key) | None => false end.

Definition upsert_rekey (t : TableMeta) (touched : list nat) (old_key : option Key) (row : Row) : sm unit :=
  if bool_decide (pk_index t ∈ touched) then
    let* v := at_index row (pk_index t) in
    let* _ := check_key_type t v in
    match to_key v with
    | None => s_ret tt
    | Some new_key =>
        if unchanged_key old_key new_key then s_ret tt else reject_duplicate PkIndex (key_as_bytes new_key)
    end
  else s_ret tt.

Definition upsert_move_pk (t : TableMeta) (touched : list nat) (old_key : option Key) (row : Row) (new_row_id : RowId) : sm unit :=
  if bool_decide (pk_index t ∈ touched) then
    let* v := at_index row (pk_index t) in
    match to_key v with
    | None => on_key old_key (s_delete_key PkIndex)
    | Some new_key =>
        if unchanged_key old_key new_key then s_update_key PkIndex (key_as_bytes new_key) new_row_id
        else
          let* _ := on_key old_key (s_delete_key PkIndex) in
          s_insert_key PkIndex (key_as_bytes new_key) new_row_id
    end
  else on_key old_key (fun k => s_update_key PkIndex k new_row_id).

Definition upsert_gates (inserted : Row) (assignments : list UpsertAssignment) (old_bytes : list byte)
    : sm (UpdatePlan * option Key) :=
  let* t := s_table in
  let* _ := s_ensure_readable in
  let* old := s_read_row old_bytes in
  let* old_uniques := values_at old (unique_indexes t).*1 in
  let old_secondaries := (fun s => derive_key s (table_schema t) old) <$> secondary_indexes t in
  let* (row, touched) := upsert_assign t inserted old assignments old [] in
  let* _ := touched_not_null t touched row in
  let* old_pk := at_index old (pk_index t) in
  let* _ := upsert_rekey t touched (to_key old_pk) row in
  let* _ := check_unique_changes t 0 (unique_indexes t) old_uniques row in
  let* row := type_assigned t touched row in
  let* buf := s_lift (tuple_bytes (table_schema t) row) in
  s_ret (mk_update_plan row touched buf old_uniques old_secondaries, to_key old_pk).

Definition apply_do_update (tx : Z) (inserted : Row) (assignments : list UpsertAssignment) (conflict : RowId) : sm unit :=
  let* (_, old_bytes) := s_read_tuple conflict in
  let* (p, old_key) := upsert_gates inserted assignments old_bytes in
  let* t := s_table in
  let* new_row_id := write_version tx conflict old_bytes (up_bytes p) in
  let* _ := upsert_move_pk t (up_assigned p) old_key (up_row p) new_row_id in
  let* _ := move_uniques 0 (unique_indexes t) (up_old_uniques p) (up_row p) new_row_id in
  move_secondaries (table_schema t) 0 (secondary_indexes t) (up_old_secondaries p) (up_row p) conflict new_row_id.

(** The primary key entry of a row that REPLACE deletes; when its tuple cannot be
    read, the key that hit, if it still leads to the row. *)
Definition delete_conflict_key (t : TableMeta) (old : option Row) (rid : RowId) (hit_pk_key : option (list byte)) : sm unit :=
  match old, hit_pk_key with
  | Some row, _ =>
      let* v := at_index row (pk_index t) in
      on_key (to_key v) (s_delete_key PkIndex)
  | None, Some key =>
      let* found := s_search PkIndex key in
      if bool_decide (found = Some rid) then s_delete_key PkIndex key else s_ret tt
  | None, None => s_ret tt
  end.

Definition delete_conflict_row (tx : Z) (rid : RowId) (hit_pk_key : option (list byte)) : sm unit :=
  let* t := s_table in
  let* old := old_row rid in
  let* (uniques, secondaries) := keys_of_row old in
  let* tombstone := write_tombstone tx rid in
  let* _ :=
    match tombstone, old with
    | Some r, _ => s_record_version tx r
    | None, Some _ => s_record_version tx rid
    | None, None => s_ret tt
    end in
  let* _ := link_tombstone tx tombstone rid in
  let* _ := delete_conflict_key t old rid hit_pk_key in
  let* _ := delete_keys uniques in
  let* _ := delete_exact_keys secondaries rid in
  s_log (WDelete tx (table_name t) rid).

Fixpoint delete_conflicts (tx : Z) (rids : list RowId) (hit_pk_key : option (list byte)) : sm unit :=
  match rids with
  | [] => s_ret tt
  | rid :: rids => let* _ := delete_conflict_row tx rid hit_pk_key in delete_conflicts tx rids hit_pk_key
  end.

(** First occurrences, in order. *)
Fixpoint dedup (seen rids : list RowId) : list RowId :=
  match rids with
  | [] => seen
  | rid :: rids => dedup (if bool_decide (rid ∈ seen) then seen else seen ++ [rid]) rids
  end.

(** One row: how many rows it affects. *)
Definition upsert_row (tx : Z) (arbiter : ConflictArbiter) (action : ConflictAction) (row : Row) : sm Z :=
  let* prepared := prepare_row row in
  let* conflicts := arbitrate arbiter prepared in
  match conflicts, action with
  | _ :: _, DoNothing => s_ret 0
  | conflict :: _, DoUpdate assignments =>
      let* _ := apply_do_update tx prepared assignments conflict in s_ret 1
  | _ :: _, Replace =>
      let* t := s_table in
      let* v := at_index prepared (pk_index t) in
      let* _ := delete_conflicts tx (dedup [] conflicts) (key_as_bytes <$> to_key v) in
      let* _ := insert_row tx prepared in s_ret 1
  | [], _ => let* _ := insert_row tx prepared in s_ret 1
  end.

Fixpoint upsert_rows (tx : Z) (arbiter : ConflictArbiter) (action : ConflictAction) (values : list Row) (count : Z) : sm Z :=
  match values with
  | [] => s_ret count
  | row :: values => let* n := upsert_row tx arbiter action row in upsert_rows tx arbiter action values (count + n)
  end.

Record UpsertExecutor := mk_upsert {
  upsert_arbiter : ConflictArbiter; upsert_action : ConflictAction; upsert_values : list Row; upsert_tx : Z;
  upsert_executed : bool }.

Definition upsert_next (e : UpsertExecutor) : sm (option ExecResult * UpsertExecutor) :=
  if upsert_executed e then s_ret (None, e)
  else
    let* count := upsert_rows (upsert_tx e) (upsert_arbiter e) (upsert_action e) (upsert_values e) 0 in
    s_ret (Some (ResAffectedRows count),
      mk_upsert (upsert_arbiter e) (upsert_action e) (upsert_values e) (upsert_tx e) true).

End statements.

(** ** What only reads *)

Definition bt_keeps {A} (m : bt A) : Prop := forall P r P', m P = Some (r, P') -> P' = P.
Definition keeps {A} (m : sm A) : Prop := forall d r d', m d = Some (r, d') -> d' = d.
Create HintDb keeps discriminated.

Lemma bt_keeps_bind {A B} (m : bt A) (k : A -> bt B) : bt_keeps m -> (forall a, bt_keeps (k a)) -> bt_keeps (bt_bind m k).
Proof.
  intros Hm Hk P r P' E. unfold bt_bind in E. destruct (m P) as [[[a| |] P1]|] eqn:Em; try done;
    pose proof (Hm _ _ _ Em) as ->; [by apply (Hk a P r P')|by injection E as <- <-..].
Qed.

Lemma bt_keeps_lift {A} (m : exec BtError A) : bt_keeps (bt_lift m).
Proof. by intros P r P' [= <- <-]. Qed.

Lemma bt_keeps_load pid : bt_keeps (load_page pid).
Proof. intros P r P'. unfold load_page. by case_match; intros [= <- <-]. Qed.

Ltac bt_keep :=
  repeat match goal with
  | |- bt_keeps (bt_bind _ _) => apply bt_keeps_bind; [|intros ?]
  | |- bt_keeps (match ?x with _ => _ end) => destruct x
  | |- bt_keeps (bt_lift _) => apply bt_keeps_lift
  | |- bt_keeps (load_page _) => apply bt_keeps_load
  end.

Lemma search_keeps fuel im key : bt_keeps (im_search fuel im key).
Proof.
  unfold im_search, search. unfold bt_key. bt_keep. generalize (im_root im) at 2. revert a. induction fuel as [|fuel IH]; intros k pid; [done|].
  cbn [search_from_page]. unfold load_intact. bt_keep; try by intros P r P' [= <- <-]. apply IH.
Qed.

Lemma walk_keeps {A} (out : SlottedPageRef -> exec BtError (list A)) kids fuel root stack visited results :
  bt_keeps (walk out kids fuel root stack visited results).
Proof.
  revert stack visited results. induction fuel as [|fuel IH]; intros [|pid stack] visited results; cbn [walk]; try done.
  1, 2: by intros P r P' [= <- <-].
  unfold load_intact. bt_keep; try apply IH; by intros P r P' [= <- <-].
Qed.

Lemma keeps_ret {A} (a : A) : keeps (s_ret a).
Proof. by intros d r d' [= <- <-]. Qed.
Lemma keeps_lift {A} (m : exec StoreError A) : keeps (s_lift m).
Proof. by intros d r d' [= <- <-]. Qed.
Lemma keeps_fail {A} e : keeps (@s_fail A e).
Proof. apply keeps_lift. Qed.
Lemma keeps_table : keeps s_table.
Proof. by intros d r d' [= <- <-]. Qed.
Lemma keeps_at {A} (l : list A) i : keeps (at_index l i).
Proof. unfold at_index. destruct (l !! i); [apply keeps_ret|apply keeps_lift]. Qed.
Lemma keeps_read r : keeps (s_read_tuple r).
Proof. by intros d x d' [= <- <-]. Qed.

Lemma keeps_bind {A B} (m : sm A) (k : A -> sm B) : keeps m -> (forall a, keeps (k a)) -> keeps (s_bind m k).
Proof.
  intros Hm Hk d r d' E. unfold s_bind in E. destruct (m d) as [[[a| |] d1]|] eqn:Em; try done;
    pose proof (Hm _ _ _ Em) as ->; [by apply (Hk a d r d')|by injection E as <- <-..].
Qed.

Lemma keeps_index {A} ref (f : IndexManager -> bt A) : (forall im, bt_keeps (f im)) -> keeps (index_read ref f).
Proof.
  intros H d r d' E. unfold index_read in E. destruct (get_index _ _) as [im|]; [|by injection E as <- <-].
  destruct (f im (db_pool d)) as [[x P]|] eqn:Ef; [|done]. cbn in E. injection E as _ <-.
  rewrite (H im _ _ _ Ef). by destruct d.
Qed.

Lemma keeps_search fuel ref key : keeps (s_search fuel ref key).
Proof. apply keeps_index. intros im. apply search_keeps. Qed.
#[export] Hint Resolve keeps_ret keeps_lift keeps_fail keeps_table keeps_at keeps_read keeps_search : keeps.

Ltac keep :=
  repeat match goal with
  | |- keeps (s_bind _ _) => apply keeps_bind; [|intros ?]
  | |- keeps (match ?x with _ => _ end) => destruct x
  end; auto with keeps.

Lemma keeps_duplicate fuel ref key : keeps (reject_duplicate fuel ref key).
Proof. unfold reject_duplicate. keep. Qed.
Lemma keeps_name t i : keeps (column_name t i).
Proof. unfold column_name. keep. Qed.
Lemma keeps_set_at row i v : keeps (set_at row i v).
Proof. unfold set_at. keep. Qed.
Lemma keeps_key_type t v : keeps (check_key_type t v).
Proof. unfold check_key_type. keep. Qed.
Lemma keeps_read_row bytes : keeps (s_read_row bytes).
Proof. unfold s_read_row. keep. Qed.
Lemma keeps_readable : keeps s_ensure_readable.
Proof. unfold s_ensure_readable. keep. Qed.
#[export] Hint Resolve keeps_duplicate keeps_name keeps_set_at keeps_key_type keeps_read_row keeps_readable : keeps.

Lemma keeps_not_null t i row : keeps (check_not_null t i row).
Proof. revert i. induction row as [|v row IH]; intros i; cbn [check_not_null]; keep. Qed.
Lemma keeps_types t i row : keeps (check_types t i row).
Proof. revert i. induction row as [|v row IH]; intros i; cbn [check_types]; keep. Qed.
Lemma keeps_uniques fuel t pos us row : keeps (check_uniques fuel t pos us row).
Proof. revert pos. induction us as [|[c im] us IH]; intros pos; cbn [check_uniques]; keep. Qed.
Lemma keeps_values row cols : keeps (values_at row cols).
Proof. induction cols as [|c cols IH]; cbn [values_at]; keep. Qed.
Lemma keeps_unique_changes fuel t pos us old row : keeps (check_unique_changes fuel t pos us old row).
Proof. revert pos old. induction us as [|[c im] us IH]; intros pos [|v old]; cbn [check_unique_changes]; keep. Qed.
Lemma keeps_type_assigned t cols row : keeps (type_assigned t cols row).
Proof. revert row. induction cols as [|c cols IH]; intros row; cbn [type_assigned]; keep. Qed.
Lemma keeps_assign_all rs row assigned : keeps (assign_all rs row assigned).
Proof. revert row assigned. induction rs as [|[c v] rs IH]; intros row assigned; cbn [assign_all]; keep. Qed.
Lemma keeps_resolve {rt : Runtime} t old assignments : keeps (resolve_assignments t old assignments).
Proof. induction assignments as [|a assignments IH]; cbn [resolve_assignments]; keep. Qed.
Lemma keeps_rekey fuel t key col raw : keeps (check_rekey fuel t key col raw).
Proof. unfold check_rekey. keep. Qed.
#[export] Hint Resolve keeps_not_null keeps_types keeps_uniques keeps_values keeps_unique_changes keeps_type_assigned
  keeps_assign_all keeps_resolve keeps_rekey : keeps.
Lemma keeps_assignment_gates fuel t key rs : keeps (assignment_gates fuel t key rs).
Proof. induction rs as [|[c v] rs IH]; cbn [assignment_gates]; keep. Qed.
Lemma keeps_upsert_assign t inserted old assignments row touched : keeps (upsert_assign t inserted old assignments row touched).
Proof.
  revert row touched. induction assignments as [|a assignments IH]; intros row touched; cbn [upsert_assign]; unfold upsert_value; keep.
Qed.
Lemma keeps_touched t touched row : keeps (touched_not_null t touched row).
Proof. induction touched as [|i touched IH]; cbn [touched_not_null]; keep. Qed.
Lemma keeps_upsert_rekey fuel t touched k row : keeps (upsert_rekey fuel t touched k row).
Proof. unfold upsert_rekey. keep. Qed.
#[export] Hint Resolve keeps_assignment_gates keeps_upsert_assign keeps_touched keeps_upsert_rekey : keeps.

Lemma keeps_prepare row : keeps (prepare_row row).
Proof. unfold prepare_row. keep. Qed.
Lemma keeps_insert_gates fuel row : keeps (insert_gates fuel row).
Proof. unfold insert_gates. keep. Qed.
Lemma keeps_update_gates {rt : Runtime} fuel key assignments bytes : keeps (update_gates fuel key assignments bytes).
Proof. unfold update_gates. keep. Qed.
Lemma keeps_upsert_gates fuel inserted assignments bytes : keeps (upsert_gates fuel inserted assignments bytes).
Proof. unfold upsert_gates. keep. Qed.
Lemma keeps_hits fuel t pos us row hits : keeps (unique_hits fuel t pos us row hits).
Proof. revert pos hits. induction us as [|[c im] us IH]; intros pos hits; cbn [unique_hits]; keep. Qed.
#[export] Hint Resolve keeps_prepare keeps_insert_gates keeps_update_gates keeps_upsert_gates keeps_hits : keeps.
Lemma keeps_arbitrate fuel arbiter row : keeps (arbitrate fuel arbiter row).
Proof. unfold arbitrate, pk_hit. keep. Qed.
#[export] Hint Resolve keeps_arbitrate : keeps.

(** ** Rejection *)

(** The errors that say no to the values of a statement. *)
Definition constraint (e : StoreError) : bool :=
  match e with
  | PageError _ | IndexError _ | TupleFailed _ | ScanFailed _ | UnregisteredIndex _ | PredicateError | TailCycle _ => false
  | _ => true
  end.

(** Work that never says no, and work that leaves no trace when it does. *)
Definition willing {A} (m : sm A) : Prop := forall d e d', m d = Some (Err e, d') -> constraint e = false.
Definition rejects_cleanly {A} (m : sm A) : Prop :=
  forall d e d', constraint e = true -> m d = Some (Err e, d') -> d' = d.
Create HintDb willing discriminated.

Lemma keeps_clean {A} (m : sm A) : keeps m -> rejects_cleanly m.
Proof. intros H d e d' _ E. by eapply H. Qed.

Lemma willing_clean {A} (m : sm A) : willing m -> rejects_cleanly m.
Proof. intros H d e d' C E. by rewrite (H _ _ _ E) in C. Qed.

Lemma bind_clean {A B} (m : sm A) (k : A -> sm B) : keeps m -> (forall a, rejects_cleanly (k a)) -> rejects_cleanly (s_bind m k).
Proof.
  intros Hm Hk d e d' C E. unfold s_bind in E. destruct (m d) as [[[a| |] d1]|] eqn:Em; try done;
    pose proof (Hm _ _ _ Em) as ->; [by apply (Hk a d e d')|by injection E as <- <-].
Qed.

Lemma willing_bind {A B} (m : sm A) (k : A -> sm B) : willing m -> (forall a, willing (k a)) -> willing (s_bind m k).
Proof.
  intros Hm Hk d e d' E. unfold s_bind in E. destruct (m d) as [[[a|e1|] d1]|] eqn:Em; try done; [by eapply Hk|].
  injection E as <- <-. by eapply Hm.
Qed.

Lemma clean_bind {A B} (m : sm A) (k : A -> sm B) : rejects_cleanly m -> (forall a, willing (k a)) -> rejects_cleanly (s_bind m k).
Proof.
  intros Hm Hk d e d' C E. unfold s_bind in E. destruct (m d) as [[[a|e1|] d1]|] eqn:Em; try done.
  - by rewrite (Hk _ _ _ _ E) in C.
  - injection E as <- <-. by eapply Hm.
Qed.

Lemma willing_ret {A} (a : A) : willing (s_ret a).
Proof. done. Qed.
Lemma willing_table : willing s_table.
Proof. done. Qed.
Lemma willing_modify f : willing (s_modify f).
Proof. done. Qed.
Lemma willing_at {A} (l : list A) i : willing (at_index l i).
Proof. unfold at_index. by destruct (l !! i). Qed.
Lemma willing_never {A} (m : exec Empty_set A) : willing (s_lift (exec_map_err DataScan.never m)).
Proof. intros d e d'. unfold s_lift. by destruct m as [|[]|]. Qed.
Lemma willing_index ref f : willing (index_write ref f).
Proof. intros d e d'. unfold index_write. repeat case_match; try done. by intros [= <- <-]. Qed.
Lemma willing_write vh bytes : willing (s_write_tuple vh bytes).
Proof.
  intros d e d'. unfold s_write_tuple. destruct (write_tuple_to_data_page _ _ _ _) as [[[r|x|] p] t]; try done.
  by intros [= <- <-].
Qed.
Lemma willing_header r vh : willing (s_update_header r vh).
Proof. intros d e d'. unfold s_update_header. case_match; try done. by intros [= <- <-]. Qed.
Lemma willing_read r : willing (s_read_tuple r).
Proof. intros d e d'. unfold s_read_tuple. by destruct (read_tuple_from_data_page _ _) as [|x|]; try done; intros [= <- <-]. Qed.
#[export] Hint Resolve willing_ret willing_table willing_modify willing_at willing_never willing_index willing_write willing_header
  willing_read : willing.

(** Opening a page panics or succeeds. *)
Lemma ref_new_no_error {E} d (e : E) : ref_new d <> Err e.
Proof.
  assert (B : forall A B (m : exec E A) (k : A -> exec E B), (forall e, m <> Err e) -> (forall a e, k a <> Err e) ->
    forall e, exec_bind m k <> Err e).
  { intros A B m k Hm Hk x. destruct m as [a|y|]; cbn; [apply Hk|intros _; by apply (Hm y)|done]. }
  assert (S : forall (l : list byte) a b x, slice_get (E:=E) l a b <> Err x) by (intros; unfold slice_get; by case_match).
  assert (I : forall (l : list byte) i x, index_get (E:=E) l i <> Err x) by (intros; unfold index_get; by repeat case_match).
  unfold ref_new, header_deserialize. repeat first [progress intros | apply S | apply I | apply B | done].
Qed.

Lemma terminal_willing pages table fuel visited current e :
  terminal_page pages table fuel visited current = Err e -> constraint e = false.
Proof.
  revert visited current. induction fuel as [|fuel IH]; intros visited current; cbn [terminal_page]; [by intros [= <-]|].
  destruct (pages !! current) as [d|]; [|by intros [= <-]]. destruct (bool_decide _); [by intros [= <-]|].
  destruct (ref_new d) as [p|x|] eqn:R; cbn [exec_bind]; [|by apply ref_new_no_error in R|done].
  destruct (next_page_id (header p) =? 0); [done|]. apply IH.
Qed.

Lemma willing_heal tail : willing (heal_stale_tail tail).
Proof.
  intros d e d'. unfold heal_stale_tail. destruct (terminal_page _ _ _ _ _) as [t|x|] eqn:T; [by case_match| |done].
  intros [= <- <-]. by eapply terminal_willing.
Qed.
#[export] Hint Resolve willing_heal : willing.

Ltac will :=
  repeat match goal with
  | |- willing (s_bind _ _) => apply willing_bind; [|intros ?]
  | |- willing (match ?x with _ => _ end) => destruct x
  end; auto with willing.

Lemma willing_tm_write vh bytes : willing (tm_write_tuple vh bytes).
Proof. unfold tm_write_tuple. will. Qed.
#[export] Hint Resolve willing_tm_write : willing.
Lemma willing_insert_uniques fuel pos us row r : willing (insert_uniques fuel pos us row r).
Proof. revert pos. induction us as [|[c im] us IH]; intros pos; cbn [insert_uniques]; unfold s_insert_key; will. Qed.
Lemma willing_insert_secondaries fuel schema pos ss row r : willing (insert_secondaries fuel schema pos ss row r).
Proof. revert pos. induction ss as [|s ss IH]; intros pos; cbn [insert_secondaries]; unfold s_insert_key; will. Qed.
Lemma willing_move_uniques fuel pos us old row r : willing (move_uniques fuel pos us old row r).
Proof.
  revert pos old. induction us as [|[c im] us IH]; intros pos [|v old]; cbn [move_uniques];
    unfold on_key, s_insert_key, s_delete_key, s_update_key; will.
Qed.
Lemma willing_move_secondaries fuel schema pos ss olds row r1 r2 : willing (move_secondaries fuel schema pos ss olds row r1 r2).
Proof.
  revert pos olds. induction ss as [|s ss IH]; intros pos [|o olds]; cbn [move_secondaries];
    unfold on_key, s_insert_key, s_delete_exact; will.
Qed.
#[export] Hint Resolve willing_insert_uniques willing_insert_secondaries willing_move_uniques willing_move_secondaries : willing.
Lemma willing_insert_write fuel tx row buf : willing (insert_write fuel tx row buf).
Proof. unfold insert_write, s_insert_key, s_clear_all_visible, s_visible_on_insert, s_log, s_record_version. will. Qed.
Lemma willing_version tx rid old buf : willing (write_version tx rid old buf).
Proof. unfold write_version, s_clear_all_visible, s_log, s_record_version. will. Qed.
#[export] Hint Resolve willing_insert_write willing_version : willing.
Lemma willing_update_writes fuel tx key rid old p : willing (update_writes fuel tx key rid old p).
Proof. unfold update_writes, assigned_key, move_pk, s_update_key, s_delete_key, s_insert_key. will. Qed.
Lemma willing_upsert_pk fuel t touched k row r : willing (upsert_move_pk fuel t touched k row r).
Proof. unfold upsert_move_pk, on_key, s_update_key, s_delete_key, s_insert_key. will. Qed.
Lemma willing_delete_keys fuel ks : willing (delete_keys fuel ks).
Proof. induction ks as [|[r k] ks IH]; cbn [delete_keys]; unfold s_delete_key; will. Qed.
Lemma willing_exact_keys fuel ks r : willing (delete_exact_keys fuel ks r).
Proof. induction ks as [|[i k] ks IH]; cbn [delete_exact_keys]; unfold s_delete_exact; will. Qed.
Lemma willing_tombstone tx rid : willing (write_tombstone tx rid).
Proof.
  intros d e d'. unfold write_tombstone, s_bind, s_try, s_read_tuple.
  destruct (read_tuple_from_data_page _ _) as [x|x|]; cbn [exec_map_err]; [|by case_match; [|intros [= <- <-]]|done].
  pose proof willing_write as W. destruct (s_write_tuple _ _ d) as [[[w|y|] d1]|] eqn:E; try done.
  intros [= <- <-]. by eapply W.
Qed.
#[export] Hint Resolve willing_update_writes willing_upsert_pk willing_delete_keys willing_exact_keys willing_tombstone : willing.

Lemma keeps_unique_keys pos us row : keeps (unique_keys pos us row).
Proof. revert pos. induction us as [|[c im] us IH]; intros pos; cbn [unique_keys]; keep. Qed.
#[export] Hint Resolve keeps_unique_keys : keeps.

Lemma keeps_old_row rid : keeps (old_row rid).
Proof.
  unfold old_row. apply keeps_bind; [|intros; keep]. intros d r d'. unfold s_try, s_read_tuple.
  by destruct (exec_map_err _ _); intros [= <- <-].
Qed.
#[export] Hint Resolve keeps_old_row : keeps.

Lemma keeps_row_keys rid : keeps (unique_keys_of_row rid).
Proof. unfold unique_keys_of_row, keys_of_row. keep. Qed.
#[export] Hint Resolve keeps_row_keys : keeps.

(** C6: A statement that says no to a row leaves no trace of it.  When the values
    of a row fail a constraint (NOT NULL, the type of a column or of the key, a
    primary or unique key in use, a date that does not parse, an unknown column),
    INSERT, UPDATE, DELETE and INSERT .. ON CONFLICT have changed nothing: no
    page, index, log record or recorded version.  REPLACE is the exception: it
    deletes the rows in conflict before it checks the types of the new one. *)
Theorem rejected_row_unchanged {rt : Runtime} fuel tx d e d' :
  constraint e = true ->
  (forall row, (let* row := prepare_row row in insert_row fuel tx row) d = Some (Err e, d') -> d' = d)
  /\ (forall assignments key, update_row fuel tx assignments key d = Some (Err e, d') -> d' = d)
  /\ (forall key, delete_row fuel tx key d = Some (Err e, d') -> d' = d)
  /\ (forall arbiter action row, action <> Replace -> upsert_row fuel tx arbiter action row d = Some (Err e, d') -> d' = d).
Proof.
  intros C. assert (I : forall row, rejects_cleanly (insert_row fuel tx row)).
  { intros row. unfold insert_row. apply bind_clean; [keep|]. intros buf. apply willing_clean. will. }
  split_and!.
  - intros row. apply bind_clean; [keep|apply I|done].
  - intros assignments key. apply bind_clean; [keep|intros [rid|]|done]; [|apply keeps_clean; keep].
    apply bind_clean; [keep|intros _]. apply bind_clean; [keep|intros [vh old]]. apply bind_clean; [keep|intros p].
    apply willing_clean. will.
  - intros key. apply bind_clean; [keep|intros [rid|]|done]; [|apply keeps_clean; keep].
    apply bind_clean; [keep|intros [us ss]]. apply willing_clean. unfold s_record_version, s_log, s_delete_key, link_tombstone. will.
  - intros arbiter action row NR. apply bind_clean; [keep|intros prepared|done]. apply bind_clean; [keep|intros [|c cs]].
    { apply clean_bind; [apply I|intros _; will]. }
    destruct action as [|assignments|]; [apply keeps_clean; keep| |done].
    apply clean_bind; [|intros _; will]. unfold apply_do_update.
    apply bind_clean; [keep|intros [vh old]]. apply bind_clean; [keep|intros [p k]]. apply willing_clean. will.
Qed.

(** *** An empty table *)

Definition sample_name : list byte := [x74].
Definition sample_id : list byte := [x69].
Definition sample_v : list byte := [x76].

(** [CREATE TABLE t (i INT PRIMARY KEY, v INT)] on page 1, its index on the next
    free page. *)
Definition sample_table (im : IndexManager) : TableMeta :=
  mk_table sample_name [(sample_id, CInt); (sample_v, CInt)] [true; false] sample_id 0 im [] [] [None; None] 1 1
    (narrowing_new sample_name).

Definition sample_db : Db :=
  match im_new (mk_pool {[1 := page_zeroed]} (Z.of_nat <$> seq 2 20) []) with
  | Some (Ok im, p) => mk_db p ∅ (sample_table im) 1 TxManager.tm_new (Some [])
  | _ => mk_db (mk_pool ∅ [] []) ∅ (sample_table (im_from_root 0)) 1 TxManager.tm_new None
  end.

(** The database after some work that succeeds. *)
Definition after {A} (m : sm A) (d : Db) : Db := default d (snd <$> m d).
Definition outcome {A} (m : sm A) (d : Db) : option (exec StoreError A) := fst <$> m d.
Definition key_bytes (n : Z) : list byte := default [] (key_as_bytes <$> to_key (VInt n)).

Definition sample_rows : Db := after (insert_rows 10 5 [[VInt 0; VInt 7]; [VInt 3; VInt 8]] 0) sample_db.

Lemma rejected_row_unchanged_witness :
  let again := let* row := prepare_row [VInt 3; VInt 9] in insert_row 10 6 row in
  outcome again sample_rows = Some (Err DuplicateKey) /\ after again sample_rows = sample_rows.
Proof.
  cbv zeta. set (again := s_bind _ _). assert (E : outcome again sample_rows = Some (Err DuplicateKey)) by by vm_compute.
  split; [done|]. unfold outcome, after in *. destruct (again sample_rows) as [[r d']|] eqn:R; [|done].
  cbn in E. injection E as ->. cbn.
  exact (proj1 (rejected_row_unchanged (rt:=mk_runtime 0 (fun _ => 0)) 10 6 sample_rows DuplicateKey d' eq_refl) [VInt 3; VInt 9] R).
Defined.

(** [UPDATE t SET i = i] fails on the key 0, or any other multiple of 256: a
    statement without WHERE takes its keys from the tree, which drops the trailing
    zero bytes of a key, so the new key is taken for another one, and found in
    use. *)
Theorem update_all_takes_key_for_duplicate :
  let same := mk_assignment sample_id (UpdateExpression (ColumnExpression sample_id 0)) in
  let rt := mk_runtime 0 (fun _ => 0) in
  outcome (update_next (rt:=rt) 10 (mk_update None [same] 6 false)) sample_rows = Some (Err DuplicateKey)
  /\ outcome (update_row (rt:=rt) 10 6 [same] (key_bytes 0)) sample_rows = Some (Ok 1)
  /\ outcome (update_row (rt:=rt) 10 6 [same] (key_bytes 3)) sample_rows = Some (Ok 1).
Proof. by vm_compute. Qed.

(** REPLACE deletes the row in conflict and then rejects the new one for the type
    of its second column: only the abort of its transaction brings the row
    back. *)
Theorem replace_deletes_before_type_check :
  let work := upsert_row 10 6 ArbiterAll Replace [VInt 3; VString [x78]] in
  outcome work sample_rows = Some (Err (ColumnTypeMismatch sample_v CInt (VString [x78])))
  /\ outcome (s_search 10 PkIndex (key_bytes 3)) (after work sample_rows) = Some (Ok None)
  /\ is_Some (outcome (s_search 10 PkIndex (key_bytes 3)) sample_rows ≫= fun r => match r with Ok x => x | _ => None end).
Proof. split_and!; [by vm_compute..|]. by eexists; vm_compute. Qed.
