(* ===== verification/StoredIndexes.v ===== *)
(** * The indexes of a stored table

    The trees of a table's indexes over the page pool of [Statements]: an index is
    described by its height, its entries and the pages it occupies, and the pages
    of different indexes and the free pages are apart.  The entries a row asks for
    are inserted as one plan, whatever splits that takes, and the gates of an
    insertion pass when its keys are new. *)

From Stdlib Require Import ZArith Strings.Byte Lia.
From stdpp Require Import base tactics list numbers gmap.
From S2P Require Import Prelude RowKey PageLayout Values IndexKey Tuple Version TxManager Overflow DataPage.
From S2P Require DataScan.
From S2P Require Import BTreeNode BTree BTreeInsert IndexManager WalRecord Text DateTime Like Expr Table.
From S2P Require Import Budget Executor Hashing Ordering Plan Pipeline TableAccess Statements.
Import Key RowId Narrowing.
#[local] Open Scope Z_scope.

(** ** The indexes of a table *)

Record tree := mk_tree { t_height : nat; t_entries : Leaf; t_pages : list Z }.
Abbreviation Trees := (list (IndexRef * tree)).

Definition tree_in (d : Db) (x : IndexRef * tree) : Prop :=
  exists im, get_index (db_table d) x.1 = Some im
    /\ tree_at splittable (t_height x.2) (pool_pages (db_pool d)) (im_root im) 0 KEY_END (t_entries x.2) (t_pages x.2).

Definition pages_of (ts : Trees) : list Z := concat (t_pages <$> ts.*2).

Record indexed (d : Db) (ts : Trees) : Prop := {
  ix_refs : NoDup ts.*1;
  ix_trees : Forall (tree_in d) ts;
  ix_pages : NoDup (pages_of ts);
  ix_supply : supply_ok (db_pool d);
  ix_fresh : forall i, i ∈ pages_of ts -> i ∉ supply (db_pool d) }.

#[global] Instance index_ref_eq_dec : EqDecision IndexRef.
Proof. solve_decision. Defined.

Lemma get_set_index t r im im' : get_index t r = Some im -> get_index (set_index t r im') r = Some im'.
Proof.
  destruct r as [|i|i]; cbn; [done|..]; rewrite list_lookup_alter_eq; by destruct (_ !! i).
Qed.

Lemma get_set_other t r r' im : r' <> r -> get_index (set_index t r im) r' = get_index t r'.
Proof.
  destruct r as [|i|i], r' as [|j|j]; cbn; try done; intros H; rewrite list_lookup_alter_ne; congruence.
Qed.

Lemma pages_of_middle ts1 x ts2 : pages_of (ts1 ++ x :: ts2) ≡ₚ t_pages x.2 ++ pages_of (ts1 ++ ts2).
Proof.
  unfold pages_of. rewrite !fmap_app, !fmap_cons, !concat_app. cbn [concat].
  rewrite (Permutation_app_swap_app (concat _)). done.
Qed.

(** Pages that an operation takes leave the rest of the supply usable. *)
Lemma supply_ok_changed P P' touched new :
  supply_ok P -> changed P P' touched new -> (forall i, i ∈ touched -> i ∉ supply P) -> supply_ok P'.
Proof.
  intros [ND U Z F] [CF CS] HT. rewrite CS in *. apply NoDup_app in ND as (_ & Dj & ND).
  apply Forall_app in U as [_ U]. apply Forall_app in Z as [_ Z]. split; try done.
  intros i Hi. rewrite CF.
  - apply F, elem_of_app. by right.
  - intros Ht. apply (HT i Ht), elem_of_app. by right.
  - intros Hn. by apply (Dj i Hn).
Qed.

(** One index of the table is replaced by another on its pages and on new ones. *)
Lemma indexed_write d ts1 x ts2 im P' im' t' new :
  indexed d (ts1 ++ x :: ts2) -> get_index (db_table d) x.1 = Some im ->
  changed (db_pool d) P' (t_pages x.2) new ->
  tree_at splittable (t_height t') (pool_pages P') (im_root im') 0 KEY_END (t_entries t') (t_pages t') ->
  t_pages t' ≡ₚ t_pages x.2 ++ new ->
  indexed (with_table (set_index (db_table d) x.1 im') (with_pool P' d)) (ts1 ++ (x.1, t') :: ts2).
Proof.
  intros [HR HT HP HS HF] Hi C T' EP. rewrite pages_of_middle in HP. setoid_rewrite pages_of_middle in HF. pose proof HP as (UP & DP & UO)%NoDup_app.
  assert (Keep : forall i, i ∈ pages_of (ts1 ++ ts2) -> pool_pages P' !! i = pool_pages (db_pool d) !! i).
  { intros i Hin. apply (ch_frame _ _ _ _ C); [intros Hx; by apply (DP i Hx)|].
    intros Hn. apply (HF i); [apply elem_of_app; by right|]. rewrite (ch_supply _ _ _ _ C). apply elem_of_app. by left. }
  assert (Other : forall y, y ∈ ts1 ++ ts2 -> tree_in d y ->
    tree_in (with_table (set_index (db_table d) x.1 im') (with_pool P' d)) y).
  { intros y Hy (imy & Gy & Ty). exists imy. split.
    - cbn. rewrite get_set_other; [done|]. intros Ey. rewrite fmap_app, fmap_cons in HR.
      apply NoDup_app in HR as (_ & D1 & [N2 _]%NoDup_cons). apply (list_elem_of_fmap_2 fst) in Hy. rewrite Ey, fmap_app in Hy.
      apply elem_of_app in Hy as [Hy|Hy]; [apply (D1 _ Hy); by left|by apply N2].
    - eapply tree_frame; [|exact Ty]. intros i Hin. apply Keep. unfold pages_of. apply list_elem_of_In, in_concat.
      exists (t_pages y.2). split; apply list_elem_of_In; [|done].
      by apply (list_elem_of_fmap_2 t_pages), (list_elem_of_fmap_2 snd). }
  assert (Sup : forall i, i ∈ t_pages x.2 ++ pages_of (ts1 ++ ts2) -> i ∉ supply P').
  { intros i Hin Hs. apply (HF i Hin). rewrite (ch_supply _ _ _ _ C). apply elem_of_app. by right. }
  pose proof (sup_nodup _ HS) as NS. rewrite (ch_supply _ _ _ _ C) in NS. apply NoDup_app in NS as (Nn & Dn & _).
  split.
  - rewrite fmap_app, fmap_cons in *. exact HR.
  - apply Forall_app in HT as [H1 [_ H2]%Forall_cons]. apply Forall_app. split; [|apply Forall_cons; split].
    + rewrite Forall_forall in *. intros y Hy. apply Other; [apply elem_of_app; by left|by apply H1].
    + exists im'. split; [by eapply get_set_index|done].
    + rewrite Forall_forall in *. intros y Hy. apply Other; [apply elem_of_app; by right|by apply H2].
  - rewrite pages_of_middle. cbn [snd]. rewrite EP, <- app_assoc. rewrite (Permutation_app_comm (t_pages x.2)), <- app_assoc.
    apply NoDup_app. split_and!; [done| |by rewrite (Permutation_app_comm (pages_of _))].
    intros i Hn Hin. apply (HF i); [rewrite elem_of_app in *; tauto|]. rewrite (ch_supply _ _ _ _ C). apply elem_of_app. by left.
  - eapply supply_ok_changed; [exact HS|exact C|]. intros i Hin. apply HF, elem_of_app. by left.
  - intros i. rewrite pages_of_middle. cbn [snd]. rewrite EP, <- app_assoc, !elem_of_app. intros [Hin|[Hn|Hin]].
    + apply Sup, elem_of_app. by left.
    + by apply Dn.
    + apply Sup, elem_of_app. by right.
Qed.

(** ** What the indexes leave alone *)

(** The table without the roots of its indexes and its tail page. *)
Definition shape (t : TableMeta) :=
  (table_name t, columns t, not_null t, pk_column t, pk_index t, (unique_indexes t).*1,
   (fun s => (si_name s, column_index s, generation s, extra_column_indexes s)) <$> secondary_indexes t,
   column_defaults t, page_head t, table_narrowing t).

Record beside (d d' : Db) : Prop := {
  be_vis : db_vis d' = db_vis d;
  be_catalog : db_catalog_tail d' = db_catalog_tail d;
  be_tx : db_tx d' = db_tx d;
  be_wal : db_wal d' = db_wal d;
  be_shape : shape (db_table d') = shape (db_table d);
  be_tail : page_tail (db_table d') = page_tail (db_table d) }.

#[global] Instance beside_preorder : PreOrder beside.
Proof.
  split; [done|]. intros d1 d2 d3 [A1 B1 C1 D1 E1 F1] [A2 B2 C2 D2 E2 F2]. split; congruence.
Qed.

Lemma fmap_alter_same {A B} (f : A -> B) (g : A -> A) (i : nat) (l : list A) : (forall x, f (g x) = f x) -> f <$> alter g i l = f <$> l.
Proof.
  intros H. apply list_eq. intros j. rewrite !list_lookup_fmap. destruct (decide (j = i)) as [->|].
  - rewrite list_lookup_alter_eq. destruct (l !! i); [|done]. cbn. by rewrite H.
  - by rewrite list_lookup_alter_ne.
Qed.

Lemma shape_set_index t r im : shape (set_index t r im) = shape t.
Proof. unfold shape. destruct r as [|i|i]; cbn; [done|..]; by rewrite fmap_alter_same. Qed.

Lemma changed_trans P P1 P2 touched touched' new new' :
  changed P P1 touched new -> changed P1 P2 touched' new' ->
  (forall i, i ∈ touched' -> i ∈ touched \/ i ∈ new) -> changed P P2 touched (new ++ new').
Proof.
  intros [F S] [F' S'] H. split.
  - intros i Hi Hn. rewrite elem_of_app in Hn. rewrite F', F; try tauto. intros Ht. destruct (H i Ht); tauto.
  - by rewrite S, S', app_assoc.
Qed.

(** ** New entries *)

Section entries.
Context (fuel : nat) (rid : RowId).

Fixpoint insert_keys (plan : list (IndexRef * list byte)) : sm unit :=
  match plan with
  | [] => s_ret tt
  | (r, key) :: plan => let* _ := s_insert_key fuel r key rid in insert_keys plan
  end.

(** The map of an index after the entries of a plan. *)
Fixpoint grow (plan : list (IndexRef * list byte)) (r : IndexRef) (m : gmap (list byte) RowId) : gmap (list byte) RowId :=
  match plan with
  | [] => m
  | p :: plan => grow plan r (if decide (p.1 = r) then <[pad32 p.2 := rid]> m else m)
  end.

Definition grown (plan : list (IndexRef * list byte)) (x y : IndexRef * tree) : Prop :=
  y.1 = x.1 /\ index_map (t_entries y.2) = grow plan x.1 (index_map (t_entries x.2))
  /\ (t_height y.2 <= t_height x.2 + length plan)%nat.

Definition absent (ts : Trees) (p : IndexRef * list byte) : Prop :=
  exists t, (p.1, t) ∈ ts /\ index_map (t_entries t) !! pad32 p.2 = None.

Lemma grow_in plan r key m : (r, key) ∈ plan -> grow plan r m !! pad32 key = Some rid.
Proof.
  assert (Keep : forall plan m, m !! pad32 key = Some rid -> grow plan r m !! pad32 key = Some rid).
  { intros l. induction l as [|[r' k'] l IH]; intros m' H; [done|]. cbn [grow fst snd]. apply IH. case_decide; [|done].
    destruct (decide (pad32 k' = pad32 key)) as [->|]; [by rewrite lookup_insert_eq|by rewrite lookup_insert_ne]. }
  revert m. induction plan as [|[r' k'] plan IH]; intros m; [by intros ?%not_elem_of_nil|].
  intros [[= <- <-]|H]%elem_of_cons; [|by apply IH]. cbn [grow fst snd]. rewrite decide_True by done. apply Keep. by rewrite lookup_insert_eq.
Qed.

Lemma grow_out plan r z m : (forall key, (r, key) ∈ plan -> pad32 key <> z) -> grow plan r m !! z = m !! z.
Proof.
  revert m. induction plan as [|[r' k'] plan IH]; intros m H; [done|]. cbn [grow fst snd]. rewrite IH by (intros k Hk; apply H; by right).
  case_decide as E; [|done]. cbn in E. subst r'. rewrite lookup_insert_ne; [done|]. apply H. by left.
Qed.

Lemma insert_key_ok d ts1 x ts2 key :
  indexed d (ts1 ++ x :: ts2) -> zlen key <= 32 -> row_id_wf rid -> index_map (t_entries x.2) !! pad32 key = None ->
  (t_height x.2 + 2 <= length (supply (db_pool d)))%nat -> (t_height x.2 < fuel)%nat ->
  exists d' y new, s_insert_key fuel x.1 key rid d = Some (Ok tt, d') /\ indexed d' (ts1 ++ y :: ts2)
    /\ grown [(x.1, key)] x y /\ t_pages y.2 ≡ₚ t_pages x.2 ++ new /\ beside d d'
    /\ changed (db_pool d) (db_pool d') (t_pages x.2) new /\ (length new <= t_height x.2 + 2)%nat.
Proof.
  intros I Hk Wr HN HL Hf. pose proof I as [HR HT HP HS HF].
  assert (Tx : tree_in d x) by (rewrite Forall_forall in HT; apply HT, elem_of_app; right; by left).
  destruct Tx as (im & Gi & T). rewrite pages_of_middle in HP. setoid_rewrite pages_of_middle in HF.
  pose proof (leaf_keys_len _ _ _ _ _ _ _ T) as FK.
  destruct (insert_pages (db_pool d) (im_root im) (t_height x.2) (t_entries x.2) (t_pages x.2) key rid fuel)
    as (P' & root' & h' & ids' & new & E & T' & EI & C & Hh & Hn); try done.
  { by apply NoDup_app in HP as (? & _). }
  { destruct HS. split; [done..|]. intros i Hi. apply HF, elem_of_app. by left. }
  set (t' := mk_tree h' (place (pad32 key, rid) (t_entries x.2)) ids').
  set (im' := mk_index root' (<[rid := key]> (row_to_key im))).
  pose proof (indexed_write d ts1 x ts2 im P' im' t' new I Gi C T' EI) as I'.
  eexists _, (x.1, t'), new. split_and!; [|exact I'|..]; try done.
  - unfold s_insert_key, index_write. rewrite Gi. unfold im_insert. by rewrite (bind_ok _ _ _ _ _ E).
  - split_and!; [done| |cbn; lia]. cbn [grow fst snd t_entries]. rewrite decide_True by done. apply (place_map (pad32 key, rid)); try done. cbn.
    destruct (bt_key_ok key (db_pool d) Hk) as (k & _ & <- & Lk). done.
  - split; try done. cbn. apply shape_set_index.
Qed.

End entries.

Section plans.
Context (fuel : nat) (rid : RowId) (bound : nat).

(** The pages and the height a plan may need, when no index gets higher than
    [bound]. *)
Definition affordable (d : Db) (ts : Trees) (plan : list (IndexRef * list byte)) : Prop :=
  (length plan * (bound + 2) <= length (supply (db_pool d)))%nat
  /\ Forall (fun x => t_height x.2 + length plan <= bound)%nat ts.

Definition spot (p : IndexRef * list byte) : IndexRef * list byte := (p.1, pad32 p.2).

Lemma absent_next ts1 x y ts2 key p :
  NoDup (ts1 ++ x :: ts2).*1 -> absent (ts1 ++ x :: ts2) p -> grown rid [(x.1, key)] x y -> spot p <> spot (x.1, key) ->
  absent (ts1 ++ y :: ts2) p.
Proof.
  intros ND (t & Ht & N) (E1 & E2 & _) Hs. destruct p as [r k]. cbn [fst snd] in *.
  destruct (decide (r = x.1)) as [->|Hr].
  - exists y.2. split.
    + cbn [fst]. assert ((x.1, y.2) = y) as -> by (rewrite <- E1; by destruct y). apply elem_of_app. right. by left.
    + assert (t = x.2) as ->.
      { rewrite fmap_app, fmap_cons in ND. apply NoDup_app in ND as (_ & D1 & [D2 _]%NoDup_cons).
        apply elem_of_app in Ht as [Ht|[Ht|Ht]%elem_of_cons].
        - exfalso. apply (D1 x.1); [apply (list_elem_of_fmap_2 fst) in Ht; exact Ht|by left].
        - by destruct x; injection Ht.
        - exfalso. apply D2. apply (list_elem_of_fmap_2 fst) in Ht. exact Ht. }
      rewrite E2. cbn [grow fst snd]. rewrite decide_True by done. rewrite lookup_insert_ne; [done|]. intros Ek. apply Hs. unfold spot. cbn [fst snd]. by rewrite Ek.
  - exists t. split; [|done]. apply elem_of_app in Ht as [Ht|[Ht|Ht]%elem_of_cons].
    + apply elem_of_app. by left.
    + exfalso. apply Hr. by destruct x; injection Ht.
    + apply elem_of_app. right. by right.
Qed.

Lemma grown_step plan ts1 x y ts2 ts' key :
  NoDup (ts1 ++ x :: ts2).*1 -> grown rid [(x.1, key)] x y -> Forall2 (grown rid plan) (ts1 ++ y :: ts2) ts' ->
  Forall2 (grown rid ((x.1, key) :: plan)) (ts1 ++ x :: ts2) ts'.
Proof.
  intros ND (G1 & G2 & G3) F. rewrite fmap_app, fmap_cons in ND. apply NoDup_app in ND as (_ & D1 & [D2 _]%NoDup_cons).
  assert (Else : forall l l', x.1 ∉ l.*1 -> Forall2 (grown rid plan) l l' -> Forall2 (grown rid ((x.1, key) :: plan)) l l').
  { intros l l' Hl F'. induction F' as [|a b l l' (A1 & A2 & A3) _ IH]; [done|]. rewrite fmap_cons in Hl.
    apply not_elem_of_cons in Hl as [Ha Hl]. constructor; [|by apply IH]. split_and!; [done| |cbn in *; lia].
    rewrite A2. cbn [grow fst snd]. by rewrite decide_False. }
  apply Forall2_app_inv_l in F as (l1 & l2 & F1 & F2 & ->). apply Forall2_cons_inv_l in F2 as (b & l3 & (B1 & B2 & B3) & F3 & ->).
  apply Forall2_app; [apply Else; [|done]|constructor; [|by apply Else]].
  - intros Hin. apply (D1 _ Hin). by left.
  - split_and!; [congruence| |cbn in *; lia]. rewrite B2, G1, G2. cbn [grow fst snd]. by rewrite decide_True.
Qed.

(** The entries of a plan go in, each into its index. *)
Lemma insert_keys_ok plan d ts :
  indexed d ts -> Forall (fun p => zlen p.2 <= 32) plan -> row_id_wf rid -> NoDup (spot <$> plan) -> Forall (absent ts) plan ->
  affordable d ts plan -> (bound < fuel)%nat ->
  exists d' ts' new, insert_keys fuel rid plan d = Some (Ok tt, d') /\ indexed d' ts' /\ Forall2 (grown rid plan) ts ts'
    /\ pages_of ts' ≡ₚ pages_of ts ++ new /\ beside d d' /\ changed (db_pool d) (db_pool d') (pages_of ts) new
    /\ (length new <= length plan * (bound + 2))%nat.
Proof.
  revert d ts. induction plan as [|[r key] plan IH]; intros d ts I HK Wr ND HA [HL HB] Hf.
  { exists d, ts, []. split_and!; [done|done| |by rewrite app_nil_r|reflexivity|by split|cbn; lia].
    apply Forall2_same_length_lookup. split; [done|].
    intros i x y Hx Hy. rewrite Hx in Hy. injection Hy as ->. split_and!; [done..|cbn; lia]. }
  apply Forall_cons in HK as [Hk HK]. apply NoDup_cons in ND as [Hn ND]. apply Forall_cons in HA as [(t & Ht & HN) HA].
  cbn [fst snd] in *. apply list_elem_of_split in Ht as (ts1 & ts2 & ->). set (x := (r, t)) in *.
  assert (Hh : (t_height x.2 + S (length plan) <= bound)%nat).
  { rewrite Forall_forall in HB. apply (HB x), elem_of_app. right. by left. }
  destruct (insert_key_ok fuel rid d ts1 x ts2 key I Hk Wr HN) as (d1 & y & n1 & E & I1 & G & EP & B1 & C1 & L1); [cbn in HL; lia..|].
  pose proof (ch_supply _ _ _ _ C1) as CS. pose proof (f_equal length CS) as CL. rewrite length_app in CL.
  destruct (IH d1 (ts1 ++ y :: ts2)) as (d' & ts' & n2 & E2 & I2 & G2 & EP2 & B2 & C2 & L2); try done.
  - rewrite Forall_forall in *. intros p Hp. apply (absent_next _ x y _ key); [apply (ix_refs _ _ I)|by apply HA|done|].
    intros Es. apply Hn. change (spot (r, key)) with (spot (x.1, key)). rewrite <- Es. by apply list_elem_of_fmap_2.
  - split; [cbn in HL; lia|]. apply Forall_app in HB as [H1 [_ H2]%Forall_cons]. cbn [length] in H1, H2.
    apply Forall_app. split; [|apply Forall_cons; split].
    + eapply Forall_impl; [exact H1|]. cbn. lia.
    + destruct G as (_ & _ & G). cbn in G, Hh. lia.
    + eapply Forall_impl; [exact H2|]. cbn. lia.
  - assert (PM : pages_of (ts1 ++ y :: ts2) ≡ₚ pages_of (ts1 ++ x :: ts2) ++ n1).
    { rewrite !pages_of_middle, EP, <- !app_assoc. by rewrite (Permutation_app_comm n1). }
    exists d', ts', (n1 ++ n2). split_and!; try done.
    + cbn [insert_keys]. unfold s_bind. change r with x.1. by rewrite E.
    + apply (grown_step plan ts1 x y ts2 ts' key); try done. apply (ix_refs _ _ I).
    + by rewrite EP2, PM, app_assoc.
    + by transitivity d1.
    + apply (changed_trans _ (db_pool d1) _ _ (pages_of (ts1 ++ y :: ts2))); [|done|].
      * apply (changed_weaken _ _ (t_pages x.2)); [done|]. intros i Hi. rewrite pages_of_middle. apply elem_of_app. by left.
      * intros i. rewrite PM. apply elem_of_app.
    + rewrite length_app. cbn in *. lia.
Qed.

End plans.

(** ** The keys of a row *)

Fixpoint unique_entries (pos : nat) (cols : list nat) (row : Row) : list (IndexRef * list byte) :=
  match cols with
  | [] => []
  | c :: cols =>
      let rest := unique_entries (S pos) cols row in
      match row !! c ≫= to_key with Some key => (UniqueIndex pos, key_as_bytes key) :: rest | None => rest end
  end.

Definition row_keys (t : TableMeta) (row : Row) : list (IndexRef * list byte) :=
  option_list ((fun key => (PkIndex, key_as_bytes key)) <$> (row !! pk_index t ≫= to_key))
  ++ unique_entries 0 (unique_indexes t).*1 row
  ++ secondary_keys (table_schema t) 0 (secondary_indexes t) row.

Lemma secondary_keys_shape schema pos ss ss' row :
  (fun s => (si_name s, column_index s, generation s, extra_column_indexes s)) <$> ss
  = (fun s => (si_name s, column_index s, generation s, extra_column_indexes s)) <$> ss' ->
  secondary_keys schema pos ss row = secondary_keys schema pos ss' row.
Proof.
  revert pos ss'. induction ss as [|s ss IH]; intros pos [|s' ss'] E; try done.
  injection E as _ Ec Eg Ee E. cbn [secondary_keys]. rewrite (IH (S pos) ss' E). unfold derive_key. by rewrite Ec, Eg, Ee.
Qed.

Lemma row_keys_shape t t' row : shape t = shape t' -> row_keys t row = row_keys t' row.
Proof.
  unfold shape, row_keys, table_schema. intros [= _ Ec _ _ Ep Eu Es _ _ _]. rewrite Ec, Ep, Eu. do 2 f_equal.
  by apply secondary_keys_shape.
Qed.

Lemma made_short bs k : key_make bs = Some k -> zlen (key_as_bytes k) <= 32.
Proof.
  unfold key_make. destruct (key_new bs) as [k'| |] eqn:E; [|done..]. intros [= ->]. rewrite (key_as_bytes_new _ _ E).
  unfold key_new in E. change MAX_KEY_LEN with 32 in E. case_match eqn:C; [done|]. by apply Z.ltb_ge in C.
Qed.

Lemma derived_short cols vs g k : derive_secondary_index_key cols vs g = Some k -> zlen (key_as_bytes k) <= 32.
Proof.
  unfold derive_secondary_index_key, secondary_index_key, to_key. repeat case_match; try done; try apply made_short.
  all: intros (e & _ & Hm)%bind_Some; by eapply made_short.
Qed.

Lemma row_keys_short t row : Forall (fun p => zlen p.2 <= 32) (row_keys t row).
Proof.
  assert (TK : forall v k, to_key v = Some k -> zlen (key_as_bytes k) <= 32).
  { intros [] k; try done. apply made_short. }
  unfold row_keys. rewrite !Forall_app. split_and!.
  - destruct (row !! pk_index t) as [v|]; cbn; [|done]. destruct (to_key v) eqn:E; cbn; [|done]. constructor; [|done]. by eapply TK.
  - generalize 0%nat. induction (unique_indexes t).*1 as [|c cols IH]; intros pos; cbn [unique_entries]; [done|].
    destruct (row !! c) as [v|]; cbn; [|done]. destruct (to_key v) eqn:E; [|done]. constructor; [by eapply TK|done].
  - generalize 0%nat. induction (secondary_indexes t) as [|s ss IH]; intros pos; cbn [secondary_keys]; [done|].
    destruct (derive_key s _ row) as [k|] eqn:E; [|done]. constructor; [|done]. unfold derive_key, derive_row_key in E.
    apply bind_Some in E as ([cs vs] & _ & E). by eapply derived_short.
Qed.

Section row_plan.
Context (fuel : nat) (rid : RowId).

Lemma insert_keys_app p q d : insert_keys fuel rid (p ++ q) d = s_bind (insert_keys fuel rid p) (fun _ => insert_keys fuel rid q) d.
Proof.
  revert d. induction p as [|[r k] p IH]; intros d; [done|]. cbn [app insert_keys]. unfold s_bind in *.
  by destruct (s_insert_key fuel r k rid d) as [[[[]| |] d1]|].
Qed.

Lemma insert_uniques_plan pos us row d :
  Forall (fun c => is_Some (row !! c)) us.*1 ->
  insert_uniques fuel pos us row rid d = insert_keys fuel rid (unique_entries pos us.*1 row) d.
Proof.
  revert pos d. induction us as [|[c im] us IH]; intros pos d H; [done|]. apply Forall_cons in H as [[v Hv] H].
  cbn [fmap list_fmap fst insert_uniques unique_entries]. cbn in Hv. unfold at_index. rewrite Hv. cbn [mbind option_bind].
  unfold s_bind at 1, s_ret at 1. destruct (to_key v) as [k|].
  - cbn [insert_keys]. unfold s_bind. destruct (s_insert_key _ _ _ _ d) as [[[[]| |] d1]|]; try done. by apply IH.
  - unfold s_bind, s_ret. by apply IH.
Qed.

Lemma insert_secondaries_plan schema pos ss row d :
  insert_secondaries fuel schema pos ss row rid d = insert_keys fuel rid (secondary_keys schema pos ss row) d.
Proof.
  revert pos d. induction ss as [|s ss IH]; intros pos d; [done|]. cbn [insert_secondaries secondary_keys].
  destruct (derive_key s schema row) as [k|].
  - cbn [insert_keys]. unfold s_bind. by destruct (s_insert_key _ _ _ _ d) as [[[[]| |] d1]|].
  - apply IH.
Qed.

(** The index writes of an insertion are the keys of its row. *)
Lemma insert_indexes_plan t row v d :
  row !! pk_index t = Some v -> Forall (fun c => is_Some (row !! c)) (unique_indexes t).*1 ->
  s_bind (match to_key v with Some key => s_insert_key fuel PkIndex (key_as_bytes key) rid | None => s_ret tt end)
    (fun _ => s_bind (insert_uniques fuel 0 (unique_indexes t) row rid)
      (fun _ => insert_secondaries fuel (table_schema t) 0 (secondary_indexes t) row rid)) d
  = insert_keys fuel rid (row_keys t row) d.
Proof.
  intros Hv HU. unfold row_keys. rewrite Hv. cbn [mbind option_bind]. rewrite insert_keys_app.
  assert (Rest : forall d, s_bind (insert_uniques fuel 0 (unique_indexes t) row rid)
      (fun _ => insert_secondaries fuel (table_schema t) 0 (secondary_indexes t) row rid) d
    = insert_keys fuel rid (unique_entries 0 (unique_indexes t).*1 row ++ secondary_keys (table_schema t) 0 (secondary_indexes t) row) d).
  { intros d0. rewrite insert_keys_app. unfold s_bind. rewrite insert_uniques_plan by done.
    destruct (insert_keys _ _ _ d0) as [[[[]| |] d2]|]; try done. apply insert_secondaries_plan. }
  destruct (to_key v) as [k|]; [|apply Rest]. change (option_list _) with [(PkIndex, key_as_bytes k)].
  cbn [insert_keys]. unfold s_bind in *. destruct (s_insert_key _ _ _ _ d) as [[[[]| |] d1]|]; [apply Rest|done..].
Qed.

End row_plan.

(** ** Rows that pass the gates *)

(** Values of the types of their columns, NULL only where it may stand, keys
    where a unique index wants them. *)
Record fits (t : TableMeta) (row : Row) : Prop := {
  ft_types : Forall2 (fun v c => type_fits v c = true) row (table_schema t);
  ft_null : Forall2 (fun v b => b = true -> is_null v = false) row (not_null t);
  ft_pk : (pk_index t < length row)%nat;
  ft_unique : Forall (fun c => exists v, row !! c = Some v /\ (is_null v = true \/ is_Some (to_key v))) (unique_indexes t).*1;
  ft_values : Forall storable row;
  ft_size : in_u32 (zlen (enc_values row)) }.

Lemma fits_shape t t' row : shape t = shape t' -> fits t row -> fits t' row.
Proof.
  unfold shape, table_schema. intros [= _ Ec En _ Ep Eu _ _ _ _] [A B C D E F].
  split; unfold table_schema; rewrite <- ?Ec, <- ?En, <- ?Ep, <- ?Eu; done.
Qed.

Lemma coerce_fits schema row : Forall2 (fun v c => type_fits v c = true) row schema ->
  coerce_row schema row = Ok row /\ widen_row schema row = row.
Proof.
  induction 1 as [|v c row schema H _ [IH1 IH2]]; [done|]. cbn [coerce_row widen_row]. rewrite IH1, IH2.
  by destruct v, c.
Qed.

Lemma check_not_null_fits t d row bs i :
  Forall2 (fun v b => b = true -> is_null v = false) row bs -> drop i (not_null t) = bs ->
  check_not_null t i row d = Some (Ok tt, d).
Proof.
  intros H. revert i. induction H as [|v b row bs H _ IH]; intros i E; [done|]. cbn [check_not_null].
  assert (not_null t !! i = Some b) as Hb by (rewrite <- (Nat.add_0_r i), <- lookup_drop, E; done).
  unfold at_index. rewrite Hb. unfold s_bind, s_ret at 1. destruct b; cbn [andb]; [rewrite H by done|].
  all: apply IH; by rewrite <- (Nat.add_1_r i), <- drop_drop, E.
Qed.

Lemma check_types_fits t d row cs i :
  Forall2 (fun v c => type_fits v c = true) row cs -> drop i (table_schema t) = cs -> check_types t i row d = Some (Ok tt, d).
Proof.
  intros H. revert i. induction H as [|v c row cs H _ IH]; intros i E; [done|]. cbn [check_types].
  assert (table_schema t !! i = Some c) as Hc by (rewrite <- (Nat.add_0_r i), <- lookup_drop, E; done).
  unfold at_index. rewrite Hc. unfold s_bind, s_ret at 1. rewrite H. apply IH. by rewrite <- (Nat.add_1_r i), <- drop_drop, E.
Qed.

Lemma fits_lookup t row i v : fits t row -> row !! i = Some v -> exists c, table_schema t !! i = Some c /\ type_fits v c = true.
Proof. intros F Hv. destruct (Forall2_lookup_l _ _ _ _ _ (ft_types _ _ F) Hv) as (c & Hc & T). eauto. Qed.

Lemma prepare_fits d row : fits (db_table d) row -> prepare_row row d = Some (Ok row, d).
Proof.
  intros F. set (t := db_table d) in *. destruct (coerce_fits _ _ (ft_types _ _ F)) as [C W].
  destruct (lookup_lt_is_Some_2 row (pk_index t) (ft_pk _ _ F)) as [v Hv]. destruct (fits_lookup _ _ _ _ F Hv) as (c & Hc & T).
  unfold prepare_row, s_bind, s_table, s_lift. fold t. rewrite C, W, (check_not_null_fits t d row (not_null t) 0) by (done || apply F).
  unfold at_index at 1. rewrite Hv. unfold s_ret at 1, check_key_type, s_bind, at_index. rewrite Hc. unfold s_ret.
  destruct c; try done. by destruct v.
Qed.

Lemma tuple_bytes_fits t row : fits t row -> tuple_bytes (table_schema t) row = Ok (enc_values row).
Proof.
  intros F. unfold tuple_bytes.
  destruct (serialize_tuple_total row (table_schema t) (replicate (Z.to_nat (values_size row)) Byte.x00)) as (size & E1 & E2).
  { apply (Forall2_length _ _ _ (ft_types _ _ F)). }
  assert (size = values_size row) as ->.
  { unfold compute_tuple_size in E1. destruct (zlen row =? _); congruence. }
  pose proof (values_size_nonneg row). rewrite E1. cbn [exec_map_err exec_bind]. rewrite E2.
  unfold zlen at 1. rewrite length_replicate, Z2Nat.id by done. rewrite Z.ltb_irrefl. cbn.
  rewrite drop_ge by (rewrite length_replicate; lia). by rewrite app_nil_r.
Qed.

(** ** Searches *)

Section searches.
Context (fuel bound : nat) (d : Db) (ts : Trees).
Context (I : indexed d ts) (HB : Forall (fun x => t_height x.2 <= bound)%nat ts) (Hf : (bound < fuel)%nat).

Lemma search_ok r t key : (r, t) ∈ ts -> zlen key <= 32 ->
  s_search fuel r key d = Some (Ok (index_map (t_entries t) !! pad32 key), d).
Proof using All.
  intros Ht Hk. destruct I as [_ HT HP HS HF]. rewrite Forall_forall in HT, HB. destruct (HT _ Ht) as (im & Gi & T).
  pose proof (HB _ Ht) as Hh. cbn [fst snd] in *. unfold s_search, index_read. rewrite Gi. unfold im_search.
  rewrite (search_index (db_pool d) (im_root im) (t_height t) (t_entries t) key fuel); [cbn; by destruct d| |done|lia].
  assert (Sub : forall i, i ∈ t_pages t -> i ∈ pages_of ts).
  { intros i Hi. apply list_elem_of_In, in_concat. exists (t_pages t). split; apply list_elem_of_In; [|done].
    by apply (list_elem_of_fmap_2 snd), (list_elem_of_fmap_2 t_pages) in Ht. }
  apply list_elem_of_split in Ht as (ts1 & ts2 & ->). rewrite pages_of_middle in HP.
  exists (t_pages t). split_and!; [done|by apply NoDup_app in HP as (? & _)|]. destruct HS. split; [done..|].
  intros i Hi. by apply HF, Sub.
Qed.

Lemma reject_absent p : absent ts p -> zlen p.2 <= 32 -> reject_duplicate fuel p.1 p.2 d = Some (Ok tt, d).
Proof using All.
  intros (t & Ht & N) Hk. unfold reject_duplicate, s_bind. by rewrite (search_ok _ t), N.
Qed.

Lemma check_uniques_absent t pos us row :
  Forall (fun c => exists v, row !! c = Some v /\ (is_null v = true \/ is_Some (to_key v))) us.*1 ->
  Forall (absent ts) (unique_entries pos us.*1 row) -> Forall (fun p => zlen p.2 <= 32) (unique_entries pos us.*1 row) ->
  check_uniques fuel t pos us row d = Some (Ok tt, d).
Proof using All.
  revert pos. induction us as [|[c im] us IH]; intros pos HU HA HS; [done|]. cbn [check_uniques].
  apply Forall_cons in HU as [(v & Hv & K) HU]. cbn [fmap list_fmap fst unique_entries] in *.
  unfold at_index. rewrite Hv in *. cbn [mbind option_bind] in *. unfold s_bind, s_ret at 1.
  destruct (is_null v) eqn:N.
  { destruct v; try done. cbn in *. by apply IH. }
  destruct K as [|[k Ek]]; [done|]. rewrite Ek in *. apply Forall_cons in HA as [A HA]. apply Forall_cons in HS as [S HS].
  pose proof (reject_absent _ A S) as R. cbn [fst snd] in R. rewrite R. by apply IH.
Qed.

Lemma gates_pass row :
  fits (db_table d) row -> Forall (absent ts) (row_keys (db_table d) row) ->
  insert_gates fuel row d = Some (Ok (enc_values row), d).
Proof using All.
  intros F HA. set (t := db_table d) in *. pose proof (row_keys_short t row) as HS. unfold row_keys in *.
  rewrite !Forall_app in HA, HS. destruct HA as (A1 & A2 & _), HS as (S1 & S2 & _).
  destruct (lookup_lt_is_Some_2 row (pk_index t) (ft_pk _ _ F)) as [v Hv]. rewrite Hv in A1, S1. cbn [mbind option_bind] in A1, S1.
  unfold insert_gates. unfold s_bind at 1, s_table. fold t. unfold s_bind at 1. unfold at_index. rewrite Hv. unfold s_ret at 1.
  assert (P : (match to_key v with Some key => reject_duplicate fuel PkIndex (key_as_bytes key) | None => s_ret tt end) d = Some (Ok tt, d)).
  { destruct (to_key v) as [k|]; [|done]. apply Forall_cons in A1 as [A1 _]. apply Forall_cons in S1 as [S1 _].
    by apply (reject_absent (PkIndex, key_as_bytes k)). }
  unfold s_bind at 1. rewrite P. unfold s_bind at 1. rewrite check_uniques_absent by (done || apply F).
  unfold s_bind. rewrite (check_types_fits t d row (table_schema t) 0) by (done || apply F).
  unfold s_lift. by rewrite tuple_bytes_fits.
Qed.

End searches.
