(* ===== verification/StoredTables.v ===== *)
(** * Stored tables

    The write statements of [Statements] and the table accesses of [TableAccess]
    on the same pages: what an INSERT leaves behind, in the data pages, in every
    index and in the log, and what a later lookup of the key shows to which
    transaction.

    A table is the trees of its indexes, the chain of its data pages and the free
    pages, all apart.  Abstractly it is the list of the versions on the chain: an
    insertion appends one. *)

From Stdlib Require Import ZArith Strings.Byte Lia.
From stdpp Require Import base tactics list numbers gmap.
From S2P Require Import Prelude RowKey PageLayout Values IndexKey Tuple Version TxManager Overflow DataPage.
From S2P Require DataScan.
From S2P Require Import BTreeNode BTree BTreeInsert IndexManager WalRecord Text DateTime Like Expr Table.
From S2P Require Import Budget Executor Hashing Ordering Plan Pipeline TableAccess Statements DataChain StoredIndexes.
Import Key RowId Narrowing.
#[local] Open Scope Z_scope.

(** ** The data pages of a table *)

(** The trees of the indexes and the data pages, in chain order. *)
Record Layout := mk_layout { trees :> list (IndexRef * tree); chain : list Z }.

Record table_ok (d : Db) (ts : Layout) : Prop := {
  ok_indexed : indexed d ts;
  ok_chain : chain_at (db_pool d) (page_head (db_table d)) (page_tail (db_table d)) (chain ts);
  ok_tail : exists p, pool_pages (db_pool d) !! page_tail (db_table d) = Some p /\ open_tail p;
  ok_apart : forall i, i ∈ chain ts -> i ∉ pages_of ts }.

(** A version in the data pages; the pages of an overflowing tuple are pages of
    nothing else. *)
Record holds (P : Pool) (ts : Layout) (r : RowId) (vh : VersionHeader.vheader) (tuple : list byte) : Prop := {
  ho_bytes : exists tb roots, DataPage.row_bytes (pool_pages P) r = Some (VersionHeader.to_bytes vh ++ tb)
    /\ rooted (pool_pages P) roots tb tuple /\ (forall i, i ∈ roots -> (i ∉ chain ts) /\ (i ∉ pages_of ts) /\ i ∉ supply P);
  ho_page : page_id r ∈ chain ts;
  ho_wf : forall d, pool_pages P !! page_id r = Some d -> page_wf (raw_page d);
  ho_vh : VersionHeader.wf vh }.

Definition stored (d : Db) : Layout -> RowId -> VersionHeader.vheader -> list byte -> Prop := holds (db_pool d).

Lemma stored_reads d ts r vh tuple : stored d ts r vh tuple -> read_tuple_from_data_page (pool_pages (db_pool d)) r = Ok (vh, tuple).
Proof.
  intros [(tb & roots & HB & HR & _) _ HW Wv]. rewrite (read_stored _ _ _ _ HB Wv HW). by rewrite (HR _ (fun _ _ => eq_refl)).
Qed.

Lemma rooted_agree pages pages' roots tb tuple :
  (forall i, i ∈ roots -> pages' !! i = pages !! i) -> rooted pages roots tb tuple -> rooted pages' roots tb tuple.
Proof. intros H R q Hq. apply R. intros i Hi. by rewrite Hq, H. Qed.

Lemma row_bytes_agree pages pages' r : pages' !! page_id r = pages !! page_id r -> DataPage.row_bytes pages' r = DataPage.row_bytes pages r.
Proof. unfold DataPage.row_bytes. by intros ->. Qed.

(** *** The versions of a table *)

Record Version := mk_version { v_rid : RowId; v_header : VersionHeader.vheader; v_tuple : list byte }.

(** What the slots of the chain hold. *)
Definition slot_version (d : Db) (ts : Layout) (slot : DataScan.SlotRow) (v : Version) : Prop :=
  DataScan.row_rid slot = v_rid v /\ DataScan.row_vh slot = v_header v /\ stored d ts (v_rid v) (v_header v) (v_tuple v).

Definition versions (d : Db) (ts : Layout) : list Version -> Prop :=
  Forall2 (slot_version d ts) (chain_rows (pool_pages (db_pool d)) (chain ts)).

Lemma versions_frame d d' ts ts' vs :
  versions d ts vs -> chain_rows (pool_pages (db_pool d')) (chain ts') = chain_rows (pool_pages (db_pool d)) (chain ts) ->
  (forall r vh tuple, stored d ts r vh tuple -> stored d' ts' r vh tuple) -> versions d' ts' vs.
Proof.
  intros V E K. unfold versions. rewrite E. eapply Forall2_impl; [exact V|]. intros slot v (A & B & C). split_and!; [done..|]. by apply K.
Qed.

(** ** Index entries *)

(** Index entries do not move rows. *)
Section keys.
Context (d d' : Db) (ts : Layout) (ts' : Trees) (new : list Z).
Context (ok : table_ok d ts) (I' : indexed d' ts') (B : beside d d').
Context (C : changed (db_pool d) (db_pool d') (pages_of ts) new) (EP : pages_of ts' ≡ₚ pages_of ts ++ new).

Let ts1 : Layout := mk_layout ts' (chain ts).

Lemma chain_keys : chain_at (db_pool d') (page_head (db_table d')) (page_tail (db_table d')) (chain ts)
  /\ chain_rows (pool_pages (db_pool d')) (chain ts) = chain_rows (pool_pages (db_pool d)) (chain ts).
Proof using ok B C.
  assert (page_head (db_table d') = page_head (db_table d)) as -> by (pose proof (be_shape _ _ B) as S; unfold shape in S; injection S; congruence).
  rewrite (be_tail _ _ B). eapply chain_beside; [apply (ok_chain _ _ ok)|exact C|]. apply (ok_apart _ _ ok).
Qed.

Lemma fresh_from_keys i : (i ∉ pages_of ts) -> i ∉ supply (db_pool d) ->
  pool_pages (db_pool d') !! i = pool_pages (db_pool d) !! i /\ (i ∉ pages_of ts') /\ i ∉ supply (db_pool d').
Proof using C EP.
  intros H1 H2. rewrite (ch_supply _ _ _ _ C), elem_of_app in H2. rewrite (ch_frame _ _ _ _ C), EP, elem_of_app by tauto. tauto.
Qed.

Lemma table_ok_keys : table_ok d' ts1.
Proof using ok I' B C EP.
  split; [exact I'|apply chain_keys| |].
  - destruct (ok_tail _ _ ok) as (p & Ep & HO). exists p. rewrite (be_tail _ _ B). split; [|done]. rewrite <- Ep.
    assert (page_tail (db_table d) ∈ chain ts) as Ht.
    { destruct (chain_tail _ _ _ _ (ok_chain _ _ ok)) as (front & _ & -> & _). apply elem_of_app. right. by left. }
    apply fresh_from_keys; [by apply (ok_apart _ _ ok)|by apply (ca_fresh _ _ _ _ (ok_chain _ _ ok))].
  - intros i Hi. apply fresh_from_keys; [by apply (ok_apart _ _ ok)|by apply (ca_fresh _ _ _ _ (ok_chain _ _ ok))].
Qed.

Lemma stored_keys r vh tuple : stored d ts r vh tuple -> stored d' ts1 r vh tuple.
Proof using ok C EP.
  intros [(tb & roots & HB & HR & HF) HP HW Wv].
  assert (S1 : pool_pages (db_pool d') !! page_id r = pool_pages (db_pool d) !! page_id r).
  { apply fresh_from_keys; [by apply (ok_apart _ _ ok)|by apply (ca_fresh _ _ _ _ (ok_chain _ _ ok))]. }
  split; [|done|by rewrite S1|done]. exists tb, roots. rewrite (row_bytes_agree _ _ _ S1). split_and!; [done| |].
  - apply (rooted_agree (pool_pages (db_pool d))); [|done]. intros i Hi. destruct (HF i Hi) as (_ & F1 & F2). by apply fresh_from_keys.
  - intros i Hi. destruct (HF i Hi) as (F0 & F1 & F2). split; [done|]. by apply fresh_from_keys.
Qed.

Lemma versions_keys vs : versions d ts vs -> versions d' ts1 vs.
Proof using ok B C EP. intros V. apply (versions_frame d d' ts ts1 vs V); [apply chain_keys|apply stored_keys]. Qed.

End keys.

(** ** Writing a version *)

Lemma heal_open d ts : table_ok d ts ->
  heal_stale_tail (page_tail (db_table d)) d = Some (Ok (page_tail (db_table d)), d).
Proof.
  intros [_ _ (p & Ep & HO) _]. unfold heal_stale_tail. cbn [terminal_page]. rewrite Ep, bool_decide_eq_false_2 by set_solver.
  assert (L : 16 <= zlen p /\ next_page_id (header_at p) = 0).
  { destruct HO as [->|(W & _ & _ & N)]; [by vm_compute|]. pose proof (wf_len _ W) as L. cbn in L. lia. }
  destruct L as [L N]. rewrite ref_new_ok by done. cbn [exec_bind header]. rewrite N. cbn. by rewrite Z.eqb_refl.
Qed.

Lemma indexed_frame d d' ts touched new :
  indexed d ts -> changed (db_pool d) (db_pool d') touched new ->
  (forall i, i ∈ touched -> (i ∉ pages_of ts) /\ i ∉ supply (db_pool d)) ->
  (forall r, get_index (db_table d') r = get_index (db_table d) r) -> indexed d' ts.
Proof.
  intros [HR HT HP HS HF] C HD HG.
  split; try done.
  - rewrite Forall_forall in *. intros x Hx. destruct (HT x Hx) as (im & Gi & T). exists im. split; [by rewrite HG|].
    eapply tree_frame; [|exact T]. intros i Hi. assert (i ∈ pages_of ts).
    { apply list_elem_of_In, in_concat. exists (t_pages x.2). split; apply list_elem_of_In; [|done].
      by apply (list_elem_of_fmap_2 t_pages), (list_elem_of_fmap_2 snd). }
    apply (ch_frame _ _ _ _ C); [intros Ht; by destruct (HD i Ht)|]. intros Hn. apply (HF i); [done|].
    rewrite (ch_supply _ _ _ _ C). apply elem_of_app. by left.
  - apply (supply_ok_changed (db_pool d) _ touched new); [done..|]. intros i Hi. by apply HD.
  - intros i Hi Hs. apply (HF i Hi). rewrite (ch_supply _ _ _ _ C). apply elem_of_app. by right.
Qed.

Section writing.
Context (d : Db) (ts : Layout) (ok : table_ok d ts) (vh : VersionHeader.vheader) (bytes : list byte).
Context (Wv : VersionHeader.wf vh) (Hu : in_u32 (zlen bytes)) (HO : is_overflow_ref bytes = false).

Lemma tail_u32 : in_u32 (page_tail (db_table d)).
Proof using ok.
  destruct (chain_tail _ _ _ _ (ok_chain _ _ ok)) as (front & _ & E & _). pose proof (ca_u32 _ _ _ _ (ok_chain _ _ ok)) as U.
  rewrite E in U. by apply Forall_app in U as [_ [? _]%Forall_cons].
Qed.

(** What a written version changes: one slot at the end of the chain. *)
Record appended (d1 : Db) (ts1 : Layout) (rid : RowId) : Prop := {
  ap_ok : table_ok d1 ts1;
  ap_trees : trees ts1 = trees ts;
  ap_row : stored d1 ts1 rid vh bytes;
  ap_kept : forall r vh' tuple, stored d ts r vh' tuple -> stored d1 ts1 r vh' tuple;
  ap_versions : forall vs, versions d ts vs -> versions d1 ts1 (vs ++ [mk_version rid vh bytes]) }.

Lemma written_frame d1 rid new :
  written (db_pool d) (db_pool d1) (page_tail (db_table d)) rid vh bytes new ->
  db_table d1 = set_tail (db_table d) (page_id rid) -> exists ts1, appended d1 ts1 rid.
Proof using ok Wv.
  intros W ET. destruct ok as [HI HC (p & Ep & HOp) HA]. set (tail := page_tail (db_table d)) in *.
  pose proof (ix_supply _ _ HI) as HS.
  destruct (chain_written _ _ _ _ _ _ _ _ _ HS HC Wv W) as (tb & roots & ids' & RB & RT & RF & C' & Hin & _ & Rows).
  pose proof (fun i => new_pages _ _ _ _ _ _ _ _ _ HS HC W i) as New. pose proof (wr_supply _ _ _ _ _ _ _ W) as WS.
  assert (Ht : tail ∈ chain ts) by (destruct (chain_tail _ _ _ _ HC) as (front & _ & -> & _); apply elem_of_app; right; by left).
  assert (C : changed (db_pool d) (db_pool d1) [tail] new).
  { split; [|done]. intros i Hi Hn. apply (wr_frame _ _ _ _ _ _ _ W); [|done]. intros ->. apply Hi. by left. }
  assert (I1 : indexed d1 ts).
  { eapply indexed_frame; [exact HI|exact C| |by rewrite ET; intros [| |]]. intros i Hi%list_elem_of_singleton. subst i.
    split; [by apply HA|by apply (ca_fresh _ _ _ _ HC)]. }
  assert (Wf : forall i x, i ∈ ids' -> pool_pages (db_pool d1) !! i = Some x -> page_wf (raw_page x)).
  { intros i x Hi Ex. destruct (ca_pages _ _ _ _ C') as [[-> _]|HD].
    - apply list_elem_of_singleton in Hi as ->. apply (wr_wf _ _ _ _ _ _ _ W (page_id rid)); [by left|done].
    - apply list_elem_of_lookup_1 in Hi as [k Hk]. apply chain_linked in HD as [_ HL]. destruct (HL k i Hk) as (x' & Ex' & SP & _).
      rewrite Ex in Ex'. injection Ex' as <-. apply SP. }
  assert (Apart : forall i, i ∈ ids' -> i ∉ pages_of ts).
  { intros i [Hi| ->]%Hin; [by apply HA|]. pose proof (wr_page _ _ _ _ _ _ _ W) as [->|Hn]%elem_of_cons; [by apply HA|].
    intros Hp. by apply (ix_fresh _ _ HI _ Hp), New. }
  set (ts1 := mk_layout ts ids').
  assert (Row : stored d1 ts1 rid vh bytes).
  { split; [|apply Hin; by right|intros x; apply Wf, Hin; by right|done]. exists tb, roots. split_and!; [done..|].
    intros i Hi. destruct (RF i Hi) as [Hn Hc]. destruct (New i Hn) as (N1 & _ & N2). split_and!; [done| |done].
    intros Hp. by apply (ix_fresh _ _ HI _ Hp). }
  assert (Kept : forall r vh' tuple, stored d ts r vh' tuple -> stored d1 ts1 r vh' tuple).
  { intros r vh' tuple [(tb' & roots' & HB & HR & HF) HP HW Wv'].
    assert (r <> rid) as Hne by (intros ->; by rewrite (wr_unused _ _ _ _ _ _ _ W) in HB).
    assert (is_Some (pool_pages (db_pool d) !! page_id r)).
    { unfold DataPage.row_bytes in HB. destruct (pool_pages (db_pool d) !! page_id r); [by eexists|done]. }
    split; [|apply Hin; by left|intros x; apply Wf, Hin; by left|done].
    exists tb', roots'. rewrite (wr_rows _ _ _ _ _ _ _ W) by done. split_and!; [done| |].
    - apply (rooted_agree (pool_pages (db_pool d))); [|done]. intros i Hi. destruct (HF i Hi) as (F1 & F2 & F3).
      apply (wr_frame _ _ _ _ _ _ _ W); [by intros ->|]. intros Hn. by apply F3, New.
    - intros i Hi. destruct (HF i Hi) as (F1 & F2 & F3). split_and!; [|done|].
      + intros [Hi'| ->]%Hin; [done|]. pose proof (wr_page _ _ _ _ _ _ _ W) as [E|Hn]%elem_of_cons; [by rewrite E in F1|by apply F3, New].
      + intros Hs. apply F3. rewrite WS. apply elem_of_app. by right. }
  exists ts1. split; try done.
  - split; [done|by rewrite ET| |done]. rewrite ET. exact (wr_tail _ _ _ _ _ _ _ W).
  - intros vs V. unfold versions. cbn [chain ts1]. rewrite Rows. apply Forall2_app.
    + eapply Forall2_impl; [exact V|]. intros slot v (A & B & D). split_and!; [done..|]. by apply Kept.
    + constructor; [|constructor]. by split_and!.
Qed.

Lemma tm_write_ok :
  (length (chunk_plan (zlen bytes)) + 1 <= length (supply (db_pool d)))%nat ->
  exists rid d1 new, tm_write_tuple vh bytes d = Some (Ok rid, d1)
    /\ written (db_pool d) (db_pool d1) (page_tail (db_table d)) rid vh bytes new
    /\ db_table d1 = set_tail (db_table d) (page_id rid)
    /\ (db_catalog_tail d = page_tail (db_table d) -> db_catalog_tail d1 = page_id rid)
    /\ db_vis d1 = db_vis d /\ db_tx d1 = db_tx d /\ db_wal d1 = db_wal d
    /\ (length new <= length (chunk_plan (zlen bytes)) + 1)%nat.
Proof using All.
  intros HL. pose proof ok as [HI _ (p & Ep & HOp) _]. pose proof tail_u32 as HU.
  destruct (write_total (db_pool d) (page_tail (db_table d)) p vh bytes (ix_supply _ _ HI) HU Ep HOp Wv Hu HO HL)
    as (rid & p' & new & E & W & Ln).
  unfold tm_write_tuple. unfold s_bind at 1, s_table. unfold s_bind at 1. rewrite (heal_open d ts ok).
  unfold s_bind at 1, s_write_tuple at 1. rewrite E. cbn [exec_map_err]. unfold s_bind.
  destruct (Z.eqb_spec (page_id rid) (page_tail (db_table d))) as [Eq|Ne].
  - eexists rid, _, new. split_and!; try done. cbn. intros. congruence.
  - eexists rid, _, new. split_and!; try done.
Qed.

End writing.

(** ** Insertion *)

Lemma row_slot_wf pages r bytes d :
  DataPage.row_bytes pages r = Some bytes -> pages !! page_id r = Some d -> page_wf (raw_page d) -> in_u16 (slot_id r).
Proof.
  unfold DataPage.row_bytes. intros H E W. rewrite E in H. cbn [mbind option_bind] in H. rewrite a_find_abs in H.
  destruct (find_lid (slot_id r) (slots (raw_page d)) 0) as [[s i]|] eqn:F; [|done].
  apply find_lid_Some in F as (k & _ & Hk & HL). apply list_elem_of_lookup_2 in Hk.
  pose proof (wf_lids _ W) as L. rewrite Forall_forall in L. specialize (L s Hk).
  destruct (slot_nonneg _ s W Hk) as [_ L0]. destruct (wf_header_wf _ W) as [_ _ _ Hn _]. word_lia.
Qed.

Lemma stored_id d ts rid vh tuple : table_ok d ts -> stored d ts rid vh tuple -> row_id_wf rid.
Proof.
  intros ok [(tb & roots & RB & _) RP RW _]. split.
  - pose proof (ca_u32 _ _ _ _ (ok_chain _ _ ok)) as U. rewrite Forall_forall in U. by apply U.
  - pose proof RB as RB'. unfold DataPage.row_bytes in RB'.
    destruct (pool_pages (db_pool d) !! page_id rid) as [pg|] eqn:Epg; [|done]. apply (row_slot_wf _ _ _ pg RB Epg). by apply RW.
Qed.

Section insertion.
Context (fuel bound : nat) (tx : Z) (Htx : in_u64 tx) (Hf : (bound < fuel)%nat).

(** The free pages an insertion may take. *)
Definition row_cost (t : TableMeta) (row : Row) : nat :=
  length (chunk_plan (zlen (enc_values row))) + 1 + length (row_keys t row) * (bound + 2).

(** What an insertion leaves behind. *)
Record inserted (d : Db) (ts : Layout) (row : Row) (d' : Db) (ts' : Layout) (rid : RowId) : Prop := {
  in_ok : table_ok d' ts';
  in_shape : shape (db_table d') = shape (db_table d);
  in_grown : Forall2 (grown rid (row_keys (db_table d) row)) ts ts';
  in_row : stored d' ts' rid (VersionHeader.vh_new tx None) (enc_values row);
  in_kept : forall r vh tuple, stored d ts r vh tuple -> stored d' ts' r vh tuple;
  in_versions : forall vs, versions d ts vs -> versions d' ts' (vs ++ [mk_version rid (VersionHeader.vh_new tx None) (enc_values row)]);
  in_vis : db_vis d' = DataScan.update_visibility_on_insert (DataScan.clear_all_visible (db_vis d) (page_id rid)) (page_id rid) tx;
  in_catalog : db_catalog_tail d = page_tail (db_table d) -> db_catalog_tail d' = page_tail (db_table d');
  in_wal : db_wal d' = (fun w => w ++ [WInsert tx (table_name (db_table d)) rid (enc_values row)]) <$> db_wal d;
  in_tx : db_tx d' = TxManager.record_version (db_tx d) tx (table_name (db_table d)) rid;
  in_supply : (length (supply (db_pool d)) <= length (supply (db_pool d')) + row_cost (db_table d) row)%nat }.

Lemma insert_row_ok d ts row :
  table_ok d ts -> fits (db_table d) row -> NoDup (spot <$> row_keys (db_table d) row) ->
  Forall (absent ts) (row_keys (db_table d) row) ->
  Forall (fun x => t_height x.2 + length (row_keys (db_table d) row) <= bound)%nat ts ->
  (row_cost (db_table d) row <= length (supply (db_pool d)))%nat ->
  exists d' ts' rid, insert_row fuel tx row d = Some (Ok tt, d') /\ inserted d ts row d' ts' rid.
Proof using Htx Hf.
  intros ok F ND HA HB HC. set (t := db_table d) in *. unfold row_cost in HC.
  assert (Wv : VersionHeader.wf (VersionHeader.vh_new tx None)) by (split_and!; [done|by vm_compute|done]).
  assert (HO : is_overflow_ref (enc_values row) = false) by (apply (locator_classification 0 0 []); by vm_compute).
  destruct (tm_write_ok d ts ok _ (enc_values row) Wv (ft_size _ _ F) HO) as (rid & d1 & n1 & E & W & ET & EC & EV & EX & EL & Ln); [lia|].
  destruct (written_frame d ts ok _ _ Wv d1 rid n1 W ET) as (ts1 & [ok1 Et1 Row1 Keep1 Ver1]).
  set (d2 := with_tx (TxManager.record_version (db_tx d1) tx (table_name t) rid)
    (with_wal ((fun w => w ++ [WInsert tx (table_name t) rid (enc_values row)]) <$> db_wal d1)
    (with_vis (DataScan.update_visibility_on_insert (DataScan.clear_all_visible (db_vis d1) (page_id rid)) (page_id rid) tx) d1))).
  assert (ok2 : table_ok d2 ts1) by (destruct ok1 as [[A B C D G] U X Y]; by split).
  pose proof (stored_id _ _ _ _ _ ok1 Row1) as Wr. pose proof (ok_indexed _ _ ok2) as I1. rewrite Et1 in I1.
  pose proof (f_equal length (wr_supply _ _ _ _ _ _ _ W)) as LS. rewrite length_app in LS.
  destruct (insert_keys_ok fuel rid bound (row_keys t row) d2 ts I1) as (d' & ts' & n2 & E2 & I2 & G2 & EP & B2 & C2 & L2);
    try done; [apply row_keys_short|split; [cbn; lia|done]|].
  pose proof (f_equal length (ch_supply _ _ _ _ C2)) as LS2. rewrite length_app in LS2. cbn [db_pool d2 with_tx with_wal with_vis] in LS2.
  rewrite <- Et1 in EP, C2. exists d', (mk_layout ts' (chain ts1)), rid. split.
  - unfold insert_row. unfold s_bind at 1. rewrite (gates_pass fuel bound d ts); try done; [|apply (ok_indexed _ _ ok)|].
    2:{ eapply Forall_impl; [exact HB|]. cbn. lia. }
    unfold insert_write. unfold s_bind at 1, s_table. fold t. unfold s_bind at 1. rewrite E.
    destruct (lookup_lt_is_Some_2 row (pk_index t) (ft_pk _ _ F)) as [v Hv].
    rewrite <- E2. rewrite <- (insert_indexes_plan fuel rid t row v d2 Hv); [|eapply Forall_impl; [apply (ft_unique _ _ F)|]; naive_solver].
    unfold s_clear_all_visible, s_visible_on_insert, s_log, s_record_version, s_modify, s_bind at 1 2 3 4 5.
    unfold at_index. rewrite Hv. unfold s_ret at 1. cbn. unfold d2, with_tx, with_wal, with_vis. cbn. by rewrite ET.
  - split.
    + by apply (table_ok_keys d2 d' ts1 ts' n2).
    + rewrite (be_shape _ _ B2). cbn. by rewrite ET.
    + done.
    + by apply (stored_keys d2 d' ts1 ts' n2).
    + intros r vh tuple H. apply (stored_keys d2 d' ts1 ts' n2); try done. by apply Keep1.
    + intros vs V. apply (versions_keys d2 d' ts1 ts' n2); try done. by apply Ver1.
    + rewrite (be_vis _ _ B2). cbn. by rewrite EV.
    + intros H. rewrite (be_catalog _ _ B2), (be_tail _ _ B2). cbn. rewrite ET. by apply EC.
    + rewrite (be_wal _ _ B2). cbn. by rewrite EL.
    + rewrite (be_tx _ _ B2). cbn. by rewrite EX.
    + unfold row_cost. fold t. lia.
Qed.

End insertion.

(** ** Many rows *)

(** A page whose summary neither vouches for its rows nor hides one of [tx]. *)
Definition summary_open (vis : DataScan.VisMap) (tx pid : Z) : Prop :=
  exists v, vis !! pid = Some v /\ PageVis.all_visible v = false /\ PageVis.min_create_tx_id v <= tx.

Lemma summary_insert vis tx pid : in_u64 tx ->
  let vis' := DataScan.update_visibility_on_insert (DataScan.clear_all_visible vis pid) pid tx in
  summary_open vis' tx pid /\ forall c q, summary_open vis c q -> summary_open vis' c q.
Proof.
  intros Htx. unfold DataScan.update_visibility_on_insert, DataScan.clear_all_visible, summary_open. cbv zeta. split.
  - destruct (vis !! pid) as [v|]; rewrite lookup_insert_eq, lookup_insert_eq; eexists; (split; [done|]); cbn; split; lia || done.
  - intros c q (v & Hv & Av & Hm). destruct (decide (q = pid)) as [->|Hne].
    + rewrite Hv, lookup_insert_eq, lookup_insert_eq. eexists. split; [done|]. cbn. split; [done|lia].
    + exists v. destruct (vis !! pid); rewrite lookup_insert_eq, !lookup_insert_ne by done; done.
Qed.

(** An index entry. *)
Definition entry (ts : Trees) (r : IndexRef) (z : list byte) (rid : RowId) : Prop :=
  exists t, (r, t) ∈ ts /\ index_map (t_entries t) !! z = Some rid.

Lemma grown_at rid plan ts ts' r t : Forall2 (grown rid plan) ts ts' -> (r, t) ∈ ts ->
  exists t', (r, t') ∈ ts' /\ index_map (t_entries t') = grow rid plan r (index_map (t_entries t))
    /\ (t_height t' <= t_height t + length plan)%nat.
Proof.
  intros G Ht. apply list_elem_of_lookup_1 in Ht as [i Hi]. destruct (Forall2_lookup_l _ _ _ _ _ G Hi) as ([r' t'] & Hi' & E & EM & EH).
  cbn in E. subst r'. exists t'. split; [by eapply list_elem_of_lookup_2|done].
Qed.

Lemma grown_from rid plan ts ts' r t' : Forall2 (grown rid plan) ts ts' -> (r, t') ∈ ts' ->
  exists t, (r, t) ∈ ts /\ (t_height t' <= t_height t + length plan)%nat.
Proof.
  intros G Ht. apply list_elem_of_lookup_1 in Ht as [i Hi]. destruct (Forall2_lookup_r _ _ _ _ _ G Hi) as ([r0 t] & Hi' & E & EM & EH).
  cbn in E. subst r0. exists t. split; [by eapply list_elem_of_lookup_2|done].
Qed.

Lemma entry_new rid plan ts ts' r key : Forall2 (grown rid plan) ts ts' -> Forall (absent ts) plan -> (r, key) ∈ plan ->
  entry ts' r (pad32 key) rid.
Proof.
  intros G A H. rewrite Forall_forall in A. destruct (A _ H) as (t & Ht & _). destruct (grown_at _ _ _ _ _ _ G Ht) as (t' & Ht' & EM & _).
  exists t'. split; [done|]. rewrite EM. by apply grow_in.
Qed.

Lemma entry_kept rid plan ts ts' r z x : Forall2 (grown rid plan) ts ts' -> NoDup ts.*1 -> Forall (absent ts) plan -> entry ts r z x ->
  entry ts' r z x.
Proof.
  intros G ND A (t & Ht & Hz). destruct (grown_at _ _ _ _ _ _ G Ht) as (t' & Ht' & EM & _). exists t'. split; [done|].
  rewrite EM, grow_out; [done|]. intros key Hk <-. rewrite Forall_forall in A. destruct (A _ Hk) as (t2 & Ht2 & N). cbn [fst snd] in *.
  assert (t2 = t) as ->; [|by rewrite N in Hz]. apply list_elem_of_lookup_1 in Ht as [i Hi], Ht2 as [j Hj].
  assert (i = j) as ->; [|by rewrite Hi in Hj; injection Hj].
  eapply NoDup_lookup; [exact ND|rewrite list_lookup_fmap, Hi; done|rewrite list_lookup_fmap, Hj; done].
Qed.

Lemma absent_kept rid plan ts ts' p : Forall2 (grown rid plan) ts ts' -> absent ts p -> (spot p ∉ spot <$> plan) -> absent ts' p.
Proof.
  intros G (t & Ht & N) Hs. destruct (grown_at _ _ _ _ _ _ G Ht) as (t' & Ht' & EM & _). exists t'. split; [done|].
  rewrite EM, grow_out; [done|]. intros key Hk E. apply Hs. replace (spot p) with (spot (p.1, key)); [by apply list_elem_of_fmap_2|].
  unfold spot. cbn [fst snd]. by rewrite E.
Qed.

Section rows.
Context (fuel bound : nat) (tx : Z) (Htx : in_u64 tx) (Hf : (bound < fuel)%nat).

Definition rows_keys (t : TableMeta) (rows : list Row) : list (IndexRef * list byte) := rows ≫= row_keys t.
Fixpoint rows_cost (t : TableMeta) (rows : list Row) : nat :=
  match rows with [] => 0 | row :: rows => row_cost bound t row + rows_cost t rows end.

Lemma rows_shape t t' rows : shape t = shape t' -> rows_keys t rows = rows_keys t' rows /\ rows_cost t rows = rows_cost t' rows.
Proof using.
  intros S. unfold rows_keys. induction rows as [|row rows [IH1 IH2]]; [done|]. cbn [mbind list_bind rows_cost]. unfold row_cost.
  rewrite (row_keys_shape t t' row S), IH2. split; [|done]. f_equal. exact IH1.
Qed.

(** A row of the statement, where it is and how it is found. *)
Record there (d : Db) (ts : Layout) (row : Row) (rid : RowId) : Prop := {
  th_row : stored d ts rid (VersionHeader.vh_new tx None) (enc_values row);
  th_vis : summary_open (db_vis d) tx (page_id rid);
  th_keys : forall r key, (r, key) ∈ row_keys (db_table d) row -> entry ts r (pad32 key) rid }.

Definition new_versions (rows : list Row) (rids : list RowId) : list Version :=
  zip_with (fun row rid => mk_version rid (VersionHeader.vh_new tx None) (enc_values row)) rows rids.

(** The summary of a page that takes a row. *)
Definition note_row (vis : DataScan.VisMap) (rid : RowId) : DataScan.VisMap :=
  DataScan.update_visibility_on_insert (DataScan.clear_all_visible vis (page_id rid)) (page_id rid) tx.

(** What the rows of a statement leave behind. *)
Record rows_inserted (d : Db) (ts : Layout) (rows : list Row) (d' : Db) (ts' : Layout) (rids : list RowId) : Prop := {
  ri_ok : table_ok d' ts';
  ri_shape : shape (db_table d') = shape (db_table d);
  ri_heights : Forall (fun x => t_height x.2 <= bound)%nat ts';
  ri_there : Forall2 (there d' ts') rows rids;
  ri_kept : forall row rid, there d ts row rid -> there d' ts' row rid;
  ri_versions : forall vs, versions d ts vs -> versions d' ts' (vs ++ new_versions rows rids);
  ri_vis : db_vis d' = foldl note_row (db_vis d) rids;
  ri_wal : db_wal d' = (fun w => w ++ zip_with (fun row rid => WInsert tx (table_name (db_table d)) rid (enc_values row)) rows rids) <$> db_wal d;
  ri_tx : db_tx d' = foldl (fun m rid => TxManager.record_version m tx (table_name (db_table d)) rid) (db_tx d) rids }.

Lemma insert_rows_ok rows d ts count :
  table_ok d ts -> Forall (fits (db_table d)) rows -> NoDup (spot <$> rows_keys (db_table d) rows) ->
  Forall (absent ts) (rows_keys (db_table d) rows) ->
  Forall (fun x => t_height x.2 + length (rows_keys (db_table d) rows) <= bound)%nat ts ->
  (rows_cost (db_table d) rows <= length (supply (db_pool d)))%nat ->
  exists d' ts' rids, insert_rows fuel tx rows count d = Some (Ok (count + zlen rows), d') /\ rows_inserted d ts rows d' ts' rids.
Proof using Htx Hf.
  revert d ts count. induction rows as [|row rows IH]; intros d ts count ok FF ND HA HB HC.
  { exists d, ts, []. cbn in *. rewrite zlen_nil, Z.add_0_r. split; [done|].
    split; try done; [|intros vs; cbn; by rewrite app_nil_r|].
    2:{ destruct (db_wal d); [|done]. cbn. by rewrite app_nil_r. }
    eapply Forall_impl; [exact HB|]. cbn. lia. }
  apply Forall_cons in FF as [F FF]. cbn [rows_cost] in HC.
  change (rows_keys (db_table d) (row :: rows)) with (row_keys (db_table d) row ++ rows_keys (db_table d) rows) in *.
  set (t := db_table d) in *. rewrite fmap_app in ND. apply NoDup_app in ND as (ND1 & Dj & ND2). apply Forall_app in HA as [A1 A2].
  rewrite length_app in HB.
  destruct (insert_row_ok fuel bound tx Htx Hf d ts row ok F ND1 A1) as (d1 & ts1 & rid & E & In).
  { eapply Forall_impl; [exact HB|]. fold t. intros x Hx. cbv beta in *. lia. }
  { fold t. lia. }
  pose proof (in_shape _ _ _ _ _ _ _ _ In) as Sh. pose proof (in_supply _ _ _ _ _ _ _ _ In) as Ls. fold t in Sh, Ls.
  assert (Name : table_name (db_table d1) = table_name t) by (unfold shape in Sh; injection Sh; congruence).
  assert (EK : forall r, row_keys (db_table d1) r = row_keys t r) by (intros r; by apply row_keys_shape).
  destruct (rows_shape (db_table d1) t rows Sh) as [EB EC].
  pose proof (in_grown _ _ _ _ _ _ _ _ In) as G. fold t in G.
  destruct (summary_insert (db_vis d) tx (page_id rid) Htx) as [V1 V2]. rewrite <- (in_vis _ _ _ _ _ _ _ _ In) in V1, V2.
  destruct (IH d1 ts1 (count + 1)) as (d' & ts' & rids & E' & [ok' Sh' HB' T' K' Ve' Vi' Wa' Tx']).
  - apply (in_ok _ _ _ _ _ _ _ _ In).
  - eapply Forall_impl; [exact FF|]. intros r. apply fits_shape. done.
  - by rewrite EB.
  - rewrite EB. rewrite Forall_forall in *. intros p Hp. apply (absent_kept rid (row_keys t row) ts); [done|by apply A2|].
    intros Hin. apply (Dj _ Hin). by apply list_elem_of_fmap_2.
  - rewrite EB. rewrite Forall_forall in *. intros [r t'] Ht'. destruct (grown_from _ _ _ _ _ _ G Ht') as (t0 & Ht0 & Hh).
    specialize (HB _ Ht0). cbn in *. lia.
  - rewrite EC. lia.
  - assert (Here : there d1 ts1 row rid).
    { split; [apply (in_row _ _ _ _ _ _ _ _ In)|done|]. intros r key. rewrite EK. by apply entry_new with (ts := ts). }
    exists d', ts', (rid :: rids). split.
    + cbn [insert_rows]. unfold s_bind. rewrite prepare_fits by done. rewrite E, E'. do 3 f_equal. rewrite zlen_cons. lia.
    + split; try done.
      * by rewrite Sh'.
      * constructor; [by apply K'|done].
      * intros row0 rid0 [T1 T2 T3]. apply K'. split; [by apply (in_kept _ _ _ _ _ _ _ _ In)|by apply V2|].
        intros r key. rewrite EK. intros Hk. apply (entry_kept rid (row_keys t row) ts); try done; [apply (ix_refs _ _ (ok_indexed _ _ ok))|by apply T3].
      * intros vs V. cbn [new_versions zip_with]. rewrite cons_middle, app_assoc. by apply Ve', (in_versions _ _ _ _ _ _ _ _ In).
      * by rewrite Vi', (in_vis _ _ _ _ _ _ _ _ In).
      * rewrite Wa', (in_wal _ _ _ _ _ _ _ _ In), Name. cbn [zip_with]. fold t. destruct (db_wal d); [|done]. cbn. by rewrite <- app_assoc.
      * rewrite Tx', (in_tx _ _ _ _ _ _ _ _ In), Name. done.
Qed.

End rows.

(** ** Lookups *)

Lemma visible_slot_ok pages r bytes d :
  DataPage.row_bytes pages r = Some bytes -> pages !! page_id r = Some d -> page_wf (raw_page d) ->
  (zlen bytes <? VersionHeader.SIZE) = false -> DataScan.visible_slot d r = Ok (Some bytes).
Proof.
  unfold DataPage.row_bytes. intros H E W HL. rewrite E in H. cbn [mbind option_bind] in H. rewrite a_find_abs in H.
  pose proof (wf_len _ W) as L. cbn [raw_page page] in L.
  unfold DataScan.visible_slot. rewrite ref_new_ok by lia. cbn [exec_bind header].
  pose proof (wf_not_exceeds _ W) as HC. cbn [raw_page page_header] in HC. rewrite HC.
  pose proof (wf_slot_count _ W) as HS. cbn [raw_page page_header] in HS.
  rewrite get_slot_by_logical_id_ok by done. cbn [exec_bind header data].
  change (slots_of d (slot_count (header_at d))) with (slots (raw_page d)).
  destruct (find_lid (slot_id r) (slots (raw_page d)) 0) as [[s i]|] eqn:Hf; [|done].
  apply find_lid_Some in Hf as (k & _ & Hk & _). apply list_elem_of_lookup_2 in Hk.
  change {| data := d; header := header_at d |} with (sp_view (raw_page d)). rewrite (checked_data_wf _ s W Hk).
  cbn in H. injection H as H. cbn [raw_page page]. rewrite H. by rewrite HL.
Qed.

Lemma slot_tuple_ok pages tb tuple : resolve pages (from_slot_tuple tb) = Ok tuple -> DataScan.slot_tuple pages tb = Ok tuple.
Proof.
  unfold DataScan.slot_tuple, from_slot_tuple, is_overflow_ref, decode_locator. rewrite Z.leb_antisym.
  destruct (zlen tb <? LOCATOR_SIZE), (starts_with_tag tb); cbn [negb orb andb resolve]; try by intros [= ->].
Qed.

(** What a snapshot shows of a version. *)
Definition shown (sn : Snapshot.snapshot) (vh : VersionHeader.vheader) : bool :=
  Snapshot.is_visible sn (VersionHeader.create_tx_id vh) (VersionHeader.commit_tx_id vh)
  || Snapshot.is_visible_self sn (VersionHeader.create_tx_id vh) (VersionHeader.commit_tx_id vh).

(** One step along the versions of a row. *)
Lemma walk_stored d ts rid vh tuple older sn n :
  stored d ts rid vh tuple -> VersionHeader.next_version vh = Ok older ->
  DataScan.walk_versions (pool_pages (db_pool d)) sn (S n) (Some rid)
  = if shown sn vh then Some (Ok (Some tuple)) else DataScan.walk_versions (pool_pages (db_pool d)) sn n older.
Proof.
  intros [(tb & roots & HB & HR & _) _ HW Wv] HN. cbn [DataScan.walk_versions]. pose proof HB as HB'. unfold DataPage.row_bytes in HB'.
  destruct (pool_pages (db_pool d) !! page_id rid) as [pg|] eqn:E; [|done]. clear HB'.
  pose proof (VersionFacts.length_to_bytes _ Wv) as L.
  rewrite (visible_slot_ok _ _ _ pg HB E (HW _ eq_refl)).
  2:{ apply Z.ltb_ge. rewrite zlen_app. pose proof (zlen_nonneg tb). unfold VersionHeader.SIZE, zlen in *. lia. }
  set (vb := VersionHeader.to_bytes vh) in *. assert (ZV : zlen vb = 22) by (unfold zlen; lia).
  rewrite (slice_app_l vb tb 0 VersionHeader.SIZE), slice_whole by (unfold VersionHeader.SIZE; lia).
  pose proof (VersionFacts.from_to_bytes vh [] Wv) as FB. rewrite app_nil_r in FB. fold vb in FB. rewrite FB.
  fold (shown sn vh). destruct (shown sn vh); [|by rewrite HN].
  rewrite slice_app_r, zlen_app by (unfold VersionHeader.SIZE; lia). rewrite ZV. change VersionHeader.SIZE with 22.
  replace (22 + zlen tb - 22) with (zlen tb) by lia. rewrite slice_whole by lia.
  by rewrite (slot_tuple_ok _ _ tuple (HR _ (fun _ _ => eq_refl))).
Qed.

(** A summary that does not vouch for its page leaves the versions to be walked. *)
Lemma find_walk pages vis rid sn n v :
  vis !! page_id rid = Some v -> PageVis.all_visible v = false -> PageVis.all_invisible_for v (Snapshot.high_water sn) = false ->
  DataScan.find_visible_version pages vis n rid sn = DataScan.walk_versions pages sn n (Some rid).
Proof. intros Hv A I. unfold DataScan.find_visible_version, DataScan.get_visibility. by rewrite Hv, A, I. Qed.

(** What a reader finds under the row id of a new row. *)
Lemma find_new d ts tx rid tuple sn n :
  stored d ts rid (VersionHeader.vh_new tx None) tuple -> summary_open (db_vis d) tx (page_id rid) ->
  (Snapshot.tx_id sn = tx -> tx <= Snapshot.high_water sn) -> (2 <= n)%nat ->
  DataScan.find_visible_version (pool_pages (db_pool d)) (db_vis d) n rid sn
  = Some (Ok (if tx =? Snapshot.tx_id sn then Some tuple else None)).
Proof.
  intros St (v & Hv & Av & Hm) HH Hn. destruct n as [|[|n]]; [lia..|].
  pose proof (walk_stored d ts rid _ tuple None sn (S n) St eq_refl) as Walk.
  assert (SH : shown sn (VersionHeader.vh_new tx None) = (tx =? Snapshot.tx_id sn)).
  { unfold shown. change (VersionHeader.commit_tx_id (VersionHeader.vh_new tx None)) with (@None Z).
    unfold Snapshot.is_visible_self. cbn. by rewrite andb_true_r. }
  rewrite SH in Walk. change (DataScan.walk_versions _ _ (S n) None) with (@Some (exec StorageError (option (list byte))) (Ok None)) in Walk.
  destruct (PageVis.all_invisible_for v (Snapshot.high_water sn)) eqn:I.
  - unfold DataScan.find_visible_version, DataScan.get_visibility. rewrite Hv, Av, I.
    destruct (Z.eqb_spec tx (Snapshot.tx_id sn)) as [E|E]; [|done]. exfalso. specialize (HH (eq_sym E)).
    unfold PageVis.all_invisible_for in I. apply andb_true_iff in I as [_ I%Z.ltb_lt]. lia.
  - rewrite (find_walk _ _ _ _ _ v Hv Av I), Walk. by destruct (tx =? _).
Qed.

(** The lookup of a primary key on the state a statement left. *)
Definition key_lookup (d : Db) (sn : option Snapshot.snapshot) (projection : list Z) (key : list byte) : IndexScanExecutor :=
  mk_index_scan_executor (mk_reader (db_table d) (db_pool d) (db_vis d) sn projection) key false.

(** A reader without a snapshot takes the version as it is; a snapshot shows what
    its own transaction has not committed. *)
Definition sees (sn : option Snapshot.snapshot) (tx : Z) : bool :=
  match sn with None => true | Some s => tx =? Snapshot.tx_id s end.

Definition sane (sn : option Snapshot.snapshot) (tx : Z) : Prop :=
  match sn with None => True | Some s => Snapshot.tx_id s = tx -> tx <= Snapshot.high_water s end.

Lemma read_back t row : fits t row -> deserialize_row (enc_values row) (table_schema t) (column_defaults t) = Ok row.
Proof.
  intros F. rewrite deserialize_row_enc by apply F. rewrite row_view_same; [done|]. apply (Forall2_length _ _ _ (ft_types _ _ F)).
Qed.

Section lookup.
Context {rt : Runtime} (bound : nat) (d : Db) (ts : Layout) (sn : option Snapshot.snapshot) (projection : list Z).
Context (ok : table_ok d ts) (HB : Forall (fun x => t_height x.2 <= bound)%nat ts).
Context (HN : is_in_flight (table_narrowing (db_table d)) = false).

Let r : Reader := mk_reader (db_table d) (db_pool d) (db_vis d) sn projection.

(** A lookup gives what its reader sees under the row id of the key. *)
Lemma lookup_entry key rid found outs :
  entry ts PkIndex (pad32 key) rid -> zlen key <= 32 ->
  (forall n, (3 <= n)%nat -> visible_row n r rid unlimited = Some (Ok found, unlimited)) ->
  match found with Some row => exists out, apply_projection projection row = Ok out /\ outs = [ResRow out] | None => outs = [] end ->
  yields (key_lookup d sn projection key) outs (Ok tt).
Proof using All.
  intros (t & Ht & Hz) HS HV HO. set (n := S (S (S bound))). specialize (HV n ltac:(lia)).
  pose proof (search_ok n bound d ts (ok_indexed _ _ ok) HB ltac:(lia) PkIndex t key Ht HS) as SO. unfold s_search, index_read in SO. cbn [get_index] in SO.
  destruct (im_search n (index_manager (db_table d)) key (db_pool d)) as [[x P']|] eqn:ES; [|done].
  cbn in SO. injection SO as SO _. rewrite Hz in SO.
  assert (x = Ok (Some rid)) as -> by (destruct x; cbn in SO; congruence).
  set (s := key_lookup d sn projection key). set (s' := mk_index_scan_executor r key true).
  assert (RD : rd_readable r unlimited = Some (Ok tt, unlimited)).
  { unfold rd_readable, q_store, q_lift, ensure_readable. cbn [rd_table r]. by rewrite HN. }
  assert (EI : q_index r (im_search n (index_manager (rd_table r)) key) unlimited = Some (Ok (Some rid), unlimited)).
  { unfold q_index, q_read, q_store, q_lift. cbn [rd_table rd_pool r]. by rewrite ES. }
  assert (E : next n s unlimited = match outs with x :: _ => Some (Ok (Some x, s'), unlimited) | [] => Some (Ok (None, s'), unlimited) end).
  { cbn [next index_scan_executor]. unfold index_scan_next. cbn [n ix_reader s key_lookup ix_executed ix_key]. fold r n.
    rewrite (q_bind_ret _ _ _ _ _ RD), (q_bind_ret _ _ _ _ _ EI), (q_bind_ret _ _ _ _ _ HV).
    destruct found as [row|]; [|by rewrite HO]. destruct HO as (out & HP & ->).
    unfold q_bind, rd_project, q_lift. cbn [rd_projection r]. by rewrite HP. }
  assert (E' : next n s' unlimited = Some (Ok (None, s'), unlimited)).
  { cbn [next index_scan_executor]. unfold index_scan_next. cbn [n ix_reader s' ix_executed]. by rewrite (q_bind_ret _ _ _ _ _ RD). }
  destruct found as [row|]; [destruct HO as (out & _ & ->); eapply yields_next; [exact E|]|rewrite HO in *]; eapply yields_end; [exact E'|exact E].
Qed.

(** A reader with a snapshot decodes the version it finds. *)
Lemma visible_found n rid s row found :
  sn = Some s -> fits (db_table d) row ->
  DataScan.find_visible_version (pool_pages (db_pool d)) (db_vis d) n rid s
  = Some (Ok (if found : bool then Some (enc_values row) else None)) ->
  visible_row n r rid unlimited = Some (Ok (if found then Some row else None), unlimited).
Proof using.
  intros -> F E. unfold visible_row. cbn [rd_snapshot rd_pool rd_vis r]. rewrite E.
  unfold q_bind, q_read, q_store, q_lift. cbn [fmap option_fmap option_map exec_map_err].
  destruct found; [|done]. unfold read_row. cbn [rd_table r]. by rewrite read_back.
Qed.

(** A reader without one takes the version of the row id. *)
Lemma visible_latest n rid vh row :
  sn = None -> fits (db_table d) row -> stored d ts rid vh (enc_values row) ->
  visible_row n r rid unlimited = Some (Ok (Some row), unlimited).
Proof using.
  intros -> F St. unfold visible_row. cbn [rd_snapshot rd_pool r]. rewrite (stored_reads _ _ _ _ _ St).
  unfold q_bind, q_store, q_lift. cbn [exec_map_err]. unfold read_row. cbn [rd_table r]. by rewrite read_back.
Qed.

Lemma lookup_new tx row rid key out :
  sane sn tx -> fits (db_table d) row -> there tx d ts row rid -> (PkIndex, key) ∈ row_keys (db_table d) row ->
  apply_projection projection row = Ok out ->
  yields (key_lookup d sn projection key) (if sees sn tx then [ResRow out] else []) (Ok tt).
Proof using All.
  intros Hs F T Hk HP. pose proof (row_keys_short (db_table d) row) as HS. rewrite Forall_forall in HS. specialize (HS _ Hk).
  apply (lookup_entry key rid (if sees sn tx then Some row else None)); [by apply T|done| |destruct (sees sn tx); eauto].
  intros n Hn. assert (D : sn = None \/ exists s, sn = Some s) by (destruct sn; eauto). destruct D as [Es|[s Es]]; rewrite Es in Hs |- *.
  - apply (visible_latest n rid (VersionHeader.vh_new tx None)); [done..|apply T].
  - apply (visible_found n rid s row (tx =? Snapshot.tx_id s)); [done..|].
    by rewrite (find_new d ts tx rid (enc_values row)); [|apply T|apply T|apply Hs|lia].
Qed.

End lookup.


(** *** The empty table of [Statements] *)

Definition sample_layout : Layout := mk_layout [(PkIndex, mk_tree 0 [] [2])] [1].

Lemma sample_ok : table_ok sample_db sample_layout.
Proof.
  set (P := mk_pool {[1 := page_zeroed]} (Z.of_nat <$> seq 2 20) []).
  assert (SP : supply_ok P).
  { split; cbn [supply pool_pages P].
    - apply NoDup_fmap_2; [intros ? ? ?; lia|]. apply NoDup_seq.
    - apply Forall_forall. intros i (n & -> & Hn)%list_elem_of_fmap. apply elem_of_seq in Hn. word_lia.
    - apply Forall_forall. intros i (n & -> & Hn)%list_elem_of_fmap. apply elem_of_seq in Hn. lia.
    - intros i (n & -> & Hn)%list_elem_of_fmap. apply elem_of_seq in Hn. apply lookup_singleton_ne. lia. }
  destruct (new_tree P 2 (fmap (M:=list) Z.of_nat (seq 3 19)) eq_refl ltac:(word_lia)) as (P' & E & C & T).
  assert (Apart : forall i, i ∈ [2] -> i ∉ supply P').
  { intros i ->%list_elem_of_singleton Hs. pose proof (sup_nodup _ SP) as ND. rewrite (ch_supply _ _ _ _ C) in ND.
    apply NoDup_app in ND as (_ & Dj & _). apply (Dj 2); [by left|done]. }
  assert (EP : pool_pages P' !! 1 = Some page_zeroed).
  { rewrite (ch_frame _ _ _ _ C); [done|set_solver|]. intros ?%list_elem_of_singleton. lia. }
  assert (D : sample_db = mk_db P' ∅ (sample_table (mk_index 2 ∅)) 1 TxManager.tm_new (Some [])) by (unfold sample_db; fold P; by rewrite E).
  rewrite D. split; cbn [db_pool db_table sample_table page_head page_tail]; [split; cbn| |exists page_zeroed; split; [done|by left]|set_solver].
  - apply NoDup_singleton.
  - apply Forall_cons. split; [|done]. by exists (mk_index 2 ∅).
  - apply NoDup_singleton.
  - apply (supply_ok_changed P P' [] [2]); [done..|]. by intros i ?%not_elem_of_nil.
  - exact Apart.
  - split; try done; [by left|apply NoDup_singleton|by repeat constructor..|]. intros i ->%list_elem_of_singleton Hs.
    assert (1 ∈ supply P) as (n & E1 & Hn)%list_elem_of_fmap by (rewrite (ch_supply _ _ _ _ C); apply elem_of_app; by right).
    apply elem_of_seq in Hn. lia.
Qed.

Definition sample_values : list Row := [[VInt 3; VInt 7]; [VInt 4; VNull]].

Lemma sample_values_fit : Forall (fits (db_table sample_db)) sample_values.
Proof.
  apply Forall_forall. intros row Hr.
  assert (row = [VInt 3; VInt 7] \/ row = [VInt 4; VNull]) as [-> | ->] by (unfold sample_values in Hr; set_solver).
  all: split; [by repeat constructor|by repeat constructor|by vm_compute; lia|by constructor|repeat constructor; by vm_compute|by vm_compute].
Qed.

Lemma sample_values_new : Forall (absent sample_layout) (rows_keys (db_table sample_db) sample_values).
Proof.
  apply Forall_forall. intros p Hp. exists (mk_tree 0 [] [2]). split; [|done].
  assert (p.1 = PkIndex) as ->; [|by left]. vm_compute in Hp. set_solver.
Qed.


(** ** Where the two ways to a row part *)

(** [t] with one row (3, 8), inserted and committed by transaction 5, as it is
    found after a restart, when no page has a summary. *)
Definition stamp (r : RowId) (tx : Z) : sm unit :=
  s_update_header r (VersionHeader.vh_commit (VersionHeader.vh_new tx None) tx).

Definition committed_db (rows : list Row) (r : RowId) : Db :=
  with_vis ∅ (after (let* _ := insert_rows 10 5 rows 0 in stamp r 5) sample_db).

Definition one_row : Db := committed_db [[VInt 3; VInt 8]] (mk_row_id 1 0).

(** The first answer of an executor. *)
Definition first_answer {S} `{Executor S} (n : nat) (s : S) : option (exec QueryError (option ExecResult)) :=
  (fun x => exec_bind x.1 (fun y => Ok y.1)) <$> next n s unlimited.

Definition key_answer (d : Db) (sn : Snapshot.snapshot) (key : Z) : option (exec QueryError (option ExecResult)) :=
  first_answer 20 (key_lookup d (Some sn) [] (key_bytes key)).

Definition scan_answer (d : Db) (sn : Snapshot.snapshot) (active : list Z) : option (exec QueryError (option ExecResult)) :=
  first_answer 20
    (data_scan_new (rt := mk_runtime 0 (fun _ => 0)) (db_table d) (db_pool d) (db_vis d) (Some sn) None None (Some active) []).

(** An insertion hides the older rows of its page from snapshots older than
    itself: the page had no summary yet, and the summary says that nothing on it is
    older than the insertion. *)
Theorem insert_hides_older_rows :
  let sn := Snapshot.statement_view 7 0 [] in
  let d := after (insert_rows 10 9 [[VInt 4; VInt 1]] 0) one_row in
  key_answer one_row sn 3 = Some (Ok (Some (ResRow [VInt 3; VInt 8])))
  /\ key_answer d sn 3 = Some (Ok None) /\ scan_answer d sn [9] = Some (Ok None).
Proof. by vm_compute. Qed.

(** The same when the newer version alone is on such a page: the older one on
    another page, page 1, is not looked for. *)
Theorem update_hides_older_version :
  let rt := mk_runtime 0 (fun _ => 0) in
  let sn := Snapshot.statement_view 7 0 [] in
  let d0 := committed_db ((fun n => [VInt (Z.of_nat n); VInt 8]) <$> seq 1 90) (mk_row_id 1 2) in
  let set_v := mk_assignment sample_v (UpdateLiteral (VInt 9)) in
  let d := after (let* _ := insert_rows 10 9 [[VInt 200; VInt 1]] 0 in update_row (rt := rt) 10 9 [set_v] (key_bytes 3)) d0 in
  key_answer d0 sn 3 = Some (Ok (Some (ResRow [VInt 3; VInt 8]))) /\ key_answer d sn 3 = Some (Ok None)
  /\ outcome (s_search 10 PkIndex (key_bytes 3)) d = Some (Ok (Some (mk_row_id 3 3))).
Proof. by vm_compute. Qed.

(** A deletion takes the key out of the primary index at once: before it commits
    a lookup by key misses the row that a scan still shows. *)
Theorem uncommitted_delete_hides_key :
  let sn := Snapshot.statement_view 9 0 [9] in
  let d := after (delete_row 10 9 (key_bytes 3)) one_row in
  outcome (delete_row 10 9 (key_bytes 3)) one_row = Some (Ok 1)
  /\ key_answer d sn 3 = Some (Ok None) /\ scan_answer d sn [9] = Some (Ok (Some (ResRow [VInt 3; VInt 8]))).
Proof. by vm_compute. Qed.
