(* ===== verification/StoredUpdates.v ===== *)
(** * Updates of stored tables

    What UPDATE ([src/executor/update.rs]) leaves behind on the tables of
    [StoredTables]: the new version is linked to the old one and the primary
    index leads to it, so its own transaction reads the new row and the snapshots
    that showed the old row still do. *)

From Stdlib Require Import ZArith Strings.Byte Lia.
From stdpp Require Import base tactics list numbers gmap.
From S2P Require Import Prelude RowKey PageLayout Values IndexKey Tuple Version TxManager Overflow DataPage.
From S2P Require DataScan.
From S2P Require Import BTreeNode BTree BTreeInsert IndexManager WalRecord Text DateTime Like Expr Table.
From S2P Require Import Budget Executor Hashing Ordering Plan Pipeline TableAccess Statements DataChain StoredIndexes StoredTables.
Import Key RowId Narrowing.
#[local] Open Scope Z_scope.

(** ** The entry of a key *)

Lemma update_key_ok fuel rid d ts1 x ts2 key :
  indexed d (ts1 ++ x :: ts2) -> zlen key <= 32 -> row_id_wf rid -> is_Some (index_map (t_entries x.2) !! pad32 key) ->
  (t_height x.2 < fuel)%nat ->
  exists d' y, s_update_key fuel x.1 key rid d = Some (Ok tt, d') /\ indexed d' (ts1 ++ y :: ts2)
    /\ y.1 = x.1 /\ t_height y.2 = t_height x.2 /\ t_pages y.2 = t_pages x.2
    /\ index_map (t_entries y.2) = <[pad32 key := rid]> (index_map (t_entries x.2))
    /\ beside d d' /\ changed (db_pool d) (db_pool d') (t_pages x.2) [].
Proof.
  intros I Hk Wr HS Hf. pose proof I as [HR HT HP _ _].
  assert (Tx : tree_in d x) by (rewrite Forall_forall in HT; apply HT, elem_of_app; right; by left).
  destruct Tx as (im & Gi & T). rewrite pages_of_middle in HP. pose proof (leaf_keys_len _ _ _ _ _ _ _ T) as FK.
  destruct (update_pages (db_pool d) (im_root im) (t_height x.2) (t_entries x.2) (t_pages x.2) key rid fuel) as (P' & E & C & T'); try done.
  { by apply NoDup_app in HP as (? & _). }
  set (t' := mk_tree (t_height x.2) (set_row (kz (pad32 key)) rid (t_entries x.2)) (t_pages x.2)).
  set (im' := mk_index (im_root im) (<[rid := key]> (row_to_key im))).
  pose proof (indexed_write d ts1 x ts2 im P' im' t' [] I Gi C T' ltac:(by rewrite app_nil_r)) as I'.
  eexists _, (x.1, t'). split_and!; [|exact I'|..]; try done.
  - unfold s_update_key, index_write. rewrite Gi. unfold im_update. by rewrite (bind_ok _ _ _ _ _ E).
  - apply set_row_map; [done| |done]. destruct (bt_key_ok key (db_pool d) Hk) as (k & _ & <- & Lk). done.
  - split; try done. cbn. apply shape_set_index.
Qed.

(** ** Assignments of values *)

Section update.
Context {rt : Runtime} (fuel bound : nat) (tx : Z).

(** One assignment of the statement, [SET column = value], away from the key. *)
Record change_ok (t : TableMeta) (a : UpdateAssignment) (i : nat) (v : Value) : Prop := {
  ch_position : column_position t (assign_column a) = Some i;
  ch_value : assign_value a = UpdateLiteral v;
  ch_not_key : assign_column a <> pk_column t;
  ch_type : exists c, table_schema t !! i = Some c /\ type_fits v c = true;
  ch_null : exists b, not_null t !! i = Some b /\ (b = true -> is_null v = false) }.

Definition assign_values (changes : list (nat * Value)) (row : Row) : Row :=
  foldl (fun row c => <[c.1 := c.2]> row) row changes.

Lemma position_column t name i : column_position t name = Some i -> exists c, columns t !! i = Some (name, c).
Proof.
  unfold column_position. destruct (list_find _ _) as [[j [n c]]|] eqn:E; [|done]. intros [= ->].
  apply list_find_Some in E as (Hc & E & _). cbn in E. subst n. eauto.
Qed.

Lemma value_same v c : type_fits v c = true -> coerce_datetime_write v c = Ok v /\ widen c v = v.
Proof. by destruct v, c. Qed.

Definition changes_ok (t : TableMeta) (assignments : list UpdateAssignment) (changes : list (nat * Value)) : Prop :=
  Forall2 (fun a c => change_ok t a c.1 c.2) assignments changes.

Lemma resolve_literals t old assignments changes d :
  changes_ok t assignments changes -> resolve_assignments t old assignments d = Some (Ok changes, d).
Proof using.
  induction 1 as [|a [i v] al cl H _ IH]; [done|]. cbn [resolve_assignments]. destruct H as [P V _ _ _]. cbn [fst snd] in *.
  rewrite P, V. unfold s_bind at 1, s_ret at 1. unfold s_bind. by rewrite IH.
Qed.

Lemma gates_literals t key assignments changes d :
  changes_ok t assignments changes -> assignment_gates fuel t key changes d = Some (Ok changes, d).
Proof using.
  induction 1 as [|a [i v] al cl H _ IH]; [done|]. cbn [assignment_gates]. destruct H as [P V K (c & Hc & Tc) (b & Hb & Nb)]. cbn [fst snd] in *.
  destruct (position_column _ _ _ P) as (c' & Hcol).
  assert (c' = c) as -> by (unfold table_schema in Hc; rewrite list_lookup_fmap, Hcol in Hc; by injection Hc).
  unfold at_index at 1. rewrite Hcol. unfold s_bind at 1, s_ret at 1. cbn [fst snd].
  assert (NN : (if is_null v then at_index (not_null t) i else s_ret false) d = Some (Ok false, d)).
  { destruct (is_null v) eqn:N; [|done]. unfold at_index. rewrite Hb. destruct b; [by specialize (Nb eq_refl)|done]. }
  unfold s_bind at 1. rewrite NN. unfold s_bind at 1, check_rekey, s_bind at 1, at_index. rewrite Hcol. unfold s_ret at 1. cbn [fst].
  rewrite bool_decide_eq_false_2 by done. unfold s_ret at 1, s_bind at 1, s_lift. rewrite (proj1 (value_same v c Tc)). cbn [exec_map_err].
  unfold s_bind. by rewrite IH.
Qed.

Lemma length_assign changes row : length (assign_values changes row) = length row.
Proof using. revert row. induction changes as [|c cl IH]; intros row; [done|]. etransitivity; [apply (IH (<[c.1 := c.2]> row))|apply length_insert]. Qed.

(** The columns assigned are those of the changes. *)
Lemma assign_all_ok changes row assigned d :
  Forall (fun c => c.1 < length row)%nat changes ->
  exists cols, assign_all changes row assigned d = Some (Ok (assign_values changes row, cols), d)
    /\ forall i, i ∈ cols -> i ∈ assigned \/ i ∈ changes.*1.
Proof using.
  revert row assigned. induction changes as [|[i v] cl IH]; intros row assigned H; [exists assigned; eauto|].
  apply Forall_cons in H as [Hi H]. cbn [fst] in Hi. cbn [assign_all]. unfold s_bind at 1, set_at.
  rewrite (proj2 (Nat.ltb_lt _ _)) by done. unfold s_ret at 1.
  destruct (IH (<[i := v]> row) (add_once i assigned)) as (cols & E & HE); [by rewrite length_insert|].
  exists cols. split; [exact E|]. intros j Hj. destruct (HE j Hj) as [Ha|Hc]; [|right; by right].
  unfold add_once in Ha. case_bool_decide; [by left|]. apply elem_of_app in Ha as [Ha|Ha%list_elem_of_singleton]; [by left|].
  subst j. right. by left.
Qed.

Lemma type_assigned_ok t cols row d :
  fits t row -> Forall (fun i => i < length row)%nat cols -> type_assigned t cols row d = Some (Ok row, d).
Proof using.
  intros F. induction 1 as [|i cols Hi _ IH]; [done|]. cbn [type_assigned].
  destruct (lookup_lt_is_Some_2 row i Hi) as [v Hv]. destruct (fits_lookup _ _ _ _ F Hv) as (c & Hc & T).
  unfold at_index. rewrite Hv, Hc. unfold s_bind at 1, s_ret at 1. unfold s_bind at 1, s_ret at 1.
  rewrite (proj2 (value_same v c T)), T. unfold set_at. rewrite (proj2 (Nat.ltb_lt _ _)) by done. unfold s_bind, s_ret at 1.
  rewrite list_insert_id by done. exact IH.
Qed.

Lemma changes_inside t assignments changes row :
  changes_ok t assignments changes -> fits t row -> Forall (fun c => c.1 < length row)%nat changes.
Proof using.
  intros H F. pose proof (Forall2_length _ _ _ (ft_types _ _ F)) as L. rewrite L.
  induction H as [|a c al cl [_ _ _ (x & Hx & _) _] _ IH]; [done|]. constructor; [by eapply lookup_lt_Some|done].
Qed.

(** A table with its primary index alone. *)
Definition pk_only (t : TableMeta) : Prop := unique_indexes t = [] /\ secondary_indexes t = [].

Lemma update_gates_ok key assignments changes old d :
  let t := db_table d in let new := assign_values changes old in
  pk_only t -> changes_ok t assignments changes -> fits t old -> fits t new ->
  exists cols, update_gates fuel key assignments (enc_values old) d = Some (Ok (mk_update_plan new cols (enc_values new) [] []), d)
    /\ forall i, i ∈ cols -> i ∈ changes.*1.
Proof using.
  intros t new [EU ES] HC Fo Fn. pose proof (changes_inside _ _ _ _ HC Fo) as HI.
  destruct (assign_all_ok changes old [] d HI) as (cols & EA & HE).
  assert (HE' : forall i, i ∈ cols -> i ∈ changes.*1) by (intros i Hi; destruct (HE i Hi) as [?%not_elem_of_nil|]; done).
  exists cols. split; [|done]. unfold update_gates. unfold s_bind at 1, s_table. fold t.
  unfold s_bind at 1, s_read_row, s_bind at 1, s_table, s_lift at 1. fold t. rewrite read_back by done. cbn [exec_map_err].
  unfold s_bind at 1. rewrite (resolve_literals t old assignments changes d HC). unfold s_bind at 1.
  rewrite (gates_literals t key assignments changes d HC). rewrite EU, ES. cbn [fmap list_fmap values_at].
  unfold s_bind at 1, s_ret at 1. unfold s_bind at 1. rewrite EA. unfold s_bind at 1. cbn [check_unique_changes]. unfold s_ret at 1.
  unfold s_bind at 1. fold new. rewrite type_assigned_ok; [|done|].
  - unfold s_bind, s_lift. by rewrite tuple_bytes_fits.
  - apply Forall_forall. intros i Hi%HE'. unfold new. rewrite length_assign. rewrite Forall_forall in HI.
    apply list_elem_of_fmap in Hi as (c & -> & Hc). by apply HI.
Qed.

Lemma assigned_key_none t assignments changes cols row d :
  changes_ok t assignments changes -> (forall i, i ∈ cols -> i ∈ changes.*1) -> assigned_key t cols row d = Some (Ok None, d).
Proof using.
  intros HC HE. unfold assigned_key. destruct (column_position t (pk_column t)) as [j|] eqn:EP; [|done].
  rewrite bool_decide_eq_false_2; [done|]. intros Hj%HE. destruct (position_column _ _ _ EP) as (c & Hcol).
  apply list_elem_of_fmap in Hj as ([i v] & -> & Hc). apply list_elem_of_lookup_1 in Hc as [k Hk].
  destruct (Forall2_lookup_r _ _ _ _ _ HC Hk) as (a & _ & [P _ K _ _]). cbn [fst] in *.
  destruct (position_column _ _ _ P) as (c' & Hcol'). rewrite Hcol in Hcol'. injection Hcol' as E _. by apply K.
Qed.

(** What an update of one key leaves behind. *)
Record updated (d : Db) (ts : Layout) (key : list byte) (old_rid : RowId) (old new : list byte) (d' : Db) (ts' : Layout)
    (rid : RowId) (vh : VersionHeader.vheader) : Prop := {
  up_ok : table_ok d' ts';
  up_shape : shape (db_table d') = shape (db_table d);
  up_heights : Forall (fun x => t_height x.2 <= bound)%nat ts';
  up_entry : entry ts' PkIndex (pad32 key) rid;
  up_new : stored d' ts' rid vh new;
  up_header : VersionHeader.create_tx_id vh = tx /\ VersionHeader.commit_tx_id vh = None
    /\ VersionHeader.next_version vh = Ok (Some old_rid);
  up_kept : forall r vh' tuple, stored d ts r vh' tuple -> stored d' ts' r vh' tuple;
  up_versions : forall vs, versions d ts vs -> versions d' ts' (vs ++ [mk_version rid vh new]);
  up_vis : db_vis d' = DataScan.clear_all_visible (DataScan.clear_all_visible (db_vis d) (page_id rid)) (page_id old_rid);
  up_wal : db_wal d' = (fun w => w ++ [WUpdate tx (table_name (db_table d)) rid old new]) <$> db_wal d;
  up_tx : db_tx d' = TxManager.record_version (db_tx d) tx (table_name (db_table d)) rid }.

Lemma version_written d ts vh buf :
  table_ok d ts -> VersionHeader.wf vh -> in_u32 (zlen buf) -> is_overflow_ref buf = false ->
  (length (chunk_plan (zlen buf)) + 1 <= length (supply (db_pool d)))%nat ->
  exists rid d1 ts1, s_write_tuple vh buf d = Some (Ok rid, d1) /\ appended d ts vh buf d1 ts1 rid
    /\ db_table d1 = set_tail (db_table d) (page_id rid) /\ db_vis d1 = db_vis d /\ db_tx d1 = db_tx d /\ db_wal d1 = db_wal d.
Proof using.
  intros ok Wv Hu HO HL. pose proof ok as [HI _ (p & Ep & HOp) _]. pose proof (tail_u32 d ts ok) as HU.
  destruct (write_total (db_pool d) (page_tail (db_table d)) p vh buf (ix_supply _ _ HI) HU Ep HOp Wv Hu HO HL)
    as (rid & p' & new & E & W & _).
  set (d1 := with_table (set_tail (db_table d) (page_id rid)) (with_pool p' d)).
  destruct (written_frame d ts ok vh buf Wv d1 rid new W eq_refl) as (ts1 & A).
  exists rid, d1, ts1. split_and!; try done. unfold s_write_tuple. by rewrite E.
Qed.

(** The new version of a row, with all the bookkeeping of its page and transaction. *)
Record version_of (d : Db) (ts : Layout) (old_rid : RowId) (old new : list byte) (d' : Db) (ts' : Layout) (rid : RowId)
    (vh : VersionHeader.vheader) : Prop := {
  ve_appended : appended d ts vh new d' ts' rid;
  ve_table : db_table d' = set_tail (db_table d) (page_id rid);
  ve_header : VersionHeader.create_tx_id vh = tx /\ VersionHeader.commit_tx_id vh = None
    /\ VersionHeader.next_version vh = Ok (Some old_rid);
  ve_vis : db_vis d' = DataScan.clear_all_visible (DataScan.clear_all_visible (db_vis d) (page_id rid)) (page_id old_rid);
  ve_wal : db_wal d' = (fun w => w ++ [WUpdate tx (table_name (db_table d)) rid old new]) <$> db_wal d;
  ve_tx : db_tx d' = TxManager.record_version (db_tx d) tx (table_name (db_table d)) rid }.

Lemma write_version_ok d ts old_rid old new :
  table_ok d ts -> in_u64 tx -> row_id_wf old_rid -> old_rid <> mk_row_id u32_max u16_max ->
  in_u32 (zlen new) -> is_overflow_ref new = false ->
  (length (chunk_plan (zlen new)) + 1 <= length (supply (db_pool d)))%nat ->
  exists rid d' ts' vh, write_version tx old_rid old new d = Some (Ok rid, d') /\ version_of d ts old_rid old new d' ts' rid vh.
Proof using.
  intros ok Htx Wo Ns Hu HO HL.
  destruct (VersionFacts.version_header_roundtrip (VersionHeader.vh_new tx None) old_rid [] (VersionFacts.vh_new_wf tx None Htx ltac:(done)) Wo)
    as (vh & Ev & Fb & Ecr & Eco & En). rewrite bool_decide_eq_false_2 in En by done.
  assert (Wv : VersionHeader.wf vh) by by eapply VersionFacts.from_bytes_wf.
  destruct (version_written d ts vh new ok Wv Hu HO HL) as (rid & d1 & ts1 & Ew & A1 & ET & EV & EX & EL).
  set (d2 := with_tx (TxManager.record_version (db_tx d1) tx (table_name (db_table d)) rid)
    (with_wal ((fun w => w ++ [WUpdate tx (table_name (db_table d)) rid old new]) <$> db_wal d1)
    (with_vis (DataScan.clear_all_visible (DataScan.clear_all_visible (db_vis d1) (page_id rid)) (page_id old_rid)) d1))).
  exists rid, d2, ts1, vh. split.
  - unfold write_version. unfold s_bind at 1, s_lift. rewrite Ev. cbn [exec_map_err]. unfold s_bind at 1. rewrite Ew.
    unfold s_clear_all_visible, s_log, s_record_version, s_modify, s_table, s_bind, s_ret, d2, with_tx, with_wal, with_vis. cbn. by rewrite ET.
  - split; try done; [|cbn; by rewrite ?EV, ?EL, ?EX..]. destruct A1 as [[[A B C D G] U X Y] A2 A3 A4 A5]. by split; [split|..].
Qed.

Lemma update_row_ok d ts key old_rid vh0 assignments changes old :
  let t := db_table d in let new := assign_values changes old in
  table_ok d ts -> Forall (fun x => t_height x.2 <= bound)%nat ts -> (bound < fuel)%nat -> in_u64 tx ->
  is_in_flight (table_narrowing t) = false -> pk_only t -> zlen key <= 32 -> entry ts PkIndex (pad32 key) old_rid ->
  row_id_wf old_rid -> old_rid <> mk_row_id u32_max u16_max -> stored d ts old_rid vh0 (enc_values old) ->
  changes_ok t assignments changes -> fits t old -> fits t new ->
  (length (chunk_plan (zlen (enc_values new))) + 1 <= length (supply (db_pool d)))%nat ->
  exists d' ts' rid vh, update_row fuel tx assignments key d = Some (Ok 1, d')
    /\ updated d ts key old_rid (enc_values old) (enc_values new) d' ts' rid vh.
Proof using.
  intros t new ok HB Hf Htx HN HP Hk (x & Hx & Hz) Wo Ns St HC Fo Fn HL.
  assert (HO : is_overflow_ref (enc_values new) = false) by (apply (locator_classification 0 0 []); by vm_compute).
  destruct (write_version_ok d ts old_rid (enc_values old) (enc_values new) ok Htx Wo Ns (ft_size _ _ Fn) HO HL)
    as (rid & d2 & ts0 & vh & WV & [[ok2 Et St2 K2 V2] ET Hvh EV EL EX]).
  pose proof (stored_id _ _ _ _ _ ok2 St2) as Wr.
  destruct (update_gates_ok key assignments changes old d HP HC Fo Fn) as (cols & EG & HE).
  pose proof Hx as Hx'. rewrite <- Et in Hx'. apply list_elem_of_split in Hx' as (ts1 & ts2 & Ets).
  destruct (update_key_ok fuel rid d2 ts1 (PkIndex, x) ts2 key) as (d' & y & Eu & I' & Y1 & Y2 & Y3 & Y4 & B' & C'); cbn [fst snd] in *; try done.
  { rewrite <- Ets. apply ok2. }
  { rewrite Forall_forall in HB. pose proof (HB _ Hx). cbn in *. lia. }
  assert (PE : pages_of (ts1 ++ y :: ts2) ≡ₚ pages_of ts0 ++ []) by (rewrite Ets, app_nil_r, !pages_of_middle; cbn [snd]; by rewrite Y3).
  assert (C2 : changed (db_pool d2) (db_pool d') (pages_of ts0) []).
  { apply (changed_weaken _ _ (t_pages x)); [done|]. intros i Hi. rewrite Ets, pages_of_middle. apply elem_of_app. by left. }
  exists d', (mk_layout (ts1 ++ y :: ts2) (chain ts0)), rid, vh. split.
  - unfold update_row. unfold s_bind at 1.
    rewrite (search_ok fuel bound d ts (ok_indexed _ _ ok) HB Hf PkIndex x key Hx Hk), Hz.
    unfold s_bind at 1, s_ensure_readable, s_bind at 1, s_table, s_lift, ensure_readable. fold t. rewrite HN.
    unfold s_bind at 1, s_read_tuple. rewrite (stored_reads _ _ _ _ _ St). cbn [exec_map_err]. unfold s_bind at 1. rewrite EG.
    unfold s_bind at 1. unfold update_writes. unfold s_bind at 1, s_table. fold t. cbn [up_bytes up_assigned up_row up_old_uniques up_old_secondaries].
    fold new. unfold s_bind at 1. rewrite WV. unfold s_bind at 1. rewrite (assigned_key_none t assignments changes cols new d2 HC HE).
    unfold s_bind at 1, move_pk. rewrite Eu. destruct HP as [-> ->]. done.
  - split; rewrite ?(be_vis _ _ B'), ?(be_wal _ _ B'), ?(be_tx _ _ B'); try done.
    + by apply (table_ok_keys d2 d' ts0 _ []).
    + rewrite (be_shape _ _ B'), ET. done.
    + rewrite <- Et, Ets in HB. apply Forall_app in HB as [H1 [H2 H3]%Forall_cons]. apply Forall_app. split; [done|]. constructor; [cbn in *; lia|done].
    + exists y.2. split; [|rewrite Y4; apply lookup_insert_eq]. assert ((PkIndex, y.2) = y) as -> by (rewrite <- Y1; by destruct y).
      apply elem_of_app. right. by left.
    + by apply (stored_keys d2 d' ts0 _ []).
    + intros r vh' tuple H. apply (stored_keys d2 d' ts0 _ []); try done. by apply K2.
    + intros vs V. apply (versions_keys d2 d' ts0 _ []); try done. by apply V2.
Qed.

End update.

(** ** Lookups *)

(** No page summary hides a page from the snapshot. *)
Definition unhidden (vis : DataScan.VisMap) (s : Snapshot.snapshot) : Prop :=
  forall pid v, vis !! pid = Some v -> PageVis.all_invisible_for v (Snapshot.high_water s) = false.

Lemma clear_summary vis s pid : unhidden vis s ->
  unhidden (DataScan.clear_all_visible vis pid) s
  /\ exists v, DataScan.clear_all_visible vis pid !! pid = Some v /\ PageVis.all_visible v = false.
Proof.
  intros H. unfold DataScan.clear_all_visible. split.
  - intros q v. destruct (vis !! pid) as [w|] eqn:E; destruct (decide (q = pid)) as [->|Hne];
      rewrite ?lookup_insert_eq, ?lookup_insert_ne by done; try apply H; intros [= <-]; [|done]. apply (H _ _ E).
  - destruct (vis !! pid); eexists; (split; [apply lookup_insert_eq|done]).
Qed.

Lemma clear_other vis pid q v : vis !! q = Some v -> PageVis.all_visible v = false ->
  exists v', DataScan.clear_all_visible vis pid !! q = Some v' /\ PageVis.all_visible v' = false.
Proof.
  intros H A. unfold DataScan.clear_all_visible. destruct (decide (q = pid)) as [->|Hne].
  - rewrite H, lookup_insert_eq. eauto.
  - destruct (vis !! pid); rewrite lookup_insert_ne by done; eauto.
Qed.

Section reading.
Context {rt : Runtime} (bound : nat) (tx : Z) (d : Db) (ts : Layout) (key : list byte) (old_rid : RowId) (old new : Row).
Context (d' : Db) (ts' : Layout) (rid : RowId) (vh vh0 : VersionHeader.vheader).
Context (U : updated bound tx d ts key old_rid (enc_values old) (enc_values new) d' ts' rid vh).
Context (St : stored d ts old_rid vh0 (enc_values old)).

(** A snapshot finds the new version when it is its own and the old one when it
    showed it before. *)
Lemma find_updated s n :
  unhidden (db_vis d) s -> (3 <= n)%nat -> (Snapshot.tx_id s = tx \/ shown s vh0 = true) ->
  DataScan.find_visible_version (pool_pages (db_pool d')) (db_vis d') n rid s
  = Some (Ok (Some (enc_values (if tx =? Snapshot.tx_id s then new else old)))).
Proof using U St.
  intros H Hn HS. destruct n as [|[|n]]; [lia..|]. pose proof (up_vis _ _ _ _ _ _ _ _ _ _ _ _ U) as EV.
  destruct (clear_summary (db_vis d) s (page_id rid) H) as [H1 (v1 & E1 & A1)].
  destruct (clear_other _ (page_id old_rid) _ _ E1 A1) as (v & E & A).
  destruct (clear_summary _ s (page_id old_rid) H1) as [H2 _]. rewrite <- EV in *.
  rewrite (find_walk _ _ _ _ _ v E A (H2 _ _ E)).
  destruct (up_header _ _ _ _ _ _ _ _ _ _ _ _ U) as (Hc & Hm & Hx).
  rewrite (walk_stored d' ts' rid vh (enc_values new) (Some old_rid) s (S n) (up_new _ _ _ _ _ _ _ _ _ _ _ _ U) Hx).
  assert (SH : shown s vh = (tx =? Snapshot.tx_id s)).
  { unfold shown. rewrite Hc, Hm. unfold Snapshot.is_visible_self. cbn. by rewrite andb_true_r. }
  rewrite SH. destruct (Z.eqb_spec tx (Snapshot.tx_id s)) as [Eq|Ne]; [done|].
  destruct HS as [Eq|Sh]; [by rewrite Eq in Ne|].
  pose proof (up_kept _ _ _ _ _ _ _ _ _ _ _ _ U _ _ _ St) as St'.
  destruct (DataScan.next_version_total vh0 (ho_vh _ _ _ _ _ St')) as [older Ho].
  by rewrite (walk_stored d' ts' old_rid vh0 (enc_values old) older s n St' Ho), Sh.
Qed.

Lemma lookup_updated sn projection out :
  is_in_flight (table_narrowing (db_table d)) = false -> fits (db_table d) old -> fits (db_table d) new -> zlen key <= 32 ->
  (forall s, sn = Some s -> unhidden (db_vis d) s /\ (Snapshot.tx_id s = tx \/ shown s vh0 = true)) ->
  apply_projection projection (if sees sn tx then new else old) = Ok out ->
  yields (key_lookup d' sn projection key) [ResRow out] (Ok tt).
Proof using All.
  intros HN Fo Fn Hk HS HP. pose proof (up_shape _ _ _ _ _ _ _ _ _ _ _ _ U) as Sh.
  assert (HN' : is_in_flight (table_narrowing (db_table d')) = false) by (unfold shape in Sh; injection Sh; congruence).
  apply (lookup_entry bound d' ts' sn projection (up_ok _ _ _ _ _ _ _ _ _ _ _ _ U) (up_heights _ _ _ _ _ _ _ _ _ _ _ _ U) HN'
    key rid (Some (if sees sn tx then new else old))); [apply U|done| |eauto].
  intros n Hn. destruct sn as [s|]; cbn [sees] in *.
  - destruct (HS s eq_refl) as [H1 H2]. apply (visible_found d' (Some s) projection n rid s _ true); [done| |by apply find_updated].
    destruct (tx =? Snapshot.tx_id s); by apply (fits_shape (db_table d)).
  - apply (visible_latest d' ts' None projection n rid vh); [done|by apply (fits_shape (db_table d))|apply U].
Qed.

End reading.


(** ** An update *)

Definition row_3_8 : Row := [VInt 3; VInt 8].
Definition set_v_9 : list UpdateAssignment := [mk_assignment sample_v (UpdateLiteral (VInt 9))].
Definition with_row_3_8 : Db := after (insert_row 6 5 row_3_8) sample_db.

Lemma row_3_fits v : v = 8 \/ v = 9 -> fits (db_table sample_db) [VInt 3; VInt v].
Proof.
  intros [-> | ->]; (split; [by repeat constructor|by repeat constructor|by vm_compute; lia|by constructor|repeat constructor; by vm_compute|by vm_compute]).
Qed.

Lemma row_3_8_absent : Forall (absent sample_layout) (row_keys (db_table sample_db) row_3_8).
Proof.
  apply Forall_forall. intros p Hp. exists (mk_tree 0 [] [2]). split; [|done].
  assert (p.1 = PkIndex) as ->; [|by left]. vm_compute in Hp. set_solver.
Qed.

Lemma row_3_8_stored : exists ts, table_ok with_row_3_8 ts /\ Forall (fun x => t_height x.2 <= 1)%nat ts
  /\ entry ts PkIndex (pad32 (key_bytes 3)) (mk_row_id 1 0)
  /\ stored with_row_3_8 ts (mk_row_id 1 0) (VersionHeader.vh_new 5 None) (enc_values row_3_8).
Proof.
  destruct (insert_row_ok 6 5 5 ltac:(word_lia) ltac:(lia) sample_db sample_layout row_3_8) as (d' & ts' & rid & E & In).
  - apply sample_ok.
  - apply row_3_fits. by left.
  - apply (bool_decide_unpack _). by vm_compute.
  - exact row_3_8_absent.
  - constructor; [|done]. vm_compute. lia.
  - vm_compute. lia.
  - assert (D : d' = with_row_3_8) by (unfold with_row_3_8, after; by rewrite E).
    assert (R : rid = mk_row_id 1 0).
    { pose proof (in_wal _ _ _ _ _ _ _ _ In) as W. rewrite D in W. vm_compute in W. by injection W as ->. }
    rewrite D, R in In. destruct In as [A1 _ G A3 _ _ _ _ _ _ _]. exists ts'. split_and!; [exact A1| | |exact A3].
    + apply Forall_forall. intros [r t] Ht. destruct (grown_from _ _ _ _ _ _ G Ht) as (t0 & Ht0 & Hh).
      apply list_elem_of_singleton in Ht0 as [= -> ->]. etrans; [exact Hh|]. vm_compute. lia.
    + apply (entry_new (mk_row_id 1 0) (row_keys (db_table sample_db) row_3_8) sample_layout ts' PkIndex (key_bytes 3) G).
      * exact row_3_8_absent.
      * apply (bool_decide_unpack _). by vm_compute.
Qed.

Lemma set_v_9_ok : change_ok (db_table with_row_3_8) (mk_assignment sample_v (UpdateLiteral (VInt 9))) 1 (VInt 9).
Proof. split; [by vm_compute|done|by vm_compute|exists CInt; by vm_compute|exists false; by vm_compute]. Qed.

Lemma row_3_8_unhidden : unhidden (db_vis with_row_3_8) (Snapshot.mk 5 5 ∅).
Proof.
  assert (E : db_vis with_row_3_8 = {[1 := PageVis.mk 5 false]}) by (by vm_compute).
  intros pid w. rewrite E. by intros [<- <-]%lookup_singleton_Some.
Qed.

