(* ===== verification/Rollback.v ===== *)
(** * Commit and rollback of stored rows

    The end of a transaction on the pages and indexes of a table
    ([src/transaction/manager.rs]): COMMIT marks the versions the transaction
    wrote, ROLLBACK leads the index entries back to the versions before it and
    neutralises its own.  The order in which a hash set yields the recorded rows
    is a parameter. *)

From Stdlib Require Import ZArith Strings.Byte Lia.
From stdpp Require Import base tactics list numbers gmap.
From S2P Require Import Prelude RowKey PageLayout Values IndexKey Tuple Version TxManager Overflow DataPage.
From S2P Require DataScan.
From S2P Require Import BTreeNode BTree BTreeInsert IndexManager WalRecord Text DateTime Like Expr Table.
From S2P Require Import Budget Executor Hashing Ordering Plan Pipeline TableAccess Statements.
Import Key RowId Narrowing.
#[local] Open Scope Z_scope.

(** ** Begin *)

Definition s_begin : sm TxManager.Transaction :=
  fun d =>
    let '(tx, m) := TxManager.begin (db_tx d) in
    let d := with_wal ((fun w => w ++ [WBeginTxn (TxManager.tx_id tx)]) <$> db_wal d) d in
    Some (Ok tx, with_tx m d).

(** ** Commit *)

(** [BufferPool::write_commit_tx_id]. *)
Definition write_commit_tx_id (r : RowId) (tx : Z) : sm unit :=
  let* (vh, _) := s_read_tuple r in
  s_update_header r (VersionHeader.vh_commit vh tx).

Fixpoint mark_versions (rows : list RowId) (tx : Z) : sm unit :=
  match rows with
  | [] => s_ret tt
  | r :: rows =>
      let* _ := write_commit_tx_id r tx in
      let* _ := s_clear_all_visible (page_id r) in
      mark_versions rows tx
  end.

(** The transaction leaves the active set and its versions are forgotten. *)
Definition s_leave (already : TxManager.TxError) (tx : Z) : sm unit := fun d =>
  let m := db_tx d in
  if bool_decide (tx ∈ TxManager.active_tx_ids m) then
    let m := TxManager.set_active m (TxManager.active_tx_ids m ∖ {[tx]}) in
    Some (Ok tt, with_tx (TxManager.set_versions m (delete tx (TxManager.tx_versions m))) d)
  else Some (Err (TxFailed already), d).

(** ** The keys of a version *)

Definition IndexKeys : Type := option (list byte) * list (option (list byte)) * list (option (list byte)).

Definition key_at (values : Row) (i : nat) : option (list byte) :=
  v ← values !! i; key_as_bytes <$> to_key v.

(** [extract_index_keys] of [src/wal/recovery.rs]: a tuple that does not decode
    has no keys. *)
Definition extract_index_keys (t : TableMeta) (tuple : list byte) : exec StoreError IndexKeys :=
  match deserialize_row tuple (table_schema t) (column_defaults t) with
  | Ok values =>
      Ok (key_at values (pk_index t), (fun u => key_at values u.1) <$> unique_indexes t,
          (fun s => key_as_bytes <$> derive_key s (table_schema t) values) <$> secondary_indexes t)
  | Err _ => Ok (None, (fun _ => None) <$> unique_indexes t, (fun _ => None) <$> secondary_indexes t)
  | Panic => Panic
  end.

(** [None]: the keys of the version cannot be had. *)
Definition read_prev_index_keys (prev : RowId) : sm (option IndexKeys) :=
  let* read := s_try (s_read_tuple prev) in
  match read with
  | inr e => if is_slot_not_found e then s_ret None else s_fail e
  | inl (_, tuple) =>
      let* t := s_table in
      match deserialize_tuple_width tuple (table_schema t) with
      | Err _ => s_ret None
      | Panic => s_lift Panic
      | Ok _ => let* keys := s_lift (extract_index_keys t tuple) in s_ret (Some keys)
      end
  end.

(** ** The versions of a transaction on the page chain *)

Fixpoint created_from (p : SlottedPageRef) (pid : Z) (n : nat) (i tx : Z) : exec StorageError (list RowId) :=
  match n with
  | O => Ok []
  | S n =>
      let? slot := get_slot p i in
      match slot with
      | None => created_from p pid n (i + 1) tx
      | Some slot =>
          match get_slot_data_checked p slot with
          | None => Err (CorruptedSlot pid i slot)
          | Some slot_data =>
              if zlen slot_data <? VersionHeader.SIZE then created_from p pid n (i + 1) tx
              else
                match VersionHeader.from_bytes (slice slot_data 0 VersionHeader.SIZE) with
                | None => created_from p pid n (i + 1) tx
                | Some vh =>
                    let? rest := created_from p pid n (i + 1) tx in
                    Ok (if VersionHeader.create_tx_id vh =? tx
                        then mk_row_id (wrap32 pid) (logical_id slot) :: rest else rest)
                end
          end
      end
  end.

Definition created_on (d : list byte) (pid tx : Z) : exec StorageError (Z * list RowId) :=
  let? slotted := ref_new d in
  if slot_count_exceeds_capacity (header slotted)
  then Err (CorruptedSlotCount pid (slot_count (header slotted)))
  else
    let? rids := created_from slotted pid (Z.to_nat (slot_count (header slotted))) 0 tx in
    Ok (next_page_id (header slotted), rids).

(** The walk meets a page twice at the latest after all pages. *)
Fixpoint created_along (pages : gmap Z (list byte)) (table : list byte) (n : nat) (visited : gset Z) (pid tx : Z)
    : exec StoreError (list RowId) :=
  match n with
  | O => Err (VersionCycle tx table)
  | S n =>
      if bool_decide (pid ∈ visited) then Err (VersionCycle tx table)
      else
        match pages !! pid with
        | None => Err (PageError (StoragePageMissing pid))
        | Some d =>
            let? (next, rids) := exec_map_err PageError (created_on d pid tx) in
            if next =? 0 then Ok rids
            else
              let? rest := created_along pages table n ({[pid]} ∪ visited) next tx in
              Ok (rids ++ rest)
        end
  end.

Definition versions_created_by (tx : Z) : sm (list RowId) := fun d =>
  let pages := pool_pages (db_pool d) in
  let t := db_table d in
  Some (created_along pages (table_name t) (S (size pages)) ∅ (page_head t) tx, d).

(** ** Repair of the indexes *)

Definition s_find_key (r : IndexRef) (row_id : RowId) : sm (option (list byte)) := fun d =>
  match get_index (db_table d) r with
  | None => Some (Panic, d)
  | Some im => Some (Ok (im_find_key_by_row_id im row_id), d)
  end.

Definition MAX_TOMBSTONE_CHAIN_WALK : nat := 64.

Section rollback.
Context (fuel : nat) (order : gset RowId -> list RowId).

Definition commit_mark_versions (tx : Z) : sm unit := fun d =>
  mark_versions (order (TxManager.get_tx_versions (db_tx d) tx)) tx d.

(** [wal_ok] is the answer of [append_commit_and_wait]. *)
Definition commit (tx timestamp : Z) (wal_ok : bool) : sm unit :=
  let* _ := s_log (WCommitTxn tx timestamp) in
  let* _ := fun d => match db_wal d with
                     | Some _ => (if wal_ok then s_ret tt else s_fail (TxFailed TxManager.WalFailed)) d
                     | None => s_ret tt d
                     end in
  let* _ := commit_mark_versions tx in
  s_leave (TxManager.AlreadyCommitted tx) tx.

(** The entry of a primary or unique key.  [derived] is the key of the version
    before, when it can be had. *)
Definition repair_entry (r : IndexRef) (key : list byte) (derived : option (option (list byte))) (prev : option RowId)
    : sm unit :=
  match derived, prev with
  | Some (Some dk), Some prev =>
      if bool_decide (dk = key) then s_update_key fuel r key prev
      else let* _ := s_delete_key fuel r key in s_insert_key fuel r dk prev
  | Some None, Some _ => s_delete_key fuel r key
  | None, Some prev => s_update_key fuel r key prev
  | _, None => s_delete_key fuel r key
  end.

Definition repair_exact (r : IndexRef) (row_id : RowId) (key : list byte) (derived : option (option (list byte)))
    (prev : option RowId) : sm unit :=
  let* _ := s_delete_exact fuel r key row_id in
  match derived, prev with
  | Some (Some dk), Some prev => s_insert_key fuel r dk prev
  | None, Some prev => s_insert_key fuel r key prev
  | _, _ => s_ret tt
  end.

(** An entry that the transaction removed by setting the column to NULL. *)
Definition restore_entry (r : IndexRef) (derived : option (option (list byte))) (prev : option RowId) : sm unit :=
  match prev, derived with
  | Some prev, Some (Some dk) => s_insert_key fuel r dk prev
  | _, _ => s_ret tt
  end.

Definition repair_pk (row_id : RowId) (derived : option (option (list byte))) (prev : option RowId) : sm unit :=
  let* key := s_find_key PkIndex row_id in
  match key with Some key => repair_entry PkIndex key derived prev | None => s_ret tt end.

Fixpoint repair_uniques (pos : nat) (row_id : RowId) (derived : list (option (option (list byte)))) (prev : option RowId)
    : sm unit :=
  match derived with
  | [] => s_ret tt
  | dk :: derived =>
      let* key := s_find_key (UniqueIndex pos) row_id in
      let* _ := match key with
                | Some key => repair_entry (UniqueIndex pos) key dk prev
                | None => restore_entry (UniqueIndex pos) dk prev
                end in
      repair_uniques (S pos) row_id derived prev
  end.

Fixpoint repair_secondaries (pos : nat) (row_id : RowId) (derived : list (option (option (list byte)))) (prev : option RowId)
    : sm unit :=
  match derived with
  | [] => s_ret tt
  | dk :: derived =>
      let* key := s_find_key (SecondaryIndex pos) row_id in
      let* _ := match key with
                | Some key => repair_exact (SecondaryIndex pos) row_id key dk prev
                | None => restore_entry (SecondaryIndex pos) dk prev
                end in
      repair_secondaries (S pos) row_id derived prev
  end.

Definition neutralise (row_id : RowId) (vh : VersionHeader.vheader) : sm unit :=
  s_update_header row_id (VersionHeader.mark_aborted vh).

Definition s_next_version (vh : VersionHeader.vheader) : sm (option RowId) :=
  s_lift (exec_map_err DataScan.never (VersionHeader.next_version vh)).

(** One version of the first pass: its entries go back to the version before. *)
Definition abort_indexed (row_id : RowId) : sm unit :=
  let* (vh, _) := s_read_tuple row_id in
  let* prev := s_next_version vh in
  let* keys := match prev with Some prev => read_prev_index_keys prev | None => s_ret None end in
  let* t := s_table in
  let* _ := repair_pk row_id ((fun k => k.1.1) <$> keys) prev in
  let* _ := repair_uniques 0 row_id
    match keys with Some (_, us, _) => Some <$> us | None => (fun _ => None) <$> unique_indexes t end prev in
  let* _ := repair_secondaries 0 row_id
    match keys with Some (_, _, ss) => Some <$> ss | None => (fun _ => None) <$> secondary_indexes t end prev in
  neutralise row_id vh.

Fixpoint insert_keys_at (mk : nat -> IndexRef) (pos : nat) (keys : list (option (list byte))) (row_id : RowId) : sm unit :=
  match keys with
  | [] => s_ret tt
  | key :: keys =>
      let* _ := match key with Some key => s_insert_key fuel (mk pos) key row_id | None => s_ret tt end in
      insert_keys_at mk (S pos) keys row_id
  end.

(** Back along the versions to the first one of another transaction. *)
Fixpoint restore_from (steps : nat) (tx : Z) (cursor : option RowId) : sm unit :=
  match cursor, steps with
  | None, _ | _, O => s_ret tt
  | Some row_id, S steps =>
      let* read := s_try (s_read_tuple row_id) in
      match read with
      | inr _ => s_ret tt
      | inl (vh, tuple) =>
          if VersionHeader.create_tx_id vh =? tx then
            let* next := s_next_version vh in restore_from steps tx next
          else if VersionHeader.is_deleted vh then s_ret tt
          else
            let* t := s_table in
            let* (pk, us, ss) := s_lift (extract_index_keys t tuple) in
            let* _ := match pk with Some key => s_insert_key fuel PkIndex key row_id | None => s_ret tt end in
            let* _ := insert_keys_at UniqueIndex 0 us row_id in
            insert_keys_at SecondaryIndex 0 ss row_id
      end
  end.

Definition restore_tombstone_index_entries (tx : Z) (tombstone : RowId) : sm unit :=
  let* (vh, _) := s_read_tuple tombstone in
  let* next := s_next_version vh in
  restore_from MAX_TOMBSTONE_CHAIN_WALK tx next.

Definition abort_tombstone (tx : Z) (row_id : RowId) : sm unit :=
  let* _ := restore_tombstone_index_entries tx row_id in
  let* (vh, _) := s_read_tuple row_id in
  neutralise row_id vh.

(** The versions the primary index knows, and the others. *)
Fixpoint split_indexed (rows : list RowId) : sm (list RowId * list RowId) :=
  match rows with
  | [] => s_ret ([], [])
  | r :: rows =>
      let* key := s_find_key PkIndex r in
      let* (indexed, others) := split_indexed rows in
      s_ret (match key with Some _ => (r :: indexed, others) | None => (indexed, r :: others) end)
  end.

Fixpoint s_each {A} (f : A -> sm unit) (l : list A) : sm unit :=
  match l with
  | [] => s_ret tt
  | x :: l => let* _ := f x in s_each f l
  end.

Definition abort_table (tx : Z) (rows : gset RowId) : sm unit :=
  let* created := versions_created_by tx in
  let* (indexed, tombstones) := split_indexed (order (rows ∪ list_to_set created)) in
  let* _ := s_each abort_indexed indexed in
  s_each (abort_tombstone tx) tombstones.

(** Only the table at hand is resolved. *)
Definition abort_recorded (tx : Z) (recorded : list byte * gset RowId) : sm unit :=
  let* t := s_table in
  if bool_decide (recorded.1 = table_name t) then abort_table tx recorded.2
  else s_fail (TxFailed (TxManager.NoTableMeta recorded.1)).

Definition abort_cleanup_versions (tx : Z) : sm unit := fun d =>
  s_each (abort_recorded tx) (map_to_list (default ∅ (TxManager.tx_versions (db_tx d) !! tx))) d.

Definition abort_by_id (tx : Z) : sm unit :=
  let* _ := s_log (WAbortTxn tx) in
  let* _ := abort_cleanup_versions tx in
  s_leave (TxManager.AlreadyAborted tx) tx.

End rollback.
