(* ===== verification/StoredScans.v ===== *)
(** * Scans of stored tables

    A sequential scan ([DataScanExecutor], [src/executor/data_scan.rs]) of a
    table whose abstract content is its list of versions: the stream is a function
    of that list and of the reader alone.  Version links, superseder walks and
    page summaries appear here on versions; the pages stay behind [versions]. *)

From Stdlib Require Import ZArith Strings.Byte Lia.
From stdpp Require Import base tactics list numbers gmap.
From S2P Require Import Prelude RowKey PageLayout Values IndexKey Tuple Version TxManager Overflow DataPage.
From S2P Require DataScan.
From S2P Require Import BTreeNode BTree BTreeInsert IndexManager WalRecord Text DateTime Like Expr Table.
From S2P Require Import Budget Executor Hashing Ordering Plan Pipeline TableAccess Statements DataChain StoredIndexes StoredTables.
Import Key RowId Narrowing.
#[local] Open Scope Z_scope.

(** ** What a reader sees of a list of versions *)

Definition v_slot (v : Version) : DataScan.SlotRow := mk_row (v_rid v) (v_header v) [].

Definition v_link (v : Version) : option DataScan.VersionLink := DataScan.link_of (v_slot v).

(** The newest version that names [rid] as its older one. *)
Definition v_links (vs : list Version) : DataScan.SupersededMap := foldl DataScan.merge_link ∅ (omap v_link vs).

Fixpoint v_find (vs : list Version) (rid : RowId) : option VersionHeader.vheader :=
  match vs with
  | [] => None
  | v :: vs => if bool_decide (v_rid v = rid) then Some (v_header v) else v_find vs rid
  end.

Section reader.
Context (sn : option Snapshot.snapshot) (active : gset Z).

(** [None]: the links leave the table or the chain is too deep. *)
Fixpoint v_walk (vs : list Version) (n : nat) (rid : RowId) : option bool :=
  match n with
  | O => None
  | S n =>
      match v_find vs rid with
      | None => None
      | Some vh =>
          if DataScan.superseder_suppresses vh sn active then Some true
          else match v_links vs !! rid with None => Some false | Some (next, _) => v_walk vs n next end
      end
  end.

Definition v_superseded (vs : list Version) (rid : RowId) : option bool :=
  match v_links vs !! rid with None => Some false | Some (s, _) => v_walk vs DataScan.MAX_CHAIN_DEPTH s end.

Definition v_shown (v : Version) : bool := DataScan.row_shown sn (v_slot v).

Definition v_emitted (vs : list Version) (v : Version) : bool :=
  v_shown v && negb (default false (v_superseded vs (v_rid v))).

(** The links stay in the table and end. *)
Record links_closed (vs : list Version) : Prop := {
  lc_targets : forall rid, is_Some (v_links vs !! rid) -> rid ∈ v_rid <$> vs;
  lc_walks : forall rid, is_Some (v_superseded vs rid) }.

Definition v_row (t : TableMeta) (v : Version) : exec TupleError Row :=
  deserialize_row (v_tuple v) (table_schema t) (column_defaults t).

(** The table as the reader sees it. *)
Definition view (vs : list Version) : list Version := filter (fun v => v_emitted vs v = true) vs.

End reader.

(** The summary entry of a page neither vouches for its rows nor hides one. *)
Definition summaries_open (vis : DataScan.VisMap) (vs : list Version) : Prop :=
  Forall (fun v => VersionHeader.is_deleted (v_header v) = false ->
    summary_open vis (VersionHeader.create_tx_id (v_header v)) (page_id (v_rid v))) vs.

(** A snapshot taken at or after the start of its own transaction. *)
Definition dated (sn : option Snapshot.snapshot) : Prop :=
  match sn with None => True | Some s => Snapshot.tx_id s <= Snapshot.high_water s end.

(** ** The pages behind the versions *)

Lemma link_of_slot slot v d ts : slot_version d ts slot v -> DataScan.link_of slot = v_link v.
Proof. intros (E1 & E2 & _). unfold v_link, DataScan.link_of. cbn. by rewrite E1, E2. Qed.

Lemma shown_slot sn slot v d ts : slot_version d ts slot v -> DataScan.row_shown sn slot = v_shown sn v.
Proof. intros (E1 & E2 & _). unfold v_shown, DataScan.row_shown. cbn. by rewrite E2. Qed.

Lemma omap_Forall2 {A B C} (R : A -> B -> Prop) (f : A -> option C) (g : B -> option C) l k :
  Forall2 R l k -> (forall x y, R x y -> f x = g y) -> omap f l = omap g k.
Proof. intros H E. induction H as [|x y l k Hx _ IH]; [done|]. cbn. by rewrite (E x y Hx), IH. Qed.

Lemma v_find_stored d ts rows vs rid vh : Forall2 (slot_version d ts) rows vs -> v_find vs rid = Some vh ->
  exists tuple, stored d ts rid vh tuple.
Proof.
  induction 1 as [|slot v rows vs (E1 & E2 & St) _ IH]; [done|]. cbn [v_find].
  case_bool_decide as Hr; [intros [= <-]; subst rid; eauto|done].
Qed.

(** The tuple segment of a slot is that of its row. *)
Lemma a_find_nodup lid es i k bs : NoDup (fst <$> es) -> es !! k = Some (lid, bs) -> snd <$> a_find lid es i = Some bs.
Proof.
  revert i k. induction es as [|[l b] es IH]; intros i k; [done|]. rewrite fmap_cons, NoDup_cons. intros [Hl ND]. cbn [a_find].
  destruct k as [|k]; [intros [= -> ->]; by rewrite Z.eqb_refl|]. cbn [lookup list_lookup]. intros Hk.
  rewrite (proj2 (Z.eqb_neq _ _)); [by apply (IH _ k)|]. intros ->. apply Hl. apply (list_elem_of_fmap_2' fst es (lid, bs)); [|done].
  by eapply list_elem_of_lookup_2.
Qed.

Lemma page_row_bytes pages pid slot :
  pages !! pid = Some (DataScan.image pages pid) -> scan_page pid (DataScan.image pages pid) -> slot ∈ page_rows pid (DataScan.image pages pid) ->
  exists bytes, DataPage.row_bytes pages (DataScan.row_rid slot) = Some bytes /\ DataScan.row_tuple slot = slice bytes 22 (zlen bytes).
Proof.
  intros Ed SP Hs. unfold DataScan.page_rows in Hs. apply list_elem_of_fmap in Hs as ([lid bytes] & -> & Hin).
  apply list_elem_of_lookup_1 in Hin as [k Hk]. exists bytes. cbn [DataScan.row_rid DataScan.row_tuple]. split; [|done].
  unfold DataPage.row_bytes. cbn [page_id slot_id]. rewrite Ed. cbn [mbind option_bind]. apply (a_find_nodup _ _ _ k); [|done].
  rewrite (DataScan.sc_dense _ _ SP). apply NoDup_seqZ.
Qed.

Section scan.
Context {rt : Runtime} (d : Db) (ts : Layout) (vs : list Version) (sn : option Snapshot.snapshot) (active : list Z).
Context (ok : table_ok d ts) (V : versions d ts vs) (HV : vs <> []).
Context (LC : links_closed sn (list_to_set active) vs) (SO : summaries_open (db_vis d) vs) (DT : dated sn).

Let pages := pool_pages (db_pool d).
Let act : gset Z := list_to_set active.

Lemma links_eq : DataScan.chain_map pages (chain ts) = v_links vs.
Proof using V. unfold DataScan.chain_map, v_links. f_equal. apply (omap_Forall2 _ _ _ _ _ V). intros slot v. apply link_of_slot. Qed.

Lemma walk_eq n rid b : v_walk sn act vs n rid = Some b -> DataScan.walk_superseders pages (v_links vs) sn act n rid = Ok b.
Proof using V.
  revert rid. induction n as [|n IH]; intros rid; [done|]. cbn [v_walk DataScan.walk_superseders].
  destruct (v_find vs rid) as [vh|] eqn:F; [|done]. destruct (v_find_stored _ _ _ _ _ _ V F) as [tuple St].
  unfold pages. rewrite (stored_reads _ _ _ _ _ St). cbn [exec_map_err exec_bind].
  destruct (DataScan.superseder_suppresses vh sn act); [by intros [= <-]|].
  destruct (v_links vs !! rid) as [[next tx]|]; [apply IH|by intros [= <-]].
Qed.

Lemma superseded_eq rid b : v_superseded sn act vs rid = Some b -> DataScan.slot_is_superseded pages (v_links vs) sn act rid = Ok b.
Proof using V.
  unfold v_superseded, DataScan.slot_is_superseded. destruct (v_links vs !! rid) as [[s tx]|]; [apply walk_eq|by intros [= <-]].
Qed.

Lemma chain_pages_ok : data_chain pages (chain ts).
Proof using ok V HV.
  destruct (ca_pages _ _ _ _ (ok_chain _ _ ok)) as [[E EZ]|HC]; [|done]. exfalso. apply HV. unfold versions in V.
  rewrite E, (chain_rows_one _ _ _ EZ) in V. unfold DataScan.page_rows in V. rewrite zeroed_entries in V. by inversion V.
Qed.

Lemma slot_of_version slot : slot ∈ chain_rows pages (chain ts) -> exists v, v ∈ vs /\ slot_version d ts slot v.
Proof using V.
  intros [k Hk]%list_elem_of_lookup_1. destruct (Forall2_lookup_l _ _ _ _ _ V Hk) as (v & Hv & Sv). exists v. split; [by eapply list_elem_of_lookup_2|done].
Qed.

Lemma links_ok_chain : DataScan.links_ok pages (chain ts) sn act.
Proof using V LC.
  split; rewrite links_eq.
  - intros rid H. apply (lc_targets _ _ _ LC) in H as (v & -> & Hv)%list_elem_of_fmap.
    apply list_elem_of_lookup_1 in Hv as [k Hk]. destruct (Forall2_lookup_r _ _ _ _ _ V Hk) as (slot & Hs & E & _).
    exists slot. split; [by eapply list_elem_of_lookup_2|done].
  - intros slot _. destruct (lc_walks _ _ _ LC (DataScan.row_rid slot)) as [b Hb]. by rewrite (superseded_eq _ _ Hb).
Qed.

Lemma vis_ok_chain : DataScan.vis_ok pages sn (chain ts) (db_vis d).
Proof using ok V HV SO DT.
  intros pid info s Hp Hi Es.
  assert (Page : forall slot, slot ∈ page_rows pid (DataScan.image pages pid) -> VersionHeader.is_deleted (DataScan.row_vh slot) = false ->
    PageVis.all_visible info = false /\ PageVis.min_create_tx_id info <= VersionHeader.create_tx_id (DataScan.row_vh slot)).
  { intros slot Hs Hd.
    assert (slot ∈ chain_rows pages (chain ts)) as Hc.
    { unfold DataScan.chain_rows. apply list_elem_of_In, in_concat. exists (page_rows pid (DataScan.image pages pid)).
      split; apply list_elem_of_In; [|done]. by apply (list_elem_of_fmap_2 (fun p => page_rows p (DataScan.image pages p))). }
    destruct (slot_of_version slot Hc) as (v & Hv & E1 & E2 & _). unfold summaries_open in SO. rewrite Forall_forall in SO.
    rewrite E2 in Hd. destruct (SO v Hv Hd) as (info' & Hi' & A & M). pose proof (DataScan.chain_pages _ _ _ chain_pages_ok Hp) as SP.
    apply list_elem_of_lookup_1 in Hs as [k Hk]. pose proof (page_row_at _ _ _ _ SP Hk) as ER. rewrite <- E1, ER in Hi'. cbn [page_id] in Hi'. rewrite Hi in Hi'. injection Hi' as <-.
    by rewrite E2. }
  split.
  - intros A slot Hs Hd. destruct (Page slot Hs Hd) as [A' _]. by rewrite A in A'.
  - intros I slot Hs. unfold DataScan.row_shown. destruct (VersionHeader.is_deleted (DataScan.row_vh slot)) eqn:Hd; [done|].
    destruct (Page slot Hs Hd) as [_ M]. rewrite Es in DT |- *. cbn in DT. unfold PageVis.all_invisible_for in I.
    apply andb_true_iff in I as [_ I%Z.ltb_lt]. unfold Snapshot.is_visible, Snapshot.is_visible_self. cbn [negb andb].
    rewrite (proj2 (Z.eqb_neq _ _)) by lia. cbn [andb]. rewrite orb_false_r.
    destruct (VersionHeader.commit_tx_id _); [|done]. by rewrite (proj2 (Z.ltb_lt _ _)) by lia.
Qed.

Lemma sup_eq rid : DataScan.superseded_by pages (v_links vs) sn act rid = default false (v_superseded sn act vs rid).
Proof using V LC.
  unfold DataScan.superseded_by. destruct (lc_walks _ _ _ LC rid) as [b Hb]. fold act in Hb. by rewrite (superseded_eq _ _ Hb), Hb.
Qed.

Lemma emitted_eq slot v : slot_version d ts slot v ->
  DataScan.emitted sn (DataScan.superseded_by pages (v_links vs) sn act) slot = v_emitted sn act vs v.
Proof using V LC.
  intros Sv. unfold DataScan.emitted, v_emitted. rewrite (shown_slot _ _ _ _ _ Sv). destruct Sv as (E & _). by rewrite E, sup_eq.
Qed.

(** What the scan makes of a row. *)
Definition row_result (predicate : option Pred) (projection : list Z) (row : Row) : exec DataScan.ScanError (option Row) :=
  let? kept := DataScan.filter_row (scan_predicate <$> predicate) row in
  match kept with
  | Some values => let? out := DataScan.apply_projection (Z.to_nat <$> projection) values in Ok (Some out)
  | None => Ok None
  end.

Lemma slot_tuple_stored slot v : slot ∈ chain_rows pages (chain ts) -> slot_version d ts slot v ->
  DataScan.slot_tuple pages (DataScan.row_tuple slot) = Ok (v_tuple v).
Proof using ok V HV.
  intros Hs (E1 & _ & St). pose proof chain_pages_ok as HC.
  destruct (DataScan.chain_row_slot _ _ _ HC Hs) as (pid & k & Hp & Hk & _). pose proof (DataScan.chain_pages _ _ _ HC Hp) as SP.
  assert (pages !! pid = Some (DataScan.image pages pid)) as Ed.
  { apply chain_linked in HC as [_ HL]. apply list_elem_of_lookup_1 in Hp as [j Hj]. destruct (HL j pid Hj) as (x & Ex & _).
    unfold DataScan.image. by rewrite Ex. }
  apply list_elem_of_lookup_2 in Hk. destruct (page_row_bytes pages pid slot Ed SP Hk) as (bytes & RB & ->).
  destruct St as [(tb & roots & HB & HR & _) _ _ Wv]. rewrite E1 in RB. fold pages in HB.
  pose proof (VersionFacts.length_to_bytes _ Wv) as L. set (vb := VersionHeader.to_bytes (v_header v)) in *. clearbody vb.
  assert (bytes = vb ++ tb) as -> by congruence.
  assert (ZV : zlen vb = 22) by (unfold zlen; lia). pose proof (zlen_nonneg tb). rewrite slice_app_r, zlen_app, ZV by lia.
  replace (22 + zlen tb - 22) with (zlen tb) by lia. rewrite slice_whole by lia. apply slot_tuple_ok. by apply HR.
Qed.

Context (predicate : option Pred) (cap : option Z) (projection : list Z) (HN : is_in_flight (table_narrowing (db_table d)) = false).

Definition table_scan : DataScanExecutor :=
  data_scan_new (db_table d) (db_pool d) (db_vis d) sn predicate cap (Some active) projection.

(** What one version of the table adds to the stream. *)
Definition v_output (v : Version) : exec DataScan.ScanError (option Row) :=
  if v_emitted sn act vs v then let? row := exec_map_err DataScan.ScanTuple (v_row (db_table d) v) in row_result predicate projection row
  else Ok None.

Lemma output_eq slot v : slot ∈ chain_rows pages (chain ts) -> slot_version d ts slot v ->
  DataScan.scan_output (dse_scan table_scan) pages (chain ts) act slot = v_output v.
Proof using ok V HV LC.
  intros Hs Sv. unfold DataScan.scan_output, DataScan.output, v_output. rewrite links_eq.
  change (DataScan.scan_snapshot (dse_scan table_scan)) with sn. rewrite (emitted_eq slot v Sv).
  destruct (v_emitted sn act vs v); [|done]. unfold DataScan.row_output. by rewrite (slot_tuple_stored slot v Hs Sv).
Qed.

End scan.

(** A scan that runs to its end is a stream. *)
Lemma drain_yields {rt : Runtime} pool fuel n s vis rows vis' :
  DataScan.drain (pool_pages pool) fuel n s vis = Some (Ok rows, vis') -> yields (mk_data_scan_executor pool vis s) (ResRow <$> rows) (Ok tt).
Proof.
  revert s vis rows. induction n as [|n IH]; intros s vis rows; [done|]. cbn [DataScan.drain].
  destruct (DataScan.scan_next (pool_pages pool) fuel s vis) as [[[[[row|] s']| |] v]|] eqn:E; try done.
  - destruct (DataScan.drain _ _ _ _ _) as [[[rs| |] v2]|] eqn:D; try done. intros [= <- <-]. rewrite fmap_cons.
    eapply (yields_next fuel _ _ (mk_data_scan_executor pool v s')); [|by apply IH]. cbn [next data_scan_executor]. unfold data_scan_next.
    cbn [dse_pool dse_scan dse_vis]. by rewrite E.
  - intros [= <- <-]. eapply (yields_end fuel _ (mk_data_scan_executor pool v s')). cbn [next data_scan_executor]. unfold data_scan_next.
    cbn [dse_pool dse_scan dse_vis]. by rewrite E.
Qed.

(** ** The stream of a table *)

Definition cut (cap : option Z) (rows : list Row) : list Row := match cap with None => rows | Some n => take (Z.to_nat n) rows end.

(** The rows a reader sees, in the order of the versions. *)
Definition sees_rows (t : TableMeta) (sn : option Snapshot.snapshot) (active : gset Z) (vs : list Version) (rows : list Row) : Prop :=
  Forall2 (fun v row => v_row t v = Ok row) (view sn active vs) rows.

(** A table at rest for a reader: its summaries are not in the way and its links
    end within the table. *)
Record at_rest (d : Db) (ts : Layout) (sn : option Snapshot.snapshot) (active : gset Z) (vs : list Version) : Prop := {
  ar_ok : table_ok d ts;
  ar_versions : versions d ts vs;
  ar_links : links_closed sn active vs;
  ar_summaries : summaries_open (db_vis d) vs;
  ar_flight : is_in_flight (table_narrowing (db_table d)) = false }.

Lemma omap_view (P : Version -> bool) (f : Version -> exec DataScan.ScanError (option Row)) vs (outs : list (option Row)) :
  Forall2 (fun v o => f v = Ok o) (filter (fun v => P v = true) vs) outs ->
  Forall (fun v => is_ok (if P v then f v else Ok None) = true) vs
  /\ omap (fun v => match (if P v then f v else Ok None) with Ok o => o | _ => None end) vs = omap id outs.
Proof.
  revert outs. induction vs as [|v vs IH]; intros outs; [rewrite filter_nil; by inversion_clear 1|]. rewrite filter_cons.
  destruct (P v) eqn:E; cbn [decide]; [destruct (decide (true = true)); [|done]|destruct (decide (false = true)); [done|]]; intros H.
  - apply Forall2_cons_inv_l in H as (o & outs' & Eo & H & ->). destruct (IH _ H) as [A B].
    split; [constructor; [by rewrite E, Eo|done]|]. cbn [omap list_omap]. rewrite E, Eo, B. by destruct o.
  - destruct (IH _ H) as [A B]. split; [constructor; [by rewrite E|done]|]. cbn [omap list_omap]. by rewrite E, B.
Qed.

(** A scan of a table that holds something gives the rows its reader sees,
    filtered, projected and cut. *)
Lemma scan_stored {rt : Runtime} d ts sn active vs predicate cap projection rows outs :
  at_rest d ts sn (list_to_set active) vs -> vs <> [] -> dated sn ->
  sees_rows (db_table d) sn (list_to_set active) vs rows ->
  Forall2 (fun row o => row_result predicate projection row = Ok o) rows outs ->
  yields (table_scan d sn active predicate cap projection) (ResRow <$> cut cap (omap id outs)) (Ok tt).
Proof.
  intros [ok V LC SO HN] HV DT SR HO. set (pages := pool_pages (db_pool d)). set (act := list_to_set active : gset Z).
  set (s := dse_scan (table_scan d sn active predicate cap projection)).
  pose proof (chain_pages_ok d ts vs ok V HV) as HC.
  destruct (omap_view (v_emitted sn act vs)
    (fun v => let? row := exec_map_err DataScan.ScanTuple (v_row (db_table d) v) in row_result predicate projection row) vs outs) as [A B].
  { change (filter _ vs) with (view sn act vs). unfold sees_rows in SR. revert SR HO. fold act. generalize (view sn act vs). intros l SR. revert outs.
    induction SR as [|v row l rows Ev _ IH]; intros outs HO; inversion HO; subst; constructor; [by rewrite Ev|by apply IH]. }
  assert (EO : Forall2 (fun o v => o = v_output d vs sn active predicate projection v)
    (DataScan.scan_output s pages (chain ts) act <$> chain_rows pages (chain ts)) vs).
  { apply Forall2_fmap_l. apply Forall2_same_length_lookup_2; [by apply Forall2_length in V|]. intros i slot v Hs Hv.
    destruct (Forall2_lookup_l _ _ _ _ _ V Hs) as (v' & Hv' & Sv). rewrite Hv in Hv'. injection Hv' as <-.
    apply list_elem_of_lookup_2 in Hs. exact (output_eq d ts vs sn active ok V HV LC predicate cap projection slot v Hs Sv). }
  assert (Es : DataScan.with_projection (DataScan.scan_new (table_schema (db_table d)) (column_defaults (db_table d)) (hd 0 (chain ts)) false sn
    (scan_predicate <$> predicate) (Z.to_nat <$> cap) (Some active)) (Z.to_nat <$> projection) = s).
  { unfold s, table_scan, data_scan_new. cbn [dse_scan]. by rewrite HN, (ca_head _ _ _ _ (ok_chain _ _ ok)). }
  pose proof (DataScan.scan_runs pages (chain ts) (table_schema (db_table d)) (column_defaults (db_table d)) sn (scan_predicate <$> predicate)
    (Z.to_nat <$> cap) (Some active) (Z.to_nat <$> projection) (db_vis d)
    (length (chain_rows pages (chain ts)) + length (chain ts)) (S (length (chain_rows pages (chain ts))))) as R.
  cbv zeta in R. rewrite Es in R. fold act in R. destruct R as [vis' E].
  - done.
  - by apply (links_ok_chain d ts vs sn active V).
  - by apply (vis_ok_chain d ts vs sn ok V HV).
  - apply Forall_lookup. intros i o Hi. destruct (Forall2_lookup_l _ _ _ _ _ EO Hi) as (v & Hv & ->). rewrite Forall_lookup in A.
    exact (A i v Hv).
  - lia.
  - lia.
  - apply drain_yields in E. rewrite (omap_Forall2 _ _ (fun v => match v_output d vs sn active predicate projection v with Ok o => o | _ => None end) _ _ EO) in E
      by by intros o v ->.
    change (omap _ vs) with (omap (fun v => match (if v_emitted sn act vs v then let? row := exec_map_err DataScan.ScanTuple (v_row (db_table d) v) in
      row_result predicate projection row else Ok None) with Ok o => o | _ => None end) vs) in E. rewrite B in E.
    assert (DataScan.capped s (omap id outs) = cut cap (omap id outs)) as EC.
    { unfold DataScan.capped. change (DataScan.scan_cap s) with (Z.to_nat <$> cap). change (DataScan.produced s) with 0%nat.
      destruct cap; [|done]. cbn [fmap option_fmap option_map cut]. by rewrite Nat.sub_0_r. }
    by rewrite EC in E.
Qed.
