(* ===== verification/StoredCommits.v ===== *)
(** * Committed rows

    COMMIT on a stored table: the headers of the versions that the transaction
    recorded are stamped, nothing else moves.  With that, what a whole transaction
    (BEGIN, INSERT, COMMIT) leaves to the readers that come after it, by scan and
    by key; and the states that ROLLBACK leaves behind. *)

From Stdlib Require Import ZArith Strings.Byte Lia.
From stdpp Require Import base tactics list numbers gmap.
From S2P Require Import Prelude RowKey PageLayout Values IndexKey Tuple Version TxManager Overflow DataPage.
From S2P Require DataScan.
From S2P Require Import BTreeNode BTree BTreeInsert IndexManager WalRecord Text DateTime Like Expr Table.
From S2P Require Import Budget Executor Hashing Ordering Plan Pipeline TableAccess Statements DataChain StoredIndexes StoredTables StoredScans Rollback.
Import Key RowId Narrowing.
#[local] Open Scope Z_scope.

(** ** Another header for a version *)

(** The version [r] under the header [h]. *)
Definition restamped (r : RowId) (h : VersionHeader.vheader) (v : Version) : Version :=
  if bool_decide (v_rid v = r) then mk_version r h (v_tuple v) else v.

(** What a changed header leaves. *)
Record stamped (d : Db) (ts : Layout) (r : RowId) (h : VersionHeader.vheader) (d' : Db) : Prop := {
  sp_ok : table_ok d' ts;
  sp_row : forall vh tuple, stored d ts r vh tuple -> stored d' ts r h tuple;
  sp_others : forall r' vh tuple, r' <> r -> stored d ts r' vh tuple -> stored d' ts r' vh tuple;
  sp_versions : forall vs, versions d ts vs -> versions d' ts (restamped r h <$> vs);
  sp_table : db_table d' = db_table d;
  sp_vis : db_vis d' = db_vis d;
  sp_tx : db_tx d' = db_tx d;
  sp_wal : db_wal d' = db_wal d }.

Lemma same_header (vh vh' : VersionHeader.vheader) (tb tb' : list byte) : VersionHeader.wf vh -> VersionHeader.wf vh' ->
  VersionHeader.to_bytes vh ++ tb = VersionHeader.to_bytes vh' ++ tb' -> tb = tb'.
Proof.
  intros W W' E. apply (app_inj_1 (VersionHeader.to_bytes vh) (VersionHeader.to_bytes vh')) in E as [_ E]; [done|].
  by rewrite !VersionFacts.length_to_bytes.
Qed.

Lemma update_header_ok d ts r vh tuple h : table_ok d ts -> stored d ts r vh tuple -> VersionHeader.wf h ->
  exists d', s_update_header r h d = Some (Ok tt, d') /\ stamped d ts r h d'.
Proof.
  intros ok [(tb & roots & HB & HR & HF) HP HW Wv] Wh. pose proof ok as [HI HC (p & Ep & HO) HA].
  destruct (chain_restamped _ _ _ _ _ _ _ h HC HP Wv Wh HB) as (pg & E & C' & RB & OT & Rows).
  set (d' := with_pool (modify (db_pool d) (page_id r) pg) d). exists d'. split; [unfold s_update_header; by rewrite E|].
  assert (Wf : forall i x, i ∈ chain ts -> pool_pages (db_pool d') !! i = Some x -> page_wf (raw_page x)).
  { intros i x Hi Ex. destruct (ca_pages _ _ _ _ C') as [[Ei EZ]|HD].
    - rewrite Ei in Hi, HP. apply list_elem_of_singleton in Hi as ->. apply list_elem_of_singleton in HP.
      cbn [db_pool d' with_pool] in Ex. rewrite EZ in Ex. injection Ex as <-. specialize (RB r). rewrite bool_decide_eq_true_2 in RB by done.
      unfold DataPage.row_bytes in RB. cbn [modify pool_pages] in EZ. rewrite HP in RB, EZ. rewrite EZ in RB. cbn [mbind option_bind] in RB. by rewrite zeroed_entries in RB.
    - apply list_elem_of_lookup_1 in Hi as [k Hk]. apply chain_linked in HD as [_ HL]. destruct (HL k i Hk) as (x' & Ex' & SP & _).
      cbn [db_pool d' with_pool] in Ex. rewrite Ex in Ex'. injection Ex' as <-. apply SP. }
  assert (Root : forall roots' tb' tuple', (forall i, i ∈ roots' -> (i ∉ chain ts) /\ (i ∉ pages_of ts) /\ i ∉ supply (db_pool d)) ->
    rooted (pool_pages (db_pool d)) roots' tb' tuple' -> rooted (pool_pages (db_pool d')) roots' tb' tuple').
  { intros roots' tb' tuple' HF' HR'. apply (rooted_agree (pool_pages (db_pool d))); [|done]. intros i Hi. cbn. apply lookup_insert_ne.
    intros <-. by destruct (HF' _ Hi) as [? _]. }
  assert (Row : forall vh' tuple', stored d ts r vh' tuple' -> stored d' ts r h tuple').
  { intros vh' tuple' [(tb' & roots' & HB' & HR' & HF') _ _ Wv']. rewrite HB in HB'. apply Some_inj in HB'.
    apply (same_header vh vh' tb tb' Wv Wv') in HB' as <-. split; [|done|intros x; by apply Wf|done].
    exists tb, roots'. split_and!; [|by apply Root|done]. cbn [db_pool d' with_pool modify pool_pages].
    by rewrite RB, bool_decide_eq_true_2. }
  assert (Others : forall r' vh' tuple', r' <> r -> stored d ts r' vh' tuple' -> stored d' ts r' vh' tuple').
  { intros r' vh' tuple' Hne [(tb' & roots' & HB' & HR' & HF') HP' HW' Wv']. split; [|done|intros x; by apply Wf|done].
    exists tb', roots'. split_and!; [|by apply Root|done]. cbn [db_pool d' with_pool modify pool_pages].
    by rewrite RB, bool_decide_eq_false_2. }
  split; try done.
  - split; [|done| |done].
    + apply (indexed_frame d d' ts [page_id r] []); [done| | |done].
      * split; [|done]. intros i Hi _. cbn. apply lookup_insert_ne. intros <-. apply Hi. by left.
      * intros i Hi%list_elem_of_singleton. subst i. split; [by apply HA|by apply (ca_fresh _ _ _ _ HC)].
    + cbn [db_table d' with_pool db_pool modify pool_pages]. destruct (decide (page_tail (db_table d) = page_id r)) as [Et|Et].
      * exists pg. rewrite Et, lookup_insert_eq. split; [done|]. apply (OT p); [by rewrite <- Et|done].
      * exists p. by rewrite lookup_insert_ne.
  - intros vs V. unfold versions. cbn [db_pool d' with_pool modify pool_pages]. rewrite Rows.
    apply Forall2_fmap_2. eapply Forall2_impl; [exact V|]. intros slot v (E1 & E2 & St). unfold restamp, restamped. rewrite E1.
    case_bool_decide as Hr; [|split_and!; [done..|by apply Others]]. split_and!; [done..|]. cbn. apply (Row (v_header v)). by rewrite <- Hr.
Qed.

(** ** Marking versions *)

Definition marked (tx : Z) (rows : list RowId) (v : Version) : Version :=
  if bool_decide (v_rid v ∈ rows) then mk_version (v_rid v) (VersionHeader.vh_commit (v_header v) tx) (v_tuple v) else v.

Definition uncheck (vis : DataScan.VisMap) (r : RowId) : DataScan.VisMap := DataScan.clear_all_visible vis (page_id r).

Record marks (tx : Z) (rows : list RowId) (d : Db) (ts : Layout) (d' : Db) : Prop := {
  mr_ok : table_ok d' ts;
  mr_stored : forall r vh tuple, stored d ts r vh tuple ->
    stored d' ts r (if bool_decide (r ∈ rows) then VersionHeader.vh_commit vh tx else vh) tuple;
  mr_versions : forall vs, versions d ts vs -> versions d' ts (marked tx rows <$> vs);
  mr_table : db_table d' = db_table d;
  mr_vis : db_vis d' = foldl uncheck (db_vis d) rows;
  mr_tx : db_tx d' = db_tx d;
  mr_wal : db_wal d' = db_wal d }.

Lemma commit_twice h tx : VersionHeader.vh_commit (VersionHeader.vh_commit h tx) tx = VersionHeader.vh_commit h tx.
Proof.
  unfold VersionHeader.vh_commit. destruct (VersionHeader.commit_raw h =? VersionHeader.DELETED_TX_ID) eqn:E; cbn; [by rewrite E|].
  by destruct (tx =? VersionHeader.DELETED_TX_ID).
Qed.

Lemma commit_wf h tx : in_u64 tx -> VersionHeader.wf h -> VersionHeader.wf (VersionHeader.vh_commit h tx).
Proof. unfold VersionHeader.vh_commit. intros Ht (A & B & C). by destruct (negb _). Qed.

Lemma stored_header d ts r vh tuple vh' tuple' : stored d ts r vh tuple -> stored d ts r vh' tuple' -> vh' = vh.
Proof. intros H H'. apply stored_reads in H, H'. rewrite H in H'. by injection H'. Qed.

Lemma versions_stored d ts vs v : versions d ts vs -> v ∈ vs -> stored d ts (v_rid v) (v_header v) (v_tuple v).
Proof. intros V [k Hk]%list_elem_of_lookup_1. by destruct (Forall2_lookup_r _ _ _ _ _ V Hk) as (slot & _ & _ & _ & ?). Qed.

(** One version. *)
Lemma write_commit_ok tx r vh tuple d ts : in_u64 tx -> table_ok d ts -> stored d ts r vh tuple ->
  exists d', write_commit_tx_id r tx d = Some (Ok tt, d') /\ stamped d ts r (VersionHeader.vh_commit vh tx) d'.
Proof.
  intros Htx ok St. destruct (update_header_ok d ts r vh tuple (VersionHeader.vh_commit vh tx) ok St) as (d' & E & S).
  { apply commit_wf; [done|apply St]. }
  exists d'. split; [|done]. unfold write_commit_tx_id, s_bind, s_read_tuple. by rewrite (stored_reads _ _ _ _ _ St).
Qed.

Lemma marked_step tx r rows vh vs d ts tuple : versions d ts vs -> stored d ts r vh tuple ->
  marked tx rows <$> (restamped r (VersionHeader.vh_commit vh tx) <$> vs) = marked tx (r :: rows) <$> vs.
Proof.
  intros V St. rewrite <- list_fmap_compose. apply list_fmap_ext. intros i v Hv. unfold compose, restamped, marked.
  pose proof (versions_stored _ _ _ v V ltac:(by eapply list_elem_of_lookup_2)) as Sv. destruct (decide (v_rid v = r)) as [Hr|Hr].
  - rewrite (bool_decide_eq_true_2 (v_rid v = r)) by done. cbn [v_rid v_header v_tuple]. rewrite Hr in Sv |- *.
    rewrite (stored_header _ _ _ _ _ _ _ St Sv), (bool_decide_eq_true_2 (r ∈ r :: rows)) by by left.
    rewrite commit_twice. by case_bool_decide.
  - rewrite (bool_decide_eq_false_2 (v_rid v = r)) by done. assert (bool_decide (v_rid v ∈ r :: rows) = bool_decide (v_rid v ∈ rows)) as ->; [|done].
    apply bool_decide_ext. rewrite elem_of_cons. tauto.
Qed.

Lemma mark_versions_ok tx rows d ts : in_u64 tx -> table_ok d ts ->
  (forall r, r ∈ rows -> exists vh tuple, stored d ts r vh tuple) ->
  exists d', mark_versions rows tx d = Some (Ok tt, d') /\ marks tx rows d ts d'.
Proof.
  intros Htx. revert d. induction rows as [|r rows IH]; intros d ok HS.
  { exists d. split; [done|]. split; try done.
    intros vs V. assert (marked tx [] <$> vs = vs) as ->; [|done]. rewrite <- (list_fmap_id vs) at 2. by apply list_fmap_ext. }
  destruct (HS r) as (vh & tuple & St); [by left|].
  destruct (write_commit_ok tx r vh tuple d ts Htx ok St) as (d1 & E1 & [ok1 Row1 Oth1 Ver1 Tab1 Vis1 Tx1 Wal1]).
  set (d2 := with_vis (uncheck (db_vis d1) r) d1).
  assert (Keep : forall r' vh' tuple', stored d ts r' vh' tuple' ->
    stored d2 ts r' (if bool_decide (r' = r) then VersionHeader.vh_commit vh' tx else vh') tuple').
  { intros r' vh' tuple' H. case_bool_decide as Hr; [|by apply Oth1]. subst r'.
    rewrite (stored_header _ _ _ _ _ _ _ St H). by apply (Row1 vh'). }
  destruct (IH d2) as (d' & E' & [ok' St' Ver' Tab' Vis' Tx' Wal']).
  { destruct ok1 as [[A B C D G] U X Y]. by split. }
  { intros r' Hr'. destruct (HS r') as (vh' & tuple' & H); [by right|]. eexists _, _. by apply Keep. }
  exists d'. split; [cbn [mark_versions]; unfold s_bind at 1; by rewrite E1|]. split; try done; cbn in *; try congruence.
  - intros r' vh' tuple' H. apply Keep, St' in H. destruct (decide (r' = r)) as [->|Hne].
    + rewrite (bool_decide_eq_true_2 (r = r)) in H by done. rewrite commit_twice in H. rewrite (bool_decide_eq_true_2 (r ∈ r :: rows)) by by left.
      by case_bool_decide.
    + rewrite (bool_decide_eq_false_2 (r' = r)) in H by done.
      assert (bool_decide (r' ∈ r :: rows) = bool_decide (r' ∈ rows)) as ->; [|done]. apply bool_decide_ext. rewrite elem_of_cons. tauto.
  - intros vs V. rewrite <- (marked_step tx r rows vh vs d ts tuple V St). by apply Ver', Ver1.
Qed.

(** ** COMMIT *)

(** What COMMIT leaves: the log record, the marks, and the transaction gone. *)
Record commits (order : gset RowId -> list RowId) (tx timestamp : Z) (d : Db) (ts : Layout) (d' : Db) : Prop := {
  co_ok : table_ok d' ts;
  co_stored : forall r vh tuple, stored d ts r vh tuple ->
    stored d' ts r (if bool_decide (r ∈ order (TxManager.get_tx_versions (db_tx d) tx)) then VersionHeader.vh_commit vh tx else vh) tuple;
  co_versions : forall vs, versions d ts vs -> versions d' ts (marked tx (order (TxManager.get_tx_versions (db_tx d) tx)) <$> vs);
  co_table : db_table d' = db_table d;
  co_vis : db_vis d' = foldl uncheck (db_vis d) (order (TxManager.get_tx_versions (db_tx d) tx));
  co_active : TxManager.active_tx_ids (db_tx d') = TxManager.active_tx_ids (db_tx d) ∖ {[tx]};
  co_recorded : TxManager.tx_versions (db_tx d') = delete tx (TxManager.tx_versions (db_tx d));
  co_wal : db_wal d' = (fun w => w ++ [WCommitTxn tx timestamp]) <$> db_wal d }.

Lemma commit_ok order tx timestamp d ts : in_u64 tx -> table_ok d ts -> tx ∈ TxManager.active_tx_ids (db_tx d) ->
  (forall r, r ∈ order (TxManager.get_tx_versions (db_tx d) tx) -> exists vh tuple, stored d ts r vh tuple) ->
  exists d', commit order tx timestamp true d = Some (Ok tt, d') /\ commits order tx timestamp d ts d'.
Proof.
  intros Htx ok Ha HS. set (d1 := with_wal ((fun w => w ++ [WCommitTxn tx timestamp]) <$> db_wal d) d).
  assert (ok1 : table_ok d1 ts) by (destruct ok as [[A B C D G] U X Y]; by split).
  destruct (mark_versions_ok tx (order (TxManager.get_tx_versions (db_tx d) tx)) d1 ts Htx ok1 HS) as (d2 & E & [ok2 St2 Ver2 Tab2 Vis2 Tx2 Wal2]).
  eexists. split.
  - unfold commit, s_log, s_modify. unfold s_bind at 1 2 3. fold d1. change (db_tx d) with (db_tx d1) in E.
    destruct (db_wal d1); unfold s_ret at 1, commit_mark_versions; rewrite E; unfold s_leave; rewrite Tx2; rewrite bool_decide_eq_true_2 by done; done.
  - split; try done. destruct ok2 as [[A B C D G] U X Y]. by split.
Qed.

(** ** Views of longer tables *)

Lemma versions_nodup d ts vs : table_ok d ts -> versions d ts vs -> NoDup (v_rid <$> vs).
Proof.
  intros ok V. pose proof (chain_rows_nodup _ _ _ _ (ok_chain _ _ ok)) as ND. replace (v_rid <$> vs) with (DataScan.row_rid <$> chain_rows (pool_pages (db_pool d)) (chain ts)); [done|].
  unfold versions in V. induction V as [|slot v rows vs (E & _) _ IH]; [done|]. rewrite !fmap_cons in *. apply NoDup_cons in ND as [_ ND].
  by rewrite E, IH.
Qed.

Lemma filter_same {A} (f g : A -> bool) (l : list A) :
  (forall x, x ∈ l -> f x = g x) -> filter (fun x => f x = true) l = filter (fun x => g x = true) l.
Proof.
  induction l as [|x l IH]; intros H; [done|]. rewrite !filter_cons, (IH (fun y Hy => H y (list_elem_of_further _ _ _ Hy))).
  rewrite (H x (list_elem_of_here _ _)). done.
Qed.

Section longer.
Context (sn : option Snapshot.snapshot) (active : gset Z) (vs more : list Version).
Context (LC : links_closed sn active vs) (HM : Forall (fun v => v_link v = None) more).

Lemma links_longer : v_links (vs ++ more) = v_links vs.
Proof using HM.
  unfold v_links. rewrite DataScan.omap_app'. assert (omap v_link more = []) as ->; [|by rewrite app_nil_r].
  clear LC. induction more as [|v l IH]; [done|]. apply Forall_cons in HM as [Hv Hl]. cbn. rewrite Hv. by apply IH.
Qed.

Lemma find_longer rid vh : v_find vs rid = Some vh -> v_find (vs ++ more) rid = Some vh.
Proof using. clear LC HM. induction vs as [|v l IH]; [done|]. cbn. by case_bool_decide. Qed.

Lemma walk_longer n rid b : v_walk sn active vs n rid = Some b -> v_walk sn active (vs ++ more) n rid = Some b.
Proof using HM.
  revert rid. induction n as [|n IH]; intros rid; [done|]. cbn [v_walk]. destruct (v_find vs rid) as [vh|] eqn:F; [|done].
  rewrite (find_longer _ _ F), links_longer. destruct (DataScan.superseder_suppresses vh sn active); [done|].
  destruct (v_links vs !! rid) as [[next ?]|]; [apply IH|done].
Qed.

Lemma superseded_longer rid : v_superseded sn active (vs ++ more) rid = v_superseded sn active vs rid.
Proof using LC HM.
  destruct (lc_walks _ _ _ LC rid) as [b Hb]. rewrite Hb. unfold v_superseded in *. rewrite links_longer.
  destruct (v_links vs !! rid) as [[s ?]|]; [by apply walk_longer|done].
Qed.

Lemma links_closed_longer : links_closed sn active (vs ++ more).
Proof using LC HM.
  split.
  - intros rid. rewrite links_longer, fmap_app, elem_of_app. intros H. left. by apply (lc_targets _ _ _ LC).
  - intros rid. rewrite superseded_longer. apply LC.
Qed.

(** New versions that supersede nothing come after what was seen before. *)
Lemma view_longer : Forall (fun v => v_rid v ∉ v_rid <$> vs) more ->
  view sn active (vs ++ more) = view sn active vs ++ filter (fun v => v_shown sn v = true) more.
Proof using LC HM.
  intros HN. unfold view. rewrite filter_app. f_equal.
  - apply filter_same. intros v _. unfold v_emitted. by rewrite superseded_longer.
  - apply filter_same. intros v Hv. rewrite Forall_forall in HN. specialize (HN v Hv). unfold v_emitted. rewrite superseded_longer.
    unfold v_superseded. destruct (v_links vs !! v_rid v) eqn:E; [|cbn; by rewrite andb_true_r].
    exfalso. apply HN, (lc_targets _ _ _ LC). rewrite E. by eexists.
Qed.

End longer.

(** ** A transaction that inserts *)

Definition committed_versions (tx : Z) (rows : list Row) (rids : list RowId) : list Version :=
  zip_with (fun row rid => mk_version rid (VersionHeader.vh_new tx (Some tx)) (enc_values row)) rows rids.

(** A snapshot taken after [tx] had ended. *)
Definition covers (sn : option Snapshot.snapshot) (tx : Z) : bool :=
  match sn with
  | None => true
  | Some s => (tx <=? Snapshot.high_water s) && negb (bool_decide (tx ∈ Snapshot.active_tx_ids s))
  end.

Definition plain_tx (tx : Z) : Prop := 0 <= tx < VersionHeader.DELETED_TX_ID.

Lemma committed_header tx : plain_tx tx ->
  VersionHeader.is_deleted (VersionHeader.vh_new tx (Some tx)) = false /\ VersionHeader.commit_tx_id (VersionHeader.vh_new tx (Some tx)) = Some tx.
Proof.
  intros [_ H]. unfold VersionHeader.is_deleted, VersionHeader.commit_tx_id. cbn. unfold VersionHeader.UNSET_TX_ID.
  unfold VersionHeader.DELETED_TX_ID in *. by rewrite !(proj2 (Z.eqb_neq _ _)) by lia.
Qed.

Lemma shown_committed s tx : plain_tx tx -> shown s (VersionHeader.vh_new tx (Some tx)) = covers (Some s) tx.
Proof.
  intros H. unfold shown. destruct (committed_header tx H) as [_ ->]. unfold Snapshot.is_visible, Snapshot.is_visible_self. cbn.
  rewrite andb_false_r, orb_false_r, Z.leb_antisym. destruct (_ <? _); [done|]. by case_bool_decide.
Qed.

Lemma v_shown_committed sn tx rid tuple : plain_tx tx -> v_shown sn (mk_version rid (VersionHeader.vh_new tx (Some tx)) tuple) = covers sn tx.
Proof.
  intros H. unfold v_shown, DataScan.row_shown. cbn [v_slot DataScan.row_vh v_header]. destruct (committed_header tx H) as [-> _].
  destruct sn as [s|]; [|done]. by apply shown_committed.
Qed.

Lemma marked_new tx l rows rids vs : (forall r, r ∈ l <-> r ∈ rids) -> (forall r, r ∈ rids -> r ∉ v_rid <$> vs) ->
  marked tx l <$> (vs ++ new_versions tx rows rids) = vs ++ committed_versions tx rows rids.
Proof.
  intros Hl Hn. rewrite fmap_app. f_equal.
  - rewrite <- (list_fmap_id vs) at 2. apply list_fmap_ext. intros i v Hv. unfold marked. rewrite bool_decide_eq_false_2; [done|].
    rewrite Hl. intros Hr. apply (Hn _ Hr). apply list_elem_of_fmap_2. by eapply list_elem_of_lookup_2.
  - unfold new_versions, committed_versions. clear Hn.
    assert (H : Forall (fun r => r ∈ l) rids) by (apply Forall_forall; intros r; apply Hl). clear Hl. revert rows.
    induction H as [|r rids Hr _ IH]; intros [|row rows]; try done. cbn [zip_with]. rewrite fmap_cons, IH. f_equal. unfold marked. cbn [v_rid].
    by rewrite bool_decide_eq_true_2.
Qed.

(** *** Summaries *)

Lemma summary_uncheck vis r c q : summary_open vis c q -> summary_open (uncheck vis r) c q.
Proof.
  intros (v & Hv & Av & Hm). unfold uncheck, DataScan.clear_all_visible, summary_open. destruct (decide (q = page_id r)) as [->|Hne].
  - rewrite Hv, lookup_insert_eq. by eexists.
  - exists v. by destruct (vis !! page_id r); rewrite lookup_insert_ne.
Qed.

Lemma summary_unchecks vis rows c q : summary_open vis c q -> summary_open (foldl uncheck vis rows) c q.
Proof. revert vis. induction rows as [|r rows IH]; intros vis H; [done|]. by apply IH, summary_uncheck. Qed.

Lemma summary_notes tx vis rids : in_u64 tx ->
  (forall c q, summary_open vis c q -> summary_open (foldl (note_row tx) vis rids) c q)
  /\ Forall (fun r => summary_open (foldl (note_row tx) vis rids) tx (page_id r)) rids.
Proof.
  intros Htx. revert vis. induction rids as [|r rids IH]; intros vis; [done|].
  destruct (summary_insert vis tx (page_id r) Htx) as [S1 S2]. destruct (IH (note_row tx vis r)) as [I1 I2]. cbn [foldl]. split.
  - intros c q H. by apply I1, S2.
  - constructor; [by apply I1|done].
Qed.

Lemma recorded_rows tx name rids m r :
  r ∈ TxManager.get_tx_versions (foldl (fun m rid => TxManager.record_version m tx name rid) m rids) tx <->
  r ∈ rids \/ r ∈ TxManager.get_tx_versions m tx.
Proof.
  revert m. induction rids as [|x rids IH]; intros m; [cbn; set_solver|]. cbn [foldl]. rewrite IH, elem_of_cons. clear IH.
  rewrite !TxFacts.elem_of_tx_versions. unfold TxManager.record_version. cbn [TxManager.tx_versions TxManager.set_versions].
  rewrite lookup_insert_eq. cbn [default from_option id]. set (e := default ∅ (TxManager.tx_versions m !! tx)).
  assert (((exists n rows, <[name := {[x]} ∪ default ∅ (e !! name)]> e !! n = Some rows /\ r ∈ rows)
    <-> r = x \/ exists n rows, e !! n = Some rows /\ r ∈ rows)); [|tauto]. split.
  - intros (n & rows & H & Hr). destruct (decide (n = name)) as [->|Hne].
    + rewrite lookup_insert_eq in H. injection H as <-. apply elem_of_union in Hr as [?%elem_of_singleton|Hr]; [by left|].
      destruct (e !! name) as [rows|] eqn:E; [right; eauto|]. cbn in Hr. set_solver.
    + rewrite lookup_insert_ne in H by done. right. eauto.
  - intros [->|(n & rows & H & Hr)].
    + exists name. eexists. rewrite lookup_insert_eq. split; [done|]. set_solver.
    + destruct (decide (n = name)) as [->|Hne].
      * eexists name, _. rewrite lookup_insert_eq. split; [done|]. rewrite H. cbn. set_solver.
      * exists n, rows. by rewrite lookup_insert_ne.
Qed.

(** *** BEGIN, INSERT, COMMIT *)

Definition insert_txn (fuel : nat) (order : gset RowId -> list RowId) (timestamp : Z) (rows : list Row) : sm Z :=
  let* tx := s_begin in
  let* _ := insert_next fuel (mk_insert rows (TxManager.tx_id tx) false) in
  let* _ := commit order (TxManager.tx_id tx) timestamp true in
  s_ret (TxManager.tx_id tx).

(** The records of the transaction in the log. *)
Definition txn_log (t : TableMeta) (tx timestamp : Z) (rows : list Row) (rids : list RowId) : list WalRecord :=
  WBeginTxn tx :: zip_with (fun row rid => WInsert tx (table_name t) rid (enc_values row)) rows rids ++ [WCommitTxn tx timestamp].

(** What the transaction [tx] leaves of its rows. *)
Record transacted (bound : nat) (tx timestamp : Z) (d : Db) (ts : Layout) (vs : list Version) (rows : list Row) (d' : Db) (ts' : Layout)
    (rids : list RowId) : Prop := {
  tr_ok : table_ok d' ts';
  tr_shape : shape (db_table d') = shape (db_table d);
  tr_heights : Forall (fun x => t_height x.2 <= bound)%nat ts';
  tr_new : forall r, r ∈ rids -> r ∉ v_rid <$> vs;
  tr_versions : versions d' ts' (vs ++ committed_versions tx rows rids);
  tr_open : forall c q, summary_open (db_vis d) c q -> summary_open (db_vis d') c q;
  tr_rows : Forall2 (fun row rid => stored d' ts' rid (VersionHeader.vh_new tx (Some tx)) (enc_values row)
    /\ summary_open (db_vis d') tx (page_id rid)
    /\ forall r key, (r, key) ∈ row_keys (db_table d) row -> entry ts' r (pad32 key) rid) rows rids;
  tr_active : TxManager.active_tx_ids (db_tx d') = TxManager.active_tx_ids (db_tx d) ∖ {[tx]};
  tr_wal : db_wal d' = (fun w => w ++ txn_log (db_table d) tx timestamp rows rids) <$> db_wal d }.

Lemma plain_u64 tx : plain_tx tx -> in_u64 tx.
Proof. unfold plain_tx, VersionHeader.DELETED_TX_ID. word_lia. Qed.

Lemma plain_wrap a : 0 <= a -> plain_tx (a + 1) -> wrap64 (a + 1) = a + 1.
Proof. intros H [_ H']. unfold VersionHeader.DELETED_TX_ID in H'. unfold wrap64. apply Z.mod_small. lia. Qed.

Lemma recorded_active tx name rids m :
  TxManager.active_tx_ids (foldl (fun m rid => TxManager.record_version m tx name rid) m rids) = TxManager.active_tx_ids m.
Proof. revert m. induction rids as [|r rids IH]; intros m; [done|]. cbn [foldl]. by rewrite IH. Qed.

Section transaction.
Context (fuel bound : nat) (order : gset RowId -> list RowId) (timestamp : Z) (rows : list Row) (d : Db) (ts : Layout) (vs : list Version).
Let tx : Z := TxManager.tx_id_allocator (db_tx d) + 1.
Context (ok : table_ok d ts) (V : versions d ts vs) (Htx : plain_tx tx) (Hf : (bound < fuel)%nat).
Context (Hnew : 0 <= TxManager.tx_id_allocator (db_tx d)) (Hrec : TxManager.tx_versions (db_tx d) !! tx = None).
Context (Hord : forall s, order s ≡ₚ elements s).
Context (FF : Forall (fits (db_table d)) rows) (ND : NoDup (spot <$> rows_keys (db_table d) rows)).
Context (HA : Forall (absent ts) (rows_keys (db_table d) rows)).
Context (HB : Forall (fun x => t_height x.2 + length (rows_keys (db_table d) rows) <= bound)%nat ts).
Context (HC : (rows_cost bound (db_table d) rows <= length (supply (db_pool d)))%nat).

Let d0 : Db := with_tx (TxManager.begin (db_tx d)).2 (with_wal ((fun w => w ++ [WBeginTxn tx]) <$> db_wal d) d).

Lemma begin_ok : s_begin d = Some (Ok (TxManager.begin (db_tx d)).1, d0) /\ TxManager.tx_id (TxManager.begin (db_tx d)).1 = tx
  /\ table_ok d0 ts /\ versions d0 ts vs.
Proof using ok V Htx Hnew.
  pose proof (plain_wrap _ Hnew Htx) as EW. assert (TxManager.tx_id (TxManager.begin (db_tx d)).1 = tx) as ET by exact EW. split_and!; [|done| |exact V].
  - unfold s_begin. rewrite (surjective_pairing (TxManager.begin (db_tx d))). by rewrite ET.
  - destruct ok as [[A B C D G] U X Y]. by split.
Qed.

Lemma begin_recorded r : r ∉ TxManager.get_tx_versions (db_tx d0) tx.
Proof using Hrec.
  intros (n & l & H & _)%TxFacts.elem_of_tx_versions. change (TxManager.tx_versions (db_tx d0)) with (TxManager.tx_versions (db_tx d)) in H.
  rewrite Hrec in H. done.
Qed.

Lemma insert_txn_ok : exists d' ts' rids, insert_txn fuel order timestamp rows d = Some (Ok tx, d')
  /\ transacted bound tx timestamp d ts vs rows d' ts' rids.
Proof using All.
  destruct begin_ok as (E0 & ET & ok0 & V0). pose proof (plain_u64 _ Htx) as Hu.
  destruct (insert_rows_ok fuel bound tx Hu Hf rows d0 ts 0 ok0 FF ND HA HB HC) as (d1 & ts1 & rids & E1 & [ok1 Sh1 HB1 Th1 _ Ver1 Vis1 Wal1 Tx1]).
  specialize (Ver1 vs V0). pose proof (versions_nodup _ _ _ ok1 Ver1) as NDv. rewrite fmap_app in NDv. apply NoDup_app in NDv as (_ & Dj & _).
  pose proof (Forall2_length _ _ _ Th1) as LR.
  assert (ER : v_rid <$> new_versions tx rows rids = rids).
  { clear -LR. revert rids LR. induction rows as [|row l IH]; intros [|r rids] LR; try done. cbn in *. f_equal. apply IH. lia. }
  assert (New : forall r, r ∈ rids -> r ∉ v_rid <$> vs) by (intros r Hr Hv; apply (Dj r Hv); by rewrite ER).
  set (l := order (TxManager.get_tx_versions (db_tx d1) tx)).
  assert (Hl : forall r, r ∈ l <-> r ∈ rids).
  { intros r. unfold l. rewrite Hord, elem_of_elements, Tx1, recorded_rows. pose proof (begin_recorded r). tauto. }
  assert (Act1 : TxManager.active_tx_ids (db_tx d1) = {[tx]} ∪ TxManager.active_tx_ids (db_tx d)) by (rewrite Tx1, recorded_active, <- ET; done).
  destruct (commit_ok order tx timestamp d1 ts1 Hu ok1) as (d' & E' & [ok' St' Ver' Tab' Vis' Act' Rec' Wal']).
  { rewrite Act1. apply elem_of_union. left. by apply elem_of_singleton. }
  { intros r Hr%Hl. apply list_elem_of_lookup_1 in Hr as [i Hi]. destruct (Forall2_lookup_r _ _ _ _ _ Th1 Hi) as (row & _ & [Tr _ _]). eauto. }
  fold l in St', Ver', Vis'. exists d', ts1, rids. split.
  { unfold insert_txn. unfold s_bind at 1. rewrite E0, ET. unfold s_bind at 1. unfold insert_next. cbn [insert_executed insert_tx insert_values].
    unfold s_bind at 1. rewrite E1. unfold s_ret at 1. unfold s_bind at 1. by rewrite E'. }
  pose proof (summary_notes tx (db_vis d) rids Hu) as [So1 So2]. split; try done.
  - by rewrite Tab'.
  - rewrite <- (marked_new tx l rows rids vs Hl New). by apply Ver'.
  - intros c q H. rewrite Vis', Vis1. by apply summary_unchecks, So1.
  - apply Forall2_same_length_lookup_2; [done|]. intros i row rid Hrow Hi.
    destruct (Forall2_lookup_l _ _ _ _ _ Th1 Hrow) as (rid' & Hi' & [Tr Tv Tk]). rewrite Hi in Hi'. injection Hi' as <-. split_and!.
    + specialize (St' _ _ _ Tr). by rewrite bool_decide_eq_true_2 in St' by (apply Hl; by eapply list_elem_of_lookup_2).
    + rewrite Vis'. by apply summary_unchecks.
    + intros r key. rewrite <- (row_keys_shape (db_table d1) (db_table d) row Sh1). apply Tk.
  - rewrite Act', Act1. apply set_eq. intros x. rewrite !elem_of_difference, elem_of_union. tauto.
  - rewrite Wal', Wal1. unfold txn_log. cbn [d0 db_wal with_tx with_wal]. destruct (db_wal d); [|done]. cbn. by rewrite <- !app_assoc.
Qed.

End transaction.

(** ** The readers after it *)

(** A version without an older one. *)
Lemma find_single d ts rid vh tuple sn n :
  stored d ts rid vh tuple -> VersionHeader.next_version vh = Ok None ->
  summary_open (db_vis d) (VersionHeader.create_tx_id vh) (page_id rid) -> Snapshot.tx_id sn <= Snapshot.high_water sn -> (2 <= n)%nat ->
  DataScan.find_visible_version (pool_pages (db_pool d)) (db_vis d) n rid sn = Some (Ok (if shown sn vh then Some tuple else None)).
Proof.
  intros St HN (v & Hv & Av & Hm) HD Hn. destruct n as [|[|n]]; [lia..|].
  destruct (PageVis.all_invisible_for v (Snapshot.high_water sn)) eqn:I.
  - unfold DataScan.find_visible_version, DataScan.get_visibility. rewrite Hv, Av, I.
    unfold PageVis.all_invisible_for in I. apply andb_true_iff in I as [_ I%Z.ltb_lt].
    unfold shown, Snapshot.is_visible, Snapshot.is_visible_self. rewrite (proj2 (Z.eqb_neq _ _)) by lia. cbn [andb]. rewrite orb_false_r.
    destruct (VersionHeader.commit_tx_id vh); [|done]. by rewrite (proj2 (Z.ltb_lt _ _)) by lia.
  - rewrite (find_walk _ _ _ _ _ v Hv Av I), (walk_stored d ts rid vh tuple None sn (S n) St HN). by destruct (shown sn vh).
Qed.

Section after.
Context {rt : Runtime} (bound : nat) (tx timestamp : Z) (d d' : Db) (ts ts' : Layout) (vs : list Version) (rows : list Row) (rids : list RowId).
Context (T : transacted bound tx timestamp d ts vs rows d' ts' rids) (Htx : plain_tx tx).
Context (FF : Forall (fits (db_table d)) rows) (SO : summaries_open (db_vis d) vs) (HN : is_in_flight (table_narrowing (db_table d)) = false).

Let cv : list Version := committed_versions tx rows rids.

Lemma flight_after : is_in_flight (table_narrowing (db_table d')) = false.
Proof using T HN. pose proof (tr_shape _ _ _ _ _ _ _ _ _ _ T) as Sh. unfold shape in Sh. injection Sh as _ _ _ _ _ _ _ _ _ Hn. by rewrite Hn. Qed.

Lemma row_after v : v_row (db_table d') v = v_row (db_table d) v.
Proof using T. pose proof (tr_shape _ _ _ _ _ _ _ _ _ _ T) as Sh. unfold v_row, table_schema. unfold shape in Sh. injection Sh as _ Ec _ _ _ _ _ Ed _ _. by rewrite Ec, Ed. Qed.

Lemma cv_lookup i v : cv !! i = Some v -> exists row rid, rows !! i = Some row /\ rids !! i = Some rid
  /\ v = mk_version rid (VersionHeader.vh_new tx (Some tx)) (enc_values row).
Proof using. intros (row & rid & -> & Hr & Hi)%lookup_zip_with_Some. eauto. Qed.

Lemma cv_plain : Forall (fun v => v_link v = None) cv.
Proof using. apply Forall_lookup. intros i v (row & rid & _ & _ & ->)%cv_lookup. done. Qed.

Lemma cv_new : Forall (fun v => v_rid v ∉ v_rid <$> vs) cv.
Proof using T.
  apply Forall_lookup. intros i v (row & rid & _ & Hi & ->)%cv_lookup. apply (tr_new _ _ _ _ _ _ _ _ _ _ T). by eapply list_elem_of_lookup_2.
Qed.

Lemma cv_rows : Forall2 (fun v row => v_row (db_table d') v = Ok row) cv rows.
Proof using T FF.
  pose proof (Forall2_length _ _ _ (tr_rows _ _ _ _ _ _ _ _ _ _ T)) as L.
  apply Forall2_same_length_lookup_2; [unfold cv, committed_versions; rewrite length_zip_with; lia|].
  intros i v row (row' & rid & Hr & _ & ->)%cv_lookup Hrow. rewrite Hr in Hrow. injection Hrow as ->. rewrite row_after. apply read_back.
  rewrite Forall_forall in FF. apply FF. by eapply list_elem_of_lookup_2.
Qed.

Lemma summaries_after : summaries_open (db_vis d') (vs ++ cv).
Proof using T SO.
  apply Forall_app. split.
  - eapply Forall_impl; [exact SO|]. intros v H Hd. by apply (tr_open _ _ _ _ _ _ _ _ _ _ T), H.
  - apply Forall_lookup. intros i v (row & rid & Hr & Hi & ->)%cv_lookup _.
    destruct (Forall2_lookup_l _ _ _ _ _ (tr_rows _ _ _ _ _ _ _ _ _ _ T) Hr) as (rid' & Hi' & _ & S & _). rewrite Hi in Hi'. by injection Hi' as <-.
Qed.

Lemma cv_shown sn : filter (fun v => v_shown sn v = true) cv = if covers sn tx then cv else [].
Proof using Htx.
  assert (H : forall v, v ∈ cv -> v_shown sn v = covers sn tx).
  { intros v [i Hi]%list_elem_of_lookup_1. apply cv_lookup in Hi as (row & rid & _ & _ & ->). by apply v_shown_committed. }
  rewrite (filter_same _ (fun _ => covers sn tx) cv H). clear H. destruct (covers sn tx).
  - induction cv as [|v l IH]; [done|]. rewrite filter_cons_True by done. by rewrite IH.
  - induction cv as [|v l IH]; [done|]. rewrite filter_cons_False by done. done.
Qed.

Lemma scan_after sn active predicate cap projection old outs :
  rows <> [] -> dated sn -> links_closed sn (list_to_set active) vs -> sees_rows (db_table d) sn (list_to_set active) vs old ->
  Forall2 (fun row o => row_result predicate projection row = Ok o) (old ++ (if covers sn tx then rows else [])) outs ->
  yields (table_scan d' sn active predicate cap projection) (ResRow <$> cut cap (omap id outs)) (Ok tt).
Proof using All.
  intros Hne DT LC SR HO. set (act := list_to_set active : gset Z) in *. eapply (scan_stored d' ts' sn active (vs ++ cv)); [..|exact HO].
  - split; [apply T|apply T|by apply links_closed_longer, cv_plain|apply summaries_after|apply flight_after].
  - pose proof (Forall2_length _ _ _ cv_rows) as L. intros E. apply (f_equal length) in E. rewrite length_app in E. destruct rows; [done|]. cbn in L, E. lia.
  - done.
  - unfold sees_rows. fold act. rewrite (view_longer sn act vs cv LC cv_plain cv_new), cv_shown. apply Forall2_app.
    + eapply Forall2_impl; [exact SR|]. intros v row. by rewrite row_after.
    + destruct (covers sn tx); [apply cv_rows|constructor].
Qed.

Lemma lookup_after row key out sn projection :
  row ∈ rows -> row !! pk_index (db_table d) ≫= to_key = Some key -> apply_projection projection row = Ok out -> dated sn ->
  yields (key_lookup d' sn projection (key_as_bytes key)) (if covers sn tx then [ResRow out] else []) (Ok tt).
Proof using All.
  intros Hrow Hk HP DT. assert (F : fits (db_table d') row).
  { apply (fits_shape (db_table d)); [symmetry; apply T|]. rewrite Forall_forall in FF. by apply FF. }
  apply list_elem_of_lookup_1 in Hrow as [i Hi]. destruct (Forall2_lookup_l _ _ _ _ _ (tr_rows _ _ _ _ _ _ _ _ _ _ T) Hi) as (rid & _ & St & So & En).
  assert (Hin : (PkIndex, key_as_bytes key) ∈ row_keys (db_table d) row) by (unfold row_keys; rewrite Hk; apply elem_of_app; left; by left).
  pose proof (row_keys_short (db_table d) row) as HS. rewrite Forall_forall in HS. specialize (HS _ Hin).
  apply (lookup_entry bound d' ts' sn projection (tr_ok _ _ _ _ _ _ _ _ _ _ T) (tr_heights _ _ _ _ _ _ _ _ _ _ T) flight_after (key_as_bytes key) rid
    (if covers sn tx then Some row else None)); [by apply En|done| |destruct (covers sn tx); eauto].
  intros n Hn. assert (D : sn = None \/ exists s, sn = Some s) by (destruct sn; eauto). destruct D as [Es|[s Es]]; rewrite Es in DT |- *.
  - by apply (visible_latest d' ts' None projection n rid (VersionHeader.vh_new tx (Some tx))).
  - apply (visible_found d' (Some s) projection n rid s row (covers (Some s) tx)); [done..|].
    rewrite <- (shown_committed s tx Htx). by apply (find_single d' ts' rid); [..|lia].
Qed.

End after.


Lemma sample_versions : versions sample_db sample_layout [].
Proof. unfold versions. assert (chain_rows (pool_pages (db_pool sample_db)) (chain sample_layout) = []) as ->; [by vm_compute|constructor]. Qed.

Lemma later_covers : covers (Some (Snapshot.mk 2 2 ∅)) 1 = true /\ covers (Some (Snapshot.mk 2 2 {[1]})) 1 = false.
Proof. by vm_compute. Qed.


(** ** Where ROLLBACK goes wrong *)

(** [t] with the row (3, 8), inserted and committed by transaction 1. *)
Definition row_3_committed : Db := after (insert_txn 10 elements 0 [[VInt 3; VInt 8]]) sample_db.

Definition set_3 (tx n : Z) : sm unit :=
  let* _ := update_row (rt := mk_runtime 0 (fun _ => 0)) 10 tx [mk_assignment sample_v (UpdateLiteral (VInt n))] (key_bytes 3) in s_ret tt.

Definition delete_3 (tx : Z) : sm unit := let* _ := delete_row 10 tx (key_bytes 3) in s_ret tt.

(** A transaction that changes the row and is rolled back. *)
Definition undone (order : gset RowId -> list RowId) (change : Z -> sm unit) : sm unit :=
  let* tx := s_begin in
  let* _ := change (TxManager.tx_id tx) in
  abort_by_id 10 order (TxManager.tx_id tx).

Definition latest_3 (d : Db) : option (exec QueryError (option ExecResult)) := first_answer 20 (key_lookup d None [] (key_bytes 3)).

(** Two updates of one row, rolled back: whether a reader without a snapshot finds
    the old row or the first rolled-back version depends on the order in which the
    hash set yields the two versions.  The primary entry keeps both versions in its
    reverse map, and each of them is led back to its own predecessor. *)
Theorem rollback_depends_on_order :
  let change tx := let* _ := set_3 tx 9 in set_3 tx 10 in
  let undo order := undone order change in
  outcome (undo elements) row_3_committed = Some (Ok tt)
  /\ latest_3 (after (undo elements) row_3_committed) = Some (Ok (Some (ResRow [VInt 3; VInt 8])))
  /\ outcome (undo (fun s => reverse (elements s))) row_3_committed = Some (Ok tt)
  /\ latest_3 (after (undo (fun s => reverse (elements s))) row_3_committed) = Some (Ok (Some (ResRow [VInt 3; VInt 9]))).
Proof. by vm_compute. Qed.

(** An update and a deletion of one row, rolled back: the primary index has the key
    twice.  After a later deletion that commits, the key still leads to the
    deleted row and cannot be inserted again. *)
Theorem rollback_doubles_key :
  let change tx := let* _ := set_3 tx 9 in delete_3 tx in
  let again := let* tx := s_begin in let* _ := delete_3 (TxManager.tx_id tx) in commit elements (TxManager.tx_id tx) 0 true in
  let d := after (undone elements change) row_3_committed in
  outcome (undone elements change) row_3_committed = Some (Ok tt) /\ outcome (all_keys 10) d = Some (Ok [key_bytes 3; key_bytes 3])
  /\ outcome again d = Some (Ok tt) /\ latest_3 (after again d) = Some (Ok (Some (ResRow [VInt 3; VInt 8])))
  /\ outcome (insert_row 10 9 [VInt 3; VInt 1]) (after again d) = Some (Err DuplicateKey).
Proof. by vm_compute. Qed.

(** Two updates and a deletion of one row: ROLLBACK fails, the key is lost and the
    transaction stays active. *)
Theorem rollback_fails :
  let change tx := let* _ := set_3 tx 9 in let* _ := set_3 tx 10 in delete_3 tx in
  outcome (undone elements change) row_3_committed = Some (Err (IndexError KeyNotFound))
  /\ latest_3 (after (undone elements change) row_3_committed) = Some (Ok None)
  /\ elements (TxManager.active_tx_ids (db_tx (after (undone elements change) row_3_committed))) = [2].
Proof. by vm_compute. Qed.
